(* ===== verification/_CoqProject ===== *)
-Q . S2P
Prelude.v
ByteBuffer.v
Varints.v
TimeUnwrap.v
Crc32.v
StringEncode.v
Base64.v
Base64Theory.v
PemTheory.v
Sds.v
SdsTheory.v
State.v
CopyOnWrite.v
CopyOnWriteTheory.v
IpAddress.v
IpMasks.v
MessageDigest.v
Stun.v
StunTheory.v
IceTypes.v
IcePort.v
IceController.v
IceConnection.v
IceChannel.v
IceInvariant.v
IceControllerTheory.v
IceConnectionTheory.v
IceChannelTheory.v
IceBehaviour.v
IceMessages.v
LockFreeQueue.v
Socket.v
Rtp.v
Helpers.v
Sigslot.v
SigslotTheory.v
SigslotEmission.v
Srtp.v
Dtls.v
ZeroBuffer.v
ZeroTheory.v
DtlsTheory.v
DtlsBehaviour.v
Sdp.v
SdpParse.v
SdpTheory.v
IceAgent.v
TransportController.v
TransportTheory.v
OfferTheory.v
Negotiation.v
Streams.v
StreamsTheory.v
Signaling.v
SignalingTheory.v
SignalingSafety.v
RequestBuffer.v
Servers.v
Threads.v
ThreadsTheory.v
ThreadsBoot.v
ThreadsSafety.v
ThreadsShutdown.v
ThreadsRuns.v
MessageQueue.v
MessageQueueTheory.v
Certificates.v
CertTheory.v
SslStream.v
SslTheory.v
