(* ===== verification/Prelude.v ===== *)
(** * WebRTCServer: a verification development

    The program is a media server (src/cpp/xrtcserver/src): signaling workers
    take requests over TCP and hand them to RTC workers, which keep streams.
    A stream has a peer connection; a peer connection has a transport
    controller, which owns an ICE agent with its channels and one DTLS-SRTP
    transport per channel.  The parts are modelled bottom up and the model is
    executable: an offer can be made, its text parsed back and the checks of
    a peer run by evaluation.

    ** Files

    - Prelude, State: bytes, machine words, the type [outcome] of code that
      may fail ([Undef] is undefined behaviour, named by its [fault]), a state
      monad over it, postconditions ([post]).
    - ByteBuffer, Crc32, StringEncode, IpAddress, MessageDigest: the parts of
      rtc_base the server calls.
    - Varints (byte_buffer.h), IpMasks (ip_address.cc), TimeUnwrap
      (time_utils.cc), Base64, Base64Theory, PemTheory
      (third_party/base64/base64.cc, ssl_identity.cc): integers of variable
      length, prefixes of addresses, timestamps that wrap around, and the text
      of certificates; parts of the library next to those the server calls.
    - Sds, SdsTheory: rtc_base/sds.cc and the allocation of zmalloc.cc; strings
      as a header and a block of memory whose bytes may be unwritten.
    - CopyOnWrite, CopyOnWriteTheory: rtc_base/buffer.h and
      copy_on_write_buffer.cc; the packets of the media path as handles to
      shared blocks with reference counts (ref_counted_object.h,
      api/scoped_refptr.h).
    - ZeroBuffer, ZeroTheory: the same buffers with wiping (zero_memory.cc),
      with the blocks that were given back, and the way of the SRTP keys through
      them (_setup_dtls_srtp of pc/dtls_srtp_transport.cpp).
    - Stun, StunTheory: ice/stun.cpp; messages, reading and writing, the
      fingerprint, message integrity.
    - IceTypes, IcePort, IceConnection, IceController, IceChannel: one ICE
      channel with its port, connections, requests and controller, in the
      state monad over [world]; pointers are names, freed ones are faults, and
      timers and random numbers come from [IceEnv].  IceInvariant,
      IceConnectionTheory, IceControllerTheory, IceChannelTheory: the pointer
      invariant and its preservation.  IceBehaviour, IceMessages: what the
      components do with timeouts, responses and packets.
    - Helpers: rtc_base/helpers.cc; random strings, identifiers and the ICE
      credentials made of them.
    - Sigslot, SigslotTheory, SigslotEmission: rtc_base/third_party/sigslot;
      the signals by which the parts call each other, as a machine with a stack
      of the slots that run.  The parts' own signals are modelled where they
      are raised, by the calls their slots make.
    - LockFreeQueue: base/lock_free_queue.h as interleaved steps.
    - Socket: base/socket.cpp, base/event_loop.cpp, base/async_udp_socket.cpp.
    - Rtp, Srtp, Dtls, DtlsTheory, DtlsBehaviour: classification of packets,
      SRTP sessions, the DTLS and DTLS-SRTP transports.
    - Sdp, SdpParse, SdpTheory: pc/session_description.cpp and the parser in
      pc/peer_connection.cpp.
    - IceAgent, TransportController, TransportTheory, OfferTheory:
      ice/ice_agent.cpp, pc/transport_controller.cpp, pc/peer_connection.cpp.
      The agent is written against the class [IceChannelI] and the controller
      against [IceChannelI] and [MediaI]; [world] of IceChannel and [media] of
      Dtls are instances, and their laws are proved there.
    - Negotiation: the offer with the credentials the server draws, up to the
      channels of the agent and back from the text a peer reads.
    - Streams, StreamsTheory: stream/*.cpp; the push and pull streams of a
      worker and their manager, against the class [PeerI] of peer connections
      of which TransportController's is an instance.
    - Signaling, SignalingTheory, SignalingSafety: server/signaling_worker.cpp
      and server/tcp_connection.h; requests, replies and connections.
      RequestBuffer: the dynamic string a request is read into.
    - Servers: server/rtc_server.cpp, server/rtc_worker.cpp and
      server/signaling_server.cpp; how messages reach a stream manager.
    - Threads, ThreadsTheory, ThreadsBoot, ThreadsSafety, ThreadsShutdown,
      ThreadsRuns: the threads of the servers and workers, their pipes and
      descriptors, start-up, the signal handler and the stop (main.cpp and the
      init, start, stop, notify, join and _stop of server/*.cpp), as steps of
      threads in any order over messages that are opaque.
    - MessageQueue, MessageQueueTheory: the message queue of rtc_base/thread.cc,
      to which the engine posts its timers.  A wait is an input that says when
      it ends and what other threads post meanwhile.
    - Certificates, CertTheory: rtc_base/ssl_identity.cc, rtc_certificate.cc,
      rtc_certificate_generator.cc, TmToSeconds of time_utils.cc, and the
      renewal in server/rtc_server.cpp; making keys and X.509 objects and
      reading their last day are parameters.
    - SslStream, SslTheory: the engine below the DTLS transport
      (rtc_base/openssl_stream_adapter.cc, openssl_identity.cc,
      openssl_digest.cc), over the class [OpenSSL]: a call of OpenSSL is a tree
      of the reads, writes and certificate verifications it asks for.

    A request goes through the files from the last to the first: Signaling
    frames it and makes an [RtcMsg], Servers routes it to the worker of its
    stream name, Streams makes or finds the stream, TransportController makes
    the offer or takes the answer, and the answer goes back as a reply.

    ** Theorems

    - Safety of the ICE channel (IceChannelTheory.ice_channel_pointer_safe) and
      of the DTLS-SRTP transport (DtlsTheory.srtp_only_when_connected):
      invariants of all reachable states.
    - Safety of the DTLS engine: it opens only for the announced certificate and
      uses only the objects it has, given a thread that runs its tasks
      (SslTheory).
    - Behaviour: connectivity checks and their answers (IceMessages),
      selection, ping choice and timeouts (IceControllerTheory, IceBehaviour),
      handshakes and packets (DtlsBehaviour), keys (Srtp).
    - Derived states: a channel's (IceBehaviour), the agent's (IceAgent) and
      the connection's (TransportTheory) are what the states below them mean,
      and signals tell their changes.
    - Offers and answers: the transports an offer makes and what an answer
      needs (OfferTheory), the round trip of the text (SdpTheory), and both
      together: what a peer reads from an offer is what the channels of the
      server were set up with (Negotiation).
    - Random strings have their length and their alphabet, and each character
      is as likely as the others (Helpers).
    - Round trips, equivalences and bounds of the encodings: STUN messages,
      addresses, hex, split, CRC-32, DTLS framing; termination of the packet
      loops (StunTheory).
    - The same for Base64, whose strict decoder accepts exactly the encodings
      (Base64Theory), for PEM text (PemTheory) and variable-length integers
      (Varints); truncation keeps a prefix of an address and the bits of an IPv4
      mask are the least prefix that keeps it (IpMasks); timestamps are followed
      over their wrap-around (TimeUnwrap).
    - The queue refines a FIFO under every interleaving and drains.
    - Streams: the manager implements a registry of the owners of names
      (StreamsTheory.streams_registry) and follows no dangling pointer.
    - Signaling: requests are framed whatever their chunks, replies leave whole
      and in order (SignalingTheory), connections are used only while they live
      (SignalingSafety); a name lives in one worker (Servers).
    - Threads: no wake-up is lost (ThreadsSafety), an RTC worker ends with an
      empty queue (ThreadsShutdown), and what goes wrong when a signal comes
      early or a request comes late (ThreadsRuns).
    - Dynamic strings implement byte strings within their memory, and what is
      quoted is read back (SdsTheory); which announced lengths a request buffer
      bears, and which end the process (RequestBuffer).
    - Buffers: handles of shared blocks are independent vectors with exact
      counts (CopyOnWriteTheory), released memory is wiped and no key stays
      behind a handshake (ZeroTheory).
    - Message queues: who owns the data of a message, the order in which messages
      are taken, and that a thread that waits is on time (MessageQueueTheory).
    - Certificates: the seconds of a date are those of the calendar, which ASN.1
      times are read and which past their end, and when a certificate is renewed
      (CertTheory).
    - Signals: the lists of connections stay well formed whatever the slots do,
      an emission calls what stays connected once and in order, and what
      nested emissions and second connections do (SigslotEmission).

    ** Conventions

    Fuel is the number of bytes still to be read, or one more, and lemmas show
    that more changes nothing; where a loop would run on it has left its
    memory, which is undefined (Sds).  Allocation fails only for sizes no
    allocator gives, and then ends the process ([aborted]).  Integers are Z with their wrap-around written
    out ([u16], [u32], [i32]).  OpenSSL, libsrtp, libev, sockets, the clock
    and random numbers are parameters ([SrtpLib], [DtlsEnv], [IceEnv], the
    digest, [RAND_bytes] in Helpers), and so is jsoncpp ([JsonLib]), with toy instances for the
    examples.  The loop over a query buffer has its turns as fuel, and
    SignalingTheory shows when three are enough; the Base64 decoder has the
    length of its text and one more (Base64Theory.decode_total), the writer of a
    variable-length integer its ten rounds (Varints.uvarint_fuel).  Logging is left out.

    ** Not modelled

    YAML configuration, logging and the list of networks (calls of libraries
    and the operating system); in Threads, failures of pipe, accept and write
    for want of resources, the destructors, and the connections' own traffic,
    which Signaling has; the control
    commands of the engine's BIO and its queries of versions and cipher names;
    the PEM text of keys and certificates that OpenSSL reads and writes itself,
    and their chains; of threads of rtc_base, their start and blocking sends; the
    rest of rtc_base, which the server does not use;
    the Go signaling front end and the browser pages.  *)

From Stdlib Require Export ZArith Lia.
From Stdlib Require Export Strings.Byte.
From stdpp Require Export base tactics list gmap numbers strings sorting.

Local Open Scope Z_scope.

(** ** Bytes *)

Abbreviation byte := Byte.byte (only parsing).
Abbreviation bytes := (list Byte.byte) (only parsing).

#[export] Instance byte_eq_dec : EqDecision Byte.byte := Byte.byte_eq_dec.

#[export] Program Instance byte_countable : Countable Byte.byte :=
  inj_countable Byte.to_N Byte.of_N _.
Next Obligation. intros b. apply Byte.of_to_N. Qed.

(** The unsigned value of a byte ([uint8_t]). *)
Definition byte_z (b : byte) : Z := Z.of_N (Byte.to_N b).

(** Conversion of an integer to [uint8_t]: the value modulo 256. *)
Definition z_byte (z : Z) : byte := default x00 (Byte.of_N (Z.to_N (z mod 256))).

Lemma byte_z_range b : 0 <= byte_z b < 256.
Proof.
  unfold byte_z. pose proof (Byte.to_N_bounded b) as H. lia.
Qed.

Lemma z_byte_z b : z_byte (byte_z b) = b.
Proof.
  unfold z_byte, byte_z. pose proof (Byte.to_N_bounded b) as H.
  rewrite Z.mod_small by lia. rewrite N2Z.id, Byte.of_to_N. reflexivity.
Qed.

Lemma byte_z_byte z : byte_z (z_byte z) = z mod 256.
Proof.
  unfold z_byte, byte_z. pose proof (Z.mod_pos_bound z 256 ltac:(lia)) as H.
  destruct (Byte.of_N (Z.to_N (z mod 256))) as [b|] eqn:E; simpl.
  - apply Byte.to_of_N in E. rewrite E. lia.
  - apply Byte.of_N_None_iff in E. lia.
Qed.

Lemma byte_z_inj b1 b2 : byte_z b1 = byte_z b2 -> b1 = b2.
Proof. intros H. rewrite <- (z_byte_z b1), <- (z_byte_z b2), H. reflexivity. Qed.

(** A [std::string] literal: C++ strings are byte sequences, so both
    [std::string] and [char] buffers are [list byte] in this development. *)
Definition str (s : string) : bytes := String.list_byte_of_string s.

(** ** Machine integers: the width is written out where a value is stored *)

Definition u8 (z : Z) : Z := z mod 2 ^ 8.
Definition u16 (z : Z) : Z := z mod 2 ^ 16.
Definition u32 (z : Z) : Z := z mod 2 ^ 32.
Definition u64 (z : Z) : Z := z mod 2 ^ 64.
(** Conversion to [int] (two's complement, 32 bits). *)
Definition i32 (z : Z) : Z := (z + 2 ^ 31) mod 2 ^ 32 - 2 ^ 31.

Lemma u16_id z : 0 <= z < 2 ^ 16 -> u16 z = z.
Proof. intros. unfold u16. apply Z.mod_small; lia. Qed.
Lemma u32_id z : 0 <= z < 2 ^ 32 -> u32 z = z.
Proof. intros. unfold u32. apply Z.mod_small; lia. Qed.
Lemma u64_id z : 0 <= z < 2 ^ 64 -> u64 z = z.
Proof. intros. unfold u64. apply Z.mod_small; lia. Qed.
Lemma i32_id z : - 2 ^ 31 <= z < 2 ^ 31 -> i32 z = z.
Proof. intros. unfold i32. rewrite Z.mod_small; lia. Qed.
Lemma u16_range z : 0 <= u16 z < 2 ^ 16.
Proof. apply Z.mod_pos_bound; lia. Qed.
Lemma u32_range z : 0 <= u32 z < 2 ^ 32.
Proof. apply Z.mod_pos_bound; lia. Qed.
Lemma u64_range z : 0 <= u64 z < 2 ^ 64.
Proof. apply Z.mod_pos_bound; lia. Qed.

Lemma lxor_range k a b :
  0 <= k -> 0 <= a < 2 ^ k -> 0 <= b < 2 ^ k -> 0 <= Z.lxor a b < 2 ^ k.
Proof.
  intros Hk Ha Hb. assert (0 <= Z.lxor a b) by (apply Z.lxor_nonneg; lia).
  split; [done|]. destruct (decide (Z.lxor a b = 0)) as [->|]; [lia|].
  apply Z.log2_lt_pow2; [lia|]. eapply Z.le_lt_trans; [apply Z.log2_lxor; lia|].
  apply Z.max_lub_lt.
  - destruct (decide (a = 0)) as [->|]; [|apply Z.log2_lt_pow2; lia].
    destruct (decide (k = 0)) as [->|]; [|simpl; lia].
    assert (b = 0) as -> by lia. done.
  - destruct (decide (b = 0)) as [->|]; [|apply Z.log2_lt_pow2; lia].
    destruct (decide (k = 0)) as [->|]; [|simpl; lia].
    assert (a = 0) as -> by lia. done.
Qed.

Lemma lxor_range_32 a b :
  0 <= a < 2 ^ 32 -> 0 <= b < 2 ^ 32 -> 0 <= Z.lxor a b < 2 ^ 32.
Proof. by apply lxor_range. Qed.

Lemma lor_disjoint a b k : 0 <= k -> 0 <= b < 2 ^ k -> Z.lor (a * 2 ^ k) b = a * 2 ^ k + b.
Proof.
  intros Hk Hb. rewrite <- Z.lxor_lor; [symmetry; apply Z.add_nocarry_lxor|];
    apply Z.bits_inj'; intros i Hi; rewrite Z.land_spec, Z.bits_0;
    (destruct (decide (i < k)) as [|Hik];
     [rewrite Z.mul_pow2_bits_low by lia; done|]);
    (destruct (decide (b = 0)) as [->|]; [by rewrite Z.bits_0, andb_false_r|]);
    (rewrite (Z.bits_above_log2 b); [apply andb_false_r|lia|]);
    (apply Z.lt_le_trans with k; [apply (proj1 (Z.log2_lt_pow2 b k ltac:(lia))), Hb|lia]).
Qed.

Lemma lxor_cancel_l a b c : Z.lxor a b = Z.lxor a c -> b = c.
Proof.
  intros H. apply (f_equal (Z.lxor a)) in H.
  by rewrite <- !Z.lxor_assoc, Z.lxor_nilpotent, !Z.lxor_0_l in H.
Qed.

(** ** Outcomes of C++ code

    A run ends with a value, with an uncaught exception, or with a step the
    language gives no meaning to.  The reason is kept: theorems about defects
    say which one. *)

Inductive exn : Type :=
  | out_of_range           (* std::out_of_range, thrown by substr *)
  | json_exception         (* Json::Exception, out of jsoncpp's parser *)
  | aborted.               (* abort, which ends the process *)

Inductive undef : Type :=
  | null_deref             (* a null pointer is dereferenced *)
  | use_after_free         (* a pointer to a deleted object is dereferenced *)
  | out_of_bounds          (* a read past the end of a buffer *)
  | uninitialised          (* an object with no value is read *)
  | signed_overflow        (* int arithmetic leaves its range *)
  | div_by_zero.           (* an integer is divided by zero *)

Inductive outcome (A : Type) : Type :=
  | Done (a : A)
  | Throws (e : exn)
  | Undef (u : undef).
Arguments Done {A} _.
Arguments Throws {A} _.
Arguments Undef {A} _.

#[export] Instance outcome_ret : MRet outcome := @Done.
#[export] Instance outcome_bind : MBind outcome := fun A B k m =>
  match m with
  | Done a => k a
  | Throws e => Throws e
  | Undef u => Undef u
  end.
#[export] Instance outcome_fmap : FMap outcome := fun A B f m =>
  match m with
  | Done a => Done (f a)
  | Throws e => Throws e
  | Undef u => Undef u
  end.

#[export] Instance exn_eq_dec : EqDecision exn.
Proof. solve_decision. Defined.
#[export] Instance undef_eq_dec : EqDecision undef.
Proof. solve_decision. Defined.
#[export] Instance outcome_eq_dec {A} `{EqDecision A} : EqDecision (outcome A).
Proof. solve_decision. Defined.

(** A read that must succeed: [None] is the undefined outcome [u]. *)
Definition deref {A} (u : undef) (o : option A) : outcome A :=
  match o with Some a => Done a | None => Undef u end.

Lemma outcome_bind_Done {A B} (m : outcome A) (k : A -> outcome B) b :
  (m ≫= k) = Done b <-> exists a, m = Done a /\ k a = Done b.
Proof.
  split.
  - destruct m as [a| |]; simpl; intros H; try discriminate. eauto.
  - intros (a & -> & H). exact H.
Qed.

(** ** Tactics of the development *)

(** Case analysis on the first [match] or [if] of the goal, with equation. *)
Ltac split_match :=
  match goal with
  | |- context [match ?x with _ => _ end] => destruct x eqn:?
  end.

(** Break hypotheses that bind outcomes: [x ← m; k = Done b]. *)
Ltac inv_done :=
  repeat match goal with
  | H : (_ ≫= _) = Done _ |- _ =>
      let a := fresh "v" in let E := fresh "E" in
      apply outcome_bind_Done in H as (a & E & H)
  | H : Done _ = Done _ |- _ => injection H as H; subst
  | H : deref _ ?o = Done _ |- _ => destruct o eqn:?; simpl in H; [|discriminate H]
  | H : Throws _ = Done _ |- _ => discriminate H
  | H : Undef _ = Done _ |- _ => discriminate H
  end.

(** ** Numbers below a bound, checked one by one *)

Definition all_below (n : nat) (f : Z -> bool) : bool := forallb (fun i => f (Z.of_nat i)) (seq 0 n).

Lemma all_below_spec n f :
  all_below n f = true -> forall z, 0 <= z < Z.of_nat n -> f z = true.
Proof.
  unfold all_below. rewrite forallb_forall. intros H z Hz.
  rewrite <- (Z2Nat.id z) by lia. apply H, in_seq. lia.
Qed.

Lemma all_below2_spec n m (f : Z -> Z -> bool) :
  all_below n (fun x => all_below m (f x)) = true ->
  forall x y, 0 <= x < Z.of_nat n -> 0 <= y < Z.of_nat m -> f x y = true.
Proof. intros H x y Hx Hy. apply (all_below_spec m); [|done]. by apply (all_below_spec n _ H). Qed.

(** An equation of numbers below [n], checked for each. *)
Ltac check_below n z :=
  apply Z.eqb_eq;
  match goal with |- ?e = true =>
    match eval pattern z in e with
    | ?g _ => apply (all_below_spec n g); [vm_compute; reflexivity|lia]
    end
  end.
Ltac check_below2 n m x y :=
  apply Z.eqb_eq;
  match goal with |- ?e = true =>
    match eval pattern x, y in e with
    | ?g _ _ => apply (all_below2_spec n m g); [vm_compute; reflexivity|lia..]
    end
  end.

Create HintDb rtc.
Create Rewrite HintDb rtc_rw.
#[export] Hint Resolve byte_z_range u16_range u32_range u64_range : rtc.
#[export] Hint Rewrite z_byte_z byte_z_byte : rtc_rw.

(** ** Lists *)

Section lists.
Context {A : Type}.
Implicit Types l k : list A.

Lemma take_drop_app l n : take n l ++ drop n l = l.
Proof. apply take_drop. Qed.

Lemma app_inj_length l1 l2 k1 k2 :
  length l1 = length k1 -> l1 ++ l2 = k1 ++ k2 -> l1 = k1 /\ l2 = k2.
Proof. intros Hlen Happ. by apply app_inj_1. Qed.

Lemma list_lookup_alter_inv (f : A -> A) l i j y :
  alter f i l !! j = Some y ->
  (i = j /\ exists x, l !! j = Some x /\ y = f x) \/ (i <> j /\ l !! j = Some y).
Proof.
  destruct (decide (i = j)) as [->|Hne].
  - rewrite list_lookup_alter_eq. intros (x & Hx & ->)%fmap_Some. left. eauto.
  - rewrite list_lookup_alter_ne by done. auto.
Qed.
End lists.
