(* ===== verification/ByteBuffer.v ===== *)
(** * Byte buffers (rtc_base/byte_buffer.{h,cc}, rtc_base/byte_order.h)

    Network-order integers, [ByteBufferWriter], [ByteBufferReader] and the
    in-place accessors [GetBE16], [GetBE32], [SetBE16].  The host is
    little-endian (the CMake build targets x86-64 Linux), so [htobe16] followed
    by a copy of the object is the big-endian encoding of the value. *)

From S2P Require Import Prelude.
Local Open Scope Z_scope.

(** ** Big-endian encoding *)

Fixpoint be_encode (n : nat) (z : Z) : bytes :=
  match n with
  | O => []
  | S m => z_byte (Z.shiftr z (8 * Z.of_nat m)) :: be_encode m z
  end.

Definition be_decode (bs : bytes) : Z :=
  fold_left (fun acc b => Z.shiftl acc 8 + byte_z b) bs 0.

Lemma length_be_encode n z : length (be_encode n z) = n.
Proof. induction n as [|n IH]; simpl; congruence. Qed.
#[export] Hint Rewrite length_be_encode : rtc_rw.

Lemma be_fold_encode n z acc :
  fold_left (fun acc b => Z.shiftl acc 8 + byte_z b) (be_encode n z) acc =
  acc * 256 ^ Z.of_nat n + z mod 256 ^ Z.of_nat n.
Proof.
  revert acc. induction n as [|m IH]; intros acc.
  - simpl. rewrite Z.mod_1_r. lia.
  - cbn [be_encode fold_left]. rewrite IH, byte_z_byte.
    rewrite Z.shiftl_mul_pow2, Z.shiftr_div_pow2 by lia.
    replace (2 ^ (8 * Z.of_nat m)) with (256 ^ Z.of_nat m)
      by (change 256 with (2 ^ 8); rewrite <- Z.pow_mul_r; lia).
    rewrite Nat2Z.inj_succ, Z.pow_succ_r by lia.
    assert (256 ^ Z.of_nat m > 0) by lia.
    rewrite (Z.mul_comm 256 (256 ^ _)), Z.rem_mul_r by lia.
    change (2 ^ 8) with 256. lia.
Qed.

Lemma be_decode_encode n z : be_decode (be_encode n z) = z mod 256 ^ Z.of_nat n.
Proof. unfold be_decode. rewrite be_fold_encode. lia. Qed.

Lemma be_fold_shift bs acc :
  fold_left (fun acc b => Z.shiftl acc 8 + byte_z b) bs acc =
  acc * 256 ^ Z.of_nat (length bs) + be_decode bs.
Proof.
  unfold be_decode. revert acc. induction bs as [|b bs IH]; intros acc.
  - simpl. lia.
  - cbn [fold_left length]. rewrite IH, (IH (Z.shiftl 0 8 + byte_z b)).
    rewrite Z.shiftl_mul_pow2, Nat2Z.inj_succ, Z.pow_succ_r by lia.
    change (Z.shiftl 0 8) with 0. change (2 ^ 8) with 256. lia.
Qed.

Lemma be_decode_cons b bs :
  be_decode (b :: bs) = byte_z b * 256 ^ Z.of_nat (length bs) + be_decode bs.
Proof. unfold be_decode at 1. cbn [fold_left]. apply be_fold_shift. Qed.

Lemma be_decode_range bs : 0 <= be_decode bs < 256 ^ Z.of_nat (length bs).
Proof.
  induction bs as [|b bs IH]; [done|].
  rewrite be_decode_cons. cbn [length].
  rewrite Nat2Z.inj_succ, Z.pow_succ_r by lia.
  pose proof (byte_z_range b). nia.
Qed.
#[export] Hint Resolve be_decode_range : rtc.

Lemma be_encode_add n z k : be_encode n (z + k * 256 ^ Z.of_nat n) = be_encode n z.
Proof.
  revert z k. induction n as [|m IH]; intros z k; [done|].
  cbn [be_encode]. f_equal.
  - apply byte_z_inj. rewrite !byte_z_byte, !Z.shiftr_div_pow2 by lia.
    replace (2 ^ (8 * Z.of_nat m)) with (256 ^ Z.of_nat m)
      by (change 256 with (2 ^ 8); rewrite <- Z.pow_mul_r; lia).
    rewrite Nat2Z.inj_succ, Z.pow_succ_r by lia.
    replace (k * (256 * 256 ^ Z.of_nat m)) with ((k * 256) * 256 ^ Z.of_nat m) by lia.
    rewrite Z.div_add by lia. rewrite Z.mod_add by lia. done.
  - rewrite Nat2Z.inj_succ, Z.pow_succ_r by lia.
    replace (k * (256 * 256 ^ Z.of_nat m)) with ((k * 256) * 256 ^ Z.of_nat m) by lia.
    apply IH.
Qed.

Lemma be_encode_decode bs : be_encode (length bs) (be_decode bs) = bs.
Proof.
  induction bs as [|b bs IH]; [done|].
  cbn [length be_encode]. rewrite be_decode_cons. f_equal.
  - apply byte_z_inj. rewrite byte_z_byte, Z.shiftr_div_pow2 by lia.
    replace (2 ^ (8 * Z.of_nat (length bs))) with (256 ^ Z.of_nat (length bs))
      by (change 256 with (2 ^ 8); rewrite <- Z.pow_mul_r; lia).
    rewrite Z.add_comm, Z.div_add by lia.
    rewrite Z.div_small by apply be_decode_range.
    rewrite Z.add_0_l. apply Z.mod_small, byte_z_range.
  - rewrite Z.add_comm, be_encode_add. exact IH.
Qed.

Lemma be_decode_encode_id n z :
  0 <= z < 256 ^ Z.of_nat n -> be_decode (be_encode n z) = z.
Proof. intros. rewrite be_decode_encode. by apply Z.mod_small. Qed.

(** ** In-place accessors (byte_order.h) *)

(** Reading [len] bytes at [pos]; a read past the end is undefined. *)
Definition read_at (data : bytes) (pos len : nat) : outcome bytes :=
  if bool_decide (pos + len <= length data)%nat
  then Done (take len (drop pos data)) else Undef out_of_bounds.

Definition GetBE16 (data : bytes) (pos : nat) : outcome Z :=
  be_decode <$> read_at data pos 2.

Definition GetBE32 (data : bytes) (pos : nat) : outcome Z :=
  be_decode <$> read_at data pos 4.

(** [SetBE16(memory + pos, v)]: two bytes are overwritten in place. *)
Definition SetBE16 (data : bytes) (pos : nat) (v : Z) : outcome bytes :=
  if bool_decide (pos + 2 <= length data)%nat
  then Done (take pos data ++ be_encode 2 (u16 v) ++ drop (pos + 2) data)
  else Undef out_of_bounds.

Lemma read_at_Done data pos len :
  (pos + len <= length data)%nat ->
  read_at data pos len = Done (take len (drop pos data)).
Proof. intros. unfold read_at. by rewrite bool_decide_eq_true_2. Qed.

Lemma read_at_app_mid (a b c : bytes) :
  read_at (a ++ b ++ c) (length a) (length b) = Done b.
Proof.
  rewrite read_at_Done by (rewrite !length_app; lia).
  by rewrite drop_app_length, take_app_length.
Qed.

(** ** ByteBufferWriter: the bytes written so far *)

Definition WriteBytes (w : bytes) (val : bytes) : bytes := w ++ val.
Definition WriteString (w : bytes) (val : bytes) : bytes := WriteBytes w val.
Definition WriteUInt8 (w : bytes) (val : Z) : bytes := WriteBytes w (be_encode 1 (u8 val)).
Definition WriteUInt16 (w : bytes) (val : Z) : bytes := WriteBytes w (be_encode 2 (u16 val)).
Definition WriteUInt32 (w : bytes) (val : Z) : bytes := WriteBytes w (be_encode 4 (u32 val)).
Definition WriteUInt64 (w : bytes) (val : Z) : bytes := WriteBytes w (be_encode 8 (u64 val)).

(** ** ByteBufferReader *)

Record ByteBufferReader : Type := mkReader {
  rd_bytes : bytes;
  rd_start : nat;
  rd_end : nat
}.

Definition Construct (bs : bytes) : ByteBufferReader :=
  {| rd_bytes := bs; rd_start := 0; rd_end := length bs |}.

Definition rd_Length (r : ByteBufferReader) : nat := rd_end r - rd_start r.

(** [Data()] up to the end: the unprocessed bytes. *)
Definition unread (r : ByteBufferReader) : bytes := drop (rd_start r) (rd_bytes r).

Definition advance (r : ByteBufferReader) (n : nat) : ByteBufferReader :=
  {| rd_bytes := rd_bytes r; rd_start := rd_start r + n; rd_end := rd_end r |}.

Definition ReadBytes (r : ByteBufferReader) (len : nat) : option (bytes * ByteBufferReader) :=
  if bool_decide (rd_Length r < len)%nat then None
  else Some (take len (unread r), advance r len).

Definition ReadString (r : ByteBufferReader) (val : bytes) (len : nat)
    : option (bytes * ByteBufferReader) :=
  if bool_decide (rd_Length r < len)%nat then None
  else Some (val ++ take len (unread r), advance r len).

Definition Consume (r : ByteBufferReader) (size : nat) : option ByteBufferReader :=
  if bool_decide (rd_Length r < size)%nat then None else Some (advance r size).

Definition ReadUInt16 (r : ByteBufferReader) : option (Z * ByteBufferReader) :=
  '(v, r') ← ReadBytes r 2; Some (be_decode v, r').

Definition ReadUInt32 (r : ByteBufferReader) : option (Z * ByteBufferReader) :=
  '(v, r') ← ReadBytes r 4; Some (be_decode v, r').

Definition ReadUInt64 (r : ByteBufferReader) : option (Z * ByteBufferReader) :=
  '(v, r') ← ReadBytes r 8; Some (be_decode v, r').

(** A reader is well formed when [end_] is the size of the data and [start_]
    has not passed it. *)
Definition reader_wf (r : ByteBufferReader) : Prop :=
  rd_end r = length (rd_bytes r) /\ (rd_start r <= rd_end r)%nat.

Lemma Construct_wf bs : reader_wf (Construct bs).
Proof. split; simpl; lia. Qed.

Lemma unread_Construct bs : unread (Construct bs) = bs.
Proof. reflexivity. Qed.

Lemma rd_Length_unread r : reader_wf r -> rd_Length r = length (unread r).
Proof. intros [H1 H2]. unfold rd_Length, unread. rewrite length_drop. lia. Qed.

Lemma advance_wf r n : reader_wf r -> (n <= rd_Length r)%nat -> reader_wf (advance r n).
Proof. intros [H1 H2] Hn. unfold rd_Length in Hn. split; simpl; lia. Qed.

Lemma unread_advance r n : unread (advance r n) = drop n (unread r).
Proof. unfold unread, advance; simpl. by rewrite drop_drop. Qed.

#[export] Hint Resolve Construct_wf : rtc.

(** The view of the reader as the list of unread bytes. *)
Lemma ReadBytes_app r a k :
  reader_wf r -> unread r = a ++ k ->
  exists r', ReadBytes r (length a) = Some (a, r') /\ reader_wf r' /\ unread r' = k.
Proof.
  intros Hwf Hu. exists (advance r (length a)).
  assert (Hl : (length a <= rd_Length r)%nat)
    by (rewrite rd_Length_unread, Hu, length_app by done; lia).
  unfold ReadBytes. rewrite bool_decide_eq_false_2 by lia.
  rewrite Hu, take_app_length. repeat split; [by apply advance_wf..|].
  by rewrite unread_advance, Hu, drop_app_length.
Qed.

Lemma ReadBytes_inv r len v r' :
  reader_wf r -> ReadBytes r len = Some (v, r') ->
  reader_wf r' /\ unread r = v ++ unread r' /\ length v = len /\ rd_bytes r' = rd_bytes r.
Proof.
  intros Hwf. unfold ReadBytes. case_bool_decide as Hl; [done|]. intros [= <- <-].
  repeat split.
  - by apply advance_wf; [|lia].
  - simpl. destruct Hwf. unfold rd_Length in Hl. lia.
  - by rewrite unread_advance, take_drop.
  - rewrite length_take, <- rd_Length_unread by done. lia.
Qed.

Lemma Consume_inv r n r' :
  reader_wf r -> Consume r n = Some r' ->
  reader_wf r' /\ unread r' = drop n (unread r) /\ (n <= length (unread r))%nat.
Proof.
  intros Hwf. unfold Consume. case_bool_decide as Hl; [done|]. intros [= <-].
  split_and!; [by apply advance_wf; [|lia]|apply unread_advance|].
  rewrite <- rd_Length_unread by done. lia.
Qed.
