(* ===== verification/Varints.v ===== *)
(** * Integers of other widths (rtc_base/byte_buffer.{h,cc})

    The readers and writers of [ByteBufferWriter] and [ByteBufferReader] for one
    byte, for three bytes and for integers of variable length. *)

From S2P Require Import Prelude.
From S2P Require Import ByteBuffer.
Local Open Scope Z_scope.

(** ** Writers *)

(** The last three bytes of the integer in network order. *)
Definition WriteUInt24 (w : bytes) (val : Z) : bytes :=
  WriteBytes w (drop 1 (be_encode 4 (u32 val))).

(** The loop of [WriteUVarint] and the byte after it; ten rounds suffice for a
    [uint64_t] ([uvarint_fuel]). *)
Fixpoint uvarint_bytes (fuel : nat) (val : Z) : bytes :=
  match fuel with
  | O => []
  | S f => if 0x80 <=? val then z_byte (Z.lor val 0x80) :: uvarint_bytes f (Z.shiftr val 7)
           else [z_byte val]
  end.

Definition WriteUVarint (w : bytes) (val : Z) : bytes := WriteBytes w (uvarint_bytes 10 (u64 val)).

(** ** Readers *)

Definition ReadUInt8 (r : ByteBufferReader) : option (Z * ByteBufferReader) :=
  '(v, r') ← ReadBytes r 1; Some (be_decode v, r').

(** The three bytes are read behind a zero byte of [v]. *)
Definition ReadUInt24 (r : ByteBufferReader) : option (Z * ByteBufferReader) :=
  '(v, r') ← ReadBytes r 3; Some (be_decode (x00 :: v), r').

(** [static_cast<uint64_t>(byte)] of a [char], which is signed. *)
Definition char_u64 (b : byte) : Z :=
  u64 (if byte_z b <? 128 then byte_z b else byte_z b - 256).

(** The loop of [ReadUVarint] from bit [i]; the bytes read before a failure stay
    consumed.  It ends at [i = 70], after ten rounds. *)
Fixpoint uvarint_loop (rounds : nat) (i v : Z) (r : ByteBufferReader)
    : option Z * ByteBufferReader :=
  match rounds with
  | O => (None, r)
  | S n =>
      match ReadBytes r 1 with
      | Some ([b], r') =>
          let v := Z.lor v (u64 (Z.shiftl (Z.land (char_u64 b) 0x7F) i)) in
          if char_u64 b <? 0x80 then (Some v, r') else uvarint_loop n (i + 7) v r'
      | _ => (None, r)
      end
  end.

Definition ReadUVarint (r : ByteBufferReader) : option Z * ByteBufferReader :=
  uvarint_loop 10 0 0 r.

(** ** Round trips *)

Lemma read_uint24 r val k :
  reader_wf r -> 0 <= val < 2 ^ 24 -> unread r = WriteUInt24 [] val ++ k ->
  exists r', ReadUInt24 r = Some (val, r') /\ reader_wf r' /\ unread r' = k.
Proof.
  intros Hwf Hv Hu. unfold WriteUInt24, WriteBytes in Hu. rewrite app_nil_l in Hu.
  rewrite u32_id in Hu by lia.
  destruct (ReadBytes_app r _ k Hwf Hu) as (r' & Hr & Hwf' & Hk).
  exists r'. unfold ReadUInt24. change 3%nat with (length (drop 1 (be_encode 4 val))).
  rewrite Hr. split_and!; [|done..]. cbn [mbind option_bind]. do 2 f_equal.
  assert (x00 :: drop 1 (be_encode 4 val) = be_encode 4 val) as ->.
  { cbn [be_encode drop]. f_equal. apply byte_z_inj. rewrite byte_z_byte.
    rewrite Z.shiftr_div_pow2, Z.div_small by lia. done. }
  apply be_decode_encode_id. lia.
Qed.

Lemma char_u64_value b : Z.land (char_u64 b) 0x7F = byte_z b mod 128.
Proof. by destruct b. Qed.

Lemma char_u64_last b : (char_u64 b <? 0x80) = (byte_z b <? 128).
Proof. by destruct b. Qed.

(** The value of a text of seven-bit groups, lowest first. *)
Fixpoint groups_value (bs : bytes) : Z :=
  match bs with
  | [] => 0
  | b :: bs' => byte_z b mod 128 + 128 * groups_value bs'
  end.

Lemma groups_value_nonneg bs : 0 <= groups_value bs.
Proof.
  induction bs as [|b bs IH]; simpl; [lia|]. pose proof (Z.mod_pos_bound (byte_z b) 128). lia.
Qed.

(** A text that ends: every byte but the last has the continuation bit. *)
Fixpoint well_ended (bs : bytes) : bool :=
  match bs with
  | [] => false
  | [b] => byte_z b <? 128
  | b :: bs' => (128 <=? byte_z b) && well_ended bs'
  end.

Lemma u64_shifted x i :
  0 <= i < 64 -> u64 (Z.shiftl x i) = x mod 2 ^ (64 - i) * 2 ^ i.
Proof.
  intros Hi. unfold u64. rewrite Z.shiftl_mul_pow2 by lia.
  replace (2 ^ 64) with (2 ^ (64 - i) * 2 ^ i) by (rewrite <- Z.pow_add_r by lia; f_equal; lia).
  apply Z.mul_mod_distr_r; apply Z.pow_nonzero; lia.
Qed.

(** One group joins the value read so far. *)
Lemma join_group v x i :
  0 <= i < 64 -> 0 <= v < 2 ^ i -> 0 <= x < 128 ->
  let v' := Z.lor v (u64 (Z.shiftl x i)) in
  v' = u64 (v + x * 2 ^ i) /\ 0 <= v' < 2 ^ (i + 7).
Proof.
  intros Hi Hv Hx. cbv zeta. rewrite u64_shifted by done.
  rewrite Z.lor_comm, lor_disjoint by lia.
  assert (0 < 2 ^ (64 - i)) by (apply Z.pow_pos_nonneg; lia).
  pose proof (Z.mod_pos_bound x (2 ^ (64 - i)) ltac:(done)) as Hm.
  pose proof (Z.div_mod x (2 ^ (64 - i)) ltac:(lia)) as Hdm.
  assert (x mod 2 ^ (64 - i) <= x) by (apply Z.mod_le; lia).
  assert (2 ^ 64 = 2 ^ (64 - i) * 2 ^ i) as E by (rewrite <- Z.pow_add_r by lia; f_equal; lia).
  rewrite Z.pow_add_r by lia. change (2 ^ 7) with 128. split; [|nia].
  unfold u64. rewrite E.
  replace (v + x * 2 ^ i) with
    (x mod 2 ^ (64 - i) * 2 ^ i + v + (x / 2 ^ (64 - i)) * (2 ^ (64 - i) * 2 ^ i)) by nia.
  rewrite Z.mod_add by nia. symmetry. apply Z.mod_small. nia.
Qed.

Lemma uvarint_loop_reads bs : forall n i v r k,
  reader_wf r -> unread r = bs ++ k -> well_ended bs = true -> (length bs <= n)%nat ->
  0 <= i -> i + 7 * (Z.of_nat n - 1) <= 63 -> 0 <= v < 2 ^ i -> v < 2 ^ 64 ->
  exists r', uvarint_loop n i v r = (Some (u64 (v + 2 ^ i * groups_value bs)), r') /\
    reader_wf r' /\ unread r' = k.
Proof.
  induction bs as [|b bs IH]; intros n i v r k Hwf Hu He Hn Hi Hmax Hv Hv64; [done|].
  destruct n as [|n]; [simpl in Hn; lia|]. cbn [uvarint_loop length] in *.
  destruct (ReadBytes_app r [b] (bs ++ k) Hwf Hu) as (r1 & Hr & Hwf1 & Hu1).
  cbn [length] in Hr. rewrite Hr, char_u64_value, char_u64_last.
  pose proof (Z.mod_pos_bound (byte_z b) 128 ltac:(lia)) as Hb.
  destruct (join_group v (byte_z b mod 128) i ltac:(lia) Hv Hb) as [Hj Hj7]. cbv zeta in Hj, Hj7.
  destruct bs as [|b2 bs].
  - cbn [well_ended] in He. rewrite He. exists r1. split_and!; [|done..].
    rewrite Hj. cbn [groups_value]. do 3 f_equal. lia.
  - cbn [well_ended] in He. apply andb_true_iff in He as [Hc He].
    rewrite (proj2 (Z.ltb_ge _ _)) by lia. rewrite Hj in Hj7 |- *.
    destruct (IH n (i + 7) (u64 (v + byte_z b mod 128 * 2 ^ i)) r1 k) as (r' & Hr' & Hwf' & Hk);
      [done..|lia|lia|lia|done|apply u64_range|].
    exists r'. split_and!; [|done..]. rewrite Hr'. do 2 f_equal.
    unfold u64. rewrite Zplus_mod_idemp_l. f_equal.
    rewrite Z.pow_add_r by lia. cbn [groups_value]. lia.
Qed.

(** Every ended text of at most ten bytes is read, modulo [2 ^ 64]. *)
Lemma uvarint_reads r bs k :
  reader_wf r -> unread r = bs ++ k -> well_ended bs = true -> (length bs <= 10)%nat ->
  exists r', ReadUVarint r = (Some (u64 (groups_value bs)), r') /\ reader_wf r' /\ unread r' = k.
Proof.
  intros Hwf Hu He Hn.
  destruct (uvarint_loop_reads bs 10 0 0 r k) as (r' & Hr & H); [done..|lia|lia|lia|lia|].
  exists r'. split; [|done]. unfold ReadUVarint. rewrite Hr. do 3 f_equal. lia.
Qed.

(** A byte with the continuation bit. *)
Lemma continued_byte val : byte_z (z_byte (Z.lor val 0x80)) = 128 + val mod 128.
Proof.
  rewrite byte_z_byte. change 256 with (2 ^ 8). change 128 with (2 ^ 7).
  assert (Z.lor val (2 ^ 7) mod 2 ^ 8 = Z.lor (1 * 2 ^ 7) (val mod 2 ^ 7)) as ->.
  { apply Z.bits_inj'. intros j Hj. rewrite Z.testbit_mod_pow2, !Z.lor_spec, Z.testbit_mod_pow2 by lia.
    rewrite Z.mul_1_l, Z.pow2_bits_eqb by lia.
    destruct (Z.testbit val j), (Z.eqb_spec 7 j), (Z.ltb_spec j 8), (Z.ltb_spec j 7); try done; lia. }
  rewrite lor_disjoint; [lia|lia|]. apply Z.mod_pos_bound. lia.
Qed.

Lemma uvarint_bytes_spec fuel : forall val,
  0 <= val < 2 ^ (7 * Z.of_nat fuel) -> (0 < fuel)%nat ->
  well_ended (uvarint_bytes fuel val) = true /\ groups_value (uvarint_bytes fuel val) = val /\
  (length (uvarint_bytes fuel val) <= fuel)%nat.
Proof.
  induction fuel as [|f IH]; intros val Hv Hf; [lia|]. cbn [uvarint_bytes].
  case_match eqn:E.
  - apply Z.leb_le in E. destruct f as [|f]; [simpl in Hv; lia|].
    rewrite Nat2Z.inj_succ, Z.mul_succ_r, Z.pow_add_r in Hv by lia. change (2 ^ 7) with 128 in Hv.
    destruct (IH (Z.shiftr val 7)) as (He & Hg & Hl); [|lia|].
    { rewrite Z.shiftr_div_pow2 by lia. change (2 ^ 7) with 128.
      split; [apply Z.div_pos; lia|apply Z.div_lt_upper_bound; lia]. }
    assert (byte_z (z_byte (Z.lor val 0x80)) = 128 + val mod 128) as Hb.
    { apply continued_byte. }
    split_and!.
    + destruct (uvarint_bytes (S f) (Z.shiftr val 7)) as [|b2 bs] eqn:Eb; [done|].
      cbn [well_ended]. rewrite Hb. apply andb_true_iff. split; [|done].
      apply Z.leb_le. pose proof (Z.mod_pos_bound val 128). lia.
    + cbn [groups_value]. rewrite Hg, Hb, Z.shiftr_div_pow2 by lia. change (2 ^ 7) with 128.
      rewrite <- Z.add_mod_idemp_l, Z.mod_same, Z.add_0_l, Z.mod_mod by lia.
      pose proof (Z.div_mod val 128). lia.
    + cbn [length]. lia.
  - apply Z.leb_gt in E. cbn [well_ended groups_value length].
    rewrite byte_z_byte, (Z.mod_small val 256) by lia. rewrite Z.mod_small by lia.
    split_and!; [|lia..]. apply Z.ltb_lt. lia.
Qed.

(** Ten rounds are enough for a [uint64_t]. *)
Lemma uvarint_fuel val :
  0 <= val < 2 ^ 64 ->
  well_ended (WriteUVarint [] val) = true /\ groups_value (WriteUVarint [] val) = val /\
  (length (WriteUVarint [] val) <= 10)%nat.
Proof.
  intros Hv. unfold WriteUVarint, WriteBytes. rewrite app_nil_l, u64_id by done.
  apply uvarint_bytes_spec; simpl; lia.
Qed.

(** Every [uint64_t] is read back from what is written, and nothing more is
    consumed. *)
Lemma uvarint_read_back r val k :
  reader_wf r -> 0 <= val < 2 ^ 64 -> unread r = WriteUVarint [] val ++ k ->
  exists r', ReadUVarint r = (Some val, r') /\ reader_wf r' /\ unread r' = k.
Proof.
  intros Hwf Hv Hu. destruct (uvarint_fuel val Hv) as (He & Hg & Hl).
  destruct (uvarint_reads r _ k Hwf Hu He Hl) as (r' & Hr & H). rewrite Hg, u64_id in Hr by done. eauto.
Qed.

(** Several texts stand for one value: an empty last group is read too, and bits
    above the sixty-fourth are dropped. *)
Example uvarint_texts_of_zero :
  fst (ReadUVarint (Construct [x00])) = Some 0 /\ fst (ReadUVarint (Construct [x80; x00])) = Some 0 /\
  fst (ReadUVarint (Construct (replicate 9 x80 ++ [x02]))) = Some 0.
Proof. vm_compute. done. Qed.

(** A text without an end is refused, and its bytes stay consumed. *)
Example uvarint_unended :
  let '(v, r) := ReadUVarint (Construct (replicate 3 x80)) in v = None /\ rd_start r = 3%nat.
Proof. vm_compute. done. Qed.
