(* ===== verification/TimeUnwrap.v ===== *)
(** * Timestamps that wrap around (rtc_base/time_utils.{h,cc})

    [TimestampWrapAroundHandler], which turns 32-bit timestamps into 64-bit ones,
    and the difference of 32-bit times. *)

From S2P Require Import Prelude.
Local Open Scope Z_scope.

Record TimestampWrapAroundHandler : Type := mkHandler {
  last_ts_ : Z;
  num_wrap_ : Z
}.

Definition new_handler : TimestampWrapAroundHandler := mkHandler 0 (-1).

(** Arithmetic on [int64_t]; the wraps counted stay far below its range. *)
Definition Unwrap (h : TimestampWrapAroundHandler) (ts : Z) : Z * TimestampWrapAroundHandler :=
  if num_wrap_ h =? -1 then (ts, mkHandler ts 0)
  else if ts <? last_ts_ h then
    let n := if (0xf0000000 <=? last_ts_ h) && (ts <? 0x0fffffff)
             then num_wrap_ h + 1 else num_wrap_ h in
    (ts + Z.shiftl n 32, mkHandler ts n)
  else if 0xf0000000 <? u32 (ts - last_ts_ h)
  then (ts + (num_wrap_ h - 1) * Z.shiftl 1 32, h)
  else (ts + Z.shiftl (num_wrap_ h) 32, mkHandler ts (num_wrap_ h)).

(** [TimeDiff32]: [int32_t] of the difference of two [uint32_t]. *)
Definition TimeDiff32 (later earlier : Z) : Z := i32 (u32 (later - earlier)).

Fixpoint unwrap_all (h : TimestampWrapAroundHandler) (ts : list Z) : list Z :=
  match ts with
  | [] => []
  | t :: ts' => let '(r, h') := Unwrap h t in r :: unwrap_all h' ts'
  end.

(** ** The true times come back *)

(** The time a handler compares with. *)
Definition reference (h : TimestampWrapAroundHandler) : Z := last_ts_ h + num_wrap_ h * 2 ^ 32.

Definition handler_wf (h : TimestampWrapAroundHandler) : Prop :=
  0 <= last_ts_ h < 2 ^ 32 /\ 0 <= num_wrap_ h.

(** A time in an earlier period than the reference does not replace it. *)
Definition next_reference (ref t : Z) : Z := if t / 2 ^ 32 <? ref / 2 ^ 32 then ref else t.

Lemma unwrap_step h t :
  handler_wf h -> Z.abs (t - reference h) < 0x0fffffff ->
  (Unwrap h (u32 t)).1 = t /\ handler_wf (Unwrap h (u32 t)).2 /\
  reference (Unwrap h (u32 t)).2 = next_reference (reference h) t.
Proof.
  destruct h as [last n]. intros [Hl Hn] Hd. unfold reference, next_reference in *. simpl in *.
  rewrite Z.div_add, (Z.div_small last), Z.add_0_l by lia.
  pose proof (Z.div_mod t (2 ^ 32) ltac:(lia)) as Et. change (t mod 2 ^ 32) with (u32 t) in Et.
  pose proof (u32_range t) as Ht. set (ts := u32 t) in *. set (k := t / 2 ^ 32) in *.
  clearbody ts k. unfold Unwrap. simpl.
  rewrite (proj2 (Z.eqb_neq n (-1))) by lia.
  destruct (Z.ltb_spec ts last) as [H1|H1].
  - destruct (Z.leb_spec 0xf0000000 last), (Z.ltb_spec ts 0x0fffffff); simpl;
      unfold handler_wf; simpl; rewrite !Z.shiftl_mul_pow2 by lia;
      rewrite (proj2 (Z.ltb_ge k n)) by lia; (assert (k = n \/ k = n + 1) by lia); lia.
  - rewrite u32_id by lia. destruct (Z.ltb_spec 0xf0000000 (ts - last)); simpl;
      unfold handler_wf; simpl; rewrite ?Z.shiftl_mul_pow2 by lia.
    + assert (k = n - 1) as -> by lia. rewrite (proj2 (Z.ltb_lt (n - 1) n)) by lia. lia.
    + assert (k = n) as -> by lia. rewrite (proj2 (Z.ltb_ge n n)) by lia. lia.
Qed.

(** Each time lies near the reference the times before it leave. *)
Fixpoint near (ref : Z) (ts : list Z) : Prop :=
  match ts with
  | [] => True
  | t :: ts' => Z.abs (t - ref) < 0x0fffffff /\ near (next_reference ref t) ts'
  end.

Lemma unwrap_near ts : forall h,
  handler_wf h -> near (reference h) ts -> unwrap_all h (map u32 ts) = ts.
Proof.
  induction ts as [|t ts IH]; intros h Hwf Hn; [done|]. destruct Hn as [Ht Hn].
  cbn [map unwrap_all]. destruct (unwrap_step h t Hwf Ht) as (Hr & Hwf' & Href).
  destruct (Unwrap h (u32 t)) as [r h']. simpl in *. subst r. f_equal. apply IH; [done|]. by rewrite Href.
Qed.

(** The handler gives back the true times of a stream from their low 32 bits,
    whatever number of times they wrap around, when the first is below [2 ^ 32]
    and each comes within [0x0fffffff] ticks of the latest one, before or after
    it. *)
Theorem unwrap_follows t ts :
  0 <= t < 2 ^ 32 -> near t ts -> unwrap_all new_handler (map u32 (t :: ts)) = t :: ts.
Proof.
  intros Ht Hn. cbn [map unwrap_all]. unfold Unwrap. simpl. rewrite u32_id by done. f_equal.
  apply unwrap_near; [by split; simpl; lia|]. unfold reference. simpl. by rewrite Z.add_0_r.
Qed.

(** Forward over the end of the range, back before it, and on. *)
Example unwrap_follows_run :
  unwrap_all new_handler [0xfffffff0; 0x10; 0xffffffff; 0x20] =
    [0xfffffff0; 2 ^ 32 + 0x10; 0xffffffff; 2 ^ 32 + 0x20].
Proof. reflexivity. Qed.
