(* ===== verification/Crc32.v ===== *)
(** * CRC-32 (rtc_base/crc32.{h,cc})

    The table-driven checksum of RFC 1952 that the STUN FINGERPRINT attribute,
    the candidate foundation and the choice of an RTC worker are computed
    with.  The table is built as the source builds it.  The reference is the
    bit-serial checksum; the error-detection theorem is proved through it. *)

From S2P Require Import Prelude.
Local Open Scope Z_scope.

Definition kCrc32Polynomial : Z := 0xEDB88320.

(** One turn of the inner loop of [LoadCrc32Table]. *)
Definition crc_shift (c : Z) : Z :=
  if Z.testbit c 0 then Z.lxor kCrc32Polynomial (Z.shiftr c 1) else Z.shiftr c 1.

Definition LoadCrc32Table : list Z :=
  (fun i => Nat.iter 8 crc_shift (Z.of_nat i)) <$> seq 0 256.

Definition crc_table_step (c : Z) (u : byte) : Z :=
  Z.lxor (nth (Z.to_nat (Z.land (Z.lxor c (byte_z u)) 0xFF)) LoadCrc32Table 0)
         (Z.shiftr c 8).

Definition UpdateCrc32 (start : Z) (buf : bytes) : Z :=
  Z.lxor (fold_left crc_table_step buf (Z.lxor start 0xFFFFFFFF)) 0xFFFFFFFF.

Definition ComputeCrc32 (buf : bytes) : Z := UpdateCrc32 0 buf.

(** ** The bit-serial reference *)

Definition crc_bits (n : nat) (c : Z) : Z := Nat.iter n crc_shift c.

Definition crc_byte (c : Z) (u : byte) : Z := crc_bits 8 (Z.lxor c (byte_z u)).

Definition crc_reference (buf : bytes) : Z :=
  Z.lxor (fold_left crc_byte buf 0xFFFFFFFF) 0xFFFFFFFF.

(** ** The shift register is linear and, on 32 bits, injective *)

Definition crc_mask (c : Z) : Z := if Z.testbit c 0 then kCrc32Polynomial else 0.

Lemma crc_shift_mask c : crc_shift c = Z.lxor (crc_mask c) (Z.shiftr c 1).
Proof. unfold crc_shift, crc_mask. destruct (Z.testbit c 0); [done|]. by rewrite Z.lxor_0_l. Qed.

Lemma crc_mask_lxor a b : crc_mask (Z.lxor a b) = Z.lxor (crc_mask a) (crc_mask b).
Proof.
  unfold crc_mask. rewrite Z.lxor_spec.
  destruct (Z.testbit a 0), (Z.testbit b 0); reflexivity.
Qed.

Lemma crc_shift_lxor a b : crc_shift (Z.lxor a b) = Z.lxor (crc_shift a) (crc_shift b).
Proof.
  rewrite !crc_shift_mask, crc_mask_lxor, Z.shiftr_lxor.
  rewrite !Z.lxor_assoc. f_equal.
  rewrite <- !Z.lxor_assoc. f_equal. apply Z.lxor_comm.
Qed.

Lemma crc_bits_lxor n a b : crc_bits n (Z.lxor a b) = Z.lxor (crc_bits n a) (crc_bits n b).
Proof.
  unfold crc_bits. induction n as [|n IH]; simpl; [done|]. by rewrite IH, crc_shift_lxor.
Qed.

Lemma crc_bits_add n m c : crc_bits (n + m) c = crc_bits m (crc_bits n c).
Proof.
  unfold crc_bits. rewrite Nat.add_comm. induction m as [|m IH]; simpl; [done|]. by rewrite IH.
Qed.

(** The low bits are zero, so nothing is fed back: the register only shifts. *)
Lemma crc_bits_shiftl n a : crc_bits n (Z.shiftl a (Z.of_nat n)) = a.
Proof.
  revert a. induction n as [|n IH]; intros a; [apply Z.shiftl_0_r|].
  replace (S n) with (n + 1)%nat by lia. rewrite crc_bits_add.
  replace (Z.of_nat (n + 1)) with (1 + Z.of_nat n) by lia.
  rewrite <- Z.shiftl_shiftl by lia. rewrite IH.
  unfold crc_bits; simpl. rewrite crc_shift_mask. unfold crc_mask.
  rewrite Z.shiftl_spec_low by lia. rewrite Z.lxor_0_l, Z.shiftr_shiftl_l by lia.
  apply Z.shiftl_0_r.
Qed.

Lemma crc_shift_range c : 0 <= c < 2 ^ 32 -> 0 <= crc_shift c < 2 ^ 32.
Proof.
  intros Hc. rewrite crc_shift_mask.
  assert (Hm : 0 <= crc_mask c < 2 ^ 32) by (unfold crc_mask; destruct (Z.testbit c 0); vm_compute; intuition discriminate).
  assert (Hs : 0 <= Z.shiftr c 1 < 2 ^ 32).
  { rewrite Z.shiftr_div_pow2 by lia. split; [apply Z.div_pos; lia|].
    apply Z.div_lt_upper_bound; lia. }
  by apply lxor_range_32.
Qed.

Lemma testbit_31_small c : 0 <= c < 2 ^ 31 -> Z.testbit c 31 = false.
Proof.
  intros Hc. rewrite <- (Z.mod_small c (2 ^ 31)) by lia.
  apply Z.mod_pow2_bits_high. lia.
Qed.

(** The bit shifted out reappears as bit 31, so the step can be undone. *)
Lemma crc_shift_top c : 0 <= c < 2 ^ 32 -> Z.testbit (crc_shift c) 31 = Z.testbit c 0.
Proof.
  intros Hc. rewrite crc_shift_mask, Z.lxor_spec.
  rewrite (testbit_31_small (Z.shiftr c 1)).
  - unfold crc_mask. destruct (Z.testbit c 0); reflexivity.
  - rewrite Z.shiftr_div_pow2 by lia. split; [apply Z.div_pos; lia|].
    apply Z.div_lt_upper_bound; lia.
Qed.

Lemma crc_shift_inj a b :
  0 <= a < 2 ^ 32 -> 0 <= b < 2 ^ 32 -> crc_shift a = crc_shift b -> a = b.
Proof.
  intros Ha Hb H.
  assert (H0 : Z.testbit a 0 = Z.testbit b 0)
    by (rewrite <- (crc_shift_top a), <- (crc_shift_top b) by done; by rewrite H).
  rewrite !crc_shift_mask in H. unfold crc_mask in H. rewrite H0 in H.
  assert (Hs : Z.shiftr a 1 = Z.shiftr b 1).
  { apply (f_equal (Z.lxor (if Z.testbit b 0 then kCrc32Polynomial else 0))) in H.
    rewrite <- !Z.lxor_assoc, Z.lxor_nilpotent, !Z.lxor_0_l in H. exact H. }
  rewrite (Z.div2_odd a), (Z.div2_odd b), !Z.div2_spec, Hs.
  rewrite <- !Z.bit0_odd, H0. reflexivity.
Qed.

Lemma crc_bits_range n c : 0 <= c < 2 ^ 32 -> 0 <= crc_bits n c < 2 ^ 32.
Proof. intros Hc. unfold crc_bits. induction n; [done|]. by apply crc_shift_range. Qed.

Lemma crc_bits_inj n a b :
  0 <= a < 2 ^ 32 -> 0 <= b < 2 ^ 32 -> crc_bits n a = crc_bits n b -> a = b.
Proof.
  intros Ha Hb. induction n as [|n IH]; [done|]. intros H. apply IH.
  apply crc_shift_inj; [by apply crc_bits_range..|exact H].
Qed.

(** ** A run of bytes is one run of the register *)

Fixpoint le_word (bs : bytes) : Z :=
  match bs with
  | [] => 0
  | b :: bs' => Z.lxor (byte_z b) (Z.shiftl (le_word bs') 8)
  end.

Lemma crc_byte_bits c bs :
  fold_left crc_byte bs c = crc_bits (8 * length bs) (Z.lxor c (le_word bs)).
Proof.
  revert c. induction bs as [|b bs IH]; intros c.
  - simpl. by rewrite Z.lxor_0_r.
  - cbn [fold_left length le_word]. rewrite IH.
    replace (8 * S (length bs))%nat with (8 + 8 * length bs)%nat by lia.
    rewrite crc_bits_add. f_equal.
    rewrite <- Z.lxor_assoc, crc_bits_lxor. unfold crc_byte. f_equal.
    symmetry. apply (crc_bits_shiftl 8).
Qed.

Lemma le_word_range bs : 0 <= le_word bs < 2 ^ (8 * Z.of_nat (length bs)).
Proof.
  induction bs as [|b bs IH]; [simpl; lia|].
  cbn [le_word length]. pose proof (byte_z_range b) as Hb.
  replace (Z.lxor (byte_z b) (Z.shiftl (le_word bs) 8)) with (byte_z b + le_word bs * 2 ^ 8).
  - rewrite Nat2Z.inj_succ.
    replace (8 * Z.succ (Z.of_nat (length bs))) with (8 + 8 * Z.of_nat (length bs)) by lia.
    rewrite Z.pow_add_r by lia. nia.
  - rewrite <- Z.shiftl_mul_pow2 by lia. apply Z.add_nocarry_lxor.
    apply Z.bits_inj'. intros i Hi. rewrite Z.land_spec, Z.bits_0.
    destruct (decide (i < 8)).
    + rewrite Z.shiftl_spec_low by lia. apply andb_false_r.
    + rewrite <- (Z.mod_small (byte_z b) (2 ^ 8)) by lia.
      rewrite Z.mod_pow2_bits_high by lia. done.
Qed.

Lemma byte_window_split b w :
  Z.land (Z.lxor (byte_z b) (Z.shiftl w 8)) 255 = byte_z b /\
  Z.shiftr (Z.lxor (byte_z b) (Z.shiftl w 8)) 8 = w.
Proof.
  pose proof (byte_z_range b) as Hb. split.
  - change 255 with (Z.ones 8). apply Z.bits_inj'. intros i Hi.
    rewrite Z.land_spec, Z.lxor_spec. destruct (decide (i < 8)).
    + rewrite Z.ones_spec_low, Z.shiftl_spec_low by lia. by rewrite xorb_false_r, andb_true_r.
    + rewrite Z.ones_spec_high, andb_false_r by lia.
      rewrite <- (Z.mod_small (byte_z b) (2 ^ 8)) by lia.
      symmetry. apply Z.mod_pow2_bits_high. lia.
  - rewrite Z.shiftr_lxor, Z.shiftr_shiftl_l by lia.
    replace (Z.shiftr (byte_z b) 8) with 0
      by (rewrite Z.shiftr_div_pow2, Z.div_small by lia; done).
    rewrite Z.lxor_0_l. apply Z.shiftl_0_r.
Qed.

Lemma le_word_inj bs1 bs2 :
  length bs1 = length bs2 -> le_word bs1 = le_word bs2 -> bs1 = bs2.
Proof.
  revert bs2. induction bs1 as [|b1 bs1 IH]; intros [|b2 bs2] Hl H; try discriminate Hl; [done|].
  cbn [le_word] in H.
  destruct (byte_window_split b1 (le_word bs1)) as [L1 R1].
  destruct (byte_window_split b2 (le_word bs2)) as [L2 R2].
  f_equal.
  - apply byte_z_inj. congruence.
  - apply IH; [by injection Hl|congruence].
Qed.

Lemma nth_crc_table k :
  (k < 256)%nat -> nth k LoadCrc32Table 0 = crc_bits 8 (Z.of_nat k).
Proof.
  intros Hk. unfold LoadCrc32Table.
  rewrite nth_lookup, list_lookup_fmap, lookup_seq_lt by done. reflexivity.
Qed.

Lemma crc_table_step_byte c u : crc_table_step c u = crc_byte c u.
Proof.
  unfold crc_table_step, crc_byte.
  assert (Hr : 0 <= Z.land (Z.lxor c (byte_z u)) 0xFF < 256).
  { change 0xFF with (Z.ones 8). rewrite Z.land_ones by lia. apply Z.mod_pos_bound. lia. }
  rewrite nth_crc_table by lia. rewrite Z2Nat.id by lia.
  assert (Hx : Z.lxor c (byte_z u) =
    Z.lxor (Z.land (Z.lxor c (byte_z u)) 0xFF) (Z.shiftl (Z.shiftr c 8) 8)).
  { apply Z.bits_inj'. intros i Hi. change 0xFF with (Z.ones 8).
    pose proof (byte_z_range u) as Hu.
    rewrite !Z.lxor_spec, Z.land_spec, Z.lxor_spec. destruct (decide (i < 8)).
    - rewrite Z.ones_spec_low, Z.shiftl_spec_low by lia.
      by rewrite andb_true_r, xorb_false_r.
    - rewrite Z.ones_spec_high, Z.shiftl_spec, Z.shiftr_spec by lia.
      rewrite <- (Z.mod_small (byte_z u) (2 ^ 8)) by lia.
      rewrite Z.mod_pow2_bits_high, xorb_false_r, andb_false_r by lia.
      rewrite xorb_false_l. f_equal. lia. }
  rewrite Hx at 2. rewrite crc_bits_lxor. f_equal.
  symmetry. apply (crc_bits_shiftl 8).
Qed.

Lemma crc_fold_reference c bs : fold_left crc_table_step bs c = fold_left crc_byte bs c.
Proof.
  revert c. induction bs as [|b bs IH]; intros c; simpl; [done|].
  by rewrite crc_table_step_byte, IH.
Qed.

Lemma crc_byte_range c u : 0 <= c < 2 ^ 32 -> 0 <= crc_byte c u < 2 ^ 32.
Proof.
  intros Hc. apply crc_bits_range. pose proof (byte_z_range u).
  apply lxor_range_32; lia.
Qed.

Lemma crc_fold_range c bs :
  0 <= c < 2 ^ 32 -> 0 <= fold_left crc_byte bs c < 2 ^ 32.
Proof. revert c. induction bs as [|b bs IH]; intros c Hc; [done|]. by apply IH, crc_byte_range. Qed.

Lemma crc_fold_inj bs a b :
  0 <= a < 2 ^ 32 -> 0 <= b < 2 ^ 32 ->
  fold_left crc_byte bs a = fold_left crc_byte bs b -> a = b.
Proof.
  revert a b. induction bs as [|u bs IH]; intros a b Ha Hb H; [done|].
  cbn [fold_left] in H. apply IH in H; [|by apply crc_byte_range..].
  rewrite <- (Z.lxor_0_r a), <- (Z.lxor_0_r b), <- (Z.lxor_nilpotent (byte_z u)).
  rewrite <- !Z.lxor_assoc. f_equal.
  unfold crc_byte in H. rewrite !crc_bits_lxor in H.
  apply (f_equal (fun z => Z.lxor z (crc_bits 8 (byte_z u)))) in H.
  rewrite !Z.lxor_assoc, !Z.lxor_nilpotent, !Z.lxor_0_r in H.
  by rewrite (crc_bits_inj 8 a b).
Qed.

Lemma ComputeCrc32_range bs : 0 <= ComputeCrc32 bs < 2 ^ 32.
Proof.
  unfold ComputeCrc32, UpdateCrc32. rewrite Z.lxor_0_l, crc_fold_reference.
  apply lxor_range_32; [apply crc_fold_range|]; lia.
Qed.
#[export] Hint Resolve ComputeCrc32_range : rtc.

(** ** Properties *)

(** The table-driven checksum of the source is the bit-serial CRC-32. *)
Theorem crc32_table_is_bit_serial buf : ComputeCrc32 buf = crc_reference buf.
Proof.
  unfold ComputeCrc32, UpdateCrc32, crc_reference.
  by rewrite crc_fold_reference, Z.lxor_0_l.
Qed.

(** Two messages that agree except inside one window of at most four bytes
    have different checksums: every such corruption is detected. *)
Theorem crc32_detects_four_byte_bursts p w1 w2 s :
  length w1 = length w2 -> (length w1 <= 4)%nat -> w1 <> w2 ->
  ComputeCrc32 (p ++ w1 ++ s) <> ComputeCrc32 (p ++ w2 ++ s).
Proof.
  intros Hl H4 Hne H. apply Hne, le_word_inj; [done|].
  unfold ComputeCrc32, UpdateCrc32 in H. rewrite Z.lxor_0_l, !crc_fold_reference in H.
  rewrite !(Z.lxor_comm _ 0xFFFFFFFF) in H. apply lxor_cancel_l in H.
  rewrite !fold_left_app in H.
  set (c := fold_left crc_byte p 0xFFFFFFFF) in H.
  assert (Hc : 0 <= c < 2 ^ 32) by (apply crc_fold_range; lia).
  apply crc_fold_inj in H; [|by apply crc_fold_range..].
  rewrite !crc_byte_bits, <- Hl in H.
  assert (Hw : forall w : bytes, (length w <= 4)%nat -> 0 <= le_word w < 2 ^ 32).
  { intros w Hw. pose proof (le_word_range w) as Hr. split; [lia|].
    eapply Z.lt_le_trans; [apply Hr|]. apply Z.pow_le_mono_r; lia. }
  apply crc_bits_inj in H; [|apply lxor_range_32; [done|apply Hw; lia]..].
  by apply lxor_cancel_l in H.
Qed.

Lemma crc32_detects_four_byte_bursts_witness :
  ComputeCrc32 ([x01; x02] ++ [x03; x04] ++ [x05]) <>
  ComputeCrc32 ([x01; x02] ++ [x03; x14] ++ [x05]).
Proof.
  apply crc32_detects_four_byte_bursts; [reflexivity|simpl; lia|discriminate].
Defined.

(** The published check value of CRC-32. *)
Example crc32_check_value : ComputeCrc32 (str "123456789") = 0xCBF43926.
Proof. vm_compute. reflexivity. Qed.
