(* ===== verification/StringEncode.v ===== *)
(** * String utilities (rtc_base/string_encode.cc, rtc_base/string_to_number.cc)

    [tokenize], [split], [tokenize_first], [join], the hex codec with a
    delimiter, and the parser of unsigned decimal numbers, which the SDP and
    STUN username parsers are written with; also the parts of [std::string]
    they use ([substr], [find], [std::to_string], [tolower], [toupper]). *)

From S2P Require Import Prelude.
Local Open Scope Z_scope.

(** ** std::string *)

(** [s.substr(pos)]: throws [std::out_of_range] when [pos > s.size()]. *)
Definition substr_from (s : bytes) (pos : nat) : outcome bytes :=
  if bool_decide (pos <= length s)%nat then Done (drop pos s) else Throws out_of_range.

Fixpoint is_prefix (p s : bytes) : bool :=
  match p, s with
  | [], _ => true
  | a :: p', b :: s' => bool_decide (a = b) && is_prefix p' s'
  | _ :: _, [] => false
  end.

(** [s.find(p) != std::string::npos] *)
Fixpoint contains (p s : bytes) : bool :=
  is_prefix p s || match s with [] => false | _ :: s' => contains p s' end.

Definition ascii_in (lo hi b : byte) : bool :=
  (byte_z lo <=? byte_z b) && (byte_z b <=? byte_z hi).

Definition is_digit (b : byte) : bool := ascii_in "0" "9" b.

(** [::tolower] and [::toupper] in the C locale. *)
Definition to_lower (b : byte) : byte := if ascii_in "A" "Z" b then z_byte (byte_z b + 32) else b.
Definition to_upper (b : byte) : byte := if ascii_in "a" "z" b then z_byte (byte_z b - 32) else b.

Definition digit (n : Z) : byte := z_byte (48 + n).

Fixpoint dec_digits (fuel : nat) (n : Z) : bytes :=
  match fuel with
  | O => []
  | S f => if n <? 10 then [digit n] else dec_digits f (n / 10) ++ [digit (n mod 10)]
  end.

(** [std::to_string] (and [operator<<]) of an integer. *)
Definition to_string (n : Z) : bytes :=
  if n <? 0 then "-"%byte :: dec_digits (S (Z.to_nat (Z.log2 (- n)))) (- n)
  else dec_digits (S (Z.to_nat (Z.log2 n))) n.

(** ** tokenize, split, join *)

(** [cur] holds the characters read since [last]. *)
Fixpoint split_loop (delimiter : byte) (cur source : bytes) : list bytes :=
  match source with
  | [] => [cur]
  | c :: source' =>
      if bool_decide (c = delimiter) then cur :: split_loop delimiter [] source'
      else split_loop delimiter (cur ++ [c]) source'
  end.

Definition split (source : bytes) (delimiter : byte) : list bytes :=
  split_loop delimiter [] source.

Fixpoint tokenize_loop (delimiter : byte) (cur source : bytes) : list bytes :=
  match source with
  | [] => match cur with [] => [] | _ => [cur] end
  | c :: source' =>
      if bool_decide (c = delimiter)
      then match cur with [] => [] | _ => [cur] end ++ tokenize_loop delimiter [] source'
      else tokenize_loop delimiter (cur ++ [c]) source'
  end.

Definition tokenize (source : bytes) (delimiter : byte) : list bytes :=
  tokenize_loop delimiter [] source.

Fixpoint skip_delimiters (delimiter : byte) (s : bytes) : bytes :=
  match s with
  | c :: s' => if bool_decide (c = delimiter) then skip_delimiters delimiter s' else s
  | [] => []
  end.

Fixpoint tokenize_first (source : bytes) (delimiter : byte) : option (bytes * bytes) :=
  match source with
  | [] => None
  | c :: source' =>
      if bool_decide (c = delimiter) then Some ([], skip_delimiters delimiter source')
      else '(token, rest) ← tokenize_first source' delimiter; Some (c :: token, rest)
  end.

Fixpoint join (source : list bytes) (delimiter : byte) : bytes :=
  match source with
  | [] => []
  | [s] => s
  | s :: source' => s ++ delimiter :: join source' delimiter
  end.

(** ** Hexadecimal *)

Definition hex_digit (val : Z) : byte :=
  if val <? 10 then z_byte (48 + val) else z_byte (87 + val).

Definition hex_value (ch : byte) : option Z :=
  if ascii_in "0" "9" ch then Some (byte_z ch - 48)
  else if ascii_in "A" "F" ch then Some (byte_z ch - 65 + 10)
  else if ascii_in "a" "f" ch then Some (byte_z ch - 97 + 10)
  else None.

Definition hex_pair (b : byte) : bytes :=
  [hex_digit (Z.land (Z.shiftr (byte_z b) 4) 0xF); hex_digit (Z.land (byte_z b) 0xF)].

(** [delimiter = None] is the source's [0]: no delimiter. *)
Fixpoint hex_encode_with_delimiter (source : bytes) (delimiter : option byte) : bytes :=
  match source with
  | [] => []
  | [b] => hex_pair b
  | b :: source' =>
      hex_pair b ++ from_option (fun d => [d]) [] delimiter ++
      hex_encode_with_delimiter source' delimiter
  end.

Fixpoint hex_decode_loop (source : bytes) (delimiter : byte) : option bytes :=
  match source with
  | [] => Some []
  | [_] => None
  | a :: b :: rest =>
      h1 ← hex_value a; h2 ← hex_value b;
      let out := z_byte (Z.lor (Z.shiftl h1 4) h2) in
      match rest with
      | c :: ((_ :: _) as rest') =>
          if bool_decide (c = delimiter)
          then cons out <$> hex_decode_loop rest' delimiter else None
      | _ => cons out <$> hex_decode_loop rest delimiter
      end
  end.

(** The buffer of [buflen] bytes receives the result; [None] stands for the
    returned length 0, which every failure yields. *)
Definition hex_decode_with_delimiter (buflen : nat) (source : bytes) (delimiter : byte)
    : option bytes :=
  if bool_decide (buflen = 0)%nat then None
  else if bool_decide (buflen < (length source + 1) `div` 3)%nat then None
  else match hex_decode_loop source delimiter with
       | Some (b :: out) => Some (b :: out)
       | _ => None
       end.

(** ** string_to_number.cc *)

(** [s.c_str()] read as a C string: up to the first NUL. *)
Fixpoint c_str (s : bytes) : bytes :=
  match s with
  | [] => []
  | c :: s' => if bool_decide (c = x00) then [] else c :: c_str s'
  end.

Fixpoint span_digits (s : bytes) : bytes * bytes :=
  match s with
  | c :: s' => if is_digit c then let '(d, r) := span_digits s' in (c :: d, r) else ([], s)
  | [] => ([], [])
  end.

Definition dec_value (ds : bytes) : Z :=
  fold_left (fun acc b => acc * 10 + (byte_z b - 48)) ds 0.

Definition ULLONG_MAX : Z := 2 ^ 64 - 1.

(** [std::strtoull(str, &end, 10)] on a string that starts with a digit or a
    minus sign: the value, the text at [end], and whether [errno] is set. *)
Definition strtoull (s : bytes) : Z * bytes * bool :=
  let '(neg, body) := match s with
    | c :: s' => if bool_decide (c = "-"%byte) then (true, s') else (false, s)
    | [] => (false, [])
    end in
  let '(ds, rest) := span_digits body in
  if bool_decide (ds = []) then (0, s, false)
  else let v := dec_value ds in
    if v <=? ULLONG_MAX then (if neg then u64 (- v) else v, rest, false)
    else (ULLONG_MAX, rest, true).

Definition ParseUnsigned (s : bytes) : option Z :=
  match s with
  | [] => None
  | c :: _ =>
      if is_digit c || bool_decide (c = "-"%byte) then
        let is_negative := bool_decide (c = "-"%byte) in
        let '(value, rest, erange) := strtoull s in
        if bool_decide (rest = []) && negb erange && ((value =? 0) || negb is_negative)
        then Some value else None
      else None
  end.

(** [FromString<uint32_t>] *)
Definition FromString_uint32 (s : bytes) : option Z :=
  value ← ParseUnsigned (c_str s);
  if value <=? 2 ^ 32 - 1 then Some value else None.

(** ** [split] and [join] *)

Lemma split_loop_cur d cur s :
  split_loop d cur s =
  match split_loop d [] s with [] => [] | f :: fs => (cur ++ f) :: fs end.
Proof.
  revert cur. induction s as [|c s IH]; intros cur; simpl.
  { by rewrite app_nil_r. }
  case_bool_decide; [by rewrite app_nil_r|].
  rewrite (IH (cur ++ [c])), (IH ([c])).
  destruct (split_loop d [] s); [done|]. by rewrite <- app_assoc.
Qed.

Lemma split_cons d c s :
  split (c :: s) d =
  if bool_decide (c = d) then [] :: split s d
  else match split s d with [] => [] | f :: fs => (c :: f) :: fs end.
Proof.
  unfold split; simpl. case_bool_decide; [done|]. by rewrite split_loop_cur.
Qed.

Lemma split_not_nil s d : split s d <> [].
Proof.
  induction s as [|c s IH]; [done|]. rewrite split_cons.
  case_bool_decide; [done|]. by destruct (split s d).
Qed.

Lemma split_field_app d f s :
  d ∉ f -> split (f ++ s) d =
  match split s d with [] => [] | g :: gs => (f ++ g) :: gs end.
Proof.
  intros Hf. induction f as [|c f IH]; simpl; [by destruct (split s d)|].
  apply not_elem_of_cons in Hf as [Hc Hf]. rewrite split_cons, (IH Hf).
  rewrite bool_decide_eq_false_2 by done.
  by destruct (split s d) eqn:E.
Qed.

Lemma split_field d f : d ∉ f -> split f d = [f].
Proof.
  intros Hf. pose proof (split_field_app d f [] Hf) as H.
  rewrite app_nil_r in H. rewrite H. simpl. by rewrite app_nil_r.
Qed.

Lemma join_cons2 s1 s2 ss d : join (s1 :: s2 :: ss) d = s1 ++ d :: join (s2 :: ss) d.
Proof. done. Qed.

Lemma join_split_id s d : join (split s d) d = s.
Proof.
  induction s as [|c s IH]; [done|]. rewrite split_cons.
  pose proof (split_not_nil s d) as Hn.
  case_bool_decide as Hc; [subst|]; destruct (split s d) as [|f [|g gs]] eqn:E; try done.
  - simpl in *. by rewrite IH.
  - rewrite join_cons2, IH. done.
  - simpl in *. by rewrite IH.
  - rewrite join_cons2 in *. simpl. by rewrite <- IH.
Qed.

Lemma split_join_fields fs d :
  fs <> [] -> Forall (fun f => d ∉ f) fs -> split (join fs d) d = fs.
Proof.
  induction fs as [|f [|g gs] IH]; intros Hne Hfs; [done| |].
  - apply Forall_cons in Hfs as [Hf _]. by apply split_field.
  - apply Forall_cons in Hfs as [Hf Hfs]. rewrite join_cons2.
    rewrite split_field_app by done. rewrite split_cons, bool_decide_eq_true_2 by done.
    rewrite IH by done. by rewrite app_nil_r.
Qed.

Lemma tokenize_loop_split d cur s :
  tokenize_loop d cur s = filter (fun f => f <> []) (split_loop d cur s).
Proof.
  revert cur. induction s as [|c s IH]; intros cur; simpl.
  - rewrite filter_cons, filter_nil. by destruct cur.
  - case_bool_decide; [|apply IH]. rewrite filter_cons, IH. by destruct cur.
Qed.

(** [split] and [join] are inverse: joining the fields of any string gives
    the string back, and splitting a joined non-empty list of fields none of
    which holds the delimiter gives those fields; [tokenize] is [split]
    without the empty fields. *)
Theorem split_join_roundtrip (d : byte) :
  (forall s, join (split s d) d = s) /\
  (forall fs, fs <> [] -> Forall (fun f => d ∉ f) fs -> split (join fs d) d = fs) /\
  (forall s, tokenize s d = filter (fun f => f <> []) (split s d)).
Proof.
  split_and!; intros.
  - apply join_split_id.
  - by apply split_join_fields.
  - apply tokenize_loop_split.
Qed.

Lemma split_join_roundtrip_witness :
  split (join [str "a=ssrc"; str "1 cname"] ":"%byte) ":"%byte = [str "a=ssrc"; str "1 cname"].
Proof.
  apply (proj1 (proj2 (split_join_roundtrip ":"%byte))); [done|].
  apply (bool_decide_unpack _). vm_compute. exact I.
Defined.

(** ** Decimal numbers *)

Lemma digit_z n : 0 <= n < 10 -> byte_z (digit n) = 48 + n.
Proof. intros. unfold digit. rewrite byte_z_byte. apply Z.mod_small; lia. Qed.

Lemma digit_is_digit n : 0 <= n < 10 -> is_digit (digit n) = true.
Proof.
  intros. unfold is_digit, ascii_in. rewrite digit_z by done.
  change (byte_z "0") with 48. change (byte_z "9") with 57. lia.
Qed.

Lemma dec_digits_spec fuel n :
  0 <= n < 2 ^ Z.of_nat fuel -> fuel <> 0%nat ->
  Forall (fun b => is_digit b = true) (dec_digits fuel n) /\
  dec_digits fuel n <> [] /\ dec_value (dec_digits fuel n) = n.
Proof.
  revert n. induction fuel as [|fuel IH]; intros n Hn Hf; [done|]. simpl.
  destruct (n <? 10) eqn:E.
  - split_and!; [|done|].
    + constructor; [apply digit_is_digit; lia|constructor].
    + unfold dec_value; simpl. rewrite digit_z; lia.
  - assert (0 <= n / 10 < 2 ^ Z.of_nat fuel) as Hq.
    { rewrite Nat2Z.inj_succ, Z.pow_succ_r in Hn by lia.
      split; [apply Z.div_pos; lia|apply Z.div_lt_upper_bound; lia]. }
    assert (fuel <> 0%nat) as Hf'.
    { intros ->. change (2 ^ Z.of_nat 0) with 1 in Hq.
      assert (1 <= n / 10) by (apply Z.div_le_lower_bound; lia). lia. }
    destruct (IH _ Hq Hf') as (H1 & H2 & H3). pose proof (Z.mod_pos_bound n 10).
    split_and!.
    + apply Forall_app_2; [done|]. constructor; [apply digit_is_digit; lia|constructor].
    + by destruct (dec_digits fuel (n / 10)).
    + unfold dec_value in *. rewrite fold_left_app. simpl. rewrite H3, digit_z by lia.
      pose proof (Z.div_mod n 10). lia.
Qed.

Lemma to_string_spec n :
  0 <= n -> Forall (fun b => is_digit b = true) (to_string n) /\
  to_string n <> [] /\ dec_value (to_string n) = n.
Proof.
  intros Hn. unfold to_string. destruct (n <? 0) eqn:E; [lia|].
  apply dec_digits_spec; [|done]. split; [done|].
  rewrite Nat2Z.inj_succ, Z2Nat.id by apply Z.log2_nonneg.
  destruct (decide (n = 0)) as [->|]; [done|]. apply Z.log2_spec. lia.
Qed.

Lemma span_digits_all ds : Forall (fun b => is_digit b = true) ds -> span_digits ds = (ds, []).
Proof. induction 1 as [|b ds Hb _ IH]; simpl; [done|]. by rewrite Hb, IH. Qed.

Lemma c_str_id s : x00 ∉ s -> c_str s = s.
Proof.
  induction s as [|b s IH]; intros Hn; [done|]. cbn [c_str]. apply not_elem_of_cons in Hn as [Hb Hn].
  rewrite bool_decide_false by congruence. by rewrite IH.
Qed.

Lemma c_str_digits ds : Forall (fun b => is_digit b = true) ds -> c_str ds = ds.
Proof.
  induction 1 as [|b ds Hb _ IH]; simpl; [done|].
  rewrite bool_decide_eq_false_2, IH; [done|]. by intros ->.
Qed.

Lemma FromString_uint32_to_string n :
  0 <= n < 2 ^ 32 -> FromString_uint32 (to_string n) = Some n.
Proof.
  intros Hn. destruct (to_string_spec n) as (Hd & Hne & Hv); [lia|].
  unfold FromString_uint32. rewrite c_str_digits by done.
  unfold ParseUnsigned. destruct (to_string n) as [|c s] eqn:E; [done|].
  pose proof Hd as Hd'. apply Forall_cons in Hd as [Hc _]. rewrite Hc. simpl orb. cbv iota.
  assert (c <> "-"%byte) as Hm by (by intros ->).
  unfold strtoull. rewrite (bool_decide_eq_false_2 (c = _)) by done. cbv iota zeta.
  rewrite span_digits_all, Hv by done. rewrite (bool_decide_eq_false_2 (_ :: _ = [])) by done.
  cbv beta iota zeta. unfold ULLONG_MAX.
  destruct (n <=? 2 ^ 64 - 1) eqn:E1; [|lia]. cbv iota beta.
  rewrite (bool_decide_eq_true_2 ([] = [])) by done. cbn [negb andb orb].
  rewrite orb_true_r. simpl mbind. destruct (n <=? 2 ^ 32 - 1) eqn:E2; [done|lia].
Qed.

(** ** Hexadecimal *)

Definition hex_pair_ok (b : byte) : bool :=
  match map to_upper (hex_pair b) with
  | [x; y] => match hex_value x, hex_value y with
              | Some h1, Some h2 => bool_decide (z_byte (Z.lor (Z.shiftl h1 4) h2) = b)
              | _, _ => false
              end
  | _ => false
  end.

Lemma hex_pair_all_ok b : hex_pair_ok b = true.
Proof. destruct b; vm_compute; reflexivity. Qed.

Lemma hex_pair_inv b : exists x y h1 h2,
  map to_upper (hex_pair b) = [x; y] /\ hex_value x = Some h1 /\ hex_value y = Some h2 /\
  z_byte (Z.lor (Z.shiftl h1 4) h2) = b.
Proof.
  pose proof (hex_pair_all_ok b) as H. unfold hex_pair_ok in H.
  destruct (map to_upper (hex_pair b)) as [|x [|y [|]]]; try done.
  destruct (hex_value x) as [h1|] eqn:E1; [|done].
  destruct (hex_value y) as [h2|] eqn:E2; [|done].
  apply bool_decide_eq_true in H. by exists x, y, h1, h2.
Qed.

Lemma hex_decode_loop_step a b s d h1 h2 :
  s <> [] -> hex_value a = Some h1 -> hex_value b = Some h2 ->
  hex_decode_loop (a :: b :: d :: s) d =
  cons (z_byte (Z.lor (Z.shiftl h1 4) h2)) <$> hex_decode_loop s d.
Proof.
  intros Hs E1 E2. destruct s as [|r rs]; [done|].
  change (hex_decode_loop (a :: b :: d :: r :: rs) d) with
    (h1 ← hex_value a; h2 ← hex_value b;
     if bool_decide (d = d) then
       cons (z_byte (Z.lor (Z.shiftl h1 4) h2)) <$> hex_decode_loop (r :: rs) d else None).
  rewrite E1, E2. cbn [mbind option_bind]. by rewrite bool_decide_eq_true_2.
Qed.

Lemma hex_decode_loop_encode s d :
  to_upper d = d ->
  hex_decode_loop (map to_upper (hex_encode_with_delimiter s (Some d))) d = Some s.
Proof.
  intros Hd. induction s as [|b s IH]; [done|].
  destruct (hex_pair_inv b) as (x & y & h1 & h2 & Hp & E1 & E2 & Hb).
  destruct s as [|b' s'].
  - change (hex_encode_with_delimiter [b] (Some d)) with (hex_pair b). rewrite Hp.
    simpl. by rewrite E1, E2, <- Hb.
  - change (hex_encode_with_delimiter (b :: b' :: s') (Some d)) with
      (hex_pair b ++ [d] ++ hex_encode_with_delimiter (b' :: s') (Some d)).
    rewrite !map_app, Hp. cbn [map]. rewrite Hd.
    cbn [app map]. rewrite (hex_decode_loop_step _ _ _ _ h1 h2); [|by destruct s'|done..].
    rewrite IH. simpl. by rewrite Hb.
Qed.

(** Every decoded byte but the last consumes three characters, the last one
    two, so the output fits the length the caller checked. *)
Lemma hex_decode_loop_length n : forall s d out,
  (length s <= n)%nat -> hex_decode_loop s d = Some out ->
  length out = ((length s + 1) `div` 3)%nat.
Proof.
  induction n as [|n IH]; intros s d out Hl H.
  { destruct s; [|simpl in *; lia]. by injection H as <-. }
  destruct s as [|a [|b rest]]; [by injection H as <-|done|].
  simpl in H. destruct (hex_value a) as [h1|]; [|done].
  destruct (hex_value b) as [h2|]; [|done]. simpl in H.
  destruct rest as [|c [|c' rest']].
  - injection H as <-. done.
  - done.
  - case_bool_decide; [|done].
    destruct (hex_decode_loop (c' :: rest') d) as [out'|] eqn:E; [|done].
    injection H as <-. apply IH in E; [|simpl in *; lia]. simpl length in *. rewrite E.
    replace (S (S (S (S (length rest')))) + 1)%nat
      with (1 * 3 + (S (length rest') + 1))%nat by lia.
    rewrite Nat.div_add_l by lia. done.
Qed.

Lemma hex_encode_length s d :
  length (hex_encode_with_delimiter s (Some d)) = (3 * length s - 1)%nat.
Proof.
  induction s as [|b s IH]; [done|]. destruct s as [|b' s']; [done|].
  change (hex_encode_with_delimiter (b :: b' :: s') (Some d)) with
    (hex_pair b ++ [d] ++ hex_encode_with_delimiter (b' :: s') (Some d)).
  rewrite !length_app, IH. simpl. lia.
Qed.

Lemma hex_decode_upper buflen s :
  s <> [] -> (length s <= buflen)%nat ->
  hex_decode_with_delimiter buflen
    (map to_upper (hex_encode_with_delimiter s (Some ":"%byte))) ":" = Some s.
Proof.
  intros Hs Hlen. unfold hex_decode_with_delimiter.
  rewrite length_map, hex_encode_length, hex_decode_loop_encode by done.
  destruct s as [|b s]; [done|]. simpl length in *.
  rewrite bool_decide_eq_false_2 by lia.
  replace (3 * S (length s) - 1 + 1)%nat with (S (length s) * 3)%nat by lia.
  rewrite Nat.div_mul by lia. by rewrite bool_decide_eq_false_2 by lia.
Qed.

(** The colon-separated fingerprint text is decoded back to the digest it
    was printed from, in upper case as the SDP writer prints it, and a
    successful decode never writes more bytes than the buffer holds. *)
Theorem hex_fingerprint_roundtrip :
  (forall buflen s, s <> [] -> (length s <= buflen)%nat ->
    hex_decode_with_delimiter buflen
      (map to_upper (hex_encode_with_delimiter s (Some ":"%byte))) ":" = Some s) /\
  (forall buflen src out,
    hex_decode_with_delimiter buflen src ":" = Some out -> (length out <= buflen)%nat).
Proof.
  split.
  - intros. by apply hex_decode_upper.
  - intros buflen src out. unfold hex_decode_with_delimiter.
    case_bool_decide; [done|]. case_bool_decide; [done|].
    destruct (hex_decode_loop src ":") as [out'|] eqn:E; [|done].
    apply (hex_decode_loop_length _ _ _ _ (le_n _)) in E.
    destruct out'; [done|]. intros [= <-]. lia.
Qed.

Lemma hex_fingerprint_roundtrip_witness :
  hex_decode_with_delimiter 64
    (map to_upper (hex_encode_with_delimiter [xab; x01; xff] (Some ":"%byte))) ":"
  = Some [xab; x01; xff].
Proof. apply (proj1 hex_fingerprint_roundtrip); [done|apply (bool_decide_unpack _); exact I]. Defined.
