(* ===== verification/Base64.v ===== *)
(** * Base64 and PEM text (rtc_base/third_party/base64/base64.{h,cc}, rtc_base/ssl_identity.cc)

    The encoder, the decoder with its flags, and the PEM
    text of keys and certificates ([DerToPem], [PemToDer]). *)

From S2P Require Import Prelude.
From S2P Require Import StringEncode.
Local Open Scope Z_scope.

(** ** Tables *)

Definition kPad : byte := "=".
Definition pd : Z := 0xFD.
Definition sp : Z := 0xFE.
Definition il : Z := 0xFF.

Definition Base64Table : bytes :=
  str "ABCDEFGHIJKLMNOPQRSTUVWXYZabcdefghijklmnopqrstuvwxyz0123456789+/".

(** [Base64Table[c]]; the callers mask [c] to six bits. *)
Definition b64_char (c : Z) : byte := nth (Z.to_nat c) Base64Table x00.

(** The first 130 entries of the table, by tens; all others are [il]. *)
Definition DecodeTable : list Z :=
  [il; il; il; il; il; il; il; il; il; sp;
   sp; sp; sp; sp; il; il; il; il; il; il;
   il; il; il; il; il; il; il; il; il; il;
   il; il; sp; il; il; il; il; il; il; il;
   il; il; il; 62; il; il; il; 63; 52; 53;
   54; 55; 56; 57; 58; 59; 60; 61; il; il;
   il; pd; il; il; il;  0;  1;  2;  3;  4;
    5;  6;  7;  8;  9; 10; 11; 12; 13; 14;
   15; 16; 17; 18; 19; 20; 21; 22; 23; 24;
   25; il; il; il; il; il; il; 26; 27; 28;
   29; 30; 31; 32; 33; 34; 35; 36; 37; 38;
   39; 40; 41; 42; 43; 44; 45; 46; 47; 48;
   49; 50; 51; il; il; il; il; il; il; il] ++ replicate 126 il.

(** [DecodeTable[static_cast<unsigned char>(ch)]] *)
Definition decode_char (ch : byte) : Z := nth (Z.to_nat (byte_z ch)) DecodeTable il.

Definition IsBase64Char (ch : byte) : bool :=
  ascii_in "A" "Z" ch || ascii_in "a" "z" ch || ascii_in "0" "9" ch ||
  bool_decide (ch = "+"%byte) || bool_decide (ch = "/"%byte).

Definition IsBase64Encoded (s : bytes) : bool := forallb IsBase64Char s.

(** What [strchr] finds counts the terminating NUL, which is found for the
    character 0 and is followed by no character of the table. *)
Definition GetNextBase64Char (ch : byte) : outcome (option byte) :=
  match list_find (fun c => c = ch) (Base64Table ++ [x00]) with
  | None => Done None
  | Some (p, _) =>
      c ← deref out_of_bounds ((Base64Table ++ [x00]) !! S p);
      Done (Some (if bool_decide (c = x00) then b64_char 0 else c))
  end.

(** ** Encoding *)

(** The loop of [EncodeFromArray]: one round per three bytes, fewer at the end;
    each round writes four characters. *)
Fixpoint EncodeFromArray (data : bytes) : bytes :=
  match data with
  | [] => []
  | b0 :: rest0 =>
      b64_char (Z.land (Z.shiftr (byte_z b0) 2) 0x3f) ::
      let c := Z.land (Z.shiftl (byte_z b0) 4) 0x3f in
      match rest0 with
      | [] => [b64_char c; kPad; kPad]
      | b1 :: rest1 =>
          b64_char (Z.lor c (Z.land (Z.shiftr (byte_z b1) 4) 0x0f)) ::
          let c := Z.land (Z.shiftl (byte_z b1) 2) 0x3f in
          match rest1 with
          | [] => [b64_char c; kPad]
          | b2 :: rest2 =>
              b64_char (Z.lor c (Z.land (Z.shiftr (byte_z b2) 6) 0x03)) ::
              b64_char (Z.land (byte_z b2) 0x3f) :: EncodeFromArray rest2
          end
      end
  end.

(** The size given to the result before the loop. *)
Definition encoded_size (len : nat) : nat := (len + 2) / 3 * 4.

(** ** Decoding *)

Definition DO_PARSE_STRICT : Z := 1.
Definition DO_PARSE_WHITE : Z := 2.
Definition DO_PARSE_ANY : Z := 3.
Definition DO_PARSE_MASK : Z := 3.
Definition DO_PAD_YES : Z := 4.
Definition DO_PAD_ANY : Z := 8.
Definition DO_PAD_NO : Z := 12.
Definition DO_PAD_MASK : Z := 12.
Definition DO_TERM_BUFFER : Z := 16.
Definition DO_TERM_CHAR : Z := 32.
Definition DO_TERM_ANY : Z := 48.
Definition DO_TERM_MASK : Z := 48.
Definition DO_STRICT : Z := Z.lor (Z.lor DO_PARSE_STRICT DO_PAD_YES) DO_TERM_BUFFER.
Definition DO_LAX : Z := Z.lor (Z.lor DO_PARSE_ANY DO_PAD_ANY) DO_TERM_CHAR.

(** The locals of [GetNextQuantum]. *)
Record quantum : Type := mkQuantum {
  byte_len : nat;
  pad_len : nat;
  pad_start : nat;
  qbuf : list Z
}.

Definition store (v : Z) (q : quantum) : quantum :=
  mkQuantum (byte_len q) (pad_len q) (pad_start q) (<[byte_len q := v]> (qbuf q)).

Definition count_byte (q : quantum) : quantum :=
  mkQuantum (S (byte_len q)) 0 (pad_start q) (qbuf q).

Definition count_pad (dpos : nat) (q : quantum) : quantum :=
  mkQuantum (byte_len q) (S (pad_len q))
    (if bool_decide (S (pad_len q) = 1%nat) then dpos else pad_start q) (qbuf q).

(** The body of the loop for the value [v] of the character at [dpos]; [false] is
    [break]. *)
Definition quantum_step (parse_flags : Z) (illegal_pads : bool) (dpos : nat) (v : Z)
    (q0 : quantum) : bool * quantum :=
  let any := parse_flags =? DO_PARSE_ANY in
  let q := store v q0 in
  if (v =? il) || (illegal_pads && (v =? pd)) then (any, q)
  else if v =? sp then (negb (parse_flags =? DO_PARSE_STRICT), q)
  else if v =? pd then
    if bool_decide (byte_len q < 2)%nat then (any, q)
    else if bool_decide (4 <= byte_len q + pad_len q)%nat then (any, q)
    else (true, count_pad dpos q)
  else if bool_decide (0 < pad_len q)%nat then
    if any then (true, count_byte q) else (false, q)
  else (true, count_byte q).

Fixpoint quantum_loop (parse_flags : Z) (illegal_pads : bool) (rest : bytes) (dpos : nat)
    (q : quantum) : nat * quantum :=
  match rest with
  | [] => (dpos, q)
  | ch :: rest' =>
      if bool_decide (4 <= byte_len q)%nat then (dpos, q) else
      let '(go_on, q') := quantum_step parse_flags illegal_pads dpos (decode_char ch) q in
      if go_on then quantum_loop parse_flags illegal_pads rest' (S dpos) q' else (dpos, q')
  end.

(** [for (size_t i = byte_len; i < 4; ++i) qbuf[i] = 0] *)
Definition clear_from (n : nat) (buf : list Z) : list Z :=
  imap (fun i v => if bool_decide (n <= i)%nat then 0 else v) buf.

(** [GetNextQuantum]: the bytes counted, [*dpos], [*padded] and [qbuf]. *)
Definition GetNextQuantum (parse_flags : Z) (illegal_pads : bool) (data : bytes) (dpos : nat)
    (buf : list Z) : nat * nat * bool * list Z :=
  let '(dpos', q) := quantum_loop parse_flags illegal_pads (drop dpos data) dpos
                       (mkQuantum 0 0 0 buf) in
  let padded := bool_decide (byte_len q + pad_len q = 4)%nat in
  (byte_len q,
   (if negb padded && bool_decide (0 < pad_len q)%nat then pad_start q else dpos'),
   padded,
   clear_from (byte_len q) (qbuf q)).

Record decoded : Type := mkDecoded {
  dec_success : bool;
  dec_result : bytes;
  dec_used : nat
}.

(** What one round of the loop appends and leaves in [c]. *)
Definition quantum_bytes (qlen : nat) (buf : list Z) : bytes * Z :=
  let q i := nth i buf 0 in
  let c0 := u8 (Z.lor (Z.shiftl (q 0%nat) 2) (Z.land (Z.shiftr (q 1%nat) 4) 0x3)) in
  let c1 := u8 (Z.lor (Z.land (Z.shiftl (q 1%nat) 4) 0xf0) (Z.land (Z.shiftr (q 2%nat) 2) 0xf)) in
  let c2 := u8 (Z.lor (Z.land (Z.shiftl (q 2%nat) 6) 0xc0) (q 3%nat)) in
  if bool_decide (qlen < 2)%nat then ([], c0)
  else if bool_decide (qlen < 3)%nat then ([z_byte c0], c1)
  else if bool_decide (qlen < 4)%nat then ([z_byte c0; z_byte c1], c2)
  else ([z_byte c0; z_byte c1; z_byte c2], 0).

(** The loop of [DecodeFromArrayTemplate]; [None] when [fuel] does not suffice. *)
Fixpoint decode_loop (fuel : nat) (parse_flags pad_flags term_flags : Z) (data : bytes)
    (dpos : nat) (buf : list Z) (result : bytes) : option decoded :=
  match fuel with
  | O => None
  | S f =>
      if bool_decide (length data <= dpos)%nat then Some (mkDecoded true result dpos) else
      let '(qlen, dpos, padded, buf) :=
        GetNextQuantum parse_flags (DO_PAD_NO =? pad_flags) data dpos buf in
      let '(out, c) := quantum_bytes qlen buf in
      let result := result ++ out in
      if bool_decide (qlen < 4)%nat
      then Some (mkDecoded (negb (negb (DO_TERM_ANY =? term_flags) && negb (0 =? c)) &&
                            negb ((DO_PAD_YES =? pad_flags) && negb padded)) result dpos)
      else decode_loop f parse_flags pad_flags term_flags data dpos buf result
  end.

(** [DecodeFromArray]: every round before the last uses up four characters, so
    the fuel suffices ([decode_total]); no element of [qbuf] is read before it is
    written ([quantum_buffer_unread]), so zeros stand for its first contents. *)
Definition DecodeFromArray (data : bytes) (flags : Z) : option decoded :=
  let parse_flags := Z.land flags DO_PARSE_MASK in
  let pad_flags := Z.land flags DO_PAD_MASK in
  let term_flags := Z.land flags DO_TERM_MASK in
  r ← decode_loop (S (length data)) parse_flags pad_flags term_flags data 0 [0; 0; 0; 0] [];
  Some (mkDecoded
    (dec_success r &&
     negb ((DO_TERM_BUFFER =? term_flags) && negb (bool_decide (dec_used r = length data))))
    (dec_result r) (dec_used r)).

(** [Encode], and [Decode] to a string: the success is not reported. *)
Definition Base64_Encode (data : bytes) : bytes := EncodeFromArray data.
Definition Base64_Decode (data : bytes) (flags : Z) : option bytes :=
  dec_result <$> DecodeFromArray data flags.

(** ** PEM *)

(** [s.find(p, pos)] *)
Fixpoint find_at (p s : bytes) (i : nat) : option nat :=
  if is_prefix p s then Some i
  else match s with [] => None | _ :: s' => find_at p s' (S i) end.

Definition string_find (s p : bytes) (pos : nat) : option nat :=
  if bool_decide (pos <= length s)%nat then find_at p (drop pos s) pos else None.

Definition pem_begin (pem_type : bytes) : bytes := str "-----BEGIN " ++ pem_type ++ str "-----".
Definition pem_end (pem_type : bytes) : bytes := str "-----END " ++ pem_type ++ str "-----".
Definition newline : byte := x0a.

Definition kChunkSize : nat := 64.

(** The loop over the chunks of [DerToPem], [chunks] rounds from the start of [s]. *)
Fixpoint pem_lines (chunks : nat) (s : bytes) : bytes :=
  match chunks with
  | O => []
  | S n => take kChunkSize s ++ [newline] ++ pem_lines n (drop kChunkSize s)
  end.

Definition chunk_count (size : nat) : nat := (size + (kChunkSize - 1)) / kChunkSize.

Definition DerToPem (pem_type data : bytes) : bytes :=
  let b64_encoded := EncodeFromArray data in
  pem_begin pem_type ++ [newline] ++
  pem_lines (chunk_count (length b64_encoded)) b64_encoded ++
  pem_end pem_type ++ [newline].

(** The length of the body is a [size_t]: it wraps around when the trailer is
    found before the body, and [substr] then takes all that is left. *)
Definition pem_inner (pem_string : bytes) (body trailer : nat) : bytes :=
  let n := u64 (Z.of_nat trailer - Z.of_nat (body + 1)) in
  let rest := drop (body + 1) pem_string in
  if Z.of_nat (length rest) <=? n then rest else take (Z.to_nat n) rest.

Definition PemToDer (pem_type pem_string : bytes) : option bytes :=
  header ← string_find pem_string (pem_begin pem_type) 0;
  body ← string_find pem_string [newline] header;
  trailer ← string_find pem_string (pem_end pem_type) 0;
  Base64_Decode (pem_inner pem_string body trailer)
    (Z.lor (Z.lor DO_PARSE_WHITE DO_PAD_ANY) DO_TERM_BUFFER).
