(* ===== verification/Base64Theory.v ===== *)
(** * Base64: what the decoder accepts

    The decoder reads back what the encoder writes, under every combination of
    flags that allows padding; the strict decoder accepts nothing else. *)

From S2P Require Import Prelude.
From S2P Require Import StringEncode.
From S2P Require Import Base64.
Local Open Scope Z_scope.

(** ** Six-bit arithmetic, by evaluation *)

Lemma high_six b : 0 <= b < 256 -> Z.land (Z.shiftr b 2) 0x3f = b / 4.
Proof. intros. check_below 256%nat b. Qed.

Lemma low_six b : 0 <= b < 256 -> Z.land b 0x3f = b mod 64.
Proof. intros. check_below 256%nat b. Qed.

Lemma two_high b : 0 <= b < 256 -> Z.land (Z.shiftl b 4) 0x3f = b mod 4 * 16.
Proof. intros. check_below 256%nat b. Qed.

Lemma four_high b : 0 <= b < 256 -> Z.land (Z.shiftl b 2) 0x3f = b mod 16 * 4.
Proof. intros. check_below 256%nat b. Qed.

Lemma second_six b c : 0 <= b < 256 -> 0 <= c < 256 ->
  Z.lor (Z.land (Z.shiftl b 4) 0x3f) (Z.land (Z.shiftr c 4) 0x0f) = b mod 4 * 16 + c / 16.
Proof.
  intros. check_below2 256%nat 256%nat b c.
Qed.

Lemma third_six b c : 0 <= b < 256 -> 0 <= c < 256 ->
  Z.lor (Z.land (Z.shiftl b 2) 0x3f) (Z.land (Z.shiftr c 6) 0x03) = b mod 16 * 4 + c / 64.
Proof.
  intros. check_below2 256%nat 256%nat b c.
Qed.

Lemma first_byte p q : 0 <= p < 64 -> 0 <= q < 64 ->
  u8 (Z.lor (Z.shiftl p 2) (Z.land (Z.shiftr q 4) 0x3)) = p * 4 + q / 16.
Proof.
  intros. check_below2 64%nat 64%nat p q.
Qed.

Lemma second_byte p q : 0 <= p < 64 -> 0 <= q < 64 ->
  u8 (Z.lor (Z.land (Z.shiftl p 4) 0xf0) (Z.land (Z.shiftr q 2) 0xf)) = p mod 16 * 16 + q / 4.
Proof.
  intros. check_below2 64%nat 64%nat p q.
Qed.

Lemma third_byte p q : 0 <= p < 64 -> 0 <= q < 64 ->
  u8 (Z.lor (Z.land (Z.shiftl p 6) 0xc0) q) = p mod 4 * 64 + q.
Proof.
  intros. check_below2 64%nat 64%nat p q.
Qed.

(** ** The tables are inverse *)

Lemma decode_b64_char c : 0 <= c < 64 -> decode_char (b64_char c) = c.
Proof. intros. check_below 64%nat c. Qed.

Definition char_class (ch : byte) : bool :=
  let v := decode_char ch in
  if 64 <=? v then (v =? il) || (v =? sp) || ((v =? pd) && bool_decide (ch = kPad))
  else (0 <=? v) && bool_decide (ch = b64_char v).

Lemma decode_char_class ch :
  (0 <= decode_char ch < 64 /\ ch = b64_char (decode_char ch)) \/
  decode_char ch = il \/ decode_char ch = sp \/ (decode_char ch = pd /\ ch = kPad).
Proof.
  assert (char_class ch = true) as H by (by destruct ch; vm_compute).
  unfold char_class in H. cbv zeta in H. destruct (64 <=? decode_char ch) eqn:E.
  - rewrite !orb_true_iff, andb_true_iff, bool_decide_eq_true, !Z.eqb_eq in H. tauto.
  - rewrite andb_true_iff, bool_decide_eq_true in H. left. split; [lia|tauto].
Qed.

Lemma decode_pad : decode_char kPad = pd.
Proof. reflexivity. Qed.

(** ** The encoder in arithmetic *)

Definition sextets2 (b0 : byte) : list byte :=
  [b64_char (byte_z b0 / 4); b64_char (byte_z b0 mod 4 * 16)].
Definition sextets3 (b0 b1 : byte) : list byte :=
  [b64_char (byte_z b0 / 4); b64_char (byte_z b0 mod 4 * 16 + byte_z b1 / 16);
   b64_char (byte_z b1 mod 16 * 4)].
Definition sextets4 (b0 b1 b2 : byte) : list byte :=
  [b64_char (byte_z b0 / 4); b64_char (byte_z b0 mod 4 * 16 + byte_z b1 / 16);
   b64_char (byte_z b1 mod 16 * 4 + byte_z b2 / 64); b64_char (byte_z b2 mod 64)].

Lemma encode_one b0 : EncodeFromArray [b0] = sextets2 b0 ++ [kPad; kPad].
Proof.
  pose proof (byte_z_range b0). cbn [EncodeFromArray].
  by rewrite high_six, two_high.
Qed.
Lemma encode_two b0 b1 : EncodeFromArray [b0; b1] = sextets3 b0 b1 ++ [kPad].
Proof.
  pose proof (byte_z_range b0). pose proof (byte_z_range b1). cbn [EncodeFromArray].
  by rewrite high_six, second_six, four_high.
Qed.
Lemma encode_three b0 b1 b2 d :
  EncodeFromArray (b0 :: b1 :: b2 :: d) = sextets4 b0 b1 b2 ++ EncodeFromArray d.
Proof.
  pose proof (byte_z_range b0). pose proof (byte_z_range b1). pose proof (byte_z_range b2).
  cbn [EncodeFromArray]. by rewrite high_six, second_six, third_six, low_six.
Qed.

(** Induction over the rounds of the encoder. *)
Lemma three_ind (P : bytes -> Prop) :
  P [] -> (forall b0, P [b0]) -> (forall b0 b1, P [b0; b1]) ->
  (forall b0 b1 b2 d, P d -> P (b0 :: b1 :: b2 :: d)) -> forall d, P d.
Proof.
  intros H0 H1 H2 H3. fix IH 1. intros [|b0 [|b1 [|b2 d]]]; [done..|]. apply H3, IH.
Qed.

(** Every place of the result is written: the loop writes as many characters as
    the result was given. *)
Lemma encoded_length data : length (EncodeFromArray data) = encoded_size (length data).
Proof.
  unfold encoded_size. induction data as [|b0|b0 b1|b0 b1 b2 d IH] using three_ind; [done..|].
  rewrite encode_three, length_app, IH. cbn [length sextets4].
  replace (S (S (S (length d))) + 2)%nat with (length d + 2 + 1 * 3)%nat by lia.
  rewrite Nat.div_add by lia. lia.
Qed.

Lemma encode_app d1 d2 :
  Nat.modulo (length d1) 3 = 0%nat ->
  EncodeFromArray (d1 ++ d2) = EncodeFromArray d1 ++ EncodeFromArray d2.
Proof.
  induction d1 as [|b0|b0 b1|b0 b1 b2 d IH] using three_ind; intros Hl; [done..|].
  cbn [app]. rewrite !encode_three, IH, app_assoc; [done|].
  cbn [length] in Hl. replace (S (S (S (length d)))) with (length d + 1 * 3)%nat in Hl by lia.
  by rewrite Nat.Div0.mod_add in Hl.
Qed.

(** ** One quantum *)

(** What the loop has collected: the six-bit values [cs] and [k] pads. *)
Record holds (q : quantum) (cs : list Z) (k : nat) : Prop := {
  holds_bytes : byte_len q = length cs;
  holds_pads : pad_len q = k;
  holds_buf : take (length cs) (qbuf q) = cs;
  holds_size : length (qbuf q) = 4%nat
}.

Lemma holds_start buf : length buf = 4%nat -> holds (mkQuantum 0 0 0 buf) [] 0.
Proof. by split. Qed.

Lemma holds_store q cs k v : holds q cs k -> holds (store v q) cs k.
Proof.
  intros [Hb Hp Ht Hs]. split; simpl; [done..| |by rewrite length_insert].
  by rewrite Hb, take_insert_ge by done.
Qed.

Lemma holds_byte q cs v :
  holds q cs 0 -> (length cs < 4)%nat -> holds (count_byte (store v q)) (cs ++ [v]) 0.
Proof.
  intros [Hb Hp Ht Hs] Hl. split; simpl; [rewrite length_app; simpl; lia|done| |by rewrite length_insert].
  rewrite length_app. simpl. rewrite Nat.add_1_r, Hb.
  rewrite (take_S_r _ _ v) by (apply list_lookup_insert_eq; lia).
  by rewrite take_insert_ge, Ht by lia.
Qed.

Lemma holds_pad q cs k v dpos : holds q cs k -> holds (count_pad dpos (store v q)) cs (S k).
Proof. intros [Hb Hp Ht Hs]%(holds_store _ _ _ v). split; simpl in *; congruence. Qed.

Lemma holds_clear q cs k :
  holds q cs k -> (length cs <= 4)%nat ->
  clear_from (byte_len q) (qbuf q) = cs ++ replicate (4 - length cs) 0.
Proof.
  intros [Hb Hp Ht Hs] Hl. rewrite Hb. apply list_eq. intros i. unfold clear_from.
  rewrite list_lookup_imap. destruct (decide (i < length cs)%nat) as [Hi|Hi].
  - rewrite lookup_app_l by done.
    assert (qbuf q !! i = cs !! i) as <- by (rewrite <- Ht, lookup_take_lt; done).
    destruct (qbuf q !! i); simpl; [|done]. by rewrite bool_decide_eq_false_2 by lia.
  - rewrite lookup_app_r by lia. destruct (decide (i < 4)%nat).
    + rewrite lookup_replicate_2 by lia.
      destruct (lookup_lt_is_Some_2 (qbuf q) i) as [x ->]; [lia|]. simpl.
      by rewrite bool_decide_eq_true_2 by lia.
    + rewrite (lookup_ge_None_2 (qbuf q)) by lia. symmetry.
      apply lookup_ge_None_2. rewrite length_replicate. lia.
Qed.

(** The step for each class of character. *)
Lemma step_char pf ip dpos c q cs :
  holds q cs 0 -> 0 <= c < 64 -> quantum_step pf ip dpos c q = (true, count_byte (store c q)).
Proof.
  intros Hq Hc. unfold quantum_step.
  rewrite (proj2 (Z.eqb_neq c il)), (proj2 (Z.eqb_neq c pd)), (proj2 (Z.eqb_neq c sp))
    by (unfold il, pd, sp; lia).
  rewrite andb_false_r. simpl. rewrite (holds_pads _ _ _ Hq). done.
Qed.

Lemma step_space pf ip dpos q :
  quantum_step pf ip dpos sp q = (negb (pf =? DO_PARSE_STRICT), store sp q).
Proof. unfold quantum_step. by destruct ip. Qed.

Lemma step_pad pf dpos q cs k :
  holds q cs k -> (2 <= length cs)%nat -> (length cs + k < 4)%nat ->
  quantum_step pf false dpos pd q = (true, count_pad dpos (store pd q)).
Proof.
  intros Hq H2 H4. unfold quantum_step. simpl.
  rewrite (holds_bytes _ _ _ Hq), (holds_pads _ _ _ Hq).
  by rewrite !bool_decide_eq_false_2 by lia.
Qed.

(** [reaches]: from what was collected before [rest] the loop goes on to what is
    collected before [rest']. *)
Definition reaches (pf : Z) (ip : bool) (rest : bytes) (dpos : nat) (cs : list Z) (k : nat)
    (rest' : bytes) (dpos' : nat) (cs' : list Z) (k' : nat) : Prop :=
  forall q, holds q cs k ->
  exists q', holds q' cs' k' /\
    quantum_loop pf ip rest dpos q = quantum_loop pf ip rest' dpos' q'.

Lemma reaches_refl pf ip rest dpos cs k : reaches pf ip rest dpos cs k rest dpos cs k.
Proof. intros q Hq. eauto. Qed.

Lemma reaches_trans pf ip r1 d1 cs1 k1 r2 d2 cs2 k2 r3 d3 cs3 k3 :
  reaches pf ip r1 d1 cs1 k1 r2 d2 cs2 k2 -> reaches pf ip r2 d2 cs2 k2 r3 d3 cs3 k3 ->
  reaches pf ip r1 d1 cs1 k1 r3 d3 cs3 k3.
Proof.
  intros H1 H2 q Hq. destruct (H1 q Hq) as (q' & Hq' & ->). by apply H2.
Qed.

Lemma reaches_char pf ip c rest dpos cs :
  0 <= c < 64 -> (length cs < 4)%nat ->
  reaches pf ip (b64_char c :: rest) dpos cs 0 rest (S dpos) (cs ++ [c]) 0.
Proof.
  intros Hc Hl q Hq. eexists. split; [by apply holds_byte|].
  cbn [quantum_loop]. rewrite (holds_bytes _ _ _ Hq), bool_decide_eq_false_2 by lia.
  by rewrite decode_b64_char, (step_char _ _ _ _ _ _ Hq Hc).
Qed.

Lemma reaches_pad pf rest dpos cs k :
  (2 <= length cs)%nat -> (length cs + k < 4)%nat ->
  reaches pf false (kPad :: rest) dpos cs k rest (S dpos) cs (S k).
Proof.
  intros H2 H4 q Hq. eexists. split; [by apply holds_pad|].
  cbn [quantum_loop]. rewrite (holds_bytes _ _ _ Hq), bool_decide_eq_false_2 by lia.
  by rewrite decode_pad, (step_pad _ _ _ _ _ Hq H2 H4).
Qed.

Definition all_space (ws : bytes) : Prop := Forall (fun ch => decode_char ch = sp) ws.

Lemma reaches_spaces pf ip ws rest dpos cs k :
  all_space ws -> (pf =? DO_PARSE_STRICT) = false -> (length cs < 4)%nat ->
  reaches pf ip (ws ++ rest) dpos cs k rest (dpos + length ws) cs k.
Proof.
  intros Hws Hpf Hl. revert dpos. induction Hws as [|ch ws Hch _ IH]; intros dpos.
  { rewrite Nat.add_0_r. apply reaches_refl. }
  simpl. rewrite Nat.add_succ_r. eapply reaches_trans; [|apply (IH (S dpos))].
  intros q Hq. eexists. split; [by apply holds_store|].
  cbn [quantum_loop]. rewrite (holds_bytes _ _ _ Hq), bool_decide_eq_false_2 by lia.
  by rewrite Hch, step_space, Hpf.
Qed.

(** A quantum that the loop leaves at [rest'], filled up by pads or with none. *)
Lemma quantum_result pf ip data dpos buf rest' dpos' cs k :
  length buf = 4%nat ->
  reaches pf ip (drop dpos data) dpos [] 0 rest' dpos' cs k ->
  rest' = [] \/ length cs = 4%nat -> (length cs <= 4)%nat ->
  k = 0%nat \/ (length cs + k = 4)%nat ->
  GetNextQuantum pf ip data dpos buf =
    (length cs, dpos', bool_decide (length cs + k = 4)%nat, cs ++ replicate (4 - length cs) 0).
Proof.
  intros Hbuf Hr Hend Hl Hk. unfold GetNextQuantum.
  destruct (Hr _ (holds_start buf Hbuf)) as (q' & Hq & ->).
  assert (quantum_loop pf ip rest' dpos' q' = (dpos', q')) as ->.
  { destruct Hend as [->|H4]; [done|]. destruct rest'; [done|]. simpl.
    rewrite (holds_bytes _ _ _ Hq). by rewrite bool_decide_eq_true_2 by lia. }
  rewrite (holds_clear _ _ _ Hq Hl), (holds_bytes _ _ _ Hq), (holds_pads _ _ _ Hq).
  do 3 f_equal. destruct Hk as [->|Hk].
  - rewrite (bool_decide_eq_false_2 (0 < 0)%nat) by lia. by rewrite andb_false_r.
  - by rewrite (bool_decide_eq_true_2 (length cs + k = 4)%nat).
Qed.

(** A round in arithmetic. *)
Lemma round_four p q r s :
  0 <= p < 64 -> 0 <= q < 64 -> 0 <= r < 64 -> 0 <= s < 64 ->
  quantum_bytes 4 [p; q; r; s] =
    ([z_byte (p * 4 + q / 16); z_byte (q mod 16 * 16 + r / 4); z_byte (r mod 4 * 64 + s)], 0).
Proof.
  intros. unfold quantum_bytes. cbn [nth]. by rewrite first_byte, second_byte, third_byte by done.
Qed.

Lemma round_three p q r :
  0 <= p < 64 -> 0 <= q < 64 -> 0 <= r < 64 ->
  quantum_bytes 3 [p; q; r; 0] =
    ([z_byte (p * 4 + q / 16); z_byte (q mod 16 * 16 + r / 4)], r mod 4 * 64 + 0).
Proof.
  intros. unfold quantum_bytes. cbn [nth]. by rewrite first_byte, second_byte, third_byte by done.
Qed.

Lemma round_two p q :
  0 <= p < 64 -> 0 <= q < 64 ->
  quantum_bytes 2 [p; q; 0; 0] = ([z_byte (p * 4 + q / 16)], q mod 16 * 16 + 0).
Proof.
  intros. unfold quantum_bytes. cbn [nth]. by rewrite first_byte, second_byte by done.
Qed.

Lemma z_byte_eq z b : z = byte_z b -> z_byte z = b.
Proof. intros ->. apply z_byte_z. Qed.

(** Goals on the bits of bytes, as divisions. *)
Ltac bits_of_bytes :=
  repeat match goal with b : Byte.byte |- _ =>
    lazymatch goal with
    | H : 0 <= byte_z b < 256 |- _ => fail
    | |- _ => pose proof (byte_z_range b)
    end
  end;
  try apply z_byte_eq; Z.to_euclidean_division_equations; lia.

(** The three bytes, two or one, come back from their characters. *)
Lemma bytes_of_four b0 b1 b2 :
  quantum_bytes 4 [byte_z b0 / 4; byte_z b0 mod 4 * 16 + byte_z b1 / 16;
                   byte_z b1 mod 16 * 4 + byte_z b2 / 64; byte_z b2 mod 64] = ([b0; b1; b2], 0).
Proof.
  rewrite round_four by bits_of_bytes. f_equal. f_equal; [bits_of_bytes|].
  f_equal; [bits_of_bytes|]. f_equal. bits_of_bytes.
Qed.

Lemma bytes_of_three b0 b1 :
  quantum_bytes 3 [byte_z b0 / 4; byte_z b0 mod 4 * 16 + byte_z b1 / 16;
                   byte_z b1 mod 16 * 4; 0] = ([b0; b1], 0).
Proof.
  rewrite round_three by bits_of_bytes. f_equal; [|bits_of_bytes]. f_equal; [bits_of_bytes|].
  f_equal. bits_of_bytes.
Qed.

Lemma bytes_of_two b0 :
  quantum_bytes 2 [byte_z b0 / 4; byte_z b0 mod 4 * 16; 0; 0] = ([b0], 0).
Proof.
  rewrite round_two by bits_of_bytes. f_equal; [|bits_of_bytes]. f_equal. bits_of_bytes.
Qed.

(** ** Reading back *)

Section gaps.
(** What may stand between two quanta. *)
Context (gap : bytes -> Prop).

(** Encodings of [d] with gaps. *)
Inductive spaced : bytes -> bytes -> Prop :=
  | spaced_end ws : gap ws -> spaced [] ws
  | spaced_one ws b0 ws' : gap ws -> gap ws' ->
      spaced [b0] (ws ++ sextets2 b0 ++ [kPad; kPad] ++ ws')
  | spaced_two ws b0 b1 ws' : gap ws -> gap ws' ->
      spaced [b0; b1] (ws ++ sextets3 b0 b1 ++ [kPad] ++ ws')
  | spaced_more ws b0 b1 b2 d t : gap ws -> spaced d t ->
      spaced (b0 :: b1 :: b2 :: d) (ws ++ sextets4 b0 b1 b2 ++ t).

Lemma encode_spaced d : gap [] -> spaced d (EncodeFromArray d).
Proof.
  intros H0. induction d as [|b0|b0 b1|b0 b1 b2 d IH] using three_ind.
  - by apply spaced_end.
  - rewrite encode_one. by apply (spaced_one []  b0 []).
  - rewrite encode_two. by apply (spaced_two [] b0 b1 []).
  - rewrite encode_three. by apply (spaced_more []).
Qed.

Context (pf padf tf : Z).
Context (Hgap : forall ws, gap ws ->
  ws = [] \/ (all_space ws /\ (pf =? DO_PARSE_STRICT) = false /\ (DO_PAD_YES =? padf) = false)).
Context (Hpad : (DO_PAD_NO =? padf) = false).

Lemma reaches_gap ip ws rest dpos cs k :
  gap ws -> ws = [] \/ (length cs < 4)%nat ->
  reaches pf ip (ws ++ rest) dpos cs k rest (dpos + length ws) cs k.
Proof.
  intros [->|(Hws & Hpf & _)]%Hgap Hl; [rewrite Nat.add_0_r; apply reaches_refl|].
  destruct Hl as [->|Hl]; [rewrite Nat.add_0_r; apply reaches_refl|]. by apply reaches_spaces.
Qed.

(** Through the gap, the characters [cs] and the pads to the end of a quantum. *)
Lemma reaches_quantum ip ws cs k ws' rest data dpos :
  gap ws -> gap ws' -> (length cs <= 4)%nat -> ws' = [] \/ (length cs < 4)%nat ->
  k = 0%nat \/ (ip = false /\ (2 <= length cs)%nat /\ (length cs + k <= 4)%nat) ->
  Forall (fun c => 0 <= c < 64) cs ->
  drop dpos data = ws ++ map b64_char cs ++ replicate k kPad ++ ws' ++ rest ->
  reaches pf ip (drop dpos data) dpos [] 0
    rest (dpos + length ws + length cs + k + length ws') cs k.
Proof.
  intros Hws Hws' H4 Hend Hk Hcs ->.
  eapply reaches_trans; [apply reaches_gap; [done|right; simpl; lia]|].
  assert (forall pre suf i rest', Forall (fun c => 0 <= c < 64) suf -> (length (pre ++ suf) <= 4)%nat ->
    reaches pf ip (map b64_char suf ++ rest') i pre 0 rest' (i + length suf) (pre ++ suf) 0) as Hchars.
  { intros pre suf. revert pre. induction suf as [|c suf IH]; intros pre i rest' Hs Hl.
    { rewrite Nat.add_0_r, app_nil_r. apply reaches_refl. }
    inversion_clear Hs. rewrite length_app in Hl. simpl in *.
    eapply reaches_trans; [apply reaches_char; [done|lia]|].
    rewrite (cons_middle c pre suf), app_assoc, Nat.add_succ_r.
    apply (IH (pre ++ [c]) (S i)); [done|]. rewrite !length_app. simpl. lia. }
  eapply reaches_trans; [apply (Hchars []); [done|simpl; lia]|]. clear Hchars. simpl app.
  eapply reaches_trans; [|by apply reaches_gap].
  generalize (dpos + length ws + length cs)%nat as i. intros i.
  destruct Hk as [->|(-> & H2 & Hk)]; [rewrite Nat.add_0_r; apply reaches_refl|].
  assert (forall n j i, (length cs + (n + j) <= 4)%nat ->
    reaches pf false (replicate n kPad ++ ws' ++ rest) i cs j (ws' ++ rest) (i + n) cs (j + n)) as Hpads.
  { induction n as [|n IH]; intros j m Hj; [rewrite !Nat.add_0_r; apply reaches_refl|].
    simpl. eapply reaches_trans; [apply reaches_pad; [done|lia]|].
    rewrite !Nat.add_succ_r. apply (IH (S j) (S m)). lia. }
  apply (Hpads k 0%nat). lia.
Qed.

Lemma quantum_read ws cs k ws' rest data dpos buf :
  gap ws -> gap ws' -> (length cs <= 4)%nat -> ws' = [] \/ (length cs < 4)%nat ->
  k = 0%nat \/ ((2 <= length cs)%nat /\ (length cs + k = 4)%nat) ->
  Forall (fun c => 0 <= c < 64) cs -> rest = [] \/ length cs = 4%nat -> length buf = 4%nat ->
  drop dpos data = ws ++ map b64_char cs ++ replicate k kPad ++ ws' ++ rest ->
  GetNextQuantum pf (DO_PAD_NO =? padf) data dpos buf =
    (length cs, (dpos + length ws + length cs + k + length ws')%nat,
     bool_decide (length cs + k = 4)%nat, cs ++ replicate (4 - length cs) 0).
Proof.
  intros Hws Hws' H4 Hend Hk Hcs Hrest Hbuf Hd. rewrite Hpad.
  apply (quantum_result _ _ _ _ _ rest); [done| |done..|naive_solver lia].
  apply reaches_quantum; try done. naive_solver lia.
Qed.

(** The decoder reads [d] back from any encoding of [d] with gaps, whatever is
    required of the end. *)
Lemma decode_spaced d t :
  spaced d t -> gap [] ->
  forall fuel data dpos buf result,
    drop dpos data = t -> (dpos <= length data)%nat -> length buf = 4%nat ->
    (length data - dpos < fuel)%nat ->
    decode_loop fuel pf padf tf data dpos buf result =
      Some (mkDecoded true (result ++ d) (length data)).
Proof.
  intros Hsp H0. induction Hsp as [ws Hws|ws b0 ws' Hws Hws'|ws b0 b1 ws' Hws Hws'|ws b0 b1 b2 d t Hws Hsp IH];
    intros fuel data dpos buf result Hd Hle Hbuf Hfuel; (destruct fuel as [|f]; [lia|]); cbn [decode_loop];
    (assert (length data = dpos + length (drop dpos data))%nat as Hlen by (rewrite length_drop; lia)).
  - case_bool_decide as Hdpos.
    { rewrite app_nil_r. do 2 f_equal. lia. }
    rewrite (quantum_read ws [] 0 [] []) by (try done; rewrite ?app_nil_r; auto; simpl; lia).
    destruct (Hgap ws Hws) as [->|(_ & _ & Hyes)]; [rewrite Hd in Hlen; simpl in Hlen; lia|].
    rewrite Hyes, Hlen, Hd. simpl. rewrite andb_false_r, app_nil_r. do 2 f_equal. lia.
  - rewrite bool_decide_eq_false_2 by (rewrite Hlen, Hd, !length_app; simpl; lia).
    rewrite (quantum_read ws [byte_z b0 / 4; byte_z b0 mod 4 * 16] 2 ws' []);
      [|done|done|simpl; lia|right; simpl; lia|right; simpl; lia| |by left|done|by rewrite app_nil_r].
    2:{ repeat constructor; bits_of_bytes. }
    cbn [length app replicate Nat.sub]. rewrite bytes_of_two.
    rewrite !bool_decide_eq_true_2 by lia. rewrite andb_false_r, !andb_false_r. simpl.
    do 2 f_equal. rewrite Hlen, Hd, !length_app. simpl. rewrite ?length_app. simpl. lia.
  - rewrite bool_decide_eq_false_2 by (rewrite Hlen, Hd, !length_app; simpl; lia).
    rewrite (quantum_read ws [byte_z b0 / 4; byte_z b0 mod 4 * 16 + byte_z b1 / 16; byte_z b1 mod 16 * 4] 1 ws' []);
      [|done|done|simpl; lia|right; simpl; lia|right; simpl; lia| |by left|done|by rewrite app_nil_r].
    2:{ repeat constructor; bits_of_bytes. }
    cbn [length app replicate Nat.sub]. rewrite bytes_of_three.
    rewrite !bool_decide_eq_true_2 by lia. rewrite andb_false_r, !andb_false_r. simpl.
    do 2 f_equal. rewrite Hlen, Hd, !length_app. simpl. rewrite ?length_app. simpl. lia.
  - rewrite bool_decide_eq_false_2 by (rewrite Hlen, Hd, !length_app; simpl; lia).
    rewrite (quantum_read ws [byte_z b0 / 4; byte_z b0 mod 4 * 16 + byte_z b1 / 16;
        byte_z b1 mod 16 * 4 + byte_z b2 / 64; byte_z b2 mod 64] 0 [] t);
      [|done|done|simpl; lia|by left|by left| |by right|done|done].
    2:{ repeat constructor; bits_of_bytes. }
    cbn [length app replicate Nat.sub]. rewrite bytes_of_four.
    rewrite (bool_decide_eq_false_2 (4 < 4)%nat) by lia.
    rewrite Hd, !length_app in Hlen. simpl in Hlen.
    rewrite IH; [by rewrite <- app_assoc| |lia|done|lia].
    rewrite !Nat.add_0_r, <- !drop_drop, Hd, drop_app_length. done.
Qed.
End gaps.

(** The decoder gives back what was encoded, under every combination of flags
    that allows pads. *)
Lemma decode_encode flags d :
  let pad := Z.land flags DO_PAD_MASK in
  (DO_PAD_NO =? pad) = false ->
  DecodeFromArray (EncodeFromArray d) flags =
    Some (mkDecoded true d (length (EncodeFromArray d))).
Proof.
  cbv zeta. intros Hpad. unfold DecodeFromArray. cbv zeta.
  rewrite (decode_spaced (fun ws => ws = []) _ _ _ (fun ws H => or_introl H) Hpad d (EncodeFromArray d));
    [|by apply encode_spaced|done|by rewrite drop_0|lia|done|lia].
  simpl. rewrite bool_decide_eq_true_2 by done. by rewrite andb_false_r.
Qed.

(** ** The strict decoder *)

(** What a pad or a break can leave. *)
Definition strict_state (cs : list Z) (k : nat) : Prop :=
  (length cs <= 4)%nat /\ (k = 0%nat \/ ((2 <= length cs)%nat /\ (length cs + k <= 4)%nat)).

Lemma strict_step dpos ch q cs k go q' :
  holds q cs k -> strict_state cs k -> (length cs < 4)%nat ->
  quantum_step DO_PARSE_STRICT false dpos (decode_char ch) q = (go, q') ->
  (go = true /\ k = 0%nat /\ exists c, 0 <= c < 64 /\ ch = b64_char c /\ holds q' (cs ++ [c]) 0) \/
  (go = true /\ ch = kPad /\ holds q' cs (S k) /\ strict_state cs (S k)) \/
  (go = false /\ holds q' cs k).
Proof.
  intros Hq [_ Hk] Hl. pose proof (holds_store _ _ _ (decode_char ch) Hq) as Hst.
  pose proof (holds_bytes _ _ _ Hq) as Hb. pose proof (holds_pads _ _ _ Hq) as Hp.
  destruct (decode_char_class ch) as [[Hc Hch]|[H|[H|[H Hch]]]].
  - destruct (decide (k = 0%nat)) as [->|].
    + rewrite (step_char _ _ _ _ _ _ Hq Hc). intros [= <- <-]. left. split_and!; [done..|].
      eexists. split_and!; [apply Hc|apply Hc|done|by apply holds_byte].
    + unfold quantum_step.
      rewrite (proj2 (Z.eqb_neq _ il)), (proj2 (Z.eqb_neq _ pd)), (proj2 (Z.eqb_neq _ sp))
        by (unfold il, pd, sp; lia).
      simpl. rewrite Hp, bool_decide_eq_true_2 by lia. intros [= <- <-]. auto.
  - rewrite H in *. intros [= <- <-]. auto.
  - rewrite H in *. rewrite step_space. intros [= <- <-]. auto.
  - rewrite H in *. unfold quantum_step. simpl. rewrite Hb, Hp.
    case_bool_decide; [intros [= <- <-]; auto|].
    case_bool_decide; [intros [= <- <-]; auto|]. intros [= <- <-].
    right. left. split_and!; [done..|by apply holds_pad|]. split; [lia|right; lia].
Qed.

Lemma strict_loop rest : forall dpos q cs k dpos' q',
  holds q cs k -> strict_state cs k ->
  quantum_loop DO_PARSE_STRICT false rest dpos q = (dpos', q') ->
  exists cs' k' rest',
    rest = map b64_char cs' ++ replicate k' kPad ++ rest' /\
    Forall (fun c => 0 <= c < 64) cs' /\ (k <> 0%nat -> cs' = []) /\
    holds q' (cs ++ cs') (k + k') /\ strict_state (cs ++ cs') (k + k') /\
    dpos' = (dpos + length cs' + k')%nat.
Proof.
  assert (forall dpos q cs k rest, holds q cs k -> strict_state cs k ->
    exists cs' k' rest', rest = map b64_char cs' ++ replicate k' kPad ++ rest' /\
      Forall (fun c => 0 <= c < 64) cs' /\ (k <> 0%nat -> cs' = []) /\
      holds q (cs ++ cs') (k + k') /\ strict_state (cs ++ cs') (k + k') /\
      dpos = (dpos + length cs' + k')%nat) as Hstop.
  { intros. exists [], 0%nat, rest0. rewrite app_nil_r, !Nat.add_0_r. by split_and!. }
  induction rest as [|ch rest IH]; intros dpos q cs k dpos' q' Hq Hs.
  { intros [= <- <-]. by apply Hstop. }
  cbn [quantum_loop]. rewrite (holds_bytes _ _ _ Hq).
  case_bool_decide; [intros [= <- <-]; by apply Hstop|].
  destruct (quantum_step _ _ _ _ _) as [go q1] eqn:E.
  destruct (strict_step _ _ _ _ _ _ _ Hq Hs ltac:(lia) E)
    as [(-> & -> & c & Hc & -> & H1)|[(-> & -> & H1 & Hs1)|(-> & H1)]].
  - intros Hrest. apply (IH _ _ (cs ++ [c]) 0%nat) in Hrest as (cs' & k' & rest' & -> & Hcs & _ & H2 & Hs2 & ->);
      [|done|split; [rewrite length_app; simpl; lia|by left]].
    rewrite <- app_assoc in *. exists (c :: cs'), k', rest'. split_and!; try done; [by constructor|simpl; lia].
  - intros Hrest. apply (IH _ _ cs (S k)) in Hrest as (cs' & k' & rest' & -> & Hcs & Hnil & H2 & Hs2 & ->); [|done..].
    rewrite (Hnil ltac:(done)) in *. exists [], (S k'), rest'. rewrite Nat.add_succ_r. split_and!; try done. simpl. lia.
  - intros [= <- <-]. by apply Hstop.
Qed.

Lemma strict_quantum data dpos buf qlen dpos' buf' :
  length buf = 4%nat ->
  GetNextQuantum DO_PARSE_STRICT false data dpos buf = (qlen, dpos', true, buf') ->
  exists cs rest', qlen = length cs /\ (2 <= qlen <= 4)%nat /\ Forall (fun c => 0 <= c < 64) cs /\
    drop dpos data = map b64_char cs ++ replicate (4 - qlen) kPad ++ rest' /\
    buf' = cs ++ replicate (4 - qlen) 0 /\ dpos' = (dpos + 4)%nat.
Proof.
  intros Hbuf. unfold GetNextQuantum. destruct (quantum_loop _ _ _ _ _) as [d q'] eqn:E.
  apply (strict_loop _ _ _ [] 0%nat) in E as (cs & k & rest' & Hd & Hcs & _ & Hq & [H4 Hk] & ->);
    [|by apply holds_start|split; [simpl; lia|by left]]. simpl in *.
  rewrite (holds_clear _ _ _ Hq H4), (holds_bytes _ _ _ Hq), (holds_pads _ _ _ Hq).
  case_bool_decide as Hsum; [|done]. simpl. intros [= <- <- <-].
  exists cs, rest'. replace (4 - length cs)%nat with k by lia. split_and!; try done; lia.
Qed.

Lemma byte_z_small z : 0 <= z < 256 -> byte_z (z_byte z) = z.
Proof. intros. rewrite byte_z_byte. by apply Z.mod_small. Qed.

Ltac sextets_of := unfold sextets4, sextets3, sextets2; cbn [map app EncodeFromArray];
  rewrite !byte_z_small by (Z.to_euclidean_division_equations; lia);
  repeat (apply f_equal2; [apply f_equal; Z.to_euclidean_division_equations; lia|]); reflexivity.

(** A round whose unused bits are zero is undone by the encoder. *)
Lemma encode_round cs out :
  (2 <= length cs <= 4)%nat -> Forall (fun c => 0 <= c < 64) cs ->
  quantum_bytes (length cs) (cs ++ replicate (4 - length cs) 0) = (out, 0) ->
  forall d, length cs = 4%nat \/ d = [] ->
  EncodeFromArray (out ++ d) = map b64_char cs ++ replicate (4 - length cs) kPad ++ EncodeFromArray d.
Proof.
  intros Hl Hcs Hout d Hd.
  destruct cs as [|p [|q [|r [|s [|]]]]]; simpl in Hl; try lia;
    repeat match goal with H : Forall _ (_ :: _) |- _ => inversion_clear H end;
    cbn [length app replicate Nat.sub] in *.
  - rewrite round_two in Hout by done. injection Hout as <- Hz.
    destruct Hd as [| ->]; [done|]. cbn [app]. rewrite encode_one. sextets_of.
  - rewrite round_three in Hout by done. injection Hout as <- Hz.
    destruct Hd as [| ->]; [done|]. cbn [app]. rewrite encode_two. sextets_of.
  - rewrite round_four in Hout by done. injection Hout as <-.
    cbn [app]. rewrite encode_three. sextets_of.
Qed.

Lemma strict_decode fuel : forall data dpos buf result r,
  length buf = 4%nat -> (dpos <= length data)%nat ->
  decode_loop fuel DO_PARSE_STRICT DO_PAD_YES DO_TERM_BUFFER data dpos buf result = Some r ->
  dec_success r = true -> dec_used r = length data ->
  exists d, dec_result r = result ++ d /\ drop dpos data = EncodeFromArray d.
Proof.
  induction fuel as [|f IH]; intros data dpos buf result r Hbuf Hle; [done|]. cbn [decode_loop].
  case_bool_decide as Hdpos.
  { intros [= <-] _ _. exists []. rewrite app_nil_r. split; [done|]. apply drop_ge. lia. }
  destruct (GetNextQuantum _ _ _ _ _) as [[[qlen dpos'] padded] buf'] eqn:E.
  destruct (quantum_bytes qlen buf') as [out c] eqn:Eout. case_bool_decide as Hq.
  - intros [= <-]. simpl. rewrite !andb_true_iff, !negb_true_iff. intros [Hc Hp] Hused.
    destruct padded; [|done]. assert (c = 0) as -> by (by destruct c).
    apply strict_quantum in E as (cs & rest & -> & Hl & Hcs & Hd & -> & ->); [|done].
    exists out. split; [done|]. rewrite Hd.
    rewrite <- (app_nil_r out), (encode_round cs out); [|done..|by right].
    assert (rest = []) as ->; [|by rewrite !app_nil_r].
    apply (f_equal length) in Hd. rewrite length_drop, !length_app, length_map, length_replicate in Hd.
    apply length_zero_iff_nil. lia.
  - intros Hloop Hsucc Hused.
    assert (padded = true) as ->.
    { unfold GetNextQuantum in E. destruct (quantum_loop _ _ _ _ _) as [d q'] eqn:Eq.
      apply (strict_loop _ _ _ [] 0%nat) in Eq as (cs & k & rest' & _ & _ & _ & Hh & [H4 Hk] & _);
        [|by apply holds_start|split; [simpl; lia|by left]]. simpl in *.
      injection E as <- _ <- _. rewrite (holds_bytes _ _ _ Hh), (holds_pads _ _ _ Hh) in *.
      apply bool_decide_eq_true_2. lia. }
    apply strict_quantum in E as (cs & rest & -> & Hl & Hcs & Hd & -> & ->); [|done].
    assert (length cs = 4%nat) as H4 by lia.
    assert (dpos + 4 <= length data)%nat.
    { apply (f_equal length) in Hd. rewrite length_drop, !length_app, length_map, H4 in Hd. lia. }
    apply IH in Hloop as (d & Hr & Hd'); [|rewrite length_app, length_replicate; lia|lia|done..].
    exists (out ++ d). rewrite Hr, <- app_assoc. split; [done|].
    assert (c = 0) as ->.
    { unfold quantum_bytes in Eout. revert Eout. rewrite H4. cbv zeta.
      rewrite !bool_decide_eq_false_2 by lia. intros [= ? <-]; done. }
    rewrite (encode_round cs out), <- Hd', Hd; [|done..|by left]. rewrite <- drop_drop, Hd, H4.
    simpl. f_equal. symmetry. rewrite <- H4, <- (length_map b64_char). apply drop_app_length.
Qed.

(** ** Every call returns *)

(** The loop moves forward by at least the bytes it counts, and pads never
    fill a quantum beyond four. *)
Lemma quantum_step_counts pf ip dpos v q go q' :
  (byte_len q < 4)%nat -> (byte_len q + pad_len q <= 4)%nat ->
  quantum_step pf ip dpos v q = (go, q') ->
  (byte_len q' <= S (byte_len q))%nat /\ (byte_len q' + pad_len q' <= 4)%nat /\
  (go = false -> byte_len q' = byte_len q).
Proof.
  intros Hb Hp. unfold quantum_step, count_byte, count_pad, store. cbv zeta.
  repeat (case_match || case_bool_decide); intros [= <- <-]; simpl in *; split_and!; intros; try done; lia.
Qed.

Lemma quantum_loop_counts pf ip rest : forall dpos q dpos' q',
  (byte_len q <= 4)%nat -> (byte_len q + pad_len q <= 4)%nat ->
  quantum_loop pf ip rest dpos q = (dpos', q') ->
  (byte_len q' + dpos <= byte_len q + dpos')%nat /\ (byte_len q' + pad_len q' <= 4)%nat.
Proof.
  induction rest as [|ch rest IH]; intros dpos q dpos' q' Hb Hp; cbn [quantum_loop].
  { intros [= <- <-]. split; lia. }
  case_bool_decide; [intros [= <- <-]; split; lia|].
  destruct (quantum_step _ _ _ _ _) as [go q1] eqn:E.
  apply quantum_step_counts in E as (H1 & H2 & H3); [|lia..]. destruct go.
  - intros Hr. apply IH in Hr; [split; lia|lia|lia].
  - intros [= <- <-]. rewrite H3 by done. split; [lia|]. rewrite <- H3; done.
Qed.

Lemma decode_loop_total fuel : forall pf padf tf data dpos buf result,
  (length data - dpos < fuel)%nat -> is_Some (decode_loop fuel pf padf tf data dpos buf result).
Proof.
  induction fuel as [|f IH]; intros pf padf tf data dpos buf result Hf; [lia|]. cbn [decode_loop].
  case_bool_decide; [done|]. unfold GetNextQuantum.
  destruct (quantum_loop _ _ _ _ _) as [d q] eqn:E.
  apply quantum_loop_counts in E as [H1 H2]; [|simpl; lia..]. simpl in H1.
  destruct (quantum_bytes _ _) as [out c]. case_bool_decide; [done|]. apply IH.
  rewrite (bool_decide_eq_true_2 (byte_len q + pad_len q = 4)%nat) by lia. simpl. lia.
Qed.

(** [DecodeFromArray] returns on every text under all flags. *)
Lemma decode_total data flags : is_Some (DecodeFromArray data flags).
Proof.
  unfold DecodeFromArray. cbv zeta.
  destruct (decode_loop_total (S (length data)) (Z.land flags DO_PARSE_MASK)
    (Z.land flags DO_PAD_MASK) (Z.land flags DO_TERM_MASK) data 0 [0; 0; 0; 0] []) as [r ->]; [lia|].
  done.
Qed.

(** Two states that differ in what is not yet written to the buffer. *)
Definition same_written (q1 q2 : quantum) : Prop :=
  byte_len q1 = byte_len q2 /\ pad_len q1 = pad_len q2 /\ pad_start q1 = pad_start q2 /\
  take (byte_len q1) (qbuf q1) = take (byte_len q2) (qbuf q2) /\
  length (qbuf q1) = 4%nat /\ length (qbuf q2) = 4%nat.

Lemma same_written_step pf ip dpos v q1 q2 :
  (byte_len q1 < 4)%nat -> same_written q1 q2 ->
  (quantum_step pf ip dpos v q1).1 = (quantum_step pf ip dpos v q2).1 /\
  same_written (quantum_step pf ip dpos v q1).2 (quantum_step pf ip dpos v q2).2.
Proof.
  intros Hl (Hb & Hp & Hs & Ht & H1 & H2). unfold quantum_step, count_byte, count_pad, store. simpl.
  rewrite <- Hb, <- Hp, <- Hs in *.
  assert (take (byte_len q1) (<[byte_len q1:=v]> (qbuf q1)) =
          take (byte_len q1) (<[byte_len q1:=v]> (qbuf q2))) as Ht' by (by rewrite !take_insert_ge).
  assert (take (S (byte_len q1)) (<[byte_len q1:=v]> (qbuf q1)) =
          take (S (byte_len q1)) (<[byte_len q1:=v]> (qbuf q2))) as Hts.
  { by rewrite !(take_S_r _ _ v), Ht' by (apply list_lookup_insert_eq; lia). }
  repeat (case_match || case_bool_decide); split; try done; unfold same_written; simpl;
    rewrite !length_insert; split_and!; done.
Qed.

Lemma same_written_loop pf ip rest : forall dpos q1 q2,
  same_written q1 q2 ->
  (quantum_loop pf ip rest dpos q1).1 = (quantum_loop pf ip rest dpos q2).1 /\
  same_written (quantum_loop pf ip rest dpos q1).2 (quantum_loop pf ip rest dpos q2).2.
Proof.
  induction rest as [|ch rest IH]; intros dpos q1 q2 Hs; [done|]. cbn [quantum_loop].
  pose proof (proj1 Hs) as Hb. rewrite <- Hb. case_bool_decide; [done|].
  destruct (same_written_step pf ip dpos (decode_char ch) q1 q2) as [Hg Hq]; [lia|done|].
  destruct (quantum_step _ _ _ _ q1) as [g1 p1], (quantum_step _ _ _ _ q2) as [g2 p2].
  simpl in *. subst g2. destruct g1; [by apply IH|done].
Qed.

(** No element of [qbuf] is read before it is written. *)
Lemma quantum_buffer_unread pf ip data dpos buf1 buf2 :
  length buf1 = 4%nat -> length buf2 = 4%nat ->
  GetNextQuantum pf ip data dpos buf1 = GetNextQuantum pf ip data dpos buf2.
Proof.
  intros H1 H2. unfold GetNextQuantum.
  destruct (same_written_loop pf ip (drop dpos data) dpos (mkQuantum 0 0 0 buf1) (mkQuantum 0 0 0 buf2))
    as [Hd Hq]; [by split_and!|].
  destruct (quantum_loop _ _ _ _ _) as [d1 q1], (quantum_loop _ _ _ _ (mkQuantum 0 0 0 buf2)) as [d2 q2].
  simpl in *. subst d2. destruct Hq as (Hb & Hp & Hs & Ht & L1 & L2). rewrite Hb, Hp, Hs in *. f_equal.
  apply list_eq. intros i. unfold clear_from. rewrite !list_lookup_imap.
  destruct (decide (i < byte_len q2)%nat) as [Hi|Hi].
  - by rewrite <- (lookup_take_lt (qbuf q1) _ _ Hi), Ht, lookup_take_lt.
  - destruct (decide (i < 4)%nat).
    + destruct (lookup_lt_is_Some_2 (qbuf q1) i) as [x ->]; [lia|].
      destruct (lookup_lt_is_Some_2 (qbuf q2) i) as [y ->]; [lia|]. simpl.
      by rewrite !bool_decide_eq_true_2 by lia.
    + by rewrite !lookup_ge_None_2 by lia.
Qed.

(** The strict decoder accepts the encodings and nothing else: every text it
    accepts to its end is what the encoder writes for the bytes it returns, so no
    two texts stand for the same bytes. *)
Theorem strict_decoding_exact s d :
  DecodeFromArray s DO_STRICT = Some (mkDecoded true d (length s)) <-> s = EncodeFromArray d.
Proof.
  split; [|intros ->; by apply decode_encode].
  unfold DecodeFromArray. intros H.
  destruct (decode_loop _ _ _ _ _ _ _ _) as [r|] eqn:E; [|done]. injection H as Hs Hr Hu.
  apply andb_true_iff in Hs as [Hs _].
  apply strict_decode in E as (d' & Hd & He); [|done|lia|done..].
  rewrite drop_0 in He. by rewrite He, <- Hr, Hd.
Qed.

(** ** Single characters *)

(** The two tests of a character agree: the table gives a six-bit value exactly
    to the characters of [IsBase64Char]. *)
Lemma is_base64_char ch : IsBase64Char ch = (decode_char ch <? 64).
Proof. by destruct ch; vm_compute. Qed.

(** The characters follow each other in a circle; any other is refused, except
    the NUL character, whose successor lies outside the table. *)
Lemma next_base64_char c :
  0 <= c < 64 -> GetNextBase64Char (b64_char c) = Done (Some (b64_char ((c + 1) mod 64))).
Proof.
  intros Hc.
  pose (f c := bool_decide (GetNextBase64Char (b64_char c) = Done (Some (b64_char ((c + 1) mod 64))))).
  assert (f c = true) as H by (apply (all_below_spec 64); [vm_compute; done|lia]).
  by apply bool_decide_eq_true in H.
Qed.

Lemma next_char_refused ch :
  IsBase64Char ch = false ->
  GetNextBase64Char ch = if bool_decide (ch = x00) then Undef out_of_bounds else Done None.
Proof. by destruct ch; vm_compute. Qed.
