(* ===== verification/PemTheory.v ===== *)
(** * PEM text

    [PemToDer] reads back what [DerToPem] writes; what it makes of text that
    [DerToPem] did not write. *)

From S2P Require Import Prelude.
From S2P Require Import StringEncode.
From S2P Require Import Base64.
From S2P Require Import Base64Theory.
Local Open Scope Z_scope.

(** ** Searching *)

Lemma is_prefix_app p s : is_prefix p (p ++ s) = true.
Proof. induction p as [|a p IH]; simpl; [done|]. by rewrite bool_decide_eq_true_2. Qed.

Lemma find_at_here p s i : find_at p (p ++ s) i = Some i.
Proof. destruct (p ++ s) as [|c l] eqn:E; simpl; by rewrite <- E, is_prefix_app. Qed.

Lemma find_at_skip p c s i : is_prefix p (c :: s) = false -> find_at p (c :: s) i = find_at p s (S i).
Proof. intros H. cbn [find_at]. by rewrite H. Qed.

(** No match starts at a character that is not the first of the pattern. *)
Lemma find_at_skip_all h p l s i :
  Forall (fun c => c <> h) l -> find_at (h :: p) (l ++ s) i = find_at (h :: p) s (i + length l).
Proof.
  intros Hl. revert i. induction Hl as [|c l Hc _ IH]; intros i; simpl app; simpl length.
  { by rewrite Nat.add_0_r. }
  rewrite find_at_skip by (simpl; rewrite bool_decide_eq_false_2; auto).
  by rewrite IH, Nat.add_succ_r.
Qed.

(** ** The lines of the body *)

Lemma spaced_after d t ws : spaced all_space d t -> all_space ws -> spaced all_space d (t ++ ws).
Proof.
  intros H Hws. induction H as [ws0|ws0 b0 ws'|ws0 b0 b1 ws'|ws0 b0 b1 b2 d t H0 H IH];
    rewrite <- ?app_assoc.
  - apply spaced_end. by apply Forall_app_2.
  - apply spaced_one; [done|]. by apply Forall_app_2.
  - apply spaced_two; [done|]. by apply Forall_app_2.
  - by apply spaced_more.
Qed.

Lemma spaced_before d t ws : spaced all_space d t -> all_space ws -> spaced all_space d (ws ++ t).
Proof.
  intros [] Hws; try rewrite (app_assoc ws).
  - apply spaced_end. by apply Forall_app_2.
  - apply spaced_one; [|done]. by apply Forall_app_2.
  - apply spaced_two; [|done]. by apply Forall_app_2.
  - apply spaced_more; [|done]. by apply Forall_app_2.
Qed.

Lemma spaced_append d1 d2 t :
  Nat.modulo (length d1) 3 = 0%nat -> spaced all_space d2 t ->
  spaced all_space (d1 ++ d2) (EncodeFromArray d1 ++ t).
Proof.
  induction d1 as [|b0|b0 b1|b0 b1 b2 d IH] using three_ind; intros Hl Ht; [done..|].
  cbn [app]. rewrite encode_three, <- app_assoc. apply (spaced_more _ []); [by constructor|].
  apply IH; [|done]. cbn [length] in Hl.
  replace (S (S (S (length d)))) with (length d + 1 * 3)%nat in Hl by lia.
  by rewrite Nat.Div0.mod_add in Hl.
Qed.

Lemma space_newline : all_space [newline].
Proof. by repeat constructor. Qed.

Lemma pem_lines_spaced n : forall d,
  (length (EncodeFromArray d) <= 64 * n)%nat ->
  n = 0%nat \/ (64 * (n - 1) < length (EncodeFromArray d))%nat ->
  spaced all_space d (pem_lines n (EncodeFromArray d)).
Proof.
  induction n as [|n IH]; intros d Hle Hgt.
  { rewrite encoded_length in Hle. unfold encoded_size in Hle.
    destruct d as [|b d]; [by apply spaced_end; constructor|]. cbn [length] in Hle.
    pose proof (Nat.div_le_mono 3 (S (length d) + 2) 3 ltac:(lia) ltac:(lia)). simpl in *. lia. }
  cbn [pem_lines]. unfold kChunkSize. destruct (decide (length (EncodeFromArray d) <= 64)%nat) as [Hs|Hs].
  - assert (n = 0%nat) as -> by lia. rewrite take_ge by lia. simpl.
    apply spaced_after; [|apply space_newline]. apply encode_spaced. constructor.
  - assert (48 < length d)%nat.
    { rewrite encoded_length in Hs. unfold encoded_size in Hs.
      apply Nat.nle_gt. intros Hd. apply Hs.
      pose proof (Nat.div_le_mono (length d + 2) 50 3 ltac:(lia) ltac:(lia)) as Hdiv.
      change (50 / 3)%nat with 16%nat in Hdiv. lia. }
    rewrite <- (take_drop 48 d) at 2 3. rewrite <- (take_drop 48 d) at 1.
    assert (length (take 48 d) = 48%nat) as Hl by (rewrite length_take; lia).
    assert (length (EncodeFromArray (take 48 d)) = 64%nat) as He
      by (rewrite encoded_length, Hl; reflexivity).
    assert (EncodeFromArray d = EncodeFromArray (take 48 d) ++ EncodeFromArray (drop 48 d)) as Ed
      by (rewrite <- encode_app, take_drop; [done|by rewrite Hl]).
    rewrite !encode_app by (by rewrite Hl).
    rewrite take_app_length', drop_app_length' by done.
    apply spaced_append; [by rewrite Hl|].
    apply (spaced_before _ _ [newline]); [|apply space_newline].
    apply IH; rewrite Ed, length_app, He in Hle, Hgt; lia.
Qed.

Lemma pem_lines_Forall (P : byte -> Prop) n : forall s,
  P newline -> Forall P s -> Forall P (pem_lines n s).
Proof.
  induction n as [|n IH]; intros s Hn Hs; cbn [pem_lines]; [constructor|].
  apply Forall_app_2; [by apply Forall_take|]. constructor; [done|]. apply IH; [done|]. by apply Forall_drop.
Qed.

Lemma b64_char_not_dash c : 0 <= c < 64 -> b64_char c <> "-"%byte.
Proof.
  intros Hc H. apply (f_equal decode_char) in H. rewrite decode_b64_char in H by done.
  change (decode_char "-") with il in H. unfold il in H. lia.
Qed.

Lemma encode_no_dash d : Forall (fun c => c <> "-"%byte) (EncodeFromArray d).
Proof.
  induction d as [|b0|b0 b1|b0 b1 b2 d IH] using three_ind.
  - constructor.
  - rewrite encode_one. repeat constructor; try done; apply b64_char_not_dash; bits_of_bytes.
  - rewrite encode_two. repeat constructor; try done; apply b64_char_not_dash; bits_of_bytes.
  - rewrite encode_three. apply Forall_app_2; [|done].
    repeat constructor; apply b64_char_not_dash; bits_of_bytes.
Qed.

(** ** Where the parts are found *)

Section pem.
Context (ty : bytes).
(** The type has no character that delimits it. *)
Context (Hdash : Forall (fun c => c <> "-"%byte) ty).
Context (Hline : Forall (fun c => c <> newline) ty).

Lemma find_body s : string_find (pem_begin ty ++ [newline] ++ s) [newline] 0 = Some (length (pem_begin ty)).
Proof.
  unfold string_find. rewrite bool_decide_eq_true_2 by lia. rewrite drop_0.
  rewrite find_at_skip_all; [by rewrite (find_at_here [newline] s)|].
  unfold pem_begin. rewrite !Forall_app. split_and!; [|done|]; by repeat constructor.
Qed.

Lemma find_trailer lines t :
  Forall (fun c => c <> "-"%byte) lines ->
  string_find (pem_begin ty ++ [newline] ++ lines ++ pem_end ty ++ t) (pem_end ty) 0 =
    Some (length (pem_begin ty) + 1 + length lines)%nat.
Proof.
  intros Hl. unfold string_find. rewrite bool_decide_eq_true_2 by lia. rewrite drop_0.
  assert (forall s, find_at (pem_end ty) (str "-----BEGIN " ++ s) 0 = find_at (pem_end ty) s 11)
    as Hb by (intros; reflexivity).
  assert (forall s i, find_at (pem_end ty) (str "-----" ++ [newline] ++ s) i =
                      find_at (pem_end ty) s (6 + i)) as Hd by (intros; reflexivity).
  assert (forall l s i, Forall (fun c => c <> "-"%byte) l ->
    find_at (pem_end ty) (l ++ s) i = find_at (pem_end ty) s (i + length l)) as Hskip
    by (intros; by apply (find_at_skip_all "-" (str "----END " ++ ty ++ str "-----"))).
  unfold pem_begin. rewrite <- !app_assoc, Hb, Hskip, Hd, Hskip, find_at_here by done.
  f_equal. rewrite !length_app. simpl. lia.
Qed.
End pem.

(** The flags of [PemToDer] let white space stand between the quanta. *)
Lemma decode_lines d t :
  spaced all_space d t ->
  DecodeFromArray t (Z.lor (Z.lor DO_PARSE_WHITE DO_PAD_ANY) DO_TERM_BUFFER) =
    Some (mkDecoded true d (length t)).
Proof.
  intros Hsp. set (flags := Z.lor _ _). unfold DecodeFromArray.
  change (Z.land flags DO_PARSE_MASK) with DO_PARSE_WHITE.
  change (Z.land flags DO_PAD_MASK) with DO_PAD_ANY.
  change (Z.land flags DO_TERM_MASK) with DO_TERM_BUFFER. cbv zeta.
  rewrite (decode_spaced all_space DO_PARSE_WHITE DO_PAD_ANY DO_TERM_BUFFER) with (d := d) (t := t);
    [|intros ws Hws; right; by split_and!|done|done|constructor|by rewrite drop_0|lia|done|lia].
  simpl. by rewrite bool_decide_eq_true_2.
Qed.

(** C20: What [DerToPem] writes [PemToDer] reads back: for every type without a
    dash or a line end and every block of bytes whose text fits in memory, the
    header, the lines of at most 64 characters and the trailer are found where
    they were written and the bytes between them are the bytes encoded. *)
Theorem pem_read_back ty d :
  Forall (fun c => c <> "-"%byte) ty -> Forall (fun c => c <> newline) ty ->
  Z.of_nat (length (DerToPem ty d)) < 2 ^ 64 ->
  PemToDer ty (DerToPem ty d) = Some d.
Proof.
  intros Hdash Hline Hsize. unfold PemToDer.
  assert (string_find (DerToPem ty d) (pem_begin ty) 0 = Some 0%nat) as ->.
  { unfold string_find. rewrite bool_decide_eq_true_2 by lia. apply find_at_here. }
  cbn [mbind option_bind]. unfold DerToPem in *. set (lines := pem_lines _ _) in *.
  assert (spaced all_space d lines) as Hsp.
  { apply pem_lines_spaced; unfold chunk_count, kChunkSize;
      pose proof (Nat.div_mod (length (EncodeFromArray d) + (64 - 1)) 64 ltac:(lia));
      pose proof (Nat.mod_upper_bound (length (EncodeFromArray d) + (64 - 1)) 64 ltac:(lia)); lia. }
  rewrite (find_body ty Hline). cbn [mbind option_bind].
  rewrite (find_trailer ty Hdash) by (apply pem_lines_Forall; [done|apply encode_no_dash]).
  cbn [mbind option_bind app].
  unfold pem_inner.
  rewrite !length_app in Hsize. simpl in Hsize.
  rewrite (u64_id (Z.of_nat (length (pem_begin ty) + 1 + length lines) - _)) by lia.
  assert (drop (length (pem_begin ty) + 1) (pem_begin ty ++ newline :: lines ++ pem_end ty ++ [newline]) =
          lines ++ pem_end ty ++ [newline]) as ->
    by (by rewrite <- drop_drop, drop_app_length).
  rewrite (proj2 (Z.leb_gt _ _)) by (rewrite !length_app; simpl; lia).
  rewrite take_app_length' by lia. unfold Base64_Decode. by rewrite (decode_lines d lines).
Qed.

(** A block of 50 bytes, on two lines. *)
Lemma pem_read_back_witness :
  PemToDer (str "CERTIFICATE") (DerToPem (str "CERTIFICATE") (replicate 50 x30)) =
    Some (replicate 50 x30).
Proof.
  apply (pem_read_back (str "CERTIFICATE") (replicate 50 x30));
    [by repeat constructor|by repeat constructor|vm_compute; done].
Defined.

(** ** Other text *)

(** The body is not base64 at all: the bytes are none, and the call succeeds. *)
Lemma pem_garbage_accepted :
  PemToDer (str "X") (pem_begin (str "X") ++ [newline] ++ str "(~)" ++ [newline] ++ pem_end (str "X")) =
    Some [].
Proof. vm_compute. done. Qed.

(** The trailer stands before the header: the length of the body wraps around
    and the body is all that follows the header. *)
Lemma pem_trailer_first :
  PemToDer (str "X") (pem_end (str "X") ++ [newline] ++ pem_begin (str "X") ++ [newline] ++ str "QUJD") =
    Some (str "ABC").
Proof. vm_compute. done. Qed.
