(* ===== verification/Sds.v ===== *)
(** * Dynamic strings (rtc_base/sds.cc, rtc_base/sds.h, rtc_base/zmalloc.cc)

    The buffers requests are read into: a header with [int] lengths before a
    block of memory with a terminating zero.  Memory is a list of bytes that
    may not have been written; an access outside a block is undefined.  The
    library is compiled with [NDEBUG], so its assertions do nothing. *)

From S2P Require Import Prelude StringEncode ByteBuffer.
Local Open Scope Z_scope.

(** ** Memory *)

Abbreviation mem := (list (option byte)).

(** Bytes in memory, and a C string. *)
Definition mem_of (v : bytes) : mem := map Some v.
Definition c_mem (v : bytes) : mem := mem_of v ++ [Some x00].

Definition mload (m : mem) (i : Z) : outcome byte :=
  if i <? 0 then Undef out_of_bounds
  else match m !! Z.to_nat i with
       | Some (Some b) => Done b
       | Some None => Undef uninitialised
       | None => Undef out_of_bounds
       end.

(** What [memcpy] and [memmove] read and write. *)
Definition mslice (m : mem) (i n : Z) : outcome mem :=
  if (0 <=? i) && (0 <=? n) && (i + n <=? Z.of_nat (length m))
  then Done (take (Z.to_nat n) (drop (Z.to_nat i) m)) else Undef out_of_bounds.

Definition mstore (m : mem) (i : Z) (cells : mem) : outcome mem :=
  if (0 <=? i) && (i + Z.of_nat (length cells) <=? Z.of_nat (length m))
  then Done (take (Z.to_nat i) m ++ cells ++ drop (Z.to_nat i + length cells) m) else Undef out_of_bounds.

Fixpoint cells_bytes (m : mem) : outcome bytes :=
  match m with
  | [] => Done []
  | Some b :: m => v ← cells_bytes m; Done (b :: v)
  | None :: _ => Undef uninitialised
  end.

(** The bytes a loop over [n] cells reads. *)
Definition mread (m : mem) (i n : Z) : outcome bytes := cells ← mslice m i n; cells_bytes cells.

Fixpoint strlen (m : mem) : outcome Z :=
  match m with
  | [] => Undef out_of_bounds
  | None :: _ => Undef uninitialised
  | Some b :: m => if bool_decide (b = x00) then Done 0 else n ← strlen m; Done (n + 1)
  end.

(** [int] arithmetic. *)
Definition int_range (z : Z) : outcome Z :=
  if (- 2 ^ 31 <=? z) && (z <? 2 ^ 31) then Done z else Undef signed_overflow.

(** ** zmalloc *)

Definition PREFIX_SIZE : Z := 8.
(** No allocator gives more. *)
Definition PTRDIFF_MAX : Z := 2 ^ 63 - 1.

(** The bytes behind the prefix; without memory the default handler aborts. *)
Definition zblock (size : Z) : outcome nat :=
  let total := u64 (size + PREFIX_SIZE) in
  if PTRDIFF_MAX <? total then Throws aborted
  else if total <? PREFIX_SIZE then Undef out_of_bounds
  else Done (Z.to_nat (total - PREFIX_SIZE)).

Definition zmalloc (size : Z) : outcome mem := n ← zblock size; Done (repeat None n).
Definition zcalloc (size : Z) : outcome mem := n ← zblock size; Done (repeat (Some x00) n).
Definition zrealloc (m : mem) (size : Z) : outcome mem :=
  n ← zblock size; Done (take n m ++ repeat None (n - length m)).

(** ** The header *)

Record sdshdr : Type := mkSds { sh_len : Z; sh_free : Z; sh_buf : mem }.

Definition SDS_MAX_PREALLOC : Z := 1024 * 1024.
(** [sizeof(struct sdshdr)] *)
Definition SDS_HDR : nat := 8.

Definition set_sh_len (n : Z) (s : sdshdr) : sdshdr := mkSds n (sh_free s) (sh_buf s).
Definition set_sh_free (n : Z) (s : sdshdr) : sdshdr := mkSds (sh_len s) n (sh_buf s).
Definition set_sh_buf (m : mem) (s : sdshdr) : sdshdr := mkSds (sh_len s) (sh_free s) m.

(** The part of a block behind the header, which must be inside. *)
Definition hdr_buf (block : mem) : outcome mem :=
  if bool_decide (SDS_HDR <= length block)%nat then Done (drop SDS_HDR block) else Undef out_of_bounds.

(** The size asked for, for a string of [n] bytes. *)
Definition hdr_size (n : Z) : Z := u64 (Z.of_nat SDS_HDR + n + 1).

Definition hdr_realloc (s : sdshdr) (n : Z) : outcome mem :=
  block ← zrealloc (repeat None SDS_HDR ++ sh_buf s) (hdr_size n); hdr_buf block.

Definition sdslen (s : sdshdr) : Z := u64 (sh_len s).
Definition sdsavail (s : sdshdr) : Z := u64 (sh_free s).

(** ** Making strings *)

Definition sdsnewlen (init : option mem) (initlen : Z) : outcome sdshdr :=
  block ← match init with Some _ => zmalloc (hdr_size initlen) | None => zcalloc (hdr_size initlen) end;
  buf ← hdr_buf block;
  buf ← match init with
        | Some t => if initlen =? 0 then Done buf else cells ← mslice t 0 initlen; mstore buf 0 cells
        | None => Done buf
        end;
  buf ← mstore buf initlen [Some x00];
  Done (mkSds (i32 initlen) 0 buf).

Definition sdsempty : outcome sdshdr := sdsnewlen (Some [Some x00]) 0.

Definition sdsnew (init : option mem) : outcome sdshdr :=
  initlen ← match init with Some t => strlen t | None => Done 0 end;
  sdsnewlen init initlen.

Definition sdsdup (s : sdshdr) : outcome sdshdr := sdsnewlen (Some (sh_buf s)) (sdslen s).

(** ** Lengths and room *)

Definition sdsupdatelen (s : sdshdr) : outcome sdshdr :=
  n ← strlen (sh_buf s);
  let reallen := i32 n in
  d ← int_range (sh_len s - reallen);
  free ← int_range (sh_free s + d);
  Done (mkSds reallen free (sh_buf s)).

Definition sdsclear (s : sdshdr) : outcome sdshdr :=
  free ← int_range (sh_free s + sh_len s);
  buf ← mstore (sh_buf s) 0 [Some x00];
  Done (mkSds 0 free buf).

(** The new length [sdsMakeRoomFor] asks for. *)
Definition grown (len addlen : Z) : Z :=
  let newlen := u64 (len + addlen) in
  if newlen <? SDS_MAX_PREALLOC then u64 (newlen * 2) else u64 (newlen + SDS_MAX_PREALLOC).

Definition sdsMakeRoomFor (s : sdshdr) (addlen : Z) : outcome sdshdr :=
  if addlen <=? sdsavail s then Done s
  else
    let len := sdslen s in
    let newlen := grown len addlen in
    buf ← hdr_realloc s newlen;
    Done (mkSds (sh_len s) (i32 (u64 (newlen - len))) buf).

Definition sdsRemoveFreeSpace (s : sdshdr) : outcome sdshdr :=
  buf ← hdr_realloc s (sdslen s);
  Done (mkSds (sh_len s) 0 buf).

Definition sdsAllocSize (s : sdshdr) : Z := u64 (Z.of_nat SDS_HDR + sdslen s + sdsavail s + 1).

Definition sdsIncrLen (s : sdshdr) (incr : Z) : outcome sdshdr :=
  len ← int_range (sh_len s + incr);
  free ← int_range (sh_free s - incr);
  buf ← mstore (sh_buf s) len [Some x00];
  Done (mkSds len free buf).

Definition sdsgrowzero (s : sdshdr) (len : Z) : outcome sdshdr :=
  let curlen := sdslen s in
  if len <=? curlen then Done s
  else
    s ← sdsMakeRoomFor s (len - curlen);
    buf ← mstore (sh_buf s) curlen (repeat (Some x00) (Z.to_nat (len - curlen + 1)));
    totlen ← int_range (sh_len s + sh_free s);
    Done (mkSds (i32 len) (i32 (u64 (totlen - i32 len))) buf).

(** ** Appending and copying *)

Definition sdscatlen (s : sdshdr) (t : mem) (len : Z) : outcome sdshdr :=
  let curlen := sdslen s in
  s ← sdsMakeRoomFor s len;
  cells ← mslice t 0 len;
  buf ← mstore (sh_buf s) curlen cells;
  buf ← mstore buf (u64 (curlen + len)) [Some x00];
  Done (mkSds (i32 (u64 (curlen + len))) (i32 (u64 (sdsavail s - len))) buf).

Definition sdscat (s : sdshdr) (t : mem) : outcome sdshdr := n ← strlen t; sdscatlen s t n.
Definition sdscatsds (s t : sdshdr) : outcome sdshdr := sdscatlen s (sh_buf t) (sdslen t).

Definition sdscpylen (s : sdshdr) (t : mem) (len : Z) : outcome sdshdr :=
  totlen ← int_range (sh_free s + sh_len s);
  s ← (if u64 totlen <? len then sdsMakeRoomFor s (u64 (len - sh_len s)) else Done s);
  totlen ← int_range (sh_free s + sh_len s);
  cells ← mslice t 0 len;
  buf ← mstore (sh_buf s) 0 cells;
  buf ← mstore buf len [Some x00];
  Done (mkSds (i32 len) (i32 (u64 (u64 totlen - len))) buf).

Definition sdscpy (s : sdshdr) (t : mem) : outcome sdshdr := n ← strlen t; sdscpylen s t n.

(** What [vsnprintf] leaves in a buffer of [buflen] bytes, of the formatted text. *)
Definition vsnprintf (buf : mem) (buflen : Z) (text : bytes) : outcome mem :=
  mstore buf 0 (c_mem (take (Z.to_nat (buflen - 1)) text)).

(** The loop of [sdscatvprintf], which doubles its buffer: before the 60th
    turn no allocator can give it. *)
Fixpoint printf_loop (fuel : nat) (buflen : Z) (text : bytes) : outcome mem :=
  match fuel with
  | O => Throws aborted
  | S fuel =>
      buf ← zmalloc buflen;
      buf ← mstore buf (buflen - 2) [Some x00];
      buf ← vsnprintf buf buflen text;
      last ← mload buf (buflen - 2);
      if negb (bool_decide (last = x00)) then printf_loop fuel (2 * buflen) text else Done buf
  end.

Definition sdscatprintf (s : sdshdr) (text : bytes) : outcome sdshdr :=
  buf ← printf_loop 60 16 text; sdscat s buf.

(** ** Cutting *)

(** [strchr(cset, c) != NULL], which also finds the terminator. *)
Definition strchr (cset : bytes) (c : byte) : bool := bool_decide (c = x00) || bool_decide (c ∈ cset).

Fixpoint trim_left (fuel : nat) (cset : bytes) (m : mem) (sp end_ : Z) : outcome Z :=
  match fuel with
  | O => Done sp
  | S fuel =>
      if sp <=? end_ then
        c ← mload m sp;
        if strchr cset c then trim_left fuel cset m (sp + 1) end_ else Done sp
      else Done sp
  end.

Fixpoint trim_right (fuel : nat) (cset : bytes) (m : mem) (ep : Z) : outcome Z :=
  match fuel with
  | O => Done ep
  | S fuel =>
      if 0 <? ep then
        c ← mload m ep;
        if strchr cset c then trim_right fuel cset m (ep - 1) else Done ep
      else Done ep
  end.

(** The [newlen] bytes from [start] become the string. *)
Definition keep_bytes (s : sdshdr) (start newlen : Z) : outcome sdshdr :=
  cells ← mslice (sh_buf s) start newlen;
  buf ← mstore (sh_buf s) 0 cells;
  buf ← mstore buf newlen [Some x00];
  Done (mkSds (i32 newlen) (i32 (u64 (sh_free s + (sh_len s - newlen)))) buf).

Definition sdstrim (s : sdshdr) (cset : bytes) : outcome sdshdr :=
  let end_ := sdslen s - 1 in
  sp ← trim_left (Z.to_nat (sdslen s)) cset (sh_buf s) 0 end_;
  ep ← trim_right (Z.to_nat (sdslen s)) cset (sh_buf s) end_;
  let len := if ep <? sp then 0 else (ep - sp) + 1 in
  keep_bytes s sp len.

(** A negative index counts from the end. *)
Definition range_index (len i : Z) : Z :=
  if i <? 0 then (let i := i32 (u64 (len + i)) in if i <? 0 then 0 else i) else i.

Definition range_len (start end_ : Z) : outcome Z :=
  if end_ <? start then Done 0 else d ← int_range (end_ - start); int_range (d + 1).

Definition sdsrange (s : sdshdr) (start end_ : Z) : outcome sdshdr :=
  let len := sdslen s in
  if len =? 0 then Done s
  else
    let start := range_index len start in
    let end_ := range_index len end_ in
    newlen ← range_len start end_;
    '(start, newlen) ←
      (if negb (newlen =? 0) then
         if i32 len <=? start then Done (start, 0)
         else if i32 len <=? end_ then newlen ← range_len start (i32 (len - 1)); Done (start, newlen)
         else Done (start, newlen)
       else Done (0, newlen));
    keep_bytes s (if (start =? 0) || (newlen =? 0) then 0 else start) newlen.

(** ** Bytes *)

(** A loop that rewrites every byte of the string. *)
Definition each_byte (f : byte -> byte) (s : sdshdr) : outcome sdshdr :=
  v ← mread (sh_buf s) 0 (sdslen s);
  buf ← mstore (sh_buf s) 0 (mem_of (map f v));
  Done (set_sh_buf buf s).

Definition sdstolower (s : sdshdr) : outcome sdshdr := each_byte to_lower s.
Definition sdstoupper (s : sdshdr) : outcome sdshdr := each_byte to_upper s.

Fixpoint map_char (from to : bytes) (c : byte) : byte :=
  match from, to with
  | f :: from, t :: to => if bool_decide (c = f) then t else map_char from to c
  | _, _ => c
  end.

Definition sdsmapchars (s : sdshdr) (from to : bytes) : outcome sdshdr := each_byte (map_char from to) s.

(** The sign of [memcmp] is that of the first bytes that differ. *)
Fixpoint memcmp (a b : bytes) : Z :=
  match a, b with
  | x :: a, y :: b => if bool_decide (x = y) then memcmp a b else byte_z x - byte_z y
  | _, _ => 0
  end.

Definition sdscmp (s1 s2 : sdshdr) : outcome Z :=
  let l1 := sdslen s1 in
  let l2 := sdslen s2 in
  let minlen := if l1 <? l2 then l1 else l2 in
  a ← mread (sh_buf s1) 0 minlen;
  b ← mread (sh_buf s2) 0 minlen;
  let cmp := memcmp a b in
  Done (if cmp =? 0 then i32 (u64 (l1 - l2)) else cmp).

(** ** Splitting *)

(** The loop of [sdssplitlen], with the tokens so far and the slots there are
    for them. *)
Definition push_token (tokens : list sdshdr) (slots : Z) (t : sdshdr) : outcome (list sdshdr) :=
  if Z.of_nat (length tokens) <? slots then Done (tokens ++ [t]) else Undef out_of_bounds.

Fixpoint splitlen_loop (fuel : nat) (s sep : bytes) (len seplen slots start j : Z) (tokens : list sdshdr)
    : outcome (list sdshdr) :=
  match fuel with
  | O => Undef out_of_bounds
  | S fuel =>
      if j <? len - (seplen - 1) then
        slots ← (if slots <? Z.of_nat (length tokens) + 2 then int_range (slots * 2) else Done slots);
        here ← read_at s (Z.to_nat j) (Z.to_nat seplen);
        sep_ ← read_at sep 0 (Z.to_nat seplen);
        if bool_decide (here = sep_) then
          t ← sdsnewlen (Some (mem_of (drop (Z.to_nat start) s))) (j - start);
          tokens ← push_token tokens slots t;
          splitlen_loop fuel s sep len seplen slots (j + seplen) (j + seplen) tokens
        else splitlen_loop fuel s sep len seplen slots start (j + 1) tokens
      else
        t ← sdsnewlen (Some (mem_of (drop (Z.to_nat start) s))) (len - start);
        push_token tokens slots t
  end.

(** [None] is [NULL]. *)
Definition sdssplitlen (s : bytes) (len : Z) (sep : bytes) (seplen : Z) : outcome (option (list sdshdr)) :=
  if (seplen <? 1) || (len <? 0) then Done None
  else if len =? 0 then Done (Some [])
  else tokens ← splitlen_loop (Z.to_nat len + 1) s sep len seplen 5 0 0 []; Done (Some tokens).

(** ** Numbers *)

Fixpoint longlong_digits (fuel : nat) (buf : mem) (p v : Z) : outcome (mem * Z) :=
  match fuel with
  | O => Undef out_of_bounds
  | S fuel =>
      buf ← mstore buf p [Some (digit (v mod 10))];
      let v := v / 10 in
      if v =? 0 then Done (buf, p - 1) else longlong_digits fuel buf (p - 1) v
  end.

Definition sdsfromlonglong (value : Z) : outcome sdshdr :=
  v ← (if value <? 0 then (if value =? - 2 ^ 63 then Undef signed_overflow else Done (- value)) else Done value);
  '(buf, p) ← longlong_digits 33 (repeat None 32) 31 v;
  '(buf, p) ← (if value <? 0 then buf ← mstore buf p [Some "-"%byte]; Done (buf, p - 1) else Done (buf, p));
  let p := p + 1 in
  sdsnewlen (Some (drop (Z.to_nat p) buf)) (32 - p).

(** ** Quoted strings *)

(** In the C locale. *)
Definition isprint (c : byte) : bool := ascii_in " " "~" c.
Definition isspace (c : byte) : bool := ascii_in x09 x0d c || bool_decide (c = " "%byte).

Definition hex_text (c : byte) : bytes :=
  [x5c; "x"%byte; hex_digit (byte_z c / 16); hex_digit (byte_z c mod 16)].

Definition catrepr_char (s : sdshdr) (c : byte) : outcome sdshdr :=
  match c with
  | x5c | x22 => sdscatprintf s [x5c; c]
  | x0a => sdscatlen s (c_mem [x5c; "n"%byte]) 2
  | x0d => sdscatlen s (c_mem [x5c; "r"%byte]) 2
  | x09 => sdscatlen s (c_mem [x5c; "t"%byte]) 2
  | x07 => sdscatlen s (c_mem [x5c; "a"%byte]) 2
  | x08 => sdscatlen s (c_mem [x5c; "b"%byte]) 2
  | _ => if isprint c then sdscatprintf s [c] else sdscatprintf s (hex_text c)
  end.

Fixpoint catrepr_loop (s : sdshdr) (p : bytes) : outcome sdshdr :=
  match p with
  | [] => Done s
  | c :: p => s ← catrepr_char s c; catrepr_loop s p
  end.

(** The string [p] is given with its length. *)
Definition sdscatrepr (s : sdshdr) (p : bytes) : outcome sdshdr :=
  s ← sdscatlen s (c_mem [x22]) 1;
  s ← catrepr_loop s p;
  sdscatlen s (c_mem [x22]) 1.

Definition is_hex_digit (c : byte) : bool := ascii_in "0" "9" c || ascii_in "a" "f" c || ascii_in "A" "F" c.

Definition hex_digit_to_int (c : byte) : Z :=
  if ascii_in "0" "9" c then byte_z c - 48
  else if ascii_in "a" "f" c then byte_z c - 97 + 10
  else if ascii_in "A" "F" c then byte_z c - 65 + 10
  else 0.

(** [*(p + i)] *)
Definition char_at (p : bytes) (i : nat) : outcome byte := deref out_of_bounds (p !! i).

(** Conditions joined by [&&]. *)
Definition and_then (a b : outcome bool) : outcome bool := x ← a; if (x : bool) then b else Done false.
Definition char_is (f : byte -> bool) (p : bytes) (i : nat) : outcome bool := c ← char_at p i; Done (f c).
Definition eq_char (c c' : byte) : bool := bool_decide (c' = c).

Definition is_hex_escape (p : bytes) : outcome bool :=
  and_then (char_is (eq_char x5c) p 0) (and_then (char_is (eq_char "x") p 1)
    (and_then (char_is is_hex_digit p 2) (char_is is_hex_digit p 3))).

Definition unescape (c : byte) : byte :=
  match c with
  | "n" => x0a | "r" => x0d | "t" => x09 | "b" => x08 | "a" => x07 | c => c
  end%byte.

(** A closing quote is followed by a space or the end. *)
Definition quote_closes (p : bytes) : outcome bool :=
  c ← char_at p 1; Done (bool_decide (c = x00) || isspace c).

Inductive quoting : Type := Unquoted | In_quotes | In_single_quotes.

(** A turn of the loop that reads a token, up to its last [if]: an error,
    or the quotes it is in, the token, [p] and whether it is done. *)
Definition token_step (q : quoting) (current : sdshdr) (p : bytes)
    : outcome (option (quoting * sdshdr * bytes * bool)) :=
  let add c p := current ← sdscatlen current [Some c] 1; Done (Some (q, current, p, false)) in
  c ← char_at p 0;
  match q with
  | In_quotes =>
      hex ← is_hex_escape p;
      if (hex : bool) then
        h ← char_at p 2;
        l ← char_at p 3;
        add (z_byte (hex_digit_to_int h * 16 + hex_digit_to_int l)) (drop 3 p)
      else
        escape ← and_then (Done (eq_char x5c c)) (char_is (fun c => negb (eq_char x00 c)) p 1);
        if (escape : bool) then c ← char_at p 1; add (unescape c) (drop 1 p)
        else if eq_char x22 c then
          closes ← quote_closes p; Done (if (closes : bool) then Some (q, current, p, true) else None)
        else if eq_char x00 c then Done None
        else add c p
  | In_single_quotes =>
      escape ← and_then (Done (eq_char x5c c)) (char_is (eq_char x27) p 1);
      if (escape : bool) then add x27 (drop 1 p)
      else if eq_char x27 c then
        closes ← quote_closes p; Done (if (closes : bool) then Some (q, current, p, true) else None)
      else if eq_char x00 c then Done None
      else add c p
  | Unquoted =>
      match c with
      | x20 | x0a | x0d | x09 | x00 => Done (Some (q, current, p, true))
      | x22 => Done (Some (In_quotes, current, p, false))
      | x27 => Done (Some (In_single_quotes, current, p, false))
      | _ => add c p
      end
  end.

(** [if ( *p) p++] *)
Definition advance_p (p : bytes) : outcome bytes :=
  c ← char_at p 0; Done (if eq_char x00 c then p else drop 1 p).

(** Every turn goes on by a byte or ends the loop, so more turns than there are
    bytes would leave the memory. *)
Fixpoint get_token (fuel : nat) (q : quoting) (current : sdshdr) (p : bytes) : outcome (option (sdshdr * bytes)) :=
  match fuel with
  | O => Undef out_of_bounds
  | S fuel =>
      o ← token_step q current p;
      match o with
      | None => Done None
      | Some (q, current, p, done) =>
          p ← advance_p p;
          if (done : bool) then Done (Some (current, p)) else get_token fuel q current p
      end
  end.

Fixpoint skip_blanks (p : bytes) : outcome bytes :=
  match p with
  | [] => Undef out_of_bounds
  | c :: p' => if negb (eq_char x00 c) && isspace c then skip_blanks p' else Done p
  end.

Fixpoint split_args_loop (fuel : nat) (vector : list sdshdr) (p : bytes) : outcome (option (list sdshdr)) :=
  match fuel with
  | O => Undef out_of_bounds
  | S fuel =>
      p ← skip_blanks p;
      c ← char_at p 0;
      if negb (eq_char x00 c) then
        current ← sdsempty;
        o ← get_token (S (length p)) Unquoted current p;
        match o with
        | None => Done None
        | Some (current, p) => split_args_loop fuel (vector ++ [current]) p
        end
      else Done (Some vector)
  end.

(** [None] after an error; [line] is the memory from the line on. *)
Definition sdssplitargs (line : bytes) : outcome (option (list sdshdr)) :=
  split_args_loop (S (length line)) [] line.
