(* ===== verification/SdsTheory.v ===== *)
(** * Dynamic strings: they are byte strings

    The representation of a byte string by a header and its memory, what every
    operation does to the string, quoting and splitting, and where the [int]
    lengths of the header end. *)

From S2P Require Import Prelude StringEncode ByteBuffer Sds.
Local Open Scope Z_scope.

(** ** Memory *)

Lemma length_mem_of v : length (mem_of v) = length v.
Proof. apply length_map. Qed.

Lemma mem_of_app v w : mem_of (v ++ w) = mem_of v ++ mem_of w.
Proof. apply map_app. Qed.

Lemma cells_bytes_mem_of v : cells_bytes (mem_of v) = Done v.
Proof. induction v as [|b v IH]; [done|]. cbn [mem_of map cells_bytes]. fold (mem_of v). by rewrite IH. Qed.

Lemma mslice_app (a b c : mem) i n :
  i = Z.of_nat (length a) -> n = Z.of_nat (length b) -> mslice (a ++ b ++ c) i n = Done b.
Proof.
  intros -> ->. unfold mslice. rewrite !length_app.
  replace (_ && _) with true by (symmetry; rewrite !andb_true_iff, !Z.leb_le; lia).
  by rewrite !Nat2Z.id, drop_app_length, take_app_length.
Qed.

Lemma mstore_app (a b c b' : mem) i :
  i = Z.of_nat (length a) -> length b' = length b -> mstore (a ++ b ++ c) i b' = Done (a ++ b' ++ c).
Proof.
  intros -> El. unfold mstore. rewrite !length_app.
  replace (_ && _) with true by (symmetry; rewrite !andb_true_iff, !Z.leb_le; lia).
  rewrite Nat2Z.id, take_app_length, El, <- length_app, (app_assoc a b c), drop_app_length. done.
Qed.

Lemma mstore_one (a c : mem) o i b : i = Z.of_nat (length a) -> mstore (a ++ o :: c) i [b] = Done (a ++ b :: c).
Proof. intros Hi. exact (mstore_app a [o] c [b] i Hi eq_refl). Qed.

(** At the start of a block. *)
Lemma mslice_front (b c : mem) n : n = Z.of_nat (length b) -> mslice (b ++ c) 0 n = Done b.
Proof. intros. by apply (mslice_app [] b c). Qed.

Lemma mstore_front (b c b' : mem) : length b' = length b -> mstore (b ++ c) 0 b' = Done (b' ++ c).
Proof. intros. by apply (mstore_app [] b c). Qed.

Lemma mload_app (a c : mem) b i : i = Z.of_nat (length a) -> mload (a ++ Some b :: c) i = Done b.
Proof.
  intros ->. unfold mload. replace (_ <? 0) with false by (symmetry; apply Z.ltb_ge; lia).
  by rewrite Nat2Z.id, list_lookup_middle.
Qed.

(** The cell at an index. *)
Lemma cell_at (m : mem) n :
  (n < length m)%nat -> exists old o, m = old ++ o :: drop (S n) m /\ length old = n.
Proof.
  intros Hn. destruct (lookup_lt_is_Some_2 m n Hn) as [o Ho]. exists (take n m), o.
  split; [by rewrite (take_drop_middle _ _ _ Ho)|]. rewrite length_take. lia.
Qed.

Lemma c_str_split v : exists w, v ++ [x00] = c_str v ++ x00 :: w.
Proof.
  induction v as [|b v [w IH]]; [by exists []|]. cbn. case_bool_decide as Hb.
  - subst. by exists (v ++ [x00]).
  - exists w. cbn. by rewrite IH.
Qed.

Lemma strlen_c v m : strlen (mem_of v ++ Some x00 :: m) = Done (Z.of_nat (length (c_str v))).
Proof.
  induction v as [|b v IH]; [done|]. cbn [mem_of map app strlen c_str]. fold (mem_of v). rewrite IH.
  case_bool_decide; [done|]. cbn [mbind outcome_bind length]. f_equal. lia.
Qed.

(** ** Allocation *)

Lemma zblock_small size : 0 <= size < 2 ^ 62 -> zblock size = Done (Z.to_nat size).
Proof.
  intros H. unfold zblock, PREFIX_SIZE, PTRDIFF_MAX. rewrite u64_id by lia.
  replace (_ <? size + 8) with false by (symmetry; apply Z.ltb_ge; lia).
  replace (size + 8 <? 8) with false by (symmetry; apply Z.ltb_ge; lia). do 2 f_equal. lia.
Qed.

Lemma hdr_size_small n : 0 <= n < 2 ^ 62 - 9 -> hdr_size n = n + 9.
Proof. intros. unfold hdr_size, SDS_HDR. rewrite u64_id; lia. Qed.

Lemma hdr_buf_app (a b : mem) : length a = SDS_HDR -> hdr_buf (a ++ b) = Done b.
Proof.
  intros E. unfold hdr_buf. rewrite length_app, E, bool_decide_true by lia. by rewrite <- E, drop_app_length.
Qed.

(** ** The representation *)

(** The most a header can describe. *)
Definition SDS_CAP : Z := 2 ^ 31 - 2.
(** Strings up to this length can be worked with. *)
Definition SDS_LIMIT : Z := 2 ^ 30.

Definition sds_at (v : bytes) (extra : mem) : sdshdr :=
  mkSds (Z.of_nat (length v)) (Z.of_nat (length extra)) (mem_of v ++ Some x00 :: extra).

Definition sds_repr (v : bytes) (s : sdshdr) : Prop :=
  exists extra, s = sds_at v extra /\ Z.of_nat (length v + length extra) <= SDS_CAP.

(** A run ends with a string that represents [v]. *)
Definition yields (o : outcome sdshdr) (v : bytes) : Prop := exists s, o = Done s /\ sds_repr v s.

Lemma yields_bind o f v w :
  yields o v -> (forall s, sds_repr v s -> yields (f s) w) -> yields (o ≫= f) w.
Proof. intros (s & -> & Hs) Hf. by apply Hf. Qed.

Lemma yields_at v extra : Z.of_nat (length v + length extra) <= SDS_CAP -> yields (Done (sds_at v extra)) v.
Proof. intros Hc. eexists. split; [done|]. by exists extra. Qed.

Section at_lemmas.
Context (v : bytes) (extra : mem) (Hcap : Z.of_nat (length v + length extra) <= SDS_CAP).

Lemma sdslen_at : sdslen (sds_at v extra) = Z.of_nat (length v).
Proof. unfold sdslen. apply u64_id. unfold SDS_CAP in Hcap. cbn. lia. Qed.

Lemma sdsavail_at : sdsavail (sds_at v extra) = Z.of_nat (length extra).
Proof. unfold sdsavail. apply u64_id. unfold SDS_CAP in Hcap. cbn. lia. Qed.

Lemma length_at : length (sh_buf (sds_at v extra)) = (length v + S (length extra))%nat.
Proof. cbn. by rewrite length_app, length_mem_of. Qed.
End at_lemmas.

Lemma int_range_ok z : - 2 ^ 31 <= z < 2 ^ 31 -> int_range z = Done z.
Proof.
  intros H. unfold int_range. replace (_ && _) with true; [done|].
  symmetry. rewrite andb_true_iff, Z.leb_le, Z.ltb_lt. lia.
Qed.

Lemma hdr_realloc_at v extra n :
  Z.of_nat (length v) <= n < 2 ^ 33 ->
  hdr_realloc (sds_at v extra) n =
    Done (mem_of v ++ Some x00 :: take (Z.to_nat n - length v) extra
          ++ repeat None (Z.to_nat n - length v - length extra)).
Proof.
  intros Hn. unfold hdr_realloc, zrealloc. rewrite hdr_size_small, zblock_small by lia. cbn [mbind outcome_bind].
  set (hdr := repeat None SDS_HDR). assert (Eh : length hdr = SDS_HDR) by apply repeat_length.
  rewrite length_app, length_at, Eh.
  replace (Z.to_nat (n + 9)) with (SDS_HDR + (length (mem_of v) + S (Z.to_nat n - length v)))%nat
    by (rewrite length_mem_of; unfold SDS_HDR; lia).
  rewrite <- Eh at 1. rewrite take_app_add. cbn [sds_at sh_buf].
  rewrite take_app_add. cbn [take]. rewrite <- (app_assoc hdr), hdr_buf_app by done.
  rewrite <- (app_assoc (mem_of v)), <- app_comm_cons, length_mem_of. unfold SDS_HDR.
  replace (8 + _ - _)%nat with (Z.to_nat n - length v - length extra)%nat by lia. done.
Qed.

Lemma grown_ok len addlen :
  0 <= len -> 0 <= addlen -> len + addlen <= SDS_LIMIT -> len + addlen <= grown len addlen <= SDS_CAP.
Proof.
  unfold SDS_LIMIT, SDS_CAP, grown. intros. rewrite (u64_id (len + addlen)) by lia. unfold SDS_MAX_PREALLOC.
  destruct (_ <? _) eqn:E; [apply Z.ltb_lt in E|apply Z.ltb_ge in E]; rewrite u64_id; lia.
Qed.

Lemma make_room_at v extra addlen :
  Z.of_nat (length v + length extra) <= SDS_CAP -> 0 <= addlen -> Z.of_nat (length v) + addlen <= SDS_LIMIT ->
  exists extra', sdsMakeRoomFor (sds_at v extra) addlen = Done (sds_at v extra') /\
    addlen <= Z.of_nat (length extra') /\ Z.of_nat (length v + length extra') <= SDS_CAP.
Proof.
  intros Hc Ha Hl. unfold sdsMakeRoomFor. rewrite sdsavail_at, sdslen_at by done.
  destruct (_ <=? _) eqn:E; [apply Z.leb_le in E; by exists extra|apply Z.leb_gt in E].
  destruct (grown_ok (Z.of_nat (length v)) addlen) as [Hg1 Hg2]; [lia..|]. set (n := grown _ _) in *.
  unfold SDS_CAP in *. rewrite hdr_realloc_at by lia. cbn [mbind outcome_bind].
  rewrite (take_ge extra) by lia. set (extra' := extra ++ repeat None _).
  assert (El : Z.of_nat (length v + length extra') = n) by (subst extra'; rewrite length_app, repeat_length; lia).
  exists extra'. split; [|lia]. unfold sds_at. rewrite u64_id, i32_id by lia. cbn [sh_len]. do 2 f_equal. lia.
Qed.

Lemma make_room_yields v s addlen :
  sds_repr v s -> 0 <= addlen -> Z.of_nat (length v) + addlen <= SDS_LIMIT -> yields (sdsMakeRoomFor s addlen) v.
Proof.
  intros (extra & -> & Hc) Ha Hl. destruct (make_room_at v extra addlen) as (extra' & -> & _ & Hc'); [done..|].
  by apply yields_at.
Qed.

(** A block of written bytes after the string becomes part of it. *)
Lemma append_cells v extra w i :
  (length w <= length extra)%nat -> i = Z.of_nat (length v) ->
  (buf ← mstore (sh_buf (sds_at v extra)) i (mem_of w);
   mstore buf (i + Z.of_nat (length w)) [Some x00]) = Done (sh_buf (sds_at (v ++ w) (drop (length w) extra))).
Proof.
  intros Hw ->. cbn [sds_at sh_buf].
  destruct (cell_at (Some x00 :: extra) (length w)) as (old & o & E & Eo); [cbn; lia|]. cbn [drop] in E. rewrite E.
  rewrite mstore_app by (rewrite ?length_mem_of; done). cbn [mbind outcome_bind].
  rewrite app_assoc, mstore_one by (rewrite length_app, !length_mem_of; lia). by rewrite mem_of_app, <- !app_assoc.
Qed.

Lemma catlen_yields v s w rest len :
  sds_repr v s -> len = Z.of_nat (length w) -> Z.of_nat (length (v ++ w)) <= SDS_LIMIT ->
  yields (sdscatlen s (mem_of w ++ rest) len) (v ++ w).
Proof.
  intros (extra & -> & Hc) -> Hl. rewrite length_app in Hl. unfold sdscatlen. rewrite sdslen_at by done.
  destruct (make_room_at v extra (Z.of_nat (length w))) as (extra' & -> & Hw & Hc'); [done|lia..|].
  cbn [mbind outcome_bind]. rewrite (mslice_front (mem_of w) rest) by (rewrite ?length_mem_of; done). cbn [mbind outcome_bind].
  unfold SDS_CAP, SDS_LIMIT in *. rewrite u64_id by lia.
  pose proof (append_cells v extra' w (Z.of_nat (length v)) ltac:(lia) eq_refl) as Ea.
  cbn [mbind outcome_bind] in *. destruct (mstore (sh_buf (sds_at v extra')) _ _) as [buf| |]; [|done..].
  cbn [mbind outcome_bind] in *. rewrite Ea. cbn [mbind outcome_bind]. rewrite sdsavail_at by (unfold SDS_CAP; lia).
  rewrite u64_id, !i32_id by lia. eexists. split; [done|]. exists (drop (length w) extra').
  rewrite length_app, length_drop. unfold SDS_CAP. split; [|lia]. unfold sds_at. rewrite length_app, length_drop. f_equal; lia.
Qed.

Lemma cat_c_yields v s w :
  sds_repr v s -> Z.of_nat (length (v ++ w)) <= SDS_LIMIT -> yields (sdscatlen s (c_mem w) (Z.of_nat (length w))) (v ++ w).
Proof. intros. by apply catlen_yields. Qed.

Lemma cat_char_yields v s c :
  sds_repr v s -> Z.of_nat (length v) < SDS_LIMIT -> yields (sdscatlen s [Some c] 1) (v ++ [c]).
Proof. intros. apply (catlen_yields v s [c] [] 1); [done|done|]. rewrite length_app. cbn. lia. Qed.

(** ** Making strings *)

Lemma newlen_yields v rest n :
  n = Z.of_nat (length v) -> n <= SDS_LIMIT -> yields (sdsnewlen (Some (mem_of v ++ rest)) n) v.
Proof.
  intros -> Hl. unfold SDS_LIMIT in Hl. unfold sdsnewlen, zmalloc.
  rewrite hdr_size_small, zblock_small by lia. cbn [mbind outcome_bind].
  replace (Z.to_nat _) with (SDS_HDR + (length v + 1))%nat by (unfold SDS_HDR; lia).
  rewrite repeat_app, hdr_buf_app by (by rewrite repeat_length). cbn [mbind outcome_bind].
  rewrite repeat_app. cbn [repeat].
  assert (E : (if Z.of_nat (length v) =? 0 then Done (repeat None (length v) ++ [None])
    else cells ← mslice (mem_of v ++ rest) 0 (Z.of_nat (length v));
         mstore (repeat None (length v) ++ [None]) 0 cells) = Done (mem_of v ++ [None])).
  { destruct (_ =? 0) eqn:E0.
    - apply Z.eqb_eq in E0. by destruct v.
    - rewrite (mslice_front (mem_of v) rest) by (rewrite ?length_mem_of; done). cbn [mbind outcome_bind].
      by rewrite mstore_front by (rewrite ?repeat_length, ?length_mem_of; done). }
  rewrite E. cbn [mbind outcome_bind]. rewrite mstore_one by (by rewrite length_mem_of). cbn [mbind outcome_bind].
  eexists. split; [done|]. exists []. unfold SDS_CAP. rewrite i32_id by lia. cbn [length]. split; [done|lia].
Qed.

Lemma empty_yields : yields sdsempty [].
Proof. by apply (newlen_yields [] [Some x00] 0). Qed.

Lemma dup_yields v s : sds_repr v s -> Z.of_nat (length v) <= SDS_LIMIT -> yields (sdsdup s) v.
Proof. intros (extra & -> & Hc) Hl. unfold sdsdup. rewrite sdslen_at by done. by apply newlen_yields. Qed.

(** ** Cutting *)

Lemma clear_yields v s : sds_repr v s -> yields (sdsclear s) [].
Proof.
  intros (extra & -> & Hc). unfold SDS_CAP in Hc. unfold sdsclear. cbn [sds_at sh_len sh_free sh_buf].
  rewrite int_range_ok by lia. cbn [mbind outcome_bind].
  destruct (mem_of v ++ Some x00 :: extra) as [|o l] eqn:E; [by destruct v|].
  rewrite (mstore_front [o] l) by done. cbn [mbind outcome_bind app]. eexists. split; [done|]. exists l.
  assert (El : length (o :: l) = (length v + S (length extra))%nat) by (by rewrite <- E, length_app, length_mem_of).
  cbn in El. unfold SDS_CAP. split; [unfold sds_at; cbn; f_equal; lia|cbn; lia].
Qed.

(** The bytes [b] in the middle become the string. *)
Lemma keep_yields a b c s :
  sds_repr (a ++ b ++ c) s -> yields (keep_bytes s (Z.of_nat (length a)) (Z.of_nat (length b))) b.
Proof.
  intros (extra & -> & Hc). unfold SDS_CAP in Hc. unfold keep_bytes. cbn [sds_at sh_len sh_free sh_buf].
  rewrite !mem_of_app, <- !app_assoc, mslice_app by (by rewrite length_mem_of). cbn [mbind outcome_bind].
  set (tail := mem_of c ++ _).
  destruct (cell_at (mem_of a ++ mem_of b ++ tail) (length b)) as (old & o & E & Eo).
  { subst tail. rewrite !length_app, !length_mem_of. cbn. lia. }
  revert E. generalize (drop (S (length b)) (mem_of a ++ mem_of b ++ tail)). intros rest E.
  assert (El : length (mem_of a ++ mem_of b ++ tail) = length (old ++ o :: rest)) by (by rewrite E).
  subst tail. rewrite !length_app, !length_mem_of in El. cbn in El. rewrite !length_app in Hc.
  rewrite E, (mstore_front old (o :: rest)) by (rewrite ?length_mem_of; done). cbn [mbind outcome_bind app].
  rewrite mstore_one by (by rewrite length_mem_of). cbn [mbind outcome_bind]. rewrite !length_app.
  rewrite u64_id, !i32_id by lia. eexists. split; [done|]. exists rest. unfold SDS_CAP. split; [|lia].
  unfold sds_at. f_equal. lia.
Qed.

Lemma updatelen_yields v s : sds_repr v s -> yields (sdsupdatelen s) (c_str v).
Proof.
  intros (extra & -> & Hc). unfold SDS_CAP in Hc. unfold sdsupdatelen. cbn [sds_at sh_len sh_free sh_buf].
  rewrite strlen_c. cbn [mbind outcome_bind]. destruct (c_str_split v) as [w Ew].
  assert (El : length (v ++ [x00]) = length (c_str v ++ x00 :: w)) by (by rewrite Ew).
  rewrite !length_app in El. cbn in El. rewrite i32_id by lia. rewrite int_range_ok by lia. cbn [mbind outcome_bind].
  rewrite int_range_ok by lia. cbn [mbind outcome_bind].
  eexists. split; [done|]. exists (mem_of w ++ extra). rewrite length_app, length_mem_of. unfold SDS_CAP. split; [|lia].
  unfold sds_at. rewrite length_app, length_mem_of. f_equal; [lia|].
  change (Some x00 :: extra) with (mem_of [x00] ++ extra). rewrite app_assoc, <- mem_of_app, Ew, mem_of_app, <- app_assoc. done.
Qed.

Lemma remove_free_yields v s : sds_repr v s -> yields (sdsRemoveFreeSpace s) v.
Proof.
  intros (extra & -> & Hc). unfold sdsRemoveFreeSpace. rewrite sdslen_at by done. unfold SDS_CAP in Hc.
  rewrite hdr_realloc_at by lia. cbn [mbind outcome_bind]. rewrite Nat2Z.id, Nat.sub_diag. cbn [take repeat app Nat.sub].
  apply (yields_at v []). cbn. unfold SDS_CAP. lia.
Qed.

(** ** Filling the room *)

(** What [read_query] does: make room, read into it, and set the length. *)
Definition sds_fill (s : sdshdr) (addlen : Z) (data : bytes) : outcome sdshdr :=
  let qb_len := i32 (sdslen s) in
  s ← sdsMakeRoomFor s addlen;
  buf ← mstore (sh_buf s) qb_len (mem_of data);
  sdsIncrLen (set_sh_buf buf s) (Z.of_nat (length data)).

Lemma fill_at v extra w :
  Z.of_nat (length v + length extra) <= SDS_CAP -> (length w <= length extra)%nat ->
  (buf ← mstore (sh_buf (sds_at v extra)) (Z.of_nat (length v)) (mem_of w);
   sdsIncrLen (set_sh_buf buf (sds_at v extra)) (Z.of_nat (length w))) = Done (sds_at (v ++ w) (drop (length w) extra)).
Proof.
  intros Hc Hw. unfold SDS_CAP in Hc.
  pose proof (append_cells v extra w (Z.of_nat (length v)) Hw eq_refl) as Ea. cbn [mbind outcome_bind] in *.
  destruct (mstore (sh_buf (sds_at v extra)) _ _) as [buf| |]; [|done..]. cbn [mbind outcome_bind] in *.
  unfold sdsIncrLen. cbn [set_sh_buf sds_at sh_len sh_free sh_buf]. rewrite !int_range_ok by lia. cbn [mbind outcome_bind]. rewrite Ea. cbn [mbind outcome_bind].
  unfold sds_at. rewrite length_app, length_drop. do 2 f_equal; lia.
Qed.

Lemma fill_yields v s addlen w :
  sds_repr v s -> Z.of_nat (length w) <= addlen -> Z.of_nat (length v) + addlen <= SDS_LIMIT ->
  yields (sds_fill s addlen w) (v ++ w).
Proof.
  intros (extra & -> & Hc) Hw Hl. unfold sds_fill. rewrite sdslen_at by done.
  destruct (make_room_at v extra addlen) as (extra' & -> & Hx & Hc'); [done|lia|done|].
  rewrite i32_id by (unfold SDS_LIMIT in Hl; lia). cbn [mbind outcome_bind]. rewrite fill_at by lia.
  apply yields_at. rewrite length_app, length_drop. lia.
Qed.

(** Trimming at the right by a negative increment. *)
Lemma shorten_yields v w s :
  sds_repr (v ++ w) s -> yields (sdsIncrLen s (- Z.of_nat (length w))) v.
Proof.
  intros (extra & -> & Hc). unfold SDS_CAP in Hc. rewrite length_app in Hc. unfold sdsIncrLen.
  cbn [sds_at sh_len sh_free sh_buf]. rewrite length_app, !int_range_ok by lia. cbn [mbind outcome_bind]. rewrite mem_of_app, <- app_assoc.
  destruct (mem_of w ++ Some x00 :: extra) as [|o l] eqn:E; [by destruct w|].
  assert (El : length (o :: l) = (length w + S (length extra))%nat) by (by rewrite <- E, length_app, length_mem_of).
  cbn in El. rewrite mstore_one by (rewrite length_mem_of; lia). cbn [mbind outcome_bind].
  eexists. split; [done|]. exists l. unfold SDS_CAP. split; [|lia]. unfold sds_at. f_equal; lia.
Qed.

Lemma growzero_yields v s n :
  sds_repr v s -> 0 <= n <= SDS_LIMIT ->
  yields (sdsgrowzero s n) (v ++ repeat x00 (Z.to_nat n - length v)).
Proof.
  intros (extra & -> & Hc) Hn. unfold sdsgrowzero. rewrite sdslen_at by done.
  destruct (_ <=? _) eqn:E; [apply Z.leb_le in E|apply Z.leb_gt in E].
  { replace (Z.to_nat n - length v)%nat with 0%nat by lia. rewrite app_nil_r. by apply yields_at. }
  destruct (make_room_at v extra (n - Z.of_nat (length v))) as (extra' & -> & Hx & Hc'); [done|lia|lia|].
  cbn [mbind outcome_bind]. set (k := (Z.to_nat n - length v)%nat). assert (Ek : n = Z.of_nat (length v + k)) by lia.
  replace (Z.to_nat (n - Z.of_nat (length v) + 1)) with (k + 1)%nat by lia. rewrite Ek in *. clear Ek.
  assert (Es : Some x00 :: extra' = take (k + 1) (Some x00 :: extra') ++ drop k extra').
  { rewrite <- (take_drop (k + 1) (Some x00 :: extra')) at 1. by rewrite Nat.add_1_r. }
  cbn [sds_at sh_len sh_free sh_buf]. rewrite Es.
  rewrite mstore_app by (rewrite ?length_mem_of, ?repeat_length, ?length_take; cbn; lia). cbn [mbind outcome_bind].
  unfold SDS_LIMIT, SDS_CAP in *. rewrite int_range_ok by lia. cbn [mbind outcome_bind]. rewrite u64_id, !i32_id by (rewrite ?i32_id by lia; lia).
  eexists. split; [done|]. exists (drop k extra').
  rewrite length_app, repeat_length, length_drop. unfold SDS_CAP. split; [|lia]. unfold sds_at.
  rewrite length_app, repeat_length, length_drop, mem_of_app, <- app_assoc. f_equal; [lia|]. f_equal.
  rewrite repeat_app, <- app_assoc. f_equal. unfold mem_of. by rewrite map_repeat.
Qed.

Lemma cpylen_yields v s w rest len :
  sds_repr v s -> len = Z.of_nat (length w) -> len <= SDS_LIMIT -> yields (sdscpylen s (mem_of w ++ rest) len) w.
Proof.
  intros (extra & -> & Hc) -> Hl. unfold sdscpylen. unfold SDS_CAP in Hc.
  cbn [sds_at sh_len sh_free]. rewrite int_range_ok by lia. cbn [mbind outcome_bind]. rewrite u64_id by lia.
  assert (exists extra', (if Z.of_nat (length extra) + Z.of_nat (length v) <? Z.of_nat (length w)
    then sdsMakeRoomFor (sds_at v extra) (u64 (Z.of_nat (length w) - Z.of_nat (length v))) else Done (sds_at v extra))
    = Done (sds_at v extra') /\ (length w <= length v + length extra')%nat /\
    Z.of_nat (length v + length extra') <= SDS_CAP) as (extra' & -> & Hw & Hc').
  { destruct (_ <? _) eqn:E; [apply Z.ltb_lt in E|apply Z.ltb_ge in E; exists extra; unfold SDS_CAP; split_and!; [done|lia..]].
    unfold SDS_LIMIT in Hl. rewrite u64_id by lia.
    destruct (make_room_at v extra (Z.of_nat (length w) - Z.of_nat (length v))) as (extra' & -> & Hx & Hc');
      [unfold SDS_CAP; lia|lia|unfold SDS_LIMIT; lia|].
    exists extra'. split_and!; [done|lia|done]. }
  unfold SDS_CAP in Hc'. cbn [mbind outcome_bind sds_at sh_len sh_free sh_buf]. rewrite int_range_ok by lia. cbn [mbind outcome_bind].
  rewrite mslice_front by (by rewrite length_mem_of). cbn [mbind outcome_bind].
  destruct (cell_at (mem_of v ++ Some x00 :: extra') (length w)) as (old & o & E & Eo).
  { rewrite length_app, length_mem_of. cbn. lia. }
  revert E. generalize (drop (S (length w)) (mem_of v ++ Some x00 :: extra')). intros l E.
  assert (El : length (mem_of v ++ Some x00 :: extra') = length (old ++ o :: l)) by (by rewrite E).
  rewrite !length_app, length_mem_of in El. cbn in El.
  rewrite E, mstore_front by (by rewrite length_mem_of). cbn [mbind outcome_bind].
  rewrite mstore_one by (by rewrite length_mem_of). cbn [mbind outcome_bind]. unfold SDS_LIMIT in Hl.
  rewrite !u64_id, !i32_id by (rewrite ?u64_id by lia; lia). eexists. split; [done|]. exists l. unfold SDS_CAP.
  split; [|lia]. unfold sds_at. f_equal. lia.
Qed.

(** ** Bytes and numbers *)

Lemma mread_at v extra n :
  n = Z.of_nat (length v) -> mread (sh_buf (sds_at v extra)) 0 n = Done v.
Proof.
  intros ->. unfold mread. cbn [sds_at sh_buf]. rewrite mslice_front by (by rewrite length_mem_of).
  apply cells_bytes_mem_of.
Qed.

Lemma each_byte_yields f v s : sds_repr v s -> yields (each_byte f s) (map f v).
Proof.
  intros (extra & -> & Hc). unfold each_byte. rewrite sdslen_at, mread_at by done. cbn [mbind outcome_bind sds_at sh_buf].
  rewrite mstore_front by (by rewrite !length_mem_of, length_map). cbn [mbind outcome_bind].
  eexists. split; [done|]. exists extra. unfold sds_at, set_sh_buf. cbn. by rewrite !length_map.
Qed.

(** The loop of the format: a buffer that is large enough is kept, a smaller
    one is doubled. *)
Lemma vsnprintf_fits text n :
  (length text <= n)%nat ->
  exists m, vsnprintf (repeat None n ++ [Some x00; None]) (Z.of_nat (n + 2)) text = Done (mem_of text ++ Some x00 :: m) /\
    mload (mem_of text ++ Some x00 :: m) (Z.of_nat n) = Done x00.
Proof.
  intros Hl. unfold vsnprintf, c_mem. rewrite take_ge by lia. destruct (decide (length text = n)) as [En|].
  - exists [None]. change (repeat None n ++ [Some x00; None] : mem) with (repeat None n ++ [Some x00] ++ [None] : mem).
    rewrite app_assoc, mstore_front by (by rewrite !length_app, length_mem_of, En, repeat_length). split; [by rewrite <- app_assoc|].
    apply mload_app. by rewrite length_mem_of, En.
  - assert (exists k, n = length text + (1 + k))%nat as [k Ek] by (exists (n - length text - 1)%nat; lia).
    exists (repeat None k ++ [Some x00; None]). rewrite Ek, !repeat_app, <- !app_assoc, (app_assoc (repeat None (length text))).
    rewrite mstore_front by (by rewrite !length_app, length_mem_of, !repeat_length). rewrite <- app_assoc. split; [done|].
    cbn [app]. rewrite app_comm_cons, app_assoc. apply mload_app. rewrite length_app, length_mem_of. cbn. rewrite repeat_length. lia.
Qed.

Lemma vsnprintf_cut text n :
  (n < length text)%nat -> x00 ∉ text ->
  exists m b, vsnprintf (repeat None n ++ [Some x00; None]) (Z.of_nat (n + 2)) text = Done m /\
    mload m (Z.of_nat n) = Done b /\ b <> x00.
Proof.
  intros Hl Hn. destruct (lookup_lt_is_Some_2 text n Hl) as [b Hb].
  exists (mem_of (take n text) ++ Some b :: [Some x00]), b. split_and!.
  - unfold vsnprintf, c_mem. replace (Z.to_nat _) with (S n) by lia. rewrite (take_S_r _ _ _ Hb), mem_of_app, <- app_assoc.
    set (old := repeat None n ++ _). rewrite <- (app_nil_r old). subst old.
    rewrite mstore_front; [by rewrite app_nil_r|].
    rewrite !length_app, length_mem_of, length_take, repeat_length. cbn. lia.
  - apply mload_app. rewrite length_mem_of, length_take. lia.
  - intros ->. by apply list_elem_of_lookup_2 in Hb.
Qed.

Lemma printf_loop_ok text fuel : forall buflen,
  x00 ∉ text -> 2 <= buflen < 2 ^ 61 -> Z.of_nat (length text) + 2 <= buflen * 2 ^ Z.of_nat fuel ->
  Z.of_nat (length text) + 2 < 2 ^ 60 -> exists m, printf_loop (S fuel) buflen text = Done (mem_of text ++ Some x00 :: m).
Proof.
  induction fuel as [|fuel IH]; intros buflen Hx Hb Hlt Hmax; [|remember (S fuel) as f eqn:Ef]; cbn [printf_loop].
  all: unfold zmalloc; rewrite zblock_small by lia; cbn [mbind outcome_bind].
  all: assert (exists n, buflen = Z.of_nat (n + 2)) as [n ->] by (exists (Z.to_nat buflen - 2)%nat; lia).
  all: rewrite Nat2Z.id, repeat_app; replace (Z.of_nat (n + 2) - 2) with (Z.of_nat n) by lia.
  all: cbn [repeat]; rewrite mstore_one by (by rewrite repeat_length); cbn [mbind outcome_bind].
  - destruct (vsnprintf_fits text n) as (m & -> & Em); [lia|]. cbn [mbind outcome_bind]. rewrite Em. by exists m.
  - destruct (decide (length text <= n)%nat) as [Hl|Hl].
    + destruct (vsnprintf_fits text n Hl) as (m & -> & Em). cbn [mbind outcome_bind]. rewrite Em. by exists m.
    + destruct (vsnprintf_cut text n) as (m & b & -> & Em & Hb0); [lia|done|]. cbn [mbind outcome_bind]. rewrite Em.
      cbn [mbind outcome_bind]. rewrite bool_decide_false by done. cbn [negb]. subst f.
      rewrite Nat2Z.inj_succ, Z.pow_succ_r in Hlt by lia. apply IH; [done|lia..].
Qed.

Lemma catprintf_yields v s text :
  sds_repr v s -> x00 ∉ text -> Z.of_nat (length (v ++ text)) <= SDS_LIMIT ->
  yields (sdscatprintf s text) (v ++ text).
Proof.
  intros Hs Hn Hv. unfold sdscatprintf. rewrite length_app in Hv. unfold SDS_LIMIT in Hv.
  assert (exists m, printf_loop 60 16 text = Done (mem_of text ++ Some x00 :: m)) as [m ->].
  { apply (printf_loop_ok text 59); [done|lia..]. }
  cbn [mbind outcome_bind].
  unfold sdscat. rewrite strlen_c, c_str_id by done. by apply catlen_yields; rewrite ?length_app.
Qed.

(** ** Trimming *)

Section trim.
Context (cset : bytes).

Fixpoint ltrim (v : bytes) : bytes :=
  match v with
  | [] => []
  | c :: v' => if strchr cset c then ltrim v' else v
  end.

Fixpoint rtrim (v : bytes) : bytes :=
  match v with
  | [] => []
  | c :: v => match rtrim v with [] => if strchr cset c then [] else [c] | w => c :: w end
  end.

Lemma ltrim_split v : exists p, v = p ++ ltrim v.
Proof.
  induction v as [|c v [p IH]]; [by exists []|]. cbn. destruct (strchr cset c); [|by exists []].
  exists (c :: p). cbn. by rewrite <- IH.
Qed.

Lemma rtrim_split v : exists q, v = rtrim v ++ q.
Proof.
  induction v as [|c v [q IH]]; [by exists []|]. cbn. destruct (rtrim v) as [|d w].
  - destruct (strchr cset c); [by eexists|]. exists v. done.
  - exists q. cbn. cbn in IH. by rewrite <- IH.
Qed.

Lemma rtrim_snoc v c : rtrim (v ++ [c]) = if strchr cset c then rtrim v else v ++ [c].
Proof.
  induction v as [|d v IH]; cbn; [by destruct (strchr cset c)|]. rewrite IH.
  destruct (strchr cset c); [done|]. by destruct v.
Qed.

Lemma rtrim_app v w : rtrim w <> [] -> rtrim (v ++ w) = v ++ rtrim w.
Proof.
  intros Hw. induction v as [|c v IH]; [done|]. cbn. rewrite IH. destruct (v ++ rtrim w) eqn:E; [|done].
  by apply app_eq_nil in E as [_ E].
Qed.

(** Trimming from either side finds the same first and last byte. *)
Lemma rtrim_nil v : rtrim v = [] <-> ltrim v = [].
Proof.
  induction v as [|c v IH]; cbn; [done|]. destruct (strchr cset c).
  - rewrite <- IH. by destruct (rtrim v).
  - by destruct (rtrim v).
Qed.

Lemma rtrim_ltrim_nil v : rtrim (ltrim v) = [] -> ltrim v = [].
Proof.
  rewrite rtrim_nil. assert (E : ltrim (ltrim v) = ltrim v); [|by rewrite E].
  induction v as [|c v IH]; cbn; [done|]. destruct (strchr cset c) eqn:E; [done|]. cbn. by rewrite E.
Qed.

Lemma trim_left_ok m b : forall a fuel,
  (length b <= fuel)%nat ->
  trim_left fuel cset (mem_of (a ++ b) ++ m) (Z.of_nat (length a)) (Z.of_nat (length (a ++ b)) - 1) =
    Done (Z.of_nat (length (a ++ b)) - Z.of_nat (length (ltrim b))).
Proof.
  induction b as [|c b IH]; intros a [|fuel] Hf; cbn [length] in Hf; try lia; cbn [trim_left ltrim].
  - rewrite app_nil_r. f_equal. cbn. lia.
  - rewrite app_nil_r. replace (_ <=? _) with false by (symmetry; apply Z.leb_gt; lia). f_equal. cbn. lia.
  - replace (_ <=? _) with true by (symmetry; apply Z.leb_le; rewrite length_app; cbn; lia).
    rewrite mem_of_app, <- app_assoc. cbn [mem_of map app]. rewrite mload_app by (by rewrite length_mem_of).
    cbn [mbind outcome_bind]. destruct (strchr cset c); [|rewrite length_app; f_equal; lia].
    specialize (IH (a ++ [c]) fuel ltac:(lia)). rewrite <- !app_assoc in IH. cbn [app] in IH.
    rewrite mem_of_app, <- app_assoc in IH. cbn [mem_of map app] in IH. rewrite <- IH. f_equal.
    rewrite length_app. cbn. lia.
Qed.

Lemma trim_right_ok v : forall m fuel,
  (length v <= fuel)%nat -> v <> [] ->
  trim_right fuel cset (mem_of v ++ m) (Z.of_nat (length v) - 1) = Done (Z.max 0 (Z.of_nat (length (rtrim v)) - 1)).
Proof.
  induction v as [|c v IH] using rev_ind; intros m [|fuel] Hf Hv; [done..| |].
  { rewrite length_app in Hf. cbn in Hf. lia. }
  rewrite length_app in Hf. cbn in Hf. cbn [trim_right]. rewrite rtrim_snoc, length_app. cbn [length].
  replace (Z.of_nat (length v + 1) - 1) with (Z.of_nat (length v)) by lia.
  destruct (decide (v = [])) as [->|Hne].
  - cbn [length Z.of_nat]. rewrite Z.ltb_irrefl. by destruct (strchr cset c).
  - assert (0 < length v)%nat by (by destruct v; [|cbn; lia]).
    replace (0 <? _) with true by (symmetry; apply Z.ltb_lt; lia).
    rewrite mem_of_app, <- app_assoc. cbn [mem_of map app]. rewrite mload_app by (by rewrite length_mem_of).
    cbn [mbind outcome_bind]. destruct (strchr cset c); [|rewrite length_app; cbn; f_equal; lia].
    by apply IH; [lia|].
Qed.

Lemma trim_yields v s : sds_repr v s -> yields (sdstrim s cset) (rtrim (ltrim v)).
Proof.
  intros Hs. destruct (id Hs) as (extra & -> & Hc). unfold sdstrim. rewrite sdslen_at, Nat2Z.id by done.
  cbn [sds_at sh_buf]. pose proof (trim_left_ok (Some x00 :: extra) v [] (length v) ltac:(lia)) as El.
  cbn [app length] in El. change (Z.of_nat 0) with 0 in El. rewrite El. cbn [mbind outcome_bind].
  destruct (ltrim_split v) as [p Ep]. destruct (rtrim_split (ltrim v)) as [q Eq].
  destruct (decide (v = [])) as [->|Hv]; [by apply (keep_yields [] [] [])|].
  rewrite trim_right_ok by done. cbn [mbind outcome_bind]. fold (sds_at v extra).
  assert (0 < length v)%nat by (by destruct v; [|cbn; lia]).
  destruct (decide (ltrim v = [])) as [En|En].
  - rewrite En. assert (rtrim v = []) as -> by (by apply rtrim_nil). cbn [length].
    replace (_ <? _) with true by (symmetry; apply Z.ltb_lt; lia). rewrite Z.sub_0_r.
    apply (keep_yields v [] []). by rewrite app_nil_r.
  - assert (Hr : rtrim (ltrim v) <> []) by (intros Hr; by apply En, rtrim_ltrim_nil).
    assert (Erv : length (rtrim v) = (length p + length (rtrim (ltrim v)))%nat).
    { rewrite Ep at 1. by rewrite rtrim_app, length_app. }
    assert (Elv : length v = (length p + length (ltrim v))%nat) by (rewrite Ep at 1; by rewrite length_app).
    assert (0 < length (rtrim (ltrim v)))%nat by (by destruct (rtrim (ltrim v)); [|cbn; lia]).
    replace (_ <? _) with false by (symmetry; apply Z.ltb_ge; lia).
    replace (Z.of_nat (length v) - _) with (Z.of_nat (length p)) by lia.
    replace (_ + 1) with (Z.of_nat (length (rtrim (ltrim v)))) by lia.
    apply (keep_yields p _ q). rewrite <- Eq, <- Ep. done.
Qed.
End trim.

(** ** Ranges *)

Definition clip (n i : Z) : Z := if i <? 0 then Z.max 0 (n + i) else i.

(** The bytes from index [i] to index [j], both counted from the end when
    negative. *)
Definition range_spec (v : bytes) (i j : Z) : bytes :=
  let n := Z.of_nat (length v) in
  let a := clip n i in
  let b := clip n j in
  if (b <? a) || (n <=? a) then [] else take (Z.to_nat (Z.min b (n - 1) - a + 1)) (drop (Z.to_nat a) v).

Lemma i32_u64 z : i32 (u64 z) = i32 z.
Proof.
  unfold i32, u64. f_equal. rewrite (Z.div_mod z (2 ^ 64)) at 2 by lia.
  replace (2 ^ 64 * (z / 2 ^ 64) + z mod 2 ^ 64 + 2 ^ 31) with (z mod 2 ^ 64 + 2 ^ 31 + (z / 2 ^ 64 * 2 ^ 32) * 2 ^ 32) by lia.
  by rewrite Z.mod_add by lia.
Qed.

Lemma range_index_clip n i : 0 <= n < 2 ^ 31 -> - 2 ^ 31 <= i < 2 ^ 31 -> range_index n i = clip n i.
Proof.
  intros Hn Hi. unfold range_index, clip. destruct (i <? 0) eqn:E; [apply Z.ltb_lt in E|done].
  rewrite i32_u64, i32_id by lia. destruct (n + i <? 0) eqn:E'; [apply Z.ltb_lt in E'|apply Z.ltb_ge in E']; lia.
Qed.

(** The one overflow is the range of all [2 ^ 31] indices. *)
Lemma range_len_ok a b :
  0 <= a < 2 ^ 31 -> 0 <= b < 2 ^ 31 -> ~ (a = 0 /\ b = 2 ^ 31 - 1) ->
  range_len a b = Done (if b <? a then 0 else b - a + 1).
Proof.
  intros Ha Hb Hx. unfold range_len. destruct (b <? a) eqn:E; [done|apply Z.ltb_ge in E].
  rewrite int_range_ok by lia. cbn [mbind outcome_bind]. apply int_range_ok. lia.
Qed.

Lemma keep_range v s a k :
  sds_repr v s -> (a + k <= length v)%nat -> yields (keep_bytes s (Z.of_nat a) (Z.of_nat k)) (take k (drop a v)).
Proof.
  intros Hs Hk. assert (Ea : length (take a v) = a) by (rewrite length_take; lia).
  assert (Ek : length (take k (drop a v)) = k) by (rewrite length_take, length_drop; lia).
  rewrite <- Ea at 1. rewrite <- Ek at 1. apply (keep_yields _ _ (drop k (drop a v))). by rewrite !take_drop.
Qed.

Lemma range_yields v s i j :
  sds_repr v s -> - 2 ^ 31 <= i < 2 ^ 31 -> - 2 ^ 31 <= j < 2 ^ 31 ->
  ~ (clip (Z.of_nat (length v)) i = 0 /\ j = 2 ^ 31 - 1) -> yields (sdsrange s i j) (range_spec v i j).
Proof.
  intros Hs Hi Hj Hx. destruct (id Hs) as (extra & -> & Hc). unfold SDS_CAP in Hc. unfold sdsrange.
  rewrite sdslen_at by (unfold SDS_CAP; lia). set (n := Z.of_nat (length v)) in *.
  destruct (n =? 0) eqn:E0; [apply Z.eqb_eq in E0|apply Z.eqb_neq in E0].
  { destruct v; [|by subst n]. unfold range_spec.
    assert (E : forall c : bool, (if c then [] else take (Z.to_nat (Z.min (clip n j) (n - 1) - clip n i + 1)) (drop (Z.to_nat (clip n i)) []))
      = ([] : bytes)) by (intros []; by rewrite ?drop_nil, ?take_nil). unfold n in E. rewrite E. by eexists. }
  rewrite !range_index_clip by lia. unfold range_spec. fold n.
  assert (Ha : 0 <= clip n i < 2 ^ 31) by (unfold clip; destruct (i <? 0) eqn:Ei; rewrite ?Z.ltb_lt, ?Z.ltb_ge in Ei; lia).
  assert (Hb : 0 <= clip n j < 2 ^ 31) by (unfold clip; destruct (j <? 0) eqn:Ej; rewrite ?Z.ltb_lt, ?Z.ltb_ge in Ej; lia).
  assert (Hab : ~ (clip n i = 0 /\ clip n j = 2 ^ 31 - 1)).
  { intros [Ei Ej]. apply Hx. split; [done|]. unfold clip in Ej. destruct (j <? 0) eqn:E; [apply Z.ltb_lt in E; lia|done]. }
  set (a := clip n i) in *. set (b := clip n j) in *. clearbody a b. rewrite (range_len_ok a b) by done. cbn [mbind outcome_bind].
  rewrite (i32_id n), (i32_id (n - 1)) by lia. pose proof (keep_range v (sds_at v extra)) as Hkeep.
  destruct (b <? a) eqn:Eba; [by apply (Hkeep 0%nat 0%nat Hs); lia|apply Z.ltb_ge in Eba].
  replace (b - a + 1 =? 0) with false by (symmetry; apply Z.eqb_neq; lia). cbn [negb orb].
  destruct (n <=? a) eqn:Ena; [apply Z.leb_le in Ena|apply Z.leb_gt in Ena].
  { cbn [mbind outcome_bind]. rewrite orb_true_r. by apply (Hkeep 0%nat 0%nat Hs); lia. }
  destruct (n <=? b) eqn:Enb; [apply Z.leb_le in Enb|apply Z.leb_gt in Enb].
  - rewrite range_len_ok by lia. cbn [mbind outcome_bind].
    replace (n - 1 <? a) with false by (symmetry; apply Z.ltb_ge; lia).
    replace (n - 1 - a + 1 =? 0) with false by (symmetry; apply Z.eqb_neq; lia). rewrite orb_false_r.
    replace (Z.min b (n - 1)) with (n - 1) by lia.
    replace (if a =? 0 then 0 else a) with a by (destruct (Z.eqb_spec a 0); lia).
    rewrite <- (Z2Nat.id a) at 1 by lia. rewrite <- (Z2Nat.id (n - 1 - a + 1)) at 1 by lia. apply Hkeep; [done|lia].
  - cbn [mbind outcome_bind]. replace (b - a + 1 =? 0) with false by (symmetry; apply Z.eqb_neq; lia). rewrite orb_false_r.
    replace (Z.min b (n - 1)) with b by lia.
    replace (if a =? 0 then 0 else a) with a by (destruct (Z.eqb_spec a 0); lia).
    rewrite <- (Z2Nat.id a) at 1 by lia. rewrite <- (Z2Nat.id (b - a + 1)) at 1 by lia. apply Hkeep; [done|lia].
Qed.

(** ** Quoting *)

Definition quote_char (c : byte) : bytes :=
  match c with
  | x5c | x22 => [x5c; c]
  | x0a => [x5c; "n"%byte]
  | x0d => [x5c; "r"%byte]
  | x09 => [x5c; "t"%byte]
  | x07 => [x5c; "a"%byte]
  | x08 => [x5c; "b"%byte]
  | _ => if isprint c then [c] else hex_text c
  end.

Definition quote (p : bytes) : bytes := x22 :: flat_map quote_char p ++ [x22].

Lemma quote_char_no_nul c : x00 ∉ quote_char c.
Proof.
  assert (E : forallb (fun b => negb (eq_char x00 b)) (quote_char c) = true) by (destruct c; reflexivity).
  rewrite forallb_forall in E. intros Hin%list_elem_of_In%E. done.
Qed.

Lemma quote_char_length c : (1 <= length (quote_char c))%nat.
Proof. destruct c; cbn; lia. Qed.

Lemma quote_length p : (length p + 2 <= length (quote p))%nat.
Proof.
  unfold quote. cbn [length]. rewrite length_app. cbn [length].
  enough (length p <= length (flat_map quote_char p))%nat by lia.
  induction p as [|c p IH]; [done|]. cbn. rewrite length_app. pose proof (quote_char_length c). lia.
Qed.

Lemma catrepr_char_text s c :
  catrepr_char s c = sdscatprintf s (quote_char c) \/
  catrepr_char s c = sdscatlen s (c_mem (quote_char c)) (Z.of_nat (length (quote_char c))).
Proof. destruct c; (left; reflexivity) || (right; reflexivity). Qed.

Lemma catrepr_char_yields v s c :
  sds_repr v s -> Z.of_nat (length (v ++ quote_char c)) <= SDS_LIMIT -> yields (catrepr_char s c) (v ++ quote_char c).
Proof.
  intros Hs Hl. destruct (catrepr_char_text s c) as [-> | ->].
  - by apply catprintf_yields; [|apply quote_char_no_nul|].
  - by apply cat_c_yields.
Qed.

Lemma catrepr_loop_yields p : forall v s,
  sds_repr v s -> Z.of_nat (length (v ++ flat_map quote_char p)) <= SDS_LIMIT ->
  yields (catrepr_loop s p) (v ++ flat_map quote_char p).
Proof.
  induction p as [|c p IH]; intros v s Hs Hl; cbn [catrepr_loop flat_map] in *.
  - rewrite app_nil_r. by eexists.
  - rewrite app_assoc in *. eapply yields_bind; [|intros s' Hs'; by apply IH]. apply catrepr_char_yields; [done|].
    rewrite length_app in Hl. lia.
Qed.

Lemma catrepr_yields v s p :
  sds_repr v s -> Z.of_nat (length (v ++ quote p)) <= SDS_LIMIT -> yields (sdscatrepr s p) (v ++ quote p).
Proof.
  intros Hs Hl. assert (E : v ++ quote p = ((v ++ [x22]) ++ flat_map quote_char p) ++ [x22])
    by (unfold quote; by rewrite <- !app_assoc). rewrite E in *. clear E.
  rewrite !length_app in Hl. cbn in Hl. unfold sdscatrepr.
  eapply yields_bind; [apply (cat_c_yields v s [x22] Hs); rewrite length_app; cbn; lia|]. intros s1 H1.
  eapply yields_bind; [apply (catrepr_loop_yields p _ _ H1); rewrite !length_app; cbn; lia|]. intros s2 H2.
  apply (cat_c_yields _ s2 [x22] H2). rewrite !length_app. cbn. lia.
Qed.

(** *** Reading it back *)

Lemma token_quote_char cur c rest :
  exists p, token_step In_quotes cur (quote_char c ++ rest)
    = (cur ← sdscatlen cur [Some c] 1; Done (Some (In_quotes, cur, p, false))) /\ advance_p p = Done rest.
Proof. destruct c; (eexists; split; [reflexivity|reflexivity]). Qed.

(** What follows a token: the end of the line, or a space and more. *)
Definition is_sep (p : bytes) : Prop := p = [x00] \/ exists rest, p = " "%byte :: rest.

Lemma token_close cur p :
  is_sep p -> token_step In_quotes cur (x22 :: p) = Done (Some (In_quotes, cur, x22 :: p, true)).
Proof. by intros [-> |[rest ->]]. Qed.

Lemma get_token_quoted p : forall fuel cur v rest,
  sds_repr v cur -> Z.of_nat (length v + length p) <= SDS_LIMIT -> (length p < fuel)%nat -> is_sep rest ->
  exists cur', get_token fuel In_quotes cur (flat_map quote_char p ++ x22 :: rest) = Done (Some (cur', rest)) /\
    sds_repr (v ++ p) cur'.
Proof.
  induction p as [|c p IH]; intros [|fuel] cur v rest Hs Hl Hf Hr; cbn [length] in *; try lia; cbn [get_token flat_map].
  - cbn [app]. rewrite (token_close cur rest Hr). cbn [mbind outcome_bind]. exists cur. rewrite app_nil_r. split; [done|done].
  - rewrite <- app_assoc. destruct (token_quote_char cur c (flat_map quote_char p ++ x22 :: rest)) as (p' & -> & Ep).
    destruct (cat_char_yields v cur c Hs) as (s & -> & Hs'); [lia|]. cbn [mbind outcome_bind]. rewrite Ep. cbn [mbind outcome_bind].
    destruct (IH fuel s (v ++ [c]) rest Hs') as (cur' & E & Hc'); [rewrite length_app; cbn; lia|lia|done|].
    exists cur'. split; [done|]. by rewrite <- app_assoc in Hc'.
Qed.

(** The rest of a line of quoted arguments. *)
Definition args_tail (ps : list bytes) : bytes :=
  flat_map (fun p => " "%byte :: quote p) ps ++ [x00].

Lemma args_tail_cons p ps : args_tail (p :: ps) = " "%byte :: quote p ++ args_tail ps.
Proof. unfold args_tail. cbn [flat_map]. by rewrite <- app_assoc. Qed.

Lemma args_tail_sep ps : is_sep (args_tail ps).
Proof. destruct ps; [by left|right; by eexists]. Qed.

Lemma split_args_tail ps : forall fuel vector,
  Forall (fun p => Z.of_nat (length p) <= SDS_LIMIT) ps -> (length ps < fuel)%nat ->
  exists toks, split_args_loop fuel vector (args_tail ps) = Done (Some (vector ++ toks)) /\ Forall2 sds_repr ps toks.
Proof.
  induction ps as [|p ps IH]; intros [|fuel] vector Hl Hf; cbn [length] in *; try lia.
  - exists []. by rewrite app_nil_r.
  - apply Forall_cons in Hl as [Hp Hl]. destruct empty_yields as (e & Ee & He).
    assert (E : args_tail (p :: ps) = " "%byte :: x22 :: flat_map quote_char p ++ x22 :: args_tail ps).
    { rewrite args_tail_cons. unfold quote. cbn [app]. by rewrite <- app_assoc. }
    rewrite E. cbn [split_args_loop]. change (skip_blanks (" "%byte :: x22 :: ?q)) with (Done (x22 :: q)).
    cbn [mbind outcome_bind char_at]. change (char_at (x22 :: ?q) 0) with (Done x22). cbn [mbind outcome_bind].
    change (negb (eq_char x00 x22)) with true. cbv iota. rewrite Ee. cbn [mbind outcome_bind]. cbn [get_token].
    change (token_step Unquoted e (x22 :: ?q)) with (Done (Some (In_quotes, e, x22 :: q, false))). cbn [mbind outcome_bind].
    change (advance_p (x22 :: ?q)) with (Done q). cbn [mbind outcome_bind].
    destruct (get_token_quoted p (length (x22 :: flat_map quote_char p ++ x22 :: args_tail ps)) e [] (args_tail ps) He)
      as (t & -> & Ht); [cbn; lia| |apply args_tail_sep|].
    { pose proof (quote_length p) as Hq. unfold quote in Hq. cbn in *. rewrite length_app in *. cbn in *. lia. }
    cbn [mbind outcome_bind]. destruct (IH fuel (vector ++ [t]) Hl) as (toks & -> & Htoks); [lia|].
    exists (t :: toks). rewrite <- app_assoc. split; [done|]. by constructor.
Qed.

Lemma join_quotes p ps : " "%byte :: join (map quote (p :: ps)) " " ++ [x00] = args_tail (p :: ps).
Proof.
  revert p. induction ps as [|p' ps IH]; intros p; rewrite args_tail_cons; [done|].
  change (join (map quote (p :: p' :: ps)) " ") with (quote p ++ " "%byte :: join (map quote (p' :: ps)) " ").
  by rewrite <- IH, <- app_assoc.
Qed.

Lemma args_line ps :
  Forall (fun p => Z.of_nat (length p) <= SDS_LIMIT) ps ->
  exists toks, sdssplitargs (join (map quote ps) " " ++ [x00]) = Done (Some toks) /\ Forall2 sds_repr ps toks.
Proof.
  intros Hl. unfold sdssplitargs. destruct ps as [|p ps]; [by exists []|].
  set (line := join _ _ ++ [x00]).
  assert (E : forall fuel, split_args_loop (S fuel) [] line = split_args_loop (S fuel) [] (" "%byte :: line)) by done.
  rewrite E. subst line. rewrite join_quotes. apply (split_args_tail (p :: ps) _ []); [done|].
  assert (Hlen : forall ps, (length ps < length (args_tail ps))%nat).
  { intros l. unfold args_tail. rewrite length_app. induction l as [|q l IH]; cbn in *; [lia|]. rewrite !length_app in *. cbn in *. lia. }
  specialize (Hlen (p :: ps)). rewrite <- join_quotes in Hlen. cbn in *. lia.
Qed.

(** ** Splitting at a separator *)

Fixpoint join_with (sep : bytes) (vs : list bytes) : bytes :=
  match vs with
  | [] => []
  | [v] => v
  | v :: vs => v ++ sep ++ join_with sep vs
  end.

Lemma join_with_cons sep v vs : vs <> [] -> join_with sep (v :: vs) = v ++ sep ++ join_with sep vs.
Proof. by destruct vs. Qed.

Section splitlen.
Context (s sep : bytes) (Hsep : sep <> []) (Hs : Z.of_nat (length s) <= 2 ^ 29).

(** No separator begins before the end of [cur]. *)
Definition no_sep (cur rest : bytes) : Prop := forall a b, cur ++ rest = a ++ sep ++ b -> (length cur <= length a)%nat.

Lemma no_sep_token cur rest : no_sep cur rest -> forall a b, cur <> a ++ sep ++ b.
Proof.
  intros Hn a b E. specialize (Hn a (b ++ rest)). rewrite E, <- !app_assoc in Hn. specialize (Hn eq_refl).
  rewrite !length_app in Hn. destruct sep; [done|cbn in Hn; lia].
Qed.

Lemma no_sep_snoc cur c rest :
  no_sep cur (c :: rest) -> take (length sep) (c :: rest) <> sep -> no_sep (cur ++ [c]) rest.
Proof.
  intros Hn Hc a b E. rewrite <- app_assoc in E. cbn [app] in E. pose proof (Hn a b E) as Hle. rewrite length_app. cbn.
  destruct (decide (length cur = length a)) as [El|]; [|lia].
  apply app_inj_1 in E as [_ E]; [|done]. rewrite E, take_app_length in Hc. done.
Qed.

Lemma splitlen_loop_ok fuel : forall pre cur rest slots tokens,
  s = pre ++ cur ++ rest -> (length rest < fuel)%nat -> no_sep cur rest ->
  (length tokens <= length pre)%nat -> Z.of_nat (length tokens) + 1 <= slots <= 2 ^ 30 ->
  exists vs ts, splitlen_loop fuel s sep (Z.of_nat (length s)) (Z.of_nat (length sep)) slots
      (Z.of_nat (length pre)) (Z.of_nat (length pre + length cur)) tokens = Done (tokens ++ ts) /\
    Forall2 sds_repr vs ts /\ vs <> [] /\ join_with sep vs = cur ++ rest /\
    Forall (fun v => forall a b, v <> a ++ sep ++ b) vs.
Proof.
  induction fuel as [|fuel IH]; intros pre cur rest slots tokens E Hf Hn Ht Hsl; [lia|]. cbn [splitlen_loop].
  assert (El : length s = (length pre + (length cur + length rest))%nat) by (by rewrite E, !length_app).
  assert (Hsep1 : (1 <= length sep)%nat) by (destruct sep; [done|cbn; lia]).
  assert (Ed : drop (Z.to_nat (Z.of_nat (length pre))) s = cur ++ rest) by (by rewrite Nat2Z.id, E, drop_app_length).
  assert (Edj : drop (Z.to_nat (Z.of_nat (length pre + length cur))) s = rest)
    by (by rewrite Nat2Z.id, E, app_assoc, <- length_app, drop_app_length).
  rewrite Ed, mem_of_app. destruct (_ <? _) eqn:Ej; [apply Z.ltb_lt in Ej|apply Z.ltb_ge in Ej].
  - set (slots' := if slots <? Z.of_nat (length tokens) + 2 then slots * 2 else slots).
    assert ((if slots <? Z.of_nat (length tokens) + 2 then int_range (slots * 2) else Done slots) = Done slots' /\
      Z.of_nat (length tokens) + 2 <= slots' <= 2 ^ 30) as [-> Hsl'].
    { subst slots'. destruct (_ <? _) eqn:E2; [apply Z.ltb_lt in E2|apply Z.ltb_ge in E2]; [rewrite int_range_ok by lia|]; split; (done || lia). }
    cbn [mbind outcome_bind]. clearbody slots'. clear Hsl. rewrite !read_at_Done by lia. cbn [mbind outcome_bind].
    rewrite Edj, !Nat2Z.id. change (drop 0 sep) with sep. rewrite take_ge with (l := sep) by lia. destruct rest as [|c rest]; [cbn in *; lia|]. case_bool_decide as Hm.
    + destruct (newlen_yields cur (mem_of (c :: rest)) (Z.of_nat (length pre + length cur) - Z.of_nat (length pre)))
        as (t & Et & Hrt); [lia|unfold SDS_LIMIT; lia|]. rewrite Et. cbn [mbind outcome_bind].
      unfold push_token. replace (_ <? _) with true by (symmetry; apply Z.ltb_lt; lia). cbn [mbind outcome_bind].
      pose proof (take_drop (length sep) (c :: rest)) as Er. rewrite Hm in Er. set (rest' := drop (length sep) (c :: rest)) in *.
      assert (Elr : length (c :: rest) = (length sep + length rest')%nat) by (by rewrite <- Er, length_app).
      destruct (IH (pre ++ cur ++ sep) [] rest' slots' (tokens ++ [t])) as (vs & ts & Eq & H1 & H2 & H3 & H4).
      * by rewrite E, <- Er, <- !app_assoc.
      * cbn in *. lia.
      * intros a b _. cbn. lia.
      * rewrite !length_app. cbn. lia.
      * rewrite length_app. cbn. lia.
      * exists (cur :: vs), (t :: ts). split_and!; [| |done| |].
        -- rewrite !length_app in Eq. cbn in Eq. rewrite <- app_assoc in Eq. cbn [app] in Eq. rewrite <- Eq. f_equal; lia.
        -- by constructor.
        -- rewrite join_with_cons, H3 by done. cbn [app]. by rewrite <- Er.
        -- constructor; [by eapply no_sep_token|done].
    + destruct (IH pre (cur ++ [c]) rest slots' tokens) as (vs & ts & Eq & H1 & H2 & H3 & H4); [| | |done|lia|].
      * by rewrite E, <- !app_assoc.
      * cbn in *. lia.
      * by apply no_sep_snoc.
      * exists vs, ts. split_and!; [|done|done|by rewrite H3, <- app_assoc|done].
        rewrite <- Eq. f_equal. rewrite length_app. cbn. lia.
  - destruct (newlen_yields (cur ++ rest) [] (Z.of_nat (length s) - Z.of_nat (length pre))) as (t & Et & Hrt);
      [rewrite length_app; lia|unfold SDS_LIMIT; lia|].
    rewrite app_nil_r, mem_of_app in Et. rewrite Et. cbn [mbind outcome_bind]. unfold push_token.
    replace (_ <? _) with true by (symmetry; apply Z.ltb_lt; lia). exists [cur ++ rest], [t]. split_and!; [done| |done|done|].
    + by constructor.
    + constructor; [|done]. intros a b Eab. pose proof (Hn a b Eab) as Hle.
      assert (length (cur ++ rest) = length (a ++ sep ++ b)) as Ell by (by rewrite Eab). rewrite !length_app in Ell. lia.
Qed.

Lemma splitlen_ok :
  s <> [] ->
  exists vs ts, sdssplitlen s (Z.of_nat (length s)) sep (Z.of_nat (length sep)) = Done (Some ts) /\
    Forall2 sds_repr vs ts /\ join_with sep vs = s /\ Forall (fun v => forall a b, v <> a ++ sep ++ b) vs.
Proof.
  intros Hne. assert (1 <= length sep)%nat by (destruct sep; [done|cbn; lia]). assert (1 <= length s)%nat by (destruct s; [done|cbn; lia]).
  unfold sdssplitlen. replace (_ || _) with false by (symmetry; rewrite orb_false_iff, !Z.ltb_ge; lia).
  replace (_ =? 0) with false by (symmetry; apply Z.eqb_neq; lia). rewrite Nat2Z.id.
  destruct (splitlen_loop_ok (length s + 1) [] [] s 5 []) as (vs & ts & Eq & H1 & _ & H3 & H4); [done|lia| |cbn; lia..|].
  - intros a b _. cbn. lia.
  - cbn [length Nat.add] in Eq. change (Z.of_nat 0) with 0 in Eq. rewrite Eq. by exists vs, ts.
Qed.
End splitlen.

(** ** Numbers *)

Lemma longlong_digits_ok k : forall fuel f p suf v,
  0 <= v < 10 ^ Z.of_nat k -> (1 <= k)%nat -> (k <= S p)%nat -> (k <= fuel)%nat -> v < 2 ^ Z.of_nat f -> (1 <= f)%nat ->
  exists q, longlong_digits fuel (repeat None (S p) ++ mem_of suf) (Z.of_nat p) v
      = Done (repeat None q ++ mem_of (dec_digits f v ++ suf), Z.of_nat q - 1) /\
    (q + length (dec_digits f v) = S p)%nat /\ (length (dec_digits f v) <= k)%nat.
Proof.
  induction k as [|k IH]; intros [|fuel] [|f] p suf v Hv Hk Hp Hf Hvf Hf1; try lia.
  cbn [longlong_digits dec_digits].
  assert (E : mstore (repeat None (S p) ++ mem_of suf) (Z.of_nat p) [Some (digit (v mod 10))]
    = Done (repeat None p ++ mem_of (digit (v mod 10) :: suf))).
  { replace (S p) with (p + 1)%nat by lia. rewrite repeat_app, <- app_assoc. cbn [repeat app].
    apply mstore_one. by rewrite repeat_length. }
  rewrite E. cbn [mbind outcome_bind]. destruct (v <? 10) eqn:E10; [apply Z.ltb_lt in E10|apply Z.ltb_ge in E10].
  - rewrite Z.div_small, Z.mod_small by lia. cbn [Z.eqb]. exists p. cbn. split_and!; [done|lia|lia].
  - assert (Hd : 1 <= v / 10) by (apply Z.div_le_lower_bound; lia).
    replace (v / 10 =? 0) with false by (symmetry; apply Z.eqb_neq; lia).
    rewrite Nat2Z.inj_succ, Z.pow_succ_r in Hv by lia. rewrite Nat2Z.inj_succ, Z.pow_succ_r in Hvf by lia.
    assert (Hv10 : v / 10 < 10 ^ Z.of_nat k) by (apply Z.div_lt_upper_bound; lia).
    assert (Hvf' : v / 10 < 2 ^ Z.of_nat f) by (apply Z.div_lt_upper_bound; lia).
    destruct k as [|k]; [cbn in Hv10; lia|]. destruct f as [|f]; [cbn in Hvf'; lia|]. destruct p as [|p]; [lia|].
    destruct (IH fuel (S f) p (digit (v mod 10) :: suf) (v / 10)) as (q & Eq & Hq1 & Hq2); [lia..|].
    exists q. replace (Z.of_nat (S p) - 1) with (Z.of_nat p) by lia. rewrite Eq, <- app_assoc, !length_app.
    split_and!; [done|cbn [length]; lia|cbn [length]; lia].
Qed.

Lemma fromlonglong_yields v : - 2 ^ 63 < v < 2 ^ 63 -> yields (sdsfromlonglong v) (to_string v).
Proof.
  intros Hv. unfold sdsfromlonglong. set (a := Z.abs v).
  assert (E : (if v <? 0 then if v =? - 2 ^ 63 then Undef signed_overflow else Done (- v) else Done v) = Done a).
  { subst a. destruct (v <? 0) eqn:E; [apply Z.ltb_lt in E|apply Z.ltb_ge in E]; [|f_equal; lia].
    replace (v =? _) with false by (symmetry; apply Z.eqb_neq; lia). f_equal. lia. }
  rewrite E. cbn [mbind outcome_bind].
  destruct (longlong_digits_ok 20 33 (S (Z.to_nat (Z.log2 a))) 31 [] a) as (q & Eq & Hq1 & Hq2); [lia|lia|lia|lia| |lia|].
  { rewrite Nat2Z.inj_succ, Z2Nat.id by apply Z.log2_nonneg. destruct (decide (a = 0)) as [->|]; [done|]. apply Z.log2_spec. lia. }
  cbn [mem_of map] in Eq. rewrite app_nil_r in Eq. change (Z.of_nat 31) with 31 in Eq. rewrite Eq. cbn [mbind outcome_bind].
  set (ds := dec_digits _ a) in *. rewrite app_nil_r. unfold to_string.
  destruct (v <? 0) eqn:Ev; [apply Z.ltb_lt in Ev|apply Z.ltb_ge in Ev].
  - destruct q as [|q]; [lia|]. replace (S q) with (q + 1)%nat by lia. rewrite repeat_app, <- app_assoc. cbn [repeat app].
    replace (Z.of_nat (q + 1) - 1) with (Z.of_nat q) by lia.
    rewrite mstore_one by (by rewrite repeat_length). cbn [mbind outcome_bind].
    replace (Z.of_nat q - 1 + 1) with (Z.of_nat q) by lia. rewrite Nat2Z.id, drop_app_length' by (by rewrite repeat_length).
    replace (- v) with a by lia. fold ds. rewrite <- (app_nil_r (Some _ :: _)).
    apply (newlen_yields ("-"%byte :: ds) []); [cbn [length]; lia|unfold SDS_LIMIT; lia].
  - cbn [mbind outcome_bind]. replace (Z.of_nat q - 1 + 1) with (Z.of_nat q) by lia.
    rewrite Nat2Z.id, drop_app_length' by (by rewrite repeat_length). replace v with a by lia. fold ds.
    rewrite <- (app_nil_r (mem_of ds)). apply newlen_yields; [lia|unfold SDS_LIMIT; lia].
Qed.

(** ** Comparison *)

Lemma memcmp_take a b :
  memcmp (take (length b) a) (take (length a) b) = 0 <-> take (length b) a = take (length a) b.
Proof.
  revert b. induction a as [|x a IH]; intros [|y b]; cbn; [done..|]. case_bool_decide as Exy.
  - subst y. rewrite IH. split; [by intros ->|by intros [= ->]].
  - split; [|by intros [= -> _]]. intros E. exfalso. by apply Exy, byte_z_inj, Z.sub_move_0_r.
Qed.

Lemma cmp_equal v w s t :
  sds_repr v s -> sds_repr w t -> exists c, sdscmp s t = Done c /\ (c = 0 <-> v = w).
Proof.
  intros (ex & -> & Hv) (ey & -> & Hw). unfold sdscmp. rewrite !sdslen_at by done. unfold SDS_CAP in *.
  set (n := if _ <? _ then _ else _).
  assert (En : n = Z.of_nat (Nat.min (length v) (length w)))
    by (subst n; destruct (_ <? _) eqn:E; [apply Z.ltb_lt in E|apply Z.ltb_ge in E]; lia).
  assert (Hread : forall u e k, (k <= length u)%nat -> mread (sh_buf (sds_at u e)) 0 (Z.of_nat k) = Done (take k u)).
  { intros u e k Hk. unfold mread. cbn [sds_at sh_buf]. rewrite <- (take_drop k u) at 1. rewrite mem_of_app, <- app_assoc.
    rewrite mslice_front by (rewrite length_mem_of, length_take; lia). apply cells_bytes_mem_of. }
  rewrite En, !Hread by lia. cbn [mbind outcome_bind].
  replace (take (Nat.min (length v) (length w)) v) with (take (length w) v)
    by (destruct (Nat.min_spec (length v) (length w)) as [[Hm ->]|[Hm ->]]; [rewrite !take_ge by lia|]; done).
  replace (take (Nat.min (length v) (length w)) w) with (take (length v) w)
    by (destruct (Nat.min_spec (length v) (length w)) as [[Hm ->]|[Hm ->]]; [|rewrite !take_ge by lia]; done).
  eexists. split; [done|]. rewrite i32_u64, i32_id by lia.
  pose proof (memcmp_take v w) as Hc. destruct (memcmp _ _ =? 0) eqn:E; [apply Z.eqb_eq in E|apply Z.eqb_neq in E].
  - split; [|by intros ->; lia]. intros El. apply Hc in E. rewrite !take_ge in E by lia. done.
  - split; [done|]. intros ->. exfalso. by apply E, Hc.
Qed.

(** ** The library as a type of byte strings *)

Inductive sds_op : Type :=
  | OpClear
  | OpUpdateLen
  | OpMakeRoom (addlen : Z)
  | OpRemoveFreeSpace
  | OpFill (addlen : Z) (data : bytes)
  | OpShorten (n : nat)
  | OpGrowZero (len : Z)
  | OpCat (w : bytes)
  | OpCatString (w : bytes)
  | OpCopy (w : bytes)
  | OpPrintf (text : bytes)
  | OpTrim (cset : bytes)
  | OpRange (start end_ : Z)
  | OpToLower
  | OpToUpper
  | OpMapChars (from to : bytes)
  | OpCatRepr (p : bytes)
  | OpDup.

Definition op_run (op : sds_op) (s : sdshdr) : outcome sdshdr :=
  match op with
  | OpClear => sdsclear s
  | OpUpdateLen => sdsupdatelen s
  | OpMakeRoom addlen => sdsMakeRoomFor s addlen
  | OpRemoveFreeSpace => sdsRemoveFreeSpace s
  | OpFill addlen data => sds_fill s addlen data
  | OpShorten n => sdsIncrLen s (- Z.of_nat n)
  | OpGrowZero len => sdsgrowzero s len
  | OpCat w => sdscatlen s (c_mem w) (Z.of_nat (length w))
  | OpCatString w => sdscat s (c_mem w)
  | OpCopy w => sdscpylen s (c_mem w) (Z.of_nat (length w))
  | OpPrintf text => sdscatprintf s text
  | OpTrim cset => sdstrim s cset
  | OpRange start end_ => sdsrange s start end_
  | OpToLower => sdstolower s
  | OpToUpper => sdstoupper s
  | OpMapChars from to => sdsmapchars s from to
  | OpCatRepr p => sdscatrepr s p
  | OpDup => sdsdup s
  end.

Definition op_spec (op : sds_op) (v : bytes) : bytes :=
  match op with
  | OpClear => []
  | OpUpdateLen => c_str v
  | OpMakeRoom _ | OpRemoveFreeSpace | OpDup => v
  | OpFill _ w | OpCat w | OpPrintf w => v ++ w
  | OpCatString w => v ++ c_str w
  | OpShorten n => take (length v - n) v
  | OpGrowZero len => v ++ repeat x00 (Z.to_nat len - length v)
  | OpCopy w => w
  | OpTrim cset => rtrim cset (ltrim cset v)
  | OpRange start end_ => range_spec v start end_
  | OpToLower => map to_lower v
  | OpToUpper => map to_upper v
  | OpMapChars from to => map (map_char from to) v
  | OpCatRepr p => v ++ quote p
  end.

Definition is_int (z : Z) : Prop := - 2 ^ 31 <= z < 2 ^ 31.

(** What the caller keeps to: lengths within the limit, data within the room
    asked for, and no range of all the indices an [int] has. *)
Definition op_fits (op : sds_op) (v : bytes) : Prop :=
  Z.of_nat (length (op_spec op v)) <= SDS_LIMIT /\
  match op with
  | OpMakeRoom addlen => 0 <= addlen /\ Z.of_nat (length v) + addlen <= SDS_LIMIT
  | OpFill addlen data => Z.of_nat (length data) <= addlen /\ Z.of_nat (length v) + addlen <= SDS_LIMIT
  | OpShorten n => (n <= length v)%nat
  | OpGrowZero len => 0 <= len <= SDS_LIMIT
  | OpPrintf text => x00 ∉ text
  | OpRange start end_ => is_int start /\ is_int end_ /\ ~ (clip (Z.of_nat (length v)) start = 0 /\ end_ = 2 ^ 31 - 1)
  | _ => True
  end.

Lemma op_yields op v s : sds_repr v s -> op_fits op v -> yields (op_run op s) (op_spec op v).
Proof.
  intros Hs [Hl Hop]. destruct op as [| |addlen| |addlen data|n|len|w|w|w|text|cset|i j| | |from to|p|]; cbn [op_run op_spec] in *.
  - by eapply clear_yields.
  - by apply updatelen_yields.
  - destruct Hop. by apply make_room_yields.
  - by apply remove_free_yields.
  - destruct Hop. by apply fill_yields.
  - rewrite <- (take_drop (length v - n) v) in Hs. apply shorten_yields in Hs. rewrite length_drop in Hs.
    by replace (length v - (length v - n))%nat with n in Hs by lia.
  - by apply growzero_yields.
  - by apply cat_c_yields.
  - unfold sdscat, c_mem. rewrite strlen_c. cbn [mbind outcome_bind]. destruct (c_str_split w) as [rest E].
    change [Some x00] with (mem_of [x00]). rewrite <- mem_of_app, E, mem_of_app. by apply catlen_yields.
  - by eapply cpylen_yields.
  - by apply catprintf_yields.
  - by apply trim_yields.
  - destruct Hop as (Hi & Hj & Hx). unfold is_int in *. by apply range_yields.
  - by apply each_byte_yields.
  - by apply each_byte_yields.
  - by apply each_byte_yields.
  - by apply catrepr_yields.
  - by apply dup_yields.
Qed.

Definition ops_run (ops : list sds_op) (s : sdshdr) : outcome sdshdr :=
  fold_left (fun o op => s ← o; op_run op s) ops (Done s).

Definition ops_spec (ops : list sds_op) (v : bytes) : bytes := fold_left (fun v op => op_spec op v) ops v.

Fixpoint ops_fit (ops : list sds_op) (v : bytes) : Prop :=
  match ops with
  | [] => True
  | op :: ops => op_fits op v /\ ops_fit ops (op_spec op v)
  end.

(** C18: the library implements byte strings.  Started from a header that
    represents a byte string, every sequence of operations whose lengths stay
    within the limit ends normally, inside its memory and without reading a
    byte that was not written, and represents what the same operations make
    of the byte string: appending, copying, trimming, cutting out a range,
    quoting, and the steps of reading from a socket into the room made. *)
Theorem sds_refines_bytes (ops : list sds_op) (v : bytes) (s : sdshdr) :
  sds_repr v s -> ops_fit ops v ->
  exists s', ops_run ops s = Done s' /\ sds_repr (ops_spec ops v) s'.
Proof.
  revert v s. induction ops as [|op ops IH]; intros v s Hs Hf; [by exists s|]. destruct Hf as [Hop Hf].
  destruct (op_yields op v s Hs Hop) as (s1 & E & Hs1). unfold ops_run, ops_spec. cbn [fold_left mbind outcome_bind].
  rewrite E. by apply IH.
Qed.

(** A head read in two parts, then cut, quoted and compared. *)
Definition example_ops : list sds_op :=
  [OpFill 8 (str "foo"); OpFill 8 (str "bar "); OpTrim (str " "); OpRange 1 (-2); OpToUpper; OpCatRepr [x0a; x00];
   OpRemoveFreeSpace; OpShorten 1; OpUpdateLen].

Lemma sds_refines_bytes_witness :
  sds_repr [] (sds_at [] []) /\ ops_fit example_ops [] /\
  exists s, ops_run example_ops (sds_at [] []) = Done s /\ sds_repr (str "OOBA" ++ x22 :: str "\n\x00") s.
Proof.
  assert (Hs : sds_repr [] (sds_at [] [])) by (by exists []).
  assert (Hf : ops_fit example_ops []).
  { cbn [ops_fit example_ops]. unfold op_fits, is_int, SDS_LIMIT.
    repeat match goal with |- _ /\ _ => split end; first [done | by vm_compute | by intros [_ E] | vm_compute; lia]. }
  split; [exact Hs|]. split; [exact Hf|]. exact (sds_refines_bytes example_ops [] _ Hs Hf).
Defined.

(** C31: what [sdscatrepr] quotes [sdssplitargs] reads back.  A line of strings
    of any bytes, each quoted and followed by a space but the last, is split
    into those strings: no byte needs care, and no quote is left open. *)
Theorem quoted_args_read_back (ps : list bytes) :
  Forall (fun p => Z.of_nat (length (quote p)) <= SDS_LIMIT) ps ->
  Forall (fun p => yields (s ← sdsempty; sdscatrepr s p) (quote p)) ps /\
  exists toks, sdssplitargs (join (map quote ps) " " ++ [x00]) = Done (Some toks) /\ Forall2 sds_repr ps toks.
Proof.
  intros Hl. split.
  - eapply Forall_impl; [exact Hl|]. intros p Hp. destruct empty_yields as (e & -> & He). cbn [mbind outcome_bind].
    by apply (catrepr_yields [] e p).
  - assert (Hl' : Forall (fun p => Z.of_nat (length p) <= SDS_LIMIT) ps).
    { eapply Forall_impl; [exact Hl|]. intros p Hp. pose proof (quote_length p). cbn beta in *. lia. }
    apply args_line. done.
Qed.

Lemma quoted_args_read_back_witness :
  Forall (fun p => Z.of_nat (length (quote p)) <= SDS_LIMIT) [[x00; x22]; []; str "a b"] /\
  exists toks, sdssplitargs (join (map quote [[x00; x22]; []; str "a b"]) " " ++ [x00]) = Done (Some toks) /\
    Forall2 sds_repr [[x00; x22]; []; str "a b"] toks.
Proof.
  assert (H : Forall (fun p => Z.of_nat (length (quote p)) <= SDS_LIMIT) [[x00; x22]; []; str "a b"])
    by (repeat constructor; by vm_compute).
  split; [exact H|]. exact (proj2 (quoted_args_read_back _ H)).
Defined.
