(* ===== verification/State.v ===== *)
(** * A state monad

    Stateful code with undefined outcomes, over a state of the component's
    choice. *)

From S2P Require Import Prelude.

Definition St (S A : Type) : Type := S -> outcome (A * S).

Section monad.
Context {S : Type}.

#[export] Instance St_ret : MRet (St S) := fun A a s => Done (a, s).
#[export] Instance St_bind : MBind (St S) := fun A B k m s =>
  match m s with
  | Done (a, s') => k a s'
  | Throws e => Throws e
  | Undef u => Undef u
  end.

Definition get {A} (f : S -> A) : St S A := fun s => Done (f s, s).
Definition put (f : S -> S) : St S () := fun s => Done ((), f s).
Definition fault {A} (u : undef) : St S A := fun _ => Undef u.
(** A pure update that returns a value. *)
Definition run {A} (f : S -> A * S) : St S A := fun s => Done (f s).
(** A partial update. *)
Definition step {A} (f : S -> outcome (A * S)) : St S A := f.
Definition if_ (b : bool) (m : St S ()) : St S () := if b then m else mret ().

(** [Q] holds of the value and the state after [m], which ends normally. *)
Definition post {A} (m : St S A) (Q : A -> S -> Prop) (s : S) : Prop :=
  match m s with Done (a, s') => Q a s' | _ => False end.

Lemma post_ret {A} (a : A) Q s : Q a s -> post (mret a) Q s.
Proof. done. Qed.

Lemma post_bind {A B} (m : St S A) (k : A -> St S B) Q s :
  post m (fun a s' => post (k a) Q s') s -> post (m ≫= k) Q s.
Proof. unfold post, mbind, St_bind. by destruct (m s) as [[a s']| |]. Qed.

Lemma post_mono {A} (m : St S A) (Q Q' : A -> S -> Prop) s :
  post m Q s -> (forall a s', Q a s' -> Q' a s') -> post m Q' s.
Proof. unfold post. destruct (m s) as [[a s']| |]; auto. Qed.

Lemma post_get {A} (f : S -> A) (Q : A -> S -> Prop) s : Q (f s) s -> post (get f) Q s.
Proof. done. Qed.

Lemma post_put (f : S -> S) (Q : () -> S -> Prop) s : Q () (f s) -> post (put f) Q s.
Proof. done. Qed.

Lemma post_run {A} (f : S -> A * S) (Q : A -> S -> Prop) s :
  Q (fst (f s)) (snd (f s)) -> post (run f) Q s.
Proof. unfold post, run. by destruct (f s). Qed.

Lemma post_if (b : bool) (m : St S ()) (Q : () -> S -> Prop) s :
  (b = true -> post m Q s) -> (b = false -> Q () s) -> post (if_ b m) Q s.
Proof. intros H1 H2. destruct b; [by apply H1|by apply H2]. Qed.

(** [Q] holds after [m] if it ends normally; otherwise it throws what [E]
    allows or is undefined for a reason [D] allows. *)
Definition wp (E : exn -> Prop) (D : undef -> Prop) {A} (m : St S A) (Q : A -> S -> Prop) (s : S) : Prop :=
  match m s with Done (a, s') => Q a s' | Throws e => E e | Undef u => D u end.

Lemma st_wp_ret E D {A} (a : A) Q s : Q a s -> wp E D (mret a) Q s.
Proof. done. Qed.

Lemma st_wp_bind E D {A B} (m : St S A) (k : A -> St S B) Q s :
  wp E D m (fun a s' => wp E D (k a) Q s') s -> wp E D (m ≫= k) Q s.
Proof. unfold wp, mbind, St_bind. by destruct (m s) as [[a s']| |]. Qed.

Lemma st_wp_mono E D {A} (m : St S A) (Q Q' : A -> S -> Prop) s :
  wp E D m Q s -> (forall a s', Q a s' -> Q' a s') -> wp E D m Q' s.
Proof. unfold wp. destruct (m s) as [[a s']| |]; auto. Qed.

Lemma st_wp_exn (E : exn -> Prop) D {A} (m : St S A) (Q : A -> S -> Prop) s :
  wp (fun _ => False) D m Q s -> wp E D m Q s.
Proof. unfold wp. by destruct (m s) as [[a s']| |]. Qed.

Lemma st_wp_get E D {A} (f : S -> A) (Q : A -> S -> Prop) s : Q (f s) s -> wp E D (get f) Q s.
Proof. done. Qed.

Lemma st_wp_put E D (f : S -> S) (Q : () -> S -> Prop) s : Q () (f s) -> wp E D (put f) Q s.
Proof. done. Qed.

Lemma st_wp_if E D (b : bool) (m : St S ()) (Q : () -> S -> Prop) s :
  (b = true -> wp E D m Q s) -> (b = false -> Q () s) -> wp E D (if_ b m) Q s.
Proof. intros H1 H2. destruct b; [by apply H1|by apply H2]. Qed.

Lemma post_Done {A} (m : St S A) Q s : post m Q s <-> exists a s', m s = Done (a, s') /\ Q a s'.
Proof.
  unfold post. destruct (m s) as [[a s']| |]; split; try done.
  - by exists a, s'.
  - by intros (? & ? & [= <- <-] & ?).
  - by intros (? & ? & ? & ?).
  - by intros (? & ? & ? & ?).
Qed.
End monad.
