(* ===== verification/CopyOnWrite.v ===== *)
(** * Buffers and copy-on-write buffers (rtc_base/buffer.h,
    rtc_base/copy_on_write_buffer.h, rtc_base/copy_on_write_buffer.cc)

    The packets of the media path: handles that share a reference-counted block
    until one of them writes.  The store has the blocks with their counts and
    the handles, so that sharing is explicit; a block is freed with its last
    reference, and using it then is a fault.  Sizes are those of objects in
    memory, so their sums do not wrap; the library is compiled with NDEBUG, and its
    assertions are left out. *)

From S2P Require Import Prelude State ByteBuffer Sds.
Local Open Scope nat_scope.

(** ** Buffer (buffer.h)

    [data_] is a list of bytes that may not have been written, as long as
    [capacity_]. *)

Record Buffer : Type := mkBuffer { b_size : nat; b_data : mem }.

Definition b_capacity (b : Buffer) : nat := length (b_data b).

Definition memcpy (dst : mem) (i : nat) (src : mem) (n : nat) : outcome mem :=
  cells ← mslice src 0 (Z.of_nat n); mstore dst (Z.of_nat i) cells.

(** [BufferT(size, capacity)] *)
Definition new_Buffer (size capacity : nat) : Buffer := mkBuffer size (repeat None (Nat.max size capacity)).

(** [BufferT(data, size, capacity)] *)
Definition Buffer_from (data : mem) (size capacity : nat) : outcome Buffer :=
  let b := new_Buffer size capacity in
  d ← memcpy (b_data b) 0 data size;
  Done (mkBuffer (b_size b) d).

Definition EnsureCapacityWithHeadroom (capacity : nat) (extra_headroom : bool) (b : Buffer) : outcome Buffer :=
  if capacity <=? b_capacity b then Done b
  else
    let new_capacity := if extra_headroom then Nat.max capacity (b_capacity b + b_capacity b / 2) else capacity in
    d ← memcpy (repeat None new_capacity) 0 (b_data b) (b_size b);
    Done (mkBuffer (b_size b) d).

Definition Buffer_AppendData (data : mem) (size : nat) (b : Buffer) : outcome Buffer :=
  let new_size := b_size b + size in
  b ← EnsureCapacityWithHeadroom new_size true b;
  d ← memcpy (b_data b) (b_size b) data size;
  Done (mkBuffer new_size d).

Definition Buffer_SetData (data : mem) (size : nat) (b : Buffer) : outcome Buffer :=
  Buffer_AppendData data size (mkBuffer 0 (b_data b)).

Definition Buffer_SetSize (size : nat) (b : Buffer) : outcome Buffer :=
  b ← EnsureCapacityWithHeadroom size true b;
  Done (mkBuffer size (b_data b)).

Definition Buffer_EnsureCapacity (capacity : nat) (b : Buffer) : outcome Buffer := EnsureCapacityWithHeadroom capacity false b.

Definition Buffer_Clear (b : Buffer) : Buffer := mkBuffer 0 (b_data b).

(** [operator==]: the sizes, then [memcmp]. *)
Definition Buffer_eq (a b : Buffer) : outcome bool :=
  if negb (b_size a =? b_size b) then Done false
  else
    x ← mread (b_data a) 0 (Z.of_nat (b_size a));
    y ← mread (b_data b) 0 (Z.of_nat (b_size a));
    Done (bool_decide (x = y)).

(** ** CopyOnWriteBuffer *)

(** A handle is a variable; it has a pointer, null or to a block. *)
Record cow : Type := mkCow {
  cw_objs : gmap nat (nat * Buffer);  (* the reference count and the buffer *)
  cw_ptrs : gmap nat (option nat);  (* buffer_ *)
}.

Definition upd_objs (f : gmap nat (nat * Buffer) -> gmap nat (nat * Buffer)) (s : cow) : cow := mkCow (f (cw_objs s)) (cw_ptrs s).
Definition upd_ptrs (f : gmap nat (option nat) -> gmap nat (option nat)) (s : cow) : cow := mkCow (cw_objs s) (f (cw_ptrs s)).

Definition C := St cow.

Definition obj (id : nat) : C (nat * Buffer) := step (fun s => o ← deref use_after_free (cw_objs s !! id); Done (o, s)).
Definition ptr (h : nat) : C (option nat) := step (fun s => p ← deref use_after_free (cw_ptrs s !! h); Done (p, s)).
Definition obj_put (id r : nat) (b : Buffer) : C () := put (upd_objs <[id := (r, b)]>).
Definition ptr_put (h : nat) (p : option nat) : C () := put (upd_ptrs <[h := p]>).

(** [new RefCountedObject<Buffer>] *)
Definition alloc (b : Buffer) : C nat := run (fun s =>
  let id := fresh (dom (cw_objs s)) in (id, upd_objs <[id := (0, b)]> s)).

Definition AddRef (p : option nat) : C () :=
  match p with
  | None => mret ()
  | Some id => '(r, b) ← obj id; obj_put id (r + 1) b
  end.

Definition Release (p : option nat) : C () :=
  match p with
  | None => mret ()
  | Some id => '(r, b) ← obj id; if r =? 1 then put (upd_objs (delete id)) else obj_put id (r - 1) b
  end.

(** [buffer_ = p] (api/scoped_refptr.h) *)
Definition assign (h : nat) (p : option nat) : C () :=
  old ← ptr h;
  _ ← AddRef p;
  _ ← Release old;
  ptr_put h p.

Definition lift {A} (o : outcome A) : C A := fun s => a ← o; Done (a, s).

Definition assign_new (h : nat) (b : Buffer) : C () := id ← alloc b; assign h (Some id).

(** A method of the buffer [h] points to. *)
Definition on_buffer (h : nat) (f : Buffer -> outcome Buffer) : C () :=
  p ← ptr h;
  match p with
  | None => fault null_deref
  | Some id => '(r, b) ← obj id; b ← lift (f b); obj_put id r b
  end.

(** The constructors. *)
Definition cow_new (h : nat) : C () := ptr_put h None.
Definition cow_sized (h size capacity : nat) : C () :=
  if (0 <? size) || (0 <? capacity)
  then id ← alloc (new_Buffer size capacity); _ ← AddRef (Some id); ptr_put h (Some id)
  else ptr_put h None.
Definition cow_data (h : nat) (data : mem) (size capacity : nat) : C () :=
  _ ← cow_sized h size capacity;
  p ← ptr h;
  match p with
  | None => mret ()
  | Some _ => on_buffer h (fun b => d ← memcpy (b_data b) 0 data size; Done (mkBuffer (b_size b) d))
  end.
Definition cow_copy (h g : nat) : C () := p ← ptr g; _ ← AddRef p; ptr_put h p.
Definition cow_move (h g : nat) : C () := p ← ptr g; _ ← ptr_put g None; ptr_put h p.
Definition cow_destroy (h : nat) : C () := p ← ptr h; _ ← Release p; put (upd_ptrs (delete h)).

(** [operator=], of a buffer and of one that is moved. *)
Definition cow_assign (h g : nat) : C () := if h =? g then mret () else p ← ptr g; assign h p.
Definition cow_move_assign (h g : nat) : C () :=
  p ← ptr g; _ ← ptr_put g None; old ← ptr h; _ ← ptr_put h p; Release old.

Definition CloneDataIfReferenced (h id new_capacity : nat) : C () :=
  '(r, b) ← obj id;
  if r =? 1 then mret () else b' ← lift (Buffer_from (b_data b) (b_size b) new_capacity); assign_new h b'.

(** [data()[i] = v] *)
Definition cow_write (h i : nat) (v : byte) : C () :=
  p ← ptr h;
  match p with
  | None => fault null_deref
  | Some id =>
      '(_, b) ← obj id;
      _ ← CloneDataIfReferenced h id (b_capacity b);
      on_buffer h (fun b => d ← mstore (b_data b) (Z.of_nat i) [Some v]; Done (mkBuffer (b_size b) d))
  end.

Definition cow_SetSize (h size : nat) : C () :=
  p ← ptr h;
  match p with
  | None => if 0 <? size then assign_new h (new_Buffer size size) else mret ()
  | Some id =>
      '(r, b) ← obj id;
      _ ← (if r =? 1 then mret ()
           else b' ← lift (Buffer_from (b_data b) (Nat.min (b_size b) size) (Nat.max (b_capacity b) size)); assign_new h b');
      on_buffer h (Buffer_SetSize size)
  end.

Definition cow_EnsureCapacity (h capacity : nat) : C () :=
  p ← ptr h;
  match p with
  | None => if 0 <? capacity then assign_new h (new_Buffer 0 capacity) else mret ()
  | Some id =>
      '(_, b) ← obj id;
      if capacity <=? b_capacity b then mret ()
      else _ ← CloneDataIfReferenced h id (Nat.max (b_capacity b) capacity); on_buffer h (Buffer_EnsureCapacity capacity)
  end.

Definition cow_Clear (h : nat) : C () :=
  p ← ptr h;
  match p with
  | None => mret ()
  | Some id =>
      '(r, b) ← obj id;
      if r =? 1 then on_buffer h (fun b => Done (Buffer_Clear b)) else assign_new h (new_Buffer 0 (b_capacity b))
  end.

Definition cow_SetData (h : nat) (data : mem) (size : nat) : C () :=
  p ← ptr h;
  match p with
  | None => if 0 <? size then b ← lift (Buffer_from data size size); assign_new h b else assign h None
  | Some id =>
      '(r, b) ← obj id;
      if r =? 1 then on_buffer h (Buffer_SetData data size)
      else b' ← lift (Buffer_from data size (b_capacity b)); assign_new h b'
  end.

(** [AppendData(data, size)] of bytes outside of every block. *)
Definition cow_AppendData (h : nat) (data : mem) (size : nat) : C () :=
  p ← ptr h;
  match p with
  | None => b ← lift (Buffer_from data size size); assign_new h b
  | Some id =>
      '(_, b) ← obj id;
      _ ← CloneDataIfReferenced h id (Nat.max (b_capacity b) (b_size b + size));
      on_buffer h (Buffer_AppendData data size)
  end.

(** [AppendData(buf)]: the data are those of another handle, or of the same;
    growing a block frees the memory that is read then. *)
Definition cow_AppendFrom (h g : nat) : C () :=
  q ← ptr g;
  '(data, size) ← match q with
                  | None => mret ([], 0)
                  | Some id => '(_, b) ← obj id; mret (b_data b, b_size b)
                  end;
  p ← ptr h;
  match p with
  | None => b ← lift (Buffer_from data size size); assign_new h b
  | Some id =>
      '(_, b) ← obj id;
      _ ← CloneDataIfReferenced h id (Nat.max (b_capacity b) (b_size b + size));
      p' ← ptr h;
      on_buffer h (fun b =>
        if bool_decide (p' = q) && negb (b_size b + size <=? b_capacity b) then Undef use_after_free
        else Buffer_AppendData data size b)
  end.

Definition cow_swap (h g : nat) : C () := p ← ptr h; q ← ptr g; _ ← ptr_put h q; ptr_put g p.

(** [operator==] *)
Definition cow_eq (h g : nat) : C bool :=
  p ← ptr h; q ← ptr g;
  if bool_decide (p = q) then mret true
  else match p, q with
       | Some i, Some j => '(_, a) ← obj i; '(_, b) ← obj j; lift (Buffer_eq a b)
       | _, _ => mret false
       end.

(** [size()] and the bytes a reader of [cdata()] finds. *)
Definition cow_size (h : nat) : C nat :=
  p ← ptr h; match p with None => mret 0 | Some id => '(_, b) ← obj id; mret (b_size b) end.

Inductive cow_op : Type :=
  | CNew (h : nat)
  | CSized (h size capacity : nat)
  | CData (h : nat) (data : bytes) (capacity : nat)
  | CCopy (h g : nat)
  | CMove (h g : nat)
  | CDestroy (h : nat)
  | CAssign (h g : nat)
  | CMoveAssign (h g : nat)
  | CSetData (h : nat) (data : bytes)
  | CAppendData (h : nat) (data : bytes)
  | CAppendFrom (h g : nat)
  | CSetSize (h size : nat)
  | CEnsureCapacity (h capacity : nat)
  | CClear (h : nat)
  | CSwap (h g : nat)
  | CWrite (h i : nat) (v : byte).

Definition cow_do (o : cow_op) : C () :=
  match o with
  | CNew h => cow_new h
  | CSized h size capacity => cow_sized h size capacity
  | CData h data capacity => cow_data h (mem_of data) (length data) capacity
  | CCopy h g => cow_copy h g
  | CMove h g => cow_move h g
  | CDestroy h => cow_destroy h
  | CAssign h g => cow_assign h g
  | CMoveAssign h g => cow_move_assign h g
  | CSetData h data => cow_SetData h (mem_of data) (length data)
  | CAppendData h data => cow_AppendData h (mem_of data) (length data)
  | CAppendFrom h g => cow_AppendFrom h g
  | CSetSize h size => cow_SetSize h size
  | CEnsureCapacity h capacity => cow_EnsureCapacity h capacity
  | CClear h => cow_Clear h
  | CSwap h g => cow_swap h g
  | CWrite h i v => cow_write h i v
  end.

Fixpoint cow_run (os : list cow_op) : C () :=
  match os with [] => mret () | o :: os => _ ← cow_do o; cow_run os end.
