(* ===== verification/CopyOnWriteTheory.v ===== *)
(** * What copy-on-write buffers promise

    Handles share blocks and the counts of the blocks are exact, so a block
    lives as long as a handle points to it and no longer, and writing through
    one handle is not seen through another: handles are independent vectors of
    bytes. *)

From S2P Require Import Prelude State ByteBuffer Sds SdsTheory CopyOnWrite.
Local Open Scope nat_scope.

(** ** The visible bytes of a buffer *)

Definition good (b : Buffer) : Prop := b_size b <= b_capacity b.
Definition vis (b : Buffer) : mem := take (b_size b) (b_data b).

Lemma length_vis b : good b -> length (vis b) = b_size b.
Proof. intros Hb. unfold vis. rewrite length_take. unfold good, b_capacity in Hb. lia. Qed.

Lemma data_split b : b_data b = vis b ++ drop (b_size b) (b_data b).
Proof. symmetry. apply take_drop. Qed.

Lemma vis_app v w n : n = length v -> vis (mkBuffer n (v ++ w)) = v.
Proof. intros ->. unfold vis. cbn. apply take_app_length. Qed.

(** Copying [n] bytes of [src] to the place [i] of [dst]. *)
Lemma memcpy_at dst i src n :
  i + n <= length dst -> n <= length src ->
  memcpy dst i src n = Done (take i dst ++ take n src ++ drop (i + n) dst).
Proof.
  intros Hd Hs. unfold memcpy.
  rewrite <- (take_drop n src) at 1. rewrite mslice_front by (rewrite length_take; lia).
  cbn [mbind outcome_bind].
  assert (dst = take i dst ++ take n (drop i dst) ++ drop (i + n) dst) as E.
  { rewrite <- drop_drop. by rewrite !take_drop. }
  rewrite E at 1. apply mstore_app; rewrite ?length_take, ?length_drop; lia.
Qed.

Lemma memcpy_front dst src n :
  n <= length dst -> n <= length src -> memcpy dst 0 src n = Done (take n src ++ drop n dst).
Proof. intros. rewrite memcpy_at by lia. by rewrite take_0. Qed.

Lemma Buffer_from_spec data size capacity :
  size <= length data ->
  exists b, Buffer_from data size capacity = Done b /\ good b /\ vis b = take size data
    /\ b_size b = size /\ b_capacity b = Nat.max size capacity.
Proof.
  intros Hs. unfold Buffer_from, new_Buffer. cbn [b_data b_size].
  rewrite memcpy_front by (rewrite ?repeat_length; lia). cbn [mbind outcome_bind].
  eexists. split; [done|]. unfold good, b_capacity, vis. cbn [b_data b_size].
  rewrite length_app, length_take, length_drop, repeat_length. split_and!; [lia| |done|lia].
  rewrite take_app_length' by (rewrite length_take; lia). done.
Qed.

Lemma headroom_spec capacity extra b :
  good b ->
  exists b', EnsureCapacityWithHeadroom capacity extra b = Done b' /\ good b' /\ vis b' = vis b
    /\ b_size b' = b_size b /\ capacity <= b_capacity b'.
Proof.
  intros Hb. unfold EnsureCapacityWithHeadroom. destruct (Nat.leb_spec capacity (b_capacity b)) as [Hc|Hc].
  { exists b. by split_and!. }
  set (n := if extra then _ else _).
  assert (capacity <= n) as Hn by (unfold n; destruct extra; lia). clearbody n.
  unfold good, b_capacity in *.
  rewrite memcpy_front by (rewrite ?repeat_length; lia). cbn [mbind outcome_bind].
  eexists. split; [done|]. unfold vis. cbn [b_data b_size].
  rewrite length_app, length_take, length_drop, repeat_length. split_and!; [lia| |done|lia].
  rewrite take_app_length' by (rewrite length_take; lia). done.
Qed.

Lemma AppendData_spec data size b :
  good b -> size <= length data ->
  exists b', Buffer_AppendData data size b = Done b' /\ good b' /\ vis b' = vis b ++ take size data.
Proof.
  intros Hb Hs. unfold Buffer_AppendData.
  destruct (headroom_spec (b_size b + size) true b Hb) as (b1 & -> & Hb1 & E1 & Es & Hc).
  cbn [mbind outcome_bind]. unfold b_capacity in *. rewrite memcpy_at by lia. cbn [mbind outcome_bind].
  eexists. split; [done|]. fold (vis b1). rewrite Es in *. unfold good, b_capacity. cbn [b_data b_size].
  rewrite app_assoc, E1. assert (length (vis b ++ take size data) = b_size b + size) as El.
  { rewrite length_app, length_vis, length_take by done. lia. }
  split.
  - rewrite length_app. replace (take (b_size b) (b_data b1)) with (vis b) by (rewrite <- E1; unfold vis; by rewrite Es). lia.
  - unfold vis at 1. cbn [b_data b_size]. 
    replace (take (b_size b) (b_data b1)) with (vis b) by (rewrite <- E1; unfold vis; by rewrite Es).
    by rewrite take_app_length' by done.
Qed.

Lemma SetData_spec data size b :
  good b -> size <= length data ->
  exists b', Buffer_SetData data size b = Done b' /\ good b' /\ vis b' = take size data.
Proof.
  intros Hb Hs. destruct (AppendData_spec data size (mkBuffer 0 (b_data b))) as (b' & ? & ? & ?); [|done|eauto].
  unfold good. cbn. lia.
Qed.

(** [b] cut or filled to [size] bytes, which may have any value. *)
Lemma SetSize_spec size b :
  good b ->
  exists b' more, Buffer_SetSize size b = Done b' /\ good b' /\ vis b' = take size (vis b) ++ more
    /\ length more = size - b_size b.
Proof.
  intros Hb. unfold Buffer_SetSize.
  destruct (headroom_spec size true b Hb) as (b1 & -> & Hb1 & E1 & Es & Hc). cbn [mbind outcome_bind].
  eexists _, (take (size - b_size b) (drop (b_size b) (b_data b1))). split; [done|].
  unfold good, b_capacity in *. cbn [b_data b_size]. split_and!; [lia| |rewrite length_take, length_drop; lia].
  unfold vis at 1. cbn [b_data b_size]. rewrite <- E1. unfold vis. rewrite Es, take_take.
  destruct (Nat.le_ge_cases size (b_size b)).
  - rewrite Nat.min_l by done. replace (size - b_size b) with 0 by lia. by rewrite take_0, app_nil_r.
  - rewrite Nat.min_r by done. rewrite take_take_drop. f_equal. lia.
Qed.

(** ** Reference counts *)

Definition refs (id : nat) (ps : gmap nat (option nat)) : nat := size (filter (fun kv => kv.2 = Some id) ps).

Definition one (p : option nat) (id : nat) : nat := if decide (p = Some id) then 1 else 0.

Lemma refs_insert_new id h p ps : ps !! h = None -> refs id (<[h := p]> ps) = one p id + refs id ps.
Proof.
  intros Hh. unfold refs, one. case_decide as E.
  - rewrite map_filter_insert_True by done. rewrite map_size_insert_None; [done|].
    apply map_lookup_filter_None. by left.
  - rewrite map_filter_insert_False by done. by rewrite delete_id.
Qed.

Lemma refs_delete id h p ps : ps !! h = Some p -> refs id ps = one p id + refs id (delete h ps).
Proof.
  intros Hh. rewrite <- (insert_id ps h p Hh) at 1. rewrite <- insert_delete_eq.
  apply refs_insert_new, lookup_delete_eq.
Qed.

Lemma refs_insert id h old p ps :
  ps !! h = Some old -> one p id + refs id ps = one old id + refs id (<[h := p]> ps).
Proof.
  intros Hh. rewrite <- insert_delete_eq, refs_insert_new by apply lookup_delete_eq.
  rewrite (refs_delete _ _ _ _ Hh). lia.
Qed.

Lemma one_same id : one (Some id) id = 1.
Proof. unfold one. by rewrite decide_True. Qed.
Lemma one_other p id : p <> Some id -> one p id = 0.
Proof. intros. unfold one. by rewrite decide_False. Qed.

Lemma refs_pos id h ps : ps !! h = Some (Some id) -> 0 < refs id ps.
Proof. intros Hh. rewrite (refs_delete _ _ _ _ Hh), one_same. lia. Qed.

Lemma refs_two id h k ps : h <> k -> ps !! h = Some (Some id) -> ps !! k = Some (Some id) -> 1 < refs id ps.
Proof.
  intros Hne Hh Hk. rewrite (refs_delete _ _ _ _ Hh), one_same.
  assert (0 < refs id (delete h ps)); [|lia]. apply (refs_pos _ k). by rewrite lookup_delete_ne.
Qed.

(** ** Well-formed stores

    The counts are [n]; a block that [ex] names may have no reference yet. *)

Definition counted (n : nat -> nat) (ex : option nat) (s : cow) : Prop := forall id,
  match cw_objs s !! id with
  | Some (r, b) => r = n id /\ good b /\ (0 < r \/ ex = Some id)
  | None => n id = 0
  end.

Definition wf (s : cow) : Prop := counted (fun id => refs id (cw_ptrs s)) None s.

Definition buf (s : cow) (id : nat) : option Buffer := snd <$> cw_objs s !! id.

Definition contents (s : cow) (h : nat) : option mem :=
  p ← cw_ptrs s !! h;
  match p with None => Some [] | Some id => vis <$> buf s id end.

Lemma counted_obj n ex s id : counted n ex s -> 0 < n id -> exists b, cw_objs s !! id = Some (n id, b) /\ good b.
Proof.
  intros Hc Hn. specialize (Hc id). destruct (cw_objs s !! id) as [[r b]|]; [|lia].
  destruct Hc as (-> & ? & _). eauto.
Qed.

Lemma wf_obj s h id : wf s -> cw_ptrs s !! h = Some (Some id) ->
  exists b, cw_objs s !! id = Some (refs id (cw_ptrs s), b) /\ good b.
Proof. intros Hs Hh. apply (counted_obj _ _ _ id Hs). by apply (refs_pos _ h). Qed.

Lemma counted_ext n n' ex s : (forall id, n id = n' id) -> counted n ex s -> counted n' ex s.
Proof. intros E Hc id. rewrite <- E. apply Hc. Qed.

(** ** The steps *)

Lemma AddRef_spec p n ex s :
  counted n ex s -> (ex = None \/ ex = p) -> (forall id, p = Some id -> is_Some (cw_objs s !! id)) ->
  post (AddRef p) (fun _ s' => counted (fun id => one p id + n id) None s'
    /\ cw_ptrs s' = cw_ptrs s /\ forall id, buf s' id = buf s id) s.
Proof.
  intros Hc Hex Hp. destruct p as [id|]; cbn [AddRef].
  - destruct (Hp id eq_refl) as [[r b] E]. apply post_bind. unfold post at 1, obj, step. rewrite E. cbn.
    unfold post, obj_put, put. split_and!; [|done|].
    + intros k. cbn. specialize (Hc k). destruct (decide (k = id)) as [->|Hne].
      * rewrite lookup_insert_eq, one_same. rewrite E in Hc. split_and!; [lia|tauto|lia].
      * rewrite lookup_insert_ne, one_other by congruence. destruct (cw_objs s !! k) as [[]|]; [|done].
        destruct Hc as (? & ? & [?|?]); [by eauto|]. destruct Hex; congruence.
    + intros k. unfold buf. cbn. destruct (decide (k = id)) as [->|Hne].
      * by rewrite lookup_insert_eq, E.
      * by rewrite lookup_insert_ne.
  - apply post_ret. split_and!; [|done..]. intros k. specialize (Hc k). unfold one.
    rewrite decide_False by done. cbn. destruct Hex as [-> | ->]; done.
Qed.

Lemma Release_spec p n n' s :
  counted n None s -> (forall id, n id = one p id + n' id) ->
  post (Release p) (fun _ s' => counted n' None s'
    /\ cw_ptrs s' = cw_ptrs s /\ forall id, 0 < n' id -> buf s' id = buf s id) s.
Proof.
  intros Hc Hn. destruct p as [id|]; cbn [Release].
  - destruct (counted_obj _ _ _ id Hc) as (b & E & Hb); [rewrite Hn, one_same; lia|].
    pose proof (Hn id) as Hid. rewrite one_same in Hid.
    apply post_bind. unfold post at 1, obj, step. rewrite E. cbn.
    destruct (Nat.eqb_spec (n id) 1) as [E1|E1]; unfold post, obj_put, put; cbn; split_and!; try done.
    + intros k. cbn. specialize (Hc k). destruct (decide (k = id)) as [->|Hne].
      * rewrite lookup_delete_eq. lia.
      * rewrite lookup_delete_ne by congruence. rewrite Hn, one_other in Hc by congruence. apply Hc.
    + intros k Hk. unfold buf. cbn. rewrite lookup_delete_ne; [done|]. intros ->. lia.
    + intros k. cbn. specialize (Hc k). destruct (decide (k = id)) as [->|Hne].
      * rewrite lookup_insert_eq. split_and!; [lia|done|lia].
      * rewrite lookup_insert_ne by congruence. rewrite Hn, one_other in Hc by congruence. apply Hc.
    + intros k Hk. unfold buf. cbn. destruct (decide (k = id)) as [->|Hne].
      * by rewrite lookup_insert_eq, E.
      * by rewrite lookup_insert_ne.
  - apply post_ret. split_and!; [|done..]. eapply counted_ext; [|done].
    intros k. rewrite Hn. unfold one. by rewrite decide_False.
Qed.

(** The handles other than [h] see what they saw. *)
Definition others (h : nat) (s s' : cow) : Prop := forall k,
  k <> h -> contents s' k = contents s k /\ cw_ptrs s' !! k = cw_ptrs s !! k.

Lemma others_intro h s s' :
  (forall k, k <> h -> cw_ptrs s' !! k = cw_ptrs s !! k) ->
  (forall id, 0 < refs id (cw_ptrs s') -> buf s' id = buf s id) -> others h s s'.
Proof.
  intros Hp Hb k Hk. split; [|by apply Hp]. unfold contents. rewrite <- (Hp k Hk). destruct (cw_ptrs s' !! k) as [[id|]|] eqn:E; [|done..].
  cbn. by rewrite (Hb id (refs_pos _ _ _ E)).
Qed.

Lemma others_trans h s1 s2 s3 : others h s1 s2 -> others h s2 s3 -> others h s1 s3.
Proof. intros H1 H2 k Hk. destruct (H1 k Hk) as [<- <-]. by apply H2. Qed.

(** [h] points to [p] now, and nothing else changed. *)
Definition points (h : nat) (p : option nat) (s s' : cow) : Prop :=
  wf s' /\ cw_ptrs s' = <[h := p]> (cw_ptrs s) /\ forall id, 0 < refs id (cw_ptrs s') -> buf s' id = buf s id.

Lemma points_others h p s s' : points h p s s' -> others h s s'.
Proof.
  intros (_ & E & Hb). apply others_intro; [|done]. intros k Hk. rewrite E. by rewrite lookup_insert_ne.
Qed.

Lemma assign_spec h p old ex s :
  counted (fun id => refs id (cw_ptrs s)) ex s -> (ex = None \/ ex = p) ->
  (forall id, p = Some id -> is_Some (cw_objs s !! id)) -> cw_ptrs s !! h = Some old ->
  post (assign h p) (fun _ => points h p s) s.
Proof.
  intros Hc Hex Hp Hh. unfold assign. apply post_bind. unfold post at 1, ptr, step. rewrite Hh. cbn.
  apply post_bind. eapply post_mono; [by apply (AddRef_spec p (fun id => refs id (cw_ptrs s)) ex)|]. intros _ s1 (Hc1 & Ep & Hb1).
  apply post_bind.
  eapply post_mono; [apply (Release_spec old (fun id => one p id + refs id (cw_ptrs s)) (fun id => refs id (<[h := p]> (cw_ptrs s))) s1)|].
  - done.
  - intros id. by apply refs_insert.
  - intros [] s2 (Hc2 & Ep2 & Hb2). unfold post, ptr_put, put, points, wf. cbn. rewrite Ep2, Ep. split_and!; [done|done|].
    intros id Hid. rewrite <- (Hb1 id). by apply Hb2.
Qed.

Lemma init_spec h p ex s :
  counted (fun id => refs id (cw_ptrs s)) ex s -> (ex = None \/ ex = p) ->
  (forall id, p = Some id -> is_Some (cw_objs s !! id)) -> cw_ptrs s !! h = None ->
  post (AddRef p ≫= fun _ => ptr_put h p) (fun _ => points h p s) s.
Proof.
  intros Hc Hex Hp Hh. apply post_bind. eapply post_mono; [by apply (AddRef_spec p (fun id => refs id (cw_ptrs s)) ex)|].
  intros _ s1 (Hc1 & Ep & Hb1). unfold post, ptr_put, put, points, wf. cbn. rewrite Ep. split_and!; [|done|].
  - eapply counted_ext; [|exact Hc1]. intros id. cbn. by rewrite refs_insert_new.
  - intros id _. apply (Hb1 id).
Qed.

(** A new block. *)
Lemma alloc_spec b s :
  wf s -> good b ->
  post (alloc b) (fun id s' => counted (fun id => refs id (cw_ptrs s')) (Some id) s'
    /\ cw_objs s' !! id = Some (0, b) /\ cw_ptrs s' = cw_ptrs s
    /\ forall k, 0 < refs k (cw_ptrs s) -> k <> id /\ buf s' k = buf s k) s.
Proof.
  intros Hs Hb. unfold alloc. apply post_run. cbn [fst snd].
  set (id := fresh _). assert (cw_objs s !! id = None) as Hid.
  { apply not_elem_of_dom. apply is_fresh. } clearbody id. cbn.
  pose proof (Hs id) as E0. rewrite Hid in E0. split_and!; [|by rewrite lookup_insert_eq|done|].
  - intros k. cbn. destruct (decide (k = id)) as [->|Hne].
    + rewrite lookup_insert_eq. split_and!; [lia|done|by right].
    + rewrite lookup_insert_ne by done. specialize (Hs k). destruct (cw_objs s !! k) as [[]|]; [|done].
      destruct Hs as (? & ? & [?|?]); [|done]. eauto.
  - intros k Hk. assert (k <> id) as Hne by (intros ->; lia). split; [done|].
    unfold buf. cbn. by rewrite lookup_insert_ne.
Qed.

(** Only [h] points to its block. *)
Definition owns (h : nat) (b : Buffer) (s : cow) : Prop :=
  exists id, cw_ptrs s !! h = Some (Some id) /\ cw_objs s !! id = Some (1, b).

(** [h] sees [v], and the others see what they saw. *)
Definition sees (h : nat) (v : mem) (s s' : cow) : Prop :=
  wf s' /\ contents s' h = Some v /\ others h s s'.

Lemma owns_contents h b s : owns h b s -> contents s h = Some (vis b).
Proof. intros (id & Hp & Ho). unfold contents, buf. rewrite Hp. cbn. by rewrite Ho. Qed.

Lemma points_new h id b s0 s s' :
  cw_objs s !! id = Some (0, b) -> cw_ptrs s = cw_ptrs s0 ->
  (forall k, 0 < refs k (cw_ptrs s0) -> k <> id /\ buf s k = buf s0 k) ->
  refs id (cw_ptrs s') = 1 ->
  points h (Some id) s s' -> wf s' /\ owns h b s' /\ others h s0 s'.
Proof.
  intros Ho Ep Hk Hr (Hw & E & Hb). split_and!; [done| |].
  - exists id. rewrite E, lookup_insert_eq. split; [done|].
    destruct (wf_obj s' h id Hw) as (b' & Eb & _); [by rewrite E, lookup_insert_eq|].
    rewrite Hr in Eb. specialize (Hb id ltac:(lia)). unfold buf in Hb. rewrite Ho, Eb in Hb. cbn in Hb. congruence.
  - intros k Hne. unfold contents. rewrite E, lookup_insert_ne, Ep by done. split; [|done].
    destruct (cw_ptrs s0 !! k) as [[i|]|] eqn:Ek; [|done..]. cbn.
    pose proof (refs_pos _ _ _ Ek) as Hp. destruct (Hk i Hp) as [Hi Ei]. rewrite <- Ei.
    rewrite (Hb i); [done|]. apply (refs_pos _ k). by rewrite E, lookup_insert_ne, Ep.
Qed.

Lemma assign_new_spec h b old s :
  wf s -> good b -> cw_ptrs s !! h = Some old ->
  post (assign_new h b) (fun _ s' => wf s' /\ owns h b s' /\ others h s s') s.
Proof.
  intros Hs Hb Hh. unfold assign_new. apply post_bind. eapply post_mono; [by apply alloc_spec|].
  intros id s1 (Hc & Ho & Ep & Hk). eapply post_mono; [apply (assign_spec h (Some id) old (Some id))|].
  - done.
  - by right.
  - intros ? [= <-]. by eexists.
  - by rewrite Ep.
  - intros [] s2 H2. eapply points_new; [done..| |done]. destruct H2 as (_ & E & _). rewrite E.
    assert (refs id (cw_ptrs s1) = 0) as E0. { specialize (Hc id). cbn in Hc. rewrite Ho in Hc. lia. }
    assert (old <> Some id). { intros ->. rewrite <- Ep in Hh. apply refs_pos in Hh. lia. }
    pose proof (refs_insert id h old (Some id) (cw_ptrs s1) ltac:(by rewrite Ep)) as Hr.
    rewrite one_same, (one_other old) in Hr by done. lia.
Qed.

Lemma sized_spec h size capacity s :
  wf s -> cw_ptrs s !! h = None -> 0 < size \/ 0 < capacity ->
  post (cow_sized h size capacity) (fun _ s' => wf s' /\ owns h (new_Buffer size capacity) s' /\ others h s s') s.
Proof.
  intros Hs Hh Hp. unfold cow_sized. replace (_ || _) with true.
  2: { symmetry. apply orb_true_iff. rewrite !Nat.ltb_lt. done. }
  apply post_bind. eapply post_mono; [apply alloc_spec; [done|]|].
  { unfold good, b_capacity, new_Buffer. cbn. rewrite repeat_length. lia. }
  intros id s1 (Hc & Ho & Ep & Hk). eapply post_mono; [apply (init_spec h (Some id) (Some id))|].
  - done.
  - by right.
  - intros ? [= <-]. by eexists.
  - by rewrite Ep.
  - intros [] s2 H2. eapply points_new; [done..| |done]. destruct H2 as (_ & E & _). rewrite E.
    rewrite refs_insert_new, one_same by (by rewrite Ep). specialize (Hc id). cbn in Hc. rewrite Ho in Hc. lia.
Qed.

(** A method of a block that no other handle points to. *)
Lemma on_buffer_spec h f b b' s :
  wf s -> owns h b s -> f b = Done b' -> good b' ->
  post (on_buffer h f) (fun _ s' => wf s' /\ owns h b' s' /\ others h s s') s.
Proof.
  intros Hs (id & Hp & Ho) Hf Hb. unfold on_buffer. apply post_bind. unfold post at 1, ptr, step. rewrite Hp. cbn.
  apply post_bind. unfold post at 1, obj, step. rewrite Ho. cbn.
  apply post_bind. unfold post at 1, lift. rewrite Hf. cbn. unfold post, obj_put, put. cbn.
  pose proof (Hs id) as Hid. rewrite Ho in Hid. split_and!.
  - intros k. cbn. specialize (Hs k). destruct (decide (k = id)) as [->|Hne].
    + rewrite lookup_insert_eq. rewrite Ho in Hs. tauto.
    + by rewrite lookup_insert_ne.
  - exists id. cbn. rewrite lookup_insert_eq. eauto.
  - intros k Hne. split; [|done]. unfold contents, buf. cbn. destruct (cw_ptrs s !! k) as [[i|]|] eqn:Ek; [|done..]. cbn.
    destruct (decide (i = id)) as [->|]; [|by rewrite lookup_insert_ne].
    pose proof (refs_two id h k _ (not_eq_sym Hne) Hp Ek). lia.
Qed.

Lemma Clone_spec h id b capacity s :
  wf s -> cw_ptrs s !! h = Some (Some id) -> buf s id = Some b ->
  post (CloneDataIfReferenced h id capacity)
    (fun _ s' => wf s' /\ (exists b', owns h b' s' /\ good b' /\ vis b' = vis b) /\ others h s s') s.
Proof.
  intros Hs Hh Eb. destruct (wf_obj _ _ _ Hs Hh) as (b0 & Ho & Hb). unfold buf in Eb. rewrite Ho in Eb.
  injection Eb as ->. unfold CloneDataIfReferenced. apply post_bind. unfold post at 1, obj, step. rewrite Ho. cbn.
  destruct (Nat.eqb_spec (refs id (cw_ptrs s)) 1) as [E1|E1].
  - apply post_ret. split_and!; [done| |done]. exists b. split; [|done]. exists id. by rewrite <- E1.
  - destruct (Buffer_from_spec (b_data b) (b_size b) capacity Hb) as (b' & E & Hb' & Ev & _).
    apply post_bind. unfold post at 1, lift. rewrite E. cbn.
    eapply post_mono; [by apply (assign_new_spec h b' (Some id))|]. intros _ s' (? & ? & ?). eauto 6.
Qed.

(** ** The operations on one handle *)

Lemma contents_inv s h v :
  wf s -> contents s h = Some v ->
  cw_ptrs s !! h = Some None /\ v = []
  \/ exists id b, cw_ptrs s !! h = Some (Some id) /\ buf s id = Some b /\ good b /\ v = vis b
       /\ cw_objs s !! id = Some (refs id (cw_ptrs s), b).
Proof.
  intros Hs Hv. unfold contents in Hv. destruct (cw_ptrs s !! h) as [[id|]|] eqn:Eh; [|by injection Hv as <-; left|done].
  right. cbn in Hv. destruct (wf_obj _ _ _ Hs Eh) as (b & Ho & Hb). assert (buf s id = Some b) as Eb by (unfold buf; by rewrite Ho).
  rewrite Eb in Hv. injection Hv as <-. exists id, b. by split_and!.
Qed.

Lemma contents_None s h : contents s h = None -> wf s -> cw_ptrs s !! h = None.
Proof.
  intros Hv Hs. unfold contents, buf in Hv. destruct (cw_ptrs s !! h) as [[id|]|] eqn:Eh; [|done..].
  destruct (wf_obj _ _ _ Hs Eh) as (b & Ho & Hb). cbn in Hv. by rewrite Ho in Hv.
Qed.

Lemma owned_sees h b v s s1 s' :
  others h s s1 -> wf s' /\ owns h b s' /\ others h s1 s' -> vis b = v -> sees h v s s'.
Proof.
  intros H1 (Hw & Ho & H2) <-. split_and!; [done|by apply owns_contents|by eapply others_trans].
Qed.

Lemma others_refl h s : others h s s.
Proof. done. Qed.

#[local] Hint Resolve others_refl : core.

(** Reading the pointer of a handle and the block it points to. *)
Ltac read_ptr Hp := apply post_bind; unfold post at 1, ptr, step; cbn [cw_ptrs cw_objs]; rewrite Hp; cbn [deref mbind outcome_bind].
Ltac read_obj Ho := apply post_bind; unfold post at 1, obj, step; rewrite Ho; cbn [deref mbind outcome_bind].

Lemma assign_new_sees h b s old :
  wf s -> good b -> cw_ptrs s !! h = Some old -> post (assign_new h b) (fun _ => sees h (vis b) s) s.
Proof.
  intros. eapply post_mono; [by eapply assign_new_spec|]. intros [] s' Hs'. by eapply owned_sees.
Qed.

Lemma new_Buffer_good size capacity : good (new_Buffer size capacity).
Proof. unfold good, b_capacity, new_Buffer. cbn. rewrite repeat_length. lia. Qed.

Lemma new_Buffer_vis size capacity : vis (new_Buffer size capacity) = repeat None size.
Proof.
  unfold vis, new_Buffer. cbn.
  replace (Nat.max size capacity) with (size + (capacity - size)) by lia.
  rewrite repeat_app. apply take_app_length'. by rewrite repeat_length.
Qed.

Lemma from_sees h data size capacity s old :
  wf s -> size <= length data -> cw_ptrs s !! h = Some old ->
  post (b ← lift (Buffer_from data size capacity); assign_new h b) (fun _ => sees h (take size data) s) s.
Proof.
  intros Hs Hl Hh. destruct (Buffer_from_spec data size capacity Hl) as (b & E & Hb & <- & _).
  apply post_bind. unfold post at 1, lift. rewrite E. cbn. by eapply assign_new_sees.
Qed.

Lemma clone_then h id b capacity f v s :
  wf s -> cw_ptrs s !! h = Some (Some id) -> buf s id = Some b ->
  (forall b1, good b1 -> vis b1 = vis b -> exists b2, f b1 = Done b2 /\ good b2 /\ vis b2 = v) ->
  post (CloneDataIfReferenced h id capacity ≫= fun _ => on_buffer h f) (fun _ => sees h v s) s.
Proof.
  intros Hs Hh Hb Hf. apply post_bind. eapply post_mono; [by eapply Clone_spec|].
  intros [] s1 (Hw & (b1 & Ho & Hg & Hv) & Hr). destruct (Hf b1 Hg Hv) as (b2 & E & Hg2 & Hv2).
  eapply post_mono; [by eapply on_buffer_spec|]. intros [] s2 H2. by eapply owned_sees.
Qed.

(** The bytes a buffer keeps when it is cut or grows to [size]. *)
Lemma SetSize_sees h size v s :
  wf s -> contents s h = Some v ->
  post (cow_SetSize h size)
    (fun _ s' => exists more, length more = size - length v /\ sees h (take size v ++ more) s s') s.
Proof.
  intros Hs Hv. unfold cow_SetSize. destruct (contents_inv _ _ _ Hs Hv) as [[Hh ->]|(id & b & Hh & Hb & Hg & -> & Ho)].
  - read_ptr Hh. destruct (Nat.ltb_spec 0 size) as [Hp|Hp].
    + eapply post_mono; [eapply assign_new_sees; [done|apply new_Buffer_good|done]|]. intros [] s' Hs'.
      rewrite new_Buffer_vis in Hs'. rewrite take_nil. exists (repeat None size). rewrite repeat_length. cbn. split; [lia|done].
    + apply post_ret. exists []. replace size with 0 by lia. by split_and!.
  - read_ptr Hh. read_obj Ho. apply post_bind. rewrite (length_vis b Hg).
    apply (post_mono _ (fun _ s1 => (exists b', owns h b' s1 /\ good b' /\ b_size b' = Nat.min (b_size b) (b_size b')
       /\ vis b' = take (b_size b') (vis b) /\ Nat.min (b_size b) size <= b_size b') /\ wf s1 /\ others h s s1)).
    + destruct (Nat.eqb_spec (refs id (cw_ptrs s)) 1) as [E1|E1].
      * apply post_ret. split; [|by split]. exists b. split_and!; [exists id; by rewrite <- E1|done|lia| |lia].
        by rewrite <- (length_vis b Hg), firstn_all.
      * destruct (Buffer_from_spec (b_data b) (Nat.min (b_size b) size) (Nat.max (b_capacity b) size)) as (b' & E & Hb' & Ev & Es & _).
        { unfold good, b_capacity in Hg. lia. }
        apply post_bind. unfold post at 1, lift. rewrite E. cbn.
        eapply post_mono; [by eapply assign_new_spec|]. intros [] s1 (? & ? & ?). split; [|done].
        exists b'. split_and!; [done|done|lia| |lia]. rewrite Ev, Es. unfold vis. rewrite take_take. f_equal. lia.
    + intros [] s1 ((b' & Ho' & Hg' & Es & Ev & Hm) & Hw & Hr).
      destruct (SetSize_spec size b' Hg') as (b2 & more & E2 & Hg2 & Ev2 & El).
      eapply post_mono; [by eapply on_buffer_spec|]. intros [] s2 H2.
      exists more. split; [lia|]. eapply owned_sees; [done..|].
      rewrite Ev2, Ev, take_take. f_equal.
      destruct (decide (size <= b_size b')); [f_equal; lia|].
      rewrite !take_ge; rewrite ?(length_vis b Hg); by lia || done.
Qed.

Lemma EnsureCapacity_sees h capacity v s :
  wf s -> contents s h = Some v -> post (cow_EnsureCapacity h capacity) (fun _ => sees h v s) s.
Proof.
  intros Hs Hv. unfold cow_EnsureCapacity. destruct (contents_inv _ _ _ Hs Hv) as [[Hh ->]|(id & b & Hh & Hb & Hg & -> & Ho)].
  - read_ptr Hh. destruct (0 <? capacity); [|by apply post_ret].
    eapply post_mono; [eapply assign_new_sees; [done|apply new_Buffer_good|done]|]. intros [] s' Hs'.
    by rewrite new_Buffer_vis in Hs'.
  - read_ptr Hh. read_obj Ho. destruct (capacity <=? b_capacity b); [by apply post_ret|].
    eapply clone_then; [done..|]. intros b1 Hg1 <-.
    destruct (headroom_spec capacity false b1 Hg1) as (b2 & ? & ? & ? & _). eauto.
Qed.

Lemma Clear_sees h v s : wf s -> contents s h = Some v -> post (cow_Clear h) (fun _ => sees h [] s) s.
Proof.
  intros Hs Hv. unfold cow_Clear. destruct (contents_inv _ _ _ Hs Hv) as [[Hh ->]|(id & b & Hh & Hb & Hg & -> & Ho)].
  - read_ptr Hh. by apply post_ret.
  - read_ptr Hh. read_obj Ho. destruct (Nat.eqb_spec (refs id (cw_ptrs s)) 1) as [E1|E1].
    + eapply post_mono; [eapply (on_buffer_spec h _ b); [done|exists id; by rewrite <- E1|done|]|].
      { unfold good, Buffer_Clear. cbn. lia. }
      intros [] s' Hs'. by eapply owned_sees.
    + eapply post_mono; [eapply assign_new_sees; [done|apply new_Buffer_good|done]|]. intros [] s' Hs'.
      by rewrite new_Buffer_vis in Hs'.
Qed.

Lemma SetData_sees h data v s :
  wf s -> contents s h = Some v -> post (cow_SetData h data (length data)) (fun _ => sees h data s) s.
Proof.
  intros Hs Hv. unfold cow_SetData. destruct (contents_inv _ _ _ Hs Hv) as [[Hh ->]|(id & b & Hh & Hb & Hg & -> & Ho)].
  - read_ptr Hh. destruct data as [|x data]; cbn [length Nat.ltb Nat.leb].
    + eapply post_mono; [eapply (assign_spec h None None None); [done|by left|done|done]|]. intros [] s' Hs'.
      split_and!; [apply Hs'| |by eapply points_others]. destruct Hs' as (_ & E & _).
      unfold contents. by rewrite E, lookup_insert_eq.
    + eapply post_mono; [by eapply (from_sees h (x :: data) (S (length data)))|]. intros [] s'.
      cbn. by rewrite firstn_all.
  - read_ptr Hh. read_obj Ho. destruct (Nat.eqb_spec (refs id (cw_ptrs s)) 1) as [E1|E1].
    + destruct (SetData_spec data (length data) b Hg (le_n _)) as (b' & E & Hg' & Ev). rewrite firstn_all in Ev.
      eapply post_mono; [eapply (on_buffer_spec h _ b b'); [done|exists id; by rewrite <- E1|done|done]|].
      intros [] s' Hs'. by eapply owned_sees.
    + eapply post_mono; [by eapply from_sees|]. intros [] s'. by rewrite firstn_all.
Qed.

Lemma AppendData_sees h data v s :
  wf s -> contents s h = Some v -> post (cow_AppendData h data (length data)) (fun _ => sees h (v ++ data) s) s.
Proof.
  intros Hs Hv. unfold cow_AppendData. destruct (contents_inv _ _ _ Hs Hv) as [[Hh ->]|(id & b & Hh & Hb & Hg & -> & Ho)].
  - read_ptr Hh. eapply post_mono; [by eapply from_sees|]. intros [] s'. by rewrite firstn_all.
  - read_ptr Hh. read_obj Ho. eapply clone_then; [done..|]. intros b1 Hg1 <-.
    destruct (AppendData_spec data (length data) b1 Hg1 (le_n _)) as (b2 & ? & ? & Ev). rewrite firstn_all in Ev. eauto.
Qed.

(** Writing one byte. *)
Lemma store_spec b i x :
  good b -> i < b_size b ->
  exists d, mstore (b_data b) (Z.of_nat i) [Some x] = Done d
    /\ good (mkBuffer (b_size b) d) /\ vis (mkBuffer (b_size b) d) = <[i := Some x]> (vis b).
Proof.
  intros Hg Hi. unfold good, b_capacity in *.
  destruct (lookup_lt_is_Some_2 (b_data b) i) as [y Hy]; [lia|].
  pose proof (take_drop_middle _ _ _ Hy) as E. exists (<[i := Some x]> (b_data b)).
  cbn [b_size b_data]. rewrite length_insert. split_and!; [|done|unfold vis; cbn; apply take_insert_lt; lia].
  rewrite <- E at 1. rewrite mstore_one by (rewrite length_take; lia).
  rewrite (insert_take_drop _ _ _) by lia. done.
Qed.

Lemma write_sees h i x v s :
  wf s -> contents s h = Some v -> i < length v ->
  post (cow_write h i x) (fun _ => sees h (<[i := Some x]> v) s) s.
Proof.
  intros Hs Hv Hi. unfold cow_write. destruct (contents_inv _ _ _ Hs Hv) as [[Hh ->]|(id & b & Hh & Hb & Hg & -> & Ho)].
  - cbn in Hi. lia.
  - read_ptr Hh. read_obj Ho. eapply clone_then; [done..|]. intros b1 Hg1 E1.
    destruct (store_spec b1 i x Hg1) as (d & E & ? & Ev).
    { rewrite <- length_vis, E1 by done. done. }
    rewrite E. cbn. rewrite <- E1. eauto.
Qed.

(** ** The operations on two handles *)

(** Appending what another block holds. *)
Lemma append_after_clone h q data size b v s s1 :
  wf s1 -> owns h b s1 -> good b -> vis b = v -> size <= length data ->
  (cw_ptrs s1 !! h = Some q -> False) -> others h s s1 ->
  post (p ← ptr h; on_buffer h (fun b =>
      if bool_decide (p = q) && negb (b_size b + size <=? b_capacity b) then Undef use_after_free
      else Buffer_AppendData data size b)) (fun _ => sees h (v ++ take size data) s) s1.
Proof.
  intros Hw Ho Hg <- Hl Hq Hr. pose proof Ho as (id & Hp & _). read_ptr Hp.
  destruct (AppendData_spec data size b Hg Hl) as (b2 & E2 & Hg2 & Ev2).
  eapply post_mono; [eapply (on_buffer_spec h _ b b2); [done|done| |done]|].
  - rewrite bool_decide_eq_false_2; [done|]. intros <-. by apply Hq.
  - intros [] s2 H2. by eapply owned_sees.
Qed.

Lemma AppendFrom_sees h g v w s :
  wf s -> h <> g -> contents s h = Some v -> contents s g = Some w ->
  post (cow_AppendFrom h g) (fun _ => sees h (v ++ w) s) s.
Proof.
  intros Hs Hne Hv Hw. unfold cow_AppendFrom.
  assert (exists q data size, cw_ptrs s !! g = Some q /\ size <= length data /\ take size data = w
    /\ (match q with None => mret ([], 0) | Some id => '(_, b) ← obj id; mret (b_data b, b_size b) end : C (mem * nat)) s
       = Done ((data, size), s)) as (q & data & size & Hq & Hl & <- & Eq).
  { destruct (contents_inv _ _ _ Hs Hw) as [[Hq ->]|(id & b & Hq & Hb & Hg & -> & Ho)].
    - by exists None, [], 0.
    - exists (Some id), (b_data b), (b_size b). split_and!; [done|apply Hg|done|].
      unfold mbind, St_bind, obj, step. by rewrite Ho. }
  read_ptr Hq. apply post_bind. unfold post at 1. rewrite Eq.
  destruct (contents_inv _ _ _ Hs Hv) as [[Hh ->]|(id & b & Hh & Hb & Hg & -> & Ho)].
  - read_ptr Hh. by eapply from_sees.
  - read_ptr Hh. read_obj Ho. apply post_bind. eapply post_mono; [by eapply Clone_spec|].
    intros [] s1 (Hw1 & (b1 & Ho1 & Hg1 & Ev) & Hr). pose proof Ho1 as (id' & Hp' & Ho').
    eapply append_after_clone; [done..| |done]. intros Ep. destruct (Hr g (not_eq_sym Hne)) as [_ Eg].
    rewrite Ep in Hp'. injection Hp' as ->.
    pose proof (refs_two id' h g _ Hne Ep ltac:(by rewrite Eg)) as H2. specialize (Hw1 id'). rewrite Ho' in Hw1. lia.
Qed.

(** What a pointer sees. *)
Definition through (s : cow) (p : option nat) : option mem :=
  match p with None => Some [] | Some id => vis <$> buf s id end.

Lemma contents_through s h p : cw_ptrs s !! h = Some p -> contents s h = through s p.
Proof. intros E. unfold contents. by rewrite E. Qed.

Lemma points_sees h p v s s' : through s p = Some v -> points h p s s' -> sees h v s s'.
Proof.
  intros Hp Hs'. split_and!; [apply Hs'| |by eapply points_others]. destruct Hs' as (_ & E & Hb).
  rewrite (contents_through s' h p) by (by rewrite E, lookup_insert_eq). rewrite <- Hp.
  destruct p as [id|]; [|done]. cbn. rewrite Hb; [done|]. apply (refs_pos _ h). by rewrite E, lookup_insert_eq.
Qed.

Lemma through_live s p v : through s p = Some v -> forall id, p = Some id -> is_Some (cw_objs s !! id).
Proof.
  intros Hp id ->. unfold through, buf in Hp. destruct (cw_objs s !! id); [by eexists|done].
Qed.

Lemma copy_sees h g v s :
  wf s -> contents s h = None -> contents s g = Some v -> post (cow_copy h g) (fun _ => sees h v s) s.
Proof.
  intros Hs Hh Hv. apply contents_None in Hh; [|done]. unfold cow_copy.
  destruct (cw_ptrs s !! g) as [p|] eqn:Hg; [|by unfold contents in Hv; rewrite Hg in Hv].
  rewrite (contents_through _ _ _ Hg) in Hv. read_ptr Hg.
  eapply post_mono; [eapply (init_spec h p None); [done|by left|by eapply through_live|done]|].
  intros [] s'. by apply points_sees.
Qed.

Lemma assign_sees h g v w s :
  wf s -> contents s h = Some w -> contents s g = Some v -> post (cow_assign h g) (fun _ => sees h v s) s.
Proof.
  intros Hs Hh Hv. unfold cow_assign. destruct (Nat.eqb_spec h g) as [<-|Hne].
  { apply post_ret. split_and!; [done|done|apply others_refl]. }
  destruct (cw_ptrs s !! g) as [p|] eqn:Hg; [|by unfold contents in Hv; rewrite Hg in Hv].
  destruct (cw_ptrs s !! h) as [old|] eqn:Eh; [|by unfold contents in Hh; rewrite Eh in Hh].
  rewrite (contents_through _ _ _ Hg) in Hv. read_ptr Hg.
  eapply post_mono; [eapply (assign_spec h p old None); [done|by left|by eapply through_live|done]|].
  intros [] s'. by apply points_sees.
Qed.

(** Pointers that move leave the counts as they are. *)
Lemma moved_wf ps s :
  wf s -> (forall id, refs id ps = refs id (cw_ptrs s)) -> wf (mkCow (cw_objs s) ps).
Proof. intros Hs E. eapply counted_ext; [|exact Hs]. intros id. cbn. by rewrite E. Qed.

Lemma contents_moved ps s k : contents (mkCow (cw_objs s) ps) k = (p ← ps !! k; through s p).
Proof. done. Qed.

Lemma swap_spec h g v w s :
  wf s -> contents s h = Some v -> contents s g = Some w ->
  post (cow_swap h g) (fun _ s' => wf s' /\ contents s' g = Some v /\ (h <> g -> contents s' h = Some w)
    /\ forall k, k <> h -> k <> g -> contents s' k = contents s k) s.
Proof.
  intros Hs Hv Hw. unfold cow_swap.
  destruct (cw_ptrs s !! h) as [p|] eqn:Hh; [|by unfold contents in Hv; rewrite Hh in Hv].
  destruct (cw_ptrs s !! g) as [q|] eqn:Hg; [|by unfold contents in Hw; rewrite Hg in Hw].
  rewrite (contents_through _ _ _ Hg) in Hw. rewrite (contents_through _ _ _ Hh) in Hv.
  read_ptr Hh. read_ptr Hg. apply post_bind. unfold post, ptr_put, put, upd_ptrs. cbn. split_and!.
  - apply moved_wf; [done|]. intros id. pose proof (refs_insert id h p q _ Hh) as H1.
    assert (<[h := q]> (cw_ptrs s) !! g = Some q) as Hg'.
    { destruct (decide (h = g)) as [->|]; [by rewrite lookup_insert_eq|by rewrite lookup_insert_ne]. }
    pose proof (refs_insert id g q p _ Hg'). lia.
  - rewrite contents_moved, lookup_insert_eq. done.
  - intros Hne. rewrite contents_moved, lookup_insert_ne, lookup_insert_eq by done. done.
  - intros k Hkh Hkg. rewrite contents_moved, !lookup_insert_ne by done. done.
Qed.

Lemma move_spec h g v s :
  wf s -> contents s h = None -> contents s g = Some v ->
  post (cow_move h g) (fun _ s' => wf s' /\ contents s' h = Some v /\ contents s' g = Some []
    /\ forall k, k <> h -> k <> g -> contents s' k = contents s k) s.
Proof.
  intros Hs Hh Hv. apply contents_None in Hh; [|done]. unfold cow_move.
  destruct (cw_ptrs s !! g) as [p|] eqn:Hg; [|by unfold contents in Hv; rewrite Hg in Hv].
  assert (h <> g) as Hne by congruence. rewrite (contents_through _ _ _ Hg) in Hv.
  read_ptr Hg. apply post_bind. unfold post, ptr_put, put, upd_ptrs. cbn. split_and!.
  - apply moved_wf; [done|]. intros id. pose proof (refs_insert id g p None _ Hg) as H1.
    rewrite refs_insert_new by (by rewrite lookup_insert_ne). rewrite (one_other None) in H1 by done. lia.
  - rewrite contents_moved, lookup_insert_eq. done.
  - rewrite contents_moved, lookup_insert_ne, lookup_insert_eq by done. done.
  - intros k Hkh Hkg. rewrite contents_moved, !lookup_insert_ne by done. done.
Qed.

Lemma move_assign_spec h g v w s :
  wf s -> contents s h = Some w -> contents s g = Some v ->
  post (cow_move_assign h g) (fun _ s' => wf s' /\ contents s' h = Some v /\ (h <> g -> contents s' g = Some [])
    /\ forall k, k <> h -> k <> g -> contents s' k = contents s k) s.
Proof.
  intros Hs Hh Hv. unfold cow_move_assign.
  destruct (cw_ptrs s !! g) as [p|] eqn:Hg; [|by unfold contents in Hv; rewrite Hg in Hv].
  destruct (cw_ptrs s !! h) as [q|] eqn:Eh; [|by unfold contents in Hh; rewrite Eh in Hh].
  rewrite (contents_through _ _ _ Hg) in Hv. read_ptr Hg. apply post_bind. unfold post at 1, ptr_put, put, upd_ptrs. cbn.
  set (ps1 := <[g := None]> (cw_ptrs s)).
  assert (exists old, ps1 !! h = Some old) as (old & Eo).
  { unfold ps1. destruct (decide (g = h)) as [->|]; [rewrite lookup_insert_eq; eauto|].
    rewrite lookup_insert_ne by done. eauto. }
  read_ptr Eo. apply post_bind. unfold post at 1, ptr_put, put, upd_ptrs. cbn.
  set (ps2 := <[h := p]> ps1).
  eapply post_mono; [apply (Release_spec old (fun id => refs id (cw_ptrs s)) (fun id => refs id ps2))|].
  - exact Hs.
  - intros id. pose proof (refs_insert id g p None _ Hg) as H1. pose proof (refs_insert id h old p _ Eo) as H2.
    rewrite (one_other None) in H1 by done. fold ps1 in H1. fold ps2 in H2. lia.
  - intros [] s' (Hc & Ep & Hb). cbn in Ep.
    assert (forall k, contents s' k = (p ← ps2 !! k; through s p)) as Ec.
    { intros k. unfold contents. rewrite Ep. destruct (ps2 !! k) as [[id|]|] eqn:Ek; [|done..]. cbn.
      by rewrite (Hb id (refs_pos _ _ _ Ek)). }
    unfold wf. rewrite Ep. split_and!; [done|..].
    + rewrite Ec. unfold ps2. by rewrite lookup_insert_eq.
    + intros Hne. rewrite Ec. unfold ps2, ps1. by rewrite lookup_insert_ne, lookup_insert_eq.
    + intros k Hkh Hkg. rewrite Ec. unfold ps2, ps1. by rewrite !lookup_insert_ne.
Qed.

Lemma destroy_spec h v s :
  wf s -> contents s h = Some v ->
  post (cow_destroy h) (fun _ s' => wf s' /\ contents s' h = None /\ forall k, k <> h -> contents s' k = contents s k) s.
Proof.
  intros Hs Hh. unfold cow_destroy.
  destruct (cw_ptrs s !! h) as [p|] eqn:Eh; [|by unfold contents in Hh; rewrite Eh in Hh].
  read_ptr Eh. apply post_bind.
  eapply post_mono; [apply (Release_spec p (fun id => refs id (cw_ptrs s)) (fun id => refs id (delete h (cw_ptrs s))))|].
  - exact Hs.
  - intros id. by apply refs_delete.
  - intros [] s' (Hc & Ep & Hb). unfold post, put, upd_ptrs, wf, contents. cbn. rewrite Ep. split_and!; [done|by rewrite lookup_delete_eq|].
    intros k Hk. rewrite lookup_delete_ne by done. destruct (cw_ptrs s !! k) as [[id|]|] eqn:Ek; [|done..]. cbn.
    change (buf (mkCow _ _) id) with (buf s' id). rewrite Hb; [done|]. apply (refs_pos _ k). by rewrite lookup_delete_ne.
Qed.

(** ** The constructors *)

Lemma new_sees h s : wf s -> contents s h = None -> post (cow_new h) (fun _ => sees h [] s) s.
Proof.
  intros Hs Hh. apply contents_None in Hh; [|done].
  eapply (post_mono _ (fun _ => points h None s)).
  - by apply (init_spec h None None s Hs (or_introl eq_refl)).
  - intros [] s'. by apply points_sees.
Qed.

Lemma sized_sees h size capacity s :
  wf s -> contents s h = None -> post (cow_sized h size capacity) (fun _ => sees h (repeat None size) s) s.
Proof.
  intros Hs Hh. destruct (decide (0 < size \/ 0 < capacity)) as [Hp|Hp].
  - eapply post_mono; [apply sized_spec; [done|by apply contents_None|done]|].
    intros [] s' Hs'. eapply owned_sees; [done..|]. apply new_Buffer_vis.
  - replace size with 0 by lia. replace capacity with 0 by lia. by apply new_sees.
Qed.

Lemma data_sees h data capacity s :
  wf s -> contents s h = None -> post (cow_data h data (length data) capacity) (fun _ => sees h data s) s.
Proof.
  intros Hs Hh. unfold cow_data. apply post_bind. destruct (decide (0 < length data \/ 0 < capacity)) as [Hp|Hp].
  - eapply post_mono; [apply sized_spec; [done|by apply contents_None|done]|].
    intros [] s1 (Hw & Ho & Hr). pose proof Ho as (id & Hq & _). read_ptr Hq.
    eapply post_mono; [eapply on_buffer_spec; [done|done| |]|].
    + cbn. rewrite memcpy_front by (rewrite ?repeat_length; lia). done.
    + unfold good, b_capacity. cbn. rewrite length_app, firstn_all. lia.
    + intros [] s2 Hs2. eapply owned_sees; [done..|]. rewrite firstn_all. by apply vis_app.
  - replace data with (@nil (option byte)) by (destruct data; [done|cbn in Hp; lia]).
    replace capacity with 0 by lia. pose proof (new_sees h s Hs Hh) as Hn. unfold post at 1, cow_new, ptr_put, put in Hn.
    unfold post at 1, cow_sized, ptr_put, put, upd_ptrs. cbn. read_ptr (lookup_insert_eq (cw_ptrs s) h None). by apply post_ret.
Qed.

(** ** Independent vectors

    The specification has no blocks, no counts and no capacities: a handle is a
    vector of bytes, [None] where nothing says which. *)

Abbreviation vectors := (gmap nat mem).

Definition new_handle (h : nat) (v : mem) (a : vectors) : option vectors :=
  match a !! h with None => Some (<[h := v]> a) | Some _ => None end.
Definition change (h : nat) (f : mem -> mem) (a : vectors) : option vectors := v ← a !! h; Some (<[h := f v]> a).

Definition spec_do (o : cow_op) (a : vectors) : option vectors :=
  match o with
  | CNew h => new_handle h [] a
  | CSized h size _ => new_handle h (repeat None size) a
  | CData h data _ => new_handle h (mem_of data) a
  | CCopy h g => v ← a !! g; new_handle h v a
  | CMove h g => v ← a !! g; new_handle h v (<[g := []]> a)
  | CDestroy h => _ ← a !! h; Some (delete h a)
  | CAssign h g => v ← a !! g; change h (fun _ => v) a
  | CMoveAssign h g => v ← a !! g; _ ← a !! h; Some (<[h := v]> (<[g := []]> a))
  | CSetData h data => change h (fun _ => mem_of data) a
  | CAppendData h data => change h (fun v => v ++ mem_of data) a
  | CAppendFrom h g => w ← a !! g; if h =? g then None else change h (fun v => v ++ w) a
  | CSetSize h size => change h (fun v => take size v ++ repeat None (size - length v)) a
  | CEnsureCapacity h _ => change h id a
  | CClear h => change h (fun _ => []) a
  | CSwap h g => v ← a !! h; w ← a !! g; Some (<[g := v]> (<[h := w]> a))
  | CWrite h i x => v ← a !! h; if i <? length v then Some (<[h := <[i := Some x]> v]> a) else None
  end.

Fixpoint spec_run (os : list cow_op) (a : vectors) : option vectors :=
  match os with [] => Some a | o :: os => a ← spec_do o a; spec_run os a end.

Definition agree (a c : option byte) : Prop := a = None \/ a = c.

Definition refines (a : vectors) (s : cow) : Prop :=
  wf s /\ forall h, option_Forall2 (Forall2 agree) (a !! h) (contents s h).

#[export] Instance agree_refl : Reflexive agree.
Proof. intros x. by right. Qed.

Lemma refines_some a s h v :
  refines a s -> a !! h = Some v -> exists c, contents s h = Some c /\ Forall2 agree v c.
Proof. intros [_ Hr] Ev. specialize (Hr h). rewrite Ev in Hr. inversion Hr; subst. eauto. Qed.

Lemma refines_none a s h : refines a s -> a !! h = None -> contents s h = None.
Proof. intros [_ Hr] Ev. specialize (Hr h). rewrite Ev in Hr. by inversion Hr. Qed.

Lemma refines_sees h v c a s s' :
  refines a s -> Forall2 agree v c -> sees h c s s' -> refines (<[h := v]> a) s'.
Proof.
  intros [_ Hr] Hv (Hw & Hc & Ho). split; [done|]. intros k. destruct (decide (k = h)) as [->|Hne].
  - rewrite lookup_insert_eq, Hc. by constructor.
  - rewrite lookup_insert_ne by done. destruct (Ho k Hne) as [-> _]. apply Hr.
Qed.

Lemma new_refines h v c a a' s (m : C ()) :
  refines a s -> new_handle h v a = Some a' -> Forall2 agree v c ->
  (contents s h = None -> post m (fun _ => sees h c s) s) -> post m (fun _ => refines a') s.
Proof.
  intros Hr Ha Hv Hm. unfold new_handle in Ha. destruct (a !! h) eqn:Ev; [done|]. injection Ha as <-.
  eapply post_mono; [by apply Hm, (refines_none a)|]. intros [] s' Hs'. by eapply refines_sees.
Qed.

(** A move between two handles; [h] may be [g]. *)
Lemma refines_two h g v w c d a s s' :
  refines a s -> Forall2 agree v c -> Forall2 agree w d ->
  wf s' -> contents s' h = Some c -> (h <> g -> contents s' g = Some d) ->
  (forall k, k <> h -> k <> g -> contents s' k = contents s k) ->
  refines (<[h := v]> (<[g := w]> a)) s'.
Proof.
  intros [_ Hr] Hv Hw Hs' Hc Hd Ho. split; [done|]. intros k. destruct (decide (k = h)) as [->|Hne].
  - rewrite lookup_insert_eq, Hc. by constructor.
  - rewrite lookup_insert_ne by done. destruct (decide (k = g)) as [->|Hne'].
    + rewrite lookup_insert_eq, Hd by done. by constructor.
    + rewrite lookup_insert_ne, Ho by done. apply Hr.
Qed.

Lemma agree_more n more : length more = n -> Forall2 agree (repeat None n) more.
Proof.
  intros <-. induction more; cbn; constructor; [by left|done].
Qed.

(** A change of one handle. *)
Lemma change_step h f a a' s (m : C ()) :
  refines a s -> change h f a = Some a' -> wf s ->
  (forall v c, contents s h = Some c -> Forall2 agree v c ->
     exists c', Forall2 agree (f v) c' /\ post m (fun _ => sees h c' s) s) ->
  post m (fun _ => refines a') s.
Proof.
  intros Hr Ha Hs Hm. unfold change in Ha. destruct (a !! h) as [v|] eqn:Ev; [|done]. injection Ha as <-.
  destruct (refines_some _ _ _ _ Hr Ev) as (c & Hc & Hv). destruct (Hm v c Hc Hv) as (c' & Hv' & Hp).
  eapply post_mono; [exact Hp|]. intros [] s' Hs'. by eapply refines_sees.
Qed.

Lemma one_handle_refines o a a' s :
  match o with CCopy _ _ | CMove _ _ | CDestroy _ | CAssign _ _ | CMoveAssign _ _ | CAppendFrom _ _ | CSwap _ _ => False | _ => True end ->
  refines a s -> spec_do o a = Some a' -> post (cow_do o) (fun _ => refines a') s.
Proof.
  intros Ho Hr Ha. pose proof (proj1 Hr) as Hs. destruct o; try done; cbn [spec_do cow_do] in *.
  - eapply new_refines; [done..|]. by apply new_sees.
  - eapply new_refines; [done..|]. by apply sized_sees.
  - eapply new_refines; [done..|]. intros. rewrite <- length_mem_of. by apply data_sees.
  - eapply change_step; [done..|]. intros v c Hc Hv. exists (mem_of data). split; [done|].
    rewrite <- length_mem_of. by eapply SetData_sees.
  - eapply change_step; [done..|]. intros v c Hc Hv. exists (c ++ mem_of data). split; [by apply Forall2_app|].
    rewrite <- length_mem_of. by eapply AppendData_sees.
  - unfold change in Ha. destruct (a !! h) as [v|] eqn:Ev; [|done]. injection Ha as <-.
    destruct (refines_some _ _ _ _ Hr Ev) as (c & Hc & Hv). eapply post_mono; [by eapply SetSize_sees|].
    intros [] s' (more & El & Hs'). eapply refines_sees; [done| |done]. apply Forall2_app; [by apply Forall2_take|].
    apply agree_more. by rewrite El, (Forall2_length _ _ _ Hv).
  - eapply change_step; [done..|]. intros v c Hc Hv. exists c. split; [done|]. by apply EnsureCapacity_sees.
  - eapply change_step; [done..|]. intros v c Hc Hv. exists []. split; [done|]. by eapply Clear_sees.
  - destruct (a !! h) as [w|] eqn:Ev; [|done]. cbn [mbind option_bind] in Ha. destruct (Nat.ltb_spec i (length w)); [|done]. injection Ha as <-.
    destruct (refines_some _ _ _ _ Hr Ev) as (c & Hc & Hv). eapply post_mono; [eapply write_sees; [done..|]|].
    { by rewrite <- (Forall2_length _ _ _ Hv). }
    intros [] s' Hs'. eapply refines_sees; [done| |done]. by apply Forall2_insert.
Qed.

Lemma do_refines o a a' s :
  refines a s -> spec_do o a = Some a' -> post (cow_do o) (fun _ => refines a') s.
Proof.
  intros Hr Ha. pose proof (proj1 Hr) as Hs. destruct o; try (by eapply one_handle_refines); cbn [spec_do cow_do] in *.
  - destruct (a !! g) as [v|] eqn:Ev; [|done]. destruct (refines_some _ _ _ _ Hr Ev) as (c & Hc & Hv).
    eapply new_refines; [done..|]. intros. by apply copy_sees.
  - destruct (a !! g) as [v|] eqn:Ev; [|done]. destruct (refines_some _ _ _ _ Hr Ev) as (c & Hc & Hv).
    cbn in Ha. unfold new_handle in Ha. destruct (<[g:=[]]> a !! h) eqn:Eh; [done|]. injection Ha as <-.
    apply lookup_insert_None in Eh as [Eh Hne].
    eapply post_mono; [eapply move_spec; [done|by eapply refines_none|done]|].
    intros [] s' (? & ? & ? & ?). eapply refines_two; done.
  - destruct (a !! h) as [v|] eqn:Ev; [|done]. destruct (refines_some _ _ _ _ Hr Ev) as (c & Hc & Hv). injection Ha as <-.
    eapply post_mono; [by eapply destroy_spec|]. intros [] s' (Hw & Hn & Ho). split; [done|]. intros k.
    destruct (decide (k = h)) as [->|Hne]; [rewrite lookup_delete_eq, Hn; constructor|].
    rewrite lookup_delete_ne, Ho by done. apply Hr.
  - destruct (a !! g) as [v|] eqn:Ev; [|done]. destruct (refines_some _ _ _ _ Hr Ev) as (c & Hc & Hv).
    eapply change_step; [done..|]. intros w d Hd Hw. exists c. split; [done|]. by eapply assign_sees.
  - destruct (a !! g) as [v|] eqn:Ev; [|done]. destruct (refines_some _ _ _ _ Hr Ev) as (c & Hc & Hv).
    cbn in Ha. destruct (a !! h) as [w|] eqn:Ew; [|done]. destruct (refines_some _ _ _ _ Hr Ew) as (d & Hd & Hw).
    injection Ha as <-. eapply post_mono; [by eapply move_assign_spec|].
    intros [] s' (? & ? & ? & ?). eapply refines_two; done.
  - destruct (a !! g) as [w|] eqn:Ew; [|done]. destruct (refines_some _ _ _ _ Hr Ew) as (d & Hd & Hw). cbn in Ha.
    destruct (Nat.eqb_spec h g) as [|Hne]; [done|].
    eapply change_step; [done..|]. intros v c Hc Hv. exists (c ++ d). split; [by apply Forall2_app|]. by apply AppendFrom_sees.
  - destruct (a !! h) as [v|] eqn:Ev; [|done]. destruct (refines_some _ _ _ _ Hr Ev) as (c & Hc & Hv). cbn in Ha.
    destruct (a !! g) as [w|] eqn:Ew; [|done]. destruct (refines_some _ _ _ _ Hr Ew) as (d & Hd & Hw).
    injection Ha as <-. eapply post_mono; [by eapply swap_spec|]. intros [] s' (? & ? & Hh & Hk).
    eapply refines_two; [done..|intros Hne; apply Hh; congruence|auto].
Qed.

Lemma run_refines os a a' s :
  refines a s -> spec_run os a = Some a' -> post (cow_run os) (fun _ => refines a') s.
Proof.
  revert a s. induction os as [|o os IH]; intros a s Hr Ha; cbn in *.
  - injection Ha as <-. by apply post_ret.
  - destruct (spec_do o a) as [a1|] eqn:E; [|done]. apply post_bind. eapply post_mono; [by eapply do_refines|].
    intros [] s1 H1. by eapply IH.
Qed.

Definition no_buffers : cow := mkCow ∅ ∅.

Lemma no_buffers_refine : refines ∅ no_buffers.
Proof. split; [intros id; done|]. intros h. rewrite !lookup_empty. constructor. Qed.

(** A buffer that is appended to itself. *)
Lemma refs_other id h ps :
  ps !! h = Some (Some id) -> refs id ps <> 1 -> exists k, k <> h /\ ps !! k = Some (Some id).
Proof.
  intros Hh Hr. rewrite (refs_delete _ _ _ _ Hh), one_same in Hr. unfold refs in Hr.
  destruct (map_choose (filter (fun kv => kv.2 = Some id) (delete h ps))) as (k & p & Hk).
  { intros E. rewrite E in Hr. by apply Hr. }
  apply map_lookup_filter_Some in Hk as [Hk Ep]. cbn in Ep. subst p.
  apply lookup_delete_Some in Hk as [Hne Hk]. exists k. split; [congruence|done].
Qed.

Lemma self_append_sole h id b s :
  cw_ptrs s !! h = Some (Some id) -> cw_objs s !! id = Some (1, b) ->
  cow_AppendFrom h h s = on_buffer h (fun b' =>
    if bool_decide (Some id = Some id) && negb (b_size b' + b_size b <=? b_capacity b') then Undef use_after_free
    else Buffer_AppendData (b_data b) (b_size b) b') s.
Proof.
  intros Hh Ho. unfold cow_AppendFrom, CloneDataIfReferenced, mbind, St_bind, ptr, obj, step.
  rewrite Hh. cbn. rewrite Ho. cbn. rewrite Hh. cbn. rewrite Ho. cbn. rewrite Ho. cbn. by rewrite Hh.
Qed.

Lemma post_ext {A} (m m' : C A) Q s : m s = m' s -> post m' Q s -> post m Q s.
Proof. unfold post. by intros ->. Qed.

(** Appending a buffer to itself ([buf.AppendData(buf)]) doubles its bytes
    when the block is shared or has room; when the handle is the only one and
    the block has to grow, the bytes are read after the block is freed. *)
Theorem cow_self_append h id r b s :
  wf s -> cw_ptrs s !! h = Some (Some id) -> cw_objs s !! id = Some (r, b) ->
  if (r =? 1) && (b_capacity b <? b_size b + b_size b)
  then cow_do (CAppendFrom h h) s = Undef use_after_free
  else post (cow_do (CAppendFrom h h)) (fun _ s' => wf s' /\ contents s' h = Some (vis b ++ vis b)
    /\ forall k, k <> h -> contents s' k = contents s k) s.
Proof.
  intros Hs Hh Ho. cbn [cow_do]. destruct (wf_obj _ _ _ Hs Hh) as (b0 & E & Hg).
  rewrite Ho in E. injection E as -> <-. destruct (Nat.eqb_spec (refs id (cw_ptrs s)) 1) as [E1|E1]; cbn [andb].
  - rewrite E1 in Ho. destruct (Nat.ltb_spec (b_capacity b) (b_size b + b_size b)) as [Hc|Hc].
    + rewrite (self_append_sole h id b s Hh Ho). unfold on_buffer, mbind, St_bind, ptr, obj, step.
      rewrite Hh. cbn. rewrite Ho. cbn. unfold lift. rewrite bool_decide_eq_true_2 by done.
      replace (_ <=? _) with false; [done|]. symmetry. by apply Nat.leb_gt.
    + eapply post_ext; [by apply self_append_sole|].
      destruct (AppendData_spec (b_data b) (b_size b) b Hg Hg) as (b2 & E2 & Hg2 & Ev2). fold (vis b) in Ev2.
      eapply post_mono; [eapply (on_buffer_spec h _ b b2); [done|by exists id| |done]|].
      * rewrite bool_decide_eq_true_2 by done. replace (_ <=? _) with true; [done|]. symmetry. by apply Nat.leb_le.
      * intros [] s' (? & Ho' & Hr). rewrite <- Ev2. split_and!; [done|by apply owns_contents|].
        intros k Hk. by destruct (Hr k Hk).
  - unfold cow_AppendFrom. read_ptr Hh. apply post_bind. unfold post at 1, obj, step, mbind, St_bind. rewrite Ho. cbn.
    read_ptr Hh. read_obj Ho. apply post_bind. eapply post_mono; [eapply Clone_spec; [done..|unfold buf; by rewrite Ho]|].
    intros [] s1 (Hw1 & (b1 & Ho1 & Hg1 & Ev) & Hr).
    destruct (refs_other _ _ _ Hh E1) as (k & Hne & Hk). destruct (Hr k Hne) as [_ Ek].
    eapply post_mono; [eapply (append_after_clone h (Some id) (b_data b) (b_size b)); [done..| |done]|].
    + intros Ep. destruct Ho1 as (id' & Hp' & Ho'). rewrite Ep in Hp'. injection Hp' as ->.
      pose proof (refs_two id' h k _ (not_eq_sym Hne) Ep ltac:(by rewrite Ek)) as H2. specialize (Hw1 id').
      rewrite Ho' in Hw1. lia.
    + intros [] s' (? & ? & Hr'). split_and!; [done..|]. intros j Hj. by destruct (Hr' j Hj).
Qed.

(** Three bytes in a block of three, which one handle has. *)
Definition sole : cow :=
  mkCow {[ 0 := (1, mkBuffer 3 (mem_of (str "abc"))) ]} {[ 0 := Some 0 ]}.

Lemma sole_wf : wf sole.
Proof.
  intros id. destruct (decide (id = 0)) as [->|Hne].
  - split; [vm_compute; reflexivity|]. split; [vm_compute; lia|left; lia].
  - cbn. rewrite lookup_singleton_ne by done. unfold refs. rewrite map_filter_singleton. cbn.
    rewrite decide_False by congruence. done.
Qed.

Lemma cow_self_append_witness : cow_do (CAppendFrom 0 0) sole = Undef use_after_free.
Proof. exact (cow_self_append 0 0 1 (mkBuffer 3 (mem_of (str "abc"))) sole sole_wf eq_refl eq_refl). Defined.

(** C17: handles are independent vectors of bytes.  Whatever constructors,
    copies, moves, assignments, writes and destructors run, on handles that
    exist and with no buffer appended to itself, no freed block is used, each
    handle sees what its vector has where the vector says, the counts are those
    of the pointers, and no block is left once the handles are gone. *)
Theorem cow_refines os a :
  spec_run os ∅ = Some a ->
  exists s, cow_run os no_buffers = Done ((), s)
    /\ (forall h, option_Forall2 (Forall2 agree) (a !! h) (contents s h))
    /\ (forall id r b, cw_objs s !! id = Some (r, b) -> r = refs id (cw_ptrs s) /\ 0 < r /\ b_size b <= b_capacity b)
    /\ (a = ∅ -> cw_objs s = ∅).
Proof.
  intros Ha. pose proof (run_refines os ∅ a no_buffers no_buffers_refine Ha) as Hp.
  apply post_Done in Hp as ([] & s & E & Hr). exists s.
  assert (forall id r b, cw_objs s !! id = Some (r, b) -> r = refs id (cw_ptrs s) /\ 0 < r /\ b_size b <= b_capacity b) as Hc.
  { intros id r b Ho. destruct Hr as [Hw _]. specialize (Hw id). rewrite Ho in Hw. by destruct Hw as (? & ? & [?|?]). }
  split_and!; [done|apply Hr|done|]. intros ->. apply map_empty. intros id.
  destruct (cw_objs s !! id) as [[r b]|] eqn:Ho; [|done]. destruct (Hc _ _ _ Ho) as (Er & Hpos & _).
  assert (cw_ptrs s = ∅) as Ep.
  { apply map_empty. intros h. apply contents_None; [|by apply Hr]. by apply (refines_none ∅ s h). }
  rewrite Ep in Er. cbn in Er. unfold refs in Er. rewrite map_filter_empty, map_size_empty in Er. lia.
Qed.

(** Two handles share "abc"; one writes, the other is cut; both go. *)
Definition cow_example : list cow_op :=
  [CData 0 (str "abc") 3; CCopy 1 0; CWrite 1 0 "x"%byte; CCopy 2 0; CSetSize 0 2; CAppendFrom 0 1; CMove 3 2; CSetSize 3 5].

Lemma cow_refines_witness :
  (exists a, spec_run cow_example ∅ = Some a
     /\ a !! 0 = Some (mem_of (str "abxbc")) /\ a !! 3 = Some (mem_of (str "abc") ++ [None; None]))
  /\ exists s, cow_run (cow_example ++ map CDestroy [0; 1; 2; 3]) no_buffers = Done ((), s) /\ cw_objs s = ∅.
Proof.
  split.
  - eexists. split; [vm_compute; reflexivity|]. split; vm_compute; reflexivity.
  - destruct (cow_refines (cow_example ++ map CDestroy [0; 1; 2; 3]) ∅) as (s & E & _ & _ & He);
      [vm_compute; reflexivity|]. exists s. split; [exact E|by apply He].
Defined.

(** ** Comparison *)

Lemma cells_bytes_inj u v : cells_bytes u = Done v -> u = mem_of v.
Proof.
  revert v. induction u as [|[x|] u IH]; intros v E; cbn in E; [by injection E as <-| |done].
  destruct (cells_bytes u) as [w| |]; try done. injection E as <-. cbn. by rewrite (IH w).
Qed.

(** Two buffers with bytes everywhere compare as their bytes, but a handle with
    no block differs from one with an empty block, and appending nothing to a
    handle with no block gives it a block of capacity 0. *)
Lemma cow_eq_bytes h g i j a b v w s :
  cw_ptrs s !! h = Some (Some i) -> cw_ptrs s !! g = Some (Some j) -> buf s i = Some a -> buf s j = Some b ->
  good a -> good b -> vis a = mem_of v -> vis b = mem_of w ->
  cow_eq h g s = Done (bool_decide (v = w), s).
Proof.
  intros Hh Hg Ha Hb Ga Gb Va Vb. unfold buf in *.
  destruct (cw_objs s !! i) as [[ri a']|] eqn:Ei; [|done]. injection Ha as ->.
  destruct (cw_objs s !! j) as [[rj b']|] eqn:Ej; [|done]. injection Hb as ->.
  pose proof (length_vis a Ga) as La. pose proof (length_vis b Gb) as Lb. rewrite Va, length_mem_of in La. rewrite Vb, length_mem_of in Lb.
  unfold cow_eq, mbind, St_bind, ptr, step. rewrite Hh. cbn. rewrite Hg. cbn.
  destruct (decide (i = j)) as [->|Hne].
  { rewrite bool_decide_eq_true_2 by done. rewrite Ei in Ej. injection Ej as _ ->.
    rewrite bool_decide_eq_true_2; [done|]. rewrite Va in Vb. unfold mem_of in Vb. by simplify_eq. }
  rewrite bool_decide_eq_false_2 by congruence. unfold obj, step. rewrite Ei. cbn. rewrite Ej. cbn. unfold lift, Buffer_eq.
  destruct (Nat.eqb_spec (b_size a) (b_size b)) as [El|El]; cbn [negb].
  - unfold mread. rewrite (data_split a), (data_split b), Va, Vb.
    rewrite !mslice_front by (rewrite length_mem_of; lia). cbn. by rewrite !cells_bytes_mem_of.
  - cbn. rewrite bool_decide_eq_false_2; [done|]. intros ->. lia.
Qed.

Lemma cow_eq_null h g j s :
  cw_ptrs s !! h = Some None -> cw_ptrs s !! g = Some (Some j) -> cow_eq h g s = Done (false, s).
Proof. intros Hh Hg. unfold cow_eq, mbind, St_bind, ptr, step. rewrite Hh. cbn. by rewrite Hg. Qed.

Lemma append_nothing s h :
  wf s -> cw_ptrs s !! h = Some None ->
  post (cow_AppendData h [] 0) (fun _ s' => exists b, owns h b s' /\ b_capacity b = 0) s.
Proof.
  intros Hs Hh. unfold cow_AppendData. read_ptr Hh.
  destruct (Buffer_from_spec [] 0 0 (le_n _)) as (b & E & Hb & _ & _ & Hc). apply post_bind. unfold post at 1, lift.
  rewrite E. cbn. eapply post_mono; [by eapply assign_new_spec|]. intros [] s' (_ & Ho & _). eauto.
Qed.
