(* ===== verification/IpAddress.v ===== *)
(** * Addresses (rtc_base/ip_address.cc, rtc_base/socket_address.cc, ice/candidate.cpp)

    IP addresses, their classification and order; socket addresses with the
    order and the equality that key the maps of the server; the priority of a
    candidate. *)

From S2P Require Import Prelude.
Local Open Scope Z_scope.

(** ** IPAddress *)

(** An [in_addr] is its host-order integer, an [in6_addr] its sixteen bytes
    read as one big-endian number. *)
Inductive IPAddress : Type :=
  | ip_unspec
  | ip_v4 (a : Z)
  | ip_v6 (a : Z).

#[export] Instance IPAddress_eq_dec : EqDecision IPAddress.
Proof. solve_decision. Defined.

Definition ip_wf (ip : IPAddress) : Prop :=
  match ip with
  | ip_unspec => True
  | ip_v4 a => 0 <= a < 2 ^ 32
  | ip_v6 a => 0 <= a < 2 ^ 128
  end.

Inductive family : Type := AF_UNSPEC | AF_INET | AF_INET6.

#[export] Instance family_eq_dec : EqDecision family.
Proof. solve_decision. Defined.

Definition ip_family (ip : IPAddress) : family :=
  match ip with ip_unspec => AF_UNSPEC | ip_v4 _ => AF_INET | ip_v6 _ => AF_INET6 end.

Definition ip_eqb (x y : IPAddress) : bool :=
  match x, y with
  | ip_v4 a, ip_v4 b | ip_v6 a, ip_v6 b => a =? b
  | ip_unspec, ip_unspec => true
  | _, _ => false
  end.

Definition ip_lt (x y : IPAddress) : bool :=
  match x, y with
  | ip_unspec, ip_unspec => false
  | ip_unspec, _ => true
  | ip_v4 _, ip_v6 _ => true
  | ip_v4 a, ip_v4 b | ip_v6 a, ip_v6 b => a <? b
  | _, _ => false
  end.

Definition v4AddressAsHostOrderInteger (ip : IPAddress) : Z :=
  match ip with ip_v4 a => a | _ => 0 end.

Definition INADDR_ANY : Z := 0.
Definition in6addr_any : Z := 0.
Definition in6addr_loopback : Z := 1.
Definition kV4MappedPrefix : Z := Z.shiftl 0xFFFF 32.
Definition k6To4Prefix : Z := Z.shiftl 0x2002 112.
Definition kTeredoPrefix : Z := Z.shiftl 0x20010000 96.
Definition kV4CompatibilityPrefix : Z := 0.
Definition k6BonePrefix : Z := Z.shiftl 0x3ffe 112.
Definition kPrivateNetworkPrefix : Z := Z.shiftl 0xFD 120.

(** The [i]-th of the sixteen bytes. *)
Definition v6_byte (a : Z) (i : Z) : Z := Z.land (Z.shiftr a (8 * (15 - i))) 0xFF.

(** [memcmp] of the first [length >> 3] bytes. *)
Definition IPIsHelper (a tomatch : Z) (length : Z) : bool :=
  let n := Z.shiftr length 3 in
  Z.shiftr a (8 * (16 - n)) =? Z.shiftr tomatch (8 * (16 - n)).

Definition IPIsAny (ip : IPAddress) : bool :=
  match ip with
  | ip_v4 a => a =? INADDR_ANY
  | ip_v6 a => (a =? in6addr_any) || (a =? kV4MappedPrefix)
  | ip_unspec => false
  end.

Definition IPIsUnspec (ip : IPAddress) : bool :=
  match ip with ip_unspec => true | _ => false end.

Definition IPIsLoopback (ip : IPAddress) : bool :=
  match ip with
  | ip_v4 a => Z.shiftr a 24 =? 127
  | ip_v6 a => a =? in6addr_loopback
  | ip_unspec => false
  end.

Definition IPIsPrivateNetwork (ip : IPAddress) : bool :=
  match ip with
  | ip_v4 a => (Z.shiftr a 24 =? 10) || (Z.shiftr a 20 =? Z.lor (Z.shiftl 172 4) 1) ||
               (Z.shiftr a 16 =? Z.lor (Z.shiftl 192 8) 168)
  | ip_v6 a => IPIsHelper a kPrivateNetworkPrefix 8
  | ip_unspec => false
  end.

Definition IPIsSharedNetwork (ip : IPAddress) : bool :=
  match ip with
  | ip_v4 a => Z.shiftr a 22 =? Z.lor (Z.shiftl 100 2) 1
  | _ => false
  end.

Definition IPIsLinkLocal (ip : IPAddress) : bool :=
  match ip with
  | ip_v4 a => Z.shiftr a 16 =? Z.lor (Z.shiftl 169 8) 254
  | ip_v6 a => (v6_byte a 0 =? 0xFE) && (Z.land (v6_byte a 1) 0xC0 =? 0x80)
  | ip_unspec => false
  end.

Definition IPIsPrivate (ip : IPAddress) : bool :=
  IPIsLinkLocal ip || IPIsLoopback ip || IPIsPrivateNetwork ip || IPIsSharedNetwork ip.

Definition IPIsULA (a : Z) : bool := Z.land (v6_byte a 0) 0xFE =? 0xFC.
Definition IPIsSiteLocal (a : Z) : bool :=
  (v6_byte a 0 =? 0xFE) && (Z.land (v6_byte a 1) 0xC0 =? 0xC0).
Definition IPIsV4Mapped (a : Z) : bool := IPIsHelper a kV4MappedPrefix 96.
Definition IPIs6To4 (a : Z) : bool := IPIsHelper a k6To4Prefix 16.
Definition IPIsTeredo (a : Z) : bool := IPIsHelper a kTeredoPrefix 32.
Definition IPIsV4Compatibility (a : Z) : bool := IPIsHelper a kV4CompatibilityPrefix 96.
Definition IPIs6Bone (a : Z) : bool := IPIsHelper a k6BonePrefix 16.

Definition IPAddressPrecedence (ip : IPAddress) : Z :=
  match ip with
  | ip_v4 _ => 30
  | ip_v6 a =>
      if IPIsLoopback ip then 60
      else if IPIsULA a then 50
      else if IPIsV4Mapped a then 30
      else if IPIs6To4 a then 20
      else if IPIsTeredo a then 10
      else if IPIsV4Compatibility a || IPIsSiteLocal a || IPIs6Bone a then 1
      else 40
  | ip_unspec => 0
  end.

Definition AsIPv6Address (ip : IPAddress) : IPAddress :=
  match ip with
  | ip_v4 a => ip_v6 (Z.lor kV4MappedPrefix a)
  | _ => ip
  end.

Definition Normalized (ip : IPAddress) : IPAddress :=
  match ip with
  | ip_v6 a => if IPIsV4Mapped a then ip_v4 (Z.land a 0xFFFFFFFF) else ip
  | _ => ip
  end.

(** ** SocketAddress *)

Record SocketAddress : Type := {
  hostname_ : bytes;
  ip_ : IPAddress;
  port_ : Z;
  scope_id_ : Z;
  literal_ : bool;
}.

#[export] Instance SocketAddress_eq_dec : EqDecision SocketAddress.
Proof. solve_decision. Defined.

Definition addr_wf (a : SocketAddress) : Prop :=
  ip_wf (ip_ a) /\ 0 <= port_ a < 2 ^ 16.

(** The constructors from a resolved IP address. *)
Definition mk_addr (ip : IPAddress) (port : Z) : SocketAddress :=
  {| hostname_ := []; ip_ := ip; port_ := port; scope_id_ := 0; literal_ := false |}.

Definition nil_addr : SocketAddress := mk_addr ip_unspec 0.

Definition IsNil (a : SocketAddress) : bool :=
  bool_decide (hostname_ a = []) && IPIsUnspec (ip_ a) && (port_ a =? 0).

Definition IsComplete (a : SocketAddress) : bool :=
  negb (IPIsAny (ip_ a)) && negb (port_ a =? 0).

Definition EqualIPs (x y : SocketAddress) : bool :=
  ip_eqb (ip_ x) (ip_ y) &&
  ((negb (IPIsAny (ip_ x)) && negb (IPIsUnspec (ip_ x))) ||
   bool_decide (hostname_ x = hostname_ y)).

Definition EqualPorts (x y : SocketAddress) : bool := port_ x =? port_ y.

(** [operator==] *)
Definition addr_eqb (x y : SocketAddress) : bool := EqualIPs x y && EqualPorts x y.

(** [std::string::operator<]: lexicographic on unsigned bytes. *)
Fixpoint bytes_lt (s t : bytes) : bool :=
  match s, t with
  | _, [] => false
  | [], _ :: _ => true
  | a :: s', b :: t' =>
      if byte_z a <? byte_z b then true
      else if byte_z b <? byte_z a then false else bytes_lt s' t'
  end.

(** [operator<] *)
Definition addr_lt (x y : SocketAddress) : bool :=
  if negb (ip_eqb (ip_ x) (ip_ y)) then ip_lt (ip_ x) (ip_ y)
  else if (IPIsAny (ip_ x) || IPIsUnspec (ip_ x)) &&
          negb (bool_decide (hostname_ x = hostname_ y))
  then bytes_lt (hostname_ x) (hostname_ y)
  else port_ x <? port_ y.

(** What a [sockaddr_storage] holds after [memset] and the assignments of
    [ToSockAddrStorageHelper]; ports are stored in network byte order. *)
Inductive sockaddr_storage : Type :=
  | ss_none
  | ss_in (sin_port : Z) (sin_addr : Z)
  | ss_in6 (sin6_port : Z) (sin6_addr : Z) (sin6_scope_id : Z).

Definition HostToNetwork16 (n : Z) : Z :=
  Z.lor (Z.shiftl (Z.land n 0xFF) 8) (Z.shiftr n 8).
Definition NetworkToHost16 (n : Z) : Z := HostToNetwork16 n.

Definition ToSockAddrStorageHelper (ip : IPAddress) (port scope_id : Z) : sockaddr_storage :=
  match ip with
  | ip_v6 a => ss_in6 (HostToNetwork16 port) a scope_id
  | ip_v4 a => ss_in (HostToNetwork16 port) a
  | ip_unspec => ss_none
  end.

Definition ToSockAddrStorage (a : SocketAddress) : sockaddr_storage :=
  ToSockAddrStorageHelper (ip_ a) (port_ a) (scope_id_ a).

Definition ToDualStackSockAddrStorage (a : SocketAddress) : sockaddr_storage :=
  ToSockAddrStorageHelper (AsIPv6Address (ip_ a)) (port_ a) (scope_id_ a).

Definition SetScopeID (a : SocketAddress) (id : Z) : SocketAddress :=
  {| hostname_ := hostname_ a; ip_ := ip_ a; port_ := port_ a; scope_id_ := id;
     literal_ := literal_ a |}.

Definition SocketAddressFromSockAddrStorage (s : sockaddr_storage) : option SocketAddress :=
  match s with
  | ss_in p a => Some (mk_addr (ip_v4 a) (NetworkToHost16 p))
  | ss_in6 p a sc => Some (SetScopeID (mk_addr (ip_v6 a) (NetworkToHost16 p)) sc)
  | ss_none => None
  end.

(** ** Candidate *)

Definition ICE_CANDIDATE_COMPONENT_RTP : Z := 1.
Definition ICE_CANDIDATE_COMPONENT_RTCP : Z := 2.
Definition ICE_TYPE_PREFERENCE_RELAY_UDP : Z := 2.
Definition ICE_TYPE_PREFERENCE_SRFLX : Z := 100.
Definition ICE_TYPE_PREFERENCE_PRFLX : Z := 110.
Definition ICE_TYPE_PREFERENCE_HOST : Z := 126.

Record Candidate : Type := {
  component : Z;
  protocol : bytes;
  address : SocketAddress;
  cand_port : Z;
  cand_priority : Z;
  cand_username : bytes;
  cand_password : bytes;
  cand_type : bytes;
  foundation : bytes;
}.

(** [Candidate::get_priority], a [uint32_t]. *)
Definition get_priority (ip : IPAddress) (comp : Z)
    (type_preference network_adapter_preference relay_preference : Z) : Z :=
  let addr_ref := IPAddressPrecedence ip in
  let local_pref :=
    Z.lor (Z.shiftl network_adapter_preference 8) addr_ref + relay_preference in
  Z.lor (Z.lor (u32 (Z.shiftl type_preference 24)) (u32 (Z.shiftl local_pref 8)))
        (u32 (256 - comp)).

(** ** The order on addresses *)

Lemma ip_eqb_eq x y : ip_eqb x y = true <-> x = y.
Proof.
  split; [|intros ->; destruct y; simpl; try done; by apply Z.eqb_eq].
  destruct x, y; simpl; try done; intros ->%Z.eqb_eq; done.
Qed.

Lemma ip_eqb_decide x y : ip_eqb x y = bool_decide (x = y).
Proof. apply eq_bool_prop_intro. rewrite bool_decide_spec, Is_true_true. apply ip_eqb_eq. Qed.

Lemma bytes_lt_irrefl s : bytes_lt s s = false.
Proof. induction s as [|a s IH]; simpl; [done|]. by rewrite Z.ltb_irrefl. Qed.

Lemma bytes_lt_trans s t u :
  bytes_lt s t = true -> bytes_lt t u = true -> bytes_lt s u = true.
Proof.
  revert t u. induction s as [|a s IH]; intros [|b t] [|c u]; simpl; try done.
  repeat case_match; try done; try lia; intros; eauto.
Qed.

Lemma bytes_lt_total s t : bytes_lt s t = false -> bytes_lt t s = false -> s = t.
Proof.
  revert t. induction s as [|a s IH]; intros [|b t]; simpl; try done.
  repeat case_match; try done; intros. f_equal; [apply byte_z_inj; lia|eauto].
Qed.

Lemma ip_lt_irrefl x : ip_lt x x = false.
Proof. destruct x; simpl; try done; apply Z.ltb_irrefl. Qed.
Lemma ip_lt_trans x y z : ip_lt x y = true -> ip_lt y z = true -> ip_lt x z = true.
Proof. destruct x, y, z; simpl; try done; lia. Qed.
Lemma ip_lt_total x y : ip_lt x y = false -> ip_lt y x = false -> x = y.
Proof. destruct x, y; simpl; try done; intros; f_equal; lia. Qed.

(** [addr_lt] read as a proposition: lexicographic on the IP, on the hostname
    where the IP is no address of a host, and on the port. *)
Definition unresolved (a : SocketAddress) : bool := IPIsAny (ip_ a) || IPIsUnspec (ip_ a).

Lemma addr_lt_spec x y :
  addr_lt x y = true <->
  ip_lt (ip_ x) (ip_ y) = true \/
  (ip_ x = ip_ y /\
   ((unresolved x = true /\ bytes_lt (hostname_ x) (hostname_ y) = true) \/
    ((unresolved x = true -> hostname_ x = hostname_ y) /\ port_ x < port_ y))).
Proof.
  unfold addr_lt, unresolved. rewrite ip_eqb_decide.
  case_bool_decide as Hip; simpl.
  - rewrite Hip, ip_lt_irrefl.
    destruct (IPIsAny (ip_ y) || IPIsUnspec (ip_ y)); simpl.
    + case_bool_decide as Hh; simpl.
      * rewrite Hh, bytes_lt_irrefl, Z.ltb_lt. intuition discriminate.
      * intuition discriminate.
    + rewrite Z.ltb_lt. intuition discriminate.
  - intuition discriminate.
Qed.

Lemma addr_eqb_spec x y :
  addr_eqb x y = true <->
  ip_ x = ip_ y /\ (unresolved x = true -> hostname_ x = hostname_ y) /\ port_ x = port_ y.
Proof.
  unfold addr_eqb, EqualIPs, EqualPorts, unresolved. rewrite ip_eqb_decide.
  rewrite !andb_true_iff, orb_true_iff, andb_true_iff, !negb_true_iff, Z.eqb_eq.
  rewrite !bool_decide_eq_true.
  destruct (IPIsAny (ip_ x)), (IPIsUnspec (ip_ x)); simpl; intuition discriminate.
Qed.

Lemma addr_lt_irrefl x : addr_lt x x = false.
Proof.
  destruct (addr_lt x x) eqn:E; [|done]. apply addr_lt_spec in E.
  rewrite ip_lt_irrefl, bytes_lt_irrefl in E. destruct E as [|(_ & [[]|[_ ?]])]; [done..|lia].
Qed.

Lemma unresolved_ip x y : ip_ x = ip_ y -> unresolved x = unresolved y.
Proof. unfold unresolved. by intros ->. Qed.

Lemma addr_lt_trans x y z : addr_lt x y = true -> addr_lt y z = true -> addr_lt x z = true.
Proof.
  rewrite !addr_lt_spec.
  intros [H1|(E1 & H1)] [H2|(E2 & H2)].
  - left. eauto using ip_lt_trans.
  - left. by rewrite <- E2.
  - left. by rewrite E1.
  - right. split; [congruence|]. rewrite (unresolved_ip x y E1) in *.
    destruct H1 as [[U1 H1]|[U1 H1]], H2 as [[U2 H2]|[U2 H2]].
    + left. eauto using bytes_lt_trans.
    + left. split; [done|]. by rewrite <- U2.
    + left. split; [done|]. by rewrite U1.
    + right. split; [|lia]. intros U. by rewrite U1, U2.
Qed.

Lemma addr_lt_total x y :
  addr_lt x y = false -> addr_lt y x = false -> addr_eqb x y = true.
Proof.
  rewrite <- !not_true_iff_false, !addr_lt_spec, addr_eqb_spec. intros H1 H2.
  assert (ip_ x = ip_ y) as E.
  { apply ip_lt_total; apply not_true_iff_false; tauto. }
  rewrite (unresolved_ip x y E) in *.
  assert (unresolved y = true -> hostname_ x = hostname_ y) as Hh.
  { intros U. apply bytes_lt_total; apply not_true_iff_false; naive_solver. }
  split_and!; [done..|]. destruct (Z.lt_trichotomy (port_ x) (port_ y)) as [|[|]]; naive_solver.
Qed.

Lemma addr_eqb_not_lt x y : addr_eqb x y = true -> addr_lt x y = false.
Proof.
  rewrite addr_eqb_spec, <- not_true_iff_false, addr_lt_spec. intros (E & U & P) H.
  rewrite E, ip_lt_irrefl in H. destruct H as [H|(_ & [[H1 H2]|[_ H2]])]; [done| |lia].
  rewrite U, bytes_lt_irrefl in H2; done.
Qed.

Lemma addr_eqb_refl x : addr_eqb x x = true.
Proof. by apply addr_eqb_spec. Qed.
Lemma addr_eqb_sym x y : addr_eqb x y = addr_eqb y x.
Proof.
  apply eq_bool_prop_intro. rewrite !Is_true_true, !addr_eqb_spec.
  split; intros (E & U & P); split_and!; try done;
    rewrite <- (unresolved_ip _ _ E) || rewrite (unresolved_ip _ _ E); intros; symmetry; auto.
  all: apply U; by rewrite ?(unresolved_ip _ _ E).
Qed.
Lemma addr_eqb_trans x y z : addr_eqb x y = true -> addr_eqb y z = true -> addr_eqb x z = true.
Proof.
  rewrite !addr_eqb_spec. intros (E & U & P) (E' & U' & P'). split_and!; [congruence| |congruence].
  intros Hx. rewrite U, U'; [done| |done]. by rewrite <- (unresolved_ip _ _ E).
Qed.

(** The order that keys the address maps is a strict order whose
    incomparable addresses are exactly the equal ones: [operator<] is
    irreflexive and transitive, and two addresses are unordered when and only
    when [operator==] holds, so an address map never holds two entries that
    [operator==] identifies, nor merges two it separates. *)
Theorem addr_order_strict_weak :
  (forall x, addr_lt x x = false) /\
  (forall x y z, addr_lt x y = true -> addr_lt y z = true -> addr_lt x z = true) /\
  (forall x y, (addr_lt x y = false /\ addr_lt y x = false) <-> addr_eqb x y = true).
Proof.
  split_and!; [apply addr_lt_irrefl|apply addr_lt_trans|].
  intros x y. split; [intros []; by apply addr_lt_total|].
  intros E. split; apply addr_eqb_not_lt; [done|by rewrite addr_eqb_sym].
Qed.

(** ** Socket address storage *)

Lemma ntoh_hton_16 n : 0 <= n < 2 ^ 16 -> NetworkToHost16 (HostToNetwork16 n) = n.
Proof.
  intros Hn. unfold NetworkToHost16, HostToNetwork16.
  rewrite Z.land_ones with (n := 8) by lia.
  rewrite Z.land_ones with (n := 8) by lia.
  rewrite !Z.shiftl_mul_pow2, !Z.shiftr_div_pow2 by lia.
  pose proof (Z.mod_pos_bound n 256). pose proof (Z.div_mod n 256).
  assert (0 <= n / 256 < 256)
    by (split; [apply Z.div_pos; lia|apply Z.div_lt_upper_bound; lia]).
  rewrite (lor_disjoint (n mod 2 ^ 8) (n / 2 ^ 8) 8) by (change (2 ^ 8) with 256; lia).
  change (2 ^ 8) with 256 in *.
  rewrite Z.div_add_l, (Z.div_small (n / 256) 256), Z.add_0_r by lia.
  rewrite Z.add_comm, Z.mod_add, Z.mod_small by lia.
  pose proof (lor_disjoint (n / 256) (n mod 256) 8) as Hor. change (2 ^ 8) with 256 in Hor.
  rewrite Hor; lia.
Qed.

Lemma sockaddr_roundtrip a :
  0 <= port_ a < 2 ^ 16 -> ip_ a <> ip_unspec ->
  SocketAddressFromSockAddrStorage (ToSockAddrStorage a) =
  Some (SetScopeID (mk_addr (ip_ a) (port_ a))
          (match ip_ a with ip_v6 _ => scope_id_ a | _ => 0 end)).
Proof.
  intros Hp Hip. unfold ToSockAddrStorage. destruct (ip_ a); [done| |];
    simpl; rewrite ntoh_hton_16 by done; reflexivity.
Qed.

(** An address written to a [sockaddr_storage] for [bind] or [sendto] and
    read back, as [recvfrom] and [getsockname] results are, is the same
    endpoint: equal under [operator==] for every address that names a host,
    with the scope of an IPv6 address kept; an unspecified address is refused. *)
Theorem sockaddr_storage_roundtrip (a : SocketAddress) :
  0 <= port_ a < 2 ^ 16 ->
  match SocketAddressFromSockAddrStorage (ToSockAddrStorage a) with
  | None => ip_ a = ip_unspec
  | Some b => ip_ b = ip_ a /\ port_ b = port_ a /\
              (IPIsAny (ip_ a) = false -> addr_eqb a b = true) /\
              (ip_family (ip_ a) = AF_INET6 -> scope_id_ b = scope_id_ a)
  end.
Proof.
  intros Hp. destruct (decide (ip_ a = ip_unspec)) as [E|E].
  { unfold ToSockAddrStorage. by rewrite E. }
  rewrite sockaddr_roundtrip by done. simpl. split_and!; try done.
  - intros Hany. apply addr_eqb_spec. split_and!; try done.
    unfold unresolved. rewrite Hany. by destruct (ip_ a).
  - by destruct (ip_ a).
Qed.

Lemma sockaddr_storage_roundtrip_witness :
  addr_eqb (mk_addr (ip_v4 0x7F000001) 8443)
    (default nil_addr (SocketAddressFromSockAddrStorage
       (ToSockAddrStorage (mk_addr (ip_v4 0x7F000001) 8443)))) = true.
Proof.
  pose proof (sockaddr_storage_roundtrip (mk_addr (ip_v4 0x7F000001) 8443)
    ltac:(simpl; lia)) as (_ & _ & H & _).
  exact (H eq_refl).
Defined.

(** ** Candidate priority *)

Lemma IPAddressPrecedence_range ip : 0 <= IPAddressPrecedence ip <= 60.
Proof.
  destruct ip; [cbn; lia..|]. unfold IPAddressPrecedence.
  repeat match goal with |- context [if ?b then _ else _] => destruct b end; lia.
Qed.

Lemma get_priority_sum ip comp tp nic :
  0 <= tp < 2 ^ 7 -> 0 <= nic < 2 ^ 8 -> 1 <= comp <= 256 ->
  get_priority ip comp tp nic 0 =
  2 ^ 24 * tp + 2 ^ 8 * (2 ^ 8 * nic + IPAddressPrecedence ip) + (256 - comp).
Proof.
  intros Ht Hn Hc. unfold get_priority. pose proof (IPAddressPrecedence_range ip) as Hp.
  set (p := IPAddressPrecedence ip) in *. clearbody p.
  rewrite !Z.shiftl_mul_pow2 by lia.
  rewrite (lor_disjoint nic p 8) by lia. rewrite Z.add_0_r.
  rewrite !u32_id by lia.
  replace (Z.lor (tp * 2 ^ 24) ((nic * 2 ^ 8 + p) * 2 ^ 8))
    with ((tp * 2 ^ 16 + (nic * 2 ^ 8 + p)) * 2 ^ 8).
  { rewrite lor_disjoint by lia. lia. }
  rewrite (lor_disjoint tp ((nic * 2 ^ 8 + p) * 2 ^ 8) 24) by lia. lia.
Qed.

(** [get_priority] computes the formula of the comment above it,
    [2^24 * type + 2^8 * local + (256 - component)] with the local preference
    [2^8 * NIC + RFC 3484 precedence], without wrap-around, for every type
    preference up to 127, NIC preference up to 255 and component from 1 to
    256 when there is no relay preference; so candidates of a higher type
    rank first whatever their address, then the NIC, then the address. *)
Theorem candidate_priority_formula (ip ip' : IPAddress) (comp comp' tp tp' nic nic' : Z) :
  0 <= tp < 2 ^ 7 -> 0 <= nic < 2 ^ 8 -> 1 <= comp <= 256 ->
  0 <= tp' < 2 ^ 7 -> 0 <= nic' < 2 ^ 8 -> 1 <= comp' <= 256 ->
  get_priority ip comp tp nic 0 =
    2 ^ 24 * tp + 2 ^ 8 * (2 ^ 8 * nic + IPAddressPrecedence ip) + (256 - comp) /\
  (get_priority ip comp tp nic 0 < get_priority ip' comp' tp' nic' 0 <->
   tp < tp' \/ (tp = tp' /\ (nic < nic' \/ (nic = nic' /\
     (IPAddressPrecedence ip < IPAddressPrecedence ip' \/
      (IPAddressPrecedence ip = IPAddressPrecedence ip' /\ comp' < comp)))))).
Proof.
  intros. rewrite !get_priority_sum by done.
  pose proof (IPAddressPrecedence_range ip). pose proof (IPAddressPrecedence_range ip').
  split; [done|]. lia.
Qed.

Lemma candidate_priority_formula_witness :
  get_priority (ip_v4 0x0A000001) ICE_CANDIDATE_COMPONENT_RTP ICE_TYPE_PREFERENCE_HOST 0 0
    = 2113937151.
Proof.
  unfold ICE_CANDIDATE_COMPONENT_RTP, ICE_TYPE_PREFERENCE_HOST.
  assert (0 <= 126 < 2 ^ 7 /\ 0 <= 0 < 2 ^ 8 /\ 1 <= 1 <= 256) as (Ht & Hn & Hc) by lia.
  assert (0 <= 0 < 2 ^ 7) as Hz by lia.
  etransitivity; [|reflexivity].
  exact (proj1 (candidate_priority_formula (ip_v4 0x0A000001) ip_unspec 1 1 126 0 0 0
    Ht Hn Hc Hz Hn Hc)).
Defined.
