(* ===== verification/IpMasks.v ===== *)
(** * Prefixes and masks of IP addresses (rtc_base/ip_address.cc)

    [TruncateIP], [CountIPMaskBits], [HashIP] and the predicate on addresses made
    from hardware addresses. *)

From S2P Require Import Prelude.
From S2P Require Import IpAddress.
Local Open Scope Z_scope.

(** ** Words of an address *)

(** The four 32-bit words of an [in6_addr] in host order, and back. *)
Definition v6_word (a : Z) (i : nat) : Z :=
  Z.land (Z.shiftr a (32 * (3 - Z.of_nat i))) 0xFFFFFFFF.
Definition v6_words (a : Z) : list Z := map (v6_word a) (seq 0 4).
Definition v6_of_words (ws : list Z) : Z := fold_left (fun acc w => Z.shiftl acc 32 + w) ws 0.

(** [NetworkToHost32] on the little-endian host: the bytes in reverse. *)
Definition swap32 (w : Z) : Z :=
  Z.lor (Z.lor (Z.shiftl (Z.land w 0xFF) 24) (Z.shiftl (Z.land (Z.shiftr w 8) 0xFF) 16))
        (Z.lor (Z.shiftl (Z.land (Z.shiftr w 16) 0xFF) 8) (Z.land (Z.shiftr w 24) 0xFF)).

(** The words are hashed as they lie in memory, in network order. *)
Definition HashIP (ip : IPAddress) : Z :=
  match ip with
  | ip_v4 a => swap32 a
  | ip_v6 a => fold_left Z.lxor (map swap32 (v6_words a)) 0
  | ip_unspec => 0
  end.

Definition IPIsMacBased (a : Z) : bool :=
  negb (Z.land (v6_byte a 8) 0x02 =? 0) && (v6_byte a 11 =? 0xFF) && (v6_byte a 12 =? 0xFE).

Definition GetLoopbackIP (f : family) : IPAddress :=
  match f with
  | AF_INET => ip_v4 0x7F000001
  | AF_INET6 => ip_v6 in6addr_loopback
  | AF_UNSPEC => ip_unspec
  end.

Definition GetAnyIP (f : family) : IPAddress :=
  match f with
  | AF_INET => ip_v4 INADDR_ANY
  | AF_INET6 => ip_v6 in6addr_any
  | AF_UNSPEC => ip_unspec
  end.

(** ** Truncation *)

(** The loop over the words of an IPv6 address. *)
Definition truncate_word (position : nat) (inner_mask : Z) (i : nat) (w : Z) : Z :=
  if bool_decide (i = position) then Z.land w inner_mask
  else if bool_decide (position < i)%nat then 0 else w.

Definition TruncateIP (ip : IPAddress) (length : Z) : IPAddress :=
  if length <? 0 then ip_unspec else
  match ip with
  | ip_v4 a =>
      if 31 <? length then ip
      else if length =? 0 then ip_v4 INADDR_ANY
      else ip_v4 (Z.land a (u32 (Z.shiftl 0xFFFFFFFF (32 - length))))
  | ip_v6 a =>
      if 127 <? length then ip
      else if length =? 0 then ip_v6 in6addr_any
      else
        let position := length / 32 in
        let inner_length := 32 - (length - position * 32) in
        let inner_mask := u32 (Z.shiftl 0xFFFFFFFF inner_length) in
        ip_v6 (v6_of_words (imap (truncate_word (Z.to_nat position) inner_mask) (v6_words a)))
  | ip_unspec => ip_unspec
  end.

(** ** Counting the bits of a mask *)

(** The number of trailing zeros by halves; [zeroes] is an [unsigned int]. *)
Definition trailing_zeros (word : Z) : Z :=
  let word_to_count := Z.land word (u32 (u32 (Z.lnot word) + 1)) in
  let take mask n (zeroes : Z) := if Z.land word_to_count mask =? 0 then zeroes else zeroes - n in
  let zeroes := if word_to_count =? 0 then 32 else 31 in
  take 0x55555555 1 (take 0x33333333 2 (take 0x0F0F0F0F 4
    (take 0x00FF00FF 8 (take 0x0000FFFF 16 zeroes)))).

(** The first word that is not all ones; [None] when [i] reaches 4. *)
Fixpoint first_partial (i : nat) (ws : list Z) : nat * option Z :=
  match ws with
  | [] => (i, None)
  | w :: ws' => if w =? 0xFFFFFFFF then first_partial (S i) ws' else (i, Some w)
  end.

Definition count_word (bits word_to_count : Z) : Z :=
  if word_to_count =? 0 then bits else bits + (32 - trailing_zeros word_to_count).

Definition CountIPMaskBits (mask : IPAddress) : Z :=
  match mask with
  | ip_v4 a => count_word 0 a
  | ip_v6 a =>
      let '(i, w) := first_partial 0 (v6_words a) in
      count_word (Z.of_nat i * 32) (default 0 w)
  | ip_unspec => 0
  end.

(** ** What truncation keeps *)

(** The number [a] without its lowest [k] bits. *)
Definition clear_low (k a : Z) : Z := a / 2 ^ k * 2 ^ k.

Lemma clear_low_bits k a i : 0 <= k -> Z.testbit (clear_low k a) i = (k <=? i) && Z.testbit a i.
Proof.
  intros Hk. unfold clear_low. rewrite <- Z.shiftr_div_pow2, <- Z.shiftl_mul_pow2 by done.
  destruct (Z.ltb_spec i 0) as [Hi|Hi].
  { rewrite !Z.testbit_neg_r by done. by rewrite andb_false_r. }
  rewrite Z.shiftl_spec by done. destruct (Z.leb_spec k i) as [Hki|Hki].
  - rewrite Z.shiftr_spec by lia. simpl. f_equal. lia.
  - rewrite Z.testbit_neg_r by lia. done.
Qed.

Lemma mask_clears k w :
  0 <= k <= 32 -> 0 <= w < 2 ^ 32 -> Z.land w (u32 (Z.shiftl 0xFFFFFFFF k)) = clear_low k w.
Proof.
  intros Hk Hw. apply Z.bits_inj'. intros i Hi.
  rewrite Z.land_spec, clear_low_bits by lia. unfold u32.
  rewrite Z.testbit_mod_pow2 by lia. rewrite Z.shiftl_spec by lia.
  change 0xFFFFFFFF with (Z.ones 32). rewrite Z.testbit_ones by lia.
  destruct (Z.ltb_spec i 32) as [H|H].
  - rewrite (proj2 (Z.ltb_lt (i - k) 32)), andb_true_r by lia. rewrite andb_comm. f_equal.
    destruct (Z.leb_spec k i), (Z.leb_spec 0 (i - k)); try done; lia.
  - assert (Z.testbit w i = false) as ->; [|by rewrite !andb_false_r].
    rewrite <- (Z.mod_small w (2 ^ 32)) by done. rewrite Z.testbit_mod_pow2 by lia.
    by rewrite (proj2 (Z.ltb_ge i 32)).
Qed.

(** A number of a high part and [m] low bits. *)
Lemma clear_low_within m k hi lo :
  0 <= k <= m -> clear_low k (hi * 2 ^ m + lo) = hi * 2 ^ m + clear_low k lo.
Proof.
  intros Hk. unfold clear_low.
  replace (2 ^ m) with (2 ^ (m - k) * 2 ^ k) by (rewrite <- Z.pow_add_r by lia; f_equal; lia).
  assert (0 < 2 ^ k) by (apply Z.pow_pos_nonneg; lia).
  rewrite Z.mul_assoc, (Z.add_comm (_ * _) lo), Z.div_add by lia. lia.
Qed.

Lemma clear_low_above m k hi lo :
  0 <= k -> 0 <= m -> 0 <= lo < 2 ^ m ->
  clear_low (m + k) (hi * 2 ^ m + lo) = clear_low k hi * 2 ^ m.
Proof.
  intros Hk Hm Hlo. unfold clear_low. rewrite Z.pow_add_r by lia.
  rewrite <- Z.div_div by lia. rewrite Z.div_add_l, (Z.div_small lo) by lia.
  rewrite Z.add_0_r. lia.
Qed.

Lemma v6_word_range a i : 0 <= v6_word a i < 2 ^ 32.
Proof.
  unfold v6_word. change 0xFFFFFFFF with (Z.ones 32). rewrite Z.land_ones by lia.
  apply Z.mod_pos_bound. lia.
Qed.

Lemma v6_words_exact a : 0 <= a < 2 ^ 128 -> v6_of_words (v6_words a) = a.
Proof.
  intros Ha. unfold v6_words, v6_word, v6_of_words. cbn [map seq fold_left Z.of_nat].
  change 0xFFFFFFFF with (Z.ones 32). rewrite !Z.land_ones, !Z.shiftl_mul_pow2, !Z.shiftr_div_pow2 by lia.
  cbn -[Z.pow Z.div Z.modulo Z.mul Z.add]. Z.to_euclidean_division_equations. lia.
Qed.

Lemma of_words a : 0 <= a < 2 ^ 128 ->
  exists w0 w1 w2 w3, v6_words a = [w0; w1; w2; w3] /\
    0 <= w0 < 2 ^ 32 /\ 0 <= w1 < 2 ^ 32 /\ 0 <= w2 < 2 ^ 32 /\ 0 <= w3 < 2 ^ 32 /\
    a = ((w0 * 2 ^ 32 + w1) * 2 ^ 32 + w2) * 2 ^ 32 + w3.
Proof.
  intros Ha. exists (v6_word a 0), (v6_word a 1), (v6_word a 2), (v6_word a 3).
  split_and!; try apply v6_word_range; [done|].
  pose proof (v6_words_exact a Ha) as E. unfold v6_of_words, v6_words in E.
  cbn [map seq fold_left] in E. rewrite !Z.shiftl_mul_pow2 in E by lia. lia.
Qed.

(** The loop over the words clears the bits below [length]. *)
Lemma truncate_v6 a n :
  0 <= a < 2 ^ 128 -> 0 <= n < 128 ->
  v6_of_words (imap (truncate_word (Z.to_nat (n / 32)) (u32 (Z.shiftl 0xFFFFFFFF (32 - (n - n / 32 * 32)))))
                 (v6_words a)) = clear_low (128 - n) a.
Proof.
  intros Ha Hn. destruct (of_words a Ha) as (w0 & w1 & w2 & w3 & -> & H0 & H1 & H2 & H3 & ->).
  set (k := 32 - (n - n / 32 * 32)).
  assert (0 <= k <= 32 /\ 128 - n = 32 * (3 - n / 32) + k) as [Hk ->]
    by (unfold k; Z.to_euclidean_division_equations; lia).
  assert (0 <= n / 32 < 4) as Hp by (Z.to_euclidean_division_equations; lia).
  clearbody k. generalize dependent (n / 32). intros p Hp.
  unfold v6_of_words. cbn [imap fold_left]. rewrite !(Z.shiftl_mul_pow2 _ 32) by lia.
  assert (p = 0 \/ p = 1 \/ p = 2 \/ p = 3) as [->|[->|[->| ->]]] by lia;
    unfold truncate_word; simpl bool_decide; cbn [Z.to_nat Pos.to_nat Pos.iter_op Nat.add].
  - change (32 * (3 - 0) + k) with (96 + k).
    replace (((w0 * 2 ^ 32 + w1) * 2 ^ 32 + w2) * 2 ^ 32 + w3)
      with (w0 * 2 ^ 96 + (w1 * 2 ^ 64 + w2 * 2 ^ 32 + w3)) by lia.
    rewrite clear_low_above by lia. simpl. rewrite mask_clears by done. lia.
  - change (32 * (3 - 1) + k) with (64 + k).
    replace (((w0 * 2 ^ 32 + w1) * 2 ^ 32 + w2) * 2 ^ 32 + w3)
      with ((w0 * 2 ^ 32 + w1) * 2 ^ 64 + (w2 * 2 ^ 32 + w3)) by lia.
    rewrite clear_low_above, clear_low_within by lia. simpl. rewrite mask_clears by done. lia.
  - change (32 * (3 - 2) + k) with (32 + k).
    rewrite clear_low_above, clear_low_within by lia. simpl. rewrite mask_clears by done. lia.
  - change (32 * (3 - 3) + k) with k. rewrite clear_low_within by lia. simpl. rewrite mask_clears by done. lia.
Qed.

(** Bits kept by a length: all of them from the width on. *)
Definition keep (width length a : Z) : Z := clear_low (width - Z.min length width) a.

Lemma keep_all width length a : width <= length -> keep width length a = a.
Proof.
  intros H. unfold keep, clear_low. rewrite Z.min_r, Z.sub_diag, Z.pow_0_r, Z.div_1_r by lia. lia.
Qed.

Lemma keep_none width a : 0 <= width -> 0 <= a < 2 ^ width -> keep width 0 a = 0.
Proof. intros Hw Ha. unfold keep, clear_low. rewrite Z.min_l, Z.sub_0_r, Z.div_small by lia. lia. Qed.

(** [TruncateIP] keeps the first [length] bits of an address and clears the
    others, for every length from 0 on; longer ones keep it whole. *)
Lemma truncate_ip ip n :
  ip_wf ip -> 0 <= n ->
  TruncateIP ip n =
    match ip with
    | ip_v4 a => ip_v4 (keep 32 n a)
    | ip_v6 a => ip_v6 (keep 128 n a)
    | ip_unspec => ip_unspec
    end.
Proof.
  intros Hwf Hn. unfold TruncateIP. rewrite (proj2 (Z.ltb_ge n 0)) by lia.
  destruct ip as [|a|a]; [done| |]; simpl in Hwf; case_match eqn:E1.
  - apply Z.ltb_lt in E1. by rewrite keep_all by lia.
  - apply Z.ltb_ge in E1. case_match eqn:E2.
    + apply Z.eqb_eq in E2 as ->. by rewrite keep_none by lia.
    + unfold keep. rewrite Z.min_l, mask_clears by lia. done.
  - apply Z.ltb_lt in E1. by rewrite keep_all by lia.
  - apply Z.ltb_ge in E1. case_match eqn:E2.
    + apply Z.eqb_eq in E2 as ->. by rewrite keep_none by lia.
    + unfold keep. rewrite Z.min_l by lia. cbv zeta. by rewrite truncate_v6 by lia.
Qed.

(** ** What is counted *)

Lemma odd_part w : 0 < w -> exists z q, 0 <= z /\ 0 <= q /\ w = 2 ^ z * (2 * q + 1).
Proof.
  destruct w as [|p|p]; [lia| |lia]. intros _. induction p as [p _|p (z & q & Hz & Hq & E)|].
  - exists 0, (Z.pos p). lia.
  - exists (z + 1), q. rewrite Z.pow_add_r by lia. lia.
  - exists 0, 0. lia.
Qed.

Lemma odd_part_below z q n : 0 <= z -> 0 <= q -> 0 <= n -> 2 ^ z * (2 * q + 1) < 2 ^ n -> z < n /\ q < 2 ^ (n - 1 - z).
Proof.
  intros Hz Hq Hn H.
  assert (2 ^ z < 2 ^ n) by nia.
  assert (z < n) as Hzn by (apply (Z.pow_lt_mono_r_iff 2); lia). split; [done|].
  replace (2 ^ n) with (2 ^ z * (2 * 2 ^ (n - 1 - z))) in H.
  { apply Z.mul_lt_mono_pos_l in H; lia. }
  rewrite <- Z.pow_succ_r, <- Z.pow_add_r by lia. f_equal. lia.
Qed.

(** [word & (~word + 1)] is the lowest set bit. *)
Lemma lowest_bit z q :
  0 <= z -> 0 <= q -> 2 ^ z * (2 * q + 1) < 2 ^ 32 ->
  let w := 2 ^ z * (2 * q + 1) in Z.land w (u32 (u32 (Z.lnot w) + 1)) = 2 ^ z.
Proof.
  intros Hz Hq Hw. cbv zeta. set (w := 2 ^ z * (2 * q + 1)) in *.
  destruct (odd_part_below z q 32 Hz Hq ltac:(lia) Hw) as [Hz32 Hq32].
  assert (0 < 2 ^ z) by lia. assert (0 < w) by (unfold w; nia).
  assert (u32 (Z.lnot w) = 2 ^ 32 - 1 - w) as ->.
  { unfold u32, Z.lnot. symmetry. apply (Z.mod_unique _ _ (-1)); lia. }
  rewrite u32_id by lia.
  assert (2 ^ 32 = 2 ^ z * (2 * 2 ^ (32 - 1 - z))) as E
    by (rewrite <- Z.pow_succ_r, <- Z.pow_add_r by lia; f_equal; lia).
  set (m := 32 - 1 - z) in *. set (q' := 2 ^ m - 1 - q).
  replace (2 ^ 32 - 1 - w + 1) with (2 ^ z * (2 * q' + 1)) by (unfold w, q'; lia).
  assert (q' = Z.lnot q mod 2 ^ m) as Eq'
    by (apply (Z.mod_unique _ _ (-1)); unfold q', Z.lnot; lia).
  unfold w. rewrite !(Z.mul_comm (2 ^ z)), <- !Z.shiftl_mul_pow2 by lia.
  rewrite <- Z.shiftl_land. rewrite <- (Z.shiftl_1_l z). f_equal.
  apply Z.bits_inj'. intros i Hi. rewrite Z.land_spec.
  destruct (Z.eq_dec i 0) as [->|Hi0].
  { rewrite !Z.bit0_odd, !Z.odd_add, !Z.odd_mul. done. }
  replace i with (Z.succ (i - 1)) by lia. rewrite !Z.testbit_odd_succ by lia.
  change 1 with (2 * 0 + 1) at 3. rewrite Z.testbit_odd_succ, Z.bits_0 by lia.
  rewrite Eq', Z.testbit_mod_pow2, Z.lnot_spec by lia.
  destruct (Z.testbit q (i - 1)); [|done]. by rewrite andb_false_r.
Qed.

Lemma trailing_zeros_spec z q :
  0 <= z -> 0 <= q -> 2 ^ z * (2 * q + 1) < 2 ^ 32 -> trailing_zeros (2 ^ z * (2 * q + 1)) = z.
Proof.
  intros Hz Hq Hw. unfold trailing_zeros. rewrite (lowest_bit z q Hz Hq Hw).
  destruct (odd_part_below z q 32 Hz Hq ltac:(lia) Hw) as [Hz32 _].
  assert (In z (map Z.of_nat (seq 0 32))) as Hin.
  { rewrite <- (Z2Nat.id z) by lia. apply in_map, in_seq. lia. }
  simpl in Hin. repeat destruct Hin as [<-|Hin]; try reflexivity. done.
Qed.

(** For an IPv4 address [CountIPMaskBits] is the least length that keeps it
    whole: the place of its last set bit, whatever stands before it. *)
Lemma count_is_least_length a n :
  0 <= a < 2 ^ 32 -> 0 <= n ->
  TruncateIP (ip_v4 a) n = ip_v4 a <-> CountIPMaskBits (ip_v4 a) <= n.
Proof.
  intros Ha Hn. rewrite truncate_ip by done. unfold CountIPMaskBits, count_word.
  destruct (Z.eqb_spec a 0) as [->|Hz].
  { unfold keep, clear_low. rewrite Z.div_0_l by (apply Z.pow_nonzero; lia). by split. }
  destruct (odd_part a ltac:(lia)) as (z & q & Hz0 & Hq & E).
  rewrite E at 3. rewrite trailing_zeros_spec by lia.
  destruct (odd_part_below z q 32 Hz0 Hq ltac:(lia) ltac:(lia)) as [Hz32 _].
  unfold keep, clear_low. set (k := 32 - Z.min n 32).
  assert (0 <= k <= 32) by lia.
  transitivity ((2 ^ k | a)).
  { split; [intros [= H']; exists (a / 2 ^ k); lia|].
    intros [c ->]. rewrite Z.div_mul by (apply Z.pow_nonzero; lia). done. }
  rewrite E. split.
  - intros [c Hc]. assert (k <= z); [|lia]. apply Z.nlt_ge. intros Hlt.
    replace (2 ^ k) with (2 ^ z * (2 * 2 ^ (k - 1 - z))) in Hc
      by (rewrite <- Z.pow_succ_r, <- Z.pow_add_r by lia; f_equal; lia).
    assert (0 < 2 ^ z) by lia. assert (2 * q + 1 = 2 * (c * 2 ^ (k - 1 - z))) by nia. lia.
  - intros Hle. exists (2 ^ (z - k) * (2 * q + 1)).
    replace (2 ^ z) with (2 ^ (z - k) * 2 ^ k) by (rewrite <- Z.pow_add_r by lia; f_equal; lia). lia.
Qed.

(** The mask of a prefix length: as many bits are counted, in both families. *)
Lemma mask_of_length n :
  (0 <= n <= 32 -> CountIPMaskBits (TruncateIP (ip_v4 (2 ^ 32 - 1)) n) = n) /\
  (0 <= n <= 128 -> CountIPMaskBits (TruncateIP (ip_v6 (2 ^ 128 - 1)) n) = n).
Proof.
  split; intros Hn.
  - check_below 33%nat n.
  - check_below 129%nat n.
Qed.

(** The comment of [CountIPMaskBits] says that bits after the first 0 are not
    counted; in 255.0.255.0 they are. *)
Example count_after_zero : CountIPMaskBits (ip_v4 0xFF00FF00) = 24.
Proof. reflexivity. Qed.
