(* ===== verification/MessageDigest.v ===== *)
(** * Keyed digests (rtc_base/message_digest.cc, rtc_base/openssl_digest.cc)

    [ComputeHmac] over a digest that OpenSSL provides: the digest is a
    parameter [H] with its output size [Size], and the algorithm built on it
    is the source's. *)

From S2P Require Import Prelude.
Local Open Scope Z_scope.

Definition kBlockSize : nat := 64.

Definition DIGEST_SHA_1 : bytes := str "sha-1".

Section hmac.
(** The digest of a message, and [digest->Size()]. *)
Context (H : bytes -> bytes) (Size : nat).

(** [digest->Finish(output, out_len)] after the updates that make up
    [input]: the digest, or nothing (the returned length 0) when the output
    buffer is too small. *)
Definition Finish (input : bytes) (out_len : nat) : option bytes :=
  if bool_decide (out_len < Size)%nat then None else Some (H input).

Definition xor_pad (c : Z) (key : bytes) : bytes :=
  map (fun b => z_byte (Z.lxor c (byte_z b))) key.

Definition hmac_block_key (key : bytes) : bytes :=
  if bool_decide (kBlockSize < length key)%nat
  then H key ++ repeat x00 (kBlockSize - Size)
  else key ++ repeat x00 (kBlockSize - length key).

Definition ComputeHmac (key input : bytes) (out_len : nat) : option bytes :=
  if bool_decide (32 < Size)%nat then None
  else
    let new_key := hmac_block_key key in
    let o_pad := xor_pad 0x5c new_key in
    let i_pad := xor_pad 0x36 new_key in
    inner ← Finish (i_pad ++ input) Size;
    Finish (o_pad ++ inner) out_len.

Lemma ComputeHmac_value key input out_len :
  (Size <= 32)%nat -> (Size <= out_len)%nat ->
  ComputeHmac key input out_len =
  Some (H (xor_pad 0x5c (hmac_block_key key) ++
           H (xor_pad 0x36 (hmac_block_key key) ++ input))).
Proof.
  intros. unfold ComputeHmac, Finish.
  rewrite bool_decide_eq_false_2 by lia. cbn [mbind option_bind].
  rewrite bool_decide_eq_false_2 by lia. cbn [mbind option_bind].
  by rewrite bool_decide_eq_false_2 by lia.
Qed.

Lemma ComputeHmac_length key input out_len mac :
  (forall m, length (H m) = Size) ->
  ComputeHmac key input out_len = Some mac -> length mac = Size.
Proof.
  intros HH E. assert (mac = H (xor_pad 0x5c (hmac_block_key key) ++
    H (xor_pad 0x36 (hmac_block_key key) ++ input))) as ->; [|apply HH].
  revert E. unfold ComputeHmac, Finish. case_bool_decide; [done|].
  rewrite (bool_decide_eq_false_2 (Size < Size)%nat) by lia. cbn [mbind option_bind].
  case_bool_decide; congruence.
Qed.
End hmac.
