(* ===== verification/Stun.v ===== *)
(** * STUN messages (ice/stun.h, ice/stun.cpp)

    The attribute classes with their [read] and [write], [StunMessage] with
    [read], [write], the fingerprint and the message integrity.  Reads of raw
    memory ([GetBE16], [memcmp]) go through [outcome], so a read past the end
    of the buffer is visible as [Undef out_of_bounds]. *)

From S2P Require Import Prelude ByteBuffer Crc32 StringEncode IpAddress MessageDigest.
Local Open Scope Z_scope.

(** ** Constants *)

Definition k_stun_header_size : nat := 20.
Definition k_stun_attribute_header_size : nat := 4.
Definition k_stun_transaction_id_offset : nat := 8.
Definition k_stun_transaction_id_length : nat := 12.
Definition k_stun_magic_cookie : Z := 0x2112A442.
Definition k_stun_magic_cookie_length : nat := 4.
Definition k_stun_message_integrity_size : nat := 20.
Definition k_stun_type_mask : Z := 0x0110.
Definition STUN_FINGERPRINT_XOR_VALUE : Z := 0x5354554e.
Definition EMPTY_TRANSACION_ID : bytes := str "000000000000".

Definition STUN_BINDING_REQUEST : Z := 0x0001.
Definition STUN_BINDING_RESPONSE : Z := 0x0101.
Definition STUN_BINDING_ERROR_RESPONSE : Z := 0x0111.

Definition STUN_ATTR_USERNAME : Z := 0x0006.
Definition STUN_ATTR_MESSAGE_INTEGRITY : Z := 0x0008.
Definition STUN_ATTR_ERROR_CODE : Z := 0x0009.
Definition STUN_ATTR_XOR_MAPPED_ADDRESS : Z := 0x0020.
Definition STUN_ATTR_PRIORITY : Z := 0x0024.
Definition STUN_ATTR_USE_CANDIDATE : Z := 0x0025.
Definition STUN_ATTR_FINGERPRINT : Z := 0x8028.
Definition STUN_ATTR_ICE_CONTROLLING : Z := 0x802A.

Inductive StunAttributeValueType : Type :=
  | STUN_VALUE_UNKNOWN | STUN_VALUE_UINT32 | STUN_VALUE_BYTE_STRING.

Definition STUN_ERROR_BAD_REQUEST : Z := 400.
Definition STUN_ERROR_UNATHORIZED : Z := 401.
Definition STUN_ERROR_UNKNOWN_ATTRIBUTE : Z := 420.
Definition STUN_ERROR_SERVER_ERROR : Z := 500.
Definition STUN_ERROR_GLOBAL_FAIL : Z := 600.

Inductive StunAddressFamily : Type :=
  | STUN_ADDRESS_UNDEF | STUN_ADDRESS_IPV4 | STUN_ADDRESS_IPV6.

Definition stun_family_z (f : StunAddressFamily) : Z :=
  match f with STUN_ADDRESS_UNDEF => 0 | STUN_ADDRESS_IPV4 => 1 | STUN_ADDRESS_IPV6 => 2 end.

Inductive IntegrityStatus : Type := k_not_set | k_no_integrity | k_integrity_ok | k_integrity_bad.

#[export] Instance IntegrityStatus_eq_dec : EqDecision IntegrityStatus.
Proof. solve_decision. Defined.

(** ** Attributes *)

(** The subclasses of [StunAttribute] with their own fields. *)
Inductive attr_body : Type :=
  | AddressBody (addr : SocketAddress)
  | XorAddressBody (addr : SocketAddress)
  | UInt32Body (bits : Z)
  | UInt64Body (bits : Z)
  | ByteStringBody (bs : bytes)
  | ErrorCodeBody (cls number : Z) (reason : bytes).

#[export] Instance attr_body_eq_dec : EqDecision attr_body.
Proof. solve_decision. Defined.

Record StunAttribute : Type := mkAttr {
  at_type : Z;
  at_length : Z;
  at_body : attr_body;
}.

#[export] Instance StunAttribute_eq_dec : EqDecision StunAttribute.
Proof. solve_decision. Defined.

Definition StunAddressAttribute_family (addr : SocketAddress) : StunAddressFamily :=
  match ip_family (ip_ addr) with
  | AF_INET => STUN_ADDRESS_IPV4
  | AF_INET6 => STUN_ADDRESS_IPV6
  | AF_UNSPEC => STUN_ADDRESS_UNDEF
  end.

(** [set_address]: the length that goes with the family. *)
Definition address_attr_length (addr : SocketAddress) : Z :=
  match StunAddressAttribute_family addr with
  | STUN_ADDRESS_IPV4 => 8 | STUN_ADDRESS_IPV6 => 20 | STUN_ADDRESS_UNDEF => 0
  end.

Definition StunAddressAttribute (type : Z) (addr : SocketAddress) : StunAttribute :=
  mkAttr type (address_attr_length addr) (AddressBody addr).

Definition StunXorAddressAttribute (type : Z) (addr : SocketAddress) : StunAttribute :=
  mkAttr type (address_attr_length addr) (XorAddressBody addr).

Definition StunUInt32Attribute (type value : Z) : StunAttribute :=
  mkAttr type 4 (UInt32Body value).

Definition StunUInt64Attribute (type value : Z) : StunAttribute :=
  mkAttr type 8 (UInt64Body value).

(** The constructor from a string calls [copy_bytes], which keeps all the
    bytes and sets the 16-bit length. *)
Definition StunByteStringAttribute (type : Z) (s : bytes) : StunAttribute :=
  mkAttr type (u16 (Z.of_nat (length s))) (ByteStringBody s).

Definition copy_bytes (a : StunAttribute) (s : bytes) : StunAttribute :=
  mkAttr (at_type a) (u16 (Z.of_nat (length s))) (ByteStringBody s).

Definition StunErrorCodeAttribute_MIN_SIZE : Z := 4.

Definition create_error_code : StunAttribute :=
  mkAttr STUN_ATTR_ERROR_CODE StunErrorCodeAttribute_MIN_SIZE (ErrorCodeBody 0 0 []).

Definition set_code (a : StunAttribute) (code : Z) : StunAttribute :=
  match at_body a with
  | ErrorCodeBody _ _ reason =>
      mkAttr (at_type a) (at_length a)
        (ErrorCodeBody (u8 (Z.quot code 100)) (u8 (Z.rem code 100)) reason)
  | _ => a
  end.

Definition set_reason (a : StunAttribute) (reason : bytes) : StunAttribute :=
  match at_body a with
  | ErrorCodeBody c n _ =>
      mkAttr (at_type a)
        (u16 (StunErrorCodeAttribute_MIN_SIZE + Z.of_nat (length reason)))
        (ErrorCodeBody c n reason)
  | _ => a
  end.

(** *** Writing *)

Definition write_padding (len : Z) (buf : bytes) : bytes :=
  let remain := len mod 4 in
  if 0 <? remain then WriteBytes buf (repeat x00 (Z.to_nat (4 - remain))) else buf.

(** The 16 bytes of an [in6_addr], the 4 bytes of an [in_addr]. *)
Definition ip_bytes (ip : IPAddress) : bytes :=
  match ip with
  | ip_v4 a => be_encode 4 a
  | ip_v6 a => be_encode 16 a
  | ip_unspec => []
  end.

Definition get_xored_ip (addr : SocketAddress) : IPAddress :=
  match ip_ addr with
  | ip_v4 a => ip_v4 (Z.lxor a k_stun_magic_cookie)
  | _ => ip_unspec
  end.

(** [attr->write(buf)], with the value it returns. *)
Definition attr_write (a : StunAttribute) (buf : bytes) : bool * bytes :=
  match at_body a with
  | AddressBody addr =>
      let stun_family := StunAddressAttribute_family addr in
      match stun_family with
      | STUN_ADDRESS_UNDEF => (false, buf)
      | _ =>
          let buf := WriteUInt8 buf 0 in
          let buf := WriteUInt8 buf (stun_family_z stun_family) in
          let buf := WriteUInt16 buf (port_ addr) in
          (true, WriteBytes buf (ip_bytes (ip_ addr)))
      end
  | XorAddressBody addr =>
      let stun_family := StunAddressAttribute_family addr in
      match stun_family with
      | STUN_ADDRESS_UNDEF => (false, buf)
      | _ =>
          let xored_ip := get_xored_ip addr in
          match ip_family xored_ip with
          | AF_UNSPEC => (false, buf)
          | _ =>
              let buf := WriteUInt8 buf 0 in
              let buf := WriteUInt8 buf (stun_family_z stun_family) in
              let buf := WriteUInt16 buf
                (Z.lxor (port_ addr) (Z.shiftr k_stun_magic_cookie 16)) in
              (true, WriteBytes buf (ip_bytes xored_ip))
          end
      end
  | UInt32Body bits => (true, WriteUInt32 buf bits)
  | UInt64Body bits => (true, WriteUInt64 buf bits)
  | ByteStringBody bs =>
      (true, write_padding (at_length a) (WriteBytes buf (take (Z.to_nat (at_length a)) bs)))
  | ErrorCodeBody c n reason =>
      let buf := WriteUInt32 buf (Z.lor (Z.shiftl c 8) n) in
      (true, write_padding (at_length a) (WriteString buf reason))
  end.

(** *** Reading *)

(** [consume_padding] ignores the result of [Consume]. *)
Definition consume_padding (len : Z) (r : ByteBufferReader) : ByteBufferReader :=
  let remain := len mod 4 in
  if 0 <? remain then default r (Consume r (Z.to_nat (4 - remain))) else r.

Definition get_attribute_value_type (type : Z) : StunAttributeValueType :=
  if type =? STUN_ATTR_USERNAME then STUN_VALUE_BYTE_STRING
  else if type =? STUN_ATTR_MESSAGE_INTEGRITY then STUN_VALUE_BYTE_STRING
  else if type =? STUN_ATTR_PRIORITY then STUN_VALUE_UINT32
  else STUN_VALUE_UNKNOWN.

(** [_create_attribute] through [StunAttribute::create]; a byte string starts
    with no bytes ([_bytes] is null) and is filled by its [read]. *)
Definition create_attribute (type length : Z) : option StunAttribute :=
  match get_attribute_value_type type with
  | STUN_VALUE_BYTE_STRING => Some (mkAttr type length (ByteStringBody []))
  | STUN_VALUE_UINT32 => Some (StunUInt32Attribute type 0)
  | STUN_VALUE_UNKNOWN => None
  end.

(** [attr->read(buf)]; [None] is the returned [false]. *)
Definition attr_read (a : StunAttribute) (r : ByteBufferReader)
    : option (StunAttribute * ByteBufferReader) :=
  match at_body a with
  | AddressBody _ | XorAddressBody _ => Some (a, r)
  | UInt32Body _ =>
      if negb (at_length a =? 4) then None
      else '(bits, r) ← ReadUInt32 r; Some (mkAttr (at_type a) (at_length a) (UInt32Body bits), r)
  | UInt64Body _ =>
      if negb (at_length a =? 8) then None
      else '(bits, r) ← ReadUInt64 r; Some (mkAttr (at_type a) (at_length a) (UInt64Body bits), r)
  | ByteStringBody _ =>
      '(bs, r) ← ReadBytes r (Z.to_nat (at_length a));
      Some (mkAttr (at_type a) (at_length a) (ByteStringBody bs),
            consume_padding (at_length a) r)
  | ErrorCodeBody _ _ _ => None
  end.

(** ** StunMessage *)

Record StunMessage : Type := mkMsg {
  m_type : Z;
  m_length : Z;
  m_transaction_id : bytes;
  m_attrs : list StunAttribute;
  m_integrity : IntegrityStatus;
  m_password : bytes;
  m_buffer : bytes;
}.

#[export] Instance StunMessage_eq_dec : EqDecision StunMessage.
Proof. solve_decision. Defined.

Definition new_StunMessage : StunMessage :=
  mkMsg 0 0 EMPTY_TRANSACION_ID [] k_not_set [] [].

Definition set_type (m : StunMessage) (t : Z) : StunMessage :=
  mkMsg (u16 t) (m_length m) (m_transaction_id m) (m_attrs m) (m_integrity m)
    (m_password m) (m_buffer m).
Definition set_length (m : StunMessage) (l : Z) : StunMessage :=
  mkMsg (m_type m) (u16 l) (m_transaction_id m) (m_attrs m) (m_integrity m)
    (m_password m) (m_buffer m).
Definition set_transaction_id (m : StunMessage) (id : bytes) : StunMessage :=
  mkMsg (m_type m) (m_length m) id (m_attrs m) (m_integrity m) (m_password m) (m_buffer m).
Definition set_attrs (m : StunMessage) (l : list StunAttribute) : StunMessage :=
  mkMsg (m_type m) (m_length m) (m_transaction_id m) l (m_integrity m)
    (m_password m) (m_buffer m).
Definition set_integrity (m : StunMessage) (i : IntegrityStatus) : StunMessage :=
  mkMsg (m_type m) (m_length m) (m_transaction_id m) (m_attrs m) i
    (m_password m) (m_buffer m).
Definition set_password (m : StunMessage) (p : bytes) : StunMessage :=
  mkMsg (m_type m) (m_length m) (m_transaction_id m) (m_attrs m) (m_integrity m)
    p (m_buffer m).
Definition set_buffer (m : StunMessage) (b : bytes) : StunMessage :=
  mkMsg (m_type m) (m_length m) (m_transaction_id m) (m_attrs m) (m_integrity m)
    (m_password m) b.

(** The size an attribute takes on the wire, padded to four bytes. *)
Definition padded (len : Z) : Z := if negb (len mod 4 =? 0) then len + (4 - len mod 4) else len.

Definition add_attribute (m : StunMessage) (a : StunAttribute) : StunMessage :=
  let attr_len := padded (at_length a) in
  set_attrs (set_length m (m_length m + (attr_len + Z.of_nat k_stun_attribute_header_size)))
    (m_attrs m ++ [a]).

Definition get_attribute (m : StunMessage) (type : Z) : option StunAttribute :=
  List.find (fun a => at_type a =? type) (m_attrs m).

(** [get_uint32(type)->value()] and [get_byte_string(type)->get_string()] of
    the attribute found; the [static_cast] of another class has no value. *)
Definition get_uint32 (m : StunMessage) (type : Z) : option Z :=
  a ← get_attribute m type;
  match at_body a with UInt32Body bits => Some bits | _ => None end.
Definition get_byte_string (m : StunMessage) (type : Z) : option bytes :=
  a ← get_attribute m type;
  match at_body a with
  | ByteStringBody bs => Some (take (Z.to_nat (at_length a)) bs)
  | _ => None
  end.

(** [StunErrorCodeAttribute::code] and [get_error_code_value]. *)
Definition error_code (a : StunAttribute) : Z :=
  match at_body a with ErrorCodeBody c n _ => c * 100 + n | _ => 0 end.
Definition get_error_code_value (m : StunMessage) : Z :=
  match get_attribute m STUN_ATTR_ERROR_CODE with
  | Some a => error_code a
  | None => STUN_ERROR_GLOBAL_FAIL
  end.

Fixpoint write_attrs (attrs : list StunAttribute) (buf : bytes) : bool * bytes :=
  match attrs with
  | [] => (true, buf)
  | a :: attrs' =>
      let buf := WriteUInt16 buf (at_type a) in
      let buf := WriteUInt16 buf (at_length a) in
      let '(ok, buf) := attr_write a buf in
      if ok then write_attrs attrs' buf else (false, buf)
  end.

(** [StunMessage::write(buf)] on the bytes written so far. *)
Definition stun_write (m : StunMessage) (buf : bytes) : bool * bytes :=
  let buf := WriteUInt16 buf (m_type m) in
  let buf := WriteUInt16 buf (m_length m) in
  let buf := WriteUInt32 buf k_stun_magic_cookie in
  let buf := WriteString buf (m_transaction_id m) in
  write_attrs (m_attrs m) buf.

(** The [while] loop of [read].  Every turn consumes at least the four bytes
    of an attribute header, so the bytes left are fuel enough. *)
Fixpoint read_attrs (fuel : nat) (r : ByteBufferReader) (attrs : list StunAttribute)
    : option (list StunAttribute) :=
  match fuel with
  | O => None
  | S fuel =>
      if bool_decide (rd_Length r = 0)%nat then Some attrs
      else
        '(attr_type, r) ← ReadUInt16 r;
        '(attr_length, r) ← ReadUInt16 r;
        match create_attribute attr_type attr_length with
        | None =>
            let attr_length :=
              if negb (attr_length mod 4 =? 0)
              then u16 (attr_length + (4 - attr_length mod 4)) else attr_length in
            r ← Consume r (Z.to_nat attr_length);
            read_attrs fuel r attrs
        | Some attr =>
            '(attr, r) ← attr_read attr r;
            read_attrs fuel r (attrs ++ [attr])
        end
  end.

(** [StunMessage::read(buf)].  [None] is the returned [false], after which
    every caller discards the message. *)
Definition stun_read (m : StunMessage) (r : ByteBufferReader) : option StunMessage :=
  let m := set_buffer m (unread r) in
  '(type, r) ← ReadUInt16 r;
  if negb (Z.land type 0x0800 =? 0) then None
  else
    '(len, r) ← ReadUInt16 r;
    '(magic_cookie, r) ← ReadString r [] k_stun_magic_cookie_length;
    '(transaction_id, r) ← ReadString r [] k_stun_transaction_id_length;
    let transaction_id :=
      if be_decode magic_cookie =? k_stun_magic_cookie then transaction_id
      else magic_cookie ++ transaction_id in
    let m := set_transaction_id (set_length (set_type m type) len) transaction_id in
    if negb (Z.of_nat (rd_Length r) =? m_length m) then None
    else
      attrs ← read_attrs (S (rd_Length r)) r [];
      Some (set_attrs m attrs).

(** ** Fingerprint *)

Definition fingerprint_attr_size : nat := k_stun_attribute_header_size + 4.

Definition validate_fingerprint (data : bytes) : outcome bool :=
  let len := length data in
  if negb (bool_decide (len `mod` 4 = 0)%nat) ||
     bool_decide (len < k_stun_header_size + fingerprint_attr_size)%nat
  then Done false
  else
    magic_cookie ← GetBE32 data (k_stun_transaction_id_offset - k_stun_magic_cookie_length);
    if negb (magic_cookie =? k_stun_magic_cookie) then Done false
    else
      let fingerprint_attr_data := (len - fingerprint_attr_size)%nat in
      type ← GetBE16 data fingerprint_attr_data;
      if negb (type =? STUN_ATTR_FINGERPRINT) then Done false
      else
        size ← GetBE16 data (fingerprint_attr_data + 2);
        if negb (size =? 4) then Done false
        else
          fingerprint ← GetBE32 data (fingerprint_attr_data + k_stun_attribute_header_size);
          Done (Z.lxor fingerprint STUN_FINGERPRINT_XOR_VALUE =?
                ComputeCrc32 (take (len - fingerprint_attr_size) data)).

(** Replace the attribute added last: the pointer kept to it is written
    through after [add_attribute]. *)
Definition update_last_attr (m : StunMessage) (f : StunAttribute -> StunAttribute)
    : StunMessage :=
  set_attrs m (alter f (pred (length (m_attrs m))) (m_attrs m)).

Definition add_fingerprint (m : StunMessage) : bool * StunMessage :=
  let fingerprint_attr := StunUInt32Attribute STUN_ATTR_FINGERPRINT 0 in
  let m := add_attribute m fingerprint_attr in
  let '(ok, buf) := stun_write m [] in
  if negb ok then (false, m)
  else
    let msg_len_for_crc32 :=
      (length buf - k_stun_attribute_header_size - Z.to_nat (at_length fingerprint_attr))%nat in
    let c := ComputeCrc32 (take msg_len_for_crc32 buf) in
    (true, update_last_attr m (fun a =>
       mkAttr (at_type a) (at_length a) (UInt32Body (Z.lxor c STUN_FINGERPRINT_XOR_VALUE)))).

(** ** Message integrity *)

Section integrity.
(** The SHA-1 digest of OpenSSL. *)
Context (sha1 : bytes -> bytes).

Definition hmac_sha1 (key input : bytes) : option bytes :=
  ComputeHmac sha1 k_stun_message_integrity_size key input k_stun_message_integrity_size.

Definition add_message_integrity_of_type (m : StunMessage) (attr_type : Z) (attr_size : nat)
    (key : bytes) : bool * StunMessage :=
  let mi_attr := StunByteStringAttribute attr_type (repeat "0"%byte attr_size) in
  let m := add_attribute m mi_attr in
  let '(ok, buf) := stun_write m [] in
  if negb ok then (false, m)
  else
    let msg_len_for_hmac :=
      (length buf - k_stun_attribute_header_size - Z.to_nat (at_length mi_attr))%nat in
    match hmac_sha1 key (take msg_len_for_hmac buf) with
    | None => (false, m)
    | Some hmac =>
        let m := update_last_attr m (fun a => copy_bytes a hmac) in
        (true, set_integrity (set_password m key) k_integrity_ok)
    end.

Definition add_message_integrity (m : StunMessage) (password : bytes) : bool * StunMessage :=
  add_message_integrity_of_type m STUN_ATTR_MESSAGE_INTEGRITY
    k_stun_message_integrity_size password.

(** The loop that looks for the integrity attribute: its position, [None]
    when there is none.  Each turn moves four bytes at least. *)
Fixpoint find_mi (fuel : nat) (data : bytes) (current_pos : nat) (mi_attr_type : Z)
    : outcome (option nat) :=
  match fuel with
  | O => Done None
  | S fuel =>
      if bool_decide (current_pos + k_stun_attribute_header_size <= length data)%nat then
        attr_type ← GetBE16 data current_pos;
        attr_length ← GetBE16 data (current_pos + 2);
        if attr_type =? mi_attr_type then Done (Some current_pos)
        else find_mi fuel data
               (current_pos + k_stun_attribute_header_size + Z.to_nat (padded attr_length))
               mi_attr_type
      else Done None
  end.

(** [data] is [_buffer.c_str()]: [size] bytes and a terminating NUL, which
    may be read too. *)
Definition validate_message_integrity_of_type (mi_attr_type : Z) (mi_attr_size : nat)
    (data : bytes) (password : bytes) : outcome bool :=
  let size := length data in
  if negb (bool_decide (size `mod` 4 = 0)%nat) || bool_decide (size < k_stun_header_size)%nat
  then Done false
  else
    len ← GetBE16 data 2;
    if negb (len + Z.of_nat k_stun_header_size =? Z.of_nat size) then Done false
    else
      found ← find_mi (S size) data k_stun_header_size mi_attr_type;
      match found with
      | None => Done false
      | Some mi_pos =>
          let temp_data := take mi_pos data in
          temp_data ←
            (if bool_decide (mi_pos + k_stun_attribute_header_size + mi_attr_size < size)%nat
             then
               let extra_pos := (mi_pos + k_stun_attribute_header_size + mi_attr_size)%nat in
               let extra_size := (size - extra_pos)%nat in
               let adjust_new_len := (size - extra_size - k_stun_header_size)%nat in
               SetBE16 temp_data 2 (Z.of_nat adjust_new_len)
             else Done temp_data);
          match hmac_sha1 password temp_data with
          | None => Done false
          | Some hmac =>
              mi ← read_at (data ++ [x00]) (mi_pos + k_stun_attribute_header_size) mi_attr_size;
              Done (bool_decide (mi = take mi_attr_size hmac))
          end
      end.

Definition validate_message_integrity (m : StunMessage) (password : bytes)
    : outcome (IntegrityStatus * StunMessage) :=
  let m := set_password m password in
  match get_attribute m STUN_ATTR_MESSAGE_INTEGRITY with
  | Some _ =>
      ok ← validate_message_integrity_of_type STUN_ATTR_MESSAGE_INTEGRITY
             k_stun_message_integrity_size (m_buffer m) password;
      let i := if (ok : bool) then k_integrity_ok else k_integrity_bad in
      Done (i, set_integrity m i)
  | None => Done (k_no_integrity, set_integrity m k_no_integrity)
  end.
End integrity.

(** ** Message types *)

Definition is_stun_request_type (req_type : Z) : bool := Z.land req_type k_stun_type_mask =? 0.
Definition get_stun_success_response (req_type : Z) : Z :=
  if is_stun_request_type req_type then Z.lor req_type 0x100 else -1.
Definition get_stun_error_response (req_type : Z) : Z :=
  if is_stun_request_type req_type then Z.lor req_type 0x110 else -1.

Definition stun_method_to_string (type : Z) : bytes :=
  if type =? STUN_BINDING_REQUEST then str "BINDING REQUEST"
  else if type =? STUN_BINDING_RESPONSE then str "BINDING RESPONSE"
  else str "Unknown<" ++ to_string type ++ str ">".
