(* ===== verification/StunTheory.v ===== *)
(** * Theory of STUN messages

    The wire format of a well-formed message, the round trip of [stun_write]
    and [stun_read], the fingerprint and the message integrity. *)

From S2P Require Import Prelude ByteBuffer Crc32 StringEncode IpAddress MessageDigest Stun.
Local Open Scope Z_scope.

(** ** The wire format *)

(** An attribute is well formed when its class goes with its type, its length
    is the length of its value, and its [write] succeeds. *)
Definition attr_wf (a : StunAttribute) : Prop :=
  0 <= at_type a < 2 ^ 16 /\ 0 <= padded (at_length a) < 2 ^ 16 /\
  match at_body a with
  | AddressBody addr => at_length a = address_attr_length addr /\ ip_ addr <> ip_unspec
  | XorAddressBody addr => at_length a = 8 /\ ip_family (ip_ addr) = AF_INET
  | UInt32Body bits => at_length a = 4 /\ 0 <= bits < 2 ^ 32
  | UInt64Body bits => at_length a = 8 /\ 0 <= bits < 2 ^ 64
  | ByteStringBody bs => at_length a = Z.of_nat (length bs)
  | ErrorCodeBody c n reason =>
      at_length a = 4 + Z.of_nat (length reason)
  end /\
  match get_attribute_value_type (at_type a), at_body a with
  | STUN_VALUE_UNKNOWN, _ => True
  | STUN_VALUE_UINT32, UInt32Body _ => True
  | STUN_VALUE_BYTE_STRING, ByteStringBody _ => True
  | _, _ => False
  end.

Definition attr_value_bytes (a : StunAttribute) : bytes := snd (attr_write a []).

Definition attr_wire (a : StunAttribute) : bytes :=
  be_encode 2 (at_type a) ++ be_encode 2 (at_length a) ++ attr_value_bytes a.

Definition attrs_wire (l : list StunAttribute) : bytes := concat (map attr_wire l).

Definition stun_header (type len : Z) (tid : bytes) : bytes :=
  be_encode 2 type ++ be_encode 2 len ++ be_encode 4 k_stun_magic_cookie ++ tid.

Definition stun_wire (m : StunMessage) : bytes :=
  stun_header (m_type m) (m_length m) (m_transaction_id m) ++ attrs_wire (m_attrs m).

(** The length the header of a message should announce. *)
Definition attrs_size (l : list StunAttribute) : Z :=
  foldr (fun a n => 4 + padded (at_length a) + n) 0 l.

(** A well-formed message: what [add_attribute] builds from a new message
    that was given a type and a transaction id. *)
Record stun_wf (m : StunMessage) : Prop := {
  wf_type : 0 <= m_type m < 2 ^ 16;
  wf_not_rtp : Z.land (m_type m) 0x0800 = 0;
  wf_tid : length (m_transaction_id m) = k_stun_transaction_id_length;
  wf_attrs : Forall attr_wf (m_attrs m);
  wf_length : m_length m = attrs_size (m_attrs m);
  wf_fits : m_length m < 2 ^ 16;
}.

(** ** Lengths *)

Lemma padded_spec n : 0 <= n -> n <= padded n < n + 4 /\ padded n mod 4 = 0.
Proof.
  intros Hn. unfold padded. pose proof (Z.mod_pos_bound n 4). pose proof (Z.div_mod n 4).
  destruct (n mod 4 =? 0) eqn:E; simpl.
  - lia.
  - split; [lia|]. replace (n + (4 - n mod 4)) with ((n / 4 + 1) * 4) by lia.
    apply Z.mod_mul. lia.
Qed.

Lemma length_write_padding n buf :
  0 <= n -> Z.of_nat (length (write_padding n buf)) =
            Z.of_nat (length buf) + (padded n - n).
Proof.
  intros Hn. unfold write_padding, padded, WriteBytes. pose proof (Z.mod_pos_bound n 4).
  destruct (n mod 4 =? 0) eqn:E, (0 <? n mod 4) eqn:E'; try lia; simpl; [lia|].
  rewrite length_app, repeat_length. lia.
Qed.

Lemma write_padding_app n b1 b2 : write_padding n (b1 ++ b2) = b1 ++ write_padding n b2.
Proof.
  unfold write_padding, WriteBytes. case_match; [|done]. by rewrite app_assoc.
Qed.

(** Writing after [buf] appends to [buf]: no attribute reads what is there. *)
Lemma attr_write_app a buf :
  attr_write a buf = (fst (attr_write a []), buf ++ snd (attr_write a [])).
Proof.
  unfold attr_write, WriteUInt8, WriteUInt16, WriteUInt32, WriteUInt64, WriteString, WriteBytes.
  destruct (at_body a); repeat case_match; cbn [fst snd app];
    rewrite <- ?app_assoc, ?write_padding_app, ?app_nil_r; done.
Qed.

Lemma attr_write_wf a buf :
  attr_wf a -> attr_write a buf = (true, buf ++ attr_value_bytes a).
Proof.
  intros (_ & _ & Hb & _). rewrite attr_write_app. f_equal.
  unfold attr_write. destruct (at_body a) as [addr|addr| | | |]; try done.
  - unfold StunAddressAttribute_family. by destruct Hb as [_ Hb], (ip_ addr).
  - unfold StunAddressAttribute_family, get_xored_ip. by destruct Hb as [_ Hb], (ip_ addr).
Qed.

Lemma length_attr_value_bytes a :
  attr_wf a -> Z.of_nat (length (attr_value_bytes a)) = padded (at_length a).
Proof.
  intros (_ & Hp & Hb & _). unfold attr_value_bytes, attr_write,
    WriteUInt8, WriteUInt16, WriteUInt32, WriteUInt64, WriteString, WriteBytes.
  destruct (at_body a) as [addr|addr| | | |].
  - destruct Hb as [-> Hb]. unfold address_attr_length, StunAddressAttribute_family.
    destruct (ip_ addr); [done| |]; cbn [fst snd ip_family ip_bytes app];
      rewrite ?length_app, ?length_be_encode; reflexivity.
  - destruct Hb as [-> Hb]. unfold StunAddressAttribute_family, get_xored_ip.
    destruct (ip_ addr); [done| |done]; cbn [fst snd ip_family ip_bytes app];
      rewrite ?length_app, ?length_be_encode; reflexivity.
  - destruct Hb as [-> Hb]. cbn [snd app]. by rewrite length_be_encode.
  - destruct Hb as [-> Hb]. cbn [snd app]. by rewrite length_be_encode.
  - rewrite Hb in *. cbn [snd app]. rewrite length_write_padding, Nat2Z.id by lia.
    rewrite firstn_all. lia.
  - rewrite Hb in *. cbn [snd app]. rewrite length_write_padding by lia.
    rewrite length_app, length_be_encode. lia.
Qed.

Lemma length_attr_wire a :
  attr_wf a -> Z.of_nat (length (attr_wire a)) = 4 + padded (at_length a).
Proof.
  intros Ha. unfold attr_wire. rewrite !length_app, !length_be_encode.
  pose proof (length_attr_value_bytes a Ha). lia.
Qed.

Lemma length_attrs_wire l :
  Forall attr_wf l -> Z.of_nat (length (attrs_wire l)) = attrs_size l.
Proof.
  induction 1 as [|a l Ha _ IH]; [done|]. unfold attrs_wire in *. cbn [map concat attrs_size foldr].
  rewrite length_app. pose proof (length_attr_wire a Ha). unfold attrs_size in IH. lia.
Qed.

Lemma attrs_wire_app l k : attrs_wire (l ++ k) = attrs_wire l ++ attrs_wire k.
Proof. unfold attrs_wire. by rewrite map_app, concat_app. Qed.
Lemma attrs_wire_single a : attrs_wire [a] = attr_wire a.
Proof. unfold attrs_wire. cbn [map concat]. apply app_nil_r. Qed.

Lemma attrs_size_app l k : attrs_size (l ++ k) = attrs_size l + attrs_size k.
Proof.
  induction l as [|a l IH]; [done|]. cbn [app attrs_size foldr].
  unfold attrs_size in IH. rewrite IH. unfold attrs_size. lia.
Qed.

Lemma address_attr_length_range addr : 0 <= address_attr_length addr <= 20.
Proof. unfold address_attr_length. destruct (StunAddressAttribute_family addr); lia. Qed.

Lemma attr_wf_length_nonneg a : attr_wf a -> 0 <= at_length a.
Proof.
  intros (_ & _ & Hb & _). destruct (at_body a) as [addr| | | | |]; try lia.
  pose proof (address_attr_length_range addr). lia.
Qed.

Lemma attrs_size_bounds l :
  Forall attr_wf l -> 0 <= attrs_size l /\ attrs_size l mod 4 = 0.
Proof.
  induction 1 as [|a l Ha _ [IH1 IH2]]; [done|].
  cbn [attrs_size foldr]. fold (attrs_size l).
  destruct (padded_spec _ (attr_wf_length_nonneg _ Ha)) as [Hp Hm].
  pose proof (attr_wf_length_nonneg _ Ha). split; [lia|].
  rewrite Z.add_mod, (Z.add_mod 4), Hm, IH2 by lia. done.
Qed.

Lemma length_stun_header t l tid :
  length tid = k_stun_transaction_id_length -> length (stun_header t l tid) = k_stun_header_size.
Proof.
  intros H. unfold stun_header. rewrite 3!length_app, 3!length_be_encode, H. reflexivity.
Qed.

Lemma StunByteStringAttribute_wf t s :
  get_attribute_value_type t = STUN_VALUE_BYTE_STRING -> 0 <= t -> t < 2 ^ 16 ->
  padded (Z.of_nat (length s)) < 2 ^ 16 -> attr_wf (StunByteStringAttribute t s).
Proof.
  intros Ht H0 H1 Hs. pose proof (padded_spec (Z.of_nat (length s)) ltac:(lia)) as [Hp _].
  unfold attr_wf, StunByteStringAttribute. cbn [at_type at_length at_body].
  rewrite u16_id, Ht by lia. split_and!; done || lia.
Qed.

Lemma StunUInt32Attribute_wf t v :
  get_attribute_value_type t = STUN_VALUE_UINT32 \/
  get_attribute_value_type t = STUN_VALUE_UNKNOWN ->
  0 <= t < 2 ^ 16 -> 0 <= v < 2 ^ 32 -> attr_wf (StunUInt32Attribute t v).
Proof.
  intros Ht H0 Hv. unfold attr_wf, StunUInt32Attribute. cbn [at_type at_length at_body].
  split_and!; try lia; try done. by destruct Ht as [-> | ->].
Qed.

(** ** Writing *)

Lemma attr_wf_length a : attr_wf a -> 0 <= at_length a < 2 ^ 16.
Proof.
  intros Ha. pose proof (attr_wf_length_nonneg a Ha) as Hn.
  pose proof (padded_spec _ Hn). destruct Ha as (_ & Hp & _). lia.
Qed.

Lemma write_attrs_wire l buf :
  Forall attr_wf l -> write_attrs l buf = (true, buf ++ attrs_wire l).
Proof.
  intros Hl. revert buf. induction Hl as [|a l Ha _ IH]; intros buf; simpl.
  { by rewrite app_nil_r. }
  rewrite attr_write_wf by done. rewrite IH. unfold attrs_wire, attr_wire, WriteUInt16, WriteBytes.
  pose proof (attr_wf_length a Ha). destruct Ha as (Ht & _).
  rewrite !u16_id by done. cbn [map concat]. by rewrite <- !app_assoc.
Qed.

Lemma stun_write_wire m buf :
  stun_wf m -> stun_write m buf = (true, buf ++ stun_wire m).
Proof.
  intros [Ht _ _ Ha Hl Hf]. unfold stun_write. rewrite write_attrs_wire by done.
  pose proof (attrs_size_bounds _ Ha) as [Hs _].
  unfold WriteString, WriteUInt16, WriteUInt32, WriteBytes, stun_wire, stun_header.
  rewrite !u16_id, u32_id by (done || lia). by rewrite <- !app_assoc.
Qed.

Lemma length_stun_wire m :
  stun_wf m -> Z.of_nat (length (stun_wire m)) = 20 + m_length m.
Proof.
  intros [Ht _ Hi Ha Hl Hf]. unfold stun_wire. rewrite length_app, length_stun_header by done.
  pose proof (length_attrs_wire _ Ha). unfold k_stun_header_size. lia.
Qed.

(** ** Reading *)

Lemma ReadUInt16_app r v k :
  reader_wf r -> 0 <= v < 2 ^ 16 -> unread r = be_encode 2 v ++ k ->
  exists r', ReadUInt16 r = Some (v, r') /\ reader_wf r' /\ unread r' = k.
Proof.
  intros Hr Hv Hu. destruct (ReadBytes_app r _ _ Hr Hu) as (r' & E & Hr' & Hu').
  rewrite length_be_encode in E. exists r'. unfold ReadUInt16. rewrite E.
  cbn [mbind option_bind]. by rewrite be_decode_encode_id by (simpl; lia).
Qed.

Lemma ReadUInt32_app r v k :
  reader_wf r -> 0 <= v < 2 ^ 32 -> unread r = be_encode 4 v ++ k ->
  exists r', ReadUInt32 r = Some (v, r') /\ reader_wf r' /\ unread r' = k.
Proof.
  intros Hr Hv Hu. destruct (ReadBytes_app r _ _ Hr Hu) as (r' & E & Hr' & Hu').
  rewrite length_be_encode in E. exists r'. unfold ReadUInt32. rewrite E.
  cbn [mbind option_bind]. by rewrite be_decode_encode_id by (simpl; lia).
Qed.

Lemma ReadString_app r a k :
  reader_wf r -> unread r = a ++ k ->
  exists r', ReadString r [] (length a) = Some (a, r') /\ reader_wf r' /\ unread r' = k.
Proof.
  intros Hr Hu. destruct (ReadBytes_app r _ _ Hr Hu) as (r' & E & Hr' & Hu').
  exists r'. by split_and!.
Qed.

Lemma Consume_app r a k :
  reader_wf r -> unread r = a ++ k ->
  exists r', Consume r (length a) = Some r' /\ reader_wf r' /\ unread r' = k.
Proof.
  intros Hr Hu. destruct (ReadBytes_app r _ _ Hr Hu) as (r' & E & Hr' & Hu').
  exists r'. split_and!; try done. unfold Consume. revert E. unfold ReadBytes.
  destruct (bool_decide _); [done|]. by intros [= _ ->].
Qed.

Lemma consume_padding_app r n pre k :
  reader_wf r -> 0 <= n -> unread r = write_padding n pre ++ k ->
  length pre = 0%nat ->
  exists r', consume_padding n r = r' /\ reader_wf r' /\ unread r' = k.
Proof.
  intros Hr Hn Hu Hp. destruct pre; [|done].
  unfold consume_padding, write_padding, WriteBytes in *.
  destruct (0 <? n mod 4) eqn:E; [|by exists r].
  destruct (Consume_app r _ k Hr Hu) as (r' & E' & Hr' & Hu'). cbn [app] in E'.
  rewrite repeat_length in E'. rewrite E'. simpl. by exists r'.
Qed.

(** The attributes a reader keeps: those of a type it knows. *)
Definition attr_known (a : StunAttribute) : Prop :=
  get_attribute_value_type (at_type a) <> STUN_VALUE_UNKNOWN.

#[export] Instance attr_known_dec a : Decision (attr_known a).
Proof. unfold attr_known. destruct (get_attribute_value_type _); [right|left|left]; naive_solver. Defined.

Lemma attr_read_known a t r k :
  attr_wf a -> create_attribute (at_type a) (at_length a) = Some t -> reader_wf r ->
  unread r = attr_value_bytes a ++ k ->
  exists r', attr_read t r = Some (a, r') /\ reader_wf r' /\ unread r' = k.
Proof.
  intros Hwf Ht Hr Hu. pose proof (attr_wf_length a Hwf) as Hlen.
  destruct Hwf as (_ & _ & Hb & Hc). unfold create_attribute in Ht.
  destruct a as [ty len body]; simpl in *.
  destruct (get_attribute_value_type ty); [done| |]; injection Ht as <-;
    unfold attr_read; cbn [at_body at_type at_length]; destruct body as [| |bits| |bs|]; try done.
  - destruct Hb as [-> Hb]. cbn [StunUInt32Attribute at_body at_length].
    unfold attr_value_bytes, attr_write, WriteUInt32, WriteBytes in Hu. simpl in Hu.
    rewrite u32_id in Hu by done.
    destruct (ReadUInt32_app r bits k Hr Hb Hu) as (r' & -> & ? & ?).
    simpl. by exists r'.
  - unfold attr_value_bytes, attr_write, WriteBytes in Hu. cbn [at_body at_length snd] in Hu.
    rewrite Hb, Nat2Z.id, firstn_all in *.
    cbn [app] in Hu.
    assert (write_padding (Z.of_nat (length bs)) bs =
            bs ++ write_padding (Z.of_nat (length bs)) []) as Hw
      by (by rewrite <- write_padding_app, app_nil_r).
    rewrite Hw, <- app_assoc in Hu.
    destruct (ReadBytes_app r _ _ Hr Hu) as (r1 & -> & Hr1 & Hu1). cbn [mbind option_bind].
    destruct (consume_padding_app r1 (Z.of_nat (length bs)) [] k Hr1 ltac:(lia) Hu1 eq_refl)
      as (r' & E & ? & ?).
    rewrite E. by exists r'.
Qed.

Lemma read_attrs_wire l : forall fuel r acc,
  Forall attr_wf l -> reader_wf r -> unread r = attrs_wire l ->
  (length l < fuel)%nat ->
  read_attrs fuel r acc = Some (acc ++ filter attr_known l).
Proof.
  induction l as [|a l IH]; intros fuel r acc Hl Hr Hu Hf;
    (destruct fuel as [|fuel]; [simpl in Hf; lia|]); cbn [read_attrs].
  - rewrite rd_Length_unread, Hu, bool_decide_eq_true_2 by done.
    by rewrite filter_nil, app_nil_r.
  - apply Forall_cons in Hl as [Ha Hl].
    assert (rd_Length r <> 0%nat) as Hne.
    { rewrite rd_Length_unread, Hu by done. cbn. lia. }
    rewrite bool_decide_eq_false_2 by done.
    unfold attrs_wire in Hu. cbn [map concat] in Hu. fold (attrs_wire l) in Hu.
    unfold attr_wire in Hu. rewrite <- !app_assoc in Hu.
    pose proof (attr_wf_length a Ha) as Hlen.
    destruct (ReadUInt16_app r _ _ Hr (proj1 Ha) Hu) as (r1 & -> & Hr1 & Hu1). cbn [mbind option_bind].
    destruct (ReadUInt16_app r1 _ _ Hr1 Hlen Hu1) as (r2 & -> & Hr2 & Hu2). cbn [mbind option_bind].
    destruct (create_attribute (at_type a) (at_length a)) as [t|] eqn:Ec.
    + destruct (attr_read_known a t r2 _ Ha Ec Hr2 Hu2) as (r3 & -> & Hr3 & Hu3). cbn [mbind option_bind].
      rewrite (IH _ _ _ Hl Hr3 Hu3) by (simpl in Hf; lia).
      rewrite filter_cons, decide_True, <- app_assoc; [done|].
      unfold attr_known, create_attribute in *. by destruct (get_attribute_value_type _).
    + assert (Hp : padded (at_length a) = Z.of_nat (length (attr_value_bytes a)))
        by (by rewrite length_attr_value_bytes).
      replace (if negb (at_length a mod 4 =? 0)
               then u16 (at_length a + (4 - at_length a mod 4)) else at_length a)
        with (padded (at_length a)); [rewrite Hp, Nat2Z.id|].
      * destruct (Consume_app r2 _ _ Hr2 Hu2) as (r3 & -> & Hr3 & Hu3). cbn [mbind option_bind].
        rewrite (IH _ _ _ Hl Hr3 Hu3) by (simpl in Hf; lia).
        rewrite filter_cons, decide_False; [done|].
        unfold attr_known, create_attribute in *.
        destruct (get_attribute_value_type _); [tauto|done..].
      * destruct Ha as (_ & Hpr & _). unfold padded in *.
        destruct (negb _); [by rewrite u16_id|done].
Qed.

(** The reader's view of a well-formed message. *)
Lemma stun_read_wire m0 m :
  stun_wf m ->
  stun_read m0 (Construct (stun_wire m)) =
  Some (mkMsg (m_type m) (m_length m) (m_transaction_id m) (filter attr_known (m_attrs m))
         (m_integrity m0) (m_password m0) (stun_wire m)).
Proof.
  intros [Ht Hn Hi Ha Hl Hf]. unfold stun_read. rewrite unread_Construct.
  pose proof (attrs_size_bounds _ Ha) as [Hs _].
  pose proof (length_attrs_wire _ Ha) as Hlw.
  assert (Hu : unread (Construct (stun_wire m)) =
    be_encode 2 (m_type m) ++ be_encode 2 (m_length m) ++
    be_encode 4 k_stun_magic_cookie ++ m_transaction_id m ++ attrs_wire (m_attrs m)).
  { rewrite unread_Construct. unfold stun_wire, stun_header. by rewrite <- !app_assoc. }
  pose proof (Construct_wf (stun_wire m)) as Hr.
  destruct (ReadUInt16_app _ _ _ Hr Ht Hu) as (r1 & -> & Hr1 & Hu1). cbn [mbind option_bind].
  rewrite Hn. cbn [Z.eqb negb].
  destruct (ReadUInt16_app _ (m_length m) _ Hr1 ltac:(lia) Hu1) as (r2 & -> & Hr2 & Hu2).
  cbn [mbind option_bind].
  destruct (ReadString_app _ _ _ Hr2 Hu2) as (r3 & E3 & Hr3 & Hu3).
  rewrite length_be_encode in E3. unfold k_stun_magic_cookie_length. rewrite E3.
  cbn [mbind option_bind].
  destruct (ReadString_app _ _ _ Hr3 Hu3) as (r4 & E4 & Hr4 & Hu4).
  rewrite <- Hi, E4. cbn [mbind option_bind].
  rewrite be_decode_encode_id, Z.eqb_refl by (unfold k_stun_magic_cookie; simpl; lia).
  unfold set_transaction_id, set_length, set_type, set_attrs, set_buffer.
  cbn [m_type m_length m_transaction_id m_attrs m_integrity m_password m_buffer].
  rewrite !u16_id by (done || lia).
  rewrite rd_Length_unread, Hu4, Hlw, Hl, Z.eqb_refl by done. cbn [negb].
  rewrite (read_attrs_wire _ _ _ [] Ha Hr4 Hu4).
  - cbn [mbind option_bind app]. done.
  - clear -Ha. induction Ha as [|a l Ha _ IH]; [cbn; lia|].
    unfold attrs_wire in *. cbn [map concat length]. rewrite length_app.
    unfold attr_wire at 1. rewrite !length_app, !length_be_encode. lia.
Qed.

(** C30: what [write] produces [read] accepts: a well-formed message (whatever
    attributes of whatever classes it holds) is written without failure, and
    reading the bytes with any message object gives back its type, length and
    transaction id and, in order, exactly the attributes whose type the reader
    knows; the bytes are kept in the buffer the integrity check reads. *)
Theorem stun_write_read_roundtrip (m m0 : StunMessage) :
  stun_wf m ->
  exists bs, stun_write m [] = (true, bs) /\
  exists m', stun_read m0 (Construct bs) = Some m' /\
    m_type m' = m_type m /\ m_length m' = m_length m /\
    m_transaction_id m' = m_transaction_id m /\
    m_attrs m' = filter attr_known (m_attrs m) /\ m_buffer m' = bs.
Proof.
  intros Hm. exists (stun_wire m). split; [by rewrite stun_write_wire|].
  eexists. split; [by apply stun_read_wire|]. done.
Qed.

Definition example_request : StunMessage :=
  add_attribute
    (add_attribute (set_type (set_transaction_id new_StunMessage (str "abcdefghijkl"))
                      STUN_BINDING_REQUEST)
       (StunByteStringAttribute STUN_ATTR_USERNAME (str "peer:local")))
    (StunUInt32Attribute STUN_ATTR_PRIORITY 1853824767).

Lemma example_request_wf : stun_wf example_request.
Proof.
  split; [split; [discriminate|reflexivity]|reflexivity..| |reflexivity|reflexivity].
  repeat apply Forall_cons_2; [| |apply Forall_nil; exact I].
  - apply StunByteStringAttribute_wf; [reflexivity|discriminate|reflexivity..].
  - apply StunUInt32Attribute_wf; [left; reflexivity|split; [discriminate|reflexivity]..].
Qed.

Lemma stun_write_read_roundtrip_witness :
  exists bs, stun_write example_request [] = (true, bs) /\
  exists m', stun_read new_StunMessage (Construct bs) = Some m' /\
    m_type m' = 1 /\ m_length m' = 24 /\ m_transaction_id m' = str "abcdefghijkl" /\
    m_attrs m' = m_attrs example_request /\ m_buffer m' = bs.
Proof. exact (stun_write_read_roundtrip example_request new_StunMessage example_request_wf). Defined.

(** ** Adding attributes *)

Lemma add_attribute_wf m a :
  stun_wf m -> attr_wf a -> m_length m + 4 + padded (at_length a) < 2 ^ 16 ->
  stun_wf (add_attribute m a).
Proof.
  intros [Ht Hn Hi Ha Hl Hf] Hwf Hfit.
  pose proof (attrs_size_bounds _ Ha) as [Hs _].
  pose proof (padded_spec _ (attr_wf_length_nonneg _ Hwf)) as [Hp _].
  pose proof (attr_wf_length_nonneg _ Hwf).
  assert (Hlen : m_length (add_attribute m a) = m_length m + 4 + padded (at_length a)).
  { unfold add_attribute, set_attrs, set_length. cbn [m_length].
    unfold k_stun_attribute_header_size. rewrite u16_id; lia. }
  split; try done.
  - unfold add_attribute, set_attrs. cbn [m_attrs]. apply Forall_app_2; [done|].
    by apply Forall_singleton.
  - rewrite Hlen. unfold add_attribute, set_attrs. cbn [m_attrs].
    rewrite attrs_size_app. cbn [attrs_size foldr]. lia.
  - by rewrite Hlen.
Qed.

Lemma update_last_attr_app m l a f :
  m_attrs m = l ++ [a] -> m_attrs (update_last_attr m f) = l ++ [f a].
Proof.
  intros H. unfold update_last_attr, set_attrs. cbn [m_attrs]. rewrite H.
  rewrite length_app. cbn [length]. replace (pred (length l + 1)) with (length l + 0)%nat by lia.
  by rewrite alter_app_r.
Qed.

Lemma update_last_attr_wf m l a f :
  m_attrs m = l ++ [a] -> at_length (f a) = at_length a -> attr_wf (f a) ->
  stun_wf m -> stun_wf (update_last_attr m f).
Proof.
  intros H Hlen Hfa [Ht Hn Hi Ha Hl Hf]. split; try done.
  - rewrite (update_last_attr_app _ _ _ _ H). rewrite H in Ha.
    apply Forall_app in Ha as [Ha _]. apply Forall_app_2; [done|]. by apply Forall_singleton.
  - rewrite (update_last_attr_app _ _ _ _ H). cbn [update_last_attr set_attrs m_length].
    rewrite Hl, H, !attrs_size_app. cbn [attrs_size foldr]. by rewrite Hlen.
Qed.

(** ** Fingerprint *)

(** A well-formed message as the bytes before its last attribute and the wire
    image of that attribute. *)
Definition wire_before (m : StunMessage) (l : list StunAttribute) : bytes :=
  stun_header (m_type m) (m_length m) (m_transaction_id m) ++ attrs_wire l.

Lemma stun_wire_last m l a :
  m_attrs m = l ++ [a] -> stun_wire m = wire_before m l ++ attr_wire a.
Proof.
  intros H. unfold stun_wire, wire_before. rewrite H, attrs_wire_app, attrs_wire_single.
  by rewrite app_assoc.
Qed.

Lemma add_fingerprint_spec m :
  stun_wf m -> m_length m + 8 < 2 ^ 16 ->
  exists m', add_fingerprint m = (true, m') /\ stun_wf m' /\
    m_type m' = m_type m /\ m_length m' = m_length m + 8 /\
    m_transaction_id m' = m_transaction_id m /\
    m_attrs m' = m_attrs m ++ [StunUInt32Attribute STUN_ATTR_FINGERPRINT
      (Z.lxor (ComputeCrc32 (wire_before m' (m_attrs m))) STUN_FINGERPRINT_XOR_VALUE)].
Proof.
  intros Hm Hfit. unfold add_fingerprint.
  set (fp := StunUInt32Attribute STUN_ATTR_FINGERPRINT 0).
  assert (Hfp : attr_wf fp)
    by (apply StunUInt32Attribute_wf; [right; reflexivity|unfold STUN_ATTR_FINGERPRINT; lia|lia]).
  assert (Hm1 : stun_wf (add_attribute m fp)) by (apply add_attribute_wf; [done..|change (padded (at_length fp)) with 4; lia]).
  set (m1 := add_attribute m fp) in *.
  assert (Hl1 : m_attrs m1 = m_attrs m ++ [fp]) by done.
  assert (Hlen1 : m_length m1 = m_length m + 8).
  { destruct Hm as [_ _ _ Ha Hl _]. pose proof (attrs_size_bounds _ Ha) as [? _].
    unfold m1, add_attribute, set_attrs, set_length. cbn [m_length].
    unfold k_stun_attribute_header_size. change (padded (at_length fp)) with 4.
    rewrite u16_id; lia. }
  rewrite (stun_write_wire m1 [] Hm1). cbn [app negb].
  rewrite (stun_wire_last m1 _ _ Hl1).
  assert (Hfl : length (attr_wire fp) = 8%nat)
    by (apply Nat2Z.inj; rewrite length_attr_wire by done; reflexivity).
  assert (Htake : take (length (wire_before m1 (m_attrs m) ++ attr_wire fp)
                        - k_stun_attribute_header_size - Z.to_nat (at_length fp))
                       (wire_before m1 (m_attrs m) ++ attr_wire fp)
                  = wire_before m1 (m_attrs m)).
  { rewrite length_app, Hfl. change (Z.to_nat (at_length fp)) with 4%nat.
    unfold k_stun_attribute_header_size.
    apply take_app_length'. lia. }
  rewrite Htake. eexists. split; [reflexivity|].
  assert (Hrange : 0 <= Z.lxor (ComputeCrc32 (wire_before m1 (m_attrs m)))
                     STUN_FINGERPRINT_XOR_VALUE < 2 ^ 32).
  { apply lxor_range_32; [apply ComputeCrc32_range|]. unfold STUN_FINGERPRINT_XOR_VALUE. lia. }
  split_and!.
  - eapply update_last_attr_wf; [exact Hl1|done| |done].
    apply (StunUInt32Attribute_wf STUN_ATTR_FINGERPRINT);
      [right; reflexivity|unfold STUN_ATTR_FINGERPRINT; lia|exact Hrange].
  - done.
  - exact Hlen1.
  - done.
  - rewrite (update_last_attr_app _ _ _ _ Hl1). done.
Qed.

(** [validate_fingerprint] on a message whose last attribute is a fingerprint. *)
Lemma GetBE32_app a v k :
  0 <= v < 2 ^ 32 -> GetBE32 (a ++ be_encode 4 v ++ k) (length a) = Done v.
Proof.
  intros Hv. unfold GetBE32. pose proof (read_at_app_mid a (be_encode 4 v) k) as H.
  rewrite length_be_encode in H. rewrite H. cbn [fmap outcome_fmap].
  by rewrite be_decode_encode_id by (simpl; lia).
Qed.

Lemma GetBE16_app a v k :
  0 <= v < 2 ^ 16 -> GetBE16 (a ++ be_encode 2 v ++ k) (length a) = Done v.
Proof.
  intros Hv. unfold GetBE16. pose proof (read_at_app_mid a (be_encode 2 v) k) as H.
  rewrite length_be_encode in H. rewrite H. cbn [fmap outcome_fmap].
  by rewrite be_decode_encode_id by (simpl; lia).
Qed.

Lemma attr_wire_uint32 t v :
  0 <= v < 2 ^ 32 ->
  attr_wire (StunUInt32Attribute t v) = be_encode 2 t ++ be_encode 2 4 ++ be_encode 4 v.
Proof.
  intros Hv. unfold attr_wire, attr_value_bytes, attr_write, StunUInt32Attribute,
    WriteUInt32, WriteBytes. cbn [at_type at_length at_body snd app]. by rewrite u32_id.
Qed.

Lemma validate_fingerprint_spec hdr4 tid body v :
  length hdr4 = 4%nat -> length tid = k_stun_transaction_id_length ->
  (length body `mod` 4 = 0)%nat -> 0 <= v < 2 ^ 32 ->
  let pre := hdr4 ++ be_encode 4 k_stun_magic_cookie ++ tid ++ body in
  validate_fingerprint (pre ++ attr_wire (StunUInt32Attribute STUN_ATTR_FINGERPRINT v)) =
  Done (Z.lxor v STUN_FINGERPRINT_XOR_VALUE =? ComputeCrc32 pre).
Proof.
  intros Hh Ht Hb Hv pre. rewrite attr_wire_uint32 by done.
  assert (Hpre : length pre = (20 + length body)%nat).
  { unfold pre. rewrite !length_app, length_be_encode, Hh, Ht.
    unfold k_stun_transaction_id_length. lia. }
  unfold validate_fingerprint, fingerprint_attr_size, k_stun_header_size,
    k_stun_attribute_header_size, k_stun_transaction_id_offset, k_stun_magic_cookie_length.
  assert (Hl : length (pre ++ be_encode 2 STUN_ATTR_FINGERPRINT ++ be_encode 2 4 ++ be_encode 4 v)
               = (length pre + 8)%nat) by (rewrite !length_app, !length_be_encode; lia).
  rewrite Hl. rewrite bool_decide_eq_true_2, bool_decide_eq_false_2.
  2: lia.
  2: { rewrite Hpre. replace (20 + length body + 8)%nat with (length body + 7 * 4)%nat by lia.
       by rewrite Nat.Div0.mod_add. }
  cbn [negb orb]. replace (length pre + 8 - (4 + 4))%nat with (length pre) by lia.
  assert (Hc : GetBE32 (pre ++ be_encode 2 STUN_ATTR_FINGERPRINT ++ be_encode 2 4 ++ be_encode 4 v)
            (8 - 4) = Done k_stun_magic_cookie).
  { unfold pre. rewrite <- !app_assoc. replace (8 - 4)%nat with (length hdr4) by lia.
    apply GetBE32_app. unfold k_stun_magic_cookie. lia. }
  rewrite Hc. cbn [mbind outcome_bind]. rewrite Z.eqb_refl. cbn [negb].
  rewrite GetBE16_app by (unfold STUN_ATTR_FINGERPRINT; lia).
  cbn [mbind outcome_bind]. rewrite Z.eqb_refl. cbn [negb].
  assert (Hs : GetBE16 (pre ++ be_encode 2 STUN_ATTR_FINGERPRINT ++ be_encode 2 4 ++ be_encode 4 v)
            (length pre + 2) = Done 4).
  { rewrite app_assoc. replace (length pre + 2)%nat
      with (length (pre ++ be_encode 2 STUN_ATTR_FINGERPRINT))
      by (by rewrite length_app, length_be_encode).
    apply GetBE16_app. lia. }
  rewrite Hs. cbn [mbind outcome_bind Z.eqb Pos.eqb negb].
  assert (Hf : GetBE32 (pre ++ be_encode 2 STUN_ATTR_FINGERPRINT ++ be_encode 2 4 ++ be_encode 4 v)
            (length pre + 4) = Done v).
  { rewrite 2!app_assoc, <- (app_nil_r (be_encode 4 v)).
    replace (length pre + 4)%nat
      with (length ((pre ++ be_encode 2 STUN_ATTR_FINGERPRINT) ++ be_encode 2 4))
      by (rewrite !length_app, !length_be_encode; lia).
    by apply GetBE32_app. }
  rewrite Hf. cbn [mbind outcome_bind]. by rewrite take_app_length.
Qed.

Lemma fingerprint_value_exact v c :
  (Z.lxor v STUN_FINGERPRINT_XOR_VALUE =? c) =
  (v =? Z.lxor c STUN_FINGERPRINT_XOR_VALUE).
Proof.
  apply eq_bool_prop_intro. rewrite !Is_true_true, !Z.eqb_eq.
  split; [intros <-|intros ->];
    by rewrite Z.lxor_assoc, Z.lxor_nilpotent, Z.lxor_0_r.
Qed.

Lemma stun_wf_body m :
  stun_wf m -> (length (attrs_wire (m_attrs m)) `mod` 4 = 0)%nat.
Proof.
  intros [_ _ _ Ha _ _]. pose proof (attrs_size_bounds _ Ha) as [_ Hm].
  rewrite <- length_attrs_wire in Hm by done.
  change 4 with (Z.of_nat 4) in Hm. rewrite <- Nat2Z.inj_mod in Hm. lia.
Qed.

Lemma wire_before_split m l :
  wire_before m l = (be_encode 2 (m_type m) ++ be_encode 2 (m_length m)) ++
                    be_encode 4 k_stun_magic_cookie ++ m_transaction_id m ++ attrs_wire l.
Proof. unfold wire_before, stun_header. by rewrite <- !app_assoc. Qed.

Lemma validate_fingerprint_wire m l v :
  stun_wf m -> (length (attrs_wire l) `mod` 4 = 0)%nat -> 0 <= v < 2 ^ 32 ->
  validate_fingerprint
    (wire_before m l ++ attr_wire (StunUInt32Attribute STUN_ATTR_FINGERPRINT v)) =
  Done (v =? Z.lxor (ComputeCrc32 (wire_before m l)) STUN_FINGERPRINT_XOR_VALUE).
Proof.
  intros Hm Hl Hv. rewrite wire_before_split.
  rewrite validate_fingerprint_spec; [by rewrite fingerprint_value_exact|done| |done|done].
  apply Hm.
Qed.

(** The fingerprint of a message is accepted, and it is the only value
    that is: after [add_fingerprint] the message is still well formed, its
    bytes pass [validate_fingerprint], and the same bytes with any other
    32-bit value in the fingerprint attribute are refused. *)
Theorem fingerprint_accepts_exactly (m : StunMessage) :
  stun_wf m -> m_length m + 8 < 2 ^ 16 ->
  exists m' bs fp, add_fingerprint m = (true, m') /\ stun_wf m' /\
    stun_write m' [] = (true, bs) /\ validate_fingerprint bs = Done true /\
    bs = take (length bs - 4) bs ++ be_encode 4 fp /\
    forall v, 0 <= v < 2 ^ 32 -> v <> fp ->
      validate_fingerprint (take (length bs - 4) bs ++ be_encode 4 v) = Done false.
Proof.
  intros Hm Hfit. destruct (add_fingerprint_spec m Hm Hfit) as (m' & E & Hm' & _ & _ & _ & Hl).
  set (pre := wire_before m' (m_attrs m)) in *.
  set (fp := Z.lxor (ComputeCrc32 pre) STUN_FINGERPRINT_XOR_VALUE) in *.
  assert (Hfp : 0 <= fp < 2 ^ 32).
  { apply lxor_range_32; [apply ComputeCrc32_range|unfold STUN_FINGERPRINT_XOR_VALUE; lia]. }
  assert (Hpre : forall v, 0 <= v < 2 ^ 32 ->
    take (length (stun_wire m') - 4) (stun_wire m') ++ be_encode 4 v =
    pre ++ attr_wire (StunUInt32Attribute STUN_ATTR_FINGERPRINT v)).
  { intros v Hv. rewrite (stun_wire_last m' _ _ Hl), !attr_wire_uint32 by done. fold pre.
    assert (Hq : forall w, pre ++ be_encode 2 STUN_ATTR_FINGERPRINT ++ be_encode 2 4 ++ w =
      (pre ++ be_encode 2 STUN_ATTR_FINGERPRINT ++ be_encode 2 4) ++ w)
      by (intros w; by rewrite <- !app_assoc).
    rewrite !Hq, take_app_length'; [done|]. rewrite length_app, length_be_encode. lia. }
  exists m', (stun_wire m'), fp. split_and!; try done.
  - by apply stun_write_wire.
  - rewrite (stun_wire_last m' _ _ Hl). fold pre.
    unfold pre. rewrite validate_fingerprint_wire by (done || by apply stun_wf_body).
    f_equal. apply Z.eqb_refl.
  - rewrite (Hpre fp Hfp). by apply stun_wire_last.
  - intros v Hv Hne. rewrite (Hpre v Hv). unfold pre.
    rewrite validate_fingerprint_wire by (done || by apply stun_wf_body).
    f_equal. by apply Z.eqb_neq.
Qed.

Lemma fingerprint_accepts_exactly_witness :
  exists m' bs fp, add_fingerprint example_request = (true, m') /\ stun_wf m' /\
    stun_write m' [] = (true, bs) /\ validate_fingerprint bs = Done true /\
    bs = take (length bs - 4) bs ++ be_encode 4 fp /\
    forall v, 0 <= v < 2 ^ 32 -> v <> fp ->
      validate_fingerprint (take (length bs - 4) bs ++ be_encode 4 v) = Done false.
Proof. apply (fingerprint_accepts_exactly example_request example_request_wf). reflexivity. Defined.

(** ** Message integrity *)

Lemma find_mi_wire mi l : forall fuel pre rest,
  Forall attr_wf l -> Forall (fun a => at_type a <> mi) l -> 0 <= mi < 2 ^ 16 ->
  (4 <= length rest)%nat -> (length l < fuel)%nat -> be_encode 2 mi = take 2 rest ->
  find_mi fuel (pre ++ attrs_wire l ++ rest) (length pre) mi =
  Done (Some (length pre + length (attrs_wire l))%nat).
Proof.
  induction l as [|a l IH]; intros fuel pre rest Hl Hmi Hr Hrest Hf Ht;
    (destruct fuel as [|fuel]; [simpl in Hf; lia|]); cbn [find_mi];
    unfold k_stun_attribute_header_size.
  - unfold attrs_wire. cbn [map concat app].
    rewrite bool_decide_eq_true_2 by (rewrite length_app; lia).
    assert (Hrs : rest = be_encode 2 mi ++ drop 2 rest) by (by rewrite Ht, take_drop).
    rewrite Hrs at 1. rewrite GetBE16_app by done. cbn [mbind outcome_bind].
    unfold GetBE16. rewrite read_at_Done by (rewrite length_app; lia).
    cbn [fmap outcome_fmap mbind outcome_bind]. rewrite Z.eqb_refl. by rewrite Nat.add_0_r.
  - apply Forall_cons in Hl as [Ha Hl]. apply Forall_cons in Hmi as [Hna Hmi].
    unfold attrs_wire. cbn [map concat]. fold (attrs_wire l).
    pose proof (attr_wf_length a Ha) as Hlen. pose proof (length_attr_wire a Ha) as Hw.
    rewrite <- !app_assoc.
    rewrite bool_decide_eq_true_2
      by (unfold attr_wire; rewrite !length_app, !length_be_encode; lia).
    assert (E1 : GetBE16 (pre ++ attr_wire a ++ attrs_wire l ++ rest) (length pre)
                 = Done (at_type a)).
    { unfold attr_wire. rewrite <- !app_assoc. apply GetBE16_app, Ha. }
    assert (E2 : GetBE16 (pre ++ attr_wire a ++ attrs_wire l ++ rest) (length pre + 2)
                 = Done (at_length a)).
    { unfold attr_wire. rewrite <- !app_assoc, (app_assoc pre).
      replace (length pre + 2)%nat with (length (pre ++ be_encode 2 (at_type a)))
        by (by rewrite length_app, length_be_encode).
      by apply GetBE16_app. }
    rewrite E1. cbn [mbind outcome_bind]. rewrite E2. cbn [mbind outcome_bind].
    rewrite (proj2 (Z.eqb_neq _ _) Hna).
    replace (length pre + 4 + Z.to_nat (padded (at_length a)))%nat
      with (length (pre ++ attr_wire a))
      by (pose proof (padded_spec _ (proj1 Hlen)); rewrite length_app; lia).
    rewrite (app_assoc pre), IH by (done || (simpl in Hf; lia)).
    f_equal. f_equal. rewrite !length_app. lia.
Qed.

Section integrity_theory.
Context (sha1 : bytes -> bytes).
(** OpenSSL's SHA-1 yields twenty bytes. *)
Hypothesis sha1_length : forall x, length (sha1 x) = k_stun_message_integrity_size.

Definition hmac_value (key input : bytes) : bytes :=
  sha1 (xor_pad 0x5c (hmac_block_key sha1 k_stun_message_integrity_size key) ++
        sha1 (xor_pad 0x36 (hmac_block_key sha1 k_stun_message_integrity_size key) ++ input)).

Lemma hmac_sha1_value key input : hmac_sha1 sha1 key input = Some (hmac_value key input).
Proof. apply ComputeHmac_value; unfold k_stun_message_integrity_size; lia. Qed.

Definition mi_attribute (mac : bytes) : StunAttribute :=
  StunByteStringAttribute STUN_ATTR_MESSAGE_INTEGRITY mac.

Lemma mi_attribute_wf mac : length mac = 20%nat -> attr_wf (mi_attribute mac).
Proof.
  intros H. apply StunByteStringAttribute_wf; [reflexivity|discriminate|reflexivity|].
  by rewrite H.
Qed.

Lemma attr_wire_mi mac :
  length mac = 20%nat ->
  attr_wire (mi_attribute mac) =
  be_encode 2 STUN_ATTR_MESSAGE_INTEGRITY ++ be_encode 2 20 ++ mac.
Proof.
  intros H. unfold attr_wire, attr_value_bytes, attr_write, mi_attribute,
    StunByteStringAttribute, WriteBytes. cbn [at_type at_length at_body snd].
  rewrite H. change (u16 (Z.of_nat 20)) with 20. unfold write_padding.
  change (0 <? 20 mod 4) with false. cbv iota.
  rewrite firstn_all2 by (rewrite H; change (Z.to_nat 20) with 20%nat; lia). done.
Qed.

Lemma add_message_integrity_spec m pw :
  stun_wf m -> m_length m + 24 < 2 ^ 16 ->
  exists m', add_message_integrity sha1 m pw = (true, m') /\ stun_wf m' /\
    m_type m' = m_type m /\ m_length m' = m_length m + 24 /\
    m_transaction_id m' = m_transaction_id m /\
    m_attrs m' = m_attrs m ++ [mi_attribute (hmac_value pw (wire_before m' (m_attrs m)))].
Proof.
  intros Hm Hfit. unfold add_message_integrity, add_message_integrity_of_type.
  set (mi := StunByteStringAttribute _ _).
  assert (Hmi : attr_wf mi) by (by apply mi_attribute_wf).
  assert (Hm1 : stun_wf (add_attribute m mi))
    by (apply add_attribute_wf; [done..|change (padded (at_length mi)) with 20; lia]).
  set (m1 := add_attribute m mi) in *.
  assert (Hl1 : m_attrs m1 = m_attrs m ++ [mi]) by done.
  assert (Hlen1 : m_length m1 = m_length m + 24).
  { destruct Hm as [_ _ _ Ha Hl _]. pose proof (attrs_size_bounds _ Ha) as [? _].
    unfold m1, add_attribute, set_attrs, set_length. cbn [m_length].
    unfold k_stun_attribute_header_size. change (padded (at_length mi)) with 20.
    rewrite u16_id; lia. }
  rewrite (stun_write_wire m1 [] Hm1). cbn [app negb].
  rewrite (stun_wire_last m1 _ _ Hl1).
  assert (Hfl : length (attr_wire mi) = 24%nat)
    by (apply Nat2Z.inj; rewrite length_attr_wire by done; reflexivity).
  rewrite length_app, Hfl. change (Z.to_nat (at_length mi)) with 20%nat.
  unfold k_stun_attribute_header_size. rewrite take_app_length' by lia.
  rewrite hmac_sha1_value. set (mac := hmac_value pw (wire_before m1 (m_attrs m))).
  assert (Hmac : length mac = 20%nat) by apply sha1_length.
  eexists. split; [reflexivity|].
  assert (Hwf : stun_wf (update_last_attr m1 (fun a => copy_bytes a mac))).
  { eapply update_last_attr_wf; [exact Hl1| | |done].
    - cbn [copy_bytes at_length]. by rewrite Hmac.
    - by apply mi_attribute_wf. }
  split_and!; [|done..|].
  - destruct Hwf; by split.
  - etransitivity; [exact (update_last_attr_app _ _ _ (fun a => copy_bytes a mac) Hl1)|].
    reflexivity.
Qed.

(** The bytes the integrity check hashes: the message up to the attribute,
    with the length a message ending right after it would have. *)
Definition mi_prefix (m : StunMessage) (l : list StunAttribute) : bytes :=
  stun_header (m_type m) (attrs_size l + 24) (m_transaction_id m) ++ attrs_wire l.

Lemma SetBE16_header t n n' tid rest :
  0 <= n' < 2 ^ 16 ->
  SetBE16 (stun_header t n tid ++ rest) 2 n' = Done (stun_header t n' tid ++ rest).
Proof.
  intros Hn. unfold SetBE16, stun_header. rewrite bool_decide_eq_true_2
    by (rewrite !length_app, !length_be_encode; lia).
  rewrite <- !app_assoc, u16_id by done.
  rewrite take_app_length' by (by rewrite length_be_encode).
  rewrite (app_assoc (be_encode 2 t) (be_encode 2 n)), drop_app_length'; [done|].
  by rewrite length_app, !length_be_encode.
Qed.

(** A well-formed message with an integrity attribute, the first of its
    type, between the attributes [l] and [k]. *)
Section mi_wire.
Context (m : StunMessage) (l k : list StunAttribute) (mac pw : bytes).
Hypothesis Hm : stun_wf m.
Hypothesis Hl : m_attrs m = l ++ mi_attribute mac :: k.
Hypothesis Hmac : length mac = 20%nat.
Hypothesis Hno : Forall (fun a => at_type a <> STUN_ATTR_MESSAGE_INTEGRITY) l.

Let hd := stun_header (m_type m) (m_length m) (m_transaction_id m).
Let mi_pos := (20 + length (attrs_wire l))%nat.

Lemma mi_parts_wf : Forall attr_wf l /\ Forall attr_wf k.
Proof.
  pose proof (wf_attrs m Hm) as Ha. rewrite Hl in Ha.
  apply Forall_app in Ha as [Ha Hk]. by apply Forall_cons in Hk as [_ Hk].
Qed.

Lemma mi_hd_length : length hd = 20%nat.
Proof. apply length_stun_header, Hm. Qed.

Lemma mi_total_length : m_length m = attrs_size l + 24 + attrs_size k.
Proof.
  rewrite (wf_length m Hm), Hl, attrs_size_app. cbn [attrs_size foldr].
  fold (attrs_size k). unfold mi_attribute, StunByteStringAttribute. cbn [at_length].
  rewrite Hmac. change (padded (u16 (Z.of_nat 20))) with 20. lia.
Qed.

Lemma mi_wire_split :
  stun_wire m = hd ++ attrs_wire l ++ (be_encode 2 STUN_ATTR_MESSAGE_INTEGRITY ++
                be_encode 2 20 ++ mac ++ attrs_wire k).
Proof.
  unfold stun_wire. fold hd. rewrite Hl, attrs_wire_app. do 2 f_equal.
  unfold attrs_wire at 1. cbn [map concat]. rewrite attr_wire_mi by done.
  by rewrite <- !app_assoc.
Qed.

Lemma mi_wire_length :
  length (stun_wire m) = (mi_pos + 24 + length (attrs_wire k))%nat /\
  (length (stun_wire m) `mod` 4 = 0)%nat.
Proof.
  split.
  - rewrite mi_wire_split, !length_app, !length_be_encode, mi_hd_length, Hmac.
    unfold mi_pos. lia.
  - destruct mi_parts_wf as [Hal Hak]. apply Nat2Z.inj.
    rewrite Nat2Z.inj_mod, (length_stun_wire m Hm), mi_total_length.
    replace (20 + (attrs_size l + 24 + attrs_size k))
      with ((attrs_size l + attrs_size k) + 11 * 4) by lia.
    change (Z.of_nat 4) with 4. rewrite Z.mod_add by lia.
    rewrite Z.add_mod, (proj2 (attrs_size_bounds _ Hal)), (proj2 (attrs_size_bounds _ Hak))
      by lia. done.
Qed.

Lemma mi_length_field : GetBE16 (stun_wire m) 2 = Done (m_length m).
Proof.
  destruct Hm as [_ _ _ Ha Hsz Hf]. pose proof (attrs_size_bounds _ Ha) as [Hs _].
  unfold stun_wire, stun_header. rewrite <- !app_assoc.
  pose proof (GetBE16_app (be_encode 2 (m_type m)) (m_length m)) as H.
  rewrite length_be_encode in H. apply H. lia.
Qed.

Lemma mi_found :
  find_mi (S (length (stun_wire m))) (stun_wire m) 20 STUN_ATTR_MESSAGE_INTEGRITY =
  Done (Some mi_pos).
Proof.
  destruct mi_parts_wf as [Hal _]. destruct mi_wire_length as [Hlen _].
  rewrite Hlen, mi_wire_split. rewrite <- mi_hd_length at 2.
  rewrite find_mi_wire; [by rewrite mi_hd_length|done|done| | | |done].
  - by unfold STUN_ATTR_MESSAGE_INTEGRITY.
  - rewrite !length_app, !length_be_encode. lia.
  - assert (length l <= length (attrs_wire l))%nat; [|unfold mi_pos; lia].
    clear -Hal. induction Hal as [|a l Ha _ IH]; [done|].
    unfold attrs_wire in *. cbn [map concat length]. rewrite length_app.
    pose proof (length_attr_wire a Ha). pose proof (attr_wf_length_nonneg a Ha) as Hn.
    pose proof (padded_spec _ Hn). lia.
Qed.

Lemma mi_temp_data :
  (if bool_decide (mi_pos + 4 + 20 < length (stun_wire m))%nat
   then SetBE16 (take mi_pos (stun_wire m)) 2 (Z.of_nat (length (stun_wire m) -
          (length (stun_wire m) - (mi_pos + 4 + 20)) - 20))
   else Done (take mi_pos (stun_wire m))) = Done (mi_prefix m l).
Proof.
  destruct mi_wire_length as [Hlen _]. destruct mi_parts_wf as [Hal Hak].
  pose proof (length_attrs_wire _ Hal). pose proof (length_attrs_wire _ Hak).
  pose proof mi_total_length. pose proof (wf_fits m Hm).
  assert (Htake : take mi_pos (stun_wire m) = hd ++ attrs_wire l).
  { rewrite mi_wire_split, app_assoc. apply take_app_length'.
    rewrite length_app, mi_hd_length. done. }
  rewrite Htake. unfold mi_prefix, hd, mi_pos in *. case_bool_decide.
  - rewrite SetBE16_header by lia. do 3 f_equal. lia.
  - do 3 f_equal. lia.
Qed.

Lemma mi_read : read_at (stun_wire m ++ [x00]) (mi_pos + 4) 20 = Done mac.
Proof.
  pose proof (read_at_app_mid (hd ++ attrs_wire l ++
    be_encode 2 STUN_ATTR_MESSAGE_INTEGRITY ++ be_encode 2 20) mac
    (attrs_wire k ++ [x00])) as H.
  rewrite !length_app, !length_be_encode, mi_hd_length, Hmac, <- !app_assoc in H.
  rewrite mi_wire_split, <- !app_assoc. rewrite <- H. f_equal.
Qed.

Lemma validate_mi_of_type_wire :
  validate_message_integrity_of_type sha1 STUN_ATTR_MESSAGE_INTEGRITY
    k_stun_message_integrity_size (stun_wire m) pw =
  Done (bool_decide (mac = hmac_value pw (mi_prefix m l))).
Proof.
  destruct mi_wire_length as [Hlen Hmod].
  unfold validate_message_integrity_of_type, k_stun_header_size,
    k_stun_message_integrity_size, k_stun_attribute_header_size.
  rewrite bool_decide_eq_true_2, bool_decide_eq_false_2 by (done || unfold mi_pos in *; lia).
  cbn [negb orb]. rewrite mi_length_field. cbn [mbind outcome_bind].
  rewrite (length_stun_wire m Hm).
  replace (m_length m + Z.of_nat 20 =? 20 + m_length m) with true
    by (symmetry; apply Z.eqb_eq; lia).
  cbn [negb]. rewrite mi_found. cbn [mbind outcome_bind].
  rewrite mi_temp_data. cbn [mbind outcome_bind]. rewrite hmac_sha1_value, mi_read.
  cbn [mbind outcome_bind]. rewrite firstn_all2; [done|].
  unfold hmac_value. rewrite sha1_length. done.
Qed.
End mi_wire.
End integrity_theory.

Lemma find_first_mi l mac k :
  Forall (fun a => at_type a <> STUN_ATTR_MESSAGE_INTEGRITY) l ->
  List.find (fun a => at_type a =? STUN_ATTR_MESSAGE_INTEGRITY)
    (filter attr_known (l ++ mi_attribute mac :: k)) = Some (mi_attribute mac).
Proof.
  intros Hno. rewrite filter_app, filter_cons, decide_True by done.
  induction Hno as [|a l Ha _ IH]; [done|]. rewrite filter_cons.
  case_decide; [|done]. cbn [app List.find].
  by rewrite (proj2 (Z.eqb_neq _ _) Ha).
Qed.

Lemma signed_message_spec
    (sha1 : bytes -> bytes)
    (sha1_length : forall x, length (sha1 x) = k_stun_message_integrity_size)
    (m m0 : StunMessage) (password : bytes) :
  stun_wf m -> m_length m + 32 < 2 ^ 16 ->
  Forall (fun a => at_type a <> STUN_ATTR_MESSAGE_INTEGRITY) (m_attrs m) ->
  exists m1 m2 bs m', add_message_integrity sha1 m password = (true, m1) /\
    add_fingerprint m1 = (true, m2) /\ stun_write m2 [] = (true, bs) /\
    validate_fingerprint bs = Done true /\
    bs = stun_wire m2 /\ m_type m2 = m_type m /\ m_transaction_id m2 = m_transaction_id m /\
    (exists mac fp, m_attrs m2 = m_attrs m ++ [mac; fp]) /\
    stun_read m0 (Construct bs) = Some m' /\ m_type m' = m_type m /\
    m_transaction_id m' = m_transaction_id m /\
    forall password',
      let covered := mi_prefix m (m_attrs m) in
      let i := if bool_decide (hmac_sha1 sha1 password covered = hmac_sha1 sha1 password' covered)
               then k_integrity_ok else k_integrity_bad in
      validate_message_integrity sha1 m' password' =
        Done (i, set_integrity (set_password m' password') i).
Proof.
  intros Hm Hfit Hno.
  destruct (add_message_integrity_spec sha1 sha1_length m password Hm ltac:(lia))
    as (m1 & E1 & Hm1 & Ht1 & Hl1 & Hi1 & Ha1).
  destruct (add_fingerprint_spec m1 Hm1 ltac:(lia)) as (m2 & E2 & Hm2 & Ht2 & Hl2 & Hi2 & Ha2).
  set (mac := hmac_value sha1 password _) in Ha1.
  assert (Hmac : length mac = 20%nat) by apply sha1_length.
  assert (Hpre : mi_prefix m2 (m_attrs m) = wire_before m1 (m_attrs m)).
  { unfold mi_prefix, wire_before. by rewrite Ht2, Hi2, <- (wf_length m Hm), Hl1. }
  assert (Hcov : mi_prefix m (m_attrs m) = mi_prefix m2 (m_attrs m))
    by (unfold mi_prefix; by rewrite Ht2, Hi2, Ht1, Hi1).
  pose proof Ha2 as Ha3. rewrite Ha1, <- app_assoc in Ha3. cbn [app] in Ha3.
  eexists m1, m2, (stun_wire m2), _. split_and!; [done|done|by apply stun_write_wire| |..].
  - rewrite (stun_wire_last m2 _ _ Ha2). rewrite validate_fingerprint_wire; [|done| |].
    + f_equal. apply Z.eqb_refl.
    + by apply stun_wf_body.
    + apply lxor_range_32; [apply ComputeCrc32_range|unfold STUN_FINGERPRINT_XOR_VALUE; lia].
  - done.
  - congruence.
  - congruence.
  - rewrite Ha3. by eexists _, _.
  - by apply stun_read_wire.
  - cbn [m_type]. congruence.
  - cbn [m_transaction_id]. congruence.
  - intros password' covered i. unfold validate_message_integrity, get_attribute, set_password.
    cbn [m_attrs m_buffer]. rewrite Ha3, find_first_mi by done.
    rewrite (validate_mi_of_type_wire sha1 sha1_length m2 (m_attrs m) _ mac password' Hm2 Ha3
               Hmac Hno).
    cbn [mbind outcome_bind]. subst i. do 2 f_equal.
    all: rewrite !hmac_sha1_value by done; subst covered; rewrite Hcov, Hpre; fold mac.
    all: by rewrite (bool_decide_ext (mac = _) (Some mac = Some _))
           by (split; [by intros ->|by intros [=]]).
Qed.

(** C28: a message signed with [password] and fingerprinted is accepted by the
    receiving side, and only by a password with the same code: the bytes pass
    [validate_fingerprint], [read] succeeds, and [validate_message_integrity]
    of the message read answers [k_integrity_ok] exactly when the HMAC under
    its own password of the covered bytes is the HMAC under [password]; with
    the same password it always does. *)
Theorem message_integrity_verifies
    (sha1 : bytes -> bytes)
    (sha1_length : forall x, length (sha1 x) = k_stun_message_integrity_size)
    (m m0 : StunMessage) (password : bytes) :
  stun_wf m -> m_length m + 32 < 2 ^ 16 ->
  Forall (fun a => at_type a <> STUN_ATTR_MESSAGE_INTEGRITY) (m_attrs m) ->
  exists m1 m2 bs m', add_message_integrity sha1 m password = (true, m1) /\
    add_fingerprint m1 = (true, m2) /\ stun_write m2 [] = (true, bs) /\
    validate_fingerprint bs = Done true /\
    stun_read m0 (Construct bs) = Some m' /\
    forall password',
      let covered := mi_prefix m (m_attrs m) in
      let i := if bool_decide (hmac_sha1 sha1 password covered = hmac_sha1 sha1 password' covered)
               then k_integrity_ok else k_integrity_bad in
      validate_message_integrity sha1 m' password' =
        Done (i, set_integrity (set_password m' password') i).
Proof.
  intros Hm Hfit Hno.
  destruct (signed_message_spec sha1 sha1_length m m0 password Hm Hfit Hno)
    as (m1 & m2 & bs & m' & E1 & E2 & E3 & E4 & _ & _ & _ & _ & E5 & _ & _ & E6).
  by exists m1, m2, bs, m'.
Qed.

(** A digest of the right size, to instantiate the parameter. *)
Definition toy_digest (x : bytes) : bytes := be_encode 20 (be_decode x).

Lemma message_integrity_verifies_witness :
  exists m1 m2 bs m', add_message_integrity toy_digest example_request (str "secret") = (true, m1) /\
    add_fingerprint m1 = (true, m2) /\ stun_write m2 [] = (true, bs) /\
    validate_fingerprint bs = Done true /\
    stun_read new_StunMessage (Construct bs) = Some m' /\
    forall password',
      let covered := mi_prefix example_request (m_attrs example_request) in
      let i := if bool_decide (hmac_sha1 toy_digest (str "secret") covered =
                               hmac_sha1 toy_digest password' covered)
               then k_integrity_ok else k_integrity_bad in
      validate_message_integrity toy_digest m' password' =
        Done (i, set_integrity (set_password m' password') i).
Proof.
  apply (message_integrity_verifies toy_digest).
  - intros x. unfold toy_digest. apply length_be_encode.
  - exact example_request_wf.
  - reflexivity.
  - repeat constructor; discriminate.
Defined.

(** ** What the reader keeps *)

Lemma attr_read_type a r a' r' : attr_read a r = Some (a', r') -> at_type a' = at_type a.
Proof.
  unfold attr_read. destruct (at_body a); try done; try (by intros [= <- _]);
    try (destruct (negb _); [done|]).
  - destruct (ReadUInt32 r) as [[]|]; [|done]. by intros [= <- _].
  - destruct (ReadUInt64 r) as [[]|]; [|done]. by intros [= <- _].
  - destruct (ReadBytes r _) as [[]|]; [|done]. by intros [= <- _].
Qed.

Lemma create_attribute_type t n a :
  create_attribute t n = Some a ->
  at_type a = t /\ get_attribute_value_type t <> STUN_VALUE_UNKNOWN.
Proof.
  unfold create_attribute. destruct (get_attribute_value_type t); [done| |]; by intros [= <-].
Qed.

Lemma read_attrs_known fuel r acc l :
  read_attrs fuel r acc = Some l -> Forall attr_known acc -> Forall attr_known l.
Proof.
  revert r acc. induction fuel as [|fuel IH]; intros r acc; [done|]. cbn [read_attrs].
  case_bool_decide as Hz; [by intros [= ->]|].
  destruct (ReadUInt16 r) as [[t r1]|]; [|done]. cbn [mbind option_bind].
  destruct (ReadUInt16 r1) as [[n r2]|]; [|done]. cbn [mbind option_bind].
  destruct (create_attribute t n) as [a|] eqn:Ec.
  - destruct (attr_read a r2) as [[a' r3]|] eqn:Er; [|done]. cbn [mbind option_bind].
    intros H Hacc. apply (IH _ _ H). apply Forall_app_2; [done|]. apply Forall_singleton.
    apply create_attribute_type in Ec as [Ht Hk]. apply attr_read_type in Er.
    unfold attr_known. by rewrite Er, Ht.
  - destruct (Consume r2 _) as [r3|]; [|done]. cbn [mbind option_bind]. apply IH.
Qed.

Lemma stun_read_known m0 r m : stun_read m0 r = Some m -> Forall attr_known (m_attrs m).
Proof.
  unfold stun_read. intros H.
  repeat match type of H with
  | context [mbind _ ?o] =>
      lazymatch o with
      | read_attrs _ _ _ => fail
      | _ => destruct o as [[]|]; [|discriminate H]; cbn [mbind option_bind] in H
      end
  | context [if ?b then None else _] => destruct b; [discriminate H|]
  end.
  destruct (read_attrs _ _ _) as [attrs|] eqn:E; [|done]. cbn [mbind option_bind] in H.
  injection H as <-. exact (read_attrs_known _ _ _ _ E (Forall_nil_2 _)).
Qed.

Lemma known_no_error_code m :
  Forall attr_known (m_attrs m) -> get_error_code_value m = STUN_ERROR_GLOBAL_FAIL.
Proof.
  intros H. unfold get_error_code_value, get_attribute.
  destruct (List.find _ _) as [a|] eqn:E; [|done].
  apply List.find_some in E as [Hin Ht]. apply Z.eqb_eq in Ht.
  apply list_elem_of_In in Hin. rewrite Forall_forall in H.
  specialize (H a Hin). unfold attr_known in H. by rewrite Ht in H.
Qed.

(** The error code of a response never reaches the code that branches on
    it: [read] has no case for ERROR-CODE, so for every message that was read,
    whatever bytes it came from, [get_error_code_value] is
    [STUN_ERROR_GLOBAL_FAIL]. *)
Theorem read_drops_error_code (m0 m : StunMessage) (r : ByteBufferReader) :
  stun_read m0 r = Some m -> get_error_code_value m = STUN_ERROR_GLOBAL_FAIL.
Proof.
  intros H. apply known_no_error_code. by eapply stun_read_known.
Qed.

(** The 401 that the server itself would send, before and after the wire. *)
Definition example_error_response : StunMessage :=
  add_attribute
    (set_type (set_transaction_id new_StunMessage (str "abcdefghijkl"))
       STUN_BINDING_ERROR_RESPONSE)
    (set_reason (set_code create_error_code STUN_ERROR_UNATHORIZED) (str "Unathorized")).

Lemma read_drops_error_code_witness :
  get_error_code_value example_error_response = STUN_ERROR_UNATHORIZED /\
  exists m, stun_read new_StunMessage (Construct (snd (stun_write example_error_response [])))
              = Some m /\ get_error_code_value m = STUN_ERROR_GLOBAL_FAIL.
Proof.
  split; [reflexivity|]. eexists. split; [vm_compute; reflexivity|].
  eapply (read_drops_error_code new_StunMessage _
    (Construct (snd (stun_write example_error_response [])))).
  vm_compute. reflexivity.
Defined.

(** ** Memory safety *)

Lemma validate_fingerprint_done data : exists b, validate_fingerprint data = Done b.
Proof.
  unfold validate_fingerprint, fingerprint_attr_size, k_stun_header_size,
    k_stun_attribute_header_size, k_stun_transaction_id_offset, k_stun_magic_cookie_length.
  destruct (negb _ || _) eqn:E; [by eexists|].
  apply orb_false_iff in E as [_ E]. apply bool_decide_eq_false in E.
  unfold GetBE32, GetBE16.
  rewrite !read_at_Done by lia.
  cbn [fmap outcome_fmap mbind outcome_bind].
  repeat (destruct (negb _); [by eexists|]). by eexists.
Qed.

(** A binding request whose MESSAGE-INTEGRITY attribute is empty and is
    followed by a valid fingerprint. *)
Definition short_mi_request : bytes :=
  let m := add_attribute (set_type (set_transaction_id new_StunMessage (str "abcdefghijkl"))
                            STUN_BINDING_REQUEST)
             (StunByteStringAttribute STUN_ATTR_MESSAGE_INTEGRITY []) in
  snd (stun_write (snd (add_fingerprint m)) []).

(** [validate_fingerprint] reads only inside the packet, whatever the
    packet; the integrity check does not: there is a 32-byte packet with a
    valid fingerprint, accepted by [read], on which
    [validate_message_integrity] compares bytes past the end of its buffer,
    for every password. *)
Theorem fingerprint_in_bounds_integrity_not :
  (forall data, exists b, validate_fingerprint data = Done b) /\
  exists data m, length data = 32%nat /\ validate_fingerprint data = Done true /\
    stun_read new_StunMessage (Construct data) = Some m /\
    forall sha1 password,
      validate_message_integrity sha1 m password = Undef out_of_bounds.
Proof.
  split; [apply validate_fingerprint_done|].
  exists short_mi_request. eexists. split_and!; [reflexivity|vm_compute; reflexivity| |].
  { vm_compute. reflexivity. }
  intros sha1 password. vm_compute. reflexivity.
Qed.

(** ** The loops over a packet end *)

Lemma ReadUInt16_length r v r' :
  ReadUInt16 r = Some (v, r') -> rd_Length r' = (rd_Length r - 2)%nat /\ (2 <= rd_Length r)%nat.
Proof.
  unfold ReadUInt16, ReadBytes. case_bool_decide; [done|]. cbn [mbind option_bind]. intros [= <- <-].
  unfold rd_Length, advance in *. cbn. lia.
Qed.

Lemma Consume_length r n r' : Consume r n = Some r' -> (rd_Length r' <= rd_Length r)%nat.
Proof.
  unfold Consume. case_bool_decide; [done|]. intros [= <-]. unfold rd_Length, advance in *. cbn. lia.
Qed.

Lemma ReadBytes_length r n v r' : ReadBytes r n = Some (v, r') -> (rd_Length r' <= rd_Length r)%nat.
Proof.
  unfold ReadBytes. case_bool_decide; [done|]. intros [= _ <-]. unfold rd_Length, advance in *. cbn. lia.
Qed.

Lemma attr_read_length a r a' r' :
  attr_read a r = Some (a', r') -> (rd_Length r' <= rd_Length r)%nat.
Proof.
  unfold attr_read, ReadUInt32, ReadUInt64. destruct (at_body a); try done; try (by intros [= _ <-]);
    try (destruct (negb _); [done|]).
  - destruct (ReadBytes r 4) as [[v r1]|] eqn:E; [|done]. intros [= _ <-]. by eapply ReadBytes_length.
  - destruct (ReadBytes r 8) as [[v r1]|] eqn:E; [|done]. intros [= _ <-]. by eapply ReadBytes_length.
  - destruct (ReadBytes r _) as [[v r1]|] eqn:E; [|done]. intros [= _ <-].
    apply ReadBytes_length in E. unfold consume_padding. etransitivity; [|exact E].
    destruct (0 <? _); [|done]. destruct (Consume r1 _) as [r2|] eqn:Ec; cbn; [|done].
    by eapply Consume_length.
Qed.

Lemma read_attrs_fuel f1 f2 r acc :
  (rd_Length r < f1)%nat -> (rd_Length r < f2)%nat -> read_attrs f1 r acc = read_attrs f2 r acc.
Proof.
  revert f2 r acc. induction f1 as [|f1 IH]; intros f2 r acc H1 H2; [lia|]. destruct f2 as [|f2]; [lia|].
  cbn [read_attrs]. case_bool_decide as Hz; [done|].
  destruct (ReadUInt16 r) as [[t r1]|] eqn:E1; [|done]. cbn [mbind option_bind].
  destruct (ReadUInt16 r1) as [[n r2]|] eqn:E2; [|done]. cbn [mbind option_bind].
  apply ReadUInt16_length in E1 as [E1 _], E2 as [E2 _].
  destruct (create_attribute t n) as [a|].
  - destruct (attr_read a r2) as [[a' r3]|] eqn:E3; [|done]. cbn [mbind option_bind].
    apply attr_read_length in E3. apply IH; lia.
  - destruct (Consume r2 _) as [r3|] eqn:E3; [|done]. cbn [mbind option_bind].
    apply Consume_length in E3. apply IH; lia.
Qed.

Lemma find_mi_fuel f1 f2 data pos mi :
  (length data < f1 + pos)%nat -> (length data < f2 + pos)%nat ->
  find_mi f1 data pos mi = find_mi f2 data pos mi.
Proof.
  revert f2 pos. induction f1 as [|f1 IH]; intros f2 pos H1 H2.
  { destruct f2 as [|f2]; [done|]. cbn [find_mi]. rewrite bool_decide_false by lia. done. }
  destruct f2 as [|f2]; cbn [find_mi].
  { rewrite bool_decide_false by lia. done. }
  case_bool_decide; [|done]. destruct (GetBE16 data pos); cbn [mbind outcome_bind]; [|done..].
  destruct (GetBE16 data (pos + 2)); cbn [mbind outcome_bind]; [|done..]. destruct (_ =? mi); [done|].
  apply IH; unfold k_stun_attribute_header_size; lia.
Qed.

(** the two loops over a STUN packet end: the loop of [read] makes at most
    one turn more than there are bytes left, and the search for the integrity
    attribute at most one more than the packet has bytes, whatever the lengths
    the packet declares.  Any further fuel changes no result. *)
Theorem packet_loops_terminate (extra : nat) :
  (forall r acc, read_attrs (S (rd_Length r) + extra) r acc = read_attrs (S (rd_Length r)) r acc) /\
  (forall data pos mi, find_mi (S (length data) + extra) data pos mi = find_mi (S (length data)) data pos mi).
Proof.
  split; [intros r acc; apply read_attrs_fuel; lia|intros data pos mi; apply find_mi_fuel; lia].
Qed.
