(* ===== verification/IceTypes.v ===== *)
(** * The state of an ICE transport channel

    The objects of ice/ice_connection.h, ice/stun_request.h, ice/udp_port.h,
    ice/ice_controller.h and ice/ice_transport_channel.h as records, the store
    that holds the connections by address, and the monad the operations run in.

    A connection is referred to by pointer from the controller's vector and
    two sets, from both [_selected_connection] fields and from the address map
    of its port.  The store maps the addresses of the live connections to
    their fields; [delete] removes the address, and dereferencing an address
    that is not in the store is [Undef use_after_free].  Addresses are handed
    out in increasing order and never reused.  What leaves the channel (the
    datagrams, the timer calls, the signals to the agent above with the value
    they announce) is appended to a trace; the handlers above read the channel
    and send through it but do not change it. *)

From S2P Require Import Prelude ByteBuffer Crc32 StringEncode IpAddress Stun.
Local Open Scope Z_scope.

(** ** Constants (ice/ice_def.cpp, ice/ice_connection.cpp) *)

Definition STUN_PACKET_SIZE : Z := 60 * 8.
Definition WEAK_PING_INTERVAL : Z := Z.quot (1000 * STUN_PACKET_SIZE) 10000.
Definition STRONG_PING_INTERVAL : Z := Z.quot (1000 * STUN_PACKET_SIZE) 1000.
Definition STABLING_CONNECTION_PING_INTERVAL : Z := 900.
Definition STABLE_CONNECTION_PING_INTERVAL : Z := 2500.
Definition MIN_PINGS_AT_WEAK_PING_INTERVAL : Z := 3.
Definition WEAK_CONNECTION_RECEIVE_TIMEOUT : Z := 2500.
Definition CONNECTION_WRITE_CONNECT_FAILS : nat := 5.
Definition CONNECTION_WRITE_CONNECT_TIMEOUT : Z := 5000.
Definition CONNECTION_WRITE_TIMEOUT : Z := 15000.
Definition RTT_RATIO : Z := 3.
Definition MIN_RTT : Z := 100.
Definition MAX_RTT : Z := 60000.
Definition PING_INTERVAL_DIFF : Z := 5.
Definition k_min_improvement : Z := 10.

(** ** Objects *)

(** The address of a connection. *)
Abbreviation ptr := nat (only parsing).

Inductive WriteState : Type :=
  | STATE_WRITABLE | STATE_WRITE_UNRELIABLE | STATE_WRITE_INIT | STATE_WRITE_TIMEOUT.

#[export] Instance WriteState_eq_dec : EqDecision WriteState.
Proof. solve_decision. Defined.

(** The value of the enumerator, which the controller tests as a truth value. *)
Definition write_state_z (s : WriteState) : Z :=
  match s with
  | STATE_WRITABLE => 0 | STATE_WRITE_UNRELIABLE => 1
  | STATE_WRITE_INIT => 2 | STATE_WRITE_TIMEOUT => 3
  end.

Inductive IceCandidatePairState : Type := WAITING | IN_PROGRESS | SUCCEEDED | FAILED.

#[export] Instance IceCandidatePairState_eq_dec : EqDecision IceCandidatePairState.
Proof. solve_decision. Defined.

Inductive IceTransportChannelState : Type :=
  | ice_new | ice_checking | ice_connected | ice_completed
  | ice_failed | ice_disconnected | ice_closed.

#[export] Instance IceTransportChannelState_eq_dec : EqDecision IceTransportChannelState.
Proof. solve_decision. Defined.

Record IceParameters : Type := mkIceParameters { ice_ufrag : bytes; ice_pwd : bytes }.

#[export] Instance IceParameters_eq_dec : EqDecision IceParameters.
Proof. solve_decision. Defined.

(** A [ConnectionRequest]: its message and the time it was sent. *)
Record StunRequest : Type := mkRequest { rq_msg : StunMessage; rq_ts : Z }.

Record IceConnection : Type := mkConn {
  c_port : nat;  (* the index of [_port] in [_ports] *)
  c_remote : Candidate;
  c_write_state : WriteState;
  c_receiving : bool;
  c_selected : bool;
  c_last_ping_sent : Z;
  c_last_ping_received : Z;
  c_last_ping_response_received : Z;
  c_last_data_received : Z;
  c_num_pings_sent : Z;
  c_pings : list (bytes * Z);  (* [_pings_since_last_response] *)
  c_requests : gmap bytes StunRequest;
  c_rtt : Z;
  c_rtt_samples : Z;
  c_state : IceCandidatePairState;
}.

Definition upd_c_port (g : nat -> nat) (r : IceConnection) : IceConnection :=
  mkConn (g (c_port r)) (c_remote r) (c_write_state r) (c_receiving r) (c_selected r)
    (c_last_ping_sent r) (c_last_ping_received r) (c_last_ping_response_received r)
    (c_last_data_received r) (c_num_pings_sent r) (c_pings r) (c_requests r) (c_rtt r)
    (c_rtt_samples r) (c_state r).
Definition upd_c_remote (g : Candidate -> Candidate) (r : IceConnection) : IceConnection :=
  mkConn (c_port r) (g (c_remote r)) (c_write_state r) (c_receiving r) (c_selected r)
    (c_last_ping_sent r) (c_last_ping_received r) (c_last_ping_response_received r)
    (c_last_data_received r) (c_num_pings_sent r) (c_pings r) (c_requests r) (c_rtt r)
    (c_rtt_samples r) (c_state r).
Definition upd_c_write_state (g : WriteState -> WriteState) (r : IceConnection) : IceConnection :=
  mkConn (c_port r) (c_remote r) (g (c_write_state r)) (c_receiving r) (c_selected r)
    (c_last_ping_sent r) (c_last_ping_received r) (c_last_ping_response_received r)
    (c_last_data_received r) (c_num_pings_sent r) (c_pings r) (c_requests r) (c_rtt r)
    (c_rtt_samples r) (c_state r).
Definition upd_c_receiving (g : bool -> bool) (r : IceConnection) : IceConnection :=
  mkConn (c_port r) (c_remote r) (c_write_state r) (g (c_receiving r)) (c_selected r)
    (c_last_ping_sent r) (c_last_ping_received r) (c_last_ping_response_received r)
    (c_last_data_received r) (c_num_pings_sent r) (c_pings r) (c_requests r) (c_rtt r)
    (c_rtt_samples r) (c_state r).
Definition upd_c_selected (g : bool -> bool) (r : IceConnection) : IceConnection :=
  mkConn (c_port r) (c_remote r) (c_write_state r) (c_receiving r) (g (c_selected r))
    (c_last_ping_sent r) (c_last_ping_received r) (c_last_ping_response_received r)
    (c_last_data_received r) (c_num_pings_sent r) (c_pings r) (c_requests r) (c_rtt r)
    (c_rtt_samples r) (c_state r).
Definition upd_c_last_ping_sent (g : Z -> Z) (r : IceConnection) : IceConnection :=
  mkConn (c_port r) (c_remote r) (c_write_state r) (c_receiving r) (c_selected r) (g
    (c_last_ping_sent r)) (c_last_ping_received r) (c_last_ping_response_received r)
    (c_last_data_received r) (c_num_pings_sent r) (c_pings r) (c_requests r) (c_rtt r)
    (c_rtt_samples r) (c_state r).
Definition upd_c_last_ping_received (g : Z -> Z) (r : IceConnection) : IceConnection :=
  mkConn (c_port r) (c_remote r) (c_write_state r) (c_receiving r) (c_selected r)
    (c_last_ping_sent r) (g (c_last_ping_received r)) (c_last_ping_response_received r)
    (c_last_data_received r) (c_num_pings_sent r) (c_pings r) (c_requests r) (c_rtt r)
    (c_rtt_samples r) (c_state r).
Definition upd_c_last_ping_response_received (g : Z -> Z) (r : IceConnection) : IceConnection :=
  mkConn (c_port r) (c_remote r) (c_write_state r) (c_receiving r) (c_selected r)
    (c_last_ping_sent r) (c_last_ping_received r) (g (c_last_ping_response_received r))
    (c_last_data_received r) (c_num_pings_sent r) (c_pings r) (c_requests r) (c_rtt r)
    (c_rtt_samples r) (c_state r).
Definition upd_c_last_data_received (g : Z -> Z) (r : IceConnection) : IceConnection :=
  mkConn (c_port r) (c_remote r) (c_write_state r) (c_receiving r) (c_selected r)
    (c_last_ping_sent r) (c_last_ping_received r) (c_last_ping_response_received r) (g
    (c_last_data_received r)) (c_num_pings_sent r) (c_pings r) (c_requests r) (c_rtt r)
    (c_rtt_samples r) (c_state r).
Definition upd_c_num_pings_sent (g : Z -> Z) (r : IceConnection) : IceConnection :=
  mkConn (c_port r) (c_remote r) (c_write_state r) (c_receiving r) (c_selected r)
    (c_last_ping_sent r) (c_last_ping_received r) (c_last_ping_response_received r)
    (c_last_data_received r) (g (c_num_pings_sent r)) (c_pings r) (c_requests r) (c_rtt r)
    (c_rtt_samples r) (c_state r).
Definition upd_c_pings (g : list (bytes * Z) -> list (bytes * Z)) (r : IceConnection) : IceConnection :=
  mkConn (c_port r) (c_remote r) (c_write_state r) (c_receiving r) (c_selected r)
    (c_last_ping_sent r) (c_last_ping_received r) (c_last_ping_response_received r)
    (c_last_data_received r) (c_num_pings_sent r) (g (c_pings r)) (c_requests r) (c_rtt r)
    (c_rtt_samples r) (c_state r).
Definition upd_c_requests (g : gmap bytes StunRequest -> gmap bytes StunRequest) (r : IceConnection) : IceConnection :=
  mkConn (c_port r) (c_remote r) (c_write_state r) (c_receiving r) (c_selected r)
    (c_last_ping_sent r) (c_last_ping_received r) (c_last_ping_response_received r)
    (c_last_data_received r) (c_num_pings_sent r) (c_pings r) (g (c_requests r)) (c_rtt r)
    (c_rtt_samples r) (c_state r).
Definition upd_c_rtt (g : Z -> Z) (r : IceConnection) : IceConnection :=
  mkConn (c_port r) (c_remote r) (c_write_state r) (c_receiving r) (c_selected r)
    (c_last_ping_sent r) (c_last_ping_received r) (c_last_ping_response_received r)
    (c_last_data_received r) (c_num_pings_sent r) (c_pings r) (c_requests r) (g (c_rtt r))
    (c_rtt_samples r) (c_state r).
Definition upd_c_rtt_samples (g : Z -> Z) (r : IceConnection) : IceConnection :=
  mkConn (c_port r) (c_remote r) (c_write_state r) (c_receiving r) (c_selected r)
    (c_last_ping_sent r) (c_last_ping_received r) (c_last_ping_response_received r)
    (c_last_data_received r) (c_num_pings_sent r) (c_pings r) (c_requests r) (c_rtt r) (g
    (c_rtt_samples r)) (c_state r).
Definition upd_c_state (g : IceCandidatePairState -> IceCandidatePairState) (r : IceConnection) : IceConnection :=
  mkConn (c_port r) (c_remote r) (c_write_state r) (c_receiving r) (c_selected r)
    (c_last_ping_sent r) (c_last_ping_received r) (c_last_ping_response_received r)
    (c_last_data_received r) (c_num_pings_sent r) (c_pings r) (c_requests r) (c_rtt r)
    (c_rtt_samples r) (g (c_state r)).

Record UDPPort : Type := mkPort {
  p_transport_name : bytes;
  p_component : Z;
  p_ice_params : IceParameters;
  p_open : bool;  (* [_async_socket] is set *)
  p_local_addr : SocketAddress;
  p_candidates : list Candidate;
  p_connections : list (SocketAddress * ptr);  (* [AddressMap] *)
}.

Definition upd_p_transport_name (g : bytes -> bytes) (r : UDPPort) : UDPPort :=
  mkPort (g (p_transport_name r)) (p_component r) (p_ice_params r) (p_open r) (p_local_addr r)
    (p_candidates r) (p_connections r).
Definition upd_p_component (g : Z -> Z) (r : UDPPort) : UDPPort :=
  mkPort (p_transport_name r) (g (p_component r)) (p_ice_params r) (p_open r) (p_local_addr r)
    (p_candidates r) (p_connections r).
Definition upd_p_ice_params (g : IceParameters -> IceParameters) (r : UDPPort) : UDPPort :=
  mkPort (p_transport_name r) (p_component r) (g (p_ice_params r)) (p_open r) (p_local_addr r)
    (p_candidates r) (p_connections r).
Definition upd_p_open (g : bool -> bool) (r : UDPPort) : UDPPort :=
  mkPort (p_transport_name r) (p_component r) (p_ice_params r) (g (p_open r)) (p_local_addr r)
    (p_candidates r) (p_connections r).
Definition upd_p_local_addr (g : SocketAddress -> SocketAddress) (r : UDPPort) : UDPPort :=
  mkPort (p_transport_name r) (p_component r) (p_ice_params r) (p_open r) (g (p_local_addr r))
    (p_candidates r) (p_connections r).
Definition upd_p_candidates (g : list Candidate -> list Candidate) (r : UDPPort) : UDPPort :=
  mkPort (p_transport_name r) (p_component r) (p_ice_params r) (p_open r) (p_local_addr r) (g
    (p_candidates r)) (p_connections r).
Definition upd_p_connections (g : list (SocketAddress * ptr) -> list (SocketAddress * ptr)) (r : UDPPort) : UDPPort :=
  mkPort (p_transport_name r) (p_component r) (p_ice_params r) (p_open r) (p_local_addr r)
    (p_candidates r) (g (p_connections r)).

Record IceController : Type := mkCtl {
  k_selected : option ptr;
  k_connections : list ptr;
  k_unpinged : list ptr;
  k_pinged : list ptr;
}.

Definition upd_k_selected (g : option ptr -> option ptr) (r : IceController) : IceController :=
  mkCtl (g (k_selected r)) (k_connections r) (k_unpinged r) (k_pinged r).
Definition upd_k_connections (g : list ptr -> list ptr) (r : IceController) : IceController :=
  mkCtl (k_selected r) (g (k_connections r)) (k_unpinged r) (k_pinged r).
Definition upd_k_unpinged (g : list ptr -> list ptr) (r : IceController) : IceController :=
  mkCtl (k_selected r) (k_connections r) (g (k_unpinged r)) (k_pinged r).
Definition upd_k_pinged (g : list ptr -> list ptr) (r : IceController) : IceController :=
  mkCtl (k_selected r) (k_connections r) (k_unpinged r) (g (k_pinged r)).

Record IceTransportChannel : Type := mkCh {
  ch_transport_name : bytes;
  ch_component : Z;
  ch_ice_params : IceParameters;
  ch_remote_ice_params : IceParameters;
  ch_local_candidates : list Candidate;
  ch_controller : IceController;
  ch_start_pinging : bool;
  ch_cur_ping_interval : Z;
  ch_last_ping_sent_ms : Z;
  ch_selected : option ptr;
  ch_receiving : bool;
  ch_writable : bool;
  ch_state : IceTransportChannelState;
  ch_had_connection : bool;
  ch_has_been_connection : bool;
}.

Definition upd_ch_transport_name (g : bytes -> bytes) (r : IceTransportChannel) : IceTransportChannel :=
  mkCh (g (ch_transport_name r)) (ch_component r) (ch_ice_params r) (ch_remote_ice_params r)
    (ch_local_candidates r) (ch_controller r) (ch_start_pinging r) (ch_cur_ping_interval r)
    (ch_last_ping_sent_ms r) (ch_selected r) (ch_receiving r) (ch_writable r) (ch_state r)
    (ch_had_connection r) (ch_has_been_connection r).
Definition upd_ch_component (g : Z -> Z) (r : IceTransportChannel) : IceTransportChannel :=
  mkCh (ch_transport_name r) (g (ch_component r)) (ch_ice_params r) (ch_remote_ice_params r)
    (ch_local_candidates r) (ch_controller r) (ch_start_pinging r) (ch_cur_ping_interval r)
    (ch_last_ping_sent_ms r) (ch_selected r) (ch_receiving r) (ch_writable r) (ch_state r)
    (ch_had_connection r) (ch_has_been_connection r).
Definition upd_ch_ice_params (g : IceParameters -> IceParameters) (r : IceTransportChannel) : IceTransportChannel :=
  mkCh (ch_transport_name r) (ch_component r) (g (ch_ice_params r)) (ch_remote_ice_params r)
    (ch_local_candidates r) (ch_controller r) (ch_start_pinging r) (ch_cur_ping_interval r)
    (ch_last_ping_sent_ms r) (ch_selected r) (ch_receiving r) (ch_writable r) (ch_state r)
    (ch_had_connection r) (ch_has_been_connection r).
Definition upd_ch_remote_ice_params (g : IceParameters -> IceParameters) (r : IceTransportChannel) : IceTransportChannel :=
  mkCh (ch_transport_name r) (ch_component r) (ch_ice_params r) (g (ch_remote_ice_params r))
    (ch_local_candidates r) (ch_controller r) (ch_start_pinging r) (ch_cur_ping_interval r)
    (ch_last_ping_sent_ms r) (ch_selected r) (ch_receiving r) (ch_writable r) (ch_state r)
    (ch_had_connection r) (ch_has_been_connection r).
Definition upd_ch_local_candidates (g : list Candidate -> list Candidate) (r : IceTransportChannel) : IceTransportChannel :=
  mkCh (ch_transport_name r) (ch_component r) (ch_ice_params r) (ch_remote_ice_params r) (g
    (ch_local_candidates r)) (ch_controller r) (ch_start_pinging r) (ch_cur_ping_interval r)
    (ch_last_ping_sent_ms r) (ch_selected r) (ch_receiving r) (ch_writable r) (ch_state r)
    (ch_had_connection r) (ch_has_been_connection r).
Definition upd_ch_controller (g : IceController -> IceController) (r : IceTransportChannel) : IceTransportChannel :=
  mkCh (ch_transport_name r) (ch_component r) (ch_ice_params r) (ch_remote_ice_params r)
    (ch_local_candidates r) (g (ch_controller r)) (ch_start_pinging r) (ch_cur_ping_interval r)
    (ch_last_ping_sent_ms r) (ch_selected r) (ch_receiving r) (ch_writable r) (ch_state r)
    (ch_had_connection r) (ch_has_been_connection r).
Definition upd_ch_start_pinging (g : bool -> bool) (r : IceTransportChannel) : IceTransportChannel :=
  mkCh (ch_transport_name r) (ch_component r) (ch_ice_params r) (ch_remote_ice_params r)
    (ch_local_candidates r) (ch_controller r) (g (ch_start_pinging r)) (ch_cur_ping_interval r)
    (ch_last_ping_sent_ms r) (ch_selected r) (ch_receiving r) (ch_writable r) (ch_state r)
    (ch_had_connection r) (ch_has_been_connection r).
Definition upd_ch_cur_ping_interval (g : Z -> Z) (r : IceTransportChannel) : IceTransportChannel :=
  mkCh (ch_transport_name r) (ch_component r) (ch_ice_params r) (ch_remote_ice_params r)
    (ch_local_candidates r) (ch_controller r) (ch_start_pinging r) (g (ch_cur_ping_interval r))
    (ch_last_ping_sent_ms r) (ch_selected r) (ch_receiving r) (ch_writable r) (ch_state r)
    (ch_had_connection r) (ch_has_been_connection r).
Definition upd_ch_last_ping_sent_ms (g : Z -> Z) (r : IceTransportChannel) : IceTransportChannel :=
  mkCh (ch_transport_name r) (ch_component r) (ch_ice_params r) (ch_remote_ice_params r)
    (ch_local_candidates r) (ch_controller r) (ch_start_pinging r) (ch_cur_ping_interval r) (g
    (ch_last_ping_sent_ms r)) (ch_selected r) (ch_receiving r) (ch_writable r) (ch_state r)
    (ch_had_connection r) (ch_has_been_connection r).
Definition upd_ch_selected (g : option ptr -> option ptr) (r : IceTransportChannel) : IceTransportChannel :=
  mkCh (ch_transport_name r) (ch_component r) (ch_ice_params r) (ch_remote_ice_params r)
    (ch_local_candidates r) (ch_controller r) (ch_start_pinging r) (ch_cur_ping_interval r)
    (ch_last_ping_sent_ms r) (g (ch_selected r)) (ch_receiving r) (ch_writable r) (ch_state r)
    (ch_had_connection r) (ch_has_been_connection r).
Definition upd_ch_receiving (g : bool -> bool) (r : IceTransportChannel) : IceTransportChannel :=
  mkCh (ch_transport_name r) (ch_component r) (ch_ice_params r) (ch_remote_ice_params r)
    (ch_local_candidates r) (ch_controller r) (ch_start_pinging r) (ch_cur_ping_interval r)
    (ch_last_ping_sent_ms r) (ch_selected r) (g (ch_receiving r)) (ch_writable r) (ch_state r)
    (ch_had_connection r) (ch_has_been_connection r).
Definition upd_ch_writable (g : bool -> bool) (r : IceTransportChannel) : IceTransportChannel :=
  mkCh (ch_transport_name r) (ch_component r) (ch_ice_params r) (ch_remote_ice_params r)
    (ch_local_candidates r) (ch_controller r) (ch_start_pinging r) (ch_cur_ping_interval r)
    (ch_last_ping_sent_ms r) (ch_selected r) (ch_receiving r) (g (ch_writable r)) (ch_state r)
    (ch_had_connection r) (ch_has_been_connection r).
Definition upd_ch_state (g : IceTransportChannelState -> IceTransportChannelState) (r : IceTransportChannel) : IceTransportChannel :=
  mkCh (ch_transport_name r) (ch_component r) (ch_ice_params r) (ch_remote_ice_params r)
    (ch_local_candidates r) (ch_controller r) (ch_start_pinging r) (ch_cur_ping_interval r)
    (ch_last_ping_sent_ms r) (ch_selected r) (ch_receiving r) (ch_writable r) (g (ch_state r))
    (ch_had_connection r) (ch_has_been_connection r).
Definition upd_ch_had_connection (g : bool -> bool) (r : IceTransportChannel) : IceTransportChannel :=
  mkCh (ch_transport_name r) (ch_component r) (ch_ice_params r) (ch_remote_ice_params r)
    (ch_local_candidates r) (ch_controller r) (ch_start_pinging r) (ch_cur_ping_interval r)
    (ch_last_ping_sent_ms r) (ch_selected r) (ch_receiving r) (ch_writable r) (ch_state r) (g
    (ch_had_connection r)) (ch_has_been_connection r).
Definition upd_ch_has_been_connection (g : bool -> bool) (r : IceTransportChannel) : IceTransportChannel :=
  mkCh (ch_transport_name r) (ch_component r) (ch_ice_params r) (ch_remote_ice_params r)
    (ch_local_candidates r) (ch_controller r) (ch_start_pinging r) (ch_cur_ping_interval r)
    (ch_last_ping_sent_ms r) (ch_selected r) (ch_receiving r) (ch_writable r) (ch_state r)
    (ch_had_connection r) (g (ch_has_been_connection r)).

(** What the channel emits: datagrams given to the socket of a port, timer
    calls, and the signals to the ICE agent with what they announce. *)
Inductive ice_event : Type :=
  | EvSend (port : nat) (data : bytes) (addr : SocketAddress)
  | EvStartTimer (usec : Z)
  | EvStopTimer
  | EvDeleteTimer
  | EvWritable (b : bool)
  | EvReceiving (b : bool)
  | EvIceState (s : IceTransportChannelState)
  | EvCandidates (cs : list Candidate)
  | EvReadPacket (data : bytes) (ts : Z).

Record world : Type := mkWorld {
  w_conns : gmap ptr IceConnection;  (* the live connections *)
  w_ports : list UDPPort;
  w_ch : IceTransportChannel;
  w_next : ptr;  (* the next address [new] returns *)
  w_ticks : nat;  (* clock readings so far *)
  w_rands : nat;  (* random strings so far *)
  w_out : list ice_event;  (* what the channel has emitted, in order *)
}.

Definition upd_w_conns (g : gmap ptr IceConnection -> gmap ptr IceConnection) (r : world) : world :=
  mkWorld (g (w_conns r)) (w_ports r) (w_ch r) (w_next r) (w_ticks r) (w_rands r) (w_out r).
Definition upd_w_ports (g : list UDPPort -> list UDPPort) (r : world) : world :=
  mkWorld (w_conns r) (g (w_ports r)) (w_ch r) (w_next r) (w_ticks r) (w_rands r) (w_out r).
Definition upd_w_ch (g : IceTransportChannel -> IceTransportChannel) (r : world) : world :=
  mkWorld (w_conns r) (w_ports r) (g (w_ch r)) (w_next r) (w_ticks r) (w_rands r) (w_out r).
Definition upd_w_next (g : ptr -> ptr) (r : world) : world :=
  mkWorld (w_conns r) (w_ports r) (w_ch r) (g (w_next r)) (w_ticks r) (w_rands r) (w_out r).
Definition upd_w_ticks (g : nat -> nat) (r : world) : world :=
  mkWorld (w_conns r) (w_ports r) (w_ch r) (w_next r) (g (w_ticks r)) (w_rands r) (w_out r).
Definition upd_w_rands (g : nat -> nat) (r : world) : world :=
  mkWorld (w_conns r) (w_ports r) (w_ch r) (w_next r) (w_ticks r) (g (w_rands r)) (w_out r).
Definition upd_w_out (g : list ice_event -> list ice_event) (r : world) : world :=
  mkWorld (w_conns r) (w_ports r) (w_ch r) (w_next r) (w_ticks r) (w_rands r) (g (w_out r)).

(** What the code takes from outside: the clock ([rtc::TimeMillis], by
    reading), random strings ([rtc::CreateRandomString], by draw), the result
    of [AsyncUdpSocket::send_to] (by position in the trace), and SHA-1. *)
Class IceEnv : Type := {
  env_clock : nat -> Z;
  env_random : nat -> bytes;
  env_send : nat -> Z;
  env_sha1 : bytes -> bytes;
}.

(** ** The monad *)

Definition M (A : Type) : Type := world -> outcome (A * world).

#[export] Instance M_ret : MRet M := fun A a w => Done (a, w).
#[export] Instance M_bind : MBind M := fun A B k m w =>
  match m w with
  | Done (a, w') => k a w'
  | Throws e => Throws e
  | Undef u => Undef u
  end.

Definition gets {A} (f : world -> A) : M A := fun w => Done (f w, w).
Definition modify (f : world -> world) : M () := fun w => Done ((), f w).
Definition undefined {A} (u : undef) : M A := fun _ => Undef u.
Definition lift {A} (o : outcome A) : M A := fun w =>
  match o with Done a => Done (a, w) | Throws e => Throws e | Undef u => Undef u end.

Definition when (b : bool) (m : M ()) : M () := if b then m else mret ().

Fixpoint mapM_ {A} (f : A -> M ()) (l : list A) : M () :=
  match l with
  | [] => mret ()
  | a :: l' => _ ← f a; mapM_ f l'
  end.

Fixpoint mapM_list {A B} (f : A -> M B) (l : list A) : M (list B) :=
  match l with
  | [] => mret []
  | a :: l' => b ← f a; bs ← mapM_list f l'; mret (b :: bs)
  end.

(** The loop [for (x : l) if (f(x)) return true; return false]. *)
Fixpoint existsM {A} (f : A -> M bool) (l : list A) : M bool :=
  match l with
  | [] => mret false
  | a :: l' => b ← f a; if (b : bool) then mret true else existsM f l'
  end.

Definition emit (e : ice_event) : M () := modify (upd_w_out (fun l => l ++ [e])).

(** [conn->...]: the fields of a live connection. *)
Definition conn_at (p : ptr) : M IceConnection := fun w =>
  match w_conns w !! p with Some c => Done (c, w) | None => Undef use_after_free end.

Definition conn_set (p : ptr) (f : IceConnection -> IceConnection) : M () :=
  _ ← conn_at p; modify (upd_w_conns (alter f p)).

Definition port_at (i : nat) : M UDPPort := fun w =>
  match w_ports w !! i with Some c => Done (c, w) | None => Undef use_after_free end.

Definition port_set (i : nat) (f : UDPPort -> UDPPort) : M () :=
  modify (upd_w_ports (alter f i)).

Definition channel : M IceTransportChannel := gets w_ch.
Definition channel_set (f : IceTransportChannel -> IceTransportChannel) : M () :=
  modify (upd_w_ch f).
Definition controller : M IceController := gets (fun w => ch_controller (w_ch w)).
Definition controller_set (f : IceController -> IceController) : M () :=
  channel_set (upd_ch_controller f).

Section env.
Context `{IceEnv}.

Definition TimeMillis : M Z := fun w =>
  Done (env_clock (w_ticks w), upd_w_ticks S w).

Definition CreateRandomString (len : nat) : M bytes := fun w =>
  Done (take len (env_random (w_rands w)), upd_w_rands S w).

(** [UDPPort::send_to]. *)
Definition port_send_to (i : nat) (data : bytes) (addr : SocketAddress) : M Z :=
  port ← port_at i;
  if p_open port then
    n ← gets (fun w => length (w_out w));
    _ ← emit (EvSend i data addr);
    mret (env_send n)
  else mret (-1).
End env.
