(* ===== verification/IcePort.v ===== *)
(** * The UDP port (ice/udp_port.cpp)

    The address map, the gate that turns a datagram into a STUN message, the
    error responses, and the host candidate. *)

From S2P Require Import Prelude ByteBuffer Crc32 StringEncode IpAddress MessageDigest Stun IceTypes.
Local Open Scope Z_scope.

(** ** The address map: [std::map] keyed by [operator<], whose equivalence is
    [addr_eqb] *)

Fixpoint addr_find (m : list (SocketAddress * ptr)) (addr : SocketAddress) : option ptr :=
  match m with
  | [] => None
  | (a, p) :: m' => if addr_eqb a addr then Some p else addr_find m' addr
  end.

(** [insert], then the assignment through the iterator when the key is taken. *)
Fixpoint addr_insert (m : list (SocketAddress * ptr)) (addr : SocketAddress) (p : ptr)
    : list (SocketAddress * ptr) :=
  match m with
  | [] => [(addr, p)]
  | (a, q) :: m' => if addr_eqb a addr then (a, p) :: m' else (a, q) :: addr_insert m' addr p
  end.

(** [UDPPort::get_connection] *)
Definition get_connection (i : nat) (addr : SocketAddress) : M (option ptr) :=
  port ← port_at i; mret (addr_find (p_connections port) addr).

(** ** The host candidate *)

Definition dotted (a : Z) : bytes :=
  to_string (Z.land (Z.shiftr a 24) 0xFF) ++ str "." ++
  to_string (Z.land (Z.shiftr a 16) 0xFF) ++ str "." ++
  to_string (Z.land (Z.shiftr a 8) 0xFF) ++ str "." ++ to_string (Z.land a 0xFF).

(** [_local_addr.SetIP("101.126.155.67")] and [SetPort(port)]: the literal in
    the source, which [inet_pton] reads as this IPv4 address. *)
Definition host_address (port : Z) : SocketAddress :=
  {| hostname_ := str "101.126.155.67"; ip_ := ip_v4 0x657E9B43; port_ := u16 port;
     scope_id_ := 0; literal_ := true |}.

(** [base.HostAsURIString()] of a host address: the dotted quad. *)
Definition compute_foundation (type protocol relay_protocol : bytes) (base : bytes) : bytes :=
  to_string (ComputeCrc32 (type ++ base ++ protocol ++ relay_protocol)).

(** The part of [create_ice_candidate] after the socket is bound to [port]. *)
Definition host_candidate (component : Z) (params : IceParameters) (port : Z) : Candidate :=
  let addr := host_address port in
  {| component := component;
     protocol := str "udp";
     address := addr;
     cand_port := port;
     cand_priority := get_priority (ip_ addr) component ICE_TYPE_PREFERENCE_HOST 0 0;
     cand_username := ice_ufrag params;
     cand_password := ice_pwd params;
     cand_type := str "host";
     foundation := compute_foundation (str "host") (str "udp") []
                     (dotted (v4AddressAsHostOrderInteger (ip_ addr))) |}.

(** [UDPPort::UDPPort] *)
Definition new_port (transport_name : bytes) (component : Z) (params : IceParameters) : UDPPort :=
  {| p_transport_name := transport_name; p_component := component; p_ice_params := params;
     p_open := false; p_local_addr := nil_addr; p_candidates := []; p_connections := [] |}.

(** [create_ice_candidate]: [bound] is the port the kernel chose, [None] when
    a socket call failed; then the port stays without socket or candidate. *)
Definition create_ice_candidate (p : UDPPort) (bound : option Z) : UDPPort * option Candidate :=
  match bound with
  | None => (p, None)
  | Some port =>
      let c := host_candidate (p_component p) (p_ice_params p) port in
      (upd_p_candidates (fun l => l ++ [c])
         (upd_p_open (fun _ => true)
            (upd_p_local_addr (fun _ => host_address port) p)), Some c)
  end.

(** ** STUN *)

Definition STUN_ERROR_REASON_BAD_REQUEST : bytes := str "Bad request".
Definition STUN_ERROR_REASON_UNATHORIZED : bytes := str "Unathorized".
Definition STUN_ERROR_REASON_SERVER_ERROR : bytes := str "Server error".

Definition create_stun_username (p : UDPPort) (remote_username : bytes) : bytes :=
  remote_username ++ str ":" ++ ice_ufrag (p_ice_params p).

(** [None] is the returned [false]; the second field is the remote fragment. *)
Definition parse_stun_username (m : StunMessage) : option (bytes * bytes) :=
  username ← get_byte_string m STUN_ATTR_USERNAME;
  match split username ":" with
  | [local_ufrag; remote_ufrag] => Some (local_ufrag, remote_ufrag)
  | _ => None
  end.

Section port.
Context `{IceEnv}.

(** The message [send_binding_error_response] builds, and whether it could be
    written. *)
Definition binding_error_response (params : IceParameters) (transaction_id : bytes)
    (err_code : Z) (reason : bytes) : bool * bytes :=
  let response := set_transaction_id (set_type new_StunMessage STUN_BINDING_ERROR_RESPONSE)
                    transaction_id in
  let error_attr := set_reason (set_code create_error_code err_code) reason in
  let response := add_attribute response error_attr in
  let response :=
    if negb (err_code =? STUN_ERROR_BAD_REQUEST) && negb (err_code =? STUN_ERROR_UNATHORIZED)
    then snd (add_message_integrity env_sha1 response (ice_pwd params)) else response in
  let response := snd (add_fingerprint response) in
  stun_write response [].

Definition send_binding_error_response (i : nat) (stun_msg : StunMessage)
    (addr : SocketAddress) (err_code : Z) (reason : bytes) : M () :=
  port ← port_at i;
  if negb (p_open port) then mret ()
  else
    let '(ok, buf) := binding_error_response (p_ice_params port)
                        (m_transaction_id stun_msg) err_code reason in
    if negb ok then mret ()
    else _ ← port_send_to i buf addr; mret ().

(** [get_stun_message]: the returned flag, [*out_msg] and [*out_username]. *)
Definition get_stun_message (i : nat) (data : bytes) (addr : SocketAddress)
    : M (bool * option StunMessage * bytes) :=
  fingerprint_ok ← lift (validate_fingerprint data);
  if negb fingerprint_ok then mret (false, None, [])
  else
    match stun_read new_StunMessage (Construct data) with
    | None => mret (false, None, [])
    | Some stun_msg =>
        if m_type stun_msg =? STUN_BINDING_REQUEST then
          match get_attribute stun_msg STUN_ATTR_USERNAME,
                get_attribute stun_msg STUN_ATTR_MESSAGE_INTEGRITY with
          | Some _, Some _ =>
              match parse_stun_username stun_msg with
              | None =>
                  _ ← send_binding_error_response i stun_msg addr STUN_ERROR_UNATHORIZED
                        STUN_ERROR_REASON_UNATHORIZED;
                  mret (true, None, [])
              | Some (local_ufrag, remote_ufrag) =>
                  port ← port_at i;
                  '(status, stun_msg) ← lift (validate_message_integrity env_sha1 stun_msg
                                                (ice_pwd (p_ice_params port)));
                  if negb (bool_decide (status = k_integrity_ok)) then
                    _ ← send_binding_error_response i stun_msg addr STUN_ERROR_UNATHORIZED
                          STUN_ERROR_REASON_UNATHORIZED;
                    mret (true, None, [])
                  else mret (true, Some stun_msg, remote_ufrag)
              end
          | _, _ =>
              _ ← send_binding_error_response i stun_msg addr STUN_ERROR_BAD_REQUEST
                    STUN_ERROR_REASON_BAD_REQUEST;
              mret (true, None, [])
          end
        else mret (true, Some stun_msg, [])
    end.
End port.
