(* ===== verification/IceController.v ===== *)
(** * The ICE controller (ice/ice_controller.{h,cpp})

    Which connection is best ([sort_and_switch_connection]), which one to ping
    next and how often ([select_connection_to_ping]). *)

From S2P Require Import Prelude ByteBuffer StringEncode IpAddress Stun IceTypes IcePort.
Local Open Scope Z_scope.

(** ** Observers of a connection (ice/ice_connection.{h,cpp}) *)

Definition conn_writable (c : IceConnection) : bool :=
  bool_decide (c_write_state c = STATE_WRITABLE).
Definition conn_weak (c : IceConnection) : bool := negb (conn_writable c && c_receiving c).
Definition conn_active (c : IceConnection) : bool :=
  negb (bool_decide (c_write_state c = STATE_WRITE_TIMEOUT)).

Definition miss_response (c : IceConnection) (now : Z) : bool :=
  match c_pings c with
  | [] => false
  | (_, sent_time) :: _ => let waiting := i32 (now - sent_time) in i32 (2 * c_rtt c) <? waiting
  end.

Definition conn_stable (c : IceConnection) (now : Z) : bool :=
  (RTT_RATIO + 1 <? c_rtt_samples c) && negb (miss_response c now).

(** [priority()]: [g] and [d] are [uint32_t], so the doubling is too. *)
Definition pair_priority (g d : Z) : Z :=
  u64 (Z.shiftl (Z.min g d) 32 + u32 (2 * Z.max g d) + (if d <? g then 1 else 0)).

(** [local_candidate()] is [_port->candidates()[0]]. *)
Definition local_candidate (c : IceConnection) : M Candidate :=
  port ← port_at (c_port c);
  lift (deref out_of_bounds (head (p_candidates port))).

Definition conn_priority (c : IceConnection) : M Z :=
  local ← local_candidate c;
  mret (pair_priority (cand_priority local) (cand_priority (c_remote c))).

(** ** Sorting *)

(** A connection with its address and its priority, as the comparison sees it. *)
Record ranked : Type := mkRanked { rk_ptr : ptr; rk_conn : IceConnection; rk_priority : Z }.

Definition nonzero_state (c : IceConnection) : bool := negb (write_state_z (c_write_state c) =? 0).

(** [_compare_connections]: 1, -1 or 0. *)
Definition compare_connections (a b : ranked) : Z :=
  let ca := rk_conn a in
  let cb := rk_conn b in
  if conn_writable ca && negb (conn_writable cb) then 1
  else if negb (conn_writable ca) && conn_writable cb then -1
  else if nonzero_state ca && negb (nonzero_state cb) then 1
  else if negb (nonzero_state ca) && nonzero_state cb then -1
  else if c_receiving ca && negb (c_receiving cb) then 1
  else if negb (c_receiving ca) && c_receiving cb then -1
  else if rk_priority b <? rk_priority a then 1
  else if rk_priority a <? rk_priority b then -1
  else 0.

(** The lambda given to [absl::c_stable_sort]. *)
Definition conn_before (a b : ranked) : bool :=
  let cmp := compare_connections a b in
  if negb (cmp =? 0) then 0 <? cmp else c_rtt (rk_conn a) <? c_rtt (rk_conn b).

(** [std::stable_sort]: equal elements keep their order. *)
Fixpoint stable_insert {A} (before : A -> A -> bool) (x : A) (l : list A) : list A :=
  match l with
  | [] => [x]
  | y :: l' => if before x y then x :: l else y :: stable_insert before x l'
  end.

Definition stable_sort {A} (before : A -> A -> bool) (l : list A) : list A :=
  fold_left (fun acc x => stable_insert before x acc) l [].

Definition rank (p : ptr) : M ranked :=
  c ← conn_at p; prio ← conn_priority c; mret (mkRanked p c prio).

Definition ready_to_send (c : IceConnection) : bool :=
  conn_writable c || bool_decide (c_write_state c = STATE_WRITE_UNRELIABLE).

(** [sort_and_switch_connection]: the connection to switch to, if any. *)
Definition sort_and_switch_connection : M (option ptr) :=
  k ← controller;
  ranks ← mapM_list rank (k_connections k);
  let sorted := stable_sort conn_before ranks in
  _ ← controller_set (upd_k_connections (fun _ => map rk_ptr sorted));
  match sorted with
  | [] => mret None
  | top :: _ =>
      if negb (ready_to_send (rk_conn top)) ||
         bool_decide (k_selected k = Some (rk_ptr top))
      then mret None
      else
        match k_selected k with
        | None => mret (Some (rk_ptr top))
        | Some s =>
            selected ← conn_at s;
            if c_rtt (rk_conn top) <=? c_rtt selected - k_min_improvement
            then mret (Some (rk_ptr top)) else mret None
        end
  end.

(** ** Which connection to ping *)

(** [std::set<IceConnection*>]: ascending addresses. *)
Fixpoint set_insert (p : ptr) (s : list ptr) : list ptr :=
  match s with
  | [] => [p]
  | q :: s' => if bool_decide (p < q)%nat then p :: s
               else if bool_decide (p = q) then s else q :: set_insert p s'
  end.

Definition set_erase (p : ptr) (s : list ptr) : list ptr := filter (fun q => q <> p) s.

Definition set_insert_all (ps s : list ptr) : list ptr := fold_left (fun acc p => set_insert p acc) ps s.

Definition add_connection (p : ptr) : M () :=
  controller_set (fun k =>
    upd_k_unpinged (set_insert p) (upd_k_connections (fun l => l ++ [p]) k)).

(** [_connections.erase(it)] of the first occurrence. *)
Fixpoint erase_first (p : ptr) (l : list ptr) : list ptr :=
  match l with
  | [] => []
  | q :: l' => if bool_decide (q = p) then l' else q :: erase_first p l'
  end.

Definition controller_on_connection_destroyed (p : ptr) : M () :=
  controller_set (fun k =>
    upd_k_connections (erase_first p)
      (upd_k_unpinged (set_erase p) (upd_k_pinged (set_erase p) k))).

Definition mark_connection_pinged (p : ptr) : M () :=
  controller_set (fun k =>
    if bool_decide (p ∈ k_pinged k) then k
    else upd_k_unpinged (set_erase p) (upd_k_pinged (set_insert p) k)).

(** [_weak()] of the controller *)
Definition controller_weak : M bool :=
  k ← controller;
  match k_selected k with
  | None => mret true
  | Some s => c ← conn_at s; mret (conn_weak c)
  end.

Definition get_connection_ping_interval (c : IceConnection) (now : Z) : M Z :=
  if c_num_pings_sent c <? MIN_PINGS_AT_WEAK_PING_INTERVAL then mret WEAK_PING_INTERVAL
  else
    weak ← controller_weak;
    if weak || negb (conn_stable c now) then mret STABLING_CONNECTION_PING_INTERVAL
    else mret STABLE_CONNECTION_PING_INTERVAL.

Definition is_connection_past_ping_interval (c : IceConnection) (now : Z) : M bool :=
  interval ← get_connection_ping_interval c now;
  mret (c_last_ping_sent c + interval <=? now).

Definition is_pingable (p : ptr) (now : Z) : M bool :=
  c ← conn_at p;
  if bool_decide (cand_username (c_remote c) = []) || bool_decide (cand_password (c_remote c) = [])
  then mret false
  else
    weak ← controller_weak;
    if (weak : bool) then mret true else is_connection_past_ping_interval c now.

Section controller_env.
Context `{IceEnv}.

Definition has_pingable_connection : M bool :=
  now ← TimeMillis;
  k ← controller;
  existsM (fun p => is_pingable p now) (k_connections k).

(** [_more_pingable(conn1, conn2)]; [conn2] is null at first. *)
Definition more_pingable (c1 : IceConnection) (c2 : option IceConnection) : bool :=
  match c2 with
  | None => true
  | Some c2 => c_last_ping_sent c1 <? c_last_ping_sent c2
  end.

(** The loop over [_unpinged_connections]. *)
Fixpoint find_more_pingable (now : Z) (ps : list ptr) (find_conn : option ptr) : M (option ptr) :=
  match ps with
  | [] => mret find_conn
  | p :: ps' =>
      ok ← is_pingable p now;
      if negb ok then find_more_pingable now ps' find_conn
      else
        c ← conn_at p;
        best ← match find_conn with
               | None => mret None
               | Some q => c2 ← conn_at q; mret (Some c2)
               end;
        find_more_pingable now ps' (if more_pingable c best then Some p else find_conn)
  end.

Definition find_next_pingable_connection (now : Z) : M (option ptr) :=
  k ← controller;
  due ← match k_selected k with
        | None => mret false
        | Some s =>
            c ← conn_at s;
            if conn_writable c then is_connection_past_ping_interval c now else mret false
        end;
  if (due : bool) then mret (k_selected k)
  else
    has_pingable ← existsM (fun p => is_pingable p now) (k_unpinged k);
    _ ← when (negb has_pingable)
          (controller_set (fun k =>
             upd_k_pinged (fun _ => []) (upd_k_unpinged (set_insert_all (k_pinged k)) k)));
    k ← controller;
    find_more_pingable now (k_unpinged k) None.

(** [select_connection_to_ping]: the connection, and the ping interval. *)
Definition select_connection_to_ping (last_ping_sent_ms : Z) : M (option ptr * Z) :=
  k ← controller;
  need_ping_more_at_weak ←
    existsM (fun p => c ← conn_at p;
               mret (c_num_pings_sent c <? MIN_PINGS_AT_WEAK_PING_INTERVAL))
            (k_connections k);
  weak ← controller_weak;
  let ping_interval := if weak || need_ping_more_at_weak
                       then WEAK_PING_INTERVAL else STRONG_PING_INTERVAL in
  now ← TimeMillis;
  conn ← (if last_ping_sent_ms <=? now then find_next_pingable_connection now else mret None);
  mret (conn, ping_interval).
End controller_env.
