(* ===== verification/IceConnection.v ===== *)
(** * Connections (ice/ice_connection.{h,cpp}, ice/stun_request.{h,cpp})

    A connection checks connectivity with STUN requests and keeps its write
    and receive states.  It announces a change of either, its destruction and
    the packets that are not STUN through signals; whoever listens is the
    class [Observer], so the operations here do not depend on the channel. *)

From S2P Require Import Prelude ByteBuffer StringEncode IpAddress Stun IceTypes IcePort IceController.
Local Open Scope Z_scope.

(** The slots connected to [signal_state_change], [signal_connection_destroy]
    and [signal_read_packet]. *)
Class Observer : Type := {
  on_connection_state_change : ptr -> M ();
  on_connection_destroyed : ptr -> M ();
  on_conn_read_packet : ptr -> bytes -> Z -> M ();
}.

Definition last_received (c : IceConnection) : Z :=
  Z.max (Z.max (c_last_ping_received c) (c_last_ping_response_received c)) (c_last_data_received c).

(** [IceConnection::IceConnection] *)
Definition new_connection (port : nat) (remote : Candidate) : IceConnection :=
  {| c_port := port; c_remote := remote; c_write_state := STATE_WRITE_INIT;
     c_receiving := false; c_selected := false; c_last_ping_sent := 0;
     c_last_ping_received := 0; c_last_ping_response_received := 0;
     c_last_data_received := 0; c_num_pings_sent := 0; c_pings := [];
     c_requests := ∅; c_rtt := 3000; c_rtt_samples := 0; c_state := WAITING |}.

(** [UDPPort::create_connection] *)
Definition create_connection (i : nat) (remote : Candidate) : M ptr :=
  p ← gets w_next;
  _ ← modify (fun w => upd_w_next S (upd_w_conns (insert p (new_connection i remote)) w));
  _ ← port_set i (upd_p_connections (fun m => addr_insert m (address remote) p));
  mret p.

Definition too_many_ping_fails (c : IceConnection) (max_pings : nat) (rtt now : Z) : bool :=
  if bool_decide (length (c_pings c) < max_pings)%nat then false
  else
    match c_pings c !! (max_pings - 1)%nat with
    | None => false
    | Some (_, sent_time) =>
        let expected_response_time := i32 (sent_time + rtt) in
        expected_response_time <? now
    end.

Definition too_long_without_response (c : IceConnection) (min_time now : Z) : bool :=
  match c_pings c with
  | [] => false
  | (_, sent_time) :: _ => sent_time + min_time <? now
  end.

(** [rtc::GetNextMovingAverage(prev, cur, ratio)] on [int]s. *)
Definition GetNextMovingAverage (prev_average cur ratio : Z) : Z :=
  Z.quot (ratio * prev_average + cur) (ratio + 1).

(** [update_state]'s estimate of the time a response takes; the product of
    [int]s wraps around for round trips of 2^30 ms, twelve days, and more. *)
Definition ping_response_time (c : IceConnection) : Z :=
  let rtt := i32 (2 * c_rtt c) in
  if rtt <? MIN_RTT then MIN_RTT else if MAX_RTT <? rtt then MAX_RTT else rtt.

Definition conn_set_state (p : ptr) (s : IceCandidatePairState) : M () :=
  conn_set p (upd_c_state (fun _ => s)).

Definition maybe_set_remote_ice_params (params : IceParameters) (c : IceConnection)
    : IceConnection :=
  let remote := c_remote c in
  if bool_decide (cand_username remote = ice_ufrag params) &&
     bool_decide (cand_password remote = [])
  then upd_c_remote (fun r =>
         {| component := component r; protocol := protocol r; address := address r;
            cand_port := cand_port r; cand_priority := cand_priority r;
            cand_username := cand_username r; cand_password := ice_pwd params;
            cand_type := cand_type r; foundation := foundation r |}) c
  else c.

Section connection.
Context `{IceEnv} `{Observer}.

Definition update_receiving (p : ptr) (now : Z) : M () :=
  c ← conn_at p;
  let receiving :=
    if c_last_ping_sent c <? c_last_ping_response_received c then true
    else (0 <? last_received c) &&
         (now <? last_received c + WEAK_CONNECTION_RECEIVE_TIMEOUT) in
  if bool_decide (c_receiving c = receiving) then mret ()
  else
    _ ← conn_set p (upd_c_receiving (fun _ => receiving));
    on_connection_state_change p.

Definition set_write_state (p : ptr) (s : WriteState) : M () :=
  c ← conn_at p;
  let old_state := c_write_state c in
  _ ← conn_set p (upd_c_write_state (fun _ => s));
  if bool_decide (old_state = s) then mret () else on_connection_state_change p.

Definition received_ping_response (p : ptr) (rtt : Z) : M () :=
  _ ← conn_set p (fun c =>
        upd_c_rtt_samples (fun n => n + 1)
          (upd_c_rtt (fun old => if 0 <? c_rtt_samples c
                                 then GetNextMovingAverage old rtt RTT_RATIO else rtt) c));
  now ← TimeMillis;
  _ ← conn_set p (fun c => upd_c_pings (fun _ => [])
                             (upd_c_last_ping_response_received (fun _ => now) c));
  _ ← update_receiving p now;
  _ ← set_write_state p STATE_WRITABLE;
  conn_set_state p SUCCEEDED.

(** [destroy()]: the signal, then [delete this]; the destructor of the
    request manager frees the requests. *)
Definition conn_destroy (p : ptr) : M () :=
  _ ← on_connection_destroyed p;
  _ ← conn_at p;
  modify (upd_w_conns (delete p)).

Definition fail_and_destroy (p : ptr) : M () :=
  _ ← conn_set_state p FAILED;
  conn_destroy p.

Definition update_conn_state (p : ptr) (now : Z) : M () :=
  c ← conn_at p;
  let rtt := ping_response_time c in
  _ ← (if bool_decide (c_write_state c = STATE_WRITABLE) &&
          too_many_ping_fails c CONNECTION_WRITE_CONNECT_FAILS rtt now &&
          too_long_without_response c CONNECTION_WRITE_CONNECT_TIMEOUT now
       then set_write_state p STATE_WRITE_UNRELIABLE else mret ());
  c ← conn_at p;
  _ ← (if (bool_decide (c_write_state c = STATE_WRITE_UNRELIABLE) ||
           bool_decide (c_write_state c = STATE_WRITE_INIT)) &&
          too_long_without_response c CONNECTION_WRITE_TIMEOUT now
       then set_write_state p STATE_WRITE_TIMEOUT else mret ());
  update_receiving p now.

(** *** Requests *)

(** [ConnectionRequest::prepare] *)
Definition request_prepare (p : ptr) (msg : StunMessage) : M StunMessage :=
  let msg := set_type msg STUN_BINDING_REQUEST in
  c ← conn_at p;
  port ← port_at (c_port c);
  local ← local_candidate c;
  let username := create_stun_username port (cand_username (c_remote c)) in
  let msg := add_attribute msg (StunByteStringAttribute STUN_ATTR_USERNAME username) in
  let msg := add_attribute msg (StunUInt64Attribute STUN_ATTR_ICE_CONTROLLING 0) in
  let msg := add_attribute msg (mkAttr STUN_ATTR_USE_CANDIDATE 0 (ByteStringBody [])) in
  let prflx_priority := Z.lor (Z.shiftl ICE_TYPE_PREFERENCE_PRFLX 24)
                          (Z.land (cand_priority local) 0x00FFFFFF) in
  let msg := add_attribute msg (StunUInt32Attribute STUN_ATTR_PRIORITY prflx_priority) in
  let msg := snd (add_message_integrity env_sha1 msg (cand_password (c_remote c))) in
  mret (snd (add_fingerprint msg)).

(** [_on_stun_send_packet] *)
Definition on_stun_send_packet (p : ptr) (buf : bytes) : M () :=
  c ← conn_at p;
  _ ← port_send_to (c_port c) buf (address (c_remote c));
  mret ().

(** [StunRequestManager::send], with [construct] and [StunRequest::send]. *)
Definition requests_send (p : ptr) (msg : StunMessage) : M () :=
  msg ← request_prepare p msg;
  let id := m_transaction_id msg in
  _ ← conn_set p (upd_c_requests (insert id (mkRequest msg 0)));
  ts ← TimeMillis;
  _ ← conn_set p (upd_c_requests (alter (fun r => mkRequest (rq_msg r) ts) id));
  let '(ok, buf) := stun_write msg [] in
  if negb ok then mret () else on_stun_send_packet p buf.

Definition conn_ping (p : ptr) (now : Z) : M () :=
  _ ← conn_set p (upd_c_last_ping_sent (fun _ => now));
  id ← CreateRandomString k_stun_transaction_id_length;
  let msg := set_transaction_id new_StunMessage id in
  _ ← conn_set p (upd_c_pings (fun l => l ++ [(id, now)]));
  _ ← requests_send p msg;
  _ ← conn_set_state p IN_PROGRESS;
  conn_set p (upd_c_num_pings_sent (fun n => n + 1)).

(** [delete request] from [check_response]: the destructor takes the request
    out of its manager; after the connection is gone the manager's own
    destructor has deleted the request already. *)
Definition delete_request (p : ptr) (id : bytes) : M () :=
  conn_set p (upd_c_requests (delete id)).

(** [elapsed()], an [int] *)
Definition elapsed (r : StunRequest) : M Z := now ← TimeMillis; mret (i32 (now - rq_ts r)).

Definition on_connection_request_response (p : ptr) (r : StunRequest) : M () :=
  rtt ← elapsed r;
  received_ping_response p rtt.

Definition on_connection_request_error_response (p : ptr) (r : StunRequest) (msg : StunMessage)
    : M () :=
  rtt ← elapsed r;
  let error_code := get_error_code_value msg in
  if (STUN_ERROR_UNATHORIZED =? error_code) || (STUN_ERROR_UNKNOWN_ATTRIBUTE =? error_code) ||
     (STUN_ERROR_SERVER_ERROR =? error_code)
  then mret ()
  else fail_and_destroy p.

(** [StunRequestManager::check_response] *)
Definition check_response (p : ptr) (msg : StunMessage) : M bool :=
  c ← conn_at p;
  let id := m_transaction_id msg in
  match c_requests c !! id with
  | None => mret false
  | Some r =>
      let type := m_type (rq_msg r) in
      if m_type msg =? get_stun_success_response type then
        _ ← on_connection_request_response p r;
        _ ← delete_request p id;
        mret true
      else if m_type msg =? get_stun_error_response type then
        _ ← on_connection_request_error_response p r msg;
        _ ← delete_request p id;
        mret true
      else
        _ ← delete_request p id;
        mret false
  end.

(** *** Responses *)

(** The message [send_stun_binding_response] builds, and whether it could be
    written. *)
Definition binding_response (pwd : bytes) (transaction_id : bytes) (remote : SocketAddress)
    : bool * bytes :=
  let response := set_transaction_id (set_type new_StunMessage STUN_BINDING_RESPONSE)
                    transaction_id in
  let response := add_attribute response
                    (StunXorAddressAttribute STUN_ATTR_XOR_MAPPED_ADDRESS remote) in
  let response := snd (add_message_integrity env_sha1 response pwd) in
  let response := snd (add_fingerprint response) in
  stun_write response [].

(** [handle_stun_binding_request], that is [send_stun_binding_response]
    with [send_response_message]. *)
Definition handle_stun_binding_request (p : ptr) (stun_msg : StunMessage) : M () :=
  match get_attribute stun_msg STUN_ATTR_USERNAME with
  | None => mret ()
  | Some _ =>
      c ← conn_at p;
      port ← port_at (c_port c);
      let addr := address (c_remote c) in
      let '(ok, buf) := binding_response (ice_pwd (p_ice_params port))
                          (m_transaction_id stun_msg) addr in
      if negb ok then mret ()
      else _ ← port_send_to (c_port c) buf addr; mret ()
  end.

(** [IceConnection::on_read_packet] *)
Definition conn_on_read_packet (p : ptr) (buf : bytes) (ts : Z) : M () :=
  c ← conn_at p;
  let remote := c_remote c in
  '(is_stun, stun_msg, remote_ufrag) ← get_stun_message (c_port c) buf (address remote);
  if negb is_stun then on_conn_read_packet p buf ts
  else
    match stun_msg with
    | None => mret ()
    | Some stun_msg =>
        if m_type stun_msg =? STUN_BINDING_REQUEST then
          if negb (bool_decide (remote_ufrag = cand_username remote))
          then send_binding_error_response (c_port c) stun_msg (address remote)
                 STUN_ERROR_UNATHORIZED STUN_ERROR_REASON_UNATHORIZED
          else handle_stun_binding_request p stun_msg
        else if (m_type stun_msg =? STUN_BINDING_RESPONSE) ||
                (m_type stun_msg =? STUN_BINDING_ERROR_RESPONSE) then
          '(status, stun_msg) ← lift (validate_message_integrity env_sha1 stun_msg
                                        (cand_password remote));
          if bool_decide (m_integrity stun_msg = k_integrity_ok)
          then _ ← check_response p stun_msg; mret () else mret ()
        else mret ()
    end.

(** [IceConnection::send_packet] *)
Definition conn_send_packet (p : ptr) (data : bytes) : M Z :=
  c ← conn_at p;
  port_send_to (c_port c) data (address (c_remote c)).
End connection.
