(* ===== verification/IceChannel.v ===== *)
(** * The ICE transport channel (ice/ice_transport_channel.{h,cpp})

    The channel owns the ports and listens to the connections: it selects one,
    derives its own writable, receiving and ICE states, and pings.  It is the
    [Observer] the connections are written against. *)

From S2P Require Import Prelude ByteBuffer StringEncode IpAddress Stun.
From S2P Require Import IceTypes IcePort IceController IceConnection.
Local Open Scope Z_scope.

Section channel.
Context `{IceEnv}.

Definition ch_set_selected_flag (p : ptr) (b : bool) : M () :=
  conn_set p (upd_c_selected (fun _ => b)).

Definition switch_selected_connection (conn : option ptr) : M () :=
  ch ← channel;
  let old_selected_connection := ch_selected ch in
  _ ← channel_set (upd_ch_selected (fun _ => conn));
  _ ← match old_selected_connection with
      | Some old => ch_set_selected_flag old false
      | None => mret ()
      end;
  match conn with
  | Some p =>
      _ ← channel_set (upd_ch_selected (fun _ => Some p));
      _ ← ch_set_selected_flag p true;
      controller_set (upd_k_selected (fun _ => Some p))
  | None => mret ()
  end.

Definition maybe_switch_selected_connection (conn : option ptr) : M () :=
  match conn with None => mret () | Some p => switch_selected_connection (Some p) end.

Definition set_writable (writable : bool) : M () :=
  ch ← channel;
  if bool_decide (ch_writable ch = writable) then mret ()
  else
    _ ← when writable (channel_set (upd_ch_has_been_connection (fun _ => true)));
    _ ← channel_set (upd_ch_writable (fun _ => writable));
    emit (EvWritable writable).

Definition set_receiving (receiving : bool) : M () :=
  ch ← channel;
  if bool_decide (ch_receiving ch = receiving) then mret ()
  else
    _ ← channel_set (upd_ch_receiving (fun _ => receiving));
    emit (EvReceiving receiving).

(** The decision table of [_compute_ice_transport_state]. *)
Definition ice_transport_state (had_connection has_been_connection has_connection writable : bool)
    : IceTransportChannelState :=
  if had_connection && negb has_connection then ice_failed
  else if has_been_connection && negb writable then ice_disconnected
  else if negb had_connection && negb has_connection then ice_new
  else if has_connection && negb writable then ice_checking
  else ice_connected.

Definition compute_ice_transport_state : M IceTransportChannelState :=
  k ← controller;
  has_connection ← existsM (fun p => c ← conn_at p; mret (conn_active c)) (k_connections k);
  ch ← channel;
  mret (ice_transport_state (ch_had_connection ch) (ch_has_been_connection ch)
          has_connection (ch_writable ch)).

(** [_update_state] *)
Definition channel_update_state : M () :=
  ch ← channel;
  writable ← match ch_selected ch with
             | None => mret false
             | Some p => c ← conn_at p; mret (conn_writable c)
             end;
  _ ← set_writable writable;
  k ← controller;
  receiving ← existsM (fun p => c ← conn_at p; mret (c_receiving c)) (k_connections k);
  _ ← set_receiving receiving;
  state ← compute_ice_transport_state;
  ch ← channel;
  if bool_decide (state = ch_state ch) then mret ()
  else
    _ ← channel_set (upd_ch_state (fun _ => state));
    emit (EvIceState state).

Definition maybe_start_pinging : M () :=
  ch ← channel;
  if ch_start_pinging ch then mret ()
  else
    pingable ← has_pingable_connection;
    if (pingable : bool) then
      _ ← emit (EvStartTimer (WEAK_PING_INTERVAL * 1000));
      channel_set (upd_ch_start_pinging (fun _ => true))
    else mret ().

Definition sort_connection_and_update_state : M () :=
  best ← sort_and_switch_connection;
  _ ← maybe_switch_selected_connection best;
  _ ← channel_update_state;
  maybe_start_pinging.

(** [_on_connection_destroyed] *)
Definition channel_on_connection_destroyed (p : ptr) : M () :=
  _ ← controller_on_connection_destroyed p;
  ch ← channel;
  if bool_decide (ch_selected ch = Some p) then
    _ ← switch_selected_connection None;
    sort_connection_and_update_state
  else channel_update_state.

#[export] Instance channel_observer : Observer := {|
  on_connection_state_change := fun _ => sort_connection_and_update_state;
  on_connection_destroyed := channel_on_connection_destroyed;
  on_conn_read_packet := fun _ data ts => emit (EvReadPacket data ts);
|}.

(** [_add_connection] *)
Definition channel_add_connection (p : ptr) : M () :=
  _ ← channel_set (upd_ch_had_connection (fun _ => true));
  add_connection p.

(** [_on_unknown_address] *)
Definition on_unknown_address (i : nat) (addr : SocketAddress) (msg : StunMessage)
    (remote_ufrag : bytes) : M () :=
  match get_uint32 msg STUN_ATTR_PRIORITY with
  | None =>
      send_binding_error_response i msg addr STUN_ERROR_BAD_REQUEST
        STUN_ERROR_REASON_BAD_REQUEST
  | Some remote_priority =>
      ch ← channel;
      let remote_candidate :=
        {| component := ch_component ch; protocol := str "udp"; address := addr;
           cand_port := 0; cand_priority := remote_priority;
           cand_username := remote_ufrag;
           cand_password := ice_pwd (ch_remote_ice_params ch);
           cand_type := str "prflx"; foundation := [] |} in
      conn ← create_connection i remote_candidate;
      _ ← channel_add_connection conn;
      _ ← handle_stun_binding_request conn msg;
      sort_connection_and_update_state
  end.

(** [UDPPort::_on_read_packet] of the [i]-th port, with the slot the channel
    connected to [signal_unknown_address]. *)
Definition port_on_read_packet (i : nat) (buf : bytes) (addr : SocketAddress) (ts : Z) : M () :=
  conn ← get_connection i addr;
  match conn with
  | Some p => conn_on_read_packet p buf ts
  | None =>
      '(res, stun_msg, remote_ufrag) ← get_stun_message i buf addr;
      match res, stun_msg with
      | true, Some stun_msg =>
          if m_type stun_msg =? STUN_BINDING_REQUEST
          then on_unknown_address i addr stun_msg remote_ufrag else mret ()
      | _, _ => mret ()
      end
  end.

Definition set_ice_params (params : IceParameters) : M () :=
  channel_set (upd_ch_ice_params (fun _ => params)).

Definition set_remote_ice_params (params : IceParameters) : M () :=
  _ ← channel_set (upd_ch_remote_ice_params (fun _ => params));
  k ← controller;
  _ ← mapM_ (fun p => conn_set p (maybe_set_remote_ice_params params)) (k_connections k);
  sort_connection_and_update_state.

(** [gathering_candidate]: one entry of [networks] per network of the
    allocator, the port the kernel bound or [None] for a failed socket call. *)
Definition gather_network (bound : option Z) : M () :=
  ch ← channel;
  let port := new_port (ch_transport_name ch) (ch_component ch) (ch_ice_params ch) in
  let '(port, c) := create_ice_candidate port bound in
  _ ← modify (upd_w_ports (fun l => l ++ [port]));
  match c with
  | None => mret ()
  | Some c => channel_set (upd_ch_local_candidates (fun l => l ++ [c]))
  end.

Definition gathering_candidate (networks : list (option Z)) : M () :=
  ch ← channel;
  if bool_decide (ice_ufrag (ch_ice_params ch) = []) ||
     bool_decide (ice_pwd (ch_ice_params ch) = [])
  then mret ()
  else if bool_decide (networks = []) then mret ()
  else
    _ ← mapM_ gather_network networks;
    ch ← channel;
    emit (EvCandidates (ch_local_candidates ch)).

Definition update_connection_states : M () :=
  k ← controller;
  now ← TimeMillis;
  mapM_ (fun p => update_conn_state p now) (k_connections k).

Definition ping_connection (p : ptr) : M () :=
  now ← TimeMillis;
  _ ← channel_set (upd_ch_last_ping_sent_ms (fun _ => now));
  conn_ping p now.

(** [_on_check_and_ping], the timer callback *)
Definition on_check_and_ping : M () :=
  _ ← update_connection_states;
  ch ← channel;
  '(conn, ping_interval) ← select_connection_to_ping
                             (ch_last_ping_sent_ms ch - PING_INTERVAL_DIFF);
  _ ← match conn with
      | Some p => _ ← ping_connection p; mark_connection_pinged p
      | None => mret ()
      end;
  ch ← channel;
  if ch_cur_ping_interval ch =? ping_interval then mret ()
  else
    _ ← channel_set (upd_ch_cur_ping_interval (fun _ => ping_interval));
    _ ← emit EvStopTimer;
    emit (EvStartTimer (ping_interval * 1000)).

(** [IceTransportChannel::send_packet] *)
Definition channel_send_packet (data : bytes) : M Z :=
  ch ← channel;
  match ch_selected ch with
  | None => mret (-1)
  | Some p =>
      c ← conn_at p;
      if negb (ready_to_send c) then mret (-1) else conn_send_packet p data
  end.

(** [~IceTransportChannel]: the timer goes, then every connection. *)
Definition channel_destroy : M () :=
  _ ← emit EvDeleteTimer;
  k ← controller;
  _ ← mapM_ conn_destroy (k_connections k);
  modify (upd_w_ports (fun _ => [])).

(** *** What can happen to a channel *)

Inductive ice_input : Type :=
  | InPacket (port : nat) (data : bytes) (addr : SocketAddress) (ts : Z)
  | InTimer
  | InSetIceParams (params : IceParameters)
  | InSetRemoteIceParams (params : IceParameters)
  | InGather (networks : list (option Z))
  | InSend (data : bytes).

Definition ice_handle (i : ice_input) : M () :=
  match i with
  | InPacket port data addr ts => port_on_read_packet port data addr ts
  | InTimer => on_check_and_ping
  | InSetIceParams params => set_ice_params params
  | InSetRemoteIceParams params => set_remote_ice_params params
  | InGather networks => gathering_candidate networks
  | InSend data => _ ← channel_send_packet data; mret ()
  end.
End channel.

(** [IceTransportChannel::IceTransportChannel] *)
Definition new_controller : IceController := mkCtl None [] [] [].

Definition new_channel (transport_name : bytes) (component : Z) : IceTransportChannel :=
  {| ch_transport_name := transport_name; ch_component := component;
     ch_ice_params := mkIceParameters [] []; ch_remote_ice_params := mkIceParameters [] [];
     ch_local_candidates := []; ch_controller := new_controller; ch_start_pinging := false;
     ch_cur_ping_interval := WEAK_PING_INTERVAL; ch_last_ping_sent_ms := 0; ch_selected := None;
     ch_receiving := false; ch_writable := false; ch_state := ice_new;
     ch_had_connection := false; ch_has_been_connection := false |}.

Definition new_world (transport_name : bytes) (component : Z) : world :=
  {| w_conns := ∅; w_ports := []; w_ch := new_channel transport_name component;
     w_next := 0%nat; w_ticks := 0%nat; w_rands := 0%nat; w_out := [] |}.
