(* ===== verification/IceInvariant.v ===== *)
(** * The pointer invariant of a channel

    [ice_inv] says that every pointer the channel, the controller and the
    ports hold is to a live connection, and how the collections relate.
    [wp U m Q w]: the run of [m] from [w] ends normally in [Q], or in an
    undefined step that [U] allows.  The operations of the controller and the
    port are shown to keep the invariant; connections and the channel follow
    in [IceConnectionTheory] and [IceChannelTheory]. *)

From S2P Require Import Prelude ByteBuffer StringEncode IpAddress MessageDigest Stun StunTheory.
From S2P Require Import IceTypes IcePort IceController.
Local Open Scope Z_scope.

(** ** Weakest preconditions *)

Definition wp {A} (U : undef -> Prop) (m : M A) (Q : A -> world -> Prop) (w : world) : Prop :=
  match m w with
  | Done (a, w') => Q a w'
  | Throws _ => False
  | Undef u => U u
  end.

(** [m] only reads: it ends in the world it started from. *)
Definition reads {A} (m : M A) (w : world) : Prop := exists a, m w = Done (a, w).

Section wp.
Context (U : undef -> Prop).

Lemma wp_ret {A} (a : A) Q w : Q a w -> wp U (mret a) Q w.
Proof. done. Qed.

Lemma wp_bind {A B} (m : M A) (k : A -> M B) Q w :
  wp U m (fun a w' => wp U (k a) Q w') w -> wp U (m ≫= k) Q w.
Proof. unfold wp, mbind, M_bind. by destruct (m w) as [[a w']| |]. Qed.

Lemma wp_mono {A} (m : M A) (Q Q' : A -> world -> Prop) w :
  wp U m Q w -> (forall a w', Q a w' -> Q' a w') -> wp U m Q' w.
Proof. unfold wp. destruct (m w) as [[a w']| |]; auto. Qed.

Lemma wp_reads {A} (m : M A) Q w :
  reads m w -> (forall a, m w = Done (a, w) -> Q a w) -> wp U m Q w.
Proof. intros [a E] HQ. unfold wp. rewrite E. auto. Qed.

Lemma wp_when (b : bool) m Q w : (b = true -> wp U m Q w) -> (b = false -> Q () w) -> wp U (when b m) Q w.
Proof. intros Ht Hf. destruct b; [by apply Ht|by apply Hf]. Qed.

Lemma wp_lift {A} (o : outcome A) Q w :
  match o with Done a => Q a w | Throws _ => False | Undef u => U u end -> wp U (lift o) Q w.
Proof. unfold wp, lift. by destruct o. Qed.
End wp.

Lemma mret_Done {A} (a b : A) (w w' : world) : mret (M := M) a w = Done (b, w') -> b = a /\ w' = w.
Proof. by intros [= -> ->]. Qed.

Lemma reads_ret {A} (a : A) w : reads (mret a) w.
Proof. by exists a. Qed.

Lemma reads_bind {A B} (m : M A) (k : A -> M B) w :
  reads m w -> (forall a, m w = Done (a, w) -> reads (k a) w) -> reads (m ≫= k) w.
Proof.
  intros [a E] Hk. destruct (Hk a E) as [b Eb]. exists b.
  unfold mbind, M_bind. by rewrite E.
Qed.

Lemma reads_existsM {A} (f : A -> M bool) l w :
  (forall a, a ∈ l -> reads (f a) w) -> reads (existsM f l) w.
Proof.
  induction l as [|a l IH]; intros Hf; simpl; [apply reads_ret|].
  apply reads_bind; [apply Hf; left|]. intros [] _; [apply reads_ret|].
  apply IH. intros x Hx. apply Hf. by right.
Qed.

Lemma existsM_false {A} (f : A -> M bool) l w :
  (forall a, a ∈ l -> reads (f a) w) -> existsM f l w = Done (false, w) ->
  forall a, a ∈ l -> f a w = Done (false, w).
Proof.
  induction l as [|x l IH]; intros Hf E a Ha; [by apply elem_of_nil in Ha|].
  cbn [existsM] in E. unfold mbind, M_bind in E.
  destruct (Hf x) as [b Eb]; [left|]. rewrite Eb in E. destruct b; [done|].
  apply elem_of_cons in Ha as [->|Ha]; [done|]. apply IH; [|done..].
  intros y Hy. apply Hf. by right.
Qed.

Lemma reads_mapM_list {A B} (f : A -> M B) l w (P : A -> B -> Prop) :
  (forall a, a ∈ l -> exists b, f a w = Done (b, w) /\ P a b) ->
  exists bs, mapM_list f l w = Done (bs, w) /\ Forall2 P l bs.
Proof.
  induction l as [|a l IH]; intros Hf; simpl.
  { exists []. by split; [|constructor]. }
  destruct (Hf a) as (b & Eb & HP); [left|].
  destruct IH as (bs & Ebs & HPs); [intros x Hx; apply Hf; by right|].
  exists (b :: bs). unfold mbind, M_bind. rewrite Eb, Ebs. by split; [|constructor].
Qed.

(** ** The invariant *)

Abbreviation ctl w := (ch_controller (w_ch w)).

(** The outstanding requests are binding requests. *)
Definition requests_typed (c : IceConnection) : Prop :=
  forall id r, c_requests c !! id = Some r -> m_type (rq_msg r) = STUN_BINDING_REQUEST.

Record ice_inv (w : world) : Prop := {
  (* the controller's vector lists the live connections, each once *)
  inv_nodup : NoDup (k_connections (ctl w));
  inv_live : forall p, p ∈ k_connections (ctl w) <-> is_Some (w_conns w !! p);
  (* the two sets split it *)
  inv_split : k_unpinged (ctl w) ++ k_pinged (ctl w) ≡ₚ k_connections (ctl w);
  (* the channel and its controller agree on the selected connection, a live one *)
  inv_selected : k_selected (ctl w) = ch_selected (w_ch w);
  inv_selected_live : forall p, ch_selected (w_ch w) = Some p -> p ∈ k_connections (ctl w);
  (* and it is the one whose flag is set *)
  inv_flag : forall p c, w_conns w !! p = Some c ->
    c_selected c = bool_decide (ch_selected (w_ch w) = Some p);
  (* the address maps hold live connections *)
  inv_addr : forall i port a p, w_ports w !! i = Some port -> (a, p) ∈ p_connections port ->
    is_Some (w_conns w !! p);
  (* a connection belongs to a port that has a socket and a candidate *)
  inv_port : forall p c, w_conns w !! p = Some c ->
    exists port, w_ports w !! c_port c = Some port /\ p_candidates port <> [];
  inv_open : forall i port, w_ports w !! i = Some port ->
    p_open port = true \/ p_connections port <> [] -> p_candidates port <> [];
  (* addresses not handed out yet are free *)
  inv_next : forall p, is_Some (w_conns w !! p) -> (p < w_next w)%nat;
  inv_had : k_connections (ctl w) <> [] -> ch_had_connection (w_ch w) = true;
  inv_requests : forall p c, w_conns w !! p = Some c -> requests_typed c;
}.

(** What stays: connections live on at the same port, ports are not removed. *)
Definition ext (w w' : world) : Prop :=
  (forall p c, w_conns w !! p = Some c ->
     exists c', w_conns w' !! p = Some c' /\ c_port c' = c_port c) /\
  (forall i port, w_ports w !! i = Some port ->
     exists port', w_ports w' !! i = Some port' /\ p_candidates port' = p_candidates port).

#[export] Instance ext_preorder : PreOrder ext.
Proof.
  split.
  - intros w. split; eauto.
  - intros w1 w2 w3 [A1 B1] [A2 B2]. split.
    + intros p c Hc. destruct (A1 _ _ Hc) as (c2 & H2 & E2).
      destruct (A2 _ _ H2) as (c3 & H3 & E3). exists c3. split; congruence.
    + intros i q Hq. destruct (B1 _ _ Hq) as (q2 & H2 & E2).
      destruct (B2 _ _ H2) as (q3 & H3 & E3). exists q3. split; congruence.
Qed.

Definition live (w : world) (p : ptr) : Prop := is_Some (w_conns w !! p).

Lemma ext_live w w' p : ext w w' -> live w p -> live w' p.
Proof. intros [A _] [c Hc]. destruct (A _ _ Hc) as (c' & H' & _). by exists c'. Qed.

(** The postcondition nearly every operation has. *)
Definition kept (w : world) {A} : A -> world -> Prop := fun _ w' => ice_inv w' /\ ext w w'.

Section kept.
Context (U : undef -> Prop).

Lemma kept_bind {A B} (m : M A) (k : A -> M B) w :
  wp U m (kept w) w ->
  (forall a w', m w = Done (a, w') -> ice_inv w' -> ext w w' -> wp U (k a) (kept w') w') ->
  wp U (m ≫= k) (kept w) w.
Proof.
  intros Hm Hk. apply wp_bind. unfold wp in Hm |- * at 1.
  destruct (m w) as [[a w']| |] eqn:E; [|done..].
  destruct Hm as [Hi He]. specialize (Hk a w' eq_refl Hi He).
  eapply wp_mono; [exact Hk|]. intros b w'' [Hi' He']. split; [done|]. by trans w'.
Qed.

Lemma kept_ret {A} (a : A) w : ice_inv w -> wp U (mret a) (kept w) w.
Proof. intros. by split. Qed.

Lemma kept_reads {A} (m : M A) w : ice_inv w -> reads m w -> wp U m (kept w) w.
Proof. intros Hi Hr. apply wp_reads; [done|]. intros a _. by split. Qed.

Lemma kept_reads_bind {A B} (m : M A) (k : A -> M B) w :
  reads m w -> (forall a, m w = Done (a, w) -> wp U (k a) (kept w) w) ->
  wp U (m ≫= k) (kept w) w.
Proof. intros Hr Hk. apply wp_bind, wp_reads; auto. Qed.

Lemma kept_mapM_ {A} (f : A -> M ()) l w :
  ice_inv w ->
  (forall a w', a ∈ l -> ice_inv w' -> ext w w' -> wp U (f a) (kept w') w') ->
  wp U (mapM_ f l) (kept w) w.
Proof.
  revert w. induction l as [|a l IH]; intros w Hi Hf; simpl; [by apply kept_ret|].
  apply kept_bind; [apply Hf; [left|done|done]|].
  intros _ w' _ Hi' He'. apply IH; [done|]. intros x w'' Hx Hi'' He''.
  apply Hf; [by right|done|by trans w'].
Qed.
End kept.

(** ** Steps that do not touch the pointers *)

Lemma inv_same w w' :
  w_conns w' = w_conns w -> w_ports w' = w_ports w -> w_next w' = w_next w ->
  ch_selected (w_ch w') = ch_selected (w_ch w) ->
  k_selected (ctl w') = k_selected (ctl w) ->
  k_connections (ctl w') ≡ₚ k_connections (ctl w) ->
  k_unpinged (ctl w') ++ k_pinged (ctl w') ≡ₚ k_unpinged (ctl w) ++ k_pinged (ctl w) ->
  (ch_had_connection (w_ch w) = true -> ch_had_connection (w_ch w') = true) ->
  ice_inv w -> ice_inv w' /\ ext w w'.
Proof.
  intros Hc Hp Hn Hs Hks Hkc Hku Hh [I1 I2 I3 I4 I5 I6 I7 I8 I9 I10 I11 I12].
  split; [split|].
  - by rewrite Hkc.
  - intros p. rewrite Hkc, Hc. apply I2.
  - by rewrite Hku, Hkc.
  - congruence.
  - intros p Hp'. rewrite Hkc. apply I5. congruence.
  - rewrite Hc, Hs. apply I6.
  - rewrite Hc, Hp. apply I7.
  - rewrite Hc, Hp. apply I8.
  - rewrite Hp. apply I9.
  - rewrite Hc, Hn. apply I10.
  - intros Hne. apply Hh, I11. intros E. apply Hne. rewrite E in Hkc.
    by apply Permutation_nil_r in Hkc.
  - rewrite Hc. apply I12.
  - split; [rewrite Hc|rewrite Hp]; eauto.
Qed.

Ltac inv_same := apply inv_same; [done..| | | |]; try done.

Section steps.
Context (U : undef -> Prop).

Lemma emit_kept e w : ice_inv w -> wp U (emit e) (kept w) w.
Proof. intros. unfold wp, emit, modify. by inv_same. Qed.

(** A change of the channel that leaves its pointers alone. *)
Lemma channel_set_kept f w :
  ice_inv w ->
  ch_controller (f (w_ch w)) = ch_controller (w_ch w) ->
  ch_selected (f (w_ch w)) = ch_selected (w_ch w) ->
  (ch_had_connection (w_ch w) = true -> ch_had_connection (f (w_ch w)) = true) ->
  wp U (channel_set f) (kept w) w.
Proof.
  intros Hi Hc Hs Hh. unfold wp, channel_set, modify.
  apply inv_same; simpl; rewrite ?Hc; done.
Qed.

(** A change of a live connection that leaves its port and its flag alone,
    and its requests well typed. *)
Definition harmless (f : IceConnection -> IceConnection) : Prop :=
  forall c, c_port (f c) = c_port c /\ c_selected (f c) = c_selected c /\
            (requests_typed c -> requests_typed (f c)).

Lemma conn_set_kept p f w :
  ice_inv w -> live w p -> harmless f ->
  wp U (conn_set p f) (kept w) w.
Proof.
  intros [I1 I2 I3 I4 I5 I6 I7 I8 I9 I10 I11 I12] [c0 Hc0] Hf.
  unfold conn_set, conn_at, modify, wp, mbind, M_bind. rewrite Hc0.
  assert (Hlk : forall q c, w_conns (upd_w_conns (alter f p) w) !! q = Some c ->
            exists c1, w_conns w !! q = Some c1 /\ c_port c = c_port c1 /\
                       c_selected c = c_selected c1 /\
                       (requests_typed c1 -> requests_typed c)).
  { intros q c. simpl. destruct (decide (q = p)) as [->|Hne].
    - rewrite lookup_alter_eq, Hc0. intros [= <-]. exists c0. split; [done|]. apply Hf.
    - rewrite lookup_alter_ne by done. intros Hq. by exists c. }
  assert (Hdom : forall q, is_Some (w_conns (upd_w_conns (alter f p) w) !! q) <->
                           is_Some (w_conns w !! q)).
  { intros q. simpl. apply lookup_alter_is_Some. }
  split; [split|]; simpl in *.
  - done.
  - intros q. rewrite Hdom. apply I2.
  - done.
  - done.
  - done.
  - intros q c Hq. destruct (Hlk _ _ Hq) as (c1 & H1 & _ & -> & _). by apply I6.
  - intros i port a q Hport Hin. rewrite Hdom. by eapply I7.
  - intros q c Hq. destruct (Hlk _ _ Hq) as (c1 & H1 & -> & _). by eapply I8.
  - done.
  - intros q. rewrite Hdom. apply I10.
  - done.
  - intros q c Hq. destruct (Hlk _ _ Hq) as (c1 & H1 & _ & _ & Ht). by eapply Ht, I12.
  - split; [|eauto]. intros q c Hq. simpl. destruct (decide (q = p)) as [->|Hne].
    + rewrite lookup_alter_eq, Hq. exists (f c). split; [done|]. apply Hf.
    + rewrite lookup_alter_ne by done. by exists c.
Qed.

Lemma conn_at_reads p w : live w p -> reads (conn_at p) w.
Proof. intros [c Hc]. exists c. unfold conn_at. by rewrite Hc. Qed.

Lemma conn_at_Done p w c w' : conn_at p w = Done (c, w') -> w_conns w !! p = Some c /\ w' = w.
Proof. unfold conn_at. destruct (w_conns w !! p); by intros [= -> ->]. Qed.

End steps.

(** ** What reading needs

    While a connection is being destroyed it has left the controller's vector
    but is still in the store, and the controller still points to it.  Sorting
    and pinging only need this much. *)
Record readable (w : world) : Prop := {
  rd_connections : forall p, p ∈ k_connections (ctl w) -> live w p;
  rd_selected : forall p, k_selected (ctl w) = Some p -> live w p;
  rd_ch_selected : forall p, ch_selected (w_ch w) = Some p -> live w p;
  rd_port : forall p c, w_conns w !! p = Some c ->
    exists port, w_ports w !! c_port c = Some port /\ p_candidates port <> [];
}.

Lemma inv_readable w : ice_inv w -> readable w.
Proof.
  intros Hi. split.
  - intros p. apply (inv_live w Hi).
  - intros p. rewrite (inv_selected w Hi). intros Hp.
    by apply (inv_live w Hi), (inv_selected_live w Hi).
  - intros p Hp. by apply (inv_live w Hi), (inv_selected_live w Hi).
  - apply (inv_port w Hi).
Qed.

Lemma unpinged_live w p : ice_inv w -> p ∈ k_unpinged (ctl w) -> live w p.
Proof.
  intros Hi Hp. apply (rd_connections w (inv_readable w Hi)). rewrite <- (inv_split w Hi).
  apply elem_of_app. by left.
Qed.

(** A step that leaves every pointer alone. *)
Definition quiet (w w' : world) : Prop :=
  w_conns w' = w_conns w /\ w_ports w' = w_ports w /\ w_next w' = w_next w /\
  ch_controller (w_ch w') = ch_controller (w_ch w) /\
  ch_selected (w_ch w') = ch_selected (w_ch w) /\
  ch_had_connection (w_ch w') = ch_had_connection (w_ch w).

#[export] Instance quiet_preorder : PreOrder quiet.
Proof.
  split; [by intros w|]. intros w1 w2 w3 (A1 & A2 & A3 & A4 & A5 & A6) (B1 & B2 & B3 & B4 & B5 & B6).
  split_and!; congruence.
Qed.

Lemma quiet_kept w w' : quiet w w' -> ice_inv w -> ice_inv w' /\ ext w w'.
Proof.
  intros (A1 & A2 & A3 & A4 & A5 & A6). apply inv_same; try done; by rewrite ?A4, ?A6.
Qed.

Lemma quiet_readable w w' : quiet w w' -> readable w -> readable w'.
Proof.
  intros (A1 & A2 & A3 & A4 & A5 & A6) [R1 R2 R3 R4].
  split; unfold live; rewrite ?A1, ?A2, ?A4, ?A5; done.
Qed.
