(* ===== verification/IceControllerTheory.v ===== *)
(** * Theory of the ICE controller

    The comparison of connections is a strict weak order, so the sort is
    defined and its first element is a best connection; the choice of the
    connection to ping; and the invariant through the controller's steps. *)

From S2P Require Import Prelude ByteBuffer StringEncode IpAddress Stun.
From S2P Require Import IceTypes IcePort IceController IceInvariant.
Local Open Scope Z_scope.

(** ** The comparison *)

(** What the comparison amounts to: writable first, then receiving, then the
    higher priority, then the lower round-trip time. *)
Definition better (a b : ranked) : Prop :=
  let wa := conn_writable (rk_conn a) in let wb := conn_writable (rk_conn b) in
  let ra := c_receiving (rk_conn a) in let rb := c_receiving (rk_conn b) in
  (wa = true /\ wb = false) \/
  (wa = wb /\
   ((ra = true /\ rb = false) \/
    (ra = rb /\
     (rk_priority b < rk_priority a \/
      (rk_priority a = rk_priority b /\ c_rtt (rk_conn a) < c_rtt (rk_conn b)))))).

Lemma nonzero_state_writable c : nonzero_state c = negb (conn_writable c).
Proof. unfold nonzero_state, conn_writable. by destruct (c_write_state c). Qed.

Lemma conn_before_better a b : conn_before a b = true <-> better a b.
Proof.
  unfold conn_before, compare_connections, better. rewrite !nonzero_state_writable.
  destruct (conn_writable (rk_conn a)), (conn_writable (rk_conn b)),
    (c_receiving (rk_conn a)), (c_receiving (rk_conn b)); cbn;
    try (split; intros; intuition discriminate);
    try (destruct (rk_priority b <? rk_priority a) eqn:E1;
         [|destruct (rk_priority a <? rk_priority b) eqn:E2]; cbn;
         rewrite ?Z.ltb_lt; split; intros; intuition (lia || discriminate)).
Qed.

Lemma better_irrefl a : ~ better a a.
Proof. unfold better. intuition (lia || congruence). Qed.

Lemma better_trans a b c : better a b -> better b c -> better a c.
Proof.
  unfold better. generalize (conn_writable (rk_conn a)), (conn_writable (rk_conn b)),
    (conn_writable (rk_conn c)), (c_receiving (rk_conn a)), (c_receiving (rk_conn b)),
    (c_receiving (rk_conn c)).
  intros [] [] [] [] [] [] H1 H2; intuition (discriminate || lia).
Qed.

Lemma better_split a b c : better a c -> better a b \/ better b c.
Proof.
  unfold better. generalize (conn_writable (rk_conn a)), (conn_writable (rk_conn b)),
    (conn_writable (rk_conn c)), (c_receiving (rk_conn a)), (c_receiving (rk_conn b)),
    (c_receiving (rk_conn c)).
  intros wa wb wc ra rb rc H.
  assert (rk_priority b < rk_priority a \/ rk_priority c < rk_priority b \/
    (rk_priority a < rk_priority c) \/ (rk_priority a = rk_priority b /\
      rk_priority b = rk_priority c /\ (c_rtt (rk_conn a) < c_rtt (rk_conn b) \/
        c_rtt (rk_conn b) < c_rtt (rk_conn c) \/ c_rtt (rk_conn c) <= c_rtt (rk_conn a)))) as Hs by lia.
  revert H. destruct wa, wb, wc, ra, rb, rc; intuition (discriminate || lia).
Qed.

(** [sort_and_switch_connection] sorts with a comparison that
    [std::stable_sort] may be given: the lambda is irreflexive and transitive
    and its incomparability is transitive, so it is a strict weak order; it
    ranks a writable connection above one that is not, then a receiving one,
    then the higher pair priority, then the lower round-trip time; the two
    tests of the raw write state never decide. *)
Theorem conn_before_strict_weak :
  (forall a, conn_before a a = false) /\
  (forall a b c, conn_before a b = true -> conn_before b c = true -> conn_before a c = true) /\
  (forall a b c, conn_before a c = true -> conn_before a b = true \/ conn_before b c = true) /\
  (forall a b, conn_before a b = true <-> better a b).
Proof.
  split_and!.
  - intros a. apply not_true_iff_false. rewrite conn_before_better. apply better_irrefl.
  - intros a b c. rewrite !conn_before_better. apply better_trans.
  - intros a b c. rewrite !conn_before_better. apply better_split.
  - apply conn_before_better.
Qed.

(** ** Stable sorting *)

Section stable_sort.
Context {A : Type} (before : A -> A -> bool).
Hypothesis before_trans : forall a b c,
  before a b = true -> before b c = true -> before a c = true.
Hypothesis before_irrefl : forall a, before a a = false.
Hypothesis before_split : forall a b c,
  before a c = true -> before a b = true \/ before b c = true.

(** [a] may stand before [b]. *)
Definition not_after (a b : A) : Prop := before b a = false.

Lemma not_after_trans a b c : not_after a b -> not_after b c -> not_after a c.
Proof.
  unfold not_after. intros H1 H2. destruct (before c a) eqn:E; [|done].
  destruct (before_split c b a E); congruence.
Qed.

Lemma before_not_after a b : before a b = true -> not_after a b.
Proof.
  unfold not_after. intros H. destruct (before b a) eqn:E; [|done].
  pose proof (before_trans _ _ _ H E) as Haa. by rewrite before_irrefl in Haa.
Qed.

Lemma stable_insert_perm x l : stable_insert before x l ≡ₚ x :: l.
Proof.
  induction l as [|y l IH]; simpl; [done|]. case_match; [done|].
  rewrite IH. apply Permutation_swap.
Qed.

Lemma stable_insert_sorted x l :
  StronglySorted not_after l -> StronglySorted not_after (stable_insert before x l).
Proof.
  induction 1 as [|y l Hs IH Hall]; simpl; [repeat constructor|].
  destruct (before x y) eqn:E.
  - apply before_not_after in E. constructor; [by constructor|].
    constructor; [done|]. eapply Forall_impl; [exact Hall|].
    intros z Hz. by apply not_after_trans with y.
  - constructor; [done|]. rewrite stable_insert_perm. by constructor.
Qed.

Lemma stable_sort_fold l acc :
  StronglySorted not_after acc ->
  StronglySorted not_after (fold_left (fun acc x => stable_insert before x acc) l acc) /\
  fold_left (fun acc x => stable_insert before x acc) l acc ≡ₚ l ++ acc.
Proof.
  revert acc. induction l as [|x l IH]; intros acc Hacc; simpl; [done|].
  destruct (IH (stable_insert before x acc)) as [H1 H2]; [by apply stable_insert_sorted|].
  split; [done|]. rewrite H2, stable_insert_perm. by rewrite Permutation_middle.
Qed.

Lemma stable_sort_perm l : stable_sort before l ≡ₚ l.
Proof.
  unfold stable_sort. destruct (stable_sort_fold l []) as [_ H]; [constructor|].
  by rewrite H, app_nil_r.
Qed.

Lemma stable_sort_head x l l' :
  stable_sort before l = x :: l' -> forall y, y ∈ l -> before y x = false.
Proof.
  intros E y Hy. destruct (stable_sort_fold l []) as [Hs _]; [constructor|].
  fold (stable_sort before l) in Hs. rewrite E in Hs.
  rewrite <- stable_sort_perm, E in Hy. apply elem_of_cons in Hy as [->|Hy].
  - apply before_irrefl.
  - inversion Hs as [|? ? _ Hall]; subst. rewrite Forall_forall in Hall. by apply Hall.
Qed.
End stable_sort.

Lemma conn_sort_perm l : stable_sort conn_before l ≡ₚ l.
Proof.
  apply stable_sort_perm.
  - intros a b c. rewrite !conn_before_better. apply better_trans.
  - intros a. apply not_true_iff_false. rewrite conn_before_better. apply better_irrefl.
  - intros a b c. rewrite !conn_before_better. apply better_split.
Qed.

Lemma conn_sort_best x l l' :
  stable_sort conn_before l = x :: l' -> forall y, y ∈ l -> ~ better y x.
Proof.
  intros E y Hy. rewrite <- conn_before_better, not_true_iff_false.
  eapply stable_sort_head; [..|exact E|exact Hy].
  - intros a b c. rewrite !conn_before_better. apply better_trans.
  - intros a. apply not_true_iff_false. rewrite conn_before_better. apply better_irrefl.
  - intros a b c. rewrite !conn_before_better. apply better_split.
Qed.

(** ** Sorting the live connections *)

(** [r] is what the sort sees of the live connection [p] in [w]. *)
Definition ranks (w : world) (p : ptr) (r : ranked) : Prop :=
  rk_ptr r = p /\ w_conns w !! p = Some (rk_conn r) /\
  exists port local, w_ports w !! c_port (rk_conn r) = Some port /\
    head (p_candidates port) = Some local /\
    rk_priority r = pair_priority (cand_priority local) (cand_priority (c_remote (rk_conn r))).

Lemma rank_live w p :
  readable w -> live w p -> exists r, rank p w = Done (r, w) /\ ranks w p r.
Proof.
  intros Hi [c Hc]. destruct (rd_port w Hi p c Hc) as (port & Hport & Hne).
  destruct (p_candidates port) as [|local cs] eqn:Ecs; [done|].
  eexists. split.
  - unfold rank, conn_priority, local_candidate, conn_at, port_at, lift, mbind, M_bind, mret, M_ret.
    rewrite Hc, Hport, Ecs. cbn [head deref]. reflexivity.
  - split_and!; [done|done|]. exists port, local. by rewrite Ecs.
Qed.

(** The world after [_connections] was put in the order [l]. *)
Definition reorder (l : list ptr) (w : world) : world :=
  upd_w_ch (upd_ch_controller (upd_k_connections (fun _ => l))) w.

Lemma reorder_kept l w :
  l ≡ₚ k_connections (ctl w) -> ice_inv w -> ice_inv (reorder l w) /\ ext w (reorder l w).
Proof. intros Hl Hi. by apply inv_same. Qed.

(** What the controller answers: the order is a sort of the connections, and a
    connection is proposed only when it is a best one, can be sent on, is not
    the selected one, and is at least ten milliseconds faster than it. *)
Definition sort_result (w : world) (o : option ptr) (l : list ranked) : Prop :=
  exists rs, Forall2 (ranks w) (k_connections (ctl w)) rs /\
  l = stable_sort conn_before rs /\
  match l with
  | [] => o = None
  | top :: _ =>
      (forall r, r ∈ rs -> ~ better r top) /\
      o = if negb (ready_to_send (rk_conn top)) ||
             bool_decide (k_selected (ctl w) = Some (rk_ptr top)) then None
          else match k_selected (ctl w) ≫= (fun s => w_conns w !! s) with
               | None => Some (rk_ptr top)
               | Some c => if c_rtt (rk_conn top) <=? c_rtt c - k_min_improvement
                           then Some (rk_ptr top) else None
               end
  end.

Lemma sort_and_switch_spec w :
  readable w ->
  exists o l, sort_and_switch_connection w = Done (o, reorder (map rk_ptr l) w) /\
    sort_result w o l /\ map rk_ptr l ≡ₚ k_connections (ctl w).
Proof.
  intros Hi.
  destruct (reads_mapM_list rank (k_connections (ctl w)) w (ranks w)) as (rs & E & HF).
  { intros p Hp. apply rank_live; [done|]. by apply rd_connections. }
  assert (Hrs : map rk_ptr rs = k_connections (ctl w)).
  { clear E. induction HF as [|p r ps rs' [Hr _] _ IH]; simpl; congruence. }
  set (l := stable_sort conn_before rs).
  assert (Hperm : map rk_ptr l ≡ₚ k_connections (ctl w))
    by (unfold l; rewrite conn_sort_perm; by rewrite Hrs).
  assert (Esort : sort_and_switch_connection w =
    (match l with
     | [] => mret None
     | top :: _ =>
         if negb (ready_to_send (rk_conn top)) ||
            bool_decide (k_selected (ctl w) = Some (rk_ptr top)) then mret None
         else match k_selected (ctl w) with
              | None => mret (Some (rk_ptr top))
              | Some s => selected ← conn_at s;
                  if c_rtt (rk_conn top) <=? c_rtt selected - k_min_improvement
                  then mret (Some (rk_ptr top)) else mret None
              end
     end) (reorder (map rk_ptr l) w)).
  { unfold sort_and_switch_connection, controller, gets, mbind, M_bind. rewrite E. done. }
  destruct l as [|top l'] eqn:El.
  { exists None, []. split_and!; [exact Esort| |done].
    exists rs. split_and!; [done|done|done]. }
  set (sel := k_selected (ctl w) ≫= (fun s => w_conns w !! s)).
  eexists _, (top :: l'). split_and!; [|exists rs; split_and!; [done|by rewrite <- El| |reflexivity]|done].
  - rewrite Esort. destruct (negb _ || _); [reflexivity|].
    unfold sel. destruct (k_selected (ctl w)) as [s|] eqn:Es; [|reflexivity].
    destruct (rd_selected w Hi s Es) as [c Hc].
    unfold conn_at, mbind, M_bind. cbn [option_bind w_conns reorder upd_w_ch]. rewrite Hc.
    by destruct (_ <=? _).
  - by apply (conn_sort_best top rs l').
Qed.

(** ** The two sets *)

Lemma set_insert_perm p s : p ∉ s -> set_insert p s ≡ₚ p :: s.
Proof.
  induction s as [|q s IH]; intros Hp; simpl; [done|].
  apply not_elem_of_cons in Hp as [Hne Hp]. case_bool_decide; [done|].
  rewrite bool_decide_eq_false_2 by done. rewrite (IH Hp). apply Permutation_swap.
Qed.

Lemma elem_of_set_insert p q s : q ∈ set_insert p s <-> q = p \/ q ∈ s.
Proof.
  induction s as [|r s IH]; simpl; [by rewrite list_elem_of_singleton, elem_of_nil; tauto|].
  repeat case_bool_decide; rewrite ?elem_of_cons, ?IH; subst; intuition.
Qed.

Lemma set_insert_all_perm ps s :
  NoDup ps -> (forall p, p ∈ ps -> p ∉ s) -> set_insert_all ps s ≡ₚ ps ++ s.
Proof.
  unfold set_insert_all. revert s. induction ps as [|p ps IH]; intros s Hn Hd; simpl; [done|].
  apply NoDup_cons in Hn as [Hp Hn]. rewrite IH; [|done|].
  - rewrite set_insert_perm by (apply Hd; left). by rewrite Permutation_middle.
  - intros q Hq. rewrite elem_of_set_insert. intros [->|Hqs]; [done|].
    by apply (Hd q); [right|].
Qed.

Lemma set_erase_notin p s : p ∉ s -> set_erase p s = s.
Proof.
  intros Hp. unfold set_erase. induction s as [|q s IH]; [done|].
  apply not_elem_of_cons in Hp as [Hne Hp]. rewrite filter_cons, decide_True by done.
  by rewrite (IH Hp).
Qed.

Lemma set_erase_app p s t : set_erase p (s ++ t) = set_erase p s ++ set_erase p t.
Proof. apply filter_app. Qed.

Lemma set_erase_perm p s t : s ≡ₚ t -> set_erase p s ≡ₚ set_erase p t.
Proof. intros H. unfold set_erase. by rewrite H. Qed.

Lemma erase_first_nodup p l : NoDup l -> erase_first p l = set_erase p l.
Proof.
  induction 1 as [|q l Hq Hl IH]; [done|]. simpl. unfold set_erase. rewrite filter_cons.
  case_bool_decide; case_decide; try done.
  - subst. by rewrite <- (set_erase_notin p l) at 1.
  - f_equal. apply IH.
Qed.

Lemma elem_of_set_erase p q s : q ∈ set_erase p s <-> q ∈ s /\ q <> p.
Proof. unfold set_erase. rewrite list_elem_of_filter. tauto. Qed.

(** ** The invariant through the controller *)

Section controller_steps.
Context (U : undef -> Prop).

Lemma mark_connection_pinged_kept p w :
  ice_inv w -> live w p -> wp U (mark_connection_pinged p) (kept w) w.
Proof.
  intros Hi Hp. unfold wp, mark_connection_pinged, controller_set, channel_set, modify.
  apply (inv_live w Hi) in Hp. rewrite <- (inv_split w Hi) in Hp.
  pose proof (inv_nodup w Hi) as Hn. rewrite <- (inv_split w Hi) in Hn.
  apply NoDup_app in Hn as (Hn1 & Hd & Hn2).
  destruct (decide (p ∈ k_pinged (ctl w))) as [Hin|Hin];
    [|apply elem_of_app in Hp as [Hp|Hp]; [|done]];
    (apply inv_same; [try done; simpl..|done]);
    rewrite ?bool_decide_eq_true_2, ?bool_decide_eq_false_2 by done; try done.
  cbn [upd_k_unpinged upd_k_pinged k_unpinged k_pinged].
  rewrite set_insert_perm by done. simpl. rewrite <- Permutation_middle.
  assert (set_erase p (k_unpinged (ctl w)) ++ [p] ≡ₚ k_unpinged (ctl w)) as He.
  { apply list_elem_of_split in Hp as (l1 & l2 & E). rewrite E in Hn1 |- *.
    rewrite NoDup_app in Hn1. destruct Hn1 as (_ & Hd1 & Hn1).
    apply NoDup_cons in Hn1 as [Hp2 _].
    assert (p ∉ l1) by (intros Hx; apply (Hd1 p Hx); left).
    rewrite set_erase_app. unfold set_erase at 2. rewrite filter_cons, decide_False by tauto.
    fold (set_erase p l2). rewrite !set_erase_notin by done.
    rewrite <- app_assoc. apply Permutation_app_head. by rewrite Permutation_app_comm. }
  rewrite <- He at 2. rewrite <- app_assoc. simpl. by rewrite Permutation_middle.
Qed.

(** Refilling the unpinged set when no connection in it can be pinged. *)
Lemma refill_kept w :
  ice_inv w ->
  wp U (controller_set (fun k =>
         upd_k_pinged (fun _ => []) (upd_k_unpinged (set_insert_all (k_pinged k)) k)))
    (kept w) w.
Proof.
  intros Hi. unfold wp, controller_set, channel_set, modify.
  pose proof (inv_nodup w Hi) as Hn. rewrite <- (inv_split w Hi) in Hn.
  apply NoDup_app in Hn as (Hn1 & Hd & Hn2).
  apply inv_same; try done; simpl. rewrite app_nil_r, set_insert_all_perm by set_solver.
  apply Permutation_app_comm.
Qed.
End controller_steps.

(** ** Choosing the connection to ping *)

Lemma controller_weak_reads w : readable w -> reads controller_weak w.
Proof.
  intros Hi. unfold controller_weak. apply reads_bind; [by eexists|].
  intros k [= <-]. destruct (k_selected (ctl w)) as [s|] eqn:Es; [|apply reads_ret].
  apply reads_bind; [by apply conn_at_reads, rd_selected|]. intros. apply reads_ret.
Qed.

Lemma past_interval_reads c now w : readable w -> reads (is_connection_past_ping_interval c now) w.
Proof.
  intros Hi. unfold is_connection_past_ping_interval, get_connection_ping_interval.
  apply reads_bind; [|intros; apply reads_ret].
  case_match; [apply reads_ret|]. apply reads_bind; [by apply controller_weak_reads|].
  intros b _. case_match; apply reads_ret.
Qed.

Lemma is_pingable_reads p now w : readable w -> live w p -> reads (is_pingable p now) w.
Proof.
  intros Hi Hp. unfold is_pingable. apply reads_bind; [by apply conn_at_reads|].
  intros c _. case_match; [apply reads_ret|].
  apply reads_bind; [by apply controller_weak_reads|]. intros [] _; [apply reads_ret|].
  by apply past_interval_reads.
Qed.

(** [is_pingable] as a predicate on the world. *)
Definition pingable (w : world) (now : Z) (p : ptr) : Prop := is_pingable p now w = Done (true, w).

Definition last_ping (w : world) (p : ptr) : Z :=
  match w_conns w !! p with Some c => c_last_ping_sent c | None => 0 end.

(** The connection found so far is a pingable one of [seen], and no pingable
    one of [seen] was pinged longer ago. *)
Definition least_pinged (w : world) (now : Z) (seen : list ptr) (o : option ptr) : Prop :=
  match o with
  | None => forall p, p ∈ seen -> ~ pingable w now p
  | Some p => p ∈ seen /\ pingable w now p /\ live w p /\
              forall q, q ∈ seen -> pingable w now q -> last_ping w p <= last_ping w q
  end.

Section choose.
Context `{IceEnv}.

Lemma least_pinged_step w now seen o p b :
  least_pinged w now seen o -> live w p -> is_pingable p now w = Done (b, w) ->
  least_pinged w now (seen ++ [p])
    (if negb b then o
     else match o with
          | None => Some p
          | Some q => if last_ping w p <? last_ping w q then Some p else Some q
          end).
Proof.
  intros Ho Hp Eb. destruct b; cbn [negb].
  - destruct o as [q|]; simpl in Ho.
    + destruct Ho as (Hq & Hpq & Hlq & Hmin). destruct (last_ping w p <? last_ping w q) eqn:El.
      * split_and!; [set_solver|done|done|]. intros r Hr Hpr.
        apply elem_of_app in Hr as [Hr|Hr%list_elem_of_singleton]; [|subst; lia].
        specialize (Hmin r Hr Hpr). lia.
      * split_and!; [set_solver|done|done|]. intros r Hr Hpr.
        apply elem_of_app in Hr as [Hr|Hr%list_elem_of_singleton]; [by apply Hmin|subst; lia].
    + split_and!; [set_solver|done|done|]. intros r Hr Hpr.
      apply elem_of_app in Hr as [Hr|Hr%list_elem_of_singleton]; [|subst; lia].
      by destruct (Ho r Hr).
  - assert (Hnp : ~ pingable w now p) by (unfold pingable; congruence).
    destruct o as [q|]; simpl in *.
    + destruct Ho as (Hq & Hpq & Hlq & Hmin). split_and!; [set_solver|done|done|].
      intros r Hr Hpr. apply elem_of_app in Hr as [Hr|Hr%list_elem_of_singleton]; [by apply Hmin|].
      by subst.
    + intros r Hr. apply elem_of_app in Hr as [Hr|Hr%list_elem_of_singleton]; [by apply Ho|].
      by subst.
Qed.

Lemma find_more_pingable_spec now w ps : readable w ->
  forall seen o, (forall p, p ∈ ps -> live w p) -> least_pinged w now seen o ->
  exists o', find_more_pingable now ps o w = Done (o', w) /\
             least_pinged w now (seen ++ ps) o'.
Proof.
  intros Hi. induction ps as [|p ps IH]; intros seen o Hps Ho.
  { exists o. simpl. by rewrite app_nil_r. }
  assert (Hp : live w p) by (apply Hps; left).
  destruct (is_pingable_reads p now w Hi Hp) as [b Eb].
  pose proof (least_pinged_step w now seen o p b Ho Hp Eb) as Hstep.
  destruct (IH (seen ++ [p])
    (if negb b then o
     else match o with
          | None => Some p
          | Some q => if last_ping w p <? last_ping w q then Some p else Some q
          end)) as (o' & E' & Ho'); [intros q Hq; apply Hps; by right|done|].
  exists o'. rewrite <- app_assoc in Ho'. split; [|done].
  rewrite <- E'. cbn [find_more_pingable]. unfold mbind at 1, M_bind. rewrite Eb.
  destruct b; cbn [negb]; [|done].
  destruct Hp as [c Hc]. unfold mbind, M_bind, mret, M_ret, conn_at. rewrite Hc.
  destruct o as [q|]; [|done]. simpl in Ho. destruct Ho as (_ & _ & [cq Hcq] & _).
  rewrite Hcq. unfold more_pingable, last_ping. by rewrite Hc, Hcq.
Qed.

Lemma find_next_kept (U : undef -> Prop) now w :
  ice_inv w ->
  wp U (find_next_pingable_connection now)
    (fun o w' => (ice_inv w' /\ ext w w') /\ forall p, o = Some p -> live w' p) w.
Proof.
  intros Hi. pose proof (inv_readable w Hi) as Hr0. unfold find_next_pingable_connection.
  apply wp_bind, wp_reads; [by eexists|]. intros k [= <-].
  apply wp_bind, wp_reads.
  { destruct (k_selected (ctl w)) as [s|] eqn:Es; [|apply reads_ret].
    apply reads_bind; [by apply conn_at_reads, rd_selected|].
    intros c _. case_match; [by apply past_interval_reads|apply reads_ret]. }
  intros [] _.
  { apply wp_ret. split; [done|]. intros p Hp. by apply rd_selected. }
  apply wp_bind, wp_reads.
  { apply reads_existsM. intros p Hp. apply is_pingable_reads; [done|by apply unpinged_live]. }
  intros has _. apply wp_bind.
  eapply wp_mono with (Q := kept w).
  { apply wp_when; [intros _; by apply refill_kept|by intros _]. }
  intros _ w1 [Hi1 He1]. apply wp_bind, wp_reads; [by eexists|]. intros k [= <-].
  destruct (find_more_pingable_spec now w1 (k_unpinged (ctl w1)) (inv_readable _ Hi1) [] None)
    as (o & E & Ho); [intros p Hp; by apply unpinged_live|by intros p Hp%elem_of_nil|].
  unfold wp. rewrite E. split; [done|]. intros p ->. by destruct Ho as (_ & _ & Hl & _).
Qed.

Lemma select_connection_kept (U : undef -> Prop) last w :
  ice_inv w ->
  wp U (select_connection_to_ping last)
    (fun r w' => (ice_inv w' /\ ext w w') /\ forall p, fst r = Some p -> live w' p) w.
Proof.
  intros Hi. pose proof (inv_readable w Hi) as Hr0. unfold select_connection_to_ping.
  apply wp_bind, wp_reads; [by eexists|]. intros k [= <-].
  apply wp_bind, wp_reads.
  { apply reads_existsM. intros p Hp. apply reads_bind; [|intros; apply reads_ret].
    by apply conn_at_reads, rd_connections. }
  intros more _. apply wp_bind, wp_reads; [by apply controller_weak_reads|].
  intros weak _. apply wp_bind.
  assert (Ht : wp U TimeMillis (kept w) w) by (unfold wp, TimeMillis; by apply inv_same).
  eapply wp_mono; [exact Ht|]. intros now w1 [Hi1 He1]. apply wp_bind.
  case_match.
  - eapply wp_mono; [by apply find_next_kept|]. intros o w2 [[Hi2 He2] Ho].
    apply wp_ret. split; [|done]. split; [done|]. by trans w1.
  - apply wp_ret. apply wp_ret. by split.
Qed.

(** the connection to ping is the one pinged longest ago: when the
    selected connection is not itself due, [find_next_pingable_connection]
    ends normally, changes the two ping sets only (refilling the unpinged
    one exactly when it holds no pingable connection), and returns a
    pingable connection of the unpinged set no other pingable one of which
    was pinged earlier, or nothing when none is pingable. *)
Theorem next_ping_least_recent (now : Z) (w : world) :
  ice_inv w ->
  (forall s c, k_selected (ctl w) = Some s -> w_conns w !! s = Some c ->
     conn_writable c = true -> is_connection_past_ping_interval c now w = Done (false, w)) ->
  exists o w', find_next_pingable_connection now w = Done (o, w') /\
    (w' = w \/ (forall p, p ∈ k_unpinged (ctl w) -> ~ pingable w now p) /\
               k_pinged (ctl w') = []) /\
    k_connections (ctl w') = k_connections (ctl w) /\ w_conns w' = w_conns w /\
    least_pinged w' now (k_unpinged (ctl w')) o.
Proof.
  intros Hi Hdue. pose proof (inv_readable w Hi) as Hr0.
  enough (wp (fun _ => False) (find_next_pingable_connection now) (fun o w' =>
    (w' = w \/ (forall p, p ∈ k_unpinged (ctl w) -> ~ pingable w now p) /\
               k_pinged (ctl w') = []) /\
    k_connections (ctl w') = k_connections (ctl w) /\ w_conns w' = w_conns w /\
    least_pinged w' now (k_unpinged (ctl w')) o) w) as Hwp.
  { unfold wp in Hwp. destruct (find_next_pingable_connection now w) as [[o w']| |]; [|done..].
    by exists o, w'. }
  unfold find_next_pingable_connection.
  apply wp_bind, wp_reads; [by eexists|]. intros k [= <-].
  apply wp_bind, wp_reads.
  { destruct (k_selected (ctl w)) as [s|] eqn:Es; [|apply reads_ret].
    apply reads_bind; [by apply conn_at_reads, rd_selected|].
    intros c _. case_match; [by apply past_interval_reads|apply reads_ret]. }
  intros due Edue. assert (due = false) as ->.
  { destruct (k_selected (ctl w)) as [s|] eqn:Es; [|by injection Edue].
    destruct (rd_selected w Hr0 s Es) as [c Hc]. unfold mbind, M_bind, conn_at in Edue.
    rewrite Hc in Edue. destruct (conn_writable c) eqn:Ew; [|by injection Edue].
    rewrite (Hdue s c eq_refl Hc Ew) in Edue. by injection Edue. }
  apply wp_bind.
  assert (Hr : forall p, p ∈ k_unpinged (ctl w) -> reads (is_pingable p now) w)
    by (intros p Hp; apply is_pingable_reads; [done|by apply unpinged_live]).
  apply wp_reads; [by apply reads_existsM|]. intros has Eh.
  assert (Hloop : forall w1, ice_inv w1 ->
    exists o, find_more_pingable now (k_unpinged (ctl w1)) None w1 = Done (o, w1) /\
              least_pinged w1 now (k_unpinged (ctl w1)) o).
  { intros w1 Hi1. apply (find_more_pingable_spec now w1 _ (inv_readable _ Hi1) [] None).
    - intros p Hp. by apply unpinged_live.
    - by intros p Hp%elem_of_nil. }
  apply wp_bind. destruct has; cbn [negb when].
  - apply wp_ret. apply wp_bind, wp_reads; [by eexists|]. intros k [= <-].
    destruct (Hloop w Hi) as (o & E & Ho). unfold wp. rewrite E. by split_and!; [left|..].
  - pose proof (refill_kept (fun _ => False) w Hi) as Hk. unfold wp in Hk |- * at 1.
    cbn [controller_set channel_set modify] in Hk |- *. destruct Hk as [Hi1 He1].
    apply wp_bind, wp_reads; [by eexists|]. intros k [= <-].
    destruct (Hloop _ Hi1) as (o & E & Ho). unfold wp.
    lazymatch goal with |- match ?m with _ => _ end =>
      change m with (find_more_pingable now (k_unpinged (ctl (upd_w_ch
        (upd_ch_controller (fun k => upd_k_pinged (fun _ => [])
           (upd_k_unpinged (set_insert_all (k_pinged k)) k))) w))) None (upd_w_ch
        (upd_ch_controller (fun k => upd_k_pinged (fun _ => [])
           (upd_k_unpinged (set_insert_all (k_pinged k)) k))) w)) end.
    rewrite E.
    split_and!; [right; split; [|done]|done..].
    intros p Hp Hpp. unfold pingable in Hpp.
    by rewrite (existsM_false _ _ _ Hr Eh p Hp) in Hpp.
Qed.
End choose.
