(* ===== verification/IceConnectionTheory.v ===== *)
(** * Connections keep the invariant

    Against the interface [Observer] and its laws: whatever listens to a
    connection, as long as it keeps the pointer invariant, the operations of
    the connection keep it, and never reach an undefined step other than the
    two that [U] allows: an over-read in the integrity check, and the second
    deletion of a request after an error response. *)

From S2P Require Import Prelude ByteBuffer StringEncode IpAddress MessageDigest Stun StunTheory.
From S2P Require Import IceTypes IcePort IceController IceConnection IceInvariant.
From S2P Require Import IceControllerTheory.
Local Open Scope Z_scope.

(** What a connection asks of its observers. *)
Class ObserverLaws `{Observer} (U : undef -> Prop) : Prop := {
  law_state_change p w :
    ice_inv w -> live w p -> wp U (on_connection_state_change p) (kept w) w;
  law_destroyed p w :
    ice_inv w -> live w p -> wp U (on_connection_destroyed p) (fun _ _ => True) w;
  law_read_packet p data ts w :
    ice_inv w -> live w p -> wp U (on_conn_read_packet p data ts) (kept w) w;
}.

(** The datagram reads as the STUN message [m], but for the fields the
    integrity check sets. *)
Definition read_as (data : bytes) (m : StunMessage) : Prop :=
  exists m0, stun_read new_StunMessage (Construct data) = Some m0 /\ m_type m0 = m_type m /\
    m_attrs m0 = m_attrs m /\ m_transaction_id m0 = m_transaction_id m.

(** The datagram, read as a STUN message, has type [t]. *)
Definition stun_type_is (data : bytes) (t : Z) : Prop :=
  exists m, stun_read new_StunMessage (Construct data) = Some m /\ m_type m = t.

Lemma read_as_type data m : read_as data m -> stun_type_is data (m_type m).
Proof. intros (m0 & E & Ht & _). by exists m0. Qed.

Lemma read_as_no_error_code data m :
  read_as data m -> get_error_code_value m = STUN_ERROR_GLOBAL_FAIL.
Proof.
  intros (m0 & E & _ & Ha & _). apply known_no_error_code. rewrite <- Ha.
  by eapply stun_read_known.
Qed.

Lemma GetBE16_cases data pos :
  (exists v, GetBE16 data pos = Done v) \/ GetBE16 data pos = Undef out_of_bounds.
Proof. unfold GetBE16, read_at. case_bool_decide; [left; by eexists|by right]. Qed.

Lemma find_mi_cases fuel data pos mi :
  (exists o, find_mi fuel data pos mi = Done o) \/ find_mi fuel data pos mi = Undef out_of_bounds.
Proof.
  revert pos. induction fuel as [|fuel IH]; intros pos; cbn [find_mi]; [left; by eexists|].
  case_bool_decide; [|left; by eexists].
  destruct (GetBE16_cases data pos) as [[v ->]| ->]; cbn [mbind outcome_bind]; [|by right].
  destruct (GetBE16_cases data (pos + 2)) as [[n ->]| ->]; cbn [mbind outcome_bind]; [|by right].
  destruct (v =? mi); [left; by eexists|apply IH].
Qed.

Lemma validate_message_integrity_outcome sha1 m pw :
  match validate_message_integrity sha1 m pw with
  | Done (i, m') => m_type m' = m_type m /\ m_attrs m' = m_attrs m /\
                    m_transaction_id m' = m_transaction_id m /\ m_integrity m' = i
  | Undef u => u = out_of_bounds
  | Throws _ => False
  end.
Proof.
  unfold validate_message_integrity. destruct (get_attribute _ _); [|done].
  unfold validate_message_integrity_of_type. cbn [m_buffer set_password].
  destruct (negb _ || _); [done|].
  destruct (GetBE16_cases (m_buffer m) 2) as [[len ->]| ->]; cbn [mbind outcome_bind]; [|done].
  destruct (negb _); [done|].
  destruct (find_mi_cases (S (length (m_buffer m))) (m_buffer m) k_stun_header_size
    STUN_ATTR_MESSAGE_INTEGRITY) as [[[pos|] ->]| ->]; cbn [mbind outcome_bind]; [|done..].
  unfold SetBE16, read_at.
  repeat (case_bool_decide; cbn [mbind outcome_bind]; try done);
    destruct (hmac_sha1 _ _ _); done.
Qed.

Section connection_theory.
Context `{IceEnv} (U : undef -> Prop).
(** The integrity check may read past the end of its buffer. *)
Hypothesis U_overread : U out_of_bounds.

(** ** Clock, randomness, socket *)

Lemma TimeMillis_kept w : ice_inv w -> wp U TimeMillis (kept w) w.
Proof. intros. unfold wp, TimeMillis. by apply inv_same. Qed.

Lemma CreateRandomString_kept n w : ice_inv w -> wp U (CreateRandomString n) (kept w) w.
Proof. intros. unfold wp, CreateRandomString. by apply inv_same. Qed.

Lemma port_reads w i : is_Some (w_ports w !! i) -> reads (port_at i) w.
Proof. intros [p Hp]. exists p. unfold port_at. by rewrite Hp. Qed.

Lemma conn_port w p c : ice_inv w -> w_conns w !! p = Some c -> is_Some (w_ports w !! c_port c).
Proof. intros Hi Hc. destruct (inv_port w Hi p c Hc) as (port & E & _). by exists port. Qed.

Lemma port_send_to_kept i data addr w :
  ice_inv w -> is_Some (w_ports w !! i) -> wp U (port_send_to i data addr) (kept w) w.
Proof.
  intros Hi Hp. unfold port_send_to. apply kept_reads_bind; [by apply port_reads|].
  intros port _. case_match; [|by apply kept_ret].
  apply kept_reads_bind; [by eexists|]. intros n _.
  apply kept_bind; [by apply emit_kept|]. intros _ w' _ Hi' _. by apply kept_ret.
Qed.

Lemma send_binding_error_response_kept i m addr code reason w :
  ice_inv w -> is_Some (w_ports w !! i) ->
  wp U (send_binding_error_response i m addr code reason) (kept w) w.
Proof.
  intros Hi Hp. unfold send_binding_error_response.
  apply kept_reads_bind; [by apply port_reads|]. intros port _.
  case_match; [by apply kept_ret|]. destruct (binding_error_response _ _ _ _) as [ok buf].
  case_match; [by apply kept_ret|].
  apply kept_bind; [by apply port_send_to_kept|]. intros _ w' _ Hi' _. by apply kept_ret.
Qed.

(** The gate: a message comes out only of bytes that read as that type. *)
Lemma get_stun_message_kept i data addr w :
  ice_inv w -> is_Some (w_ports w !! i) ->
  wp U (get_stun_message i data addr)
    (fun r w' => kept w r w' /\
       forall m, snd (fst r) = Some m -> read_as data m) w.
Proof.
  intros Hi Hp. unfold get_stun_message. destruct (validate_fingerprint_done data) as [fp Efp].
  apply wp_bind, wp_lift. rewrite Efp.
  assert (Hret : forall b u, wp U (mret (b, None, u))
    (fun (r : bool * option StunMessage * bytes) w' => kept w r w' /\
    forall m, snd (fst r) = Some m -> read_as data m) w) by (intros; by split).
  destruct fp; cbn [negb]; [|apply Hret].
  destruct (stun_read _ _) as [m|] eqn:Er; [|apply Hret].
  assert (Ht : read_as data m) by (by exists m).
  assert (Herr : forall code reason, wp U
    (_ ← send_binding_error_response i m addr code reason; mret (true, None, []))
    (fun (r : bool * option StunMessage * bytes) w' => kept w r w' /\
       forall m, snd (fst r) = Some m -> read_as data m) w).
  { intros. apply wp_bind. eapply wp_mono; [by apply send_binding_error_response_kept|].
    intros a' w' Hk. apply wp_ret. by split. }
  destruct (m_type m =? STUN_BINDING_REQUEST); [|apply wp_ret; split; [done|]; by intros ? [= <-]].
  destruct (get_attribute m _); [|apply Herr]. destruct (get_attribute m _); [|apply Herr].
  destruct (parse_stun_username m) as [[l r]|]; [|apply Herr].
  apply wp_bind, wp_reads; [by apply port_reads|]. intros port _.
  apply wp_bind, wp_lift.
  pose proof (validate_message_integrity_outcome env_sha1 m (ice_pwd (p_ice_params port))) as Hv.
  destruct (validate_message_integrity _ _ _) as [[st m']| |]; [|done|by subst].
  destruct Hv as (Hv & Ha & Hid & _). destruct (negb _).
  - apply wp_bind. eapply wp_mono; [by apply send_binding_error_response_kept|].
    intros a' w' Hk. apply wp_ret. by split.
  - apply wp_ret. split; [done|]. intros ? [= <-].
    destruct Ht as (m0 & E0 & ? & ? & ?). exists m0. split_and!; congruence.
Qed.

(** ** State changes *)

Context `{Observer} `{!ObserverLaws U}.

Lemma conn_at_bind {B} p (k : IceConnection -> M B) w :
  live w p -> (forall c, w_conns w !! p = Some c -> wp U (k c) (kept w) w) ->
  wp U (c ← conn_at p; k c) (kept w) w.
Proof.
  intros Hp Hk. apply kept_reads_bind; [by apply conn_at_reads|].
  intros c E. apply conn_at_Done in E as [E _]. by apply Hk.
Qed.

Lemma conn_set_bind {B} p f (m : M B) w :
  ice_inv w -> live w p ->
  harmless f ->
  (forall w', ice_inv w' -> ext w w' -> live w' p -> wp U m (kept w') w') ->
  wp U (_ ← conn_set p f; m) (kept w) w.
Proof.
  intros Hi Hp Hf Hk. apply kept_bind; [by apply conn_set_kept|].
  intros [] w' _ Hi' He'. apply Hk; [done..|]. by eapply ext_live.
Qed.

Lemma update_receiving_kept p now w :
  ice_inv w -> live w p -> wp U (update_receiving p now) (kept w) w.
Proof.
  intros Hi Hp. unfold update_receiving. apply conn_at_bind; [done|]. intros c Hc.
  case_bool_decide; [by apply kept_ret|].
  apply conn_set_bind; [done..|]. intros w' Hi' _ Hp'. by apply law_state_change.
Qed.

Lemma set_write_state_kept p s w :
  ice_inv w -> live w p -> wp U (set_write_state p s) (kept w) w.
Proof.
  intros Hi Hp. unfold set_write_state. apply conn_at_bind; [done|]. intros c Hc.
  apply conn_set_bind; [done..|]. intros w' Hi' _ Hp'.
  case_bool_decide; [by apply kept_ret|]. by apply law_state_change.
Qed.

Lemma conn_set_state_kept p s w :
  ice_inv w -> live w p -> wp U (conn_set_state p s) (kept w) w.
Proof. intros. by apply conn_set_kept. Qed.

Lemma received_ping_response_kept p rtt w :
  ice_inv w -> live w p -> wp U (received_ping_response p rtt) (kept w) w.
Proof.
  intros Hi Hp. unfold received_ping_response.
  apply conn_set_bind; [done..|]. intros w1 Hi1 _ Hp1.
  apply kept_bind; [by apply TimeMillis_kept|]. intros now w2 _ Hi2 He2.
  pose proof (ext_live _ _ _ He2 Hp1) as Hp2.
  apply conn_set_bind; [done..|]. intros w3 Hi3 _ Hp3.
  apply kept_bind; [by apply update_receiving_kept|]. intros _ w4 _ Hi4 He4.
  pose proof (ext_live _ _ _ He4 Hp3) as Hp4.
  apply kept_bind; [by apply set_write_state_kept|]. intros _ w5 _ Hi5 He5.
  apply conn_set_state_kept; [done|]. by eapply ext_live.
Qed.

Lemma update_conn_state_kept p now w :
  ice_inv w -> live w p -> wp U (update_conn_state p now) (kept w) w.
Proof.
  intros Hi Hp. unfold update_conn_state. apply conn_at_bind; [done|]. intros c Hc.
  apply kept_bind.
  { case_match; [by apply set_write_state_kept|by apply kept_ret]. }
  intros _ w1 _ Hi1 He1. pose proof (ext_live _ _ _ He1 Hp) as Hp1.
  apply conn_at_bind; [done|]. intros c1 Hc1. apply kept_bind.
  { case_match; [by apply set_write_state_kept|by apply kept_ret]. }
  intros _ w2 _ Hi2 He2. apply update_receiving_kept; [done|]. by eapply ext_live.
Qed.

(** ** Pinging *)

Lemma on_stun_send_packet_kept p buf w :
  ice_inv w -> live w p -> wp U (on_stun_send_packet p buf) (kept w) w.
Proof.
  intros Hi Hp. unfold on_stun_send_packet. apply conn_at_bind; [done|]. intros c Hc.
  apply kept_bind; [apply port_send_to_kept; [done|by eapply conn_port]|].
  intros _ w' _ Hi' _. by apply kept_ret.
Qed.

Lemma request_prepare_reads p m w : ice_inv w -> live w p -> reads (request_prepare p m) w.
Proof.
  intros Hi Hp. unfold request_prepare. apply reads_bind; [by apply conn_at_reads|].
  intros c E. apply conn_at_Done in E as [Hc _].
  destruct (inv_port w Hi p c Hc) as (port & Hport & Hne).
  apply reads_bind; [by apply port_reads|]. intros port' _.
  apply reads_bind; [|intros; apply reads_ret].
  unfold local_candidate. apply reads_bind; [by apply port_reads|].
  intros q Eq. unfold port_at in Eq. rewrite Hport in Eq. injection Eq as <-.
  destruct (p_candidates port) as [|l ls] eqn:Ec; [done|]. by exists l.
Qed.

Lemma request_prepare_type p m w msg w' :
  request_prepare p m w = Done (msg, w') -> m_type msg = STUN_BINDING_REQUEST.
Proof.
  assert (Hfp : forall x, m_type (snd (add_fingerprint x)) = m_type x).
  { intros x. unfold add_fingerprint. destruct (stun_write _ _) as [ok buf].
    by destruct (negb ok). }
  assert (Hmi : forall x pw, m_type (snd (add_message_integrity env_sha1 x pw)) = m_type x).
  { intros x pw. unfold add_message_integrity, add_message_integrity_of_type.
    destruct (stun_write _ _) as [ok buf]. destruct (negb ok); [done|].
    by destruct (hmac_sha1 _ _ _). }
  unfold request_prepare, mbind, M_bind.
  destruct (conn_at p w) as [[c w1]| |]; [|done..].
  destruct (port_at (c_port c) w1) as [[port w2]| |]; [|done..].
  destruct (local_candidate c w2) as [[local w3]| |]; [|done..].
  intros E. apply mret_Done in E as [-> _]. rewrite Hfp, Hmi. reflexivity.
Qed.

Lemma requests_send_kept p m w :
  ice_inv w -> live w p -> wp U (requests_send p m) (kept w) w.
Proof.
  intros Hi Hp. unfold requests_send.
  apply kept_reads_bind; [by apply request_prepare_reads|]. intros msg Emsg.
  apply request_prepare_type in Emsg.
  apply conn_set_bind; [done|done| |].
  { intros c. split_and!; [done..|]. intros Hr id r Hid. simpl in Hid.
    apply lookup_insert_Some in Hid as [[_ <-]|[_ Hid]]; [done|]. by eapply Hr. }
  intros w1 Hi1 _ Hp1.
  apply kept_bind; [by apply TimeMillis_kept|]. intros ts w2 _ Hi2 He2.
  pose proof (ext_live _ _ _ He2 Hp1) as Hp2.
  apply conn_set_bind; [done|done| |].
  { intros c. split_and!; [done..|]. intros Hr id r Hid. simpl in Hid.
    apply lookup_alter_Some in Hid as [(_ & r' & Hid & ->)|[_ Hid]]; simpl; by eapply Hr. }
  intros w3 Hi3 _ Hp3.
  destruct (stun_write msg []) as [ok buf]. case_match; [by apply kept_ret|].
  by apply on_stun_send_packet_kept.
Qed.

Lemma conn_ping_kept p now w : ice_inv w -> live w p -> wp U (conn_ping p now) (kept w) w.
Proof.
  intros Hi Hp. unfold conn_ping.
  apply conn_set_bind; [done..|]. intros w1 Hi1 _ Hp1.
  apply kept_bind; [by apply CreateRandomString_kept|]. intros id w2 _ Hi2 He2.
  pose proof (ext_live _ _ _ He2 Hp1) as Hp2.
  apply conn_set_bind; [done..|]. intros w3 Hi3 _ Hp3.
  apply kept_bind; [by apply requests_send_kept|]. intros _ w4 _ Hi4 He4.
  pose proof (ext_live _ _ _ He4 Hp3) as Hp4.
  apply kept_bind; [by apply conn_set_state_kept|]. intros _ w5 _ Hi5 He5.
  pose proof (ext_live _ _ _ He5 Hp4) as Hp5. by apply conn_set_kept.
Qed.

(** ** Responses *)

(** After [conn_destroy] the address is free: using it again is undefined. *)
Lemma destroy_then_delete_request p id w :
  ice_inv w -> live w p -> U use_after_free ->
  wp U (_ ← conn_destroy p; delete_request p id) (fun _ _ => False) w.
Proof.
  intros Hi Hp Hu. apply wp_bind. unfold conn_destroy. apply wp_bind.
  eapply wp_mono; [by apply law_destroyed|]. intros _ w1 _. apply wp_bind.
  unfold wp at 1, conn_at. destruct (w_conns w1 !! p); [|done].
  unfold wp at 1, modify. unfold wp, delete_request, conn_set, conn_at, mbind, M_bind. simpl.
  by rewrite lookup_delete_eq.
Qed.

Lemma error_response_double_free p r m id w :
  ice_inv w -> live w p -> U use_after_free ->
  get_error_code_value m = STUN_ERROR_GLOBAL_FAIL ->
  wp U (_ ← on_connection_request_error_response p r m; delete_request p id)
    (fun _ _ => False) w.
Proof.
  intros Hi Hp Hu Hcode. unfold on_connection_request_error_response, elapsed.
  apply wp_bind. apply wp_bind. apply wp_bind.
  eapply wp_mono; [by apply TimeMillis_kept|]. intros now w1 [Hi1 He1].
  apply wp_ret. rewrite Hcode. cbn [orb Z.eqb Pos.eqb STUN_ERROR_UNATHORIZED
    STUN_ERROR_UNKNOWN_ATTRIBUTE STUN_ERROR_SERVER_ERROR STUN_ERROR_GLOBAL_FAIL].
  pose proof (ext_live _ _ _ He1 Hp) as Hp1.
  unfold fail_and_destroy. apply wp_bind.
  eapply wp_mono; [by apply conn_set_state_kept|]. intros _ w2 [Hi2 He2].
  pose proof (ext_live _ _ _ He2 Hp1) as Hp2.
  pose proof (destroy_then_delete_request p id w2 Hi2 Hp2 Hu) as Hd.
  unfold wp in Hd |- *. unfold mbind, M_bind in Hd.
  destruct (conn_destroy p w2) as [[[] w3]| |]; done.
Qed.

Lemma check_response_kept p m w :
  ice_inv w -> live w p ->
  (m_type m = STUN_BINDING_ERROR_RESPONSE -> U use_after_free) ->
  get_error_code_value m = STUN_ERROR_GLOBAL_FAIL ->
  (m_type m = STUN_BINDING_RESPONSE \/ m_type m = STUN_BINDING_ERROR_RESPONSE) ->
  wp U (check_response p m) (kept w) w.
Proof.
  intros Hi Hp Hu Hcode Ht. unfold check_response. apply conn_at_bind; [done|]. intros c Hc.
  destruct (c_requests c !! _) as [r|] eqn:Er; [|by apply kept_ret].
  rewrite (inv_requests w Hi p c Hc _ _ Er). cbn [get_stun_success_response get_stun_error_response].
  change (get_stun_success_response STUN_BINDING_REQUEST) with STUN_BINDING_RESPONSE.
  change (get_stun_error_response STUN_BINDING_REQUEST) with STUN_BINDING_ERROR_RESPONSE.
  destruct (m_type m =? STUN_BINDING_RESPONSE) eqn:E1.
  - apply kept_bind.
    + unfold on_connection_request_response, elapsed. apply kept_bind.
      * apply kept_bind; [by apply TimeMillis_kept|]. intros now w1 _ Hi1 _. by apply kept_ret.
      * intros rtt w1 _ Hi1 He1. apply received_ping_response_kept; [done|]. by eapply ext_live.
    + intros _ w1 _ Hi1 He1. apply kept_bind.
      * apply conn_set_kept; [done|by eapply ext_live|].
        intros c1. split_and!; [done..|]. intros Hr id r' Hid. simpl in Hid.
        apply lookup_delete_Some in Hid as [_ Hid]. by eapply Hr.
      * intros _ w2 _ Hi2 _. by apply kept_ret.
  - destruct Ht as [Ht|Ht]; [by rewrite Ht in E1|].
    rewrite Ht. rewrite Z.eqb_refl.
    pose proof (error_response_double_free p r m (m_transaction_id m) w Hi Hp (Hu Ht) Hcode) as Hd.
    unfold wp in Hd |- *. unfold mbind, M_bind in Hd |- *.
    destruct (on_connection_request_error_response p r m w) as [[[] w1]| |]; [|done..].
    destruct (delete_request p _ w1) as [[[] w2]| |]; done.
Qed.

Lemma handle_stun_binding_request_kept p m w :
  ice_inv w -> live w p -> wp U (handle_stun_binding_request p m) (kept w) w.
Proof.
  intros Hi Hp. unfold handle_stun_binding_request.
  destruct (get_attribute _ _); [|by apply kept_ret].
  apply conn_at_bind; [done|]. intros c Hc. pose proof (conn_port w p c Hi Hc) as Hport.
  apply kept_reads_bind; [by apply port_reads|]. intros port _.
  destruct (binding_response _ _ _) as [ok buf]. destruct (negb ok); [by apply kept_ret|].
  apply kept_bind; [by apply port_send_to_kept|]. intros _ w' _ Hi' _. by apply kept_ret.
Qed.

Lemma conn_on_read_packet_kept p data ts w :
  ice_inv w -> live w p ->
  (stun_type_is data STUN_BINDING_ERROR_RESPONSE -> U use_after_free) ->
  wp U (conn_on_read_packet p data ts) (kept w) w.
Proof.
  intros Hi Hp Hu. unfold conn_on_read_packet.
  apply conn_at_bind; [done|]. intros c Hc. pose proof (conn_port w p c Hi Hc) as Hport.
  apply wp_bind. eapply wp_mono; [by apply get_stun_message_kept|].
  intros [[is_stun msg] ufrag] w1 [[Hi1 He1] Hmsg]. cbn [fst snd] in Hmsg.
  pose proof (ext_live _ _ _ He1 Hp) as Hp1.
  assert (Hport1 : is_Some (w_ports w1 !! c_port c)).
  { destruct Hport as [q Hq]. destruct He1 as [_ He1]. destruct (He1 _ _ Hq) as (q' & -> & _).
    by exists q'. }
  enough (wp U (if negb is_stun then on_conn_read_packet p data ts else
    match msg with
    | None => mret ()
    | Some stun_msg =>
        if m_type stun_msg =? STUN_BINDING_REQUEST then
          if negb (bool_decide (ufrag = cand_username (c_remote c)))
          then send_binding_error_response (c_port c) stun_msg (address (c_remote c))
                 STUN_ERROR_UNATHORIZED STUN_ERROR_REASON_UNATHORIZED
          else handle_stun_binding_request p stun_msg
        else if (m_type stun_msg =? STUN_BINDING_RESPONSE) ||
                (m_type stun_msg =? STUN_BINDING_ERROR_RESPONSE) then
          '(status, stun_msg) ← lift (validate_message_integrity env_sha1 stun_msg
                                        (cand_password (c_remote c)));
          if bool_decide (m_integrity stun_msg = k_integrity_ok)
          then _ ← check_response p stun_msg; mret () else mret ()
        else mret ()
    end) (kept w1) w1) as Hrest.
  { eapply wp_mono; [exact Hrest|]. intros a w2 [Hi2 He2]. split; [done|]. by trans w1. }
  destruct (negb is_stun); [by apply law_read_packet|].
  destruct msg as [m|]; [|by apply kept_ret]. specialize (Hmsg m eq_refl).
  destruct (m_type m =? STUN_BINDING_REQUEST) eqn:E0.
  { destruct (negb _); [by apply send_binding_error_response_kept|].
    by apply handle_stun_binding_request_kept. }
  destruct (_ || _) eqn:E1; [|by apply kept_ret].
  apply wp_bind, wp_lift.
  pose proof (validate_message_integrity_outcome env_sha1 m (cand_password (c_remote c))) as Hv.
  destruct (validate_message_integrity _ _ _) as [[st m']| |]; [|done|by subst].
  destruct Hv as (Hv & Ha & Hid & _). case_bool_decide; [|by apply kept_ret].
  apply kept_bind.
  - apply check_response_kept; [done|done| | |].
    + rewrite Hv. intros Ht. apply Hu. rewrite <- Ht. by apply read_as_type.
    + unfold get_error_code_value, get_attribute. rewrite Ha.
      exact (read_as_no_error_code data m Hmsg).
    + rewrite Hv. apply orb_true_iff in E1 as [E1|E1]; apply Z.eqb_eq in E1; auto.
  - intros _ w2 _ Hi2 _. by apply kept_ret.
Qed.
End connection_theory.
