(* ===== verification/IceChannelTheory.v ===== *)
(** * Theory of the ICE transport channel

    The channel is an observer of its connections ([channel_observer_laws]),
    every input keeps the pointer invariant, and the states the channel
    derives from its connections are the ones it announces. *)

From S2P Require Import Prelude ByteBuffer Crc32 StringEncode IpAddress MessageDigest Stun StunTheory.
From S2P Require Import IceTypes IcePort IceController IceConnection IceChannel IceInvariant.
From S2P Require Import IceControllerTheory IceConnectionTheory.
Local Open Scope Z_scope.

Section channel_theory.
Context `{IceEnv} (U : undef -> Prop).

(** ** Quiet steps *)

Lemma wp_quiet_bind {A B} (m : M A) (k : A -> M B) w :
  wp U m (fun _ w' => quiet w w') w ->
  (forall a w', quiet w w' -> wp U (k a) (fun _ w'' => quiet w' w'') w') ->
  wp U (m ≫= k) (fun _ w' => quiet w w') w.
Proof.
  intros Hm Hk. apply wp_bind. eapply wp_mono; [exact Hm|]. intros a w' Hq.
  eapply wp_mono; [by apply Hk|]. intros b w'' Hq'. by trans w'.
Qed.

Lemma set_writable_quiet b w : wp U (set_writable b) (fun _ w' => quiet w w') w.
Proof.
  unfold set_writable. apply wp_bind, wp_reads; [by eexists|]. intros ch [= <-].
  case_bool_decide; [done|]. apply wp_quiet_bind; [by destruct b|].
  intros _ w1 _. by apply wp_quiet_bind.
Qed.

Lemma set_receiving_quiet b w : wp U (set_receiving b) (fun _ w' => quiet w w') w.
Proof.
  unfold set_receiving. apply wp_bind, wp_reads; [by eexists|]. intros ch [= <-].
  case_bool_decide; [done|]. by apply wp_quiet_bind.
Qed.

Lemma conn_test_reads (f : IceConnection -> bool) w :
  readable w ->
  reads (existsM (fun p => c ← conn_at p; mret (f c)) (k_connections (ctl w))) w.
Proof.
  intros Hr. apply reads_existsM. intros p Hp.
  apply reads_bind; [by apply conn_at_reads, rd_connections|]. intros. apply reads_ret.
Qed.

Lemma compute_state_reads w : readable w -> reads compute_ice_transport_state w.
Proof.
  intros Hr. unfold compute_ice_transport_state.
  apply reads_bind; [by eexists|]. intros k [= <-].
  apply reads_bind; [by apply conn_test_reads|]. intros b _.
  apply reads_bind; [by eexists|]. intros. apply reads_ret.
Qed.

Lemma channel_update_state_quiet w :
  readable w -> wp U channel_update_state (fun _ w' => quiet w w') w.
Proof.
  intros Hr. unfold channel_update_state.
  apply wp_bind, wp_reads; [by eexists|]. intros ch [= <-].
  apply wp_bind, wp_reads.
  { destruct (ch_selected (w_ch w)) as [p|] eqn:E; [|apply reads_ret].
    apply reads_bind; [by apply conn_at_reads, rd_ch_selected|]. intros. apply reads_ret. }
  intros writable _. apply wp_quiet_bind; [apply set_writable_quiet|].
  intros _ w1 Hq1. pose proof (quiet_readable _ _ Hq1 Hr) as Hr1.
  apply wp_bind, wp_reads; [by eexists|]. intros k [= <-].
  apply wp_bind, wp_reads; [by apply conn_test_reads|]. intros receiving _.
  apply wp_quiet_bind; [apply set_receiving_quiet|].
  intros _ w2 Hq2. pose proof (quiet_readable _ _ Hq2 Hr1) as Hr2.
  apply wp_bind, wp_reads; [by apply compute_state_reads|]. intros state _.
  apply wp_bind, wp_reads; [by eexists|]. intros ch' [= <-].
  case_bool_decide; [done|]. by apply wp_quiet_bind.
Qed.

Lemma maybe_start_pinging_quiet w :
  readable w -> wp U maybe_start_pinging (fun _ w' => quiet w w') w.
Proof.
  intros Hr. unfold maybe_start_pinging.
  apply wp_bind, wp_reads; [by eexists|]. intros ch [= <-].
  case_match; [done|]. apply wp_quiet_bind.
  - unfold has_pingable_connection. apply wp_quiet_bind; [done|].
    intros now w1 Hq1. pose proof (quiet_readable _ _ Hq1 Hr) as Hr1.
    apply wp_bind, wp_reads; [by eexists|]. intros k [= <-].
    apply wp_reads; [|by intros]. apply reads_existsM. intros p Hp.
    apply is_pingable_reads; [done|]. by apply rd_connections.
  - intros [] w1 _; [|done]. by apply wp_quiet_bind.
Qed.

(** ** Switching the selected connection *)

(** The world after a live connection [p] was selected. *)
Definition switched (p : ptr) (w w' : world) : Prop :=
  w_ports w' = w_ports w /\ w_next w' = w_next w /\
  k_connections (ctl w') = k_connections (ctl w) /\
  k_unpinged (ctl w') = k_unpinged (ctl w) /\ k_pinged (ctl w') = k_pinged (ctl w) /\
  ch_had_connection (w_ch w') = ch_had_connection (w_ch w) /\
  k_selected (ctl w') = Some p /\ ch_selected (w_ch w') = Some p /\
  forall q, w_conns w' !! q =
    (fun c => upd_c_selected (fun b => if bool_decide (q = p) then true
               else if bool_decide (ch_selected (w_ch w) = Some q) then false else b) c)
    <$> w_conns w !! q.

Lemma switch_selected_spec p w :
  readable w -> live w p ->
  exists w', switch_selected_connection (Some p) w = Done ((), w') /\ switched p w w'.
Proof.
  intros Hr Hp. unfold switch_selected_connection, channel, gets, channel_set, modify,
    ch_set_selected_flag, conn_set, controller_set, conn_at, mbind, M_bind.
  destruct (ch_selected (w_ch w)) as [old|] eqn:Eold.
  - destruct (rd_ch_selected w Hr old Eold) as [co Hco]. simpl. rewrite Hco. simpl.
    destruct (decide (p = old)) as [->|Hne].
    + rewrite lookup_alter_eq, Hco. simpl. eexists. split; [reflexivity|].
      split_and!; try done. intros q. simpl. destruct (decide (q = old)) as [->|Hq].
      * rewrite !lookup_alter_eq, Hco. simpl. by rewrite bool_decide_eq_true_2.
      * rewrite !lookup_alter_ne by done. rewrite bool_decide_eq_false_2 by done.
        rewrite bool_decide_eq_false_2 by congruence.
        destruct (w_conns w !! q) as [[]|]; done.
    + destruct Hp as [c Hc]. rewrite lookup_alter_ne, Hc by done. simpl.
      eexists. split; [reflexivity|]. split_and!; try done. intros q. simpl.
      destruct (decide (q = p)) as [->|Hq].
      * rewrite lookup_alter_eq, lookup_alter_ne, Hc by done. simpl.
        by rewrite bool_decide_eq_true_2.
      * rewrite (lookup_alter_ne _ _ p) by done. rewrite bool_decide_eq_false_2 by done.
        destruct (decide (q = old)) as [->|Hqo].
        -- rewrite lookup_alter_eq, Hco. simpl. by rewrite bool_decide_eq_true_2.
        -- rewrite lookup_alter_ne by done. rewrite bool_decide_eq_false_2 by congruence.
           destruct (w_conns w !! q) as [[]|]; done.
  - destruct Hp as [c Hc]. simpl. rewrite Hc. simpl. eexists. split; [reflexivity|].
    split_and!; try done. intros q. simpl. destruct (decide (q = p)) as [->|Hq].
    + rewrite lookup_alter_eq, Hc. simpl. by rewrite bool_decide_eq_true_2.
    + rewrite lookup_alter_ne by done. rewrite !bool_decide_eq_false_2 by done.
      destruct (w_conns w !! q) as [[]|]; try done; cbn; rewrite Eold; done.
Qed.

Lemma switched_conn p w w' q c' :
  switched p w w' -> w_conns w' !! q = Some c' ->
  exists c, w_conns w !! q = Some c /\ c_port c' = c_port c /\ c_requests c' = c_requests c /\
    c_selected c' = (if bool_decide (q = p) then true
      else if bool_decide (ch_selected (w_ch w) = Some q) then false else c_selected c).
Proof.
  intros (_ & _ & _ & _ & _ & _ & _ & _ & Hc) Hq. rewrite Hc in Hq.
  destruct (w_conns w !! q) as [c|]; [|done]. injection Hq as <-. by exists c.
Qed.

Lemma switched_live p w w' q : switched p w w' -> live w' q <-> live w q.
Proof.
  intros (_ & _ & _ & _ & _ & _ & _ & _ & Hc). unfold live. rewrite Hc. apply fmap_is_Some.
Qed.

Lemma switched_kept p w w' :
  switched p w w' -> ice_inv w -> p ∈ k_connections (ctl w) -> ice_inv w' /\ ext w w'.
Proof.
  intros Hs Hi Hp. pose proof (fun q c' => switched_conn p w w' q c' Hs) as Hconn.
  pose proof (fun q => switched_live p w w' q Hs) as Hlive.
  destruct Hs as (Sp & Sn & Sk & Su & Spi & Sh & Ssel & Sch & Sc).
  destruct Hi as [I1 I2 I3 I4 I5 I6 I7 I8 I9 I10 I11 I12].
  split; [split|].
  - by rewrite Sk.
  - intros q. rewrite Sk, I2. symmetry. apply Hlive.
  - by rewrite Su, Spi, Sk.
  - congruence.
  - intros q. rewrite Sch, Sk. by intros [= <-].
  - intros q c' Hq. destruct (Hconn q c' Hq) as (c & Hc & _ & _ & ->). rewrite Sch.
    case_bool_decide as E1; [subst; by rewrite bool_decide_eq_true_2|].
    rewrite (bool_decide_eq_false_2 (Some p = _)) by congruence.
    case_bool_decide as E2; [done|]. rewrite (I6 _ _ Hc). by apply bool_decide_eq_false_2.
  - intros i port a q. rewrite Sp. intros Hport Hin. apply Hlive. by eapply I7.
  - intros q c' Hq. destruct (Hconn q c' Hq) as (c & Hc & -> & _). rewrite Sp. by eapply I8.
  - by rewrite Sp.
  - intros q Hq. rewrite Sn. by apply I10, Hlive.
  - by rewrite Sk, Sh.
  - intros q c' Hq. destruct (Hconn q c' Hq) as (c & Hc & _ & Er & _).
    unfold requests_typed. rewrite Er. by eapply I12.
  - split; [|rewrite Sp; eauto]. intros q c Hq. rewrite Sc, Hq. by eexists.
Qed.

Lemma switched_readable p w w' : switched p w w' -> readable w -> live w p -> readable w'.
Proof.
  intros Hs [R1 R2 R3 R4] Hp. pose proof (fun q c' => switched_conn p w w' q c' Hs) as Hconn.
  pose proof (fun q => switched_live p w w' q Hs) as Hlive.
  destruct Hs as (Sp & Sn & Sk & Su & Spi & Sh & Ssel & Sch & Sc).
  split.
  - intros q. rewrite Sk. intros Hq. by apply Hlive, R1.
  - intros q. rewrite Ssel. intros [= <-]. by apply Hlive.
  - intros q. rewrite Sch. intros [= <-]. by apply Hlive.
  - intros q c' Hq. destruct (Hconn q c' Hq) as (c & Hc & -> & _). rewrite Sp. by eapply R4.
Qed.

(** ** Sorting and updating *)

Lemma sort_result_head w o l p :
  sort_result w o l -> o = Some p -> p ∈ map rk_ptr l.
Proof.
  intros (rs & _ & _ & Hl) ->. destruct l as [|top l]; [done|].
  destruct Hl as [_ Ho]. destruct (negb _ || _); [done|].
  assert (p = rk_ptr top) as ->.
  { destruct (_ ≫= _); [destruct (_ <=? _)|]; congruence. }
  simpl. left.
Qed.

Lemma reorder_readable l w : l ≡ₚ k_connections (ctl w) -> readable w -> readable (reorder l w).
Proof.
  intros Hl [R1 R2 R3 R4]. split; try done. intros p Hp. apply (R1 p). by rewrite <- Hl.
Qed.

Lemma sort_update_split w (P : world -> Prop) (R : world -> world -> Prop) :
  readable w ->
  (forall l, l ≡ₚ k_connections (ctl w) -> P (reorder l w)) ->
  (forall p w1 w2, P w1 -> p ∈ k_connections (ctl w1) -> switched p w1 w2 -> P w2) ->
  (forall w1 w2, P w1 -> quiet w1 w2 -> P w2) ->
  wp U sort_connection_and_update_state (fun _ w' => P w') w.
Proof.
  intros Hr Hsort Hsw Hq. unfold sort_connection_and_update_state.
  destruct (sort_and_switch_spec w Hr) as (o & l & E & Hres & Hperm).
  apply wp_bind. unfold wp at 1. rewrite E.
  set (w1 := reorder (map rk_ptr l) w) in *.
  assert (HP1 : P w1) by (by apply Hsort).
  assert (Hr1 : readable w1) by (by apply reorder_readable).
  apply wp_bind. eapply wp_mono with (Q := fun _ w2 => P w2 /\ readable w2).
  { destruct o as [p|]; [|by apply wp_ret]. unfold maybe_switch_selected_connection.
    assert (Hin : p ∈ k_connections (ctl w1)) by (by eapply sort_result_head).
    assert (Hp : live w1 p) by (by apply rd_connections).
    destruct (switch_selected_spec p w1 Hr1 Hp) as (w2 & E2 & Hs2).
    unfold wp. rewrite E2. split; [by eapply Hsw|by eapply switched_readable]. }
  intros _ w2 [HP2 Hr2]. apply wp_bind.
  eapply wp_mono; [by apply channel_update_state_quiet|]. intros u3 w3 Hq3.
  pose proof (quiet_readable _ _ Hq3 Hr2) as Hr3.
  eapply wp_mono; [by apply maybe_start_pinging_quiet|]. intros u4 w4 Hq4.
  eapply Hq; [|exact Hq4]. by eapply Hq.
Qed.

Lemma sort_update_kept w : ice_inv w -> wp U sort_connection_and_update_state (kept w) w.
Proof.
  intros Hi. apply (sort_update_split w (fun w' => ice_inv w' /\ ext w w') (fun _ _ => True)).
  - by apply inv_readable.
  - intros l Hl. by apply reorder_kept.
  - intros p w1 w2 [Hi1 He1] Hp Hs. destruct (switched_kept p w1 w2 Hs Hi1 Hp).
    split; [done|]. by trans w1.
  - intros w1 w2 [Hi1 He1] Hq. destruct (quiet_kept _ _ Hq Hi1). split; [done|]. by trans w1.
Qed.

Lemma sort_update_readable w :
  readable w -> wp U sort_connection_and_update_state (fun _ w' => readable w') w.
Proof.
  intros Hr. apply (sort_update_split w readable (fun _ _ => True)); [done|..].
  - intros l Hl. by apply reorder_readable.
  - intros p w1 w2 Hr1 Hp Hs. eapply switched_readable; [done..|]. by apply rd_connections.
  - intros w1 w2 Hr1 Hq. by eapply quiet_readable.
Qed.

(** ** Destruction *)

Lemma channel_on_connection_destroyed_wp p w :
  readable w -> live w p ->
  wp U (channel_on_connection_destroyed p) (fun _ _ => True) w.
Proof.
  intros Hr Hp. unfold channel_on_connection_destroyed. apply wp_bind.
  unfold wp at 1, controller_on_connection_destroyed, controller_set, channel_set, modify.
  set (w1 := upd_w_ch _ w).
  assert (Hr1 : readable w1).
  { destruct Hr as [R1 R2 R3 R4]. split; try done. intros q. simpl. intros Hq. apply R1.
    clear -Hq. induction (k_connections (ctl w)) as [|x l IH]; [done|]. simpl in Hq.
    case_bool_decide; [by right|]. apply elem_of_cons in Hq as [->|Hq]; [left|right; auto]. }
  apply wp_bind, wp_reads; [by eexists|]. intros ch [= <-].
  case_bool_decide as Hsel.
  - apply wp_bind. unfold wp at 1.
    assert (Hs1 : ch_selected (w_ch w1) = Some p) by exact Hsel.
    assert (Hc1 : live w1 p) by exact Hp. clear Hsel. clearbody w1.
    assert (switch_selected_connection None w1 = Done ((), upd_w_conns
      (alter (upd_c_selected (fun _ => false)) p)
      (upd_w_ch (upd_ch_selected (fun _ => None)) w1))) as ->.
    { unfold switch_selected_connection, channel, gets, channel_set, modify,
        ch_set_selected_flag, conn_set, conn_at, mbind, M_bind. rewrite Hs1.
      destruct Hc1 as [c Hc]. simpl. by rewrite Hc. }
    eapply wp_mono; [apply sort_update_readable|done].
    destruct Hr1 as [R1 R2 R3 R4]. split; unfold live; simpl.
    + intros q Hq. rewrite lookup_alter_is_Some. by apply R1.
    + intros q Hq. rewrite lookup_alter_is_Some. by apply R2.
    + done.
    + intros q c. destruct (decide (q = p)) as [->|Hne].
      * rewrite lookup_alter_eq. intros (c1 & Hcc & ->)%fmap_Some. exact (R4 p _ Hcc).
      * rewrite lookup_alter_ne by done. by eapply R4.
  - eapply wp_mono; [by apply channel_update_state_quiet|done].
Qed.

(** The channel meets what the connections ask of their observer. *)
#[export] Instance channel_observer_laws : ObserverLaws (H := channel_observer) U.
Proof.
  split; simpl.
  - intros p w Hi _. by apply sort_update_kept.
  - intros p w Hi Hp. apply channel_on_connection_destroyed_wp; [by apply inv_readable|done].
  - intros p data ts w Hi _. by apply emit_kept.
Qed.

(** ** New connections *)

Lemma addr_find_Some m addr p : addr_find m addr = Some p -> exists a, (a, p) ∈ m.
Proof.
  induction m as [|[a q] m IH]; simpl; [done|]. destruct (addr_eqb a addr).
  - intros [= ->]. exists a. left.
  - intros E. destruct (IH E) as [b Hb]. exists b. by right.
Qed.

Lemma elem_of_addr_insert m addr p a q :
  (a, q) ∈ addr_insert m addr p -> q = p \/ (a, q) ∈ m.
Proof.
  induction m as [|[b r] m IH]; simpl.
  - intros [= -> ->]%list_elem_of_singleton. by left.
  - destruct (addr_eqb b addr); intros [E|E]%elem_of_cons.
    + injection E as -> ->. by left.
    + right. by right.
    + injection E as -> ->. right. left.
    + destruct (IH E); [by left|]. right. by right.
Qed.

(** [create_connection] followed by [_add_connection]; in between the new
    connection is in the store and the address map but not yet known to the
    controller. *)
Lemma create_and_add_kept i remote w :
  ice_inv w -> (exists port, w_ports w !! i = Some port /\ p_candidates port <> []) ->
  wp U (p ← create_connection i remote; _ ← channel_add_connection p; mret p)
    (fun p w' => (ice_inv w' /\ ext w w') /\ live w' p) w.
Proof.
  intros [I1 I2 I3 I4 I5 I6 I7 I8 I9 I10 I11 I12] (port & Hport & Hcand).
  unfold wp, create_connection, channel_add_connection, add_connection, port_set, gets, modify,
    controller_set, channel_set, mbind, M_bind, mret, M_ret. simpl.
  set (p := w_next w).
  assert (Hfree : w_conns w !! p = None).
  { apply eq_None_not_Some. intros Hp. apply I10 in Hp. unfold p in Hp. lia. }
  assert (Hnc : p ∉ k_connections (ctl w)).
  { rewrite I2, Hfree. by intros [? [=]]. }
  assert (Hnu : p ∉ k_unpinged (ctl w)).
  { intros Hu. apply Hnc. rewrite <- I3. apply elem_of_app. by left. }
  assert (Hsel : ch_selected (w_ch w) <> Some p) by (intros Hs; by apply Hnc, I5).
  split; [split; [split|]|]; simpl.
  - apply NoDup_app. split_and!; [done| |apply NoDup_singleton].
    intros q Hq ->%list_elem_of_singleton. done.
  - intros q. rewrite elem_of_app, list_elem_of_singleton, lookup_insert_is_Some', I2.
    split; [intros [?| ->]|intros [<-|?]]; auto.
  - rewrite set_insert_perm by done. simpl. rewrite I3. by rewrite Permutation_app_comm.
  - done.
  - intros q Hq. apply elem_of_app. left. by apply I5.
  - intros q c Hq. apply lookup_insert_Some in Hq as [[<- <-]|[Hne Hq]]; [|by apply I6].
    simpl. symmetry. by apply bool_decide_eq_false_2.
  - intros j port' a q Hj Hin. rewrite lookup_insert_is_Some'.
    apply list_lookup_alter_inv in Hj as [(-> & port0 & Hj & ->)|[Hne Hj]].
    + simpl in Hin. apply elem_of_addr_insert in Hin as [->|Hin]; [by left|right; by eapply I7].
    + right. by eapply I7.
  - intros q c Hq. assert (Halt : forall j x, w_ports w !! j = Some x -> exists y,
      alter (upd_p_connections (fun m => addr_insert m (address remote) p)) i (w_ports w) !! j
      = Some y /\ p_candidates y = p_candidates x).
    { intros j x Hj. destruct (decide (i = j)) as [<-|Hne].
      - rewrite list_lookup_alter_eq, Hj. by eexists.
      - rewrite list_lookup_alter_ne by done. by exists x. }
    apply lookup_insert_Some in Hq as [[<- <-]|[Hne Hq]].
    + simpl. destruct (Halt _ _ Hport) as (y & Hy & Ey). exists y. by rewrite Ey.
    + destruct (I8 _ _ Hq) as (x & Hx & Ex). destruct (Halt _ _ Hx) as (y & Hy & Ey).
      exists y. by rewrite Ey.
  - intros j port' Hj Ho. apply list_lookup_alter_inv in Hj as [(-> & port0 & Hj & ->)|[Hne Hj]].
    + simpl. congruence.
    + by eapply I9.
  - intros q. rewrite lookup_insert_is_Some'. intros [<-|Hq]; [lia|].
    apply I10 in Hq. unfold p. lia.
  - done.
  - intros q c Hq. apply lookup_insert_Some in Hq as [[_ <-]|[_ Hq]]; [|by eapply I12].
    intros id r. simpl. by rewrite lookup_empty.
  - split.
    + intros q c Hq. exists c. simpl. rewrite lookup_insert_ne; [done|]. intros <-. congruence.
    + intros j x Hj. simpl. destruct (decide (i = j)) as [<-|Hne].
      * rewrite list_lookup_alter_eq, Hj. by eexists.
      * rewrite list_lookup_alter_ne by done. by exists x.
  - unfold live. simpl. rewrite lookup_insert_eq. by eexists.
Qed.

Hypothesis U_overread : U out_of_bounds.

Lemma on_unknown_address_kept i addr m ufrag w :
  ice_inv w -> (exists port, w_ports w !! i = Some port /\ p_candidates port <> []) ->
  wp U (on_unknown_address i addr m ufrag) (kept w) w.
Proof.
  intros Hi Hport. unfold on_unknown_address.
  destruct (get_uint32 m _) as [prio|].
  2: { destruct Hport as (port & Hport & _). apply send_binding_error_response_kept; [done|].
       by exists port. }
  apply wp_bind, wp_reads; [by eexists|]. intros ch _.
  set (remote := {| component := _ |}).
  pose proof (create_and_add_kept i remote w Hi Hport) as Hc.
  unfold wp in Hc |- *. unfold mbind, M_bind in Hc |- *.
  destruct (create_connection i remote w) as [[p w1]| |]; [|done..].
  destruct (channel_add_connection p w1) as [[[] w2]| |]; [|done..].
  destruct Hc as [[Hi2 He2] Hp2].
  pose proof (handle_stun_binding_request_kept U p m w2 Hi2 Hp2) as Hh.
  unfold wp in Hh. destruct (handle_stun_binding_request p m w2) as [[[] w3]| |]; [|done..].
  destruct Hh as [Hi3 He3]. pose proof (sort_update_kept w3 Hi3) as Hs. unfold wp in Hs.
  destruct (sort_connection_and_update_state w3) as [[[] w4]| |]; [|done..].
  destruct Hs as [Hi4 He4]. split; [done|]. trans w2; [done|]. by trans w3.
Qed.

(** ** Inputs *)

Lemma port_on_read_packet_kept i data addr ts w :
  ice_inv w -> (exists port, w_ports w !! i = Some port /\ p_open port = true) ->
  (stun_type_is data STUN_BINDING_ERROR_RESPONSE -> U use_after_free) ->
  wp U (port_on_read_packet i data addr ts) (kept w) w.
Proof.
  intros Hi (port & Hport & Hopen) Hu. unfold port_on_read_packet, get_connection.
  apply wp_bind, wp_reads.
  { apply reads_bind; [by apply port_reads; exists port|]. intros. apply reads_ret. }
  intros conn Econn.
  assert (conn = addr_find (p_connections port) addr) as ->.
  { unfold mbind, M_bind, port_at in Econn. rewrite Hport in Econn. by injection Econn as <-. }
  destruct (addr_find _ _) as [p|] eqn:Ea.
  - destruct (addr_find_Some _ _ _ Ea) as [a Ha].
    apply conn_on_read_packet_kept; [done|apply _|done| |done]. by eapply (inv_addr w Hi).
  - apply wp_bind. eapply wp_mono; [apply get_stun_message_kept; [done|done|by exists port]|].
    intros [[res msg] ufrag] w1 [[Hi1 He1] _].
    enough (wp U (match res, msg with
      | true, Some m => if m_type m =? STUN_BINDING_REQUEST
          then on_unknown_address i addr m ufrag else mret ()
      | _, _ => mret () end) (kept w1) w1) as Hrest.
    { eapply wp_mono; [exact Hrest|]. intros a w2 [Hi2 He2]. split; [done|]. by trans w1. }
    destruct res, msg as [m|]; try by apply kept_ret.
    destruct (m_type m =? STUN_BINDING_REQUEST); [|by apply kept_ret].
    apply on_unknown_address_kept; [done|].
    destruct He1 as [_ He1]. destruct (He1 _ _ Hport) as (port1 & E1 & Ec1). exists port1.
    split; [done|]. rewrite Ec1. eapply (inv_open w Hi); [done|by left].
Qed.

Lemma set_remote_ice_params_kept params w :
  ice_inv w -> wp U (set_remote_ice_params params) (kept w) w.
Proof.
  intros Hi. unfold set_remote_ice_params.
  apply kept_bind; [by apply channel_set_kept|]. intros _ w1 _ Hi1 _.
  apply kept_reads_bind; [by eexists|]. intros k [= <-]. apply kept_bind.
  - apply kept_mapM_; [done|]. intros p w2 Hp Hi2 He2. apply conn_set_kept; [done| |].
    + eapply ext_live; [exact He2|]. by apply (rd_connections w1 (inv_readable w1 Hi1)).
    + intros c. unfold maybe_set_remote_ice_params. by case_match.
  - intros _ w2 _ Hi2 _. by apply sort_update_kept.
Qed.

Lemma gather_network_kept bound w : ice_inv w -> wp U (gather_network bound) (kept w) w.
Proof.
  intros Hi. unfold gather_network. apply kept_reads_bind; [by eexists|]. intros ch [= <-].
  set (port := new_port _ _ _).
  destruct (create_ice_candidate port bound) as [port' c] eqn:Ec.
  assert (Hport' : p_connections port' = [] /\ (p_open port' = true -> p_candidates port' <> [])).
  { destruct bound; injection Ec as <- <-; done. }
  destruct Hport' as [Hpc Hpo]. apply kept_bind.
  - destruct Hi as [I1 I2 I3 I4 I5 I6 I7 I8 I9 I10 I11 I12]. unfold wp, modify.
    assert (Hold : forall i x, w_ports w !! i = Some x ->
      (w_ports w ++ [port']) !! i = Some x) by (intros; by apply lookup_app_l_Some).
    split; [split|]; simpl; try done.
    + intros i q a p Hq Hin. apply lookup_app_Some in Hq as [Hq|[_ Hq]]; [by eapply I7|].
      apply list_lookup_singleton_Some in Hq as [_ <-]. rewrite Hpc in Hin.
      by apply elem_of_nil in Hin.
    + intros p c0 Hp. destruct (I8 _ _ Hp) as (q & Hq & Hne). exists q. split; [by apply Hold|done].
    + intros i q Hq Ho. apply lookup_app_Some in Hq as [Hq|[_ Hq]]; [by eapply I9|].
      apply list_lookup_singleton_Some in Hq as [_ <-]. rewrite Hpc in Ho. destruct Ho; [auto|done].
    + split; [eauto|]. intros i x Hx. exists x. split; [by apply Hold|done].
  - intros _ w1 _ Hi1 _. destruct c; [|by apply kept_ret]. by apply channel_set_kept.
Qed.

Lemma gathering_candidate_kept networks w :
  ice_inv w -> wp U (gathering_candidate networks) (kept w) w.
Proof.
  intros Hi. unfold gathering_candidate. apply kept_reads_bind; [by eexists|]. intros ch _.
  destruct (_ || _); [by apply kept_ret|]. case_bool_decide; [by apply kept_ret|].
  apply kept_bind.
  - apply kept_mapM_; [done|]. intros. by apply gather_network_kept.
  - intros _ w1 _ Hi1 _. apply kept_reads_bind; [by eexists|]. intros ch' _. by apply emit_kept.
Qed.

Lemma on_check_and_ping_kept w : ice_inv w -> wp U on_check_and_ping (kept w) w.
Proof.
  intros Hi. unfold on_check_and_ping. apply kept_bind.
  { unfold update_connection_states. apply kept_reads_bind; [by eexists|]. intros k [= <-].
    apply kept_bind; [by apply TimeMillis_kept|]. intros now w1 _ Hi1 He1.
    apply kept_mapM_; [done|]. intros p w2 Hp Hi2 He2.
    apply update_conn_state_kept; [apply _|done|].
    eapply ext_live; [exact He2|]. eapply ext_live; [exact He1|].
    by apply (rd_connections w (inv_readable w Hi)). }
  intros _ w1 _ Hi1 _. apply kept_reads_bind; [by eexists|]. intros ch [= <-].
  apply wp_bind. eapply wp_mono; [by apply select_connection_kept|].
  intros [conn interval] w2 [[Hi2 He2] Hconn]. cbn [fst] in Hconn.
  enough (wp U (_ ← match conn with
      | Some p => _ ← ping_connection p; mark_connection_pinged p
      | None => mret () end;
    ch ← channel;
    if ch_cur_ping_interval ch =? interval then mret ()
    else _ ← channel_set (upd_ch_cur_ping_interval (fun _ => interval));
         _ ← emit EvStopTimer; emit (EvStartTimer (interval * 1000))) (kept w2) w2) as Hrest.
  { eapply wp_mono; [exact Hrest|]. intros a w3 [Hi3 He3]. split; [done|]. by trans w2. }
  apply kept_bind.
  - destruct conn as [p|]; [|by apply kept_ret]. specialize (Hconn p eq_refl).
    apply kept_bind.
    + unfold ping_connection. apply kept_bind; [by apply TimeMillis_kept|].
      intros now w3 _ Hi3 He3. apply kept_bind; [by apply channel_set_kept|].
      intros _ w4 _ Hi4 He4. apply conn_ping_kept; [done|].
      eapply ext_live; [exact He4|]. by eapply ext_live.
    + intros _ w3 _ Hi3 He3. apply mark_connection_pinged_kept; [done|]. by eapply ext_live.
  - intros _ w3 _ Hi3 _. apply kept_reads_bind; [by eexists|]. intros ch' _.
    destruct (_ =? _); [by apply kept_ret|].
    apply kept_bind; [by apply channel_set_kept|]. intros _ w4 _ Hi4 _.
    apply kept_bind; [by apply emit_kept|]. intros _ w5 _ Hi5 _. by apply emit_kept.
Qed.

Lemma channel_send_packet_kept data w :
  ice_inv w -> wp U (channel_send_packet data) (kept w) w.
Proof.
  intros Hi. unfold channel_send_packet. apply kept_reads_bind; [by eexists|]. intros ch [= <-].
  destruct (ch_selected (w_ch w)) as [p|] eqn:Es; [|by apply kept_ret].
  pose proof (rd_ch_selected w (inv_readable w Hi) p Es) as Hp.
  apply conn_at_bind; [done|]. intros c Hc. destruct (negb _); [by apply kept_ret|].
  apply conn_at_bind; [done|]. intros c' Hc'.
  apply port_send_to_kept; [done|]. by eapply conn_port.
Qed.
End channel_theory.

(** A packet input comes from an open socket. *)
Definition input_ok (w : world) (i : ice_input) : Prop :=
  match i with
  | InPacket port _ _ _ => exists p, w_ports w !! port = Some p /\ p_open p = true
  | _ => True
  end.

Definition is_packet (i : ice_input) : Prop :=
  match i with InPacket _ _ _ _ => True | _ => False end.

Definition is_error_response (i : ice_input) : Prop :=
  match i with
  | InPacket _ data _ _ => stun_type_is data STUN_BINDING_ERROR_RESPONSE
  | _ => False
  end.

Lemma ice_handle_kept `{IceEnv} (i : ice_input) (w : world) :
  ice_inv w -> input_ok w i ->
  wp (fun u => (u = out_of_bounds /\ is_packet i) \/ (u = use_after_free /\ is_error_response i))
     (ice_handle i) (kept w) w.
Proof.
  intros Hi Hin. set (U := fun u => _). destruct i as [port data addr ts| | | | |]; cbn [ice_handle].
  - apply (port_on_read_packet_kept U); [by left|done|done|]. intros Ht. by right.
  - enough (forall U', U' out_of_bounds -> wp U' on_check_and_ping (kept w) w) as Hf.
    { specialize (Hf (fun u => u = out_of_bounds) eq_refl).
      pose proof (on_check_and_ping_kept (fun _ => False) w Hi) as Hk. unfold wp in *.
      destruct (on_check_and_ping w) as [[]| |]; done. }
    intros U' _. by apply on_check_and_ping_kept.
  - by apply channel_set_kept.
  - by apply set_remote_ice_params_kept.
  - by apply gathering_candidate_kept.
  - apply kept_bind; [by apply channel_send_packet_kept|]. intros n w1 _ Hi1 _. by apply kept_ret.
Qed.

Lemma new_world_inv name comp : ice_inv (new_world name comp).
Proof.
  split; simpl; try done.
  - constructor.
  - intros p. rewrite lookup_empty. split; [by intros ?%elem_of_nil|by intros [? [=]]].
  - intros p. rewrite lookup_empty. by intros [? [=]].
Qed.

(** The worlds of a channel: a new one, and what handling an input leads to. *)
Inductive ice_reachable `{IceEnv} (name : bytes) (comp : Z) : world -> Prop :=
  | reach_new : ice_reachable name comp (new_world name comp)
  | reach_step w i w' :
      ice_reachable name comp w -> input_ok w i -> ice_handle i w = Done ((), w') ->
      ice_reachable name comp w'.

Lemma reachable_inv `{IceEnv} name comp w : ice_reachable name comp w -> ice_inv w.
Proof.
  induction 1 as [|w i w' _ IH Hin E]; [apply new_world_inv|].
  pose proof (ice_handle_kept i w IH Hin) as Hk. unfold wp in Hk. rewrite E in Hk. apply Hk.
Qed.

(** C1: no pointer of an ICE channel ever dangles while it runs.  In every
    reachable world the pointers of the channel, the controller and the ports
    are to live connections, and handling any further input (a datagram of any
    bytes, a tick of the ping timer, new parameters, a gathering of
    candidates, a packet to send) ends normally, but for the two defects of
    the packet path: an over-read in the integrity check of a datagram, and
    the double deletion after a STUN error response. *)
Theorem ice_channel_pointer_safe `{IceEnv} (name : bytes) (comp : Z) (w : world) (i : ice_input) :
  ice_reachable name comp w -> input_ok w i ->
  ice_inv w /\
  match ice_handle i w with
  | Done (_, w') => ice_inv w'
  | Undef out_of_bounds => is_packet i
  | Undef use_after_free => is_error_response i
  | _ => False
  end.
Proof.
  intros Hw Hin. apply reachable_inv in Hw as Hi. split; [done|].
  pose proof (ice_handle_kept i w Hi Hin) as Hk. unfold wp in Hk.
  destruct (ice_handle i w) as [[a w']|e|u]; [by destruct Hk|done|].
  by destruct Hk as [[-> ?]|[-> ?]].
Qed.

(** An environment to run examples in: a clock of one tick per millisecond,
    constant random strings, a socket that takes everything. *)
Definition example_env : IceEnv := {|
  env_clock := fun n => 1000 + Z.of_nat n;
  env_random := fun n => str "transaction" ++ [z_byte (Z.of_nat n)];
  env_send := fun _ => 1;
  env_sha1 := toy_digest;
|}.

Definition example_local : IceParameters := mkIceParameters (str "ufrg") (str "local password").
Definition example_remote : IceParameters := mkIceParameters (str "peer") (str "remote password").

(** Run a list of inputs; [None] when a step does not end normally. *)
Fixpoint ice_run `{IceEnv} (ins : list ice_input) (w : world) : option world :=
  match ins with
  | [] => Some w
  | i :: ins' => match ice_handle i w with Done (_, w') => ice_run ins' w' | _ => None end
  end.

Lemma ice_channel_pointer_safe_witness :
  let w := new_world (str "audio") 1 in
  ice_inv w /\
  match ice_handle (H := example_env) (InSetIceParams example_local) w with
  | Done (_, w') => ice_inv w'
  | Undef out_of_bounds => False
  | Undef use_after_free => False
  | _ => False
  end.
Proof.
  exact (ice_channel_pointer_safe (H := example_env) (str "audio") 1 (new_world (str "audio") 1)
    (InSetIceParams example_local) (@reach_new example_env _ _) I).
Defined.
