(* ===== verification/IceBehaviour.v ===== *)
(** * Behaviour of the ICE components

    What the channel announces, when a connection loses its write state, what
    a response does, and the defects of selection, of error responses and of
    the pair priority. *)

From S2P Require Import Prelude ByteBuffer Crc32 StringEncode IpAddress MessageDigest Stun StunTheory.
From S2P Require Import IceTypes IcePort IceController IceConnection IceChannel IceInvariant.
From S2P Require Import IceControllerTheory IceConnectionTheory IceChannelTheory.
Local Open Scope Z_scope.

(** ** What the channel announces *)

Definition conn_test (w : world) (f : IceConnection -> bool) (p : ptr) : bool :=
  match w_conns w !! p with Some c => f c | None => false end.
Definition any_conn (w : world) (f : IceConnection -> bool) : bool :=
  existsb (conn_test w f) (k_connections (ctl w)).
Definition selected_writable (w : world) : bool :=
  match ch_selected (w_ch w) with Some p => conn_test w conn_writable p | None => false end.

Lemma existsM_conn_test w (f : IceConnection -> bool) :
  readable w ->
  existsM (fun p => c ← conn_at p; mret (f c)) (k_connections (ctl w)) w = Done (any_conn w f, w).
Proof.
  intros Hr. unfold any_conn. pose proof (rd_connections w Hr) as Hl. revert Hl.
  induction (k_connections (ctl w)) as [|p l IH]; intros Hl; [done|].
  destruct (Hl p) as [c Hc]; [left|]. cbn [existsM existsb].
  unfold mbind, M_bind, conn_at, conn_test at 1. rewrite Hc. unfold mret, M_ret.
  destruct (f c); [done|]. apply IH. intros q Hq. apply Hl. by right.
Qed.

Lemma any_conn_quiet w w' f : quiet w w' -> any_conn w' f = any_conn w f.
Proof. intros (A1 & _ & _ & A4 & _). unfold any_conn, conn_test. by rewrite A1, A4. Qed.

(** The announcement of a value that changed. *)
Definition announce {A} `{EqDecision A} (ev : A -> ice_event) (old new : A) : list ice_event :=
  if bool_decide (old = new) then [] else [ev new].

Lemma set_writable_spec b w :
  exists w', set_writable b w = Done ((), w') /\ quiet w w' /\
    ch_writable (w_ch w') = b /\ ch_receiving (w_ch w') = ch_receiving (w_ch w) /\
    ch_state (w_ch w') = ch_state (w_ch w) /\
    ch_has_been_connection (w_ch w') =
      ch_has_been_connection (w_ch w) || (b && negb (ch_writable (w_ch w))) /\
    w_out w' = w_out w ++ announce EvWritable (ch_writable (w_ch w)) b.
Proof.
  unfold set_writable, channel, gets, mbind, M_bind, announce.
  case_bool_decide as E.
  - exists w. split_and!; try done; [|by rewrite app_nil_r].
    rewrite <- E. destruct (ch_writable (w_ch w)); simpl; by rewrite ?orb_false_r.
  - destruct b, (ch_writable (w_ch w)) eqn:Ew; try done; (eexists; split; [reflexivity|]);
      split_and!; try done; simpl; by rewrite ?orb_true_r, ?orb_false_r.
Qed.

Lemma set_receiving_spec b w :
  exists w', set_receiving b w = Done ((), w') /\ quiet w w' /\
    ch_receiving (w_ch w') = b /\ ch_writable (w_ch w') = ch_writable (w_ch w) /\
    ch_state (w_ch w') = ch_state (w_ch w) /\
    ch_has_been_connection (w_ch w') = ch_has_been_connection (w_ch w) /\
    w_out w' = w_out w ++ announce EvReceiving (ch_receiving (w_ch w)) b.
Proof.
  unfold set_receiving, channel, gets, mbind, M_bind, announce.
  case_bool_decide as E.
  - exists w. split_and!; try done. by rewrite app_nil_r.
  - eexists. split; [reflexivity|]. by split_and!.
Qed.

Lemma channel_update_state_full `{IceEnv} (w : world) :
  readable w ->
  exists w', channel_update_state w = Done ((), w') /\ quiet w w' /\
    let writable := selected_writable w in
    let receiving := any_conn w c_receiving in
    let been := ch_has_been_connection (w_ch w) || (writable && negb (ch_writable (w_ch w))) in
    let state := ice_transport_state (ch_had_connection (w_ch w)) been
                   (any_conn w conn_active) writable in
    ch_writable (w_ch w') = writable /\ ch_receiving (w_ch w') = receiving /\
    ch_state (w_ch w') = state /\
    w_out w' = w_out w ++ announce EvWritable (ch_writable (w_ch w)) writable ++
               announce EvReceiving (ch_receiving (w_ch w)) receiving ++
               announce EvIceState (ch_state (w_ch w)) state.
Proof.
  intros Hr. unfold channel_update_state.
  assert (E0 : (ch ← channel; match ch_selected ch with
            | None => mret false | Some p => c ← conn_at p; mret (conn_writable c) end) w
          = Done (selected_writable w, w)).
  { unfold channel, gets, mbind, M_bind, selected_writable, conn_test.
    destruct (ch_selected (w_ch w)) as [p|] eqn:Es; [|done].
    destruct (rd_ch_selected w Hr p Es) as [c Hc]. unfold conn_at. by rewrite Hc. }
  unfold mbind at 1, M_bind. unfold channel, gets in E0 |- *. unfold mbind at 1, M_bind in E0.
  unfold mbind at 1, M_bind. rewrite E0.
  destruct (set_writable_spec (selected_writable w) w) as (w1 & E1 & Q1 & A1 & A2 & A3 & A4 & A5).
  pose proof (quiet_readable _ _ Q1 Hr) as Hr1.
  unfold mbind at 1, M_bind. rewrite E1. unfold mbind at 1, M_bind, controller, gets.
  unfold mbind at 1, M_bind. rewrite existsM_conn_test by done.
  destruct (set_receiving_spec (any_conn w1 c_receiving) w1)
    as (w2 & E2 & Q2 & B1 & B2 & B3 & B4 & B5).
  pose proof (quiet_readable _ _ Q2 Hr1) as Hr2.
  unfold mbind at 1, M_bind. rewrite E2. unfold mbind at 1, M_bind.
  unfold compute_ice_transport_state, controller, gets. unfold mbind at 1, M_bind.
  unfold mbind at 1, M_bind. rewrite existsM_conn_test by done.
  unfold channel, gets, mbind, M_bind, mret, M_ret.
  assert (Q12 : quiet w w2) by (by trans w1).
  rewrite (any_conn_quiet _ _ _ Q12), (any_conn_quiet _ _ _ Q1) in *.
  destruct Q12 as (Q12a & Q12b & Q12c & Q12d & Q12e & Q12f).
  rewrite Q12f, B4, A4, B2, A1, B3, A3.
  set (state := ice_transport_state _ _ _ _).
  case_bool_decide as Est.
  - exists w2. split_and!; try done; [by rewrite B2|by rewrite B3, A3|].
    rewrite B5, A5, A2, <- !app_assoc. unfold announce at 5.
    rewrite (bool_decide_eq_true_2 (_ = state)) by done. by rewrite !app_nil_r.
  - eexists. split; [reflexivity|]. split_and!; try done; simpl; [by rewrite B2|].
    rewrite B5, A5, A2, <- !app_assoc. unfold announce at 5.
    by rewrite (bool_decide_eq_false_2 (_ = state)) by congruence.
Qed.

Lemma channel_update_state_spec_lemma `{IceEnv} (w : world) :
  readable w -> exists w', channel_update_state w = Done ((), w') /\ quiet w w' /\
    ch_writable (w_ch w') = selected_writable w /\ ch_receiving (w_ch w') = any_conn w c_receiving.
Proof.
  intros Hr. destruct (channel_update_state_full w Hr) as (w' & E & Q & Hw & Hrc & _).
  by exists w'.
Qed.

(** After [_update_state] the channel is writable exactly when it has a
    selected connection that is, receiving exactly when some connection is,
    and its ICE state is the one the decision table gives; each of the three is
    announced once when it changed, in the order writable, receiving, state,
    and not otherwise; nothing else of the channel or its connections changes. *)
Theorem channel_update_state_spec `{IceEnv} (w : world) :
  readable w ->
  exists w', channel_update_state w = Done ((), w') /\ quiet w w' /\
    let writable := selected_writable w in
    let receiving := any_conn w c_receiving in
    let been := ch_has_been_connection (w_ch w) || (writable && negb (ch_writable (w_ch w))) in
    let state := ice_transport_state (ch_had_connection (w_ch w)) been
                   (any_conn w conn_active) writable in
    ch_writable (w_ch w') = writable /\ ch_receiving (w_ch w') = receiving /\
    ch_state (w_ch w') = state /\
    w_out w' = w_out w ++ announce EvWritable (ch_writable (w_ch w)) writable ++
               announce EvReceiving (ch_receiving (w_ch w)) receiving ++
               announce EvIceState (ch_state (w_ch w)) state.
Proof. apply channel_update_state_full. Qed.

Lemma channel_update_state_spec_witness :
  exists w', channel_update_state (new_world (str "audio") 1) = Done ((), w') /\
    quiet (new_world (str "audio") 1) w' /\
    ch_writable (w_ch w') = false /\ ch_receiving (w_ch w') = false /\
    ch_state (w_ch w') = ice_new /\ w_out w' = [].
Proof.
  exact (channel_update_state_spec (H := example_env) (new_world (str "audio") 1)
    (inv_readable _ (new_world_inv (str "audio") 1))).
Defined.

(** The decision table, declaratively: which states a channel can be in. *)
Lemma ice_transport_state_cases had been conn wr :
  match ice_transport_state had been conn wr with
  | ice_failed => had = true /\ conn = false
  | ice_disconnected => ~ (had = true /\ conn = false) /\ been = true /\ wr = false
  | ice_new => had = false /\ conn = false /\ ~ (been = true /\ wr = false)
  | ice_checking => conn = true /\ wr = false /\ been = false
  | ice_connected => conn = true /\ wr = true
  | ice_completed | ice_closed => False
  end.
Proof. destruct had, been, conn, wr; cbn; intuition discriminate. Qed.

(** ** The pair priority *)

(** RFC 5245 section 5.7.2, the formula in the comment above [priority()]. *)
Definition rfc_pair_priority (g d : Z) : Z :=
  2 ^ 32 * Z.min g d + 2 * Z.max g d + (if d <? g then 1 else 0).

(** [priority()] is the formula of RFC 5245 as long as both candidate
    priorities are below 2^31, which every priority computed by
    [get_priority] is; it is not for a remote priority of 2^31 or more, which
    a peer may put in its PRIORITY attribute: the doubling wraps at 32 bits,
    and the pair ranks below one with a smaller maximum. *)
Theorem pair_priority_rfc :
  (forall g d, 0 <= g < 2 ^ 31 -> 0 <= d < 2 ^ 31 -> pair_priority g d = rfc_pair_priority g d) /\
  (forall g d, 0 <= g < 2 ^ 31 -> 2 ^ 31 <= d < 2 ^ 32 ->
     pair_priority g d = rfc_pair_priority g d - 2 ^ 32) /\
  pair_priority 1 (2 ^ 31) < pair_priority 1 2 /\
  rfc_pair_priority 1 2 < rfc_pair_priority 1 (2 ^ 31).
Proof.
  split_and!; [| |reflexivity..]; intros g d Hg Hd; unfold pair_priority, rfc_pair_priority;
    rewrite Z.shiftl_mul_pow2 by lia.
  - rewrite u32_id, u64_id by (destruct (d <? g); lia). lia.
  - assert (u32 (2 * Z.max g d) = 2 * Z.max g d - 2 ^ 32) as ->.
    { unfold u32. symmetry. apply (Z.mod_unique _ _ 1); lia. }
    rewrite u64_id by (destruct (d <? g); lia). lia.
Qed.

Lemma pair_priority_rfc_witness :
  pair_priority 2113937151 1853824767 = rfc_pair_priority 2113937151 1853824767.
Proof. apply (proj1 pair_priority_rfc); split; [discriminate|reflexivity|discriminate|reflexivity]. Defined.

(** ** Sorting and updating, in full *)

(** The connections are the same but for the selected flag. *)
Definition same_conns (w w' : world) : Prop :=
  forall p, upd_c_selected (fun _ => false) <$> w_conns w' !! p =
            upd_c_selected (fun _ => false) <$> w_conns w !! p.

#[export] Instance same_conns_preorder : PreOrder same_conns.
Proof.
  split; [by intros w p|]. intros w1 w2 w3 A B p. by rewrite B, A.
Qed.

Lemma same_conns_Some w w' p c :
  same_conns w w' -> w_conns w !! p = Some c ->
  exists c', w_conns w' !! p = Some c' /\
    upd_c_selected (fun _ => false) c' = upd_c_selected (fun _ => false) c.
Proof.
  intros Hs Hc. specialize (Hs p). rewrite Hc in Hs.
  destruct (w_conns w' !! p) as [c'|]; [|done]. exists c'. split; [done|].
  by apply (inj Some) in Hs.
Qed.

(** Fields other than the flag are read alike. *)
Lemma flagless_eq c c' (A : Type) (f : IceConnection -> A) :
  upd_c_selected (fun _ => false) c' = upd_c_selected (fun _ => false) c ->
  (forall b x, f (upd_c_selected b x) = f x) -> f c' = f c.
Proof. intros E Hf. rewrite <- (Hf (fun _ => false) c'), E. apply Hf. Qed.

Lemma same_conns_test w w' f p :
  same_conns w w' -> (forall b x, f (upd_c_selected b x) = f x) ->
  conn_test w' f p = conn_test w f p.
Proof.
  intros Hs Hf. unfold conn_test. specialize (Hs p).
  destruct (w_conns w' !! p) as [c'|], (w_conns w !! p) as [c|]; try done.
  apply (inj Some) in Hs. by apply flagless_eq.
Qed.

Lemma quiet_same_conns w w' : quiet w w' -> same_conns w w'.
Proof. intros (A & _) p. by rewrite A. Qed.

Lemma switched_same_conns p w w' : switched p w w' -> same_conns w w'.
Proof.
  intros (_ & _ & _ & _ & _ & _ & _ & _ & Hc) q. rewrite Hc. by destruct (w_conns w !! q) as [[]|].
Qed.

Section sorting.
Context `{IceEnv}.

Lemma maybe_start_pinging_spec w :
  readable w -> exists w', maybe_start_pinging w = Done ((), w') /\ quiet w w' /\
    ch_writable (w_ch w') = ch_writable (w_ch w) /\ ch_state (w_ch w') = ch_state (w_ch w) /\
    ch_receiving (w_ch w') = ch_receiving (w_ch w).
Proof.
  intros Hr. unfold maybe_start_pinging, channel, gets, mbind, M_bind.
  destruct (ch_start_pinging (w_ch w)); [by exists w|].
  unfold has_pingable_connection, TimeMillis, controller, gets, mbind, M_bind.
  set (w1 := upd_w_ticks S w). assert (Hq : quiet w w1) by done.
  destruct (reads_existsM (fun p => is_pingable p (env_clock (w_ticks w))) (k_connections (ctl w1))
    w1) as [b Eb].
  { intros p Hp. pose proof (quiet_readable _ _ Hq Hr) as Hr1.
    apply is_pingable_reads; [done|]. by apply rd_connections. }
  rewrite Eb. destruct b; [|by exists w1]. eexists. split; [reflexivity|]. by split_and!.
Qed.

(** What one round of sorting, switching and updating does. *)
Lemma sort_update_spec w :
  readable w ->
  exists o l w', sort_connection_and_update_state w = Done ((), w') /\
    sort_result w o l /\ readable w' /\ same_conns w w' /\
    k_connections (ctl w') ≡ₚ k_connections (ctl w) /\
    ch_selected (w_ch w') = match o with Some p => Some p | None => ch_selected (w_ch w) end /\
    k_selected (ctl w') = match o with Some p => Some p | None => k_selected (ctl w) end /\
    ch_writable (w_ch w') = selected_writable w' /\
    ch_receiving (w_ch w') = any_conn w' c_receiving.
Proof.
  intros Hr. destruct (sort_and_switch_spec w Hr) as (o & l & E & Hres & Hperm).
  set (w1 := reorder (map rk_ptr l) w) in *.
  assert (Hr1 : readable w1) by (by apply reorder_readable).
  assert (exists w2, maybe_switch_selected_connection o w1 = Done ((), w2) /\ readable w2 /\
    same_conns w w2 /\ k_connections (ctl w2) = k_connections (ctl w1) /\
    ch_selected (w_ch w2) = match o with Some p => Some p | None => ch_selected (w_ch w) end /\
    k_selected (ctl w2) = match o with Some p => Some p | None => k_selected (ctl w) end)
    as (w2 & E2 & Hr2 & Hs2 & Hk2 & Hc2 & Hks2).
  { destruct o as [p|]; [|by exists w1].
    assert (Hp : live w1 p) by (apply rd_connections; [done|]; by eapply sort_result_head).
    destruct (switch_selected_spec p w1 Hr1 Hp) as (w2 & E2 & Hs2). exists w2.
    pose proof (switched_same_conns p w1 w2 Hs2).
    pose proof (switched_readable p w1 w2 Hs2 Hr1 Hp).
    destruct Hs2 as (_ & _ & ? & _ & _ & _ & ? & ? & _). by split_and!. }
  destruct (channel_update_state_spec_lemma w2 Hr2) as (w3 & E3 & Q3 & Hw3 & Hrc3).
  pose proof (quiet_readable _ _ Q3 Hr2) as Hr3.
  destruct (maybe_start_pinging_spec w3 Hr3) as (w4 & E4 & Q4 & Hw4 & _ & Hrc4).
  assert (Q : quiet w2 w4) by (by trans w3).
  exists o, l, w4. split_and!.
  - unfold sort_connection_and_update_state, mbind, M_bind. by rewrite E, E2, E3.
  - done.
  - by eapply quiet_readable.
  - trans w2; [done|]. by apply quiet_same_conns.
  - destruct Q as (_ & _ & _ & -> & _). by rewrite Hk2.
  - destruct Q as (_ & _ & _ & _ & -> & _). done.
  - destruct Q as (_ & _ & _ & -> & _). done.
  - rewrite Hw4, Hw3. destruct Q as (A & _ & _ & _ & B & _).
    unfold selected_writable, conn_test. by rewrite A, B.
  - rewrite Hrc4, Hrc3. symmetry. by apply any_conn_quiet.
Qed.
End sorting.

(** ** The states of one connection *)

Definition flagless (c : IceConnection) : IceConnection := upd_c_selected (fun _ => false) c.

(** The connection [p] changed by [f], the others and every selected flag
    apart. *)
Definition conn_changed (p : ptr) (f : IceConnection -> IceConnection) (w w' : world) : Prop :=
  readable w' /\
  forall q, flagless <$> w_conns w' !! q =
            (fun c => if bool_decide (q = p) then flagless (f c) else flagless c) <$> w_conns w !! q.

(** A field update that does not look at the selected flag. *)
Definition flag_blind (f : IceConnection -> IceConnection) : Prop :=
  forall c, flagless (f (flagless c)) = flagless (f c).

Lemma conn_changed_trans p f g w1 w2 w3 :
  flag_blind g -> conn_changed p f w1 w2 -> conn_changed p g w2 w3 ->
  conn_changed p (fun c => g (f c)) w1 w3.
Proof.
  intros Hg [_ H1] [Hr H2]. split; [done|]. intros q. rewrite H2. specialize (H1 q).
  destruct (w_conns w2 !! q) as [c2|], (w_conns w1 !! q) as [c1|]; try done.
  apply (inj Some) in H1. simpl. case_bool_decide; [|by rewrite H1].
  by rewrite <- Hg, H1, Hg.
Qed.

Lemma conn_changed_id p f w : readable w -> (forall c, flagless (f c) = flagless c) -> conn_changed p f w w.
Proof.
  intros Hr Hf. split; [done|]. intros q. destruct (w_conns w !! q); [|done].
  simpl. case_bool_decide; [by rewrite Hf|done].
Qed.

Lemma conn_changed_same p f w1 w2 w3 :
  conn_changed p f w1 w2 -> same_conns w2 w3 -> readable w3 -> conn_changed p f w1 w3.
Proof. intros [_ H1] Hs Hr. split; [done|]. intros q. by rewrite Hs, H1. Qed.

Lemma conn_changed_at p f w w' c :
  conn_changed p f w w' -> w_conns w !! p = Some c ->
  exists c', w_conns w' !! p = Some c' /\ flagless c' = flagless (f c).
Proof.
  intros [_ H] Hc. specialize (H p). rewrite Hc in H. simpl in H.
  rewrite bool_decide_eq_true_2 in H by done.
  destruct (w_conns w' !! p) as [c'|]; [|done]. exists c'. split; [done|]. by apply (inj Some) in H.
Qed.

Lemma conn_set_changed p f w c :
  readable w -> w_conns w !! p = Some c -> (forall x, c_port (f x) = c_port x) ->
  flag_blind f ->
  conn_set p f w = Done ((), upd_w_conns (alter f p) w) /\
  conn_changed p f w (upd_w_conns (alter f p) w).
Proof.
  intros [R1 R2 R3 R4] Hc Hport Hf. split.
  { unfold conn_set, conn_at, modify, mbind, M_bind. by rewrite Hc. }
  split; [split; unfold live; simpl|].
  - intros q Hq. rewrite lookup_alter_is_Some. by apply R1.
  - intros q Hq. rewrite lookup_alter_is_Some. by apply R2.
  - intros q Hq. rewrite lookup_alter_is_Some. by apply R3.
  - intros q x Hq. destruct (decide (q = p)) as [->|Hne].
    + rewrite lookup_alter_eq, Hc in Hq. injection Hq as <-. rewrite Hport. by eapply R4.
    + rewrite lookup_alter_ne in Hq by done. by eapply R4.
  - intros q. simpl. destruct (decide (q = p)) as [->|Hne].
    + rewrite lookup_alter_eq, Hc. simpl. by rewrite bool_decide_eq_true_2.
    + rewrite lookup_alter_ne by done. destruct (w_conns w !! q); [|done]. simpl.
      by rewrite bool_decide_eq_false_2.
Qed.

(** What [update_state] makes of the write state and of [_receiving]. *)
Definition next_write_state (c : IceConnection) (now : Z) : WriteState :=
  let fails := too_many_ping_fails c CONNECTION_WRITE_CONNECT_FAILS (ping_response_time c) now in
  let timed_out := too_long_without_response c CONNECTION_WRITE_TIMEOUT now in
  match c_write_state c with
  | STATE_WRITABLE =>
      if fails && too_long_without_response c CONNECTION_WRITE_CONNECT_TIMEOUT now
      then if timed_out then STATE_WRITE_TIMEOUT else STATE_WRITE_UNRELIABLE
      else STATE_WRITABLE
  | STATE_WRITE_UNRELIABLE | STATE_WRITE_INIT =>
      if timed_out then STATE_WRITE_TIMEOUT else c_write_state c
  | STATE_WRITE_TIMEOUT => STATE_WRITE_TIMEOUT
  end.

Definition next_receiving (c : IceConnection) (now : Z) : bool :=
  (c_last_ping_sent c <? c_last_ping_response_received c) ||
  ((0 <? last_received c) && (now <? last_received c + WEAK_CONNECTION_RECEIVE_TIMEOUT)).

Section connection_states.
Context `{IceEnv}.

Lemma sort_same w :
  readable w -> exists w', sort_connection_and_update_state w = Done ((), w') /\
    readable w' /\ same_conns w w'.
Proof.
  intros Hr. destruct (sort_update_spec w Hr) as (o & l & w' & E & _ & Hr' & Hs & _).
  by exists w'.
Qed.

Lemma set_write_state_changed p s w c :
  readable w -> w_conns w !! p = Some c ->
  exists w', set_write_state p s w = Done ((), w') /\
    conn_changed p (upd_c_write_state (fun _ => s)) w w'.
Proof.
  intros Hr Hc. unfold set_write_state, mbind at 1, M_bind, conn_at. rewrite Hc.
  destruct (conn_set_changed p (upd_c_write_state (fun _ => s)) w c Hr Hc) as [E1 H1]; [done..|].
  unfold mbind, M_bind. rewrite E1. case_bool_decide; [by eexists|].
  destruct (sort_same _ (proj1 H1)) as (w' & E' & Hr' & Hs'). exists w'. split; [exact E'|].
  by eapply conn_changed_same.
Qed.

Lemma update_receiving_changed p now w c :
  readable w -> w_conns w !! p = Some c ->
  exists w', update_receiving p now w = Done ((), w') /\
    conn_changed p (upd_c_receiving (fun _ => next_receiving c now)) w w'.
Proof.
  intros Hr Hc. unfold update_receiving, mbind at 1, M_bind, conn_at. rewrite Hc.
  assert (Hn : (if c_last_ping_sent c <? c_last_ping_response_received c then true
    else (0 <? last_received c) && (now <? last_received c + WEAK_CONNECTION_RECEIVE_TIMEOUT))
    = next_receiving c now).
  { unfold next_receiving. by destruct (_ <? c_last_ping_response_received c). }
  rewrite Hn. case_bool_decide as Er.
  - exists w. split; [done|]. split; [done|]. intros q.
    destruct (decide (q = p)) as [->|Hne].
    + rewrite Hc. simpl. rewrite bool_decide_eq_true_2 by done. rewrite <- Er. by destruct c.
    + destruct (w_conns w !! q); [|done]. simpl. by rewrite bool_decide_eq_false_2.
  - destruct (conn_set_changed p (upd_c_receiving (fun _ => next_receiving c now)) w c Hr Hc)
      as [E1 H1]; [done..|].
    unfold mbind, M_bind. rewrite E1.
    destruct (sort_same _ (proj1 H1)) as (w' & E' & Hr' & Hs'). exists w'. split; [exact E'|].
    by eapply conn_changed_same.
Qed.

Lemma flagless_next_receiving c c' now :
  flagless c' = flagless c -> next_receiving c' now = next_receiving c now.
Proof. intros E. by apply (flagless_eq c c' bool (fun x => next_receiving x now)). Qed.

Lemma update_conn_state_changed p now w c :
  readable w -> w_conns w !! p = Some c ->
  exists w', update_conn_state p now w = Done ((), w') /\
    conn_changed p (fun x => upd_c_receiving (fun _ => next_receiving c now)
                      (upd_c_write_state (fun _ => next_write_state c now) x)) w w'.
Proof.
  intros Hr Hc. unfold update_conn_state. unfold mbind at 1, M_bind. unfold conn_at at 1.
  rewrite Hc. set (cond1 := _ && _ && _).
  set (s1 := if cond1 then STATE_WRITE_UNRELIABLE else c_write_state c).
  assert (exists w1, (if cond1 then set_write_state p STATE_WRITE_UNRELIABLE else mret ()) w
    = Done ((), w1) /\ conn_changed p (upd_c_write_state (fun _ => s1)) w w1)
    as (w1 & E1 & H1).
  { subst s1. destruct cond1; [by eapply set_write_state_changed|]. exists w. split; [done|].
    split; [done|]. intros q. destruct (decide (q = p)) as [->|Hne].
    - rewrite Hc. simpl. rewrite bool_decide_eq_true_2 by done. by destruct c.
    - destruct (w_conns w !! q); [|done]. simpl. by rewrite bool_decide_eq_false_2. }
  unfold mbind at 1, M_bind. rewrite E1.
  destruct (conn_changed_at _ _ _ _ _ H1 Hc) as (c1 & Hc1 & F1).
  unfold mbind at 1, M_bind. unfold conn_at at 1. rewrite Hc1.
  assert (W1 : c_write_state c1 = s1) by (by apply (f_equal c_write_state) in F1).
  assert (T1 : too_long_without_response c1 CONNECTION_WRITE_TIMEOUT now =
               too_long_without_response c CONNECTION_WRITE_TIMEOUT now).
  { apply (f_equal c_pings) in F1. cbn in F1. unfold too_long_without_response. by rewrite F1. }
  rewrite W1, T1. set (cond2 := _ && _).
  set (s2 := if cond2 then STATE_WRITE_TIMEOUT else s1).
  assert (exists w2, (if cond2 then set_write_state p STATE_WRITE_TIMEOUT else mret ()) w1
    = Done ((), w2) /\ conn_changed p (upd_c_write_state (fun _ => s2)) w1 w2)
    as (w2 & E2 & H2).
  { subst s2. destruct cond2; [by eapply set_write_state_changed; [apply H1|]|]. exists w1.
    split; [done|]. split; [apply H1|]. intros q. destruct (decide (q = p)) as [->|Hne].
    - rewrite Hc1. simpl. rewrite bool_decide_eq_true_2 by done. rewrite <- W1. by destruct c1.
    - destruct (w_conns w1 !! q); [|done]. simpl. by rewrite bool_decide_eq_false_2. }
  unfold mbind at 1, M_bind. rewrite E2.
  destruct (conn_changed_at _ _ _ _ _ H2 Hc1) as (c2 & Hc2 & F2).
  destruct (update_receiving_changed p now w2 c2 (proj1 H2) Hc2) as (w3 & E3 & H3).
  exists w3. split; [exact E3|].
  assert (next_receiving c2 now = next_receiving c now) as Hnr.
  { rewrite (flagless_next_receiving _ _ now F2).
    exact (flagless_next_receiving _ _ now F1). }
  rewrite Hnr in H3.
  assert (s2 = next_write_state c now) as <-.
  { unfold s2, cond2, s1, cond1, next_write_state.
    destruct (too_many_ping_fails c _ _ now), (too_long_without_response c
      CONNECTION_WRITE_CONNECT_TIMEOUT now), (too_long_without_response c
      CONNECTION_WRITE_TIMEOUT now), (c_write_state c); reflexivity. }
  assert (H12 : conn_changed p (upd_c_write_state (fun _ => s2)) w w2).
  { pose proof (conn_changed_trans p _ (upd_c_write_state (fun _ => s2)) w w1 w2
      (fun _ => eq_refl) H1 H2) as [Hr2 Hx].
    split; [done|]. intros q. rewrite Hx. by destruct (w_conns w !! q). }
  exact (conn_changed_trans p _ (upd_c_receiving (fun _ => next_receiving c now)) w w2 w3
    (fun _ => eq_refl) H12 H3).
Qed.
End connection_states.

(** [update_state], with the re-sorting and the channel updates each
    state change triggers on the way, amounts to a pure function of the
    connection and the clock: a writable connection turns unreliable exactly
    when five pings are unanswered, the fifth for longer than twice the
    round-trip time clamped to [100, 60000] ms, and the first for more than
    5 s; an unreliable or new one times out exactly when the first is
    unanswered for more than 15 s; a timed-out one stays so; the connection
    receives while the last response is younger than the last ping or than
    2.5 s.  Nothing else of any connection changes but the selected flags. *)
Theorem update_state_spec `{IceEnv} (p : ptr) (now : Z) (w : world) (c : IceConnection) :
  ice_inv w -> w_conns w !! p = Some c ->
  exists w' c', update_conn_state p now w = Done ((), w') /\ w_conns w' !! p = Some c' /\
    flagless c' = flagless (upd_c_receiving (fun _ => next_receiving c now)
                    (upd_c_write_state (fun _ => next_write_state c now) c)) /\
    forall q d, q <> p -> w_conns w !! q = Some d ->
      exists d', w_conns w' !! q = Some d' /\ flagless d' = flagless d.
Proof.
  intros Hi Hc.
  destruct (update_conn_state_changed p now w c (inv_readable w Hi) Hc) as (w' & E & H').
  destruct (conn_changed_at _ _ _ _ _ H' Hc) as (c' & Hc' & F').
  exists w', c'. split_and!; [done..|]. intros q d Hne Hq. destruct H' as [_ H'].
  specialize (H' q). rewrite Hq in H'. simpl in H'. rewrite bool_decide_eq_false_2 in H' by done.
  destruct (w_conns w' !! q) as [d'|]; [|done]. exists d'. split; [done|].
  by apply (inj Some) in H'.
Qed.

(** ** An example run *)

Definition example_peer : SocketAddress := mk_addr (ip_v4 0x0A000002) 40000.

(** A message signed with [pwd] and fingerprinted, as bytes. *)
Definition signed `{IceEnv} (m : StunMessage) (pwd : bytes) : bytes :=
  snd (stun_write (snd (add_fingerprint (snd (add_message_integrity env_sha1 m pwd)))) []).

(** The peer's binding request. *)
Definition example_binding_request `{IceEnv} : bytes :=
  let m := set_type (set_transaction_id new_StunMessage (str "peer-request")) STUN_BINDING_REQUEST in
  let m := add_attribute m (StunByteStringAttribute STUN_ATTR_USERNAME (str "ufrg:peer")) in
  let m := add_attribute m (StunUInt32Attribute STUN_ATTR_PRIORITY 1853824767) in
  signed m (ice_pwd example_local).

(** The peer's answer of type [t] to the first ping. *)
Definition example_ping_answer `{IceEnv} (t : Z) : bytes :=
  signed (set_type (set_transaction_id new_StunMessage
                      (take k_stun_transaction_id_length (env_random 0))) t)
    (ice_pwd example_remote).

(** Gathering, the peer's request, one ping. *)
Definition example_inputs `{IceEnv} : list ice_input :=
  [InSetIceParams example_local; InGather [Some 50000]; InSetRemoteIceParams example_remote;
   InPacket 0 example_binding_request example_peer 0; InTimer].

Definition example_world : world :=
  default (new_world [] 1)
    (ice_run (H := example_env) (example_inputs (H := example_env))
       (new_world (str "audio") 1)).

Lemma example_world_run :
  ice_run (H := example_env) (example_inputs (H := example_env)) (new_world (str "audio") 1)
  = Some example_world.
Proof. vm_compute. reflexivity. Qed.

(** Reachability by running, checking each input on the way. *)
Fixpoint inputs_ok `{IceEnv} (ins : list ice_input) (w : world) : bool :=
  match ins with
  | [] => true
  | i :: ins' =>
      match i with
      | InPacket port _ _ _ => match w_ports w !! port with Some p => p_open p | None => false end
      | _ => true
      end && match ice_handle i w with Done (_, w') => inputs_ok ins' w' | _ => false end
  end.

Lemma ice_run_reachable `{IceEnv} name comp ins w w' :
  ice_reachable name comp w -> inputs_ok ins w = true -> ice_run ins w = Some w' ->
  ice_reachable name comp w'.
Proof.
  revert w. induction ins as [|i ins IH]; intros w Hw Hok Hrun; simpl in *; [congruence|].
  apply andb_true_iff in Hok as [Hi Hok]. destruct (ice_handle i w) as [[[] w1]| |] eqn:E; [|done..].
  apply (IH w1); [|done..]. eapply reach_step; [done| |exact E].
  destruct i; try done. simpl. destruct (w_ports w !! port) as [q|]; [|done]. by exists q.
Qed.

Lemma example_world_inv : ice_inv example_world.
Proof.
  apply (reachable_inv (H := example_env) (str "audio") 1).
  eapply ice_run_reachable; [apply reach_new| |apply example_world_run].
  vm_compute. reflexivity.
Qed.

(** The one connection of the example. *)
Definition example_conn : IceConnection :=
  default (new_connection 0 (Build_Candidate 1 [] nil_addr 0 0 [] [] [] []))
    (w_conns example_world !! 0%nat).

Lemma example_conn_at : w_conns example_world !! 0%nat = Some example_conn.
Proof. vm_compute. reflexivity. Qed.

#[local] Existing Instance example_env.

(** Twenty seconds later the unanswered ping times the connection out. *)
Lemma update_state_spec_witness :
  exists w' c', update_conn_state 0 21000 example_world = Done ((), w') /\
    w_conns w' !! 0%nat = Some c' /\
    flagless c' = flagless (upd_c_receiving (fun _ => next_receiving example_conn 21000)
      (upd_c_write_state (fun _ => next_write_state example_conn 21000) example_conn)) /\
    forall q d, q <> 0%nat -> w_conns example_world !! q = Some d ->
      exists d', w_conns w' !! q = Some d' /\ flagless d' = flagless d.
Proof.
  exact (update_state_spec (H := example_env) 0 21000 example_world example_conn
    example_world_inv example_conn_at).
Defined.

Example example_conn_times_out : next_write_state example_conn 21000 = STATE_WRITE_TIMEOUT.
Proof. vm_compute. reflexivity. Qed.

(** ** A response makes the channel writable *)

(** The connection after a response with round-trip time [rtt] at time [now]. *)
Definition after_response (rtt now : Z) (c : IceConnection) : IceConnection :=
  upd_c_state (fun _ => SUCCEEDED)
    (upd_c_write_state (fun _ => STATE_WRITABLE)
      (upd_c_pings (fun _ => [])
        (upd_c_last_ping_response_received (fun _ => now)
          (upd_c_rtt_samples (fun n => n + 1)
            (upd_c_rtt (fun old => if 0 <? c_rtt_samples c
               then GetNextMovingAverage old rtt RTT_RATIO else rtt) c))))).

Lemma sort_no_ready w o l :
  sort_result w o l -> (forall p c, w_conns w !! p = Some c -> ready_to_send c = false) -> o = None.
Proof.
  intros (rs & HF & -> & Hl) Hno. destruct (stable_sort conn_before rs) as [|top l'] eqn:E; [done|].
  destruct Hl as [_ ->].
  assert (Hin : top ∈ rs) by (rewrite <- (conn_sort_perm rs), E; left).
  apply list_elem_of_lookup in Hin as [k Hk].
  destruct (Forall2_lookup_r _ _ _ _ _ HF Hk) as (p & _ & _ & Hc & _).
  by rewrite (Hno _ _ Hc).
Qed.

Lemma sort_only_ready w o l p c :
  sort_result w o l -> p ∈ k_connections (ctl w) -> w_conns w !! p = Some c ->
  conn_writable c = true -> k_selected (ctl w) = None ->
  (forall q d, q <> p -> w_conns w !! q = Some d -> conn_writable d = false) -> o = Some p.
Proof.
  intros (rs & HF & -> & Hl) Hp Hc Hw Hsel Hother.
  apply list_elem_of_lookup in Hp as [k Hk].
  destruct (Forall2_lookup_l _ _ _ _ _ HF Hk) as (r & Hr & Hrp & Hrc & _).
  destruct (stable_sort conn_before rs) as [|top l'] eqn:E.
  { apply list_elem_of_lookup_2 in Hr. rewrite <- (conn_sort_perm rs), E in Hr.
    by apply elem_of_nil in Hr. }
  destruct Hl as [Hbest ->].
  assert (Hin : top ∈ rs) by (rewrite <- (conn_sort_perm rs), E; left).
  apply list_elem_of_lookup in Hin as [j Hj].
  destruct (Forall2_lookup_r _ _ _ _ _ HF Hj) as (q & _ & Hqp & Hqc & _).
  destruct (decide (q = p)) as [->|Hne].
  - rewrite Hqp, Hsel. cbn. rewrite Hc in Hqc. injection Hqc as ->.
    unfold ready_to_send. by rewrite Hw.
  - destruct (Hbest r); [by eapply list_elem_of_lookup_2|].
    left. split; [congruence|]. by eapply Hother.
Qed.

Section responses.
Context `{IceEnv}.

(** The quiet part of a response: counters, clock, receiving. *)
Lemma received_ping_response_steps p rtt w c :
  readable w -> w_conns w !! p = Some c ->
  exists now w1, readable w1 /\
    (_ ← conn_set p (fun c => upd_c_rtt_samples (fun n => n + 1)
           (upd_c_rtt (fun old => if 0 <? c_rtt_samples c
              then GetNextMovingAverage old rtt RTT_RATIO else rtt) c));
     now ← TimeMillis;
     _ ← conn_set p (fun c => upd_c_pings (fun _ => [])
           (upd_c_last_ping_response_received (fun _ => now) c));
     mret now) w = Done (now, w1) /\
    conn_changed p (fun x => upd_c_pings (fun _ => [])
      (upd_c_last_ping_response_received (fun _ => now)
        (upd_c_rtt_samples (fun n => n + 1)
          (upd_c_rtt (fun old => if 0 <? c_rtt_samples x
             then GetNextMovingAverage old rtt RTT_RATIO else rtt) x)))) w w1 /\
    w_ch w1 = w_ch w.
Proof.
  intros Hr Hc.
  set (f1 := fun c => upd_c_rtt_samples (fun n => n + 1)
           (upd_c_rtt (fun old => if 0 <? c_rtt_samples c
              then GetNextMovingAverage old rtt RTT_RATIO else rtt) c)).
  destruct (conn_set_changed p f1 w c Hr Hc) as [E1 H1]; [done..|].
  set (w1 := upd_w_conns (alter f1 p) w) in *.
  set (w2 := upd_w_ticks S w1). set (now := env_clock (w_ticks w1)).
  assert (Hq : quiet w1 w2) by done.
  pose proof (quiet_readable _ _ Hq (proj1 H1)) as Hr2.
  pose proof (conn_changed_same _ _ _ _ _ H1 (quiet_same_conns _ _ Hq) Hr2) as H2.
  destruct (conn_changed_at _ _ _ _ _ H2 Hc) as (c2 & Hc2 & _).
  set (f2 := fun c => upd_c_pings (fun _ => [])
                        (upd_c_last_ping_response_received (fun _ => now) c)).
  destruct (conn_set_changed p f2 w2 c2 Hr2 Hc2) as [E3 H3]; [done..|].
  exists now, (upd_w_conns (alter f2 p) w2). split_and!; [apply H3| | |done].
  - unfold mbind, M_bind. rewrite E1. cbv beta iota delta [TimeMillis].
    change (match conn_set p f2 w2 with
            | Done (_, w') => (mret now : M Z) w' | Throws e => Throws e | Undef u => Undef u end =
            Done (now, upd_w_conns (alter f2 p) w2)).
    by rewrite E3.
  - exact (conn_changed_trans p f1 f2 w w2 _ (fun _ => eq_refl) H2 H3).
Qed.

Lemma conn_changed_ready p f w w' :
  conn_changed p f w w' -> (forall c, c_write_state (f c) = c_write_state c) ->
  (forall q c, w_conns w !! q = Some c -> ready_to_send c = false) ->
  forall q c, w_conns w' !! q = Some c -> ready_to_send c = false.
Proof.
  intros [_ H'] Hf Hno q c Hq. specialize (H' q). rewrite Hq in H'.
  destruct (w_conns w !! q) as [d|] eqn:Ed; [|done]. simpl in H'. apply (inj Some) in H'.
  assert (c_write_state c = c_write_state d) as E.
  { transitivity (c_write_state (flagless c)); [done|]. rewrite H'.
    case_bool_decide; cbn; [by rewrite Hf|done]. }
  pose proof (Hno q d Ed) as Hd. unfold ready_to_send, conn_writable in *. by rewrite E.
Qed.

Lemma sort_not_ready w :
  readable w -> (forall p c, w_conns w !! p = Some c -> ready_to_send c = false) ->
  exists w', sort_connection_and_update_state w = Done ((), w') /\ readable w' /\
    same_conns w w' /\ k_connections (ctl w') ≡ₚ k_connections (ctl w) /\
    ch_selected (w_ch w') = ch_selected (w_ch w) /\ k_selected (ctl w') = k_selected (ctl w).
Proof.
  intros Hr Hno. destruct (sort_update_spec w Hr)
    as (o & l & w' & E & Hres & Hr' & Hs & Hk & Hc & Hks & _).
  rewrite (sort_no_ready _ _ _ Hres Hno) in Hc, Hks. by exists w'.
Qed.

(** From a world where nothing is selected or ready, [p] turns writable. *)
Lemma first_writable p w c :
  readable w -> w_conns w !! p = Some c -> p ∈ k_connections (ctl w) ->
  (forall q d, w_conns w !! q = Some d -> ready_to_send d = false) ->
  k_selected (ctl w) = None ->
  exists w' c', set_write_state p STATE_WRITABLE w = Done ((), w') /\ readable w' /\
    w_conns w' !! p = Some c' /\ flagless c' = flagless (upd_c_write_state (fun _ => STATE_WRITABLE) c) /\
    ch_selected (w_ch w') = Some p /\ k_selected (ctl w') = Some p /\ ch_writable (w_ch w') = true.
Proof.
  intros Hr Hc Hp Hno Hks. unfold set_write_state, mbind at 1, M_bind, conn_at. rewrite Hc.
  destruct (conn_set_changed p (upd_c_write_state (fun _ => STATE_WRITABLE)) w c Hr Hc)
    as [E1 H1]; [done..|].
  unfold mbind, M_bind. rewrite E1. set (w1 := upd_w_conns _ w) in *.
  rewrite bool_decide_eq_false_2
    by (intros E; specialize (Hno p c Hc); unfold ready_to_send, conn_writable in Hno;
        by rewrite E in Hno).
  assert (Hc1 : w_conns w1 !! p = Some (upd_c_write_state (fun _ => STATE_WRITABLE) c)).
  { simpl. by rewrite lookup_alter_eq, Hc. }
  destruct (sort_update_spec w1 (proj1 H1))
    as (o & l & w2 & E2 & Hres & Hr2 & Hs2 & _ & Hc2 & Hks2 & Hw2 & _).
  assert (o = Some p) as ->.
  { eapply (sort_only_ready w1 o l p); [exact Hres|exact Hp|exact Hc1|done|exact Hks|].
    intros q d Hne Hq. simpl in Hq. rewrite lookup_alter_ne in Hq by done.
    pose proof (Hno q d Hq) as Hd. unfold ready_to_send in Hd.
    by apply orb_false_iff in Hd as [Hd _]. }
  destruct (same_conns_Some _ _ _ _ Hs2 Hc1) as (c2 & Hcc2 & F2).
  exists w2, c2. split_and!; try done. rewrite Hw2. unfold selected_writable, conn_test.
  rewrite Hc2, Hcc2. apply (f_equal c_write_state) in F2. unfold conn_writable.
  by apply bool_decide_eq_true_2.
Qed.
End responses.

(** C27: the first connectivity check that succeeds makes the channel
    writable.  When no connection can be sent on yet and none is selected, a
    response on [p] with round-trip time [rtt] leaves [p] writable, succeeded,
    with no ping outstanding and its round-trip time updated (the sample
    itself, or the moving average 3:1 after the first), selects [p] in the
    channel and in the controller, and makes the channel writable. *)
Theorem first_response_selects `{IceEnv} (p : ptr) (rtt : Z) (w : world) (c : IceConnection) :
  ice_inv w -> w_conns w !! p = Some c ->
  (forall q d, w_conns w !! q = Some d -> ready_to_send d = false) ->
  ch_selected (w_ch w) = None ->
  exists w' c' now, received_ping_response p rtt w = Done ((), w') /\
    w_conns w' !! p = Some c' /\ c_write_state c' = STATE_WRITABLE /\ c_state c' = SUCCEEDED /\
    c_pings c' = [] /\ c_last_ping_response_received c' = now /\
    c_rtt c' = (if 0 <? c_rtt_samples c then GetNextMovingAverage (c_rtt c) rtt RTT_RATIO else rtt) /\
    c_rtt_samples c' = c_rtt_samples c + 1 /\
    ch_selected (w_ch w') = Some p /\ k_selected (ctl w') = Some p /\ ch_writable (w_ch w') = true.
Proof.
  intros Hi Hc Hno Hsel. pose proof (inv_readable w Hi) as Hr.
  assert (Hp : p ∈ k_connections (ctl w)) by (apply (inv_live w Hi); by exists c).
  destruct (received_ping_response_steps p rtt w c Hr Hc) as (now & w1 & Hr1 & E1 & H1 & Hch1).
  pose proof (conn_changed_ready _ _ _ _ H1 (fun _ => eq_refl) Hno) as Hno1.
  destruct (conn_changed_at _ _ _ _ _ H1 Hc) as (c1 & Hc1 & F1).
  destruct (update_receiving_changed p now w1 c1 Hr1 Hc1) as (w2' & E2' & H2').
  assert (exists w2, update_receiving p now w1 = Done ((), w2) /\
    conn_changed p (upd_c_receiving (fun _ => next_receiving c1 now)) w1 w2 /\
    k_connections (ctl w2) ≡ₚ k_connections (ctl w1) /\ k_selected (ctl w2) = k_selected (ctl w1))
    as (w2 & E2 & H2 & Hk2 & Hks2).
  { exists w2'. split; [done|]. split; [done|]. revert E2'.
    unfold update_receiving, mbind at 1, M_bind, conn_at. rewrite Hc1.
    set (rcv := if _ <? _ then true else _). case_bool_decide; [by intros [= <-]|].
    destruct (conn_set_changed p (upd_c_receiving (fun _ => rcv)) w1 c1 Hr1 Hc1) as [E3 H3]; [done..|].
    unfold mbind, M_bind. rewrite E3.
    pose proof (conn_changed_ready _ _ _ _ H3 (fun _ => eq_refl) Hno1) as Hno3.
    destruct (sort_not_ready _ (proj1 H3) Hno3) as (w4 & E4 & _ & _ & Hk4 & _ & Hks4).
    cbn. intros E5. rewrite E4 in E5. injection E5 as <-. done. }
  pose proof (conn_changed_ready _ _ _ _ H2 (fun _ => eq_refl) Hno1) as Hno2.
  destruct (conn_changed_at _ _ _ _ _ H2 Hc1) as (c2 & Hc2 & F2).
  destruct (first_writable p w2 c2 (proj1 H2) Hc2) as (w3 & c3 & E3 & Hr3 & Hc3 & F3 & S3 & K3 & W3).
  { rewrite Hk2, Hch1. done. }
  { exact Hno2. }
  { rewrite Hks2, Hch1. by rewrite (inv_selected w Hi). }
  destruct (conn_set_changed p (upd_c_state (fun _ => SUCCEEDED)) w3 c3 Hr3 Hc3) as [E4 H4]; [done..|].
  exists (upd_w_conns (alter (upd_c_state (fun _ => SUCCEEDED)) p) w3),
    (upd_c_state (fun _ => SUCCEEDED) c3), now.
  assert (Ef : forall (A : Type) (f : IceConnection -> A),
    (forall b x, f (upd_c_selected b x) = f x) ->
    f c3 = f (upd_c_write_state (fun _ => STATE_WRITABLE) c2) /\
    f c2 = f (upd_c_receiving (fun _ => next_receiving c1 now) c1) /\ f c1 = f (upd_c_pings (fun _ => [])
        (upd_c_last_ping_response_received (fun _ => now)
          (upd_c_rtt_samples (fun n => n + 1)
            (upd_c_rtt (fun old => if 0 <? c_rtt_samples c
               then GetNextMovingAverage old rtt RTT_RATIO else rtt) c))))).
  { intros A f Hf. split_and!; by eapply flagless_eq. }
  split_and!.
  - unfold received_ping_response. revert E1. unfold mbind, M_bind. 
    destruct (conn_set p _ w) as [[[] wa]| |]; [|done..].
    destruct (TimeMillis wa) as [[t wb]| |]; [|done..].
    destruct (conn_set p _ wb) as [[[] wc]| |] eqn:Ec; [|done..].
    unfold mret, M_ret. intros [= -> ->]. rewrite E2, E3. exact E4.
  - simpl. by rewrite lookup_alter_eq, Hc3.
  - destruct (Ef _ c_write_state (fun _ _ => eq_refl)) as (A & _ & _). simpl in *. congruence.
  - done.
  - destruct (Ef _ c_pings (fun _ _ => eq_refl)) as (A & B & C). simpl in *. congruence.
  - destruct (Ef _ c_last_ping_response_received (fun _ _ => eq_refl)) as (A & B & C). simpl in *. congruence.
  - destruct (Ef _ c_rtt (fun _ _ => eq_refl)) as (A & B & C). simpl in *. congruence.
  - destruct (Ef _ c_rtt_samples (fun _ _ => eq_refl)) as (A & B & C). simpl in *. congruence.
  - done.
  - done.
  - done.
Qed.

Lemma first_response_selects_witness :
  exists w' c' now, received_ping_response 0 10 example_world = Done ((), w') /\
    w_conns w' !! 0%nat = Some c' /\ c_write_state c' = STATE_WRITABLE /\ c_state c' = SUCCEEDED /\
    c_pings c' = [] /\ c_last_ping_response_received c' = now /\
    c_rtt c' = (if 0 <? c_rtt_samples example_conn
                then GetNextMovingAverage (c_rtt example_conn) 10 RTT_RATIO else 10) /\
    c_rtt_samples c' = c_rtt_samples example_conn + 1 /\
    ch_selected (w_ch w') = Some 0%nat /\ k_selected (ctl w') = Some 0%nat /\
    ch_writable (w_ch w') = true.
Proof.
  apply (first_response_selects (H := example_env) 0 10 example_world example_conn
    example_world_inv example_conn_at).
  - refine (bool_decide_unpack (map_Forall (fun _ d => ready_to_send d = false)
      (w_conns example_world)) _).
    vm_compute. exact I.
  - vm_compute. reflexivity.
Defined.

Lemma next_ping_least_recent_witness :
  exists o w', find_next_pingable_connection 21000 example_world = Done (o, w') /\
    (w' = example_world \/
     (forall p, p ∈ k_unpinged (ctl example_world) -> ~ pingable example_world 21000 p) /\
     k_pinged (ctl w') = []) /\
    k_connections (ctl w') = k_connections (ctl example_world) /\
    w_conns w' = w_conns example_world /\
    least_pinged w' 21000 (k_unpinged (ctl w')) o.
Proof.
  apply (next_ping_least_recent 21000 example_world example_world_inv).
  intros s c Hs. vm_compute in Hs. discriminate Hs.
Defined.
