(* ===== verification/IceMessages.v ===== *)
(** * What an ICE channel answers and what it survives

    The answer to a connectivity check as the peer sees it, the fate of a
    connection whose check is answered with an error, and the condition under
    which the selected connection stays selected. *)

From S2P Require Import Prelude ByteBuffer Crc32 StringEncode IpAddress MessageDigest Stun StunTheory.
From S2P Require Import IceTypes IcePort IceController IceConnection IceChannel IceInvariant.
From S2P Require Import IceControllerTheory IceConnectionTheory IceChannelTheory IceBehaviour.
Local Open Scope Z_scope.

(** ** The binding response *)

(** RFC 5389, 15.2: how a client reads the value of XOR-MAPPED-ADDRESS. *)
Definition xor_mapped_decode (value : bytes) : option (Z * Z) :=
  if (length value =? 8)%nat && (be_decode (take 1 (drop 1 value)) =? 1)
  then Some (Z.lxor (be_decode (drop 4 value)) k_stun_magic_cookie,
             Z.lxor (be_decode (take 2 (drop 2 value))) (Z.shiftr k_stun_magic_cookie 16))
  else None.

Lemma xor_mapped_decode_fields x y :
  0 <= x < 2 ^ 16 -> 0 <= y < 2 ^ 32 ->
  xor_mapped_decode (be_encode 1 0 ++ be_encode 1 1 ++ be_encode 2 x ++ be_encode 4 y) =
  Some (Z.lxor y k_stun_magic_cookie, Z.lxor x (Z.shiftr k_stun_magic_cookie 16)).
Proof.
  intros Hx Hy. set (v := _ ++ _). unfold xor_mapped_decode.
  change (length v =? 8)%nat with true. change (take 1 (drop 1 v)) with (be_encode 1 1).
  change (drop 4 v) with (be_encode 4 y). change (take 2 (drop 2 v)) with (be_encode 2 x).
  by rewrite !be_decode_encode_id by (done || lia).
Qed.

Definition response_message (tid : bytes) (remote : SocketAddress) : StunMessage :=
  add_attribute (set_transaction_id (set_type new_StunMessage STUN_BINDING_RESPONSE) tid)
    (StunXorAddressAttribute STUN_ATTR_XOR_MAPPED_ADDRESS remote).

Lemma xor_attribute_wf a remote :
  ip_ remote = ip_v4 a -> attr_wf (StunXorAddressAttribute STUN_ATTR_XOR_MAPPED_ADDRESS remote).
Proof.
  intros Hip. unfold attr_wf, StunXorAddressAttribute, address_attr_length, StunAddressAttribute_family.
  cbn [at_type at_length at_body]. rewrite Hip. by repeat split.
Qed.

Lemma response_message_wf tid a remote :
  length tid = k_stun_transaction_id_length -> ip_ remote = ip_v4 a ->
  stun_wf (response_message tid remote) /\ m_length (response_message tid remote) = 12.
Proof.
  intros Htid Hip. pose proof (xor_attribute_wf a remote Hip) as Ha.
  assert (Hlen : at_length (StunXorAddressAttribute STUN_ATTR_XOR_MAPPED_ADDRESS remote) = 8).
  { unfold StunXorAddressAttribute, address_attr_length, StunAddressAttribute_family. by rewrite Hip. }
  unfold response_message. split.
  - apply add_attribute_wf; [|done|by rewrite Hlen].
    by split.
  - unfold add_attribute, set_attrs, set_length. cbn [m_length]. by rewrite Hlen.
Qed.

Lemma xor_value_decodes a remote :
  ip_ remote = ip_v4 a -> 0 <= a < 2 ^ 32 -> 0 <= port_ remote < 2 ^ 16 ->
  xor_mapped_decode (attr_value_bytes (StunXorAddressAttribute STUN_ATTR_XOR_MAPPED_ADDRESS remote))
    = Some (a, port_ remote).
Proof.
  intros Hip Ha Hp. unfold attr_value_bytes, attr_write, StunXorAddressAttribute.
  cbn [at_body]. unfold StunAddressAttribute_family, get_xored_ip. rewrite Hip.
  cbn [ip_family snd ip_bytes stun_family_z]. unfold WriteUInt8, WriteUInt16, WriteBytes.
  rewrite u16_id by (apply (lxor_range 16); [done|done|by split]).
  change ([] ++ be_encode 1 (u8 0)) with (be_encode 1 0).
  change (u8 1) with 1. rewrite <- !app_assoc, xor_mapped_decode_fields.
  - f_equal. by rewrite !Z.lxor_assoc, !Z.lxor_nilpotent, !Z.lxor_0_r.
  - by apply (lxor_range 16).
  - by apply (lxor_range 32).
Qed.

Section binding.
Context `{IceEnv}.
(** OpenSSL's SHA-1 yields twenty bytes. *)
Hypothesis sha1_length : forall x, length (env_sha1 x) = k_stun_message_integrity_size.

Lemma binding_response_spec pwd tid a remote :
  length tid = k_stun_transaction_id_length -> ip_ remote = ip_v4 a ->
  exists m2 m', binding_response pwd tid remote = (true, stun_wire m2) /\
    validate_fingerprint (stun_wire m2) = Done true /\
    m_type m2 = STUN_BINDING_RESPONSE /\ m_transaction_id m2 = tid /\
    (exists mac fp, m_attrs m2 =
       [StunXorAddressAttribute STUN_ATTR_XOR_MAPPED_ADDRESS remote; mac; fp]) /\
    stun_read new_StunMessage (Construct (stun_wire m2)) = Some m' /\
    m_type m' = STUN_BINDING_RESPONSE /\ m_transaction_id m' = tid /\
    exists m'', validate_message_integrity env_sha1 m' pwd = Done (k_integrity_ok, m'').
Proof.
  intros Htid Hip. destruct (response_message_wf tid a remote Htid Hip) as [Hwf Hlen].
  destruct (signed_message_spec env_sha1 sha1_length (response_message tid remote)
    new_StunMessage pwd Hwf) as (m1 & m2 & bs & m' & E1 & E2 & E3 & Hfp & -> & Ht2 & Hi2 & Ha2
      & Hread & Ht' & Hi' & Hv).
  { by rewrite Hlen. }
  { by repeat constructor. }
  exists m2, m'. split_and!; try done.
  - unfold binding_response. fold (response_message tid remote). rewrite E1. cbn [snd]. by rewrite E2.
  - eexists. rewrite (Hv pwd). cbv zeta. by rewrite bool_decide_eq_true_2 by done.
Qed.
End binding.

(** C33: the answer to a connectivity check is one the peer must accept.  For
    a peer with an IPv4 address the response to transaction [tid] can always
    be written; it passes [validate_fingerprint], reads as a binding response
    of the same transaction, its integrity verifies under the password that
    signed it, and the first attribute after the header is XOR-MAPPED-ADDRESS,
    whose value decodes to the address and port the check came from. *)
Theorem binding_response_answers `{IceEnv} (pwd tid : bytes) (remote : SocketAddress) (a : Z)
    (sha1_length : forall x, length (env_sha1 x) = k_stun_message_integrity_size) :
  length tid = k_stun_transaction_id_length ->
  ip_ remote = ip_v4 a -> 0 <= a < 2 ^ 32 -> 0 <= port_ remote < 2 ^ 16 ->
  exists bs m' value rest, binding_response pwd tid remote = (true, bs) /\
    validate_fingerprint bs = Done true /\
    stun_read new_StunMessage (Construct bs) = Some m' /\
    m_type m' = STUN_BINDING_RESPONSE /\ m_transaction_id m' = tid /\
    (exists m'', validate_message_integrity env_sha1 m' pwd = Done (k_integrity_ok, m'')) /\
    drop k_stun_header_size bs =
      be_encode 2 STUN_ATTR_XOR_MAPPED_ADDRESS ++ be_encode 2 8 ++ value ++ rest /\
    xor_mapped_decode value = Some (a, port_ remote).
Proof.
  intros Htid Hip Ha Hp.
  destruct (binding_response_spec sha1_length pwd tid a remote Htid Hip)
    as (m2 & m' & E & Hfp & Ht2 & Hi2 & (mac & fp & Ha2) & Hread & Ht & Hi & Hv).
  exists (stun_wire m2), m',
    (attr_value_bytes (StunXorAddressAttribute STUN_ATTR_XOR_MAPPED_ADDRESS remote)),
    (attrs_wire [mac; fp]).
  split_and!; try done; [|by apply xor_value_decodes].
  unfold stun_wire. rewrite drop_app_length'.
  - rewrite Ha2. unfold attrs_wire. cbn [map concat]. unfold attr_wire at 1.
    unfold StunXorAddressAttribute at 2, address_attr_length, StunAddressAttribute_family.
    cbn [at_type at_length]. rewrite Hip. by rewrite <- !app_assoc.
  - symmetry. apply length_stun_header. by rewrite Hi2.
Qed.

Lemma binding_response_answers_witness :
  exists bs m' value rest,
    binding_response (H := example_env) (str "local password") (str "peer-request") example_peer
      = (true, bs) /\
    validate_fingerprint bs = Done true /\
    stun_read new_StunMessage (Construct bs) = Some m' /\
    m_type m' = STUN_BINDING_RESPONSE /\ m_transaction_id m' = str "peer-request" /\
    (exists m'', validate_message_integrity (env_sha1 (IceEnv := example_env)) m'
       (str "local password") = Done (k_integrity_ok, m'')) /\
    drop k_stun_header_size bs =
      be_encode 2 STUN_ATTR_XOR_MAPPED_ADDRESS ++ be_encode 2 8 ++ value ++ rest /\
    xor_mapped_decode value = Some (v4AddressAsHostOrderInteger (ip_ example_peer), port_ example_peer).
Proof.
  apply (binding_response_answers (H := example_env)); try done.
Defined.

(** ** An error response *)

Lemma bind_run {A B} (m : M A) (k : A -> M B) a w w' :
  m w = Done (a, w') -> (m ≫= k) w = k a w'.
Proof. intros E. unfold mbind, M_bind. by rewrite E. Qed.

Lemma port_at_run i port w : w_ports w !! i = Some port -> port_at i w = Done (port, w).
Proof. intros E. unfold port_at. by rewrite E. Qed.

Lemma conn_at_run p c w : w_conns w !! p = Some c -> conn_at p w = Done (c, w).
Proof. intros E. unfold conn_at. by rewrite E. Qed.

Lemma lift_run {A} (o : outcome A) a w : o = Done a -> lift o w = Done (a, w).
Proof. by intros ->. Qed.

Section error_response.
Context `{IceEnv}.

(** An open port passes a datagram of a known address on to its connection;
    one that is no request reaches [check_response] once it verifies. *)
Lemma packet_to_check_response i port data addr ts p c m m' w :
  w_ports w !! i = Some port -> addr_find (p_connections port) addr = Some p ->
  w_conns w !! p = Some c -> validate_fingerprint data = Done true ->
  stun_read new_StunMessage (Construct data) = Some m ->
  m_type m = STUN_BINDING_ERROR_RESPONSE ->
  validate_message_integrity env_sha1 m (cand_password (c_remote c)) = Done (k_integrity_ok, m') ->
  ice_handle (InPacket i data addr ts) w = (_ ← check_response p m'; mret ()) w.
Proof.
  intros Hport Ha Hc Hfp Hr Ht Hv.
  pose proof (validate_message_integrity_outcome env_sha1 m (cand_password (c_remote c))) as Ho.
  rewrite Hv in Ho. destruct Ho as (Ht' & _ & _ & Hint).
  cbn [ice_handle]. unfold port_on_read_packet.
  erewrite bind_run; [|unfold get_connection; by erewrite bind_run; [|exact (port_at_run _ _ _ Hport)]].
  rewrite Ha. unfold conn_on_read_packet. erewrite bind_run; [|exact (conn_at_run _ _ _ Hc)].
  assert (Hg : get_stun_message (c_port c) data (address (c_remote c)) w
               = Done ((true, Some m, []), w)).
  { unfold get_stun_message. erewrite bind_run; [|exact (lift_run _ _ _ Hfp)].
    cbn [negb]. by rewrite Hr, Ht. }
  erewrite bind_run; [|exact Hg]. cbn [negb]. rewrite Ht. cbn [Z.eqb orb].
  change (STUN_BINDING_ERROR_RESPONSE =? STUN_BINDING_REQUEST) with false.
  rewrite Z.eqb_refl, orb_true_r. erewrite bind_run; [|exact (lift_run _ _ _ Hv)].
  cbv beta iota. by rewrite (bool_decide_eq_true_2 _ Hint).
Qed.

Lemma check_response_error p m c r w :
  ice_inv w -> w_conns w !! p = Some c -> c_requests c !! m_transaction_id m = Some r ->
  m_type m = STUN_BINDING_ERROR_RESPONSE ->
  get_error_code_value m = STUN_ERROR_GLOBAL_FAIL ->
  wp (fun u => u = use_after_free) (check_response p m) (fun _ _ => False) w.
Proof.
  intros Hi Hc Hreq Ht Hcode. unfold check_response, wp.
  erewrite bind_run; [|exact (conn_at_run _ _ _ Hc)]. cbv zeta.
  rewrite Hreq, Ht, (inv_requests w Hi p c Hc _ _ Hreq).
  change (STUN_BINDING_ERROR_RESPONSE =? get_stun_success_response STUN_BINDING_REQUEST) with false.
  change (STUN_BINDING_ERROR_RESPONSE =? get_stun_error_response STUN_BINDING_REQUEST) with true.
  pose proof (error_response_double_free (fun u => u = use_after_free) p r m (m_transaction_id m) w
    Hi (ex_intro _ c Hc) eq_refl Hcode) as Hd.
  unfold wp, mbind, M_bind in Hd |- *.
  destruct (on_connection_request_error_response p r m w) as [[[] w1]| |]; [|done..].
  by destruct (delete_request p _ w1) as [[[] w2]| |].
Qed.
End error_response.

(** An authentic error response to a pending connectivity check ends the
    run.  Whatever error code the peer sends (the reader drops it, and every
    response counts as a global failure), [fail_and_destroy] deletes the
    connection with its request manager and all its requests, and
    [check_response] then deletes the request again. *)
Theorem error_response_deletes_twice `{IceEnv} (i : nat) (data : bytes) (addr : SocketAddress)
    (ts : Z) (w : world) (port : UDPPort) (p : ptr) (c : IceConnection) (r : StunRequest)
    (m m' : StunMessage) :
  ice_inv w -> w_ports w !! i = Some port -> addr_find (p_connections port) addr = Some p ->
  w_conns w !! p = Some c -> c_requests c !! m_transaction_id m = Some r ->
  validate_fingerprint data = Done true ->
  stun_read new_StunMessage (Construct data) = Some m ->
  m_type m = STUN_BINDING_ERROR_RESPONSE ->
  validate_message_integrity env_sha1 m (cand_password (c_remote c)) = Done (k_integrity_ok, m') ->
  ice_handle (InPacket i data addr ts) w = Undef use_after_free.
Proof.
  intros Hi Hport Ha Hc Hreq Hfp Hr Ht Hv.
  rewrite (packet_to_check_response i port data addr ts p c m m' w) by done.
  pose proof (validate_message_integrity_outcome env_sha1 m (cand_password (c_remote c))) as Ho.
  rewrite Hv in Ho. destruct Ho as (Ht' & Hattrs & Htid & _).
  assert (Hcode : get_error_code_value m' = STUN_ERROR_GLOBAL_FAIL).
  { apply known_no_error_code. rewrite Hattrs. by eapply stun_read_known. }
  pose proof (check_response_error p m' c r w Hi Hc) as Hd. rewrite Htid, Ht' in Hd.
  specialize (Hd Hreq Ht Hcode). unfold wp in Hd. unfold mbind, M_bind.
  destruct (check_response p m' w) as [[b w']| |]; [done|done|]. by rewrite Hd.
Qed.

(** The parts of the error response to the ping of the example. *)
Definition example_error : bytes :=
  example_ping_answer (H := example_env) STUN_BINDING_ERROR_RESPONSE.
Definition example_error_message : StunMessage :=
  default new_StunMessage (stun_read new_StunMessage (Construct example_error)).

Lemma error_response_deletes_twice_witness :
  ice_handle (H := example_env) (InPacket 0 example_error example_peer 0) example_world
  = Undef use_after_free.
Proof.
  destruct (w_ports example_world !! 0%nat) as [port|] eqn:Ep; [|vm_compute in Ep; discriminate Ep].
  destruct (c_requests example_conn !! m_transaction_id example_error_message) as [r|] eqn:Er;
    [|vm_compute in Er; discriminate Er].
  eapply (error_response_deletes_twice (H := example_env) 0 example_error example_peer 0
    example_world port 0 example_conn r example_error_message).
  - exact example_world_inv.
  - exact Ep.
  - revert Ep. vm_compute. by intros [= <-].
  - exact example_conn_at.
  - exact Er.
  - vm_compute. reflexivity.
  - vm_compute. reflexivity.
  - vm_compute. reflexivity.
  - vm_compute. reflexivity.
Defined.

(** ** The selected connection *)

(** The selected connection is left only for one that is ten
    milliseconds faster.  While every other connection that can be sent on
    has a round-trip time above that of the selected one less ten, sorting
    keeps the selection, and the channel is writable exactly when the
    selected connection is, even when it is dead and others are not. *)
Theorem selection_sticky `{IceEnv} (w : world) (s : ptr) (c : IceConnection) :
  ice_inv w -> ch_selected (w_ch w) = Some s -> w_conns w !! s = Some c ->
  (forall q d, q <> s -> w_conns w !! q = Some d -> ready_to_send d = true ->
     c_rtt c - k_min_improvement < c_rtt d) ->
  exists w', sort_connection_and_update_state w = Done ((), w') /\
    ch_selected (w_ch w') = Some s /\ k_selected (ctl w') = k_selected (ctl w) /\
    ch_writable (w_ch w') = conn_writable c.
Proof.
  intros Hi Hs Hc Hslow. pose proof (inv_readable w Hi) as Hr.
  destruct (sort_update_spec w Hr) as (o & l & w' & E & Hres & _ & Hsame & _ & Hsel & Hks & Hw & _).
  assert (o = None) as ->.
  { destruct Hres as (rs & HF & -> & Hl).
    destruct (stable_sort conn_before rs) as [|top l'] eqn:El; [done|]. destruct Hl as [_ ->].
    assert (Hks' : k_selected (ctl w) = Some s) by (by rewrite (inv_selected w Hi)).
    rewrite Hks'. cbn [mbind option_bind]. rewrite Hc.
    destruct (ready_to_send (rk_conn top)) eqn:Et; [|done]. cbn [negb orb].
    destruct (bool_decide (Some s = Some (rk_ptr top))) eqn:Hne; [done|].
    apply bool_decide_eq_false in Hne.
    assert (Hin : top ∈ rs) by (rewrite <- (conn_sort_perm rs), El; left).
    apply list_elem_of_lookup in Hin as [k Hk].
    destruct (Forall2_lookup_r _ _ _ _ _ HF Hk) as (q & _ & Hq & Hqc & _).
    specialize (Hslow q (rk_conn top) ltac:(congruence) Hqc Et).
    by rewrite (proj2 (Z.leb_gt _ _)) by lia. }
  exists w'. split_and!; [done| |done|].
  - by rewrite Hsel.
  - rewrite Hw. unfold selected_writable, conn_test. rewrite Hsel, Hs.
    destruct (same_conns_Some _ _ _ _ Hsame Hc) as (c' & -> & F).
    apply (f_equal c_write_state) in F. cbn in F. unfold conn_writable. by rewrite F.
Qed.

(** The example after the peer answered the ping: the connection is selected. *)
Definition example_inputs_answered : list ice_input :=
  example_inputs (H := example_env) ++
  [InPacket 0 (example_ping_answer (H := example_env) STUN_BINDING_RESPONSE) example_peer 0].
Definition example_selected : world :=
  default (new_world [] 1)
    (ice_run (H := example_env) example_inputs_answered (new_world (str "audio") 1)).

Lemma example_selected_inv : ice_inv example_selected.
Proof.
  apply (reachable_inv (H := example_env) (str "audio") 1).
  eapply (ice_run_reachable (H := example_env) _ _ example_inputs_answered); [apply reach_new| |];
    vm_compute; reflexivity.
Qed.

Lemma selection_sticky_witness :
  exists w', sort_connection_and_update_state (H := example_env) example_selected = Done ((), w') /\
    ch_selected (w_ch w') = Some 0%nat /\
    k_selected (ctl w') = k_selected (ctl example_selected) /\
    ch_writable (w_ch w') = conn_writable
      (default example_conn (w_conns example_selected !! 0%nat)).
Proof.
  apply (selection_sticky (H := example_env)).
  - exact example_selected_inv.
  - vm_compute. reflexivity.
  - vm_compute. reflexivity.
  - intros q d Hq Hd.
    assert (Hall : map_Forall (fun q _ => q = 0%nat) (w_conns example_selected)).
    { refine (bool_decide_unpack (map_Forall (fun q _ => q = 0%nat) (w_conns example_selected)) _).
      vm_compute. exact I. }
    destruct (Hq (Hall q d Hd)).
Defined.
