(* ===== verification/LockFreeQueue.v ===== *)
(** * The lock-free queue (base/lock_free_queue.h)

    One producer and one consumer share a linked list.  Nodes before
    [divider] are consumed and belong to the producer, who frees them; nodes
    after it belong to the consumer.  The two run at the granularity of the
    accesses to shared memory: a step of [produce] or [consume] is one of the
    statements that read or write [first], [divider], [last], a node or
    [_size], and a schedule says whose step is next.  Each step is atomic and
    seen by the other side at once, which is what the comment in the header
    relies on ("operations on pointers are atomic").

    A node is known by its address; addresses are handed out in order and not
    reused, and a freed address is not in the heap: dereferencing it is
    [Undef use_after_free]. *)

From S2P Require Import Prelude.
Local Open Scope Z_scope.

Section queue.
Context {T : Type} (T0 : T).  (* [T()] *)

(** ** The queue *)

Record Node : Type := mkNode { n_value : T; n_next : option nat }.

Record LockFreeQueue : Type := mkQueue {
  q_heap : gmap nat Node;
  q_first : nat;
  q_divider : nat;
  q_last : nat;
  q_size : Z;
  q_fresh : nat;  (* the next address [new] returns *)
}.

Definition new_queue : LockFreeQueue := mkQueue {[ 0%nat := mkNode T0 None ]} 0 0 0 0 1.

Definition node_at (q : LockFreeQueue) (a : nat) : outcome Node :=
  deref use_after_free (q_heap q !! a).

(** [p->next], to be dereferenced. *)
Definition next_of (n : Node) : outcome nat := deref null_deref (n_next n).

(** *** The statements of [produce] *)

(** [last->next = new Node(t)] *)
Definition link_node (t : T) (q : LockFreeQueue) : outcome LockFreeQueue :=
  n ← node_at q (q_last q);
  Done (mkQueue (<[q_last q := mkNode (n_value n) (Some (q_fresh q))]>
                   (<[q_fresh q := mkNode t None]> (q_heap q)))
          (q_first q) (q_divider q) (q_last q) (q_size q) (S (q_fresh q))).

(** [last = last->next] *)
Definition advance_last (q : LockFreeQueue) : outcome LockFreeQueue :=
  n ← node_at q (q_last q);
  p ← next_of n;
  Done (mkQueue (q_heap q) (q_first q) (q_divider q) p (q_size q) (q_fresh q)).

Definition add_size (d : Z) (q : LockFreeQueue) : LockFreeQueue :=
  mkQueue (q_heap q) (q_first q) (q_divider q) (q_last q) (q_size q + d) (q_fresh q).

(** [temp = first; first = first->next; delete temp] *)
Definition free_first (q : LockFreeQueue) : outcome LockFreeQueue :=
  n ← node_at q (q_first q);
  p ← next_of n;
  Done (mkQueue (delete (q_first q) (q_heap q)) p (q_divider q) (q_last q) (q_size q)
          (q_fresh q)).

(** *** The statements of [consume] *)

(** [*result = divider->next->value] *)
Definition read_front (q : LockFreeQueue) : outcome T :=
  n ← node_at q (q_divider q);
  p ← next_of n;
  m ← node_at q p;
  Done (n_value m).

(** [divider = divider->next] *)
Definition advance_divider (q : LockFreeQueue) : outcome LockFreeQueue :=
  n ← node_at q (q_divider q);
  p ← next_of n;
  Done (mkQueue (q_heap q) (q_first q) p (q_last q) (q_size q) (q_fresh q)).

Definition queue_empty (q : LockFreeQueue) : bool := q_size q =? 0.

(** [bool size()]: the counter converted to [bool]. *)
Definition queue_size (q : LockFreeQueue) : bool := negb (q_size q =? 0).

(** ** Two threads *)

(** Where [produce] and [consume] are. *)
Inductive producer_pc : Type := PIdle | PAdvance | PCount | PClean.
Inductive consumer_pc : Type := CIdle | CRead | CAdvance (result : T) | CCount (result : T).

(** [s_todo] is what the producer still has to produce, [s_out] what the
    consumer was given. *)
Record queue_state : Type := mkState {
  s_queue : LockFreeQueue;
  s_ppc : producer_pc;
  s_cpc : consumer_pc;
  s_todo : list T;
  s_out : list T;
}.

Definition producer_step (s : queue_state) : outcome queue_state :=
  let goto q pc todo := mkState q pc (s_cpc s) todo (s_out s) in
  match s_ppc s with
  | PIdle =>
      match s_todo s with
      | [] => Done s
      | t :: todo => q ← link_node t (s_queue s); Done (goto q PAdvance todo)
      end
  | PAdvance => q ← advance_last (s_queue s); Done (goto q PCount (s_todo s))
  | PCount => Done (goto (add_size 1 (s_queue s)) PClean (s_todo s))
  | PClean =>
      if bool_decide (q_first (s_queue s) = q_divider (s_queue s))
      then Done (goto (s_queue s) PIdle (s_todo s))
      else q ← free_first (s_queue s); Done (goto q PClean (s_todo s))
  end.

Definition consumer_step (s : queue_state) : outcome queue_state :=
  let goto q pc out := mkState q (s_ppc s) pc (s_todo s) out in
  match s_cpc s with
  | CIdle =>
      if bool_decide (q_divider (s_queue s) = q_last (s_queue s))
      then Done s  (* [return false] *)
      else Done (goto (s_queue s) CRead (s_out s))
  | CRead => v ← read_front (s_queue s); Done (goto (s_queue s) (CAdvance v) (s_out s))
  | CAdvance v => q ← advance_divider (s_queue s); Done (goto q (CCount v) (s_out s))
  | CCount v => Done (goto (add_size (-1) (s_queue s)) CIdle (s_out s ++ [v]))
  end.

Inductive thread : Type := Producer | Consumer.

Definition thread_step (t : thread) : queue_state -> outcome queue_state :=
  match t with Producer => producer_step | Consumer => consumer_step end.

Fixpoint queue_run (schedule : list thread) (s : queue_state) : outcome queue_state :=
  match schedule with
  | [] => Done s
  | t :: schedule => s ← thread_step t s; queue_run schedule s
  end.

Definition queue_start (vals : list T) : queue_state := mkState new_queue PIdle CIdle vals [].

(** ** The invariant *)

Section invariant.
Context (vals : list T).

Definition val_at (a : nat) : T :=
  match a with O => T0 | S i => default T0 (vals !! i) end.

(** The nodes alive are those from [first] to the newest, each linked to the
    one after it. *)
Definition chain (q : LockFreeQueue) : Prop :=
  forall a, q_heap q !! a =
    if bool_decide (q_first q <= a < q_fresh q)%nat
    then Some (mkNode (val_at a) (if bool_decide (S a < q_fresh q)%nat then Some (S a) else None))
    else None.

Definition uncounted (s : queue_state) : Z :=
  (match s_ppc s with PCount => 1 | _ => 0 end) - (match s_cpc s with CCount _ => 1 | _ => 0 end).

Record queue_inv (s : queue_state) : Prop := {
  qi_chain : chain (s_queue s);
  qi_order : (q_first (s_queue s) <= q_divider (s_queue s) <= q_last (s_queue s))%nat;
  qi_last : (q_fresh (s_queue s) =
    q_last (s_queue s) + match s_ppc s with PAdvance => 2 | _ => 1 end)%nat;
  qi_fresh : (1 <= q_fresh (s_queue s) <= S (length vals))%nat;
  qi_todo : s_todo s = drop (q_fresh (s_queue s) - 1) vals;
  qi_cpc : match s_cpc s with
    | CIdle => s_out s = take (q_divider (s_queue s)) vals
    | CRead => s_out s = take (q_divider (s_queue s)) vals /\
               (q_divider (s_queue s) < q_last (s_queue s))%nat
    | CAdvance v => s_out s = take (q_divider (s_queue s)) vals /\
                    (q_divider (s_queue s) < q_last (s_queue s))%nat /\
                    v = val_at (S (q_divider (s_queue s)))
    | CCount v => exists d, q_divider (s_queue s) = S d /\ s_out s = take d vals /\
                    v = val_at (S d)
    end;
  qi_size : q_size (s_queue s) =
    Z.of_nat (q_last (s_queue s)) - Z.of_nat (q_divider (s_queue s)) - uncounted s;
}.

Lemma chain_node q a :
  chain q -> (q_first q <= a < q_fresh q)%nat ->
  node_at q a = Done (mkNode (val_at a) (if bool_decide (S a < q_fresh q)%nat then Some (S a) else None)).
Proof. intros Hc Ha. unfold node_at. rewrite Hc, bool_decide_eq_true_2 by done. done. Qed.

Lemma chain_next q a :
  chain q -> (q_first q <= a)%nat -> (S a < q_fresh q)%nat ->
  (n ← node_at q a; next_of n) = Done (S a).
Proof.
  intros Hc H1 H2. rewrite (chain_node q a Hc) by lia. cbn [mbind outcome_bind].
  unfold next_of. cbn [n_next]. by rewrite bool_decide_eq_true_2.
Qed.

Lemma start_inv : queue_inv (queue_start vals).
Proof.
  split; cbn [s_queue s_ppc s_cpc s_todo s_out queue_start new_queue q_heap q_first q_divider q_last
    q_size q_fresh]; try done; try lia.
  intros a. cbn [q_heap q_first q_fresh new_queue]. destruct (decide (a = 0%nat)) as [->|Hne].
  - by rewrite lookup_singleton_eq.
  - rewrite lookup_singleton_ne by done. rewrite bool_decide_eq_false_2 by lia. done.
Qed.

Lemma link_chain q t :
  chain q -> (q_first q <= q_last q)%nat -> (q_fresh q = q_last q + 1)%nat ->
  vals !! (q_fresh q - 1)%nat = Some t ->
  exists q', link_node t q = Done q' /\ chain q' /\
    q' = mkQueue (q_heap q') (q_first q) (q_divider q) (q_last q) (q_size q) (S (q_fresh q)).
Proof.
  intros Hc H1 H2 Ht. unfold link_node. rewrite (chain_node q _ Hc) by lia.
  cbn [mbind outcome_bind n_value]. eexists. split; [done|]. split; [|done].
  intros a. cbn [q_heap q_first q_fresh].
  destruct (decide (a = q_last q)) as [->|Hl]; [rewrite lookup_insert_eq|rewrite lookup_insert_ne by done].
  { rewrite !bool_decide_eq_true_2 by lia. do 3 f_equal. lia. }
  destruct (decide (a = q_fresh q)) as [->|Hf]; [rewrite lookup_insert_eq|rewrite lookup_insert_ne by done].
  { rewrite bool_decide_eq_true_2, bool_decide_eq_false_2 by lia. do 2 f_equal.
    unfold val_at. destruct (q_fresh q) as [|n]; [lia|].
    replace (S n - 1)%nat with n in Ht by lia. by rewrite Ht. }
  rewrite Hc.
  rewrite (bool_decide_ext (q_first q <= a < S (q_fresh q))%nat (q_first q <= a < q_fresh q)%nat) by lia.
  case_bool_decide; [|done].
  by rewrite (bool_decide_ext (S a < S (q_fresh q))%nat (S a < q_fresh q)%nat) by lia.
Qed.

Lemma free_chain q :
  chain q -> (q_first q < q_last q)%nat -> (q_last q < q_fresh q)%nat ->
  exists q', free_first q = Done q' /\ chain q' /\
    q' = mkQueue (q_heap q') (S (q_first q)) (q_divider q) (q_last q) (q_size q) (q_fresh q).
Proof.
  intros Hc H1 H2. unfold free_first. rewrite (chain_node q _ Hc) by lia.
  cbn [mbind outcome_bind]. unfold next_of. cbn [n_next].
  rewrite bool_decide_eq_true_2 by lia. cbn [deref outcome_bind].
  eexists. split; [done|]. split; [|done]. intros a. cbn [q_heap q_first q_fresh].
  destruct (decide (a = q_first q)) as [->|Hne].
  - rewrite lookup_delete_eq, bool_decide_eq_false_2 by lia. done.
  - rewrite lookup_delete_ne by done. rewrite Hc.
    by rewrite (bool_decide_ext (q_first q <= a < q_fresh q)%nat (S (q_first q) <= a < q_fresh q)%nat)
      by lia.
Qed.

Lemma producer_step_inv s :
  queue_inv s -> exists s', producer_step s = Done s' /\ queue_inv s' /\
    s_out s' = s_out s /\ s_cpc s' = s_cpc s.
Proof.
  intros [Hc Ho Hl Hf Ht Hp Hs]. unfold producer_step, uncounted in *.
  destruct s as [q ppc cpc todo out]. cbn [s_queue s_ppc s_cpc s_todo s_out] in *.
  destruct ppc.
  - destruct todo as [|t todo]; [by eexists|].
    assert (Hv : vals !! (q_fresh q - 1)%nat = Some t).
    { rewrite <- (Nat.add_0_r (q_fresh q - 1)), <- lookup_drop. by rewrite <- Ht. }
    destruct (link_chain q t Hc ltac:(lia) Hl Hv) as (q' & -> & Hc' & Eq).
    cbn [mbind outcome_bind]. eexists. split; [done|]. split; [|done].
    apply lookup_lt_Some in Hv as Hlt.
    split; unfold uncounted; cbn [s_queue s_ppc s_cpc s_todo s_out]; try done;
      rewrite Eq; cbn [q_first q_divider q_last q_size q_fresh]; try done; try lia.
    rewrite (drop_S _ _ _ Hv) in Ht. injection Ht as ->. f_equal. lia.
  - unfold advance_last. pose proof (chain_next q (q_last q) Hc ltac:(lia) ltac:(lia)) as Hn.
    destruct (node_at q (q_last q)) as [n| |]; try done. cbn [mbind outcome_bind] in *. rewrite Hn.
    cbn [mbind outcome_bind]. eexists. split; [done|]. split; [|done].
    split; unfold uncounted; cbn [s_queue s_ppc s_cpc s_todo s_out q_first q_divider q_last q_size
      q_fresh]; try done; try lia.
    destruct cpc; try done; intuition lia.
  - eexists. split; [done|]. split; [|done].
    split; unfold uncounted, add_size; cbn [s_queue s_ppc s_cpc s_todo s_out q_first q_divider q_last
      q_size q_fresh]; try done; lia.
  - case_bool_decide as Hd.
    + eexists. split; [done|]. split; [|done].
      split; unfold uncounted; cbn [s_queue s_ppc s_cpc s_todo s_out]; try done; lia.
    + destruct (free_chain q Hc ltac:(lia) ltac:(lia)) as (q' & -> & Hc' & Eq).
      cbn [mbind outcome_bind]. eexists. split; [done|]. split; [|done].
      split; unfold uncounted; cbn [s_queue s_ppc s_cpc s_todo s_out]; try done;
        rewrite Eq; cbn [q_first q_divider q_last q_size q_fresh]; try done; lia.
Qed.

Lemma val_at_lookup a : (a < length vals)%nat -> vals !! a = Some (val_at (S a)).
Proof. intros H. apply lookup_lt_is_Some in H as [v H]. cbn [val_at]. by rewrite H. Qed.

Lemma consumer_step_inv s :
  queue_inv s -> exists s', consumer_step s = Done s' /\ queue_inv s' /\
    s_todo s' = s_todo s /\ s_ppc s' = s_ppc s.
Proof.
  intros [Hc Ho Hl Hf Ht Hp Hs]. unfold consumer_step, uncounted in *.
  destruct s as [q ppc cpc todo out]. cbn [s_queue s_ppc s_cpc s_todo s_out] in *.
  assert (Hlt : (q_last q < q_fresh q)%nat) by (destruct ppc; lia).
  destruct cpc as [| |v|v].
  - case_bool_decide as Hd; [by eexists|]. eexists. split; [done|]. split; [|done].
    split; unfold uncounted; cbn [s_queue s_ppc s_cpc s_todo s_out]; try done; try lia.
    split; [done|lia].
  - destruct Hp as [Hp Hd]. unfold read_front.
    pose proof (chain_next q (q_divider q) Hc ltac:(lia) ltac:(lia)) as Hn.
    destruct (node_at q (q_divider q)) as [n| |]; try done. cbn [mbind outcome_bind] in *. rewrite Hn.
    cbn [mbind outcome_bind]. rewrite (chain_node q _ Hc) by lia. cbn [mbind outcome_bind n_value].
    eexists. split; [done|]. split; [|done].
    split; unfold uncounted; cbn [s_queue s_ppc s_cpc s_todo s_out]; done.
  - destruct Hp as (Hp & Hd & ->). unfold advance_divider.
    pose proof (chain_next q (q_divider q) Hc ltac:(lia) ltac:(lia)) as Hn.
    destruct (node_at q (q_divider q)) as [n| |]; try done. cbn [mbind outcome_bind] in *. rewrite Hn.
    cbn [mbind outcome_bind]. eexists. split; [done|]. split; [|done].
    split; unfold uncounted; cbn [s_queue s_ppc s_cpc s_todo s_out q_first q_divider q_last q_size
      q_fresh]; try done; try lia.
    by eexists.
  - destruct Hp as (d & Hd & -> & ->). eexists. split; [done|]. split; [|done].
    split; unfold uncounted, add_size; cbn [s_queue s_ppc s_cpc s_todo s_out q_first q_divider q_last
      q_size q_fresh]; try done; try lia.
    rewrite Hd. symmetry. apply take_S_r. apply val_at_lookup. lia.
Qed.

Lemma queue_run_inv schedule s :
  queue_inv s -> exists s', queue_run schedule s = Done s' /\ queue_inv s'.
Proof.
  revert s. induction schedule as [|t schedule IH]; intros s Hs; [by eexists|]. cbn [queue_run].
  assert (exists s', thread_step t s = Done s' /\ queue_inv s') as (s' & -> & Hs').
  { destruct t; cbn [thread_step];
      [destruct (producer_step_inv s Hs) as (s' & ? & ? & _)
      |destruct (consumer_step_inv s Hs) as (s' & ? & ? & _)]; by eexists. }
  by apply IH.
Qed.

Lemma out_prefix s : queue_inv s ->
  exists d, s_out s = take d vals /\
    (q_divider (s_queue s) = d + match s_cpc s with CCount _ => 1 | _ => 0 end)%nat.
Proof.
  intros H. pose proof (qi_cpc s H) as Hp. destruct (s_cpc s) as [| |v|v].
  - exists (q_divider (s_queue s)). split; [done|lia].
  - destruct Hp as [Hp _]. exists (q_divider (s_queue s)). split; [done|lia].
  - destruct Hp as [Hp _]. exists (q_divider (s_queue s)). split; [done|lia].
  - destruct Hp as (d & Hd & Hp & _). exists d. split; [done|lia].
Qed.

(** Consumer steps left until the queue is drained. *)
Definition drain_measure (s : queue_state) : nat :=
  let k := (q_last (s_queue s) - q_divider (s_queue s))%nat in
  match s_cpc s with
  | CIdle => 4 * k
  | CRead => 4 * k - 1
  | CAdvance _ => 4 * k - 2
  | CCount _ => 4 * k + 1
  end.

Lemma consumer_step_measure s s' :
  queue_inv s -> consumer_step s = Done s' ->
  drain_measure s' = (drain_measure s - 1)%nat /\ q_last (s_queue s') = q_last (s_queue s).
Proof.
  intros [Hc Ho Hl Hf Ht Hp _]. unfold consumer_step, drain_measure.
  destruct s as [q ppc cpc todo out]. cbn [s_queue s_ppc s_cpc s_todo s_out] in *.
  assert (Hlt : (q_last q < q_fresh q)%nat) by (destruct ppc; lia).
  destruct cpc as [| |v|v].
  - case_bool_decide as Hd; intros [= <-]; cbn; [rewrite Hd|]; lia.
  - destruct (read_front q); [|done..]. intros [= <-]. cbn. lia.
  - destruct Hp as (_ & Hd & _). unfold advance_divider.
    pose proof (chain_next q (q_divider q) Hc ltac:(lia) ltac:(lia)) as Hn.
    destruct (node_at q (q_divider q)) as [n| |]; try done. cbn [mbind outcome_bind] in *. rewrite Hn.
    intros [= <-]. cbn. lia.
  - intros [= <-]. cbn. lia.
Qed.

Lemma drain s n :
  queue_inv s -> (drain_measure s <= n)%nat ->
  exists s', queue_run (repeat Consumer n) s = Done s' /\ queue_inv s' /\
    drain_measure s' = 0%nat /\ s_todo s' = s_todo s /\ s_ppc s' = s_ppc s.
Proof.
  revert s. induction n as [|n IH]; intros s Hs Hn; cbn [repeat queue_run thread_step].
  { exists s. split_and!; try done. lia. }
  destruct (consumer_step_inv s Hs) as (s1 & E & Hs1 & Ht1 & Hp1). rewrite E.
  destruct (consumer_step_measure s s1 Hs E) as [Hm _].
  destruct (IH s1 Hs1 ltac:(lia)) as (s' & E' & Hs' & Hm' & Ht' & Hp').
  exists s'. split_and!; try done; congruence.
Qed.
End invariant.
End queue.

Arguments Node : clear implicits.
Arguments LockFreeQueue : clear implicits.
Arguments queue_state : clear implicits.

(** ** Properties *)

(** C29: the queue is a FIFO under every interleaving.  Whatever the producer
    produces and however the steps of the two threads alternate, no step
    dereferences a null pointer or a freed node, and at every moment what was
    given to the consumer, the values pending and the values still to produce
    are the input in order; [_size] counts the pending values, or one less
    while an operation is under way. *)
Theorem queue_refines_fifo {T : Type} (T0 : T) (vals : list T) (schedule : list thread) :
  exists s, queue_run schedule (queue_start T0 vals) = Done s /\
    exists pending, vals = s_out s ++ pending ++ s_todo s /\
      (Z.of_nat (length pending) - 1 <= q_size (s_queue s) <= Z.of_nat (length pending)) /\
      (s_ppc s = PIdle -> s_cpc s = CIdle -> q_size (s_queue s) = Z.of_nat (length pending)).
Proof.
  destruct (queue_run_inv T0 vals schedule _ (start_inv T0 vals)) as (s & E & Hs).
  exists s. split; [done|]. destruct (out_prefix T0 vals s Hs) as (d & Hd & Hle).
  set (m := (q_fresh (s_queue s) - 1)%nat).
  destruct Hs as [_ Ho Hl Hf Ht Hp Hsz]. unfold uncounted in Hsz.
  assert (Hdm : (d <= m <= length vals)%nat) by (unfold m; destruct (s_ppc s); lia).
  exists (take (m - d) (drop d vals)). split_and!.
  - rewrite Hd, Ht. fold m. rewrite <- (take_drop d vals) at 1. f_equal.
    rewrite <- (take_drop (m - d) (drop d vals)) at 1. f_equal. rewrite drop_drop. f_equal. lia.
  - rewrite length_take, length_drop. unfold m in *. destruct (s_ppc s), (s_cpc s); lia.
  - rewrite length_take, length_drop. unfold m in *. destruct (s_ppc s), (s_cpc s); lia.
  - intros Hpp Hcp. rewrite length_take, length_drop. unfold m in *. rewrite Hpp, Hcp in *. lia.
Qed.

(** Nothing is left behind.  Once the producer has produced everything
    and returned, four steps per pending value (and one for a [consume] about
    to return) give the consumer every value, in order, whatever the schedule
    was before; the counter is then zero and [empty()] says so. *)
Theorem queue_drains {T : Type} (T0 : T) (vals : list T) (schedule : list thread)
    (s : queue_state T) (n : nat) :
  queue_run schedule (queue_start T0 vals) = Done s -> s_todo s = [] -> s_ppc s = PIdle ->
  (4 * (q_last (s_queue s) - q_divider (s_queue s)) + 1 <= n)%nat ->
  exists s', queue_run (repeat Consumer n) s = Done s' /\ s_out s' = vals /\
    q_size (s_queue s') = 0 /\ queue_empty (s_queue s') = true.
Proof.
  intros E Htodo Hpc Hn.
  destruct (queue_run_inv T0 vals schedule _ (start_inv T0 vals)) as (s0 & E0 & Hs).
  rewrite E in E0. injection E0 as <-.
  assert (Hm : (drain_measure s <= n)%nat) by (unfold drain_measure; destruct (s_cpc s); lia).
  destruct (drain T0 vals s n Hs Hm) as (s' & E' & Hs' & Hz & Ht' & Hp').
  exists s'. split; [done|].
  assert (Hc : s_cpc s' = CIdle /\ q_divider (s_queue s') = q_last (s_queue s')).
  { pose proof (qi_cpc T0 vals s' Hs') as Hp. pose proof (qi_order T0 vals s' Hs') as Ho.
    unfold drain_measure in Hz. destruct (s_cpc s'); intuition lia. }
  destruct Hc as [Hc Hd]. destruct Hs' as [_ Ho Hl Hf Ht Hp Hsz].
  unfold uncounted in Hsz. rewrite Hc in Hp, Hsz. rewrite Hp', Hpc in Hl, Hsz. rewrite Ht', Htodo in Ht.
  assert (Hlen : (length vals <= q_fresh (s_queue s') - 1)%nat).
  { apply (f_equal length) in Ht. rewrite length_drop in Ht. cbn in Ht. lia. }
  assert (Hz0 : q_size (s_queue s') = 0) by lia.
  split_and!; [|done|unfold queue_empty; by rewrite Hz0].
  rewrite Hp. apply take_ge. lia.
Qed.

Lemma queue_drains_witness :
  exists s s', queue_run (repeat Producer 12 ++ [Consumer; Consumer; Consumer])
                 (queue_start 0%nat [1; 2; 3]%nat) = Done s /\
    queue_run (repeat Consumer 13) s = Done s' /\ s_out s' = [1; 2; 3]%nat /\
    q_size (s_queue s') = 0 /\ queue_empty (s_queue s') = true.
Proof.
  destruct (queue_run (repeat Producer 12 ++ [Consumer; Consumer; Consumer])
    (queue_start 0%nat [1; 2; 3]%nat)) as [s| |] eqn:E; [|vm_compute in E; discriminate E..].
  destruct (queue_drains 0%nat [1; 2; 3]%nat _ s 13 E) as (s' & H).
  - revert E. vm_compute. by intros [= <-].
  - revert E. vm_compute. by intros [= <-].
  - revert E. vm_compute. intros [= <-]. cbn. lia.
  - exists s, s'. split; [reflexivity|exact H].
Defined.

(** [size()] tells the number only up to its truth value. *)
Example queue_size_two :
  exists s, queue_run (repeat Producer 8) (queue_start 0%nat [5; 6]%nat) = Done s /\
    q_size (s_queue s) = 2 /\ queue_size (s_queue s) = true.
Proof. eexists. vm_compute. done. Qed.
