(* ===== verification/Socket.v ===== *)
(** * Sockets, the event loop and the UDP socket
    (base/socket.cpp, base/event_loop.cpp, base/async_udp_socket.cpp,
    ice/port_allocator.cpp)

    The kernel's answers are arguments: the result of each system call, in
    the order the calls are made.  libev's watcher is the fields of [ev_io]
    that base/event_loop.cpp reads and writes. *)

From S2P Require Import Prelude IpAddress.
Local Open Scope Z_scope.

(** ** System calls *)

(** What a system call answers: a value, [EAGAIN], or another error. *)
Inductive syscall : Type := Ret (n : Z) | Again | Fails.

Definition sock_read_data (r : syscall) : Z :=
  match r with
  | Again => 0
  | Fails => -1
  | Ret nread => if nread =? 0 then -1 else nread
  end.

Definition sock_write_data (r : syscall) : Z :=
  match r with Again => 0 | Fails => -1 | Ret nwritten => nwritten end.

Definition sock_recv_from (r : syscall) : Z :=
  match r with
  | Again => 0
  | Fails => -1
  | Ret received => if received =? 0 then -1 else received
  end.

Definition sock_send_to (r : syscall) : Z :=
  match r with
  | Again => 0
  | Fails => -1
  | Ret sent => if sent =? 0 then -1 else sent
  end.

(** [set_port_range] on [_min_port] and [_max_port]. *)
Definition set_port_range (range : Z * Z) (min_port max_port : Z) : Z * Z :=
  (if 0 <? min_port then min_port else fst range, if 0 <? max_port then max_port else snd range).

(** The [for] loop of [sock_bind] with [n] ports left; [bind] is the kernel's
    answer for a port in the address, [None] a [ret] that no call has set.
    The second component is the last port tried. *)
Fixpoint bind_loop (bind : Z -> Z) (n : nat) (port ret : Z) (tried : option Z) : Z * option Z :=
  match n with
  | O => (ret, tried)
  | S n => if ret =? 0 then (ret, tried)
           else bind_loop bind n (port + 1) (bind (u16 port)) (Some (u16 port))
  end.

(** [sock_bind]: the result and the port of the last call to [bind]; port 0
    leaves the choice to the kernel. *)
Definition sock_bind (bind : Z -> Z) (addr_port min_port max_port : Z) : Z * option Z :=
  if (min_port =? 0) && (max_port =? 0) then (bind addr_port, Some addr_port)
  else bind_loop bind (Z.to_nat (max_port - min_port + 1)) min_port (-1) None.

(** ** The event loop's watchers *)

Definition READ : Z := 1.
Definition WRITE : Z := 2.
Definition EV_NONE : Z := 0.
Definition EV_READ : Z := 1.
Definition EV_WRITE : Z := 2.
Definition EV__IOFDSET : Z := 128.

Definition TRANS_TO_EV_MASK (mask : Z) : Z :=
  Z.lor (if negb (Z.land mask READ =? 0) then EV_READ else 0)
        (if negb (Z.land mask WRITE =? 0) then EV_WRITE else 0).

Definition TRANS_FROM_EV_MASK (mask : Z) : Z :=
  Z.lor (if negb (Z.land mask EV_READ =? 0) then READ else 0)
        (if negb (Z.land mask EV_WRITE =? 0) then WRITE else 0).

Record ev_io : Type := mkIo { io_active : bool; io_fd : Z; io_events : Z }.

Definition ev_io_set (w : ev_io) (fd events : Z) : ev_io :=
  mkIo (io_active w) fd (Z.lor events EV__IOFDSET).
Definition ev_io_start (w : ev_io) : ev_io := mkIo true (io_fd w) (io_events w).
Definition ev_io_stop (w : ev_io) : ev_io := mkIo false (io_fd w) (io_events w).

Definition start_io_event (w : ev_io) (fd mask : Z) : ev_io :=
  if io_active w then
    let active_events := TRANS_FROM_EV_MASK (io_events w) in
    let events := Z.lor active_events mask in
    if active_events =? events then w
    else ev_io_start (ev_io_set (ev_io_stop w) fd (TRANS_TO_EV_MASK events))
  else ev_io_start (ev_io_set w fd (TRANS_TO_EV_MASK mask)).

Definition stop_io_event (w : ev_io) (fd mask : Z) : ev_io :=
  let active_events := TRANS_FROM_EV_MASK (io_events w) in
  let events := Z.land active_events (Z.lnot mask) in
  if events =? active_events then w
  else
    let events := TRANS_TO_EV_MASK events in
    let w := ev_io_stop w in
    if negb (events =? EV_NONE) then ev_io_start (ev_io_set w fd events) else w.

(** The events a watcher reports. *)
Definition watched (w : ev_io) : Z := if io_active w then Z.land (io_events w) 3 else 0.

(** ** The asynchronous UDP socket *)

(** [UdpPacketData] *)
Abbreviation packet := (bytes * SocketAddress)%type.

Record AsyncUdpSocket : Type := mkUdp {
  u_fd : Z;
  u_watcher : ev_io;
  u_list : list packet;  (* [_udp_packet_list] *)
  u_calls : nat;  (* calls of [sendto] so far *)
  u_wire : list packet;  (* what the kernel took, in order *)
}.

Definition new_udp_socket (fd : Z) (fresh_events : Z) : AsyncUdpSocket :=
  mkUdp fd (start_io_event (mkIo false fd fresh_events) fd READ) [] 0 [].

Section udp.
Context (os_sendto : nat -> syscall).

(** [sock_send_to] of one packet. *)
Definition udp_send (p : packet) (s : AsyncUdpSocket) : Z * AsyncUdpSocket :=
  let sent := sock_send_to (os_sendto (u_calls s)) in
  (sent, mkUdp (u_fd s) (u_watcher s) (u_list s) (S (u_calls s))
           (if 0 <? sent then u_wire s ++ [p] else u_wire s)).

Definition set_list (l : list packet) (s : AsyncUdpSocket) : AsyncUdpSocket :=
  mkUdp (u_fd s) (u_watcher s) l (u_calls s) (u_wire s).
Definition set_watcher (w : ev_io) (s : AsyncUdpSocket) : AsyncUdpSocket :=
  mkUdp (u_fd s) w (u_list s) (u_calls s) (u_wire s).

(** The [while] loop both senders start with, on the packets of the list: the
    list is sent from the front until it is empty ([0 < result]), an error
    drops the front packet ([< 0]), or the kernel asks to try again ([0]). *)
Fixpoint send_queued (l : list packet) (s : AsyncUdpSocket) : Z * AsyncUdpSocket :=
  match l with
  | [] => (1, set_list [] s)
  | p :: l' =>
      let '(sent, s) := udp_send p s in
      if sent <? 0 then (-1, set_list l' s)
      else if sent =? 0 then (0, set_list (p :: l') s)
      else send_queued l' s
  end.

(** [AsyncUdpSocket::send_data], on a writable event *)
Definition send_data (s : AsyncUdpSocket) : AsyncUdpSocket :=
  let '(r, s) := send_queued (u_list s) s in
  if 0 <? r then set_watcher (stop_io_event (u_watcher s) (u_fd s) WRITE) s else s.

(** [SEND_AGAIN:] *)
Definition send_again (p : packet) (s : AsyncUdpSocket) : Z * AsyncUdpSocket :=
  (Z.of_nat (length (fst p)),
   set_watcher (start_io_event (u_watcher s) (u_fd s) WRITE) (set_list (u_list s ++ [p]) s)).

(** [AsyncUdpSocket::send_to] *)
Definition send_to (p : packet) (s : AsyncUdpSocket) : Z * AsyncUdpSocket :=
  let '(r, s) := send_queued (u_list s) s in
  if r <? 0 then (-1, s)
  else if r =? 0 then send_again p s
  else
    let '(sent, s) := udp_send p s in
    if sent <? 0 then (-1, s)
    else if sent =? 0 then send_again p s
    else (sent, s).

(** What can happen to the sending side. *)
Inductive udp_event : Type := UdpSend (p : packet) | UdpWritable.

Definition udp_step (s : AsyncUdpSocket) (e : udp_event) : AsyncUdpSocket :=
  match e with UdpSend p => snd (send_to p s) | UdpWritable => send_data s end.

Definition udp_run (es : list udp_event) (s : AsyncUdpSocket) : AsyncUdpSocket :=
  fold_left udp_step es s.
End udp.

(** [async_udp_socket_io_cb]: which handler an event runs. *)
Inductive udp_callback : Type := RecvData | SendData | NoCallback.
Definition async_udp_socket_io_cb (events : Z) : udp_callback :=
  if negb (Z.land events READ =? 0) then RecvData
  else if negb (Z.land events WRITE =? 0) then SendData else NoCallback.

(** [AsyncUdpSocket::recv_data] on the datagrams the kernel holds, each the
    result of [recvfrom] and what it fills in: the packets signalled. *)
Fixpoint recv_data (rs : list (syscall * packet)) : list packet :=
  match rs with
  | [] => []
  | (r, p) :: rs' => if sock_recv_from r <=? 0 then [] else p :: recv_data rs'
  end.

(** ** Theory *)

Lemma land_3_split m :
  Z.land m 3 = Z.lor (if negb (Z.land m 1 =? 0) then 1 else 0) (if negb (Z.land m 2 =? 0) then 2 else 0).
Proof.
  assert (H1 : Z.land m 1 = Z.land (Z.land m 3) 1) by (by rewrite <- Z.land_assoc).
  assert (H2 : Z.land m 2 = Z.land (Z.land m 3) 2) by (by rewrite <- Z.land_assoc).
  assert (Hr : Z.land m 3 = m mod 4) by exact (Z.land_ones m 2 ltac:(lia)).
  rewrite H1, H2, Hr. pose proof (Z.mod_pos_bound m 4 ltac:(lia)) as Hb.
  assert (m mod 4 = 0 \/ m mod 4 = 1 \/ m mod 4 = 2 \/ m mod 4 = 3) as [->|[->|[->| ->]]] by lia; done.
Qed.

Lemma trans_from_mask m : TRANS_FROM_EV_MASK m = Z.land m 3.
Proof. symmetry. apply land_3_split. Qed.

Lemma trans_to_mask m : TRANS_TO_EV_MASK m = Z.land m 3.
Proof. symmetry. apply land_3_split. Qed.

Lemma land_set_events e : Z.land (Z.lor (Z.land e 3) EV__IOFDSET) 3 = Z.land e 3.
Proof. rewrite Z.land_lor_distr_l, <- Z.land_assoc. by rewrite Z.lor_0_r. Qed.

Lemma io_masks (w : ev_io) (fd mask : Z) :
  watched (start_io_event w fd mask) = Z.lor (watched w) (Z.land mask 3) /\
  (io_active w = true -> watched (stop_io_event w fd mask) = Z.land (watched w) (Z.lnot mask)) /\
  (io_active w = false ->
   let old := Z.land (io_events w) 3 in
   watched (stop_io_event w fd mask) =
   if Z.land old (Z.lnot mask) =? old then 0 else Z.land old (Z.lnot mask)).
Proof.
  assert (H3 : forall a b, Z.land (Z.land a 3) b = Z.land (Z.land (Z.land a 3) b) 3).
  { intros a b. rewrite <- !Z.land_assoc, (Z.land_comm b 3), (Z.land_assoc 3 3 b). done. }
  split_and!.
  - unfold start_io_event, watched, ev_io_start, ev_io_set, ev_io_stop.
    rewrite trans_from_mask, !trans_to_mask. destruct (io_active w) eqn:Ea; cbn [io_active io_events].
    + destruct (_ =? _) eqn:E; cbn [io_active io_events]; rewrite ?Ea.
      * apply Z.eqb_eq in E. apply (f_equal (fun x => Z.land x 3)) in E.
        by rewrite Z.land_lor_distr_l, <- !Z.land_assoc in E.
      * rewrite land_set_events, Z.land_lor_distr_l, <- Z.land_assoc. done.
    + by rewrite land_set_events, Z.lor_0_l.
  - intros Ea. unfold stop_io_event, watched, ev_io_start, ev_io_set, ev_io_stop.
    rewrite trans_from_mask, !trans_to_mask, Ea. cbn [negb].
    destruct (_ =? _) eqn:E; [by rewrite Ea; apply Z.eqb_eq in E|].
    rewrite <- H3. destruct (_ =? EV_NONE) eqn:E0; cbn [negb io_active io_events].
    + by apply Z.eqb_eq in E0.
    + rewrite H3 at 1. rewrite land_set_events. by rewrite <- H3.
  - intros Ea old. unfold stop_io_event, watched, ev_io_start, ev_io_set, ev_io_stop.
    rewrite trans_from_mask, !trans_to_mask. fold old.
    destruct (_ =? old) eqn:E; [by rewrite Ea|].
    unfold old. rewrite <- H3. destruct (_ =? EV_NONE) eqn:E0; cbn [negb io_active io_events].
    + by apply Z.eqb_eq in E0.
    + rewrite H3 at 1. rewrite land_set_events. by rewrite <- H3.
Qed.


(** The masks of a watcher are sets of events: starting adds the events of
    the mask to what is watched, and stopping a running watcher removes them,
    whatever other bits the mask or libev's field has.  Stopping a watcher
    that is not running starts it, with what is left of the events it was
    last set to, unless the mask has none of them or all of them. *)
Theorem io_watch_masks (w : ev_io) (fd mask : Z) :
  watched (start_io_event w fd mask) = Z.lor (watched w) (Z.land mask 3) /\
  (io_active w = true -> watched (stop_io_event w fd mask) = Z.land (watched w) (Z.lnot mask)) /\
  (io_active w = false ->
   let old := Z.land (io_events w) 3 in
   watched (stop_io_event w fd mask) =
   if Z.land old (Z.lnot mask) =? old then 0 else Z.land old (Z.lnot mask)).
Proof. apply io_masks. Qed.

(** *** The list of the UDP socket *)

Definition submitted (es : list udp_event) : list packet :=
  concat (map (fun e => match e with UdpSend p => [p] | UdpWritable => [] end) es).

(** The kernel takes a packet or asks to try again; it never fails. *)
Definition never_fails (os_sendto : nat -> syscall) : Prop :=
  forall n, os_sendto n = Again \/ exists k, 0 < k /\ os_sendto n = Ret k.

Section udp_theory.
Context (os_sendto : nat -> syscall).

Lemma udp_send_spec p s :
  let '(sent, s') := udp_send os_sendto p s in
  u_fd s' = u_fd s /\ u_watcher s' = u_watcher s /\ u_list s' = u_list s /\
  u_wire s' = (if 0 <? sent then u_wire s ++ [p] else u_wire s) /\
  (never_fails os_sendto -> 0 <= sent).
Proof.
  cbn. split_and!; try done. intros Hok. destruct (Hok (u_calls s)) as [->|(k & Hk & ->)]; cbn; [lia|].
  destruct (k =? 0) eqn:E; lia.
Qed.

Lemma send_queued_spec l s :
  let '(r, s') := send_queued os_sendto l s in
  u_fd s' = u_fd s /\ u_watcher s' = u_watcher s /\
  u_wire s' ++ u_list s' `sublist_of` u_wire s ++ l /\
  (never_fails os_sendto -> u_wire s' ++ u_list s' = u_wire s ++ l /\ 0 <= r) /\
  (0 < r -> u_list s' = []) /\ (l = [] -> u_list s' = []).
Proof.
  revert s. induction l as [|p l IH]; intros s; cbn [send_queued].
  { cbn. split_and!; try done; try lia. }
  pose proof (udp_send_spec p s) as Hsend. destruct (udp_send os_sendto p s) as [sent s1].
  destruct Hsend as (Hfd & Hw & Hl & Hwire & Hok).
  destruct (sent <? 0) eqn:E1.
  { rewrite (proj2 (Z.ltb_ge 0 sent)) in Hwire by lia. cbn. rewrite Hwire.
    split_and!; try done; try lia.
    - apply sublist_app; [done|]. by apply sublist_cons.
    - intros H. specialize (Hok H). lia. }
  destruct (sent =? 0) eqn:E2.
  { rewrite (proj2 (Z.ltb_ge 0 sent)) in Hwire by lia. cbn. rewrite Hwire.
    by split_and!; try done; try lia. }
  rewrite (proj2 (Z.ltb_lt 0 sent)) in Hwire by lia.
  specialize (IH s1). destruct (send_queued os_sendto l s1) as [r s2].
  destruct IH as (F1 & F2 & F3 & F4 & F5 & F6).
  rewrite Hwire, <- app_assoc in F3, F4. cbn [app] in F3, F4.
  split_and!; try done; congruence.
Qed.

(** Everything submitted is on the wire or waits, in order, or was dropped;
    the socket listens, and for writability while packets wait. *)
Record udp_inv (sub : list packet) (s : AsyncUdpSocket) : Prop := {
  ui_order : u_wire s ++ u_list s `sublist_of` sub;
  ui_lossless : never_fails os_sendto -> u_wire s ++ u_list s = sub;
  ui_active : io_active (u_watcher s) = true;
  ui_read : Z.testbit (watched (u_watcher s)) 0 = true;
  ui_write : u_list s <> [] -> Z.testbit (watched (u_watcher s)) 1 = true;
}.

Lemma start_active w fd mask : io_active w = true -> io_active (start_io_event w fd mask) = true.
Proof. intros Ha. unfold start_io_event. rewrite Ha. by destruct (_ =? _). Qed.

Lemma watched_start w fd mask :
  watched (start_io_event w fd mask) = Z.lor (watched w) (Z.land mask 3).
Proof. apply io_masks. Qed.

Lemma watched_active w i : Z.testbit (watched w) i = true -> io_active w = true.
Proof. unfold watched. destruct (io_active w); [done|]. by rewrite Z.bits_0. Qed.

Lemma watched_stop w fd mask : io_active w = true ->
  watched (stop_io_event w fd mask) = Z.land (watched w) (Z.lnot mask).
Proof. apply io_masks. Qed.

Lemma send_again_inv sub p s :
  udp_inv sub s -> udp_inv (sub ++ [p]) (snd (send_again p s)).
Proof.
  intros [H1 H2 H3 H4 H5]. split; cbn [send_again snd set_watcher set_list u_wire u_list u_watcher].
  - rewrite app_assoc. by apply sublist_app.
  - intros Hok. by rewrite app_assoc, H2.
  - by apply start_active.
  - by rewrite watched_start, Z.lor_spec, H4.
  - intros _. rewrite watched_start, Z.lor_spec. apply orb_true_r.
Qed.

Lemma send_queued_inv sub s :
  udp_inv sub s ->
  let '(r, s') := send_queued os_sendto (u_list s) s in
  udp_inv sub s' /\ (never_fails os_sendto -> 0 <= r) /\ (0 < r -> u_list s' = []).
Proof.
  intros [H1 H2 H3 H4 H5]. pose proof (send_queued_spec (u_list s) s) as Hs.
  destruct (send_queued _ _ _) as [r s']. destruct Hs as (F1 & F2 & F3 & F4 & F5 & F6).
  split; [|split; [intros Hok; by apply F4|done]]. split; rewrite ?F2; try done.
  - by trans (u_wire s ++ u_list s).
  - intros Hok. destruct (F4 Hok) as [-> _]. by apply H2.
  - intros Hne. apply H5. intros E. by apply Hne, F6.
Qed.

Lemma udp_step_inv sub e s :
  udp_inv sub s -> udp_inv (sub ++ submitted [e]) (udp_step os_sendto s e).
Proof.
  intros Hs. pose proof (send_queued_inv sub s Hs) as Hq. destruct e as [p|]; cbn [udp_step submitted map concat].
  - unfold send_to. destruct (send_queued _ _ _) as [r s1]. destruct Hq as (Hs1 & Hr & Hl).
    assert (Hdrop : (never_fails os_sendto -> False) -> udp_inv (sub ++ [p]) s1).
    { intros Hf. destruct Hs1 as [H1 H2 H3 H4 H5]. split; try done.
      - by apply sublist_inserts_r. }
    destruct (r <? 0) eqn:E1; [apply Hdrop; intros Hok; specialize (Hr Hok); lia|].
    destruct (r =? 0) eqn:E2; [by apply send_again_inv|].
    pose proof (udp_send_spec p s1) as Hsend. destruct (udp_send os_sendto p s1) as [sent s2].
    destruct Hsend as (Hfd & Hw & Hl2 & Hwire & Hok).
    assert (Hs2 : 0 < sent \/ udp_inv sub s2).
    { destruct (decide (0 < sent)) as [?|Hn]; [by left|right].
      rewrite (proj2 (Z.ltb_ge 0 sent)) in Hwire by lia.
      destruct Hs1 as [H1 H2 H3 H4 H5]. split; rewrite ?Hw, ?Hl2, ?Hwire; done. }
    destruct (sent <? 0) eqn:E3; [|destruct (sent =? 0) eqn:E4].
    + destruct Hs2 as [?|[H1 H2 H3 H4 H5]]; [lia|]. split; try done.
      * by apply sublist_inserts_r.
      * intros H. specialize (Hok H). lia.
    + destruct Hs2 as [?|Hs2]; [lia|]. by apply send_again_inv.
    + rewrite (proj2 (Z.ltb_lt 0 sent)) in Hwire by lia. rewrite Hl in Hl2 by lia.
      destruct Hs1 as [H1 H2 H3 H4 H5]. cbn [snd]. rewrite Hl, app_nil_r in H1, H2 by lia.
      split; rewrite ?Hw, ?Hl2, ?Hwire, ?app_nil_r; try done.
      * by apply sublist_app.
      * intros H. by rewrite (H2 H).
  - unfold send_data. rewrite app_nil_r. destruct (send_queued _ _ _) as [r s1].
    destruct Hq as (Hs1 & _ & Hl). destruct (0 <? r) eqn:E; [|done].
    destruct Hs1 as [H1 H2 H3 H4 H5].
    assert (Hw : watched (stop_io_event (u_watcher s1) (u_fd s1) WRITE) =
                 Z.land (watched (u_watcher s1)) (Z.lnot WRITE)) by (by apply watched_stop).
    assert (Hb : Z.testbit (watched (stop_io_event (u_watcher s1) (u_fd s1) WRITE)) 0 = true).
    { by rewrite Hw, Z.land_spec, H4. }
    split; cbn [set_watcher u_wire u_list u_watcher]; try done.
    + by eapply watched_active.
    + intros Hne. rewrite Hl in Hne by lia. done.
Qed.
End udp_theory.

(** the UDP socket keeps the order of what it is given.  Whatever the
    kernel answers and however sends and writable events alternate, the
    packets it took followed by those waiting are a subsequence of the
    packets submitted, in the order submitted; all of them, when no call
    fails; and the socket always listens for datagrams, and for writability
    whenever a packet waits, so no packet waits unnoticed. *)
Theorem udp_socket_fifo (os_sendto : nat -> syscall) (fd fresh : Z) (es : list udp_event) :
  let s := udp_run os_sendto es (new_udp_socket fd fresh) in
  u_wire s ++ u_list s `sublist_of` submitted es /\
  (never_fails os_sendto -> u_wire s ++ u_list s = submitted es) /\
  Z.testbit (watched (u_watcher s)) 0 = true /\
  (u_list s <> [] -> Z.testbit (watched (u_watcher s)) 1 = true).
Proof.
  assert (H : udp_inv os_sendto (submitted es) (udp_run os_sendto es (new_udp_socket fd fresh))).
  { induction es as [|e es IH] using rev_ind.
    - split; try done.
    - unfold udp_run, submitted in *. rewrite fold_left_app, map_app, concat_app. cbn [fold_left].
      by apply udp_step_inv. }
  destruct H. by split_and!.
Qed.

(** ** Binding *)

Lemma bind_loop_spec bind n port ret tried :
  ret <> 0 -> 0 <= port -> port + Z.of_nat n <= 2 ^ 16 ->
  (exists p, port <= p < port + Z.of_nat n /\ bind p = 0 /\
     (forall q, port <= q < p -> bind q <> 0) /\ bind_loop bind n port ret tried = (0, Some p)) \/
  ((forall q, port <= q < port + Z.of_nat n -> bind q <> 0) /\
   fst (bind_loop bind n port ret tried) <> 0).
Proof.
  revert port ret tried. induction n as [|n IH]; intros port ret tried Hret H0 Hmax; cbn [bind_loop].
  { right. split; [lia|done]. }
  rewrite (proj2 (Z.eqb_neq _ _) Hret), (u16_id port) by lia.
  destruct (decide (bind port = 0)) as [Hz|Hnz].
  - left. exists port. split_and!; try lia. rewrite Hz. by destruct n.
  - destruct (IH (port + 1) (bind port) (Some port) Hnz ltac:(lia) ltac:(lia))
      as [(p & Hp & Hb & Hq & E)|[Hq E]].
    + left. exists p. split_and!; try done; try lia. intros q Hqr.
      destruct (decide (q = port)) as [->|]; [done|]. apply Hq. lia.
    + right. split; [|done]. intros q Hqr. destruct (decide (q = port)) as [->|]; [done|].
      apply Hq. lia.
Qed.

(** A port range is searched from below.  With a range of valid ports
    [sock_bind] succeeds exactly when a port of the range can be bound, and
    then it bound the lowest one; with no range it makes one call and leaves
    the choice to the kernel. *)
Theorem sock_bind_lowest (bind : Z -> Z) (addr_port min_port max_port : Z) :
  0 < min_port -> min_port <= max_port < 2 ^ 16 ->
  sock_bind bind addr_port 0 0 = (bind addr_port, Some addr_port) /\
  ((exists p, min_port <= p <= max_port /\ bind p = 0) <->
   fst (sock_bind bind addr_port min_port max_port) = 0) /\
  (forall p, sock_bind bind addr_port min_port max_port = (0, Some p) ->
     min_port <= p <= max_port /\ bind p = 0 /\ forall q, min_port <= q < p -> bind q <> 0).
Proof.
  intros Hmin Hmax. unfold sock_bind. split; [done|].
  rewrite (proj2 (Z.eqb_neq min_port 0)) by lia. cbn [andb].
  destruct (bind_loop_spec bind (Z.to_nat (max_port - min_port + 1)) min_port (-1) None)
    as [(p & Hp & Hb & Hq & E)|[Hq E]]; [done|lia|lia|..].
  - rewrite E. split; [split; [done|]|].
    + intros _. exists p. split; [lia|done].
    + intros p' [= <-]. split_and!; try done; lia.
  - split; [split|].
    + intros (p & Hp & Hb). destruct (Hq p); [lia|done].
    + intros E0. by rewrite E0 in E.
    + intros p E0. by rewrite E0 in E.
Qed.

Lemma sock_bind_lowest_witness :
  let bind := fun p => if p =? 50002 then 0 else -1 in
  sock_bind bind 7 0 0 = (bind 7, Some 7) /\
  ((exists p, 50000 <= p <= 50009 /\ bind p = 0) <-> fst (sock_bind bind 7 50000 50009) = 0) /\
  (forall p, sock_bind bind 7 50000 50009 = (0, Some p) ->
     50000 <= p <= 50009 /\ bind p = 0 /\ forall q, 50000 <= q < p -> bind q <> 0).
Proof. apply sock_bind_lowest; lia. Defined.
