(* ===== verification/Rtp.v ===== *)
(** * Telling packets apart (module/rtp_rtcp/rtp_utils.cpp, and the tests of
    pc/dtls_transport.cpp)

    What arrives on an ICE channel and is not STUN is DTLS, RTP or RTCP; the
    first bytes say which. *)

From S2P Require Import Prelude ByteBuffer.
Local Open Scope Z_scope.

Definition k_dtls_record_header_len : nat := 13.
Definition k_max_dtls_packet_len : nat := 2048.
Definition k_max_pending_packets : nat := 2.
Definition k_min_rtp_packet_len : nat := 12.
Definition k_min_rtcp_packet_len : nat := 4.
Definition k_rtp_version : Z := 2.

(** [u[i]], guarded by a length check wherever the code reads it. *)
Definition byte_at (p : bytes) (i : nat) : Z := default 0 (byte_z <$> p !! i).

(** ** pc/dtls_transport.cpp *)

Definition is_dtls_packet (p : bytes) : bool :=
  bool_decide (k_dtls_record_header_len <= length p)%nat &&
  ((19 <? byte_at p 0) && (byte_at p 0 <? 64)).

Definition is_dtls_client_hello_packet (p : bytes) : bool :=
  is_dtls_packet p && bool_decide (17 < length p)%nat &&
  ((byte_at p 0 =? 22) && (byte_at p 13 =? 1)).

(** The [is_rtp_packet] of pc/dtls_transport.cpp, which does not tell RTP
    from RTCP. *)
Definition dtls_is_rtp_packet (p : bytes) : bool :=
  bool_decide (k_min_rtp_packet_len <= length p)%nat && (Z.land (byte_at p 0) 0xC0 =? 0x80).

(** ** module/rtp_rtcp/rtp_utils.cpp *)

Inductive RtpPacketType : Type := k_rtp | k_rtcp | k_unknown.

#[export] Instance RtpPacketType_eq_dec : EqDecision RtpPacketType.
Proof. solve_decision. Defined.

Definition has_correct_rtp_version (p : bytes) : bool := Z.shiftr (byte_at p 0) 6 =? k_rtp_version.

Definition payload_type_is_reserved_for_rtcp (payload_type : Z) : bool :=
  (64 <=? payload_type) && (payload_type <? 96).

Definition is_rtp_packet (p : bytes) : bool :=
  bool_decide (k_min_rtp_packet_len <= length p)%nat && has_correct_rtp_version p &&
  negb (payload_type_is_reserved_for_rtcp (Z.land (byte_at p 1) 0x7F)).

Definition is_rtcp_packet (p : bytes) : bool :=
  bool_decide (k_min_rtcp_packet_len <= length p)%nat && has_correct_rtp_version p &&
  payload_type_is_reserved_for_rtcp (Z.land (byte_at p 1) 0x7F).

Definition infer_rtp_packet_type (p : bytes) : RtpPacketType :=
  if is_rtp_packet p then k_rtp else if is_rtcp_packet p then k_rtcp else k_unknown.

Definition parse_rtp_sequence_number (p : bytes) : Z := be_decode (take 2 (drop 2 p)).

Definition get_rtcp_type (p : bytes) : option Z :=
  if bool_decide (length p < k_min_rtcp_packet_len)%nat then None else Some (byte_at p 1).

(** ** DTLS records *)

(** The [while] loop of [_handle_dtls_packet]: the bytes are whole records.
    A turn consumes at least the header, so the length is fuel enough. *)
Fixpoint dtls_records_ok (fuel : nat) (p : bytes) : bool :=
  match fuel with
  | O => bool_decide (p = [])
  | S fuel =>
      match p with
      | [] => true
      | _ =>
          if bool_decide (length p < k_dtls_record_header_len)%nat then false
          else
            let record_len := Z.lor (Z.shiftl (byte_at p 11) 8) (byte_at p 12) in
            if Z.of_nat (length p) <? record_len + Z.of_nat k_dtls_record_header_len then false
            else dtls_records_ok fuel (drop (k_dtls_record_header_len + Z.to_nat record_len) p)
      end
  end.

(** ** The queue between ICE and the DTLS layer (rtc_base/buffer_queue.cc) *)

Definition WriteBack (capacity : nat) (q : list bytes) (p : bytes) : option (list bytes) :=
  if bool_decide (length q = capacity) then None else Some (q ++ [p]).

(** A packet longer than the reader's buffer is cut. *)
Definition ReadFront (q : list bytes) (len : nat) : option (bytes * list bytes) :=
  match q with [] => None | p :: q => Some (take len p, q) end.

(** ** Theory *)

Lemma byte_at_range p i : 0 <= byte_at p i < 256.
Proof. unfold byte_at. destruct (p !! i); cbn; [apply byte_z_range|lia]. Qed.

(** The two tests of the RTP version agree on a byte. *)
Lemma rtp_version_byte b : 0 <= b < 256 -> (Z.land b 0xC0 =? 0x80) = (Z.shiftr b 6 =? 2).
Proof.
  intros Hb.
  assert (H : forallb (fun n => Bool.eqb (Z.land (Z.of_nat n) 0xC0 =? 0x80)
                                  (Z.shiftr (Z.of_nat n) 6 =? 2)) (seq 0 256) = true)
    by (vm_compute; reflexivity).
  rewrite forallb_forall in H. specialize (H (Z.to_nat b)). rewrite Z2Nat.id in H by lia.
  apply eqb_prop, H, in_seq. lia.
Qed.

Lemma rtp_first_byte b : 0 <= b < 256 -> (Z.shiftr b 6 =? 2) = true <-> 128 <= b < 192.
Proof.
  intros Hb. rewrite Z.eqb_eq, Z.shiftr_div_pow2 by lia. change (2 ^ 6) with 64. split; intros H.
  - pose proof (Z.div_mod b 64 ltac:(lia)). pose proof (Z.mod_pos_bound b 64 ltac:(lia)). lia.
  - symmetry. apply (Z.div_unique b 64 2 (b - 128)); lia.
Qed.

Lemma land_7f b : 0 <= b < 256 -> Z.land b 0x7F = b mod 128.
Proof. intros _. exact (Z.land_ones b 7 ltac:(lia)). Qed.

(** The second bytes RFC 5761 keeps for RTCP, marker bit or not. *)
Definition rtcp_second_byte (b : Z) : Prop := 64 <= b < 96 \/ 192 <= b < 224.

Lemma rtcp_payload_type b : 0 <= b < 256 ->
  payload_type_is_reserved_for_rtcp (Z.land b 0x7F) = true <-> rtcp_second_byte b.
Proof.
  intros Hb. rewrite land_7f by done. unfold payload_type_is_reserved_for_rtcp, rtcp_second_byte.
  rewrite andb_true_iff, Z.leb_le, Z.ltb_lt.
  pose proof (Z.div_mod b 128 ltac:(lia)). pose proof (Z.mod_pos_bound b 128 ltac:(lia)).
  assert (b / 128 = 0 \/ b / 128 = 1) as [E|E].
  { pose proof (Z.div_lt_upper_bound b 128 2 ltac:(lia) ltac:(lia)).
    pose proof (Z.div_pos b 128 ltac:(lia) ltac:(lia)). lia. }
  all: rewrite E in *; lia.
Qed.

Lemma rtp_version p : has_correct_rtp_version p = true <-> 128 <= byte_at p 0 < 192.
Proof. apply rtp_first_byte, byte_at_range. Qed.

Lemma is_rtp_spec p : is_rtp_packet p = true <->
  (12 <= length p)%nat /\ 128 <= byte_at p 0 < 192 /\ ~ rtcp_second_byte (byte_at p 1).
Proof.
  unfold is_rtp_packet. rewrite !andb_true_iff, bool_decide_eq_true, rtp_version, negb_true_iff,
    <- not_true_iff_false, rtcp_payload_type by apply byte_at_range.
  unfold k_min_rtp_packet_len. tauto.
Qed.

Lemma is_rtcp_spec p : is_rtcp_packet p = true <->
  (4 <= length p)%nat /\ 128 <= byte_at p 0 < 192 /\ rtcp_second_byte (byte_at p 1).
Proof.
  unfold is_rtcp_packet. rewrite !andb_true_iff, bool_decide_eq_true, rtp_version, rtcp_payload_type
    by apply byte_at_range. unfold k_min_rtcp_packet_len. tauto.
Qed.

Lemma infer_spec p :
  (infer_rtp_packet_type p = k_rtp <-> is_rtp_packet p = true) /\
  (infer_rtp_packet_type p = k_rtcp <-> is_rtcp_packet p = true).
Proof.
  unfold infer_rtp_packet_type. pose proof (is_rtp_spec p) as H1. pose proof (is_rtcp_spec p) as H2.
  destruct (is_rtp_packet p), (is_rtcp_packet p); intuition (congruence || done).
Qed.

(** Every packet has one reading.  RTP is what has twelve bytes, version 2
    and a payload type outside the range RFC 5761 gives to RTCP; RTCP what has
    four bytes, version 2 and a type inside it; a DTLS packet is neither; and
    a packet the DTLS transport lets through as RTP is never unknown. *)
Theorem demux_partition (p : bytes) :
  (infer_rtp_packet_type p = k_rtp <->
     (12 <= length p)%nat /\ 128 <= byte_at p 0 < 192 /\ ~ rtcp_second_byte (byte_at p 1)) /\
  (infer_rtp_packet_type p = k_rtcp <->
     (4 <= length p)%nat /\ 128 <= byte_at p 0 < 192 /\ rtcp_second_byte (byte_at p 1)) /\
  ~ (is_dtls_packet p = true /\
     (dtls_is_rtp_packet p = true \/ infer_rtp_packet_type p <> k_unknown)) /\
  ~ (dtls_is_rtp_packet p = true /\ infer_rtp_packet_type p = k_unknown).
Proof.
  pose proof (infer_spec p) as [Hr Hc]. rewrite <- is_rtp_spec, <- is_rtcp_spec.
  pose proof (is_rtp_spec p) as Sr. pose proof (is_rtcp_spec p) as Sc.
  assert (Hd : dtls_is_rtp_packet p = true <-> (12 <= length p)%nat /\ 128 <= byte_at p 0 < 192).
  { unfold dtls_is_rtp_packet. rewrite andb_true_iff, bool_decide_eq_true.
    unfold k_min_rtp_packet_len. rewrite (rtp_version_byte _ (byte_at_range p 0)).
    by rewrite rtp_first_byte by apply byte_at_range. }
  split_and!; [done|done| |].
  - rewrite Hd. unfold is_dtls_packet. rewrite !andb_true_iff, Z.ltb_lt, Z.ltb_lt.
    intros ((_ & H1 & H2) & [H|H]); [lia|].
    assert (is_rtp_packet p = true \/ is_rtcp_packet p = true) as [E|E].
    { unfold infer_rtp_packet_type in H. destruct (is_rtp_packet p), (is_rtcp_packet p); auto. }
    + apply Sr in E. lia.
    + apply Sc in E. lia.
  - rewrite Hd. intros [H E].
    destruct (decide (is_rtp_packet p = true)) as [E1|N1]; [apply Hr in E1; congruence|].
    destruct (decide (is_rtcp_packet p = true)) as [E2|N2]; [apply Hc in E2; congruence|].
    rewrite Sr in N1. rewrite Sc in N2. apply N2. split_and!; try lia.
    unfold rtcp_second_byte in *. destruct (decide (64 <= byte_at p 1 < 96)); [by left|].
    destruct (decide (192 <= byte_at p 1 < 224)); [by right|]. exfalso. apply N1. intuition lia.
Qed.

Lemma records_ok_fuel f1 f2 p :
  (length p <= f1)%nat -> (length p <= f2)%nat -> dtls_records_ok f1 p = dtls_records_ok f2 p.
Proof.
  revert f2 p. induction f1 as [|f1 IH]; intros f2 p H1 H2.
  { destruct p; [|simpl in H1; lia]. by destruct f2. }
  destruct p as [|b p]; [by destruct f2|]. destruct f2 as [|f2]; [simpl in H2; lia|].
  cbn [dtls_records_ok]. case_bool_decide; [done|]. destruct (_ <? _); [done|].
  apply IH; rewrite length_drop; cbn in *; lia.
Qed.

(** A record: type, version, epoch and sequence number in eleven bytes, the
    length in two, the content. *)
Definition dtls_record (hdr content : bytes) : bytes :=
  hdr ++ be_encode 2 (Z.of_nat (length content)) ++ content.
Definition dtls_record_ok (r : bytes * bytes) : Prop :=
  length (fst r) = 11%nat /\ Z.of_nat (length (snd r)) < 2 ^ 16.
Definition dtls_datagram (rs : list (bytes * bytes)) : bytes :=
  concat (map (fun r => dtls_record (fst r) (snd r)) rs).

Lemma record_length_field (l : Z) : 0 <= l < 2 ^ 16 ->
  forall b1 b2, be_encode 2 l = [b1; b2] -> Z.lor (Z.shiftl (byte_z b1) 8) (byte_z b2) = l.
Proof.
  intros Hl b1 b2 E. pose proof (be_decode_encode_id 2 l) as Hd. rewrite E in Hd.
  assert (Hs : be_decode [b1; b2] = byte_z b1 * 256 + byte_z b2).
  { unfold be_decode. cbn [fold_left]. rewrite Z.shiftl_0_l, Z.shiftl_mul_pow2 by lia. cbn. lia. }
  rewrite Z.shiftl_mul_pow2 by lia. rewrite lor_disjoint; [|lia|apply byte_z_range].
  change (2 ^ 8) with 256. rewrite <- Hs. apply Hd. exact Hl.
Qed.

Lemma dtls_record_fields hdr content rest :
  length hdr = 11%nat -> Z.of_nat (length content) < 2 ^ 16 ->
  let p := dtls_record hdr content ++ rest in
  Z.lor (Z.shiftl (byte_at p 11) 8) (byte_at p 12) = Z.of_nat (length content) /\
  length (dtls_record hdr content) = (13 + length content)%nat /\
  drop (13 + length content) p = rest.
Proof.
  intros Hh Hc p. unfold p, dtls_record. split_and!.
  - destruct (be_encode 2 (Z.of_nat (length content))) as [|b1 [|b2 [|]]] eqn:E;
      try (apply (f_equal length) in E; rewrite length_be_encode in E; discriminate E).
    unfold byte_at. rewrite <- !app_assoc, !(lookup_app_r hdr) by lia. rewrite Hh. cbn [app lookup list_lookup
      Nat.sub fmap option_fmap default].
    apply record_length_field; [lia|done].
  - rewrite !length_app, length_be_encode, Hh. lia.
  - apply drop_app_length'. rewrite !length_app, length_be_encode, Hh. lia.
Qed.

Lemma records_ok_datagram rs fuel :
  Forall dtls_record_ok rs -> (length (dtls_datagram rs) <= fuel)%nat ->
  dtls_records_ok fuel (dtls_datagram rs) = true.
Proof.
  revert fuel. induction rs as [|[hdr content] rs IH]; intros fuel Hrs Hf.
  { by destruct fuel. }
  apply Forall_cons in Hrs as [[Hh Hc] Hrs]. cbn [fst snd] in *.
  unfold dtls_datagram in *. cbn [map concat fst snd] in *.
  destruct (dtls_record_fields hdr content (concat (map (fun r => dtls_record r.1 r.2) rs)) Hh Hc)
    as (E1 & E2 & E3).
  rewrite length_app, E2 in Hf.
  set (p := dtls_record hdr content ++ _) in *.
  assert (Hlen : (13 + length content <= length p)%nat) by (unfold p; rewrite length_app; lia).
  destruct fuel as [|fuel]; [lia|]. cbn [dtls_records_ok].
  destruct p as [|b p'] eqn:Ep; [cbn in Hlen; lia|]. rewrite <- Ep in *. clearbody p.
  unfold k_dtls_record_header_len. rewrite bool_decide_eq_false_2 by lia. rewrite E1.
  rewrite (proj2 (Z.ltb_ge _ _)) by lia. rewrite Nat2Z.id, E3. apply IH; [done|lia].
Qed.

Lemma records_ok_inv fuel p :
  dtls_records_ok fuel p = true -> exists rs, Forall dtls_record_ok rs /\ p = dtls_datagram rs.
Proof.
  revert p. induction fuel as [|fuel IH]; intros p; cbn [dtls_records_ok].
  { intros H. apply bool_decide_eq_true in H as ->. by exists []. }
  destruct p as [|b p'] eqn:Ep; [by exists []|]. rewrite <- Ep in *. clear Ep.
  unfold k_dtls_record_header_len. case_bool_decide as Hlen; [done|].
  set (n := Z.lor _ _). destruct (Z.of_nat (length p) <? n + Z.of_nat 13) eqn:Hn; [done|]. apply Z.ltb_ge in Hn. intros H.
  apply IH in H as (rs & Hrs & Hp).
  assert (Hr : 0 <= n < 2 ^ 16).
  { unfold n. rewrite Z.shiftl_mul_pow2, lor_disjoint by (lia || apply byte_at_range).
    pose proof (byte_at_range p 11). pose proof (byte_at_range p 12). change (2 ^ 8) with 256. lia. }
  assert (Hd : length (take (Z.to_nat n) (drop 13 p)) = Z.to_nat n)
    by (rewrite length_take, length_drop; clear -Hn Hr Hlen; lia).
  exists ((take 11 p, take (Z.to_nat n) (drop 13 p)) :: rs). split.
  - constructor; [|done]. split; cbn [fst snd]; [rewrite length_take; lia|rewrite Hd; lia].
  - unfold dtls_datagram in *. cbn [map concat fst snd]. rewrite <- Hp. unfold dtls_record. rewrite Hd.
    assert (Hbe : be_encode 2 (Z.of_nat (Z.to_nat n)) = take 2 (drop 11 p)).
    { rewrite Z2Nat.id by lia.
      destruct (drop 11 p) as [|b1 [|b2 l]] eqn:E;
        try (apply (f_equal length) in E; rewrite length_drop in E; cbn in E; lia).
      cbn [take].
      assert (B1 : byte_at p 11 = byte_z b1).
      { unfold byte_at. rewrite <- (Nat.add_0_r 11), <- lookup_drop, E. done. }
      assert (B2 : byte_at p 12 = byte_z b2).
      { unfold byte_at. change 12%nat with (11 + 1)%nat. rewrite <- lookup_drop, E. done. }
      pose proof (be_encode_decode [b1; b2]) as Hed. cbn [length] in Hed. etransitivity; [|exact Hed].
      f_equal. unfold n. rewrite B1, B2, Z.shiftl_mul_pow2, lor_disjoint by (lia || apply byte_z_range).
      unfold be_decode. cbn [fold_left]. rewrite Z.shiftl_0_l, Z.shiftl_mul_pow2 by lia. cbn. lia. }
    rewrite Hbe, <- !app_assoc.
    rewrite <- (take_drop 11 p) at 1. f_equal.
    rewrite <- (take_drop 2 (drop 11 p)) at 1. f_equal. rewrite drop_drop. cbn [Nat.add].
    rewrite <- (take_drop (Z.to_nat n) (drop 13 p)) at 1. f_equal. by rewrite drop_drop.
Qed.

(** A datagram goes to the DTLS layer exactly when it is a sequence of
    whole records: the check of [_handle_dtls_packet] ends on every input, and
    accepts the concatenations of records (eleven bytes of header, a length
    in two, that many bytes) and nothing else. *)
Theorem dtls_framing_exact (p : bytes) :
  dtls_records_ok (length p) p = true <->
  exists rs, Forall dtls_record_ok rs /\ p = dtls_datagram rs.
Proof.
  split; [apply records_ok_inv|]. intros (rs & Hrs & ->). by apply records_ok_datagram.
Qed.
