(* ===== verification/Helpers.v ===== *)
(** * Random strings (rtc_base/helpers.cc) and credentials
    (ice/ice_credentials.cpp)

    A generator is OpenSSL's, whose [RAND_bytes] is a parameter, or the linear
    congruential one of the tests.  The generator is one process-wide object,
    which the state monad carries. *)

From S2P Require Import Prelude State IceTypes.
Local Open Scope Z_scope.

(** ** Generators *)

(** The current generator; [S] is the state behind [RAND_bytes]. *)
Inductive RandomGenerator (S : Type) : Type :=
  | SecureRandomGenerator (s : S)
  | TestRandomGenerator (s : S) (seed_ : Z).
Arguments SecureRandomGenerator {S} _.
Arguments TestRandomGenerator {S} _ _.

(** [TestRandomGenerator::GetRandom]: the result and the new seed. *)
Definition GetRandom (seed_ : Z) : Z * Z :=
  let seed_ := i32 (seed_ * 214013 + 2531011) in
  (Z.land (Z.shiftr seed_ 16) 0x7fff, seed_).

Fixpoint test_generate (len : nat) (seed_ : Z) : bytes * Z :=
  match len with
  | O => ([], seed_)
  | S len => let '(r, seed_) := GetRandom seed_ in
             let '(buf, seed_) := test_generate len seed_ in (z_byte r :: buf, seed_)
  end.

(** The tables. *)
Definition kBase64 : bytes := str "ABCDEFGHIJKLMNOPQRSTUVWXYZabcdefghijklmnopqrstuvwxyz0123456789+/".
Definition kHex : bytes := str "0123456789abcdef".
Definition kUuidDigit17 : bytes := str "89ab".

(** [ICE_UFRAG_LENGTH], [ICE_PWD_LENGTH] *)
Definition ICE_UFRAG_LENGTH : nat := 4.
Definition ICE_PWD_LENGTH : nat := 24.

Section random.
Context {S : Type}.
(** [RAND_bytes]: [None] when it does not return a positive value. *)
Variable RAND_bytes : nat -> S -> option (bytes * S).

Definition R := St (RandomGenerator S).

(** [Generate]: [None] is [false]. *)
Definition Generate (len : nat) : R (option bytes) := run (fun g =>
  match g with
  | SecureRandomGenerator s =>
      match RAND_bytes len s with
      | Some (buf, s) => (Some buf, SecureRandomGenerator s)
      | None => (None, g)
      end
  | TestRandomGenerator s seed_ =>
      let '(buf, seed_) := test_generate len seed_ in (Some buf, TestRandomGenerator s seed_)
  end).

(** A new test generator has the seed 7. *)
Definition SetRandomTestMode (test : bool) : R () := put (fun g =>
  let s := match g with SecureRandomGenerator s | TestRandomGenerator s _ => s end in
  if test then TestRandomGenerator s 7 else SecureRandomGenerator s).

(** [RTC_CHECK] *)
Definition rtc_check {A} (o : option A) : R A := fun g =>
  match o with Some a => Done (a, g) | None => Throws aborted end.

(** The characters that random bytes choose from a table. *)
Definition table_char (table : bytes) (b : byte) : outcome byte :=
  deref out_of_bounds (table !! Z.to_nat (byte_z b mod Z.of_nat (length table))).

Fixpoint table_chars (table buf : bytes) : outcome bytes :=
  match buf with
  | [] => Done []
  | b :: buf => c ← table_char table b; s ← table_chars table buf; Done (c :: s)
  end.

(** [CreateRandomString(len, table, table_size, str)]: [None] is [false]; a
    remainder by zero has no meaning. *)
Definition CreateRandomString_table (len : nat) (table : bytes) : R (option bytes) :=
  if bool_decide (table = []) then fault div_by_zero
  else if negb (256 mod Z.of_nat (length table) =? 0) then mret None
  else
    o ← Generate len;
    match o with
    | None => mret None
    | Some buf => s ← step (fun g => s ← table_chars table buf; Done (s, g)); mret (Some s)
    end.

Definition CreateRandomString (len : nat) : R bytes :=
  o ← CreateRandomString_table len kBase64;
  rtc_check o.

(** [data->at(0)] of an empty string throws. *)
Definition CreateRandomData (length : nat) : R (option bytes) :=
  match length with
  | O => fun _ => Throws out_of_range
  | _ => Generate length
  end.

Definition hex_char (b : byte) : byte := default x00 (kHex !! Z.to_nat (byte_z b mod 16)).

(** [kUuidDigit17[bytes[15] % 4]] *)
Definition digit_17 (b : byte) : byte := default x00 (kUuidDigit17 !! Z.to_nat (byte_z b mod 4)).

Definition CreateRandomUuid : R bytes :=
  o ← Generate 31;
  buf ← rtc_check o;
  mret (map hex_char (take 8 buf) ++ str "-" ++
        map hex_char (take 4 (drop 8 buf)) ++ str "-" ++ str "4" ++
        map hex_char (take 3 (drop 12 buf)) ++ str "-" ++
        map digit_17 (take 1 (drop 15 buf)) ++
        map hex_char (take 3 (drop 16 buf)) ++ str "-" ++
        map hex_char (take 12 (drop 19 buf))).

(** Four bytes in the order of the machine, which is little-endian. *)
Definition CreateRandomId : R Z :=
  o ← Generate 4;
  buf ← rtc_check o;
  mret (fold_right (fun b v => byte_z b + 256 * v) 0 buf).

(** The loop, with its turns as fuel: [None] is still running. *)
Fixpoint CreateRandomNonZeroId (fuel : nat) : R (option Z) :=
  match fuel with
  | O => mret None
  | Datatypes.S fuel => id ← CreateRandomId; if id =? 0 then CreateRandomNonZeroId fuel else mret (Some id)
  end.

(** [IceCredentials::create_random_ice_credentials].  C++ does not order the
    two calls; they are drawn here from left to right. *)
Definition create_random_ice_credentials : R IceParameters :=
  ufrag ← CreateRandomString ICE_UFRAG_LENGTH;
  pwd ← CreateRandomString ICE_PWD_LENGTH;
  mret (mkIceParameters ufrag pwd).
End random.
Arguments R : clear implicits.

(** ** Uniform strings *)

Definition all_bytes : bytes := map (fun n => z_byte (Z.of_nat n)) (seq 0 256).

(** All buffers of a length. *)
Fixpoint buffers (n : nat) : list bytes :=
  match n with
  | O => [[]]
  | S n => flat_map (fun b => map (cons b) (buffers n)) all_bytes
  end.

Lemma all_bytes_spec : NoDup all_bytes /\ forall b, b ∈ all_bytes.
Proof.
  split; [apply (bool_decide_unpack _); by vm_compute|]. intros b. apply list_elem_of_In, in_map_iff.
  exists (Z.to_nat (byte_z b)). pose proof (byte_z_range b). rewrite Z2Nat.id, z_byte_z by lia. split; [done|].
  apply in_seq. lia.
Qed.

(** They are listed, and once. *)
Lemma buffers_spec n : NoDup (buffers n) /\ forall buf, buf ∈ buffers n <-> length buf = n.
Proof.
  destruct all_bytes_spec as [Hnd Hall]. induction n as [|n [IHn IH]]; cbn [buffers].
  { split; [apply NoDup_singleton|]. intros buf. rewrite list_elem_of_singleton. by destruct buf. }
  split.
  - clear Hall. induction Hnd as [|b l Hb _ IHl]; cbn [flat_map]; [constructor|]. apply NoDup_app. split_and!; [|..|exact IHl].
    + by apply (NoDup_fmap_2 (cons b)).
    + intros x (y & <- & _)%list_elem_of_In%in_map_iff (b' & Hb' & (z & Ez & _)%in_map_iff)%list_elem_of_In%in_flat_map.
      injection Ez as -> _. apply Hb. by apply list_elem_of_In.
  - intros buf. rewrite list_elem_of_In, in_flat_map. split.
    + intros (b & _ & (y & <- & Hy)%in_map_iff). cbn. f_equal. by apply IH, list_elem_of_In.
    + destruct buf as [|b buf]; [done|]. intros [= E]. exists b. split; [apply list_elem_of_In, Hall|].
      apply in_map, list_elem_of_In, IH, E.
Qed.

Lemma chars_cons table b buf c s :
  table_chars table (b :: buf) = Done (c :: s) <-> table_char table b = Done c /\ table_chars table buf = Done s.
Proof.
  cbn [table_chars]. destruct (table_char table b) as [c'| |]; cbn [mbind outcome_bind]; [|naive_solver..].
  destruct (table_chars table buf) as [s'| |]; cbn [mbind outcome_bind]; naive_solver.
Qed.

Abbreviation count p l := (length (List.filter p l)).

Lemma count_map {A B} (f : A -> B) (p : B -> bool) l : count p (map f l) = count (fun x => p (f x)) l.
Proof. induction l as [|x l IH]; [done|]. cbn. destruct (p (f x)); cbn; by rewrite IH. Qed.

Lemma count_ext {A} (p q : A -> bool) l : (forall x, x ∈ l -> p x = q x) -> count p l = count q l.
Proof.
  induction l as [|x l IH]; intros H; [done|]. cbn. rewrite (H x) by (by left).
  assert (E : count p l = count q l) by (apply IH; intros y Hy; apply H; by right). destruct (q x); cbn; by rewrite E.
Qed.

Lemma count_cons (p : byte -> bool) (q r : bytes -> bool) l k :
  (forall b y, r (b :: y) = p b && q y) ->
  count r (flat_map (fun b => map (cons b) k) l) = (count p l * count q k)%nat.
Proof.
  intros Hr. induction l as [|b l IH]; [done|]. cbn [flat_map]. rewrite List.filter_app, length_app, IH, count_map. cbn.
  rewrite (count_ext _ (fun y => p b && q y)) by (intros; apply Hr). destruct (p b); cbn; [done|].
  assert (E : count (fun _ : bytes => false) k = 0%nat) by (clear; induction k as [|y k IHk]; [done|exact IHk]). by rewrite E.
Qed.

(** A divisor of a number splits the smaller ones evenly. *)
Lemma count_one i a n : (a <= i < a + n)%nat -> count (fun k => bool_decide (k = i)) (seq a n) = 1%nat.
Proof.
  revert a. induction n as [|n IH]; intros a Hi; [lia|]. cbn [seq List.filter]. case_bool_decide as E; cbn [length].
  - f_equal. subst a. assert (Hz : forall m b, (i < b)%nat -> count (fun k => bool_decide (k = i)) (seq b m) = 0%nat); [|apply Hz; lia].
    induction m as [|m IHm]; intros b Hb; [done|]. cbn [seq List.filter]. rewrite bool_decide_false by lia. apply IHm. lia.
  - apply IH. lia.
Qed.

Lemma count_residue n i q :
  (i < n)%nat -> count (fun k => bool_decide ((k mod n)%nat = i)) (seq 0 (q * n)) = q.
Proof.
  intros Hi. induction q as [|q IH]; [done|]. replace (S q * n)%nat with (q * n + n)%nat by lia.
  rewrite seq_app, List.filter_app, length_app, IH. rewrite (count_ext _ (fun k => bool_decide (k = q * n + i)%nat)).
  - rewrite count_one; lia.
  - intros k [Hk1 Hk2]%list_elem_of_In%in_seq. apply bool_decide_ext. replace k with (q * n + (k - q * n))%nat by lia.
    rewrite Nat.add_comm at 1. rewrite Nat.Div0.mod_add, Nat.mod_small by lia. lia.
Qed.

Lemma residues_even n i :
  (0 < n)%nat -> 256 mod Z.of_nat n = 0 -> (i < n)%nat ->
  count (fun b => bool_decide (Z.to_nat (byte_z b mod Z.of_nat n) = i)) all_bytes = Z.to_nat (256 / Z.of_nat n).
Proof.
  intros Hn Hd Hi. apply Z.mod_divide in Hd as [q Hq]; [|lia]. rewrite Hq, Z.div_mul by lia.
  unfold all_bytes. rewrite count_map. replace 256%nat with (Z.to_nat q * n)%nat by nia.
  rewrite <- (count_residue n i (Z.to_nat q) Hi) at 2. apply count_ext. intros k [_ Hk]%list_elem_of_In%in_seq.
  apply bool_decide_ext. rewrite byte_z_byte, (Z.mod_small _ 256) by nia. rewrite <- Nat2Z.inj_mod, Nat2Z.id. done.
Qed.

Lemma table_char_spec table b c i :
  NoDup table -> table !! i = Some c ->
  table_char table b = Done c <-> Z.to_nat (byte_z b mod Z.of_nat (length table)) = i.
Proof.
  intros Hnd Hi. unfold table_char. split.
  - destruct (table !! Z.to_nat _) as [c'|] eqn:E; cbn [deref]; [|done]. intros [= ->]. by eapply NoDup_lookup.
  - intros ->. by rewrite Hi.
Qed.

(** C37: random strings are uniform: where the table has no character twice and
    its length divides 256, every string over the table is what exactly
    (256 / length of the table) ^ length of the string of the buffers of its
    length choose, so that a uniform buffer gives a uniform string.  The
    credentials and transaction numbers of ICE are drawn this way from a table
    of 64. *)
Theorem random_strings_uniform (table s : bytes) :
  NoDup table -> 256 mod Z.of_nat (length table) = 0 -> (forall c, c ∈ s -> c ∈ table) ->
  length (List.filter (fun buf => bool_decide (table_chars table buf = Done s)) (buffers (length s))) =
    (Z.to_nat (256 / Z.of_nat (length table)) ^ length s)%nat.
Proof.
  intros Hnd Hd. induction s as [|c s IH]; intros Hin; [done|].
  destruct (list_elem_of_lookup_1 table c (Hin c ltac:(by left))) as [i Hi].
  pose proof (lookup_lt_Some _ _ _ Hi) as Hlt. cbn [length buffers Nat.pow].
  rewrite (count_cons (fun b => bool_decide (table_char table b = Done c)) (fun buf => bool_decide (table_chars table buf = Done s))).
  - rewrite IH by (intros; apply Hin; by right). f_equal.
    rewrite <- (residues_even (length table) i) by (done || lia). apply count_ext. intros b _.
    apply bool_decide_ext. by apply table_char_spec.
  - intros b y. rewrite <- bool_decide_and. apply bool_decide_ext, chars_cons.
Qed.

Lemma random_strings_uniform_witness :
  length (List.filter (fun buf => bool_decide (table_chars kBase64 buf = Done (str "Zz"))) (buffers 2)) = 16%nat.
Proof.
  assert (Hnd : NoDup kBase64) by (apply (bool_decide_unpack _); vm_compute; reflexivity).
  assert (Hin : forall c, c ∈ str "Zz" -> c ∈ kBase64).
  { intros c [->|[->|[]%not_elem_of_nil]%elem_of_cons]%elem_of_cons; apply (bool_decide_unpack _); vm_compute; reflexivity. }
  exact (random_strings_uniform kBase64 (str "Zz") Hnd eq_refl Hin).
Defined.

(** ** What is drawn *)

Section drawn.
Context {S : Type} (RAND_bytes : nat -> S -> option (bytes * S)).
(** What OpenSSL fills, it fills whole. *)
Hypothesis RAND_length : forall n s buf s', RAND_bytes n s = Some (buf, s') -> length buf = n.

Lemma test_generate_length n : forall seed_, length (fst (test_generate n seed_)) = n.
Proof.
  induction n as [|n IH]; intros seed_; [done|]. cbn [test_generate]. destruct (GetRandom seed_) as [r seed1].
  specialize (IH seed1). destruct (test_generate n seed1). cbn in *. by rewrite IH.
Qed.

Lemma Generate_spec n g : exists o g', Generate RAND_bytes n g = Done (o, g') /\ forall buf, o = Some buf -> length buf = n.
Proof.
  unfold Generate, run. destruct g as [s|s seed_].
  - destruct (RAND_bytes n s) as [[buf s']|] eqn:E; do 2 eexists; (split; [done|]); [|done]. intros ? [= <-]. by eapply RAND_length.
  - pose proof (test_generate_length n seed_) as Hl. destruct (test_generate n seed_). do 2 eexists. split; [done|].
    by intros ? [= <-].
Qed.

Lemma table_chars_total table buf :
  table <> [] -> exists s, table_chars table buf = Done s /\ length s = length buf /\ Forall (fun c => c ∈ table) s.
Proof.
  intros Ht. induction buf as [|b buf (s & E & Hl & Hs)]; [by exists []|]. cbn [table_chars]. rewrite E.
  destruct (table !! Z.to_nat (byte_z b mod Z.of_nat (length table))) as [c|] eqn:Ec.
  - exists (c :: s). unfold table_char. rewrite Ec. cbn. split; [done|]. split; [by rewrite Hl|]. constructor; [|done].
    by eapply list_elem_of_lookup_2.
  - exfalso. apply lookup_ge_None in Ec. pose proof (Z.mod_pos_bound (byte_z b) (Z.of_nat (length table))).
    destruct table; [done|]. cbn [length] in *. lia.
Qed.

(** A random string is drawn or ends the process. *)
Lemma CreateRandomString_spec n g :
  (exists s g', CreateRandomString RAND_bytes n g = Done (s, g') /\ length s = n /\ Forall (fun c => c ∈ kBase64) s) \/
  CreateRandomString RAND_bytes n g = Throws aborted.
Proof.
  unfold CreateRandomString, CreateRandomString_table. rewrite bool_decide_false by done.
  change (negb (256 mod Z.of_nat (length kBase64) =? 0)) with false. cbv iota.
  destruct (Generate_spec n g) as (o & g' & E & Hl). unfold mbind, St_bind. rewrite E.
  destruct o as [buf|]; [|by right]. destruct (table_chars_total kBase64 buf ltac:(done)) as (s & Es & Hs & Ha).
  left. exists s, g'. unfold step, outcome_bind. rewrite Es. split; [done|]. split; [|done]. rewrite Hs. by apply Hl.
Qed.

(** The credentials: four and twenty-four characters of the table. *)
Definition credentials_ok (p : IceParameters) : Prop :=
  length (ice_ufrag p) = 4%nat /\ length (ice_pwd p) = 24%nat /\
  Forall (fun c => c ∈ kBase64) (ice_ufrag p) /\ Forall (fun c => c ∈ kBase64) (ice_pwd p).

Lemma random_credentials g :
  (exists p g', create_random_ice_credentials RAND_bytes g = Done (p, g') /\ credentials_ok p) \/
  create_random_ice_credentials RAND_bytes g = Throws aborted.
Proof.
  unfold create_random_ice_credentials. destruct (CreateRandomString_spec ICE_UFRAG_LENGTH g) as [(u & g1 & E1 & L1 & A1)|E1].
  2: { right. unfold mbind, St_bind. by rewrite E1. }
  destruct (CreateRandomString_spec ICE_PWD_LENGTH g1) as [(p & g2 & E2 & L2 & A2)|E2]; unfold mbind, St_bind; rewrite E1, E2.
  - left. by exists (mkIceParameters u p), g2.
  - by right.
Qed.

(** Nothing ends the process while OpenSSL delivers. *)
Lemma random_credentials_total g :
  (forall n s, is_Some (RAND_bytes n s)) ->
  exists p g', create_random_ice_credentials RAND_bytes g = Done (p, g') /\ credentials_ok p.
Proof.
  intros Htot. assert (Hg : forall n g, exists buf g', Generate RAND_bytes n g = Done (Some buf, g')).
  { intros n [s|s seed_]; unfold Generate, run.
    - destruct (Htot n s) as [[buf s'] ->]. by eexists _, _.
    - destruct (test_generate n seed_). by eexists _, _. }
  assert (Hs : forall n g, CreateRandomString RAND_bytes n g <> Throws aborted).
  { intros n g0. unfold CreateRandomString, CreateRandomString_table. rewrite bool_decide_false by done.
    change (negb (256 mod Z.of_nat (length kBase64) =? 0)) with false. cbv iota.
    destruct (Hg n g0) as (buf & g1 & E). unfold mbind, St_bind. rewrite E.
    destruct (table_chars_total kBase64 buf ltac:(done)) as (s & Es & _). unfold step, outcome_bind. by rewrite Es. }
  destruct (random_credentials g) as [|E]; [done|]. exfalso. unfold create_random_ice_credentials, mbind, St_bind in E.
  destruct (CreateRandomString RAND_bytes ICE_UFRAG_LENGTH g) as [[u g1]| |] eqn:E1; [|naive_solver|done].
  destruct (CreateRandomString RAND_bytes ICE_PWD_LENGTH g1) as [[w g2]| |] eqn:E2; [done|naive_solver|done].
Qed.

Lemma choice_in table b n :
  n = Z.of_nat (length table) -> table <> [] -> default x00 (table !! Z.to_nat (byte_z b mod n)) ∈ table.
Proof.
  intros -> Ht. destruct (table !! _) as [c|] eqn:E; [by eapply list_elem_of_lookup_2|]. exfalso.
  apply lookup_ge_None in E. pose proof (Z.mod_pos_bound (byte_z b) (Z.of_nat (length table))). destruct table; [done|]. cbn [length] in *. lia.
Qed.

Lemma hex_char_in b : hex_char b ∈ kHex.
Proof. by apply choice_in. Qed.

Lemma map_hex buf : Forall (fun c => c ∈ kHex) (map hex_char buf).
Proof. induction buf; constructor; [apply hex_char_in|done]. Qed.

(** A UUID has the form of version 4, xxxxxxxx-xxxx-4xxx-yxxx-xxxxxxxxxxxx
    with hexadecimal digits x and y one of 8, 9, a and b. *)
Theorem random_uuid_form g uuid g' :
  CreateRandomUuid RAND_bytes g = Done (uuid, g') ->
  exists a b c y d e, uuid = a ++ str "-" ++ b ++ str "-4" ++ c ++ str "-" ++ [y] ++ d ++ str "-" ++ e /\
    map length [a; b; c; d; e] = [8; 4; 3; 3; 12]%nat /\ Forall (fun x => x ∈ kHex) (a ++ b ++ c ++ d ++ e) /\ y ∈ kUuidDigit17.
Proof.
  unfold CreateRandomUuid. destruct (Generate_spec 31 g) as (o & g1 & E & Hl). unfold mbind, St_bind. rewrite E.
  destruct o as [buf|]; [|done]. specialize (Hl buf eq_refl). cbn [rtc_check]. intros [= <- _].
  do 15 (destruct buf as [|? buf]; [done|]). destruct buf as [|z buf]; [done|]. do 15 (destruct buf as [|? buf]; [done|]). destruct buf; [|done].
  cbn [take drop]. eexists _, _, _, _, _, _. split; [reflexivity|]. split; [reflexivity|]. split.
  - repeat (apply Forall_app; split); apply map_hex.
  - by apply choice_in.
Qed.
End drawn.
