(* ===== verification/Sigslot.v ===== *)
(** * Signals and slots (rtc_base/third_party/sigslot/sigslot.h)

    How the parts of the program call each other.  A signal keeps a list of
    connections and, while it fires, an iterator into it; an object keeps the
    set of signals it is connected to.  Slots may connect, disconnect, destroy
    and emit while a signal fires, so an emission is a machine with a stack. *)

From S2P Require Import Prelude State.
Local Open Scope Z_scope.

(** ** Data *)

(** [_opaque_connection]: an object and one of its methods. *)
Record connection : Type := mkConnection { pdest : nat; pmethod : nat }.

(** A node of the list of connections has a name, counted up as the nodes are
    allocated; the iterator is the name of a node, or [None] at the end. *)
Record signal_base : Type := mkSignal {
  m_connected_slots : list (nat * connection);
  m_current_iterator : option nat;
}.

Record sl_call : Type := mkCall { call_signal : nat; call_node : nat; call_dest : nat; call_method : nat }.

(** The signals and the objects that live, the latter with [m_senders]. *)
Record sl_store : Type := mkStore {
  sl_signals : gmap nat signal_base;
  sl_objects : gmap nat (gset nat);
  sl_next : nat;
  sl_calls : list sl_call;
}.

Definition sl_set_signals (f : gmap nat signal_base -> gmap nat signal_base) (st : sl_store) : sl_store :=
  mkStore (f (sl_signals st)) (sl_objects st) (sl_next st) (sl_calls st).
Definition sl_set_objects (f : gmap nat (gset nat) -> gmap nat (gset nat)) (st : sl_store) : sl_store :=
  mkStore (sl_signals st) (f (sl_objects st)) (sl_next st) (sl_calls st).
Definition sl_set_next (f : nat -> nat) (st : sl_store) : sl_store :=
  mkStore (sl_signals st) (sl_objects st) (f (sl_next st)) (sl_calls st).
Definition sl_log (c : sl_call) (st : sl_store) : sl_store :=
  mkStore (sl_signals st) (sl_objects st) (sl_next st) (sl_calls st ++ [c]).

Definition SL := St sl_store.

Definition sig_at (s : nat) : SL signal_base := fun st =>
  match sl_signals st !! s with Some sig => Done (sig, st) | None => Undef use_after_free end.
Definition obj_at (o : nat) : SL (gset nat) := fun st =>
  match sl_objects st !! o with Some senders => Done (senders, st) | None => Undef use_after_free end.
Definition sig_put (s : nat) (sig : signal_base) : SL () := put (sl_set_signals <[s := sig]>).
Definition obj_put (o : nat) (senders : gset nat) : SL () := put (sl_set_objects <[o := senders]>).

(** A loop over what it takes from a list. *)
Fixpoint sl_each {A} (f : A -> SL ()) (l : list A) : SL () :=
  match l with [] => mret () | x :: l => _ ← f x; sl_each f l end.

(** ** The list of connections *)

Fixpoint node_after (n : nat) (slots : list (nat * connection)) : option nat :=
  match slots with
  | [] => None
  | (k, _) :: slots => if bool_decide (k = n) then fst <$> head slots else node_after n slots
  end.

Definition find_node (n : nat) (slots : list (nat * connection)) : option connection :=
  snd <$> List.find (fun p => bool_decide (fst p = n)) slots.

(** [erase(it)], and the iterator of a signal that fires moves on. *)
Definition erase_node (n : nat) (sig : signal_base) : signal_base :=
  mkSignal (List.filter (fun p => negb (bool_decide (fst p = n))) (m_connected_slots sig))
    (if bool_decide (m_current_iterator sig = Some n) then node_after n (m_connected_slots sig)
     else m_current_iterator sig).

Definition push_slot (s : nat) (c : connection) : SL () :=
  sig ← sig_at s;
  n ← get sl_next;
  _ ← put (sl_set_next S);
  sig_put s (mkSignal (m_connected_slots sig ++ [(n, c)]) (m_current_iterator sig)).

(** ** Operations *)

Definition do_signal_connect (o s : nat) : SL () := senders ← obj_at o; obj_put o ({[s]} ∪ senders).
Definition do_signal_disconnect (o s : nat) : SL () := senders ← obj_at o; obj_put o (senders ∖ {[s]}).

Definition connect (s o method : nat) : SL () :=
  _ ← push_slot s (mkConnection o method);
  do_signal_connect o s.

Definition slot_of (o : nat) (p : nat * connection) : bool := bool_decide (pdest (snd p) = o).

(** The first connection to the object. *)
Definition disconnect (s o : nat) : SL () :=
  sig ← sig_at s;
  match List.find (slot_of o) (m_connected_slots sig) with
  | Some (n, _) => _ ← sig_put s (erase_node n sig); do_signal_disconnect o s
  | None => mret ()
  end.

Definition pop_front (s : nat) (p : nat * connection) : SL () :=
  sig ← sig_at s;
  _ ← sig_put s (mkSignal (tail (m_connected_slots sig)) (m_current_iterator sig));
  do_signal_disconnect (pdest (snd p)) s.

(** [_signal_base::disconnect_all] *)
Definition disconnect_all (s : nat) : SL () :=
  sig ← sig_at s;
  _ ← sl_each (pop_front s) (m_connected_slots sig);
  sig ← sig_at s;
  sig_put s (mkSignal (m_connected_slots sig) None).

(** All connections to the object; it is the object that asks. *)
Definition do_slot_disconnect (o s : nat) : SL () :=
  sig ← sig_at s;
  sl_each (fun p : nat * connection =>
    if slot_of o p then sig ← sig_at s; sig_put s (erase_node (fst p) sig) else mret ())
    (m_connected_slots sig).

(** The connections of one object again for another. *)
Definition do_slot_duplicate (oldtarget newtarget s : nat) : SL () :=
  sig ← sig_at s;
  sl_each (fun p : nat * connection =>
    if slot_of oldtarget p then push_slot s (mkConnection newtarget (pmethod (snd p))) else mret ())
    (m_connected_slots sig).

(** The set is taken whole, so the loop around it runs once. *)
Definition do_disconnect_all (o : nat) : SL () :=
  senders ← obj_at o;
  _ ← obj_put o ∅;
  sl_each (do_slot_disconnect o) (elements senders).

(** ** Construction and destruction *)

Definition new_signal (s : nat) : SL () := sig_put s (mkSignal [] None).
Definition new_object (o : nat) : SL () := obj_put o ∅.

(** The copy constructors. *)
Definition copy_signal (from to : nat) : SL () :=
  sig ← sig_at from;
  _ ← new_signal to;
  sl_each (fun p : nat * connection => _ ← do_signal_connect (pdest (snd p)) to; push_slot to (snd p))
    (m_connected_slots sig).

Definition copy_object (from to : nat) : SL () :=
  senders ← obj_at from;
  _ ← new_object to;
  sl_each (fun s => _ ← do_slot_duplicate from to s; do_signal_connect to s) (elements senders).

Definition destroy_signal (s : nat) : SL () := _ ← disconnect_all s; put (sl_set_signals (delete s)).
Definition destroy_object (o : nat) : SL () := _ ← do_disconnect_all o; put (sl_set_objects (delete o)).

(** ** Emission *)

Inductive action : Type :=
  | ANewSignal (s : nat)
  | ANewObject (o : nat)
  | AConnect (s o method : nat)
  | ADisconnect (s o : nat)
  | ADisconnectAll (s : nat)
  | AObjectDisconnectAll (o : nat)
  | ACopySignal (from to : nat)
  | ACopyObject (from to : nat)
  | ADestroySignal (s : nat)
  | ADestroyObject (o : nat)
  | AEmit (s : nat).

#[export] Instance action_eq_dec : EqDecision action.
Proof. solve_decision. Defined.

(** What is still to be done: an action of a slot, or the loop of a signal that
    fires, after a slot has returned. *)
Inductive frame : Type :=
  | Do (a : action)
  | Resume (s : nat).

#[export] Instance frame_eq_dec : EqDecision frame.
Proof. solve_decision. Defined.

Definition do_action (a : action) : SL () :=
  match a with
  | ANewSignal s => new_signal s
  | ANewObject o => new_object o
  | AConnect s o method => connect s o method
  | ADisconnect s o => disconnect s o
  | ADisconnectAll s => disconnect_all s
  | AObjectDisconnectAll o => do_disconnect_all o
  | ACopySignal from to => copy_signal from to
  | ACopyObject from to => copy_object from to
  | ADestroySignal s => destroy_signal s
  | ADestroyObject o => destroy_object o
  | AEmit _ => mret ()
  end.

Section emission.
(** What the methods of the objects do. *)
Context (handler : nat -> nat -> list action).

(** A turn of the loop of [emit]: the iterator is advanced before the call. *)
Definition emit_turn (s : nat) : SL (option (list action)) :=
  sig ← sig_at s;
  match m_current_iterator sig with
  | None => mret None
  | Some n =>
      match find_node n (m_connected_slots sig) with
      | None => fault use_after_free
      | Some c =>
          _ ← sig_put s (mkSignal (m_connected_slots sig) (node_after n (m_connected_slots sig)));
          _ ← obj_at (pdest c);
          _ ← put (sl_log (mkCall s n (pdest c) (pmethod c)));
          mret (Some (handler (pdest c) (pmethod c)))
      end
  end.

Definition emit_begin (s : nat) : SL () :=
  sig ← sig_at s;
  sig_put s (mkSignal (m_connected_slots sig) (fst <$> head (m_connected_slots sig))).

Definition sl_step (k : list frame) : SL (list frame) :=
  match k with
  | [] => mret []
  | Do (AEmit s) :: k => _ ← emit_begin s; mret (Resume s :: k)
  | Do a :: k => _ ← do_action a; mret k
  | Resume s :: k =>
      o ← emit_turn s;
      mret match o with None => k | Some acts => map Do acts ++ Resume s :: k end
  end.

Fixpoint sl_run (fuel : nat) (k : list frame) : SL (list frame) :=
  match fuel with
  | O => mret k
  | S fuel => match k with [] => mret [] | _ => k ← sl_step k; sl_run fuel k end
  end.
End emission.
