(* ===== verification/SigslotTheory.v ===== *)
(** * Signals and slots: the store

    Signals and objects agree about their connections, and every operation
    keeps it so and moves the iterator of a signal that fires over nodes that
    are gone and over no other. *)

From S2P Require Import Prelude State Sigslot.

(** ** One signal *)

Abbreviation nodes sig := (map fst (m_connected_slots sig)).

(** The nodes of a list are in the order of their allocation. *)
Record sig_ok (next : nat) (sig : signal_base) : Prop := {
  so_sorted : StronglySorted lt (nodes sig);
  so_next : Forall (fun n => n < next)%nat (nodes sig);
  so_iter : forall n, m_current_iterator sig = Some n -> n ∈ nodes sig;
}.

(** How a signal may change while it fires: new nodes come at the end, and the
    iterator moves on over nodes that are no longer there, and over no other. *)
Record evolves (next : nat) (sig sig' : signal_base) : Prop := {
  ev_slots : forall p, p ∈ m_connected_slots sig' -> p ∈ m_connected_slots sig \/ (next <= fst p)%nat;
  ev_iter_le : forall c', m_current_iterator sig' = Some c' -> exists c, m_current_iterator sig = Some c /\ (c <= c')%nat;
  ev_iter : forall n c, n ∈ nodes sig' -> n ∈ nodes sig -> m_current_iterator sig = Some c -> (c <= n)%nat ->
    exists c', m_current_iterator sig' = Some c' /\ (c' <= n)%nat;
}.

Lemma evolves_refl next sig : evolves next sig sig.
Proof. split; [by left|by eauto|by eauto]. Qed.

Lemma evolves_trans next next' a b c :
  Forall (fun n => n < next)%nat (nodes a) -> (next <= next')%nat -> evolves next a b -> evolves next' b c -> evolves next a c.
Proof.
  intros Hn Hle [N1 L1 I1] [N2 L2 I2]. rewrite Forall_forall in Hn. split.
  - intros p [Hb|]%N2; [by apply N1|right; lia].
  - intros c' (x & Hx & ?)%L2. destruct (L1 x Hx) as (y & Hy & ?). exists y. split; [done|lia].
  - intros n x Hnc Hna Hx Hle'. assert (Hb : n ∈ nodes b).
    { apply list_elem_of_In, in_map_iff in Hnc as (p & <- & Hp). apply list_elem_of_In in Hp.
      destruct (N2 p Hp) as [Hb|Hge]; [by apply list_elem_of_In, in_map, list_elem_of_In|]. specialize (Hn _ Hna). cbn in Hn. lia. }
    destruct (I1 n x Hb Hna Hx Hle') as (y & Hy & ?). by apply (I2 n y).
Qed.

Lemma node_after_in n (slots : list (nat * connection)) x : node_after n slots = Some x -> n ∈ map fst slots.
Proof.
  induction slots as [|[k c] l IH]; cbn; [done|]. case_bool_decide as Hk; [subst; set_solver|]. intros E. specialize (IH E). set_solver.
Qed.

Lemma sorted_snoc l n : StronglySorted lt l -> Forall (fun m => m < n)%nat l -> StronglySorted lt (l ++ [n]).
Proof.
  induction l as [|k l IH]; cbn; [by repeat constructor|]. intros [Hl Hk]%StronglySorted_inv [Hkn Hn]%Forall_cons.
  constructor; [by apply IH|]. apply Forall_app. by repeat constructor.
Qed.

Section sorted.
Context (slots : list (nat * connection)).
Hypothesis Hs : StronglySorted lt (map fst slots).

Lemma nodes_filter (f : nat * connection -> bool) n :
  n ∈ map fst (List.filter f slots) <-> exists p, p ∈ slots /\ f p = true /\ fst p = n.
Proof.
  rewrite list_elem_of_In, in_map_iff. setoid_rewrite filter_In. setoid_rewrite <- list_elem_of_In. naive_solver.
Qed.

Lemma filter_sorted (f : nat * connection -> bool) : StronglySorted lt (map fst (List.filter f slots)).
Proof.
  induction slots as [|p l IH]; cbn in *; [constructor|]. apply StronglySorted_inv in Hs as [Hl Hp].
  destruct (f p); [|by apply IH]. cbn. constructor; [by apply IH|]. rewrite Forall_forall in *. intros n Hn.
  apply Hp. apply list_elem_of_In, in_map_iff in Hn as (q & <- & Hq). apply filter_In in Hq as [Hq _].
  apply list_elem_of_In, in_map_iff. by exists q.
Qed.

(** The node after another is the next greater one. *)
Lemma node_after_None n : node_after n slots = None -> n ∈ map fst slots -> forall m, m ∈ map fst slots -> (m <= n)%nat.
Proof.
  induction slots as [|[k c] l IH]; cbn in *; [set_solver|]. apply StronglySorted_inv in Hs as [Hl Hp].
  rewrite Forall_forall in Hp. case_bool_decide as Hk.
  - subst k. destruct l as [|[k' c'] l]; [|done]. intros _ _ m Hm. cbn in Hm. set_solver by lia.
  - intros E Hn m Hm. assert (Hnl : n ∈ map fst l) by set_solver.
    apply elem_of_cons in Hm as [-> |Hm]; [|by apply IH]. specialize (Hp n Hnl). lia.
Qed.

Lemma node_after_Some n x :
  node_after n slots = Some x -> x ∈ map fst slots /\ (n < x)%nat /\ forall m, m ∈ map fst slots -> (n < m)%nat -> (x <= m)%nat.
Proof.
  induction slots as [|[k c] l IH]; cbn in *; [done|]. apply StronglySorted_inv in Hs as [Hl Hp].
  rewrite Forall_forall in Hp. case_bool_decide as Hk.
  - subst k. destruct l as [|[k' c'] l]; [done|]. cbn in *. intros [= ->]. apply StronglySorted_inv in Hl as [_ Hx].
    rewrite Forall_forall in Hx. split; [set_solver|]. split; [apply Hp; set_solver|]. intros m Hm Hlt.
    apply elem_of_cons in Hm as [-> |Hm]; [lia|]. apply elem_of_cons in Hm as [-> |Hm]; [lia|]. specialize (Hx m Hm). lia.
  - intros E. destruct (IH Hl E) as (H1 & H2 & H3). split; [set_solver|]. split; [done|]. intros m Hm Hlt.
    apply elem_of_cons in Hm as [-> |Hm]; [|by apply H3]. pose proof (Hp n (node_after_in _ _ _ E)). lia.
Qed.
End sorted.

Lemma erase_evolves next sig n : sig_ok next sig -> evolves next sig (erase_node n sig) /\ sig_ok next (erase_node n sig).
Proof.
  intros [Hs Hn Hi]. set (keep := fun p : nat * connection => negb (bool_decide (fst p = n))).
  assert (Hin : forall m, m ∈ nodes (erase_node n sig) <-> m ∈ nodes sig /\ m <> n).
  { intros m. cbn. rewrite nodes_filter. rewrite list_elem_of_In, in_map_iff. setoid_rewrite <- list_elem_of_In. split.
    - intros (p & Hp & Hk & <-). apply negb_true_iff, bool_decide_eq_false in Hk. naive_solver.
    - intros [(p & <- & Hp) Hne]. exists p. split_and!; [done| |done]. by apply negb_true_iff, bool_decide_eq_false. }
  split; [split|split].
  - cbn. intros p [Hp _]%list_elem_of_In%filter_In. left. by apply list_elem_of_In.
  - cbn. intros c'. case_bool_decide as Hc; [|by eauto]. intros (_ & Hlt & _)%node_after_Some; [|done]. exists n. split; [done|lia].
  - cbn. intros m c [_ Hmn]%Hin Hm Hc Hle. case_bool_decide as Hcn; [|by eauto].
    assert (c = n) as -> by congruence. destruct (node_after n (m_connected_slots sig)) as [x|] eqn:E.
    + destruct (node_after_Some _ Hs _ _ E) as (_ & _ & Hx). exists x. split; [done|]. apply Hx; [done|lia].
    + pose proof (node_after_None _ Hs _ E (Hi n Hcn) m Hm). lia.
  - cbn. by apply filter_sorted.
  - rewrite Forall_forall in *. intros m [Hm _]%Hin. by apply Hn.
  - intros m. rewrite Hin. cbn. case_bool_decide as Hc; intros Em.
    + destruct (node_after_Some _ Hs _ _ Em) as (H1 & H2 & _). split; [done|lia].
    + split; [by apply Hi|congruence].
Qed.

Lemma push_evolves next sig c :
  sig_ok next sig ->
  let sig' := mkSignal (m_connected_slots sig ++ [(next, c)]) (m_current_iterator sig) in
  evolves next sig sig' /\ sig_ok (S next) sig'.
Proof.
  intros [Hs Hn Hi] sig'. assert (Hin : forall m, m ∈ nodes sig' <-> m ∈ nodes sig \/ m = next).
  { intros m. cbn. rewrite map_app. cbn. set_solver. }
  split; [split|split].
  - cbn. intros p [Hp|Hp%list_elem_of_singleton]%elem_of_app; [by left|subst p; by right].
  - by eauto.
  - by eauto.
  - cbn. rewrite map_app. by apply sorted_snoc.
  - rewrite Forall_forall in *. intros m [Hm| ->]%Hin; [specialize (Hn m Hm)|]; cbn in *; lia.
  - intros m Hm. apply Hin. left. by apply Hi.
Qed.

(** Nodes with the same name are the same. *)
Lemma node_unique sig p q :
  StronglySorted lt (nodes sig) -> p ∈ m_connected_slots sig -> q ∈ m_connected_slots sig -> fst p = fst q -> p = q.
Proof.
  induction (m_connected_slots sig) as [|x l IH]; cbn; intros Hs Hp Hq E; [set_solver|].
  apply StronglySorted_inv in Hs as [Hl Hx]. rewrite Forall_forall in Hx.
  assert (Hfst : forall r, r ∈ l -> (fst x < fst r)%nat).
  { intros r Hr. apply Hx, list_elem_of_In, in_map_iff. exists r. split; [done|]. by apply list_elem_of_In. }
  apply elem_of_cons in Hp as [->|Hp], Hq as [->|Hq]; [done| | |by apply IH].
  - specialize (Hfst q Hq). lia.
  - specialize (Hfst p Hp). lia.
Qed.

(** ** The store *)

Definition sigs_ok (st : sl_store) : Prop := forall s sig, sl_signals st !! s = Some sig -> sig_ok (sl_next st) sig.

(** A signal is connected to an object; an object knows of a signal. *)
Definition linked (st : sl_store) (s o : nat) : Prop :=
  exists sig p, sl_signals st !! s = Some sig /\ p ∈ m_connected_slots sig /\ pdest (snd p) = o.
Definition knows (st : sl_store) (o s : nat) : Prop := exists senders, sl_objects st !! o = Some senders /\ s ∈ senders.

(** Every connection leads to an object that lives and knows the signal, and
    an object knows only signals that live and are connected to it. *)
Record sl_ok (st : sl_store) : Prop := {
  sl_sigs : sigs_ok st;
  sl_links : forall s o, linked st s o <-> knows st o s;
}.

(** The signals in [P] change as they may while they fire. *)
Record sl_evolves (P : nat -> Prop) (st st' : sl_store) : Prop := {
  se_next : (sl_next st <= sl_next st')%nat;
  se_calls : sl_calls st' = sl_calls st;
  se_sig : forall s sig, P s -> sl_signals st !! s = Some sig ->
    exists sig', sl_signals st' !! s = Some sig' /\ evolves (sl_next st) sig sig';
}.

Lemma sl_evolves_refl P st : sl_evolves P st st.
Proof. split; [done|done|]. intros s sig _ Hs. exists sig. split; [done|apply evolves_refl]. Qed.

Lemma sl_evolves_trans P a b c : sigs_ok a -> sl_evolves P a b -> sl_evolves P b c -> sl_evolves P a c.
Proof.
  intros Ha [N1 C1 S1] [N2 C2 S2]. split; [lia|congruence|]. intros s sig HP Hs.
  destruct (S1 s sig HP Hs) as (sig1 & H1 & E1). destruct (S2 s sig1 HP H1) as (sig2 & H2 & E2).
  exists sig2. split; [done|]. eapply evolves_trans; [apply (so_next _ _ (Ha s sig Hs))|exact N1|done|done].
Qed.

(** What a run of operations leaves: agreement, and signals that evolved. *)
Definition keeps (P : nat -> Prop) (st : sl_store) (m : SL ()) : Prop := post m (fun _ st' => sl_ok st' /\ sl_evolves P st st') st.

Lemma keeps_Done P st st' m : m st = Done ((), st') -> sl_ok st' -> sl_evolves P st st' -> keeps P st m.
Proof. intros E H1 H2. unfold keeps, post. by rewrite E. Qed.

Lemma keeps_bind P st m (k : () -> SL ()) :
  sl_ok st -> keeps P st m -> (forall st', sl_ok st' -> sl_evolves P st st' -> keeps P st' (k ())) -> keeps P st (m ≫= k).
Proof.
  intros Hok Hm Hk. apply post_bind. eapply post_mono; [exact Hm|]. intros [] st' [Hok' He].
  eapply post_mono; [by apply Hk|]. intros [] st2 [Hok2 He2]. split; [done|]. eapply sl_evolves_trans; [apply Hok|done|done].
Qed.

(** A signal and an object are replaced. *)
Definition with_signal (s : nat) (sig : signal_base) (st : sl_store) : sl_store := sl_set_signals <[s := sig]> st.

Lemma with_signal_same s sig st : sl_signals st !! s = Some sig -> with_signal s sig st = st.
Proof. intros Hs. destruct st. unfold with_signal, sl_set_signals. cbn in *. by rewrite insert_id. Qed.

Lemma with_signal_twice s a b st : with_signal s b (with_signal s a st) = with_signal s b st.
Proof. unfold with_signal, sl_set_signals. cbn. by rewrite insert_insert_eq. Qed.

Lemma with_signal_at s sig st : sl_signals (with_signal s sig st) !! s = Some sig.
Proof. apply lookup_insert_eq. Qed.

Lemma evolves_with_signal P s sig sig' st :
  sl_signals st !! s = Some sig -> evolves (sl_next st) sig sig' -> sl_evolves P st (with_signal s sig' st).
Proof.
  intros Hs He. split; [done|done|]. intros t x _ Hx. cbn. destruct (decide (t = s)) as [->|Hne].
  - rewrite lookup_insert_eq. exists sig'. split; [done|]. congruence.
  - rewrite lookup_insert_ne by done. exists x. split; [done|apply evolves_refl].
Qed.

Lemma sig_at_eq s sig st : sl_signals st !! s = Some sig -> sig_at s st = Done (sig, st).
Proof. intros Hs. unfold sig_at. by rewrite Hs. Qed.

Lemma obj_at_eq o senders st : sl_objects st !! o = Some senders -> obj_at o st = Done (senders, st).
Proof. intros Ho. unfold obj_at. by rewrite Ho. Qed.

Lemma bind_eq {A B} (m : SL A) (k : A -> SL B) st a st' : m st = Done (a, st') -> (m ≫= k) st = k a st'.
Proof. intros E. unfold mbind, St_bind. by rewrite E. Qed.

(** ** Connecting *)

Lemma push_slot_eq s sig c st :
  sl_signals st !! s = Some sig ->
  push_slot s c st = Done ((), mkStore (<[s := mkSignal (m_connected_slots sig ++ [(sl_next st, c)]) (m_current_iterator sig)]> (sl_signals st))
    (sl_objects st) (S (sl_next st)) (sl_calls st)).
Proof. intros Hs. unfold push_slot. by rewrite (bind_eq _ _ _ _ _ (sig_at_eq s sig st Hs)). Qed.

Lemma signal_connect_eq o senders s st :
  sl_objects st !! o = Some senders -> do_signal_connect o s st = Done ((), sl_set_objects <[o := {[s]} ∪ senders]> st).
Proof. intros Ho. unfold do_signal_connect. by rewrite (bind_eq _ _ _ _ _ (obj_at_eq o senders st Ho)). Qed.

Lemma signal_disconnect_eq o senders s st :
  sl_objects st !! o = Some senders -> do_signal_disconnect o s st = Done ((), sl_set_objects <[o := senders ∖ {[s]}]> st).
Proof. intros Ho. unfold do_signal_disconnect. by rewrite (bind_eq _ _ _ _ _ (obj_at_eq o senders st Ho)). Qed.

(** The nodes of some list are appended to a signal. *)
Definition extended (st : sl_store) (s : nat) (sig : signal_base) (ext : list (nat * connection)) (next' : nat) : sl_store :=
  mkStore (<[s := mkSignal (m_connected_slots sig ++ ext) (m_current_iterator sig)]> (sl_signals st)) (sl_objects st) next' (sl_calls st).

Lemma push_many_eq {A} (f : A -> bool) (g : A -> connection) s l : forall st sig,
  sl_signals st !! s = Some sig -> sig_ok (sl_next st) sig ->
  exists ext next', sl_each (fun p => if f p then push_slot s (g p) else mret ()) l st = Done ((), extended st s sig ext next') /\
    (sl_next st <= next')%nat /\
    let sig' := mkSignal (m_connected_slots sig ++ ext) (m_current_iterator sig) in
    sig_ok next' sig' /\ evolves (sl_next st) sig sig' /\
    (forall q, q ∈ ext -> exists p, p ∈ l /\ f p = true /\ snd q = g p) /\
    (forall p, p ∈ l -> f p = true -> exists q, q ∈ ext /\ snd q = g p).
Proof.
  induction l as [|p l IH]; intros st sig Hs Hok; cbn [sl_each].
  - exists [], (sl_next st). unfold extended. rewrite app_nil_r. replace (mkSignal _ _) with sig by (by destruct sig).
    rewrite insert_id by done. split_and!; [by destruct st|done|done|apply evolves_refl|set_solver|set_solver].
  - destruct (f p) eqn:Ef.
    + rewrite (bind_eq _ _ _ _ _ (push_slot_eq s sig (g p) st Hs)).
      destruct (push_evolves _ sig (g p) Hok) as [He1 Hok1]. set (sig1 := mkSignal _ _) in *. set (st1 := mkStore _ _ _ _).
      destruct (IH st1 sig1) as (ext & next' & E & Hn & Hok' & He & H1 & H2); [by apply lookup_insert_eq|done|].
      exists ((sl_next st, g p) :: ext), next'. rewrite E. unfold extended. subst st1. cbn in *.
      rewrite insert_insert_eq, <- app_assoc in *. cbn in *. split_and!; [done|lia|done| | |].
      * eapply evolves_trans; [apply Hok| |exact He1|exact He]. lia.
      * intros q [->|Hq]%elem_of_cons; [exists p; set_solver|]. destruct (H1 q Hq) as (p' & ? & ? & ?). exists p'. set_solver.
      * intros p' [->|Hp']%elem_of_cons Hf; [eexists; split; [by left|done]|]. destruct (H2 p' Hp' Hf) as (q & ? & ?). exists q. set_solver.
    + destruct (IH st sig Hs Hok) as (ext & next' & E & Hn & Hok' & He & H1 & H2). exists ext, next'.
      unfold mret, St_ret, mbind, St_bind in *. split_and!; [done|done|done|done| |].
      * intros q Hq. destruct (H1 q Hq) as (p' & ? & ? & ?). exists p'. set_solver.
      * intros p' [->|Hp']%elem_of_cons Hf; [congruence|]. destruct (H2 p' Hp' Hf) as (q & ? & ?). exists q. set_solver.
Qed.

Lemma sig_ok_le n n' sig : (n <= n')%nat -> sig_ok n sig -> sig_ok n' sig.
Proof. intros Hle [H1 H2 H3]. split; [done| |done]. eapply Forall_impl; [exact H2|]. cbn. lia. Qed.

(** Links when a signal or an object is replaced. *)
Lemma linked_insert st s x t o objs n calls :
  linked (mkStore (<[s := x]> (sl_signals st)) objs n calls) t o <->
  (t = s /\ exists p, p ∈ m_connected_slots x /\ pdest (snd p) = o) \/ (t <> s /\ linked st t o).
Proof.
  unfold linked. cbn. destruct (decide (t = s)) as [->|Hne].
  - rewrite lookup_insert_eq. naive_solver.
  - rewrite lookup_insert_ne by done. naive_solver.
Qed.

Lemma knows_insert st o x d t sigs n calls :
  knows (mkStore sigs (<[o := x]> (sl_objects st)) n calls) d t <-> (d = o /\ t ∈ x) \/ (d <> o /\ knows st d t).
Proof.
  unfold knows. cbn. destruct (decide (d = o)) as [->|Hne].
  - rewrite lookup_insert_eq. naive_solver.
  - rewrite lookup_insert_ne by done. naive_solver.
Qed.

Lemma linked_at st s sig o :
  sl_signals st !! s = Some sig -> (linked st s o <-> exists p, p ∈ m_connected_slots sig /\ pdest (snd p) = o).
Proof. intros Hs. unfold linked. rewrite Hs. naive_solver. Qed.

Lemma knows_at st o senders s : sl_objects st !! o = Some senders -> (knows st o s <-> s ∈ senders).
Proof. intros Ho. unfold knows. rewrite Ho. naive_solver. Qed.

(** Connections from a signal to one object are made. *)
Lemma link_keeps P st s sig o senders ext next' :
  sl_ok st -> sl_signals st !! s = Some sig -> sl_objects st !! o = Some senders ->
  (sl_next st <= next')%nat -> sig_ok next' (mkSignal (m_connected_slots sig ++ ext) (m_current_iterator sig)) ->
  evolves (sl_next st) sig (mkSignal (m_connected_slots sig ++ ext) (m_current_iterator sig)) ->
  (forall q, q ∈ ext -> pdest (snd q) = o) -> ext <> [] ->
  let st' := sl_set_objects <[o := {[s]} ∪ senders]> (extended st s sig ext next') in
  sl_ok st' /\ sl_evolves P st st'.
Proof.
  intros [Hsig Hlinks] Hs Ho Hn Hok He Hext Hne st'. split; [split|split; [done|done|]].
  - intros t x Hx. cbn in Hx. apply lookup_insert_Some in Hx as [[<- <-]|[_ Hx]]; [done|]. by eapply sig_ok_le, Hsig.
  - intros t d. subst st'. unfold sl_set_objects, extended. cbn. rewrite linked_insert, knows_insert. cbn.
    pose proof (Hlinks t d) as Hl. pose proof (linked_at st s sig d Hs) as Hls. pose proof (knows_at st o senders t Ho) as Hko.
    assert (Hx : (exists p, p ∈ m_connected_slots sig ++ ext /\ pdest (snd p) = d) <-> linked st s d \/ d = o).
    { rewrite Hls. setoid_rewrite elem_of_app. destruct ext as [|q ext]; [done|]. pose proof (Hext q ltac:(by left)).
      split; [naive_solver|]. intros [(p & ? & ?)| ->]; [exists p; tauto|exists q; set_solver]. }
    rewrite Hx. clear Hls Hx. destruct (decide (t = s)) as [->|Hts]; destruct (decide (d = o)) as [->|Hdo]; set_solver.
  - intros t x _ Hx. cbn. destruct (decide (t = s)) as [->|Hts].
    + eexists. rewrite lookup_insert_eq. split; [done|]. congruence.
    + exists x. rewrite lookup_insert_ne by done. split; [done|apply evolves_refl].
Qed.

Definition live_signal (s : nat) (st : sl_store) : Prop := is_Some (sl_signals st !! s).
Definition live_object (o : nat) (st : sl_store) : Prop := is_Some (sl_objects st !! o).

(** One connection more. *)
Definition linked_once (s : nat) (sig : signal_base) (c : connection) (senders : gset nat) (st : sl_store) : sl_store :=
  sl_set_objects <[pdest c := {[s]} ∪ senders]> (extended st s sig [(sl_next st, c)] (S (sl_next st))).

Lemma link_one P st s sig c senders :
  sl_ok st -> sl_signals st !! s = Some sig -> sl_objects st !! pdest c = Some senders ->
  sl_ok (linked_once s sig c senders st) /\ sl_evolves P st (linked_once s sig c senders st).
Proof.
  intros Hok Hs Ho. pose proof (sl_sigs st Hok s sig Hs) as Hsig. destruct (push_evolves _ _ c Hsig) as [He Hok'].
  apply link_keeps; [done|done|done|lia|done|done| |done]. intros q ->%list_elem_of_singleton. done.
Qed.

Lemma connect_keeps P s o method st :
  sl_ok st -> live_signal s st -> live_object o st -> keeps P st (connect s o method).
Proof.
  intros Hok [sig Hs] [senders Ho]. destruct (link_one P st s sig (mkConnection o method) senders Hok Hs Ho) as [H1 H2].
  eapply keeps_Done; [|exact H1|exact H2]. unfold connect. rewrite (bind_eq _ _ _ _ _ (push_slot_eq s sig _ st Hs)).
  by apply signal_connect_eq.
Qed.

Lemma copy_signal_loop P to l : forall st,
  sl_ok st -> live_signal to st -> (forall p : nat * connection, p ∈ l -> live_object (pdest (snd p)) st) ->
  keeps P st (sl_each (fun p => _ ← do_signal_connect (pdest (snd p)) to; push_slot to (snd p)) l).
Proof.
  induction l as [|p l IH]; intros st Hok [sig Hs] Hl; cbn [sl_each]; [by apply (keeps_Done P st st), sl_evolves_refl|].
  destruct (Hl p ltac:(by left)) as [senders Ho]. destruct (link_one P st to sig (snd p) senders Hok Hs Ho) as [H1 H2].
  set (st1 := linked_once _ _ _ _ _) in *. unfold keeps. apply post_bind; eapply (post_mono _ (fun _ x => x = st1)).
  - unfold post. rewrite (bind_eq _ _ _ _ _ (signal_connect_eq _ _ to st Ho)). by rewrite (push_slot_eq to sig).
  - intros [] st' ->. eapply post_mono; [apply IH; [done| |]|].
    + exists (mkSignal (m_connected_slots sig ++ [(sl_next st, snd p)]) (m_current_iterator sig)). apply lookup_insert_eq.
    + intros q Hq. unfold live_object, st1. cbn. destruct (decide (pdest (snd q) = pdest (snd p))) as [->|].
      * by rewrite lookup_insert_eq.
      * rewrite lookup_insert_ne by done. apply Hl. by right.
    + intros _ st2 [Hok2 He2]. split; [done|]. eapply sl_evolves_trans; [apply Hok|done|done].
Qed.

Lemma copy_object_loop P from to l : from <> to -> forall st,
  sl_ok st -> live_object to st -> (forall s, s ∈ l -> knows st from s) ->
  keeps P st (sl_each (fun s => _ ← do_slot_duplicate from to s; do_signal_connect to s) l).
Proof.
  intros Hne. induction l as [|s l IH]; intros st Hok [senders Ho] Hl; cbn [sl_each]; [by apply (keeps_Done P st st), sl_evolves_refl|].
  assert (Hlk : linked st s from) by (apply sl_links; [done|apply Hl; by left]). destruct Hlk as (sig & q & Hs & Hq & Eq).
  destruct (push_many_eq (slot_of from) (fun p => mkConnection to (pmethod (snd p))) s (m_connected_slots sig) st sig Hs (sl_sigs st Hok s sig Hs))
    as (ext & next' & E & Hn & Hok' & He & H1 & H2).
  destruct (link_keeps P st s sig to senders ext next') as [Hok1 He1]; [done..| | |].
  { intros x Hx. by destruct (H1 x Hx) as (y & _ & _ & ->). }
  { intros ->. destruct (H2 q Hq) as (? & ?%elem_of_nil & _); [by apply bool_decide_eq_true|done]. }
  set (st1 := sl_set_objects _ _) in *. unfold keeps. apply post_bind; eapply (post_mono _ (fun _ x => x = st1)).
  - unfold post, do_slot_duplicate. rewrite (bind_eq _ _ st () (extended st s sig ext next')).
    + by rewrite (signal_connect_eq to senders).
    + rewrite (bind_eq _ _ _ _ _ (sig_at_eq s sig st Hs)). exact E.
  - intros [] st' ->. eapply post_mono; [apply IH; [done| |]|].
    + exists ({[s]} ∪ senders). apply lookup_insert_eq.
    + intros t Ht. unfold knows, st1. cbn. rewrite lookup_insert_ne by done. apply Hl. by right.
    + intros _ st2 [Hok2 He2]. split; [done|]. eapply sl_evolves_trans; [apply Hok|done|done].
Qed.

(** ** Disconnecting *)

(** The connections of a signal to an object are erased one by one. *)
Lemma slot_disconnect_eq o s st sig :
  sl_signals st !! s = Some sig -> sig_ok (sl_next st) sig ->
  exists sig', do_slot_disconnect o s st = Done ((), with_signal s sig' st) /\ sig_ok (sl_next st) sig' /\
    evolves (sl_next st) sig sig' /\
    (forall p, p ∈ m_connected_slots sig' <-> p ∈ m_connected_slots sig /\ pdest (snd p) <> o).
Proof.
  intros Hs Hok. unfold do_slot_disconnect. rewrite (bind_eq _ _ _ _ _ (sig_at_eq s sig st Hs)).
  set (body := fun p : nat * connection => if slot_of o p then _ else _).
  assert (Hloop : forall l cur, (forall p, p ∈ l -> p ∈ m_connected_slots sig) ->
    sig_ok (sl_next st) cur -> evolves (sl_next st) sig cur -> (forall p, p ∈ m_connected_slots cur -> p ∈ m_connected_slots sig) ->
    (forall p, p ∈ m_connected_slots sig -> pdest (snd p) <> o -> p ∈ m_connected_slots cur) ->
    (forall p, p ∈ m_connected_slots cur -> pdest (snd p) = o -> p ∈ l) ->
    exists sig', sl_each body l (with_signal s cur st) = Done ((), with_signal s sig' st) /\ sig_ok (sl_next st) sig' /\
      evolves (sl_next st) sig sig' /\
      (forall p, p ∈ m_connected_slots sig' <-> p ∈ m_connected_slots sig /\ pdest (snd p) <> o)).
  { induction l as [|q l IH]; intros cur Hl Hc He H1 H2 H3; cbn [sl_each].
    - exists cur. split_and!; [done|done|done|]. intros p. split; [|intros [??]; by apply H2]. intros Hp. split; [by apply H1|].
      intros Ed. specialize (H3 p Hp Ed). set_solver.
    - destruct (slot_of o q) eqn:Es; [pose proof (proj1 (bool_decide_eq_true _) Es) as Eq|pose proof (proj1 (bool_decide_eq_false _) Es) as Eq].
      + rewrite (bind_eq _ _ (with_signal s cur st) () (with_signal s (erase_node (fst q) cur) st)).
        2:{ unfold body. rewrite Es, (bind_eq _ _ _ _ _ (sig_at_eq s cur _ (with_signal_at s cur st))). unfold sig_put, put. f_equal. f_equal. apply with_signal_twice. }
        destruct (erase_evolves _ cur (fst q) Hc) as [He' Hc'].
        assert (Hin : forall p, p ∈ m_connected_slots (erase_node (fst q) cur) <-> p ∈ m_connected_slots cur /\ fst p <> fst q).
        { intros p. cbn. rewrite list_elem_of_In, filter_In, <- list_elem_of_In, negb_true_iff, bool_decide_eq_false. done. }
        apply IH; [set_solver|done| | | |].
        * eapply evolves_trans; [apply Hok|done|done|done].
        * intros p [Hp _]%Hin. by apply H1.
        * intros p Hp Hd. apply Hin. split; [by apply H2|]. intros E. apply Hd.
          by rewrite (node_unique sig p q (so_sorted _ _ Hok) Hp (Hl q ltac:(by left)) E).
        * intros p [Hp Hpq]%Hin Hd. specialize (H3 p Hp Hd). apply elem_of_cons in H3 as [->|]; done.
      + rewrite (bind_eq _ _ (with_signal s cur st) () (with_signal s cur st)) by (unfold body; by rewrite Es). apply IH; [set_solver|done|done|done|done|].
        intros p Hp Hd. specialize (H3 p Hp Hd). apply elem_of_cons in H3 as [->|]; [done|done]. }
  pose proof (Hloop (m_connected_slots sig) sig) as H. rewrite with_signal_same in H by done.
  apply H; [done|done|apply evolves_refl|done|done|done].
Qed.

(** The links after some connections of a signal were taken away. *)
Lemma linked_with_signal st s sig sig' t d :
  sl_signals st !! s = Some sig ->
  linked (with_signal s sig' st) t d <->
  (t = s /\ exists p, p ∈ m_connected_slots sig' /\ pdest (snd p) = d) \/ (t <> s /\ linked st t d).
Proof. intros _. apply linked_insert. Qed.

Lemma sigs_with_signal s sig st : sigs_ok st -> sig_ok (sl_next st) sig -> sigs_ok (with_signal s sig st).
Proof. intros H Hs t x Hx. cbn in Hx. apply lookup_insert_Some in Hx as [[<- <-]|[_ Hx]]; [done|by apply (H t)]. Qed.

Lemma slots_disconnect P o l : forall st,
  sigs_ok st -> (forall s, s ∈ l -> live_signal s st) ->
  exists st', sl_each (do_slot_disconnect o) l st = Done ((), st') /\ sigs_ok st' /\ sl_evolves P st st' /\
    sl_objects st' = sl_objects st /\ forall t d, linked st' t d <-> linked st t d /\ ~ (t ∈ l /\ d = o).
Proof.
  induction l as [|s l IH]; intros st Hok Hl; cbn [sl_each].
  - exists st. split_and!; [done|done|apply sl_evolves_refl|done|]. intros. set_solver.
  - destruct (Hl s ltac:(by left)) as [sig Hs].
    destruct (slot_disconnect_eq o s st sig Hs (Hok s sig Hs)) as (sig' & E & Hok' & He & Hin).
    rewrite (bind_eq _ _ _ _ _ E). destruct (IH (with_signal s sig' st)) as (st' & E' & H1 & H2 & H3 & H4).
    + by apply sigs_with_signal.
    + intros t Ht. unfold live_signal. cbn. destruct (decide (t = s)) as [->|]; [by rewrite lookup_insert_eq|].
      rewrite lookup_insert_ne by done. apply Hl. by right.
    + exists st'. split_and!; [done|done| |done|].
      * eapply sl_evolves_trans; [done|by apply (evolves_with_signal P s sig)|done].
      * intros t d. rewrite H4, (linked_with_signal st s sig) by done. setoid_rewrite Hin. rewrite elem_of_cons.
        destruct (decide (t = s)) as [->|Hts]; [|naive_solver]. rewrite (linked_at st s sig d Hs). naive_solver.
Qed.

Lemma object_disconnect_eq P o st :
  sl_ok st -> live_object o st ->
  exists st', do_disconnect_all o st = Done ((), st') /\ sl_ok st' /\ sl_evolves P st st' /\
    sl_objects st' = <[o := ∅]> (sl_objects st) /\ forall t, ~ linked st' t o.
Proof.
  intros [Hsig Hlinks] [senders Ho]. unfold do_disconnect_all. rewrite (bind_eq _ _ _ _ _ (obj_at_eq o senders st Ho)).
  set (st1 := sl_set_objects <[o := ∅]> st). rewrite (bind_eq _ _ st () st1) by done.
  assert (Hk : forall t, t ∈ elements senders <-> linked st t o).
  { intros t. rewrite Hlinks, (knows_at st o senders t Ho). set_solver. }
  destruct (slots_disconnect P o (elements senders) st1) as (st' & E & H1 & H2 & H3 & H4).
  - done.
  - intros t (sig & p & Hs & _)%Hk. by exists sig.
  - exists st'. split_and!; [done| |by destruct H2|done|].
    + split; [done|]. intros t d. rewrite H4. change (linked st1 t d) with (linked st t d).
      assert (Hkn : knows st' d t <-> knows st1 d t) by (unfold knows; by rewrite H3).
      rewrite Hkn. unfold st1, sl_set_objects. rewrite (knows_insert st), Hk, Hlinks. destruct (decide (d = o)) as [->|]; set_solver.
    + intros t Hl. pose proof (proj1 (H4 t o) Hl) as [Hl0 Hn]. apply Hn. split; [|done]. by apply Hk.
Qed.

(** The connections of a signal are taken from the front. *)
Lemma pop_all s l : forall st i,
  sl_signals st !! s = Some (mkSignal l i) -> (forall p, p ∈ l -> live_object (pdest (snd p)) st) ->
  exists st', sl_each (pop_front s) l st = Done ((), st') /\ sl_signals st' = <[s := mkSignal [] i]> (sl_signals st) /\
    sl_next st' = sl_next st /\ sl_calls st' = sl_calls st /\ (forall o, live_object o st' <-> live_object o st) /\
    forall d t, knows st' d t <-> knows st d t /\ ~ (t = s /\ exists p, p ∈ l /\ pdest (snd p) = d).
Proof.
  induction l as [|q l IH]; intros st i Hs Hl; cbn [sl_each].
  - exists st. rewrite insert_id by done. split_and!; [done|done|done|done|done|]. intros. set_solver.
  - destruct (Hl q ltac:(by left)) as [senders Ho].
    rewrite (bind_eq _ _ _ () (sl_set_objects <[pdest (snd q) := senders ∖ {[s]}]> (with_signal s (mkSignal l i) st))).
    2:{ unfold pop_front. rewrite (bind_eq _ _ _ _ _ (sig_at_eq s _ st Hs)).
        rewrite (bind_eq _ _ st () (with_signal s (mkSignal l i) st)) by done. by apply signal_disconnect_eq. }
    set (st1 := sl_set_objects _ _).
    assert (Hlive : forall o, live_object o st1 <-> live_object o st).
    { intros o. unfold live_object, st1. cbn. destruct (decide (o = pdest (snd q))) as [->|].
      - rewrite lookup_insert_eq, Ho. split; eauto.
      - by rewrite lookup_insert_ne. }
    destruct (IH st1 i) as (st' & E & H1 & H2 & H3 & H4 & H5).
    + cbn. by rewrite lookup_insert_eq.
    + intros p Hp. apply Hlive, Hl. by right.
    + exists st'. split_and!; [done| |done|done| |].
      * rewrite H1. cbn. by rewrite insert_insert_eq.
      * intros o. by rewrite H4, Hlive.
      * intros d t. rewrite H5. unfold st1, sl_set_objects. cbn.
        rewrite (knows_insert st). setoid_rewrite elem_of_cons. pose proof (knows_at st _ _ t Ho) as Hk.
        destruct (decide (d = pdest (snd q))) as [->|Hd]; [rewrite Hk|].
        -- rewrite elem_of_difference, elem_of_singleton. naive_solver.
        -- naive_solver.
Qed.

Lemma linked_live st s o : sl_ok st -> linked st s o -> live_object o st.
Proof. intros Hok (senders & Ho & _)%(sl_links st Hok). by exists senders. Qed.

Lemma disconnect_all_eq P s st :
  sl_ok st -> live_signal s st ->
  exists st', disconnect_all s st = Done ((), st') /\ sl_ok st' /\ sl_evolves P st st' /\
    sl_signals st' = <[s := mkSignal [] None]> (sl_signals st) /\ (forall o, live_object o st -> live_object o st').
Proof.
  intros Hok [[l i] Hs]. pose proof Hok as [Hsig Hlinks]. unfold disconnect_all. rewrite (bind_eq _ _ _ _ _ (sig_at_eq s _ st Hs)).
  assert (Hlk : forall d, (exists p, p ∈ l /\ pdest (snd p) = d) <-> linked st s d).
  { intros d. by rewrite (linked_at st s _ d Hs). }
  destruct (pop_all s l st i Hs) as (st1 & E & H1 & H2 & H3 & H4 & H5).
  { intros p Hp. apply (linked_live st s); [done|]. apply Hlk. by exists p. }
  rewrite (bind_eq _ _ _ _ _ E), (bind_eq _ _ _ _ _ (sig_at_eq s (mkSignal [] i) st1 ltac:(rewrite H1; apply lookup_insert_eq))).
  exists (with_signal s (mkSignal [] None) st1). split_and!; [done| | | |].
  - split.
    + intros t x Hx. cbn in Hx |- *. rewrite H2. rewrite H1, insert_insert_eq in Hx. apply lookup_insert_Some in Hx as [[<- <-]|[_ Hx]].
      * split; cbn; [constructor|constructor|done].
      * by apply (Hsig t).
    + intros t d. unfold with_signal, sl_set_signals. rewrite H1, insert_insert_eq.
      rewrite (linked_insert st). cbn. change (knows (mkStore _ (sl_objects st1) _ _) d t) with (knows st1 d t).
      rewrite H5, Hlk, Hlinks. destruct (decide (t = s)) as [->|]; [rewrite Hlinks|]; set_solver.
  - split; cbn; [lia|done|]. intros t x _ Hx. rewrite H1, insert_insert_eq. destruct (decide (t = s)) as [->|].
    + exists (mkSignal [] None). rewrite lookup_insert_eq. split; [done|]. split; cbn; set_solver.
    + exists x. rewrite lookup_insert_ne by done. split; [done|apply evolves_refl].
  - cbn. by rewrite H1, insert_insert_eq.
  - intros o Ho. by apply H4.
Qed.

Lemma disconnect_all_keeps P s st : sl_ok st -> live_signal s st -> keeps P st (disconnect_all s).
Proof. intros Hok Hs. destruct (disconnect_all_eq P s st Hok Hs) as (st' & E & ? & ? & _). by eapply keeps_Done. Qed.

Lemma object_disconnect_keeps P o st : sl_ok st -> live_object o st -> keeps P st (do_disconnect_all o).
Proof. intros Hok Ho. destruct (object_disconnect_eq P o st Hok Ho) as (st' & E & ? & ? & _). by eapply keeps_Done. Qed.

(** An object that is connected to the signal at most once. *)
Definition connected_once (s o : nat) (st : sl_store) : Prop :=
  forall sig p q, sl_signals st !! s = Some sig -> p ∈ m_connected_slots sig -> q ∈ m_connected_slots sig ->
  pdest (snd p) = o -> pdest (snd q) = o -> p = q.

Lemma disconnect_keeps P s o st : sl_ok st -> live_signal s st -> connected_once s o st -> keeps P st (disconnect s o).
Proof.
  intros Hok [sig Hs] Honce. pose proof Hok as [Hsig Hlinks]. pose proof (Hsig s sig Hs) as Hsok. unfold disconnect, keeps, post.
  rewrite (bind_eq _ _ _ _ _ (sig_at_eq s sig st Hs)).
  destruct (List.find (slot_of o) (m_connected_slots sig)) as [[n c]|] eqn:Ef; [|split; [done|apply sl_evolves_refl]].
  apply find_some in Ef as [Hn%list_elem_of_In Ec%bool_decide_eq_true]. cbn in Ec.
  assert (Hk : knows st o s) by (apply Hlinks; by exists sig, (n, c)). destruct Hk as (senders & Ho & _).
  rewrite (bind_eq _ _ st () (with_signal s (erase_node n sig) st)) by done.
  rewrite (signal_disconnect_eq o senders s) by done. destruct (erase_evolves _ sig n Hsok) as [He Hok']. split; [split|].
  - by apply (sigs_with_signal s _ st).
  - intros t d. unfold sl_set_objects, with_signal, sl_set_signals. cbn [sl_signals sl_objects sl_next sl_calls].
    rewrite (linked_insert st), (knows_insert st), elem_of_difference, elem_of_singleton, <- Hlinks.
    assert (Hx : (exists p, p ∈ m_connected_slots (erase_node n sig) /\ pdest (snd p) = d) <-> linked st s d /\ d <> o).
    { rewrite (linked_at st s sig d Hs). cbn. setoid_rewrite list_elem_of_In. setoid_rewrite filter_In. setoid_rewrite <- list_elem_of_In.
      setoid_rewrite negb_true_iff. setoid_rewrite bool_decide_eq_false. split.
      - intros (p & [Hp Hpn] & <-). split; [by exists p|]. intros Eo. apply Hpn. by rewrite (Honce sig p (n, c) Hs Hp Hn Eo Ec).
      - intros [(p & Hp & <-) Hne]. exists p. split; [|done]. split; [done|]. intros E. apply Hne.
        by rewrite (node_unique sig p (n, c) (so_sorted _ _ Hsok) Hp Hn E). }
    rewrite Hx, <- (knows_at st o senders t Ho), <- Hlinks. destruct (decide (t = s)) as [->|], (decide (d = o)) as [->|]; naive_solver.
  - destruct (evolves_with_signal P s sig (erase_node n sig) st Hs He). by split.
Qed.

(** ** Construction and destruction *)

Lemma keeps_after P st st1 (m m1 : SL ()) : m st = m1 st1 -> sl_ok st -> sl_evolves P st st1 -> keeps P st1 m1 -> keeps P st m.
Proof.
  intros E Hok He Hm. unfold keeps, post in *. rewrite E. destruct (m1 st1) as [[[] st2]| |]; [|done..]. destruct Hm as [H2 He2].
  split; [done|]. eapply sl_evolves_trans; [apply Hok|done|done].
Qed.

Lemma new_signal_ok P s st :
  sl_ok st -> sl_signals st !! s = None ->
  sl_ok (with_signal s (mkSignal [] None) st) /\ sl_evolves P st (with_signal s (mkSignal [] None) st).
Proof.
  intros [Hsig Hlinks] Hs. split; [split|split; [done|done|]].
  - apply sigs_with_signal; [done|]. split; cbn; [constructor|constructor|done].
  - intros t d. unfold with_signal, sl_set_signals. rewrite linked_insert. change (knows (mkStore _ _ _ _) d t) with (knows st d t).
    rewrite <- Hlinks. cbn. destruct (decide (t = s)) as [->|]; [|naive_solver].
    split; [set_solver|]. intros (sig & p & Hx & _). congruence.
  - intros t x _ Hx. exists x. cbn. rewrite lookup_insert_ne by congruence. split; [done|apply evolves_refl].
Qed.

Lemma new_object_ok P o st :
  sl_ok st -> sl_objects st !! o = None ->
  sl_ok (sl_set_objects <[o := ∅]> st) /\ sl_evolves P st (sl_set_objects <[o := ∅]> st).
Proof.
  intros [Hsig Hlinks] Ho. split; [split|split; [done|done|]].
  - done.
  - intros t d. unfold sl_set_objects. rewrite (knows_insert st). change (linked (mkStore _ _ _ _) t d) with (linked st t d).
    rewrite Hlinks. destruct (decide (d = o)) as [->|]; [|naive_solver].
    split; [intros (x & Hx & _); congruence|set_solver].
  - intros t x _ Hx. exists x. split; [done|apply evolves_refl].
Qed.

Lemma copy_signal_keeps P from to st :
  sl_ok st -> live_signal from st -> sl_signals st !! to = None -> keeps P st (copy_signal from to).
Proof.
  intros Hok [sig Hs] Ht. destruct (new_signal_ok P to st Hok Ht) as [Hok1 He1].
  eapply (fun E => keeps_after P st _ (copy_signal from to) _ E Hok He1); [unfold copy_signal; rewrite (bind_eq _ _ _ _ _ (sig_at_eq from sig st Hs)); reflexivity|].
  apply copy_signal_loop; [done| |].
  - eexists. apply with_signal_at.
  - intros p Hp. apply (linked_live st from); [done|]. by exists sig, p.
Qed.

Lemma copy_object_keeps P from to st :
  sl_ok st -> live_object from st -> sl_objects st !! to = None -> keeps P st (copy_object from to).
Proof.
  intros Hok [senders Ho] Ht. destruct (new_object_ok P to st Hok Ht) as [Hok1 He1].
  eapply (fun E => keeps_after P st _ (copy_object from to) _ E Hok He1); [unfold copy_object; rewrite (bind_eq _ _ _ _ _ (obj_at_eq from senders st Ho)); reflexivity|].
  apply copy_object_loop; [congruence|done| |].
  - exists ∅. apply lookup_insert_eq.
  - intros s Hs. exists senders. cbn. rewrite lookup_insert_ne by congruence. split; [done|]. set_solver.
Qed.

Lemma destroy_signal_keeps P s st : sl_ok st -> live_signal s st -> ~ P s -> keeps P st (destroy_signal s).
Proof.
  intros Hok Hs HP. destruct (disconnect_all_eq P s st Hok Hs) as (st' & E & Hok' & He & Hsg & _).
  eapply (keeps_Done P st (sl_set_signals (delete s) st')).
  - unfold destroy_signal. by rewrite (bind_eq _ _ _ _ _ E).
  - destruct Hok' as [Hsig Hlinks]. split.
    + intros t x Hx. cbn in Hx. apply lookup_delete_Some in Hx as [_ Hx]. by apply (Hsig t).
    + intros t d. change (knows (sl_set_signals _ st') d t) with (knows st' d t). rewrite <- Hlinks. unfold linked. cbn. rewrite Hsg.
      destruct (decide (t = s)) as [->|]; [rewrite delete_insert_eq, lookup_delete_eq, lookup_insert_eq|rewrite lookup_delete_ne by done; done].
      split; intros (x & p & Hx & Hp & _); [done|]. injection Hx as <-. set_solver.
  - destruct He as [H1 H2 H3]. split; [done|done|]. intros t x Ht Hx. destruct (H3 t x Ht Hx) as (x' & ? & ?). exists x'.
    cbn. rewrite lookup_delete_ne; [done|]. by intros ->.
Qed.

Lemma destroy_object_keeps P o st : sl_ok st -> live_object o st -> keeps P st (destroy_object o).
Proof.
  intros Hok Ho. destruct (object_disconnect_eq P o st Hok Ho) as (st' & E & Hok' & He & Hob & Hno).
  eapply (keeps_Done P st (sl_set_objects (delete o) st')).
  - unfold destroy_object. by rewrite (bind_eq _ _ _ _ _ E).
  - destruct Hok' as [Hsig Hlinks]. split; [done|]. intros t d. change (linked (sl_set_objects _ st') t d) with (linked st' t d).
    destruct (decide (d = o)) as [->|Hd].
    + split; [by intros ?%Hno|]. unfold knows. cbn. rewrite lookup_delete_eq. set_solver.
    + rewrite Hlinks. unfold knows. cbn. by rewrite lookup_delete_ne.
  - by destruct He.
Qed.

(** ** The rules, and what keeps to them *)

(** What a slot may do, where [busy] are the signals that fire: names are those
    of signals and objects that live, or new ones; a signal is not destroyed
    while it fires; and an object that is disconnected from a signal alone is
    connected to it once. *)
Definition action_ok (busy : nat -> Prop) (a : action) (st : sl_store) : Prop :=
  match a with
  | ANewSignal s => sl_signals st !! s = None
  | ANewObject o => sl_objects st !! o = None
  | AConnect s o _ => live_signal s st /\ live_object o st
  | ADisconnect s o => live_signal s st /\ connected_once s o st
  | ADisconnectAll s => live_signal s st
  | AObjectDisconnectAll o => live_object o st
  | ACopySignal from to => live_signal from st /\ sl_signals st !! to = None
  | ACopyObject from to => live_object from st /\ sl_objects st !! to = None
  | ADestroySignal s => live_signal s st /\ ~ busy s
  | ADestroyObject o => live_object o st
  | AEmit s => live_signal s st
  end.

Lemma action_keeps P a st : sl_ok st -> action_ok P a st -> keeps P st (do_action a).
Proof.
  intros Hok Ha. destruct a; cbn [action_ok do_action] in *.
  - destruct (new_signal_ok P s st Hok Ha). by eapply keeps_Done.
  - destruct (new_object_ok P o st Hok Ha). by eapply keeps_Done.
  - destruct Ha. by apply connect_keeps.
  - destruct Ha. by apply disconnect_keeps.
  - by apply disconnect_all_keeps.
  - by apply object_disconnect_keeps.
  - destruct Ha. by apply copy_signal_keeps.
  - destruct Ha. by apply copy_object_keeps.
  - destruct Ha. by apply destroy_signal_keeps.
  - by apply destroy_object_keeps.
  - eapply keeps_Done; [done|done|apply sl_evolves_refl].
Qed.
