(* ===== verification/SigslotEmission.v ===== *)
(** * Signals and slots: what an emission promises

    The store stays well formed in every reachable state, whatever the slots do
    while signals fire, as long as they keep to a few rules; an emission calls
    every slot that stays connected exactly once, in the order of connection;
    and what becomes of programs that do not keep to the rules. *)

From S2P Require Import Prelude State Sigslot SigslotTheory.

(** ** Steps *)

Lemma iterator_ok s sig i st :
  sl_ok st -> sl_signals st !! s = Some sig -> (forall n, i = Some n -> n ∈ nodes sig) ->
  sl_ok (with_signal s (mkSignal (m_connected_slots sig) i) st).
Proof.
  intros [Hsig Hlinks] Hs Hi. split.
  - apply sigs_with_signal; [done|]. destruct (Hsig s sig Hs) as [H1 H2 _]. by split.
  - intros t d. rewrite (linked_with_signal st s sig) by done. change (knows (with_signal _ _ st) d t) with (knows st d t).
    rewrite <- Hlinks. cbn. rewrite <- (linked_at st s sig d Hs). destruct (decide (t = s)) as [->|]; naive_solver.
Qed.

Lemma log_ok c st : sl_ok st -> sl_ok (sl_log c st).
Proof. by intros [H1 H2]; split. Qed.

Lemma find_node_in n slots : n ∈ map fst slots -> exists c, find_node n slots = Some c /\ (n, c) ∈ slots.
Proof.
  intros (p & <- & Hp)%list_elem_of_In%in_map_iff. unfold find_node.
  destruct (List.find (fun q => bool_decide (fst q = fst p)) slots) as [q|] eqn:Ef.
  - apply find_some in Ef as [Hq Eq%bool_decide_eq_true]. exists (snd q). split; [done|]. rewrite <- Eq. apply list_elem_of_In.
    by destruct q.
  - pose proof (find_none _ _ Ef p Hp) as Hn%bool_decide_eq_false. done.
Qed.

Definition calls_of (s : nat) (calls : list sl_call) : list sl_call :=
  List.filter (fun c => bool_decide (call_signal c = s)) calls.

Section emission.
Context (handler : nat -> nat -> list action).

Lemma begin_step s sig k st :
  sl_signals st !! s = Some sig ->
  sl_step handler (Do (AEmit s) :: k) st =
    Done (Resume s :: k, with_signal s (mkSignal (m_connected_slots sig) (fst <$> head (m_connected_slots sig))) st).
Proof. intros Hs. cbn [sl_step]. unfold emit_begin, mbind, St_bind. by rewrite (sig_at_eq s sig st Hs). Qed.

Lemma turn_end s sig k st :
  sl_signals st !! s = Some sig -> m_current_iterator sig = None -> sl_step handler (Resume s :: k) st = Done (k, st).
Proof. intros Hs Hi. cbn [sl_step]. unfold emit_turn, mbind, St_bind. by rewrite (sig_at_eq s sig st Hs), Hi. Qed.

Definition turned (s n : nat) (c : connection) (sig : signal_base) (st : sl_store) : sl_store :=
  sl_log (mkCall s n (pdest c) (pmethod c)) (with_signal s (mkSignal (m_connected_slots sig) (node_after n (m_connected_slots sig))) st).

Lemma turn_call s sig n k st :
  sl_ok st -> sl_signals st !! s = Some sig -> m_current_iterator sig = Some n ->
  exists c, (n, c) ∈ m_connected_slots sig /\
    sl_step handler (Resume s :: k) st = Done (map Do (handler (pdest c) (pmethod c)) ++ Resume s :: k, turned s n c sig st) /\
    sl_ok (turned s n c sig st).
Proof.
  intros Hok Hs Hi. pose proof (sl_sigs st Hok s sig Hs) as Hsig.
  destruct (find_node_in n _ (so_iter _ _ Hsig n Hi)) as (c & Ef & Hc). exists c. split; [done|]. split.
  - destruct (linked_live st s (pdest c) Hok) as [senders Ho]; [by exists sig, (n, c)|].
    cbn [sl_step]. unfold emit_turn. unfold mbind, St_bind. rewrite (sig_at_eq s sig st Hs), Hi, Ef. cbn.
    unfold obj_at. cbn. by rewrite Ho.
  - apply log_ok, iterator_ok; [done|done|]. intros x Hx. by destruct (node_after_Some _ (so_sorted _ _ Hsig) n x Hx).
Qed.

(** The next action keeps to the rules. *)
Definition lawful (k : list frame) (st : sl_store) : Prop :=
  match k with Do a :: k => action_ok (fun s => Resume s ∈ k) a st | _ => True end.

Inductive runs (k : list frame) (st : sl_store) : list frame -> sl_store -> Prop :=
  | runs_refl : runs k st k st
  | runs_step k1 st1 k2 st2 : runs k st k1 st1 -> lawful k1 st1 -> sl_step handler k1 st1 = Done (k2, st2) -> runs k st k2 st2.

Lemma do_step P a k st :
  sl_ok st -> action_ok P a st -> (forall s, a <> AEmit s) ->
  exists st', sl_step handler (Do a :: k) st = Done (k, st') /\ sl_ok st' /\ sl_evolves P st st'.
Proof.
  intros Hok Ha Hne. pose proof (action_keeps _ a st Hok Ha) as Hk. unfold keeps, post in Hk.
  destruct (do_action a st) as [[[] st']| |] eqn:E; [|done..]. exists st'.
  split; [|done]. destruct a; cbn [sl_step]; [..|by destruct (Hne s)]; by rewrite (bind_eq _ _ _ _ _ E).
Qed.

Lemma resumes_do acts k s : Resume s ∈ map Do acts ++ k -> Resume s ∈ k.
Proof. intros [(a & Ha & _)%list_elem_of_In%in_map_iff|]%elem_of_app; done. Qed.

Lemma live_with_signal s sig t st : live_signal t st -> live_signal t (with_signal s sig st).
Proof.
  unfold live_signal. cbn. destruct (decide (t = s)) as [->|]; [by rewrite lookup_insert_eq|by rewrite lookup_insert_ne].
Qed.

Lemma head_node sig n : fst <$> head (m_connected_slots sig) = Some n -> n ∈ nodes sig.
Proof. destruct (m_connected_slots sig) as [|[m c] l]; [done|]. intros [= ->]. by left. Qed.

Definition config_ok (k : list frame) (st : sl_store) : Prop := sl_ok st /\ forall s, Resume s ∈ k -> live_signal s st.

Lemma step_ok k st : config_ok k st -> lawful k st -> exists k' st', sl_step handler k st = Done (k', st') /\ config_ok k' st'.
Proof.
  intros [Hok Hl] Hlaw. destruct k as [|[a|s] k].
  - exists [], st. done.
  - assert (Ha : (exists s, a = AEmit s) \/ forall s, a <> AEmit s) by (destruct a; naive_solver). destruct Ha as [[s ->]|Ha].
    + destruct Hlaw as [sig Hs]. eexists _, _. split; [by apply begin_step|]. split; [apply iterator_ok; [done|done|apply head_node]|].
      intros t [[= ->]|Ht]%elem_of_cons; apply live_with_signal; [by exists sig|apply Hl; by right].
    + destruct (do_step _ a k st Hok Hlaw Ha) as (st' & E & Hok' & He). exists k, st'. split; [done|]. split; [done|].
      intros t Ht. destruct (Hl t ltac:(by right)) as [sig Hs]. destruct (se_sig _ _ _ He t sig Ht Hs) as (sig' & ? & _). by exists sig'.
  - destruct (Hl s ltac:(by left)) as [sig Hs]. destruct (m_current_iterator sig) as [n|] eqn:Hi.
    + destruct (turn_call s sig n k st Hok Hs Hi) as (c & _ & E & Hok'). eexists _, _. split; [exact E|]. split; [done|].
      intros t Ht%resumes_do. change (live_signal t (with_signal s (mkSignal (m_connected_slots sig) (node_after n (m_connected_slots sig))) st)).
      by apply live_with_signal, Hl.
    + exists k, st. split; [by apply turn_end with sig|]. split; [done|]. intros t Ht. apply Hl. by right.
Qed.

Definition empty_store : sl_store := mkStore ∅ ∅ 0 [].

Lemma runs_ok acts k st : runs (map Do acts) empty_store k st -> config_ok k st.
Proof.
  intros Hr. induction Hr as [|k1 st1 k2 st2 Hr IH Hlaw E].
  - split; [split; [done|]|].
    + intros s o. split; [intros (? & ? & ? & _)|intros (? & ? & _)]; done.
    + intros s Hs. rewrite <- (app_nil_r (map Do acts)) in Hs. by apply resumes_do, elem_of_nil in Hs.
  - destruct (step_ok k1 st1 IH Hlaw) as (k' & st' & E' & Hc). congruence.
Qed.

Lemma runs_cons k st k1 st1 k2 st2 :
  lawful k st -> sl_step handler k st = Done (k1, st1) -> runs k1 st1 k2 st2 -> runs k st k2 st2.
Proof. intros Hlaw E Hr. induction Hr as [|k3 st3 k4 st4 Hr IH Hl4 E4]; [|by eapply runs_step]. eapply runs_step; [apply runs_refl|done|done]. Qed.

(** C22: From a program that has made no signal or object, every state that
    slots reach while they keep to the rules is well formed: the nodes of a
    signal are in order of connection, its iterator is at one of them or at the
    end, a signal is connected to an object exactly when the object knows it,
    and every signal that fires lives.  The next step, if it keeps to the rules
    too, ends without touching a destroyed signal, object or connection. *)
Theorem signals_safe acts k st :
  runs (map Do acts) empty_store k st -> config_ok k st /\
  (lawful k st -> exists k' st', sl_step handler k st = Done (k', st') /\ config_ok k' st').
Proof. intros Hr. pose proof (runs_ok acts k st Hr) as Hc. split; [done|by apply step_ok]. Qed.
(** ** One emission *)

(** The steps above an emission of [s] with [k] left to do: nothing emits [s]
    again.  The last of them takes the emission itself away. *)
Inductive within (s : nat) (k k1 : list frame) (st1 : sl_store) : list frame -> sl_store -> Prop :=
  | within_refl : within s k k1 st1 k1 st1
  | within_step pre st2 k3 st3 :
      within s k k1 st1 (pre ++ Resume s :: k) st2 -> lawful (pre ++ Resume s :: k) st2 -> head pre <> Some (Do (AEmit s)) ->
      sl_step handler (pre ++ Resume s :: k) st2 = Done (k3, st3) -> within s k k1 st1 k3 st3.

Lemma within_cons pre s k k1 st1 k2 st2 k3 st3 :
  k1 = pre ++ Resume s :: k -> lawful k1 st1 -> head pre <> Some (Do (AEmit s)) -> sl_step handler k1 st1 = Done (k2, st2) ->
  within s k k2 st2 k3 st3 -> within s k k1 st1 k3 st3.
Proof.
  intros -> Hlaw Hh E Hr. induction Hr as [|pre' st4 k5 st5 Hr IH Hl5 Hh5 E5]; [|by eapply within_step].
  eapply within_step; [apply within_refl|done|done|done].
Qed.

(** An emission of [s] from its beginning. *)
Definition fires (s : nat) (k : list frame) (st : sl_store) (k2 : list frame) (st2 : sl_store) : Prop :=
  exists st1, sl_step handler (Do (AEmit s) :: k) st = Done (Resume s :: k, st1) /\ within s k (Resume s :: k) st1 k2 st2.

(** What holds after the connections [l] were called, where the emission began
    with the signal [sig0] in the store [st0]. *)
Record firing (s : nat) (sig0 : signal_base) (st0 st : sl_store) (sig : signal_base) (l : list (nat * connection)) : Prop := {
  fr_start : forall p, p ∈ m_connected_slots sig0 -> (fst p < sl_next st0)%nat;
  fr_ok : sl_ok st;
  fr_sig : sl_signals st !! s = Some sig;
  fr_next : (sl_next st0 <= sl_next st)%nat;
  fr_sorted : StronglySorted lt (map fst l);
  fr_below : forall c n, m_current_iterator sig = Some c -> n ∈ map fst l -> (n < c)%nat;
  fr_called : forall p, p ∈ l -> p ∈ m_connected_slots sig0 \/ (sl_next st0 <= fst p)%nat;
  fr_slots : forall p, p ∈ m_connected_slots sig -> p ∈ m_connected_slots sig0 \/ (sl_next st0 <= fst p)%nat;
  fr_todo : m_current_iterator sig0 <> None -> forall p, p ∈ m_connected_slots sig -> p ∈ m_connected_slots sig0 ->
    p ∈ l \/ exists c, m_current_iterator sig = Some c /\ (c <= fst p)%nat;
  fr_log : calls_of s (sl_calls st) =
    calls_of s (sl_calls st0) ++ map (fun p => mkCall s (fst p) (pdest (snd p)) (pmethod (snd p))) l;
}.

Lemma in_nodes p (slots : list (nat * connection)) : p ∈ slots -> fst p ∈ map fst slots.
Proof. rewrite !list_elem_of_In. apply in_map. Qed.

Lemma firing_evolves (P : nat -> Prop) s sig0 st0 st sig l st' :
  firing s sig0 st0 st sig l -> P s -> sl_ok st' -> sl_evolves P st st' ->
  exists sig', firing s sig0 st0 st' sig' l /\ evolves (sl_next st) sig sig'.
Proof.
  intros [F0 F1 F2 F3 F4 F5 F6 F7 F8 F9] HP Hok' [N C V]. destruct (V s sig HP F2) as (sig' & Hs' & He). exists sig'.
  split; [|done]. destruct He as [Es El Ei]. pose proof (so_next _ _ (sl_sigs _ F1 s sig F2)) as Hlt. rewrite Forall_forall in Hlt. split.
  - done.
  - done.
  - done.
  - lia.
  - done.
  - intros c n Hc Hn. destruct (El c Hc) as (c0 & Hc0 & ?). pose proof (F5 c0 n Hc0 Hn). lia.
  - done.
  - intros p [Hp|]%Es; [by apply F7|right; lia].
  - intros Hi p Hp Hp0. destruct (Es p Hp) as [Hps|Hge].
    + destruct (F8 Hi p Hps Hp0) as [|(c & Hc & Hle)]; [by left|]. right. apply (Ei (fst p) c); [by apply in_nodes|by apply in_nodes|done|done].
    + pose proof (F0 p Hp0). lia.
  - by rewrite C.
Qed.

(** Steps of other signals. *)
Lemma firing_other s sig0 st0 st sig l st' :
  firing s sig0 st0 st sig l -> sl_ok st' -> sl_signals st' !! s = Some sig -> sl_next st' = sl_next st ->
  calls_of s (sl_calls st') = calls_of s (sl_calls st) -> firing s sig0 st0 st' sig l.
Proof. intros [F0 F1 F2 F3 F4 F5 F6 F7 F8 F9] Hok Hs Hn Hc. split; [done..|by rewrite Hn|done|done|done|done|done|by rewrite Hc]. Qed.

Lemma turn_firing s sig0 st0 st sig l n c :
  firing s sig0 st0 st sig l -> m_current_iterator sig = Some n -> (n, c) ∈ m_connected_slots sig -> sl_ok (turned s n c sig st) ->
  firing s sig0 st0 (turned s n c sig st) (mkSignal (m_connected_slots sig) (node_after n (m_connected_slots sig))) (l ++ [(n, c)]).
Proof.
  intros [F0 F1 F2 F3 F4 F5 F6 F7 F8 F9] Hi Hn Hok. pose proof (so_sorted _ _ (sl_sigs _ F1 s sig F2)) as Hs. split; cbn.
  - done.
  - done.
  - apply lookup_insert_eq.
  - done.
  - rewrite map_app. apply sorted_snoc; [done|]. rewrite Forall_forall. intros m Hm. by apply F5.
  - intros c' m Hc. destruct (node_after_Some _ Hs n c' Hc) as (_ & Hlt & _). rewrite map_app. cbn.
    intros [Hm| ->%list_elem_of_singleton]%elem_of_app; [|done]. pose proof (F5 n m Hi Hm). lia.
  - intros p [Hp| ->%list_elem_of_singleton]%elem_of_app; [by apply F6|by apply F7].
  - done.
  - intros Hi0 p Hp Hp0. destruct (F8 Hi0 p Hp Hp0) as [Hl|(x & Hx & Hle)]; [left; set_solver|]. assert (x = n) as -> by congruence.
    destruct (decide (fst p = n)) as [E|Hne].
    + left. apply elem_of_app. right. apply list_elem_of_singleton. by apply (node_unique sig).
    + right. destruct (node_after n (m_connected_slots sig)) as [x|] eqn:Ex.
      * destruct (node_after_Some _ Hs n x Ex) as (_ & _ & Hmin). exists x. split; [done|]. apply Hmin; [by apply in_nodes|lia].
      * pose proof (node_after_None _ Hs n Ex (in_nodes _ _ Hn) (fst p) (in_nodes _ _ Hp)). lia.
  - unfold calls_of in *. rewrite List.filter_app, F9. cbn. rewrite bool_decide_eq_true_2 by done. by rewrite map_app, <- app_assoc.
Qed.

(** Where the steps above an emission lead. *)
Definition within_state (s : nat) (k : list frame) (sig0 : signal_base) (st0 : sl_store) (k2 : list frame) (st2 : sl_store) : Prop :=
  exists sig l, firing s sig0 st0 st2 sig l /\ (m_current_iterator sig0 = None -> m_current_iterator sig = None /\ l = []) /\
    ((exists pre, k2 = pre ++ Resume s :: k /\ Resume s ∉ pre) \/ (k2 = k /\ m_current_iterator sig = None)).

Lemma within_step_state s k sig0 st0 pre st2 k3 st3 :
  within_state s k sig0 st0 (pre ++ Resume s :: k) st2 -> lawful (pre ++ Resume s :: k) st2 -> head pre <> Some (Do (AEmit s)) ->
  sl_step handler (pre ++ Resume s :: k) st2 = Done (k3, st3) -> within_state s k sig0 st0 k3 st3.
Proof.
  intros (sig & l & HF & Hstop & Hk) Hlaw Hemit E. assert (Hpre : Resume s ∉ pre).
  { destruct Hk as [(pre' & Ep%app_inv_tail & Hn)|[Ep _]]; [by subst|]. apply (f_equal length) in Ep. rewrite length_app in Ep. cbn in Ep. lia. }
  clear Hk. pose proof (fr_ok _ _ _ _ _ _ HF) as Hok. pose proof (fr_sig _ _ _ _ _ _ HF) as Hs.
  destruct pre as [|[a|t] pre]; cbn [app] in E, Hlaw.
  - destruct (m_current_iterator sig) as [n|] eqn:Hi.
    + destruct (turn_call s sig n k st2 Hok Hs Hi) as (c & Hc & E' & Hok'). rewrite E in E'. injection E' as -> ->.
      eexists _, _. split; [by apply turn_firing|]. split; [by intros [??]%Hstop|]. left. eexists. split; [done|].
      intros Hin. rewrite <- (app_nil_r (map Do _)) in Hin. by apply resumes_do, elem_of_nil in Hin.
    + rewrite (turn_end s sig k st2 Hs Hi) in E. injection E as <- <-. exists sig, l. split; [done|]. rewrite Hi in *. split; [done|]. by right.
  - assert (Hsp : Resume s ∉ pre) by set_solver.
    assert (Ha : (exists t, a = AEmit t) \/ forall t, a <> AEmit t) by (destruct a; naive_solver). destruct Ha as [[t ->]|Ha].
    + destruct Hlaw as [sigt Ht]. rewrite (begin_step t sigt _ st2 Ht) in E. injection E as <- <-.
      assert (Hts : t <> s) by (intros ->; by destruct Hemit). exists sig, l. split; [|split; [done|]].
      * eapply firing_other; [done|apply iterator_ok; [done|done|apply head_node]| |done|done]. cbn. by rewrite lookup_insert_ne.
      * left. exists (Resume t :: pre). split; [done|]. set_solver.
    + destruct (do_step _ a (pre ++ Resume s :: k) st2 Hok Hlaw Ha) as (st' & E' & Hok' & He). rewrite E in E'. injection E' as -> ->.
      assert (Hbusy : Resume s ∈ pre ++ Resume s :: k) by set_solver.
      destruct (firing_evolves _ s sig0 st0 st2 sig l st' HF Hbusy Hok' He) as (sig' & HF' & Hev).
      exists sig', l. split; [done|]. split; [|left; by exists pre]. intros [Hn ->]%Hstop. split; [|done].
      destruct (m_current_iterator sig') as [c|] eqn:Ec; [|done]. destruct (ev_iter_le _ _ _ Hev c Ec) as (c0 & ? & _). congruence.
  - assert (Hts : t <> s /\ Resume s ∉ pre) by set_solver. destruct Hts as [Hts Hsp].
    destruct (sl_signals st2 !! t) as [sigt|] eqn:Ht; [|cbn in E; unfold emit_turn, mbind, St_bind, sig_at in E; by rewrite Ht in E].
    destruct (m_current_iterator sigt) as [n|] eqn:Hi.
    + destruct (turn_call t sigt n (pre ++ Resume s :: k) st2 Hok Ht Hi) as (c & Hc & E' & Hok'). rewrite E in E'. injection E' as -> ->.
      exists sig, l. split; [|split; [done|]].
      * eapply firing_other; [done|done| |done|].
        -- cbn. by rewrite lookup_insert_ne.
        -- unfold calls_of. cbn. rewrite List.filter_app. cbn. rewrite bool_decide_eq_false_2 by done. apply app_nil_r.
      * left. exists (map Do (handler (pdest c) (pmethod c)) ++ Resume t :: pre). split; [by rewrite <- app_assoc|].
        intros Hin%resumes_do. set_solver.
    + rewrite (turn_end t sigt _ st2 Ht Hi) in E. injection E as <- <-. exists sig, l. split; [done|]. split; [done|]. left. by exists pre.
Qed.

Lemma within_states s k sig0 st0 k1 k2 st2 :
  within_state s k sig0 st0 k1 st0 -> within s k k1 st0 k2 st2 -> within_state s k sig0 st0 k2 st2.
Proof. intros H0 Hw. induction Hw as [|pre st2 k3 st3 Hw IH Hlaw Hh E]; [done|]. by apply (within_step_state s k sig0 st0 pre st2). Qed.

Lemma start_within s sig k st :
  sl_ok st -> sl_signals st !! s = Some sig ->
  (m_current_iterator sig <> None -> m_current_iterator sig = fst <$> head (m_connected_slots sig)) ->
  forall pre, Resume s ∉ pre -> within_state s k sig st (pre ++ Resume s :: k) st.
Proof.
  intros Hok Hs Hi pre Hpre. pose proof (sl_sigs st Hok s sig Hs) as [Ho Hn _]. rewrite Forall_forall in Hn.
  exists sig, []. split; [split|split; [done|left; by exists pre]].
  - intros p Hp. by apply Hn, in_nodes.
  - done.
  - done.
  - done.
  - constructor.
  - set_solver.
  - set_solver.
  - by left.
  - intros Hne p Hp _. right. rewrite (Hi Hne). destruct (m_connected_slots sig) as [|q l] eqn:El; [set_solver|]. exists (fst q).
    split; [done|]. cbn in Ho. apply StronglySorted_inv in Ho as [_ Ho]. rewrite Forall_forall in Ho.
    apply elem_of_cons in Hp as [->|Hp]; [done|]. specialize (Ho _ (in_nodes _ _ Hp)). lia.
  - by rewrite app_nil_r.
Qed.

Lemma fires_state s sig k st k2 st2 :
  sl_ok st -> sl_signals st !! s = Some sig -> fires s k st k2 st2 ->
  let sig1 := mkSignal (m_connected_slots sig) (fst <$> head (m_connected_slots sig)) in
  within_state s k sig1 (with_signal s sig1 st) k2 st2.
Proof.
  intros Hok Hs (st1 & E & Hw) sig1. rewrite (begin_step s sig k st Hs) in E. injection E as <-.
  assert (Hok1 : sl_ok (with_signal s sig1 st)) by (apply iterator_ok; [done|done|apply head_node]).
  eapply within_states; [|exact Hw].
  apply (start_within s sig1 k (with_signal s sig1 st) Hok1 (with_signal_at s sig1 st) (fun _ => eq_refl) []). set_solver.
Qed.

(** C23: An emission calls connections of its signal in the order in which they
    were made, and none twice, whatever the slots connect, disconnect, copy and
    destroy while it fires, as long as they keep to the rules and do not emit
    the signal again.  A connection that exists before and after it has been
    called, and what it calls that was not there before is a connection made
    meanwhile. *)
Theorem emission_once_in_order s sig k st st2 :
  sl_ok st -> sl_signals st !! s = Some sig -> fires s k st k st2 ->
  exists sig2 l, sl_signals st2 !! s = Some sig2 /\ StronglySorted lt (map fst l) /\
    calls_of s (sl_calls st2) = calls_of s (sl_calls st) ++ map (fun p => mkCall s (fst p) (pdest (snd p)) (pmethod (snd p))) l /\
    (forall p, p ∈ m_connected_slots sig -> p ∈ m_connected_slots sig2 -> p ∈ l) /\
    (forall p, p ∈ l -> p ∈ m_connected_slots sig \/ (sl_next st <= fst p)%nat).
Proof.
  intros Hok Hs Hf. destruct (fires_state s sig k st k st2 Hok Hs Hf) as (sig2 & l & HF & _ & Hk). destruct Hk as [(pre & E & _)|[_ Hi]].
  { apply (f_equal length) in E. rewrite length_app in E. cbn in E. lia. }
  destruct HF as [F0 F1 F2 F3 F4 F5 F6 F7 F8 F9]. exists sig2, l. split_and!; [done|done|done| |done].
  intros p Hp Hp2. assert (Hne : fst <$> head (m_connected_slots sig) <> None).
  { destruct (m_connected_slots sig); [by apply elem_of_nil in Hp|done]. }
  destruct (F8 Hne p Hp2 Hp) as [|(c & Hc & _)]; [done|congruence].
Qed.

(** A slot that emits its own signal again ends the outer emission: when
    the inner one is over, the iterator that both share is at the end, and the
    outer emission calls nothing more, however many connections it had not
    called yet. *)
Theorem nested_emission_ends_outer s pre k st st1 k2 st2 :
  config_ok (pre ++ Resume s :: k) st -> Resume s ∉ pre -> fires s (pre ++ Resume s :: k) st (pre ++ Resume s :: k) st1 ->
  within s k (pre ++ Resume s :: k) st1 k2 st2 -> calls_of s (sl_calls st2) = calls_of s (sl_calls st1).
Proof.
  intros [Hok Hl] Hpre Hf Hw. destruct (Hl s) as [sig Hs]; [set_solver|].
  destruct (fires_state s sig _ st _ st1 Hok Hs Hf) as (sig1 & l & HF & _ & Hk). destruct Hk as [(pre' & E & _)|[_ Hi]].
  { apply (f_equal length) in E. rewrite !length_app in E. cbn in E. rewrite !length_app in E. cbn in E. lia. }
  pose proof (fr_ok _ _ _ _ _ _ HF) as Hok1. pose proof (fr_sig _ _ _ _ _ _ HF) as Hs1.
  destruct (within_states s k sig1 st1 (pre ++ Resume s :: k) k2 st2) as (sig2 & l2 & HF2 & Hstop & _); [|done|].
  - apply start_within; [done|done| |done]. by rewrite Hi.
  - destruct (Hstop Hi) as [_ ->]. pose proof (fr_log _ _ _ _ _ _ HF2) as Hlog. by rewrite app_nil_r in Hlog.
Qed.
End emission.

(** ** A second connection of the same object *)

Lemma step_action handler a k st st' :
  (forall s, a <> AEmit s) -> do_action a st = Done ((), st') -> sl_step handler (Do a :: k) st = Done (k, st').
Proof. intros Hne E. destruct a; cbn [sl_step]; [..|by destruct (Hne s)]; by rewrite (bind_eq _ _ _ _ _ E). Qed.

(** An object that does not know of a signal connected to it alone is called
    after it was destroyed. *)
Lemma forgotten_called handler s o sig senders st :
  sigs_ok st -> sl_signals st !! s = Some sig -> m_connected_slots sig <> [] ->
  (forall p, p ∈ m_connected_slots sig -> pdest (snd p) = o) -> sl_objects st !! o = Some senders -> s ∉ senders ->
  (forall t, t ∈ senders -> live_signal t st) ->
  sl_run handler 4 [Do (ADestroyObject o); Do (AEmit s)] st = Undef use_after_free.
Proof.
  intros Hok Hs Hne Hall Ho Hns Hlive. set (st0 := sl_set_objects <[o := ∅]> st).
  assert (Hl0 : forall d, linked st0 s d -> d = o) by (intros d (p & Hp & <-)%(linked_at _ s sig d Hs); by apply Hall).
  destruct (slots_disconnect (fun _ => True) o (elements senders) st0) as (st4 & E4 & _ & _ & Hob & Hl4); [done| |].
  { intros t Ht%elem_of_elements. by apply (Hlive t). }
  assert (Hl : linked st4 s o).
  { apply Hl4. split; [|set_solver]. apply (linked_at _ s sig o Hs). destruct (m_connected_slots sig) as [|p l]; [done|].
    exists p. split; [by left|]. apply Hall. by left. }
  destruct Hl as (sig4 & p & Hs4 & Hp & _).
  assert (Hhead : exists m c l, m_connected_slots sig4 = (m, c) :: l /\ pdest c = o).
  { destruct (m_connected_slots sig4) as [|[m c] l] eqn:El; [by apply elem_of_nil in Hp|]. exists m, c, l. split; [done|].
    apply Hl0. apply (proj1 (proj1 (Hl4 s (pdest c)) ltac:(exists sig4, (m, c); rewrite El; set_solver))). }
  destruct Hhead as (m & c & l & Hm & Hc). set (st5 := sl_set_objects (delete o) st4).
  assert (R : forall k, sl_step handler (Do (ADestroyObject o) :: k) st = Done (k, st5)).
  { intros. apply step_action; [done|]. cbn. unfold destroy_object, do_disconnect_all.
    erewrite (bind_eq _ _ st () st4); [done|]. rewrite (bind_eq _ _ _ _ _ (obj_at_eq o _ st Ho)).
    by rewrite (bind_eq _ _ st () st0). }
  cbn [sl_run]. rewrite (bind_eq _ _ _ _ _ (R _)), (bind_eq _ _ _ _ _ (begin_step handler s sig4 [] st5 Hs4)).
  cbn [sl_step]. unfold emit_turn, mbind, St_bind, sig_at, find_node. cbn. rewrite lookup_insert_eq. cbn. rewrite Hm. cbn.
  rewrite bool_decide_eq_true_2 by done. cbn. unfold obj_at. cbn. by rewrite Hc, lookup_delete_eq.
Qed.

Lemma connect_step handler s o m sig senders st k :
  sl_signals st !! s = Some sig -> sl_objects st !! o = Some senders ->
  sl_step handler (Do (AConnect s o m) :: k) st = Done (k, linked_once s sig (mkConnection o m) senders st).
Proof.
  intros Hs Ho. apply step_action; [done|]. cbn. unfold connect. rewrite (bind_eq _ _ _ _ _ (push_slot_eq s sig _ st Hs)).
  by rewrite (signal_connect_eq o senders).
Qed.

(** [disconnect] takes one connection away but lets the object forget the
    signal, so that of two connections of an object to a signal the second
    outlives the object, and the next emission calls it after it was freed. *)
Theorem disconnect_leaves_second handler s o m1 m2 st :
  sl_ok st -> sl_signals st !! s = Some (mkSignal [] None) -> live_object o st ->
  sl_run handler 7 [Do (AConnect s o m1); Do (AConnect s o m2); Do (ADisconnect s o); Do (ADestroyObject o); Do (AEmit s)] st
  = Undef use_after_free.
Proof.
  intros Hok Hs [senders Ho]. set (n := sl_next st).
  destruct (link_one (fun _ => True) st s _ (mkConnection o m1) senders Hok Hs Ho) as [Hok1 _].
  set (st1 := linked_once _ _ _ _ _) in *.
  assert (Hs1 : sl_signals st1 !! s = Some (mkSignal [(n, mkConnection o m1)] None)) by apply lookup_insert_eq.
  assert (Ho1 : sl_objects st1 !! o = Some ({[s]} ∪ senders)) by apply lookup_insert_eq.
  destruct (link_one (fun _ => True) st1 s _ (mkConnection o m2) _ Hok1 Hs1 Ho1) as [Hok2 _].
  set (st2 := linked_once s (mkSignal [(n, _)] None) (mkConnection o m2) _ st1) in *.
  set (sig2 := mkSignal [(n, mkConnection o m1); (S n, mkConnection o m2)] None).
  assert (Hs2 : sl_signals st2 !! s = Some sig2) by apply lookup_insert_eq.
  assert (Ho2 : sl_objects st2 !! o = Some ({[s]} ∪ ({[s]} ∪ senders))) by apply lookup_insert_eq.
  set (st3 := sl_set_objects <[o := ({[s]} ∪ ({[s]} ∪ senders)) ∖ {[s]}]> (with_signal s (erase_node n sig2) st2)).
  assert (R3 : forall k, sl_step handler (Do (ADisconnect s o) :: k) st2 = Done (k, st3)).
  { intros. apply step_action; [done|]. cbn. unfold disconnect. rewrite (bind_eq _ _ _ _ _ (sig_at_eq s sig2 st2 Hs2)). cbn.
    unfold slot_of. cbn. rewrite bool_decide_eq_true_2 by done.
    rewrite (bind_eq _ _ st2 () (with_signal s (erase_node n sig2) st2)) by done.
    by rewrite (signal_disconnect_eq o _ s (with_signal s (erase_node n sig2) st2) Ho2). }
  change 7%nat with (S (S (S 4))). cbn [sl_run]. rewrite (bind_eq _ _ _ _ _ (connect_step handler s o m1 _ _ st _ Hs Ho)).
  rewrite (bind_eq _ _ _ _ _ (connect_step handler s o m2 _ _ st1 _ Hs1 Ho1)), (bind_eq _ _ _ _ _ (R3 _)).
  apply (forgotten_called handler s o (erase_node n sig2) (({[s]} ∪ ({[s]} ∪ senders)) ∖ {[s]})).
  - apply (sigs_with_signal s _ st2 (sl_sigs _ Hok2)). by apply erase_evolves, (sl_sigs _ Hok2 s).
  - apply lookup_insert_eq.
  - unfold erase_node. cbn. rewrite bool_decide_eq_true_2 by done. by rewrite bool_decide_eq_false_2 by lia.
  - unfold erase_node. cbn. rewrite bool_decide_eq_true_2 by done. rewrite bool_decide_eq_false_2 by lia.
    cbn. by intros p ->%list_elem_of_singleton.
  - apply lookup_insert_eq.
  - set_solver.
  - intros t Ht. assert (Hts : t <> s /\ t ∈ senders) by set_solver. destruct Hts as [Hts Ht'].
    assert (Hl : linked st t o) by (apply (sl_links _ Hok); by exists senders). destruct Hl as (x & _ & Hx & _). exists x.
    cbn. by rewrite !lookup_insert_ne.
Qed.

(** ** A program with three objects *)

Module Example_slots.
Definition handler (o method : nat) : list action :=
  match method with
  | 7%nat => [ADestroyObject 3; AConnect 0 2 9]
  | 8%nat => [AObjectDisconnectAll 1; AEmit 0]
  | _ => []
  end.

(** One of method [m], two more. *)
Definition start (m : nat) : list action :=
  [ANewSignal 0; ANewObject 1; ANewObject 2; ANewObject 3; AConnect 0 1 m; AConnect 0 2 1; AConnect 0 3 2; AEmit 0].
End Example_slots.

Ltac sl_law :=
  cbn [lawful action_ok head app]; repeat split; try (eexists; vm_compute; reflexivity); try (vm_compute; reflexivity);
  try (vm_compute; discriminate).
Ltac sl_runs := eapply runs_cons; [sl_law|vm_compute; reflexivity|].
Ltac sl_within pre := eapply (within_cons _ pre); [reflexivity|sl_law|vm_compute; discriminate|vm_compute; reflexivity|].

Lemma signals_safe_witness :
  exists st, runs Example_slots.handler (map Do (Example_slots.start 7)) empty_store [Resume 0] st /\ config_ok [Resume 0] st.
Proof.
  eassert (R : runs Example_slots.handler (map Do (Example_slots.start 7)) empty_store [Resume 0] _).
  { do 8 sl_runs. apply runs_refl. }
  eexists. split; [exact R|exact (proj1 (signals_safe _ _ _ _ R))].
Defined.

(** The first slot destroys the third object and connects another one: the
    second is called, then the new connection. *)
Lemma emission_once_in_order_witness :
  exists st sig st2, sl_ok st /\ sl_signals st !! 0%nat = Some sig /\ length (m_connected_slots sig) = 3%nat /\
    fires Example_slots.handler 0 [] st [] st2 /\ map call_node (sl_calls st2) = [0; 1; 3]%nat /\
    exists sig2 l, sl_signals st2 !! 0%nat = Some sig2 /\ StronglySorted lt (map fst l) /\
      (forall p, p ∈ m_connected_slots sig -> p ∈ m_connected_slots sig2 -> p ∈ l).
Proof.
  eassert (R : runs Example_slots.handler (map Do (Example_slots.start 7)) empty_store [Do (AEmit 0)] _).
  { do 7 sl_runs. apply runs_refl. }
  pose proof (runs_ok _ _ _ _ R) as [Hok _]. match type of Hok with sl_ok ?st => set (st0 := st) in Hok end.
  eassert (Hs : sl_signals st0 !! 0%nat = Some _) by (vm_compute; reflexivity).
  eassert (Hf : fires Example_slots.handler 0 [] st0 [] _).
  { eexists. split; [vm_compute; reflexivity|]. sl_within (@nil frame). sl_within [Do (ADestroyObject 3); Do (AConnect 0 2 9)].
    sl_within [Do (AConnect 0 2 9)]. do 3 sl_within (@nil frame). apply within_refl. }
  eexists st0, _, _. split; [exact Hok|]. split; [exact Hs|]. split; [reflexivity|]. split; [exact Hf|]. split; [vm_compute; reflexivity|].
  destruct (emission_once_in_order _ _ _ _ _ _ Hok Hs Hf) as (sig2 & l & H1 & H2 & _ & H3 & _). exists sig2, l. split; [exact H1|].
  split; [exact H2|exact H3].
Defined.

(** The first slot disconnects itself and emits again: the inner emission calls
    the two others, and the outer one neither. *)
Lemma nested_emission_ends_outer_witness :
  exists st st1 st2, config_ok [Do (AEmit 0); Resume 0] st /\ fires Example_slots.handler 0 [Resume 0] st [Resume 0] st1 /\
    within Example_slots.handler 0 [] [Resume 0] st1 [] st2 /\ map call_node (calls_of 0 (sl_calls st1)) = [0; 1; 2]%nat /\
    calls_of 0 (sl_calls st2) = calls_of 0 (sl_calls st1).
Proof.
  eassert (R : runs Example_slots.handler (map Do (Example_slots.start 8)) empty_store [Do (AEmit 0); Resume 0] _).
  { do 10 sl_runs. apply runs_refl. }
  pose proof (runs_ok _ _ _ _ R) as Hc. match type of Hc with config_ok _ ?st => set (st0 := st) in Hc end.
  eassert (Hf : fires Example_slots.handler 0 [Resume 0] st0 [Resume 0] _).
  { eexists. split; [vm_compute; reflexivity|]. do 3 sl_within (@nil frame). apply within_refl. }
  match type of Hf with fires _ _ _ _ _ ?st => set (st1 := st) in Hf end.
  eassert (Hw : within Example_slots.handler 0 [] [Resume 0] st1 [] _).
  { sl_within (@nil frame). apply within_refl. }
  assert (Hc' : config_ok ([] ++ [Resume 0]) st0).
  { destruct Hc as [Hok Hl]. split; [exact Hok|]. intros s Hs. apply Hl. right. exact Hs. }
  eexists st0, st1, _. split; [exact Hc|]. split; [exact Hf|]. split; [exact Hw|]. split; [vm_compute; reflexivity|].
  refine (nested_emission_ends_outer _ 0 [] [] st0 st1 [] _ Hc' _ Hf Hw). intros H. inversion H.
Defined.

Lemma disconnect_leaves_second_witness :
  exists st, sl_ok st /\ sl_run Example_slots.handler 7
    [Do (AConnect 0 1 5); Do (AConnect 0 1 6); Do (ADisconnect 0 1); Do (ADestroyObject 1); Do (AEmit 0)] st = Undef use_after_free.
Proof.
  eassert (R : runs Example_slots.handler (map Do [ANewSignal 0; ANewObject 1]) empty_store [] _).
  { do 2 sl_runs. apply runs_refl. }
  pose proof (runs_ok _ _ _ _ R) as [Hok _]. eexists. split; [exact Hok|].
  apply (disconnect_leaves_second _ 0 1 5 6 _ Hok); [vm_compute; reflexivity|eexists; vm_compute; reflexivity].
Defined.
