(* ===== verification/Srtp.v ===== *)
(** * SRTP sessions (pc/srtp_session.cpp, pc/srtp_transport.cpp)

    libsrtp is the class [SrtpLib]: contexts and what its calls answer.  The
    process-wide count of its users, guarded by [g_libsrtp_lock] in the code,
    is part of the state. *)

From S2P Require Import Prelude.
Local Open Scope Z_scope.

Class SrtpLib : Type := {
  lib_ctx : Type;
  (** [srtp_init] with [srtp_install_event_handler], by call *)
  lib_init : nat -> bool;
  (** the authentication tag lengths of a profile, [None] when unsupported *)
  lib_rtp_tag : Z -> option Z;
  lib_rtcp_tag : Z -> option Z;
  (** direction, profile, key *)
  lib_create : Z -> Z -> bytes -> option lib_ctx;
  lib_update : lib_ctx -> Z -> Z -> bytes -> option lib_ctx;
  lib_protect : lib_ctx -> bytes -> option bytes * lib_ctx;
  lib_unprotect : lib_ctx -> bytes -> option bytes * lib_ctx;
  lib_protect_rtcp : lib_ctx -> bytes -> option bytes * lib_ctx;
  lib_unprotect_rtcp : lib_ctx -> bytes -> option bytes * lib_ctx;
}.

(** [srtp_ssrc_type_t] *)
Definition ssrc_any_inbound : Z := 2.
Definition ssrc_any_outbound : Z := 3.

Section srtp.
Context `{SrtpLib}.

Record SrtpSession : Type := mkSession {
  ss_session : option lib_ctx;
  ss_inited : bool;
  ss_rtp_auth_tag_len : Z;
  ss_rtcp_auth_tag_len : Z;
}.

(** [g_libsrtp_usage_count], and how often the library was initialised. *)
Record srtp_global : Type := mkGlobal { g_libsrtp_usage_count : Z; g_inits : nat }.

Definition new_session : SrtpSession := mkSession None false 0 0.

Definition increment_libsrtp_usage_count_and_maybe_init (g : srtp_global) : bool * srtp_global :=
  if g_libsrtp_usage_count g =? 0 then
    let ok := lib_init (g_inits g) in
    if negb ok then (false, mkGlobal (g_libsrtp_usage_count g) (S (g_inits g)))
    else (true, mkGlobal (g_libsrtp_usage_count g + 1) (S (g_inits g)))
  else (true, mkGlobal (g_libsrtp_usage_count g + 1) (g_inits g)).

(** [srtp_shutdown] at zero changes nothing the code looks at. *)
Definition decrement_libsrtp_usage_count_and_maybe_deinit (g : srtp_global) : srtp_global :=
  mkGlobal (g_libsrtp_usage_count g - 1) (g_inits g).

(** [~SrtpSession] *)
Definition session_destroy (s : SrtpSession) (g : srtp_global) : srtp_global :=
  if ss_inited s then decrement_libsrtp_usage_count_and_maybe_deinit g else g.

Definition do_set_key (type cs : Z) (key : bytes) (s : SrtpSession) : bool * SrtpSession :=
  match lib_rtp_tag cs, lib_rtcp_tag cs with
  | Some rtp_tag, Some rtcp_tag =>
      match (match ss_session s with
             | None => lib_create type cs key
             | Some ctx => lib_update ctx type cs key
             end) with
      | Some ctx => (true, mkSession (Some ctx) (ss_inited s) rtp_tag rtcp_tag)
      | None => (false, s)
      end
  | _, _ => (false, s)
  end.

Definition set_key (type cs : Z) (key : bytes) (s : SrtpSession) (g : srtp_global)
    : bool * SrtpSession * srtp_global :=
  match ss_session s with
  | Some _ => (false, s, g)
  | None =>
      let '(ok, g) := increment_libsrtp_usage_count_and_maybe_init g in
      if ok then
        let s := mkSession (ss_session s) true (ss_rtp_auth_tag_len s) (ss_rtcp_auth_tag_len s) in
        let '(ret, s) := do_set_key type cs key s in (ret, s, g)
      else (false, s, g)
  end.

Definition update_key (type cs : Z) (key : bytes) (s : SrtpSession) : bool * SrtpSession :=
  match ss_session s with
  | None => (false, s)
  | Some _ => do_set_key type cs key s
  end.

Definition set_send := set_key ssrc_any_outbound.
Definition set_recv := set_key ssrc_any_inbound.
Definition update_send := update_key ssrc_any_outbound.
Definition update_recv := update_key ssrc_any_inbound.

Definition with_ctx (s : SrtpSession) (ctx : lib_ctx) : SrtpSession :=
  mkSession (Some ctx) (ss_inited s) (ss_rtp_auth_tag_len s) (ss_rtcp_auth_tag_len s).

(** [protect_rtp(p, in_len, max_len, out_len)]: [None] is the returned
    [false], and the bytes are the packet and its new length. *)
Definition session_protect_rtp (p : bytes) (max_len : Z) (s : SrtpSession)
    : option bytes * SrtpSession :=
  match ss_session s with
  | None => (None, s)
  | Some ctx =>
      let need_len := Z.of_nat (length p) + ss_rtp_auth_tag_len s in
      if max_len <? need_len then (None, s)
      else let '(r, ctx) := lib_protect ctx p in (r, with_ctx s ctx)
  end.

Definition session_protect_rtcp (p : bytes) (max_len : Z) (s : SrtpSession)
    : option bytes * SrtpSession :=
  match ss_session s with
  | None => (None, s)
  | Some ctx =>
      let need_len := Z.of_nat (length p) + ss_rtcp_auth_tag_len s + 4 in
      if max_len <? need_len then (None, s)
      else let '(r, ctx) := lib_protect_rtcp ctx p in (r, with_ctx s ctx)
  end.

Definition session_unprotect_rtp (p : bytes) (s : SrtpSession) : option bytes * SrtpSession :=
  match ss_session s with
  | None => (None, s)
  | Some ctx => let '(r, ctx) := lib_unprotect ctx p in (r, with_ctx s ctx)
  end.

Definition session_unprotect_rtcp (p : bytes) (s : SrtpSession) : option bytes * SrtpSession :=
  match ss_session s with
  | None => (None, s)
  | Some ctx => let '(r, ctx) := lib_unprotect_rtcp ctx p in (r, with_ctx s ctx)
  end.

(** [get_auth_tag_len]: the lengths, zero where the code leaves the caller's
    initial zero. *)
Definition session_auth_tag_len (s : SrtpSession) : Z * Z :=
  match ss_session s with
  | None => (0, 0)
  | Some _ => (ss_rtp_auth_tag_len s, ss_rtcp_auth_tag_len s)
  end.

(** ** The SRTP transport *)

Record SrtpTransport : Type := mkSrtp {
  st_send : option SrtpSession;  (* [_send_session] *)
  st_recv : option SrtpSession;  (* [_recv_session] *)
  st_global : srtp_global;
}.

Definition is_srtp_active (t : SrtpTransport) : bool :=
  bool_decide (is_Some (st_send t)) && bool_decide (is_Some (st_recv t)).

Definition destroy_opt (s : option SrtpSession) (g : srtp_global) : srtp_global :=
  match s with Some s => session_destroy s g | None => g end.

Definition reset_params (t : SrtpTransport) : SrtpTransport :=
  mkSrtp None None (destroy_opt (st_recv t) (destroy_opt (st_send t) (st_global t))).

Definition create_srtp_session (t : SrtpTransport) : SrtpTransport :=
  mkSrtp (Some new_session) (Some new_session)
    (destroy_opt (st_recv t) (destroy_opt (st_send t) (st_global t))).

(** [set_rtp_params]; [Undef null_deref] where a session pointer is null. *)
Definition set_rtp_params (send_cs : Z) (send_key : bytes) (recv_cs : Z) (recv_key : bytes)
    (t : SrtpTransport) : outcome (bool * SrtpTransport) :=
  let new := match st_send t with None => true | Some _ => false end in
  let t := if new then create_srtp_session t else t in
  s ← deref null_deref (st_send t);
  let '(ret, s, g) := if new then set_send send_cs send_key s (st_global t)
                      else (update_send send_cs send_key s, st_global t) in
  let t := mkSrtp (Some s) (st_recv t) g in
  if negb ret then Done (false, reset_params t)
  else
    r ← deref null_deref (st_recv t);
    let '(ret, r, g) := if new then set_recv recv_cs recv_key r (st_global t)
                        else (update_recv recv_cs recv_key r, st_global t) in
    let t := mkSrtp (st_send t) (Some r) g in
    if negb ret then Done (false, reset_params t) else Done (true, t).
End srtp.

(** ** Theory *)

Section srtp_theory.
Context `{SrtpLib}.

(** Users of libsrtp among the sessions of a transport. *)
Definition inited (s : option SrtpSession) : Z :=
  match s with Some s => if ss_inited s then 1 else 0 | None => 0 end.
Definition transport_users (t : SrtpTransport) : Z := inited (st_send t) + inited (st_recv t).

(** Users elsewhere in the process. *)
Definition other_users (t : SrtpTransport) : Z :=
  g_libsrtp_usage_count (st_global t) - transport_users t.

(** Both sessions or none, each with its key. *)
Definition keyed (s : option SrtpSession) : Prop :=
  exists x ctx, s = Some x /\ ss_session x = Some ctx /\ ss_inited x = true.
Definition sessions_paired (t : SrtpTransport) : Prop :=
  (keyed (st_send t) /\ keyed (st_recv t)) \/ (st_send t = None /\ st_recv t = None).

Lemma destroy_opt_count s g :
  g_libsrtp_usage_count (destroy_opt s g) = g_libsrtp_usage_count g - inited s.
Proof.
  unfold destroy_opt, session_destroy, inited, decrement_libsrtp_usage_count_and_maybe_deinit.
  destruct s as [s|]; [destruct (ss_inited s)|]; cbn; lia.
Qed.

Lemma reset_params_users t : other_users (reset_params t) = other_users t.
Proof.
  unfold other_users, transport_users, reset_params. cbn. rewrite !destroy_opt_count. lia.
Qed.

Lemma create_users t : other_users (create_srtp_session t) = other_users t.
Proof.
  unfold other_users, transport_users, create_srtp_session. cbn. rewrite !destroy_opt_count. lia.
Qed.

Lemma do_set_key_spec type cs key s :
  let '(ok, s') := do_set_key type cs key s in
  ss_inited s' = ss_inited s /\
  (ok = true -> exists ctx, ss_session s' = Some ctx /\
     match ss_session s with
     | None => lib_create type cs key = Some ctx
     | Some old => lib_update old type cs key = Some ctx
     end /\ lib_rtp_tag cs = Some (ss_rtp_auth_tag_len s') /\
     lib_rtcp_tag cs = Some (ss_rtcp_auth_tag_len s')) /\
  (ok = false -> s' = s).
Proof.
  unfold do_set_key. destruct (lib_rtp_tag cs), (lib_rtcp_tag cs); try done.
  destruct (ss_session s) as [old|] eqn:Es;
    [destruct (lib_update old type cs key) as [ctx|]|destruct (lib_create type cs key) as [ctx|]];
    try done; (split; [done|]); (split; [|done]); intros _; by exists ctx.
Qed.

(** A session just made is keyed, or set-up fails; either way it is counted
    exactly when it will be uncounted. *)
Lemma set_key_spec type cs key g :
  let '(ok, s, g') := set_key type cs key new_session g in
  g_libsrtp_usage_count g' = g_libsrtp_usage_count g + inited (Some s) /\
  (ok = true -> ss_inited s = true /\ exists ctx, ss_session s = Some ctx /\
     lib_create type cs key = Some ctx /\
     lib_rtp_tag cs = Some (ss_rtp_auth_tag_len s) /\ lib_rtcp_tag cs = Some (ss_rtcp_auth_tag_len s)).
Proof.
  unfold set_key. cbn [ss_session new_session].
  assert (Hg : match increment_libsrtp_usage_count_and_maybe_init g with
    | (true, g1) => g_libsrtp_usage_count g1 = g_libsrtp_usage_count g + 1
    | (false, g1) => g_libsrtp_usage_count g1 = g_libsrtp_usage_count g end).
  { unfold increment_libsrtp_usage_count_and_maybe_init. destruct (_ =? 0); [destruct (lib_init _)|]; done. }
  destruct (increment_libsrtp_usage_count_and_maybe_init g) as [ok g1]. destruct ok.
  - pose proof (do_set_key_spec type cs key (mkSession None true 0 0)) as Hd.
    cbn [ss_rtp_auth_tag_len ss_rtcp_auth_tag_len new_session] in *.
    destruct (do_set_key _ _ _ _) as [ok s]. destruct Hd as (Hi & Hok & _). cbn in Hi.
    unfold inited. rewrite Hi. split; [done|]. intros Ho. split; [done|]. exact (Hok Ho).
  - cbn. split; [lia|done].
Qed.

Lemma set_rtp_params_new scs skey rcs rkey t :
  st_send t = None ->
  exists ok t', set_rtp_params scs skey rcs rkey t = Done (ok, t') /\
    other_users t' = other_users t /\
    (if ok then
       exists s r sctx rctx, st_send t' = Some s /\ st_recv t' = Some r /\
         ss_session s = Some sctx /\ lib_create ssrc_any_outbound scs skey = Some sctx /\
         ss_session r = Some rctx /\ lib_create ssrc_any_inbound rcs rkey = Some rctx /\
         ss_inited s = true /\ ss_inited r = true
     else st_send t' = None /\ st_recv t' = None).
Proof.
  intros Hn. unfold set_rtp_params. rewrite Hn.
  pose proof (create_users t) as Hu. set (t1 := create_srtp_session t) in *.
  change (st_send t1) with (Some new_session). cbn [deref mbind outcome_bind].
  unfold set_send. pose proof (set_key_spec ssrc_any_outbound scs skey (st_global t1)) as Hs.
  destruct (set_key _ scs skey new_session (st_global t1)) as [[ok s] g]. destruct Hs as [Hg Hok].
  change (st_recv t1) with (Some new_session) in *.
  assert (Hus : other_users (mkSrtp (Some s) (Some new_session) g) = other_users t).
  { rewrite <- Hu. unfold other_users, transport_users in *. cbn [st_send st_recv st_global] in *.
    change (st_send t1) with (Some new_session). change (st_recv t1) with (Some new_session).
    change (inited (Some new_session)) with 0. lia. }
  destruct ok; cbn [negb]; [|by eexists _, _; rewrite reset_params_users].
  cbn [st_recv deref mbind outcome_bind st_global st_send]. unfold set_recv.
  pose proof (set_key_spec ssrc_any_inbound rcs rkey g) as Hr.
  destruct (set_key _ rcs rkey new_session g) as [[ok r] g2]. destruct Hr as [Hg2 Hok2].
  assert (Hur : other_users (mkSrtp (Some s) (Some r) g2) = other_users t).
  { rewrite <- Hus. unfold other_users, transport_users in *. cbn [st_send st_recv st_global] in *.
    change (inited (Some new_session)) with 0. lia. }
  destruct ok; cbn [negb]; [|by eexists _, _; rewrite reset_params_users].
  destruct (Hok eq_refl) as (Hi & sctx & ? & ? & _ & _). destruct (Hok2 eq_refl) as (Hi2 & rctx & ? & ? & _ & _).
  exists true. eexists. split; [done|]. split; [done|]. by exists s, r, sctx, rctx.
Qed.

Lemma set_rtp_params_update scs skey rcs rkey t :
  keyed (st_send t) -> keyed (st_recv t) ->
  exists ok t', set_rtp_params scs skey rcs rkey t = Done (ok, t') /\
    other_users t' = other_users t /\
    (if ok then keyed (st_send t') /\ keyed (st_recv t')
     else st_send t' = None /\ st_recv t' = None).
Proof.
  intros (s & sctx & Hs & Hsc & Hsi) (r & rctx & Hr & Hrc & Hri).
  unfold set_rtp_params. rewrite Hs. cbv iota zeta. rewrite Hs. cbn [deref mbind outcome_bind].
  unfold update_send, update_key.
  rewrite Hsc. pose proof (do_set_key_spec ssrc_any_outbound scs skey s) as Hd.
  destruct (do_set_key _ scs skey s) as [ok s1]. destruct Hd as (Hi & Hok & _).
  assert (Hus : other_users (mkSrtp (Some s1) (st_recv t) (st_global t)) = other_users t).
  { unfold other_users, transport_users, inited. cbn. by rewrite Hs, Hi. }
  destruct ok; cbn [negb]; [|by eexists _, _; rewrite reset_params_users].
  cbn [st_recv st_send st_global]. rewrite Hr. cbn [deref mbind outcome_bind].
  unfold update_recv, update_key. rewrite Hrc.
  pose proof (do_set_key_spec ssrc_any_inbound rcs rkey r) as Hd.
  destruct (do_set_key _ rcs rkey r) as [ok r1]. destruct Hd as (Hi2 & Hok2 & _).
  assert (Hur : other_users (mkSrtp (Some s1) (Some r1) (st_global t)) = other_users t).
  { rewrite <- Hus. unfold other_users, transport_users, inited. cbn. by rewrite Hr, Hi2. }
  destruct ok; cbn [negb]; [|by eexists _, _; rewrite reset_params_users].
  destruct (Hok eq_refl) as (sctx1 & ? & _). destruct (Hok2 eq_refl) as (rctx1 & ? & _).
  exists true. eexists. split; [done|]. split; [done|]. cbn [st_send st_recv].
  split; [exists s1, sctx1|exists r1, rctx1]; split_and!; congruence.
Qed.

Lemma set_rtp_params_paired scs rcs skey rkey t :
  sessions_paired t ->
  exists ok t', set_rtp_params scs skey rcs rkey t = Done (ok, t') /\
    sessions_paired t' /\ other_users t' = other_users t.
Proof.
  intros [[Hs Hr]|[Hs Hr]].
  - destruct (set_rtp_params_update scs skey rcs rkey t Hs Hr) as (ok & t' & E & Hu & Hp).
    exists ok, t'. split; [done|]. split; [|done]. destruct ok; [by left|by right].
  - destruct (set_rtp_params_new scs skey rcs rkey t Hs) as (ok & t' & E & Hu & Hp).
    exists ok, t'. split; [done|]. split; [|done]. destruct ok; [|by right].
    destruct Hp as (s & r & sc & rc & E1 & E2 & S1 & C1 & S2 & C2 & I1 & I2).
    left. split; [by exists s, sc|by exists r, rc].
Qed.
End srtp_theory.

(** Keying an SRTP transport is all or nothing, and libsrtp's users are
    counted exactly.  From a transport with both sessions keyed or none,
    [set_rtp_params] always returns; on success both sessions are keyed, new
    ones with the given keys, outbound and inbound; on any failure (an
    unsupported profile, libsrtp refusing either side) none is left; and the
    process-wide usage count changes by exactly the sessions gained or lost,
    so the library is shut down only when its last user is gone. *)
Theorem set_rtp_params_atomic `{SrtpLib} (scs rcs : Z) (skey rkey : bytes) (t : SrtpTransport) :
  sessions_paired t ->
  exists ok t', set_rtp_params scs skey rcs rkey t = Done (ok, t') /\
    sessions_paired t' /\ is_srtp_active t' = ok /\ other_users t' = other_users t /\
    (ok = true -> st_send t = None ->
     (ss_session <$> st_send t') = Some (lib_create ssrc_any_outbound scs skey) /\
     (ss_session <$> st_recv t') = Some (lib_create ssrc_any_inbound rcs rkey)).
Proof.
  intros [[Hs Hr]|[Hs Hr]].
  - destruct (set_rtp_params_update scs skey rcs rkey t Hs Hr) as (ok & t' & E & Hu & Hp).
    exists ok, t'. destruct Hs as (s & _ & -> & _). destruct ok.
    + destruct Hp as [(s1 & c1 & E1 & ?) (s2 & c2 & E2 & ?)]. split_and!; try done.
      * left. split; [by exists s1, c1|by exists s2, c2].
      * unfold is_srtp_active. by rewrite E1, E2.
    + destruct Hp as [E1 E2]. split_and!; try done; [by right|].
      unfold is_srtp_active. by rewrite E1, E2.
  - destruct (set_rtp_params_new scs skey rcs rkey t Hs) as (ok & t' & E & Hu & Hp).
    exists ok, t'. destruct ok.
    + destruct Hp as (s & r & sc & rc & E1 & E2 & S1 & C1 & S2 & C2 & I1 & I2). split_and!; try done.
      * left. split; [by exists s, sc|by exists r, rc].
      * unfold is_srtp_active. by rewrite E1, E2.
      * intros _ _. rewrite E1, E2. cbn. by rewrite S1, S2, C1, C2.
    + destruct Hp as [E1 E2]. split_and!; try done; [by right|].
      unfold is_srtp_active. by rewrite E1, E2.
Qed.

(** A library to run examples with: ten bytes of tag, the profile 1 only. *)
Definition toy_srtp : SrtpLib := {|
  lib_ctx := bytes;
  lib_init := fun _ => true;
  lib_rtp_tag := fun cs => if cs =? 1 then Some 10 else None;
  lib_rtcp_tag := fun cs => if cs =? 1 then Some 10 else None;
  lib_create := fun _ _ key => Some key;
  lib_update := fun _ _ _ key => Some key;
  lib_protect := fun c p => (Some (p ++ repeat x00 10), c);
  lib_unprotect := fun c p => (Some (take (length p - 10) p), c);
  lib_protect_rtcp := fun c p => (Some (p ++ repeat x00 14), c);
  lib_unprotect_rtcp := fun c p => (Some (take (length p - 14) p), c);
|}.

Lemma set_rtp_params_atomic_witness :
  let t := mkSrtp (H := toy_srtp) None None (mkGlobal 0 0) in
  exists ok t', set_rtp_params (H := toy_srtp) 1 (str "server") 1 (str "client") t = Done (ok, t') /\
    sessions_paired t' /\ is_srtp_active t' = ok /\ other_users t' = other_users t /\
    (ok = true -> st_send t = None ->
     (ss_session <$> st_send t') = Some (lib_create (SrtpLib := toy_srtp) ssrc_any_outbound 1 (str "server")) /\
     (ss_session <$> st_recv t') = Some (lib_create (SrtpLib := toy_srtp) ssrc_any_inbound 1 (str "client"))).
Proof. apply (set_rtp_params_atomic (H := toy_srtp)). by right. Defined.
