(* ===== verification/Dtls.v ===== *)
(** * DTLS and DTLS-SRTP (pc/dtls_transport.cpp, pc/dtls_srtp_transport.cpp)

    The two transports of a media section share one state: the DTLS transport
    signals its state and the packets it lets through, and the DTLS-SRTP
    transport listens.  What leaves them (datagrams for the ICE channel,
    signals to the controller and the streams, [SE_READ] to the DTLS engine) is
    appended to a trace.

    The engine behind [rtc::SSLStreamAdapter] (OpenSSL) and the ICE channel
    are the class [DtlsEnv]: what their calls answer, by the number of calls
    made.  The events the engine fires are inputs; it fires some of them while
    it is handed a packet, always as the last thing the transport does with
    that packet (the clearing of the cached ClientHello apart, which no handler
    looks at), so taking them as inputs of their own loses no behaviour. *)

From S2P Require Import Prelude ByteBuffer State Rtp Srtp.
Local Open Scope Z_scope.

Class DtlsEnv : Type := {
  (** [SetPeerCertificateDigest]: success, or whether the error is
      [VERIFICATION_FAILED] *)
  ssl_set_digest : nat -> bytes -> bytes -> bool * bool;
  (** [SetDtlsSrtpCryptoSuites] *)
  ssl_set_suites : nat -> list Z -> bool;
  (** [StartSSL]: zero is success *)
  ssl_start : nat -> Z;
  (** [GetDtlsSrtpCryptoSuite] *)
  ssl_suite : nat -> option Z;
  (** [ExportKeyingMaterial] of a label and a length *)
  ssl_export : nat -> bytes -> nat -> option bytes;
  (** [IceTransportChannel::send_packet] *)
  ice_send : nat -> bytes -> Z;
}.

(** ** State *)

Inductive DtlsTransportState : Type := dtls_new | dtls_connecting | dtls_connected | dtls_closed | dtls_failed.

#[export] Instance DtlsTransportState_eq_dec : EqDecision DtlsTransportState.
Proof. solve_decision. Defined.

Inductive StreamState : Type := SS_CLOSED | SS_OPENING | SS_OPEN.
Inductive StreamResult : Type := SR_SUCCESS | SR_BLOCK | SR_EOS | SR_ERROR.

#[export] Instance StreamState_eq_dec : EqDecision StreamState.
Proof. solve_decision. Defined.

(** The stream the engine reads its datagrams from. *)
Record StreamInterfaceChannel : Type := mkStream { sc_packets : list bytes; sc_state : StreamState }.

(** [SE_OPEN], [SE_READ], [SE_CLOSE] *)
Definition SE_OPEN : Z := 1.
Definition SE_READ : Z := 2.
Definition SE_CLOSE : Z := 8.

Inductive media_event : Type :=
  | EvDtlsReceiving (b : bool)  (* [signal_receiving_state] *)
  | EvDtlsWritable (b : bool)  (* [signal_writable_state] *)
  | EvDtlsState (s : DtlsTransportState)  (* [signal_dtls_state] to the controller *)
  | EvClosed
  | EvSslRead  (* [SignalEvent(SE_READ)] of the downward stream *)
  | EvIceSend (p : bytes)
  | EvRtp (p : bytes) (ts : Z)
  | EvRtcp (p : bytes) (ts : Z).

Record media `{SrtpLib} : Type := mkMedia {
  m_ice_writable : bool;
  m_ice_receiving : bool;
  d_state : DtlsTransportState;
  d_receiving : bool;
  d_writable : bool;
  d_ssl : bool;  (* [_dtls] is set *)
  d_downward : option StreamInterfaceChannel;  (* [None]: null, or freed with the engine *)
  d_cached_client_hello : bytes;
  d_local_certificate : option Z;
  d_remote_fingerprint : bytes;
  d_remote_alg : bytes;
  d_active : bool;
  x_srtp : SrtpTransport;
  x_rtcp_mux : bool;
  x_unprotect_fail_count : Z;
  x_last_send_seq_num : Z;
  m_calls : nat;  (* calls of the engine and the channel so far *)
  m_out : list media_event;
}.

Arguments mkMedia {_} _ _ _ _ _ _ _ _ _ _ _ _ _ _ _ _ _ _.

Section setters.
Context `{SrtpLib}.
Definition upd_m_ice_writable (g : bool -> bool) (r : media) : media :=
  mkMedia (g (m_ice_writable r)) (m_ice_receiving r) (d_state r) (d_receiving r) (d_writable r)
    (d_ssl r) (d_downward r) (d_cached_client_hello r) (d_local_certificate r)
    (d_remote_fingerprint r) (d_remote_alg r) (d_active r) (x_srtp r) (x_rtcp_mux r)
    (x_unprotect_fail_count r) (x_last_send_seq_num r) (m_calls r) (m_out r).
Definition upd_m_ice_receiving (g : bool -> bool) (r : media) : media :=
  mkMedia (m_ice_writable r) (g (m_ice_receiving r)) (d_state r) (d_receiving r) (d_writable r)
    (d_ssl r) (d_downward r) (d_cached_client_hello r) (d_local_certificate r)
    (d_remote_fingerprint r) (d_remote_alg r) (d_active r) (x_srtp r) (x_rtcp_mux r)
    (x_unprotect_fail_count r) (x_last_send_seq_num r) (m_calls r) (m_out r).
Definition upd_d_state (g : DtlsTransportState -> DtlsTransportState) (r : media) : media :=
  mkMedia (m_ice_writable r) (m_ice_receiving r) (g (d_state r)) (d_receiving r) (d_writable r)
    (d_ssl r) (d_downward r) (d_cached_client_hello r) (d_local_certificate r)
    (d_remote_fingerprint r) (d_remote_alg r) (d_active r) (x_srtp r) (x_rtcp_mux r)
    (x_unprotect_fail_count r) (x_last_send_seq_num r) (m_calls r) (m_out r).
Definition upd_d_receiving (g : bool -> bool) (r : media) : media :=
  mkMedia (m_ice_writable r) (m_ice_receiving r) (d_state r) (g (d_receiving r)) (d_writable r)
    (d_ssl r) (d_downward r) (d_cached_client_hello r) (d_local_certificate r)
    (d_remote_fingerprint r) (d_remote_alg r) (d_active r) (x_srtp r) (x_rtcp_mux r)
    (x_unprotect_fail_count r) (x_last_send_seq_num r) (m_calls r) (m_out r).
Definition upd_d_writable (g : bool -> bool) (r : media) : media :=
  mkMedia (m_ice_writable r) (m_ice_receiving r) (d_state r) (d_receiving r) (g (d_writable r))
    (d_ssl r) (d_downward r) (d_cached_client_hello r) (d_local_certificate r)
    (d_remote_fingerprint r) (d_remote_alg r) (d_active r) (x_srtp r) (x_rtcp_mux r)
    (x_unprotect_fail_count r) (x_last_send_seq_num r) (m_calls r) (m_out r).
Definition upd_d_ssl (g : bool -> bool) (r : media) : media :=
  mkMedia (m_ice_writable r) (m_ice_receiving r) (d_state r) (d_receiving r) (d_writable r) (g
    (d_ssl r)) (d_downward r) (d_cached_client_hello r) (d_local_certificate r)
    (d_remote_fingerprint r) (d_remote_alg r) (d_active r) (x_srtp r) (x_rtcp_mux r)
    (x_unprotect_fail_count r) (x_last_send_seq_num r) (m_calls r) (m_out r).
Definition upd_d_downward (g : (option StreamInterfaceChannel) -> (option StreamInterfaceChannel)) (r : media) : media :=
  mkMedia (m_ice_writable r) (m_ice_receiving r) (d_state r) (d_receiving r) (d_writable r)
    (d_ssl r) (g (d_downward r)) (d_cached_client_hello r) (d_local_certificate r)
    (d_remote_fingerprint r) (d_remote_alg r) (d_active r) (x_srtp r) (x_rtcp_mux r)
    (x_unprotect_fail_count r) (x_last_send_seq_num r) (m_calls r) (m_out r).
Definition upd_d_cached_client_hello (g : bytes -> bytes) (r : media) : media :=
  mkMedia (m_ice_writable r) (m_ice_receiving r) (d_state r) (d_receiving r) (d_writable r)
    (d_ssl r) (d_downward r) (g (d_cached_client_hello r)) (d_local_certificate r)
    (d_remote_fingerprint r) (d_remote_alg r) (d_active r) (x_srtp r) (x_rtcp_mux r)
    (x_unprotect_fail_count r) (x_last_send_seq_num r) (m_calls r) (m_out r).
Definition upd_d_local_certificate (g : (option Z) -> (option Z)) (r : media) : media :=
  mkMedia (m_ice_writable r) (m_ice_receiving r) (d_state r) (d_receiving r) (d_writable r)
    (d_ssl r) (d_downward r) (d_cached_client_hello r) (g (d_local_certificate r))
    (d_remote_fingerprint r) (d_remote_alg r) (d_active r) (x_srtp r) (x_rtcp_mux r)
    (x_unprotect_fail_count r) (x_last_send_seq_num r) (m_calls r) (m_out r).
Definition upd_d_remote_fingerprint (g : bytes -> bytes) (r : media) : media :=
  mkMedia (m_ice_writable r) (m_ice_receiving r) (d_state r) (d_receiving r) (d_writable r)
    (d_ssl r) (d_downward r) (d_cached_client_hello r) (d_local_certificate r) (g
    (d_remote_fingerprint r)) (d_remote_alg r) (d_active r) (x_srtp r) (x_rtcp_mux r)
    (x_unprotect_fail_count r) (x_last_send_seq_num r) (m_calls r) (m_out r).
Definition upd_d_remote_alg (g : bytes -> bytes) (r : media) : media :=
  mkMedia (m_ice_writable r) (m_ice_receiving r) (d_state r) (d_receiving r) (d_writable r)
    (d_ssl r) (d_downward r) (d_cached_client_hello r) (d_local_certificate r)
    (d_remote_fingerprint r) (g (d_remote_alg r)) (d_active r) (x_srtp r) (x_rtcp_mux r)
    (x_unprotect_fail_count r) (x_last_send_seq_num r) (m_calls r) (m_out r).
Definition upd_d_active (g : bool -> bool) (r : media) : media :=
  mkMedia (m_ice_writable r) (m_ice_receiving r) (d_state r) (d_receiving r) (d_writable r)
    (d_ssl r) (d_downward r) (d_cached_client_hello r) (d_local_certificate r)
    (d_remote_fingerprint r) (d_remote_alg r) (g (d_active r)) (x_srtp r) (x_rtcp_mux r)
    (x_unprotect_fail_count r) (x_last_send_seq_num r) (m_calls r) (m_out r).
Definition upd_x_srtp (g : SrtpTransport -> SrtpTransport) (r : media) : media :=
  mkMedia (m_ice_writable r) (m_ice_receiving r) (d_state r) (d_receiving r) (d_writable r)
    (d_ssl r) (d_downward r) (d_cached_client_hello r) (d_local_certificate r)
    (d_remote_fingerprint r) (d_remote_alg r) (d_active r) (g (x_srtp r)) (x_rtcp_mux r)
    (x_unprotect_fail_count r) (x_last_send_seq_num r) (m_calls r) (m_out r).
Definition upd_x_rtcp_mux (g : bool -> bool) (r : media) : media :=
  mkMedia (m_ice_writable r) (m_ice_receiving r) (d_state r) (d_receiving r) (d_writable r)
    (d_ssl r) (d_downward r) (d_cached_client_hello r) (d_local_certificate r)
    (d_remote_fingerprint r) (d_remote_alg r) (d_active r) (x_srtp r) (g (x_rtcp_mux r))
    (x_unprotect_fail_count r) (x_last_send_seq_num r) (m_calls r) (m_out r).
Definition upd_x_unprotect_fail_count (g : Z -> Z) (r : media) : media :=
  mkMedia (m_ice_writable r) (m_ice_receiving r) (d_state r) (d_receiving r) (d_writable r)
    (d_ssl r) (d_downward r) (d_cached_client_hello r) (d_local_certificate r)
    (d_remote_fingerprint r) (d_remote_alg r) (d_active r) (x_srtp r) (x_rtcp_mux r) (g
    (x_unprotect_fail_count r)) (x_last_send_seq_num r) (m_calls r) (m_out r).
Definition upd_x_last_send_seq_num (g : Z -> Z) (r : media) : media :=
  mkMedia (m_ice_writable r) (m_ice_receiving r) (d_state r) (d_receiving r) (d_writable r)
    (d_ssl r) (d_downward r) (d_cached_client_hello r) (d_local_certificate r)
    (d_remote_fingerprint r) (d_remote_alg r) (d_active r) (x_srtp r) (x_rtcp_mux r)
    (x_unprotect_fail_count r) (g (x_last_send_seq_num r)) (m_calls r) (m_out r).
Definition upd_m_calls (g : nat -> nat) (r : media) : media :=
  mkMedia (m_ice_writable r) (m_ice_receiving r) (d_state r) (d_receiving r) (d_writable r)
    (d_ssl r) (d_downward r) (d_cached_client_hello r) (d_local_certificate r)
    (d_remote_fingerprint r) (d_remote_alg r) (d_active r) (x_srtp r) (x_rtcp_mux r)
    (x_unprotect_fail_count r) (x_last_send_seq_num r) (g (m_calls r)) (m_out r).
Definition upd_m_out (g : (list media_event) -> (list media_event)) (r : media) : media :=
  mkMedia (m_ice_writable r) (m_ice_receiving r) (d_state r) (d_receiving r) (d_writable r)
    (d_ssl r) (d_downward r) (d_cached_client_hello r) (d_local_certificate r)
    (d_remote_fingerprint r) (d_remote_alg r) (d_active r) (x_srtp r) (x_rtcp_mux r)
    (x_unprotect_fail_count r) (x_last_send_seq_num r) (m_calls r) (g (m_out r)).
End setters.

Section dtls.
Context `{SrtpLib} `{DtlsEnv}.

Abbreviation D := (St media).

Definition out_event (e : media_event) : D () := put (upd_m_out (fun l => l ++ [e])).
(** The number of this call, for the answers of [DtlsEnv]. *)
Definition call : D nat := fun m => Done (m_calls m, upd_m_calls S m).

(** [IceTransportChannel::send_packet] *)
Definition channel_send (p : bytes) : D Z :=
  n ← call; _ ← out_event (EvIceSend p); mret (ice_send n p).

(** ** The stream between ICE and the engine *)

Definition stream_read (len : nat) : D (StreamResult * bytes) :=
  d ← get d_downward;
  match d with
  | None => fault null_deref
  | Some s =>
      match sc_state s with
      | SS_CLOSED => mret (SR_EOS, [])
      | SS_OPENING => mret (SR_BLOCK, [])
      | SS_OPEN =>
          match ReadFront (sc_packets s) len with
          | None => mret (SR_BLOCK, [])
          | Some (p, q) =>
              _ ← put (upd_d_downward (fun _ => Some (mkStream q (sc_state s))));
              mret (SR_SUCCESS, p)
          end
      end
  end.

Definition stream_write (p : bytes) : D StreamResult := _ ← channel_send p; mret SR_SUCCESS.

Definition stream_close : D () :=
  put (upd_d_downward (fmap (fun s => mkStream [] SS_CLOSED))).

(** A full queue drops the packet; the result is [true] either way. *)
Definition on_received_packet (p : bytes) : D bool :=
  d ← get d_downward;
  match d with
  | None => fault null_deref
  | Some s =>
      _ ← put (upd_d_downward (fun _ =>
            Some (mkStream (default (sc_packets s) (WriteBack k_max_pending_packets (sc_packets s) p))
                    (sc_state s))));
      _ ← out_event EvSslRead;
      mret true
  end.

(** ** The DTLS-SRTP transport *)

(** [set_rtp_params], [reset_params] and the session calls on the transport. *)
Definition srtp_reset : D () := put (upd_x_srtp reset_params).

Definition is_dtls_writable : D bool := get d_writable.

Definition get_srtp_crypto_suite : D (option Z) :=
  s ← get d_state;
  if bool_decide (s = dtls_connected) then n ← call; mret (ssl_suite n) else mret None.

Definition export_keying_material (label : bytes) (len : nat) : D (option bytes) :=
  ssl ← get d_ssl;
  if (ssl : bool) then n ← call; mret (ssl_export n label len) else mret None.

Definition k_dtls_srtp_exporter_label : bytes := str "EXTRACTOR-dtls_srtp".

Definition kSrtpAes128CmSha1_80 : Z := 1.
Definition kSrtpAes128CmSha1_32 : Z := 2.
Definition kSrtpAeadAes128Gcm : Z := 7.
Definition kSrtpAeadAes256Gcm : Z := 8.

(** [GetSupportedDtlsSrtpCryptoSuites] of the default options, which enable
    one suite. *)
Definition srtp_ciphers : list Z := [kSrtpAes128CmSha1_80].

Definition GetSrtpKeyAndSaltLengths (crypto_suite : Z) : option (nat * nat) :=
  if (crypto_suite =? kSrtpAes128CmSha1_32) || (crypto_suite =? kSrtpAes128CmSha1_80)
  then Some (16, 14)%nat
  else if crypto_suite =? kSrtpAeadAes128Gcm then Some (16, 12)%nat
  else if crypto_suite =? kSrtpAeadAes256Gcm then Some (32, 12)%nat
  else None.

(** The four [memcpy]s: client key, server key, client salt, server salt. *)
Definition split_keying_material (key_len salt_len : nat) (b : bytes) : bytes * bytes :=
  let client_write_key := take key_len b ++ take salt_len (drop (key_len + key_len) b) in
  let server_write_key := take key_len (drop key_len b) ++
                          take salt_len (drop (key_len + key_len + salt_len) b) in
  (client_write_key, server_write_key).

(** [_extract_params]: the suite, the send key and the receive key. *)
Definition extract_params : D (option (Z * bytes * bytes)) :=
  active ← get d_active;
  if negb active then mret None
  else
    suite ← get_srtp_crypto_suite;
    match suite with
    | None => mret None
    | Some cs =>
        match GetSrtpKeyAndSaltLengths cs with
        | None => mret None
        | Some (key_len, salt_len) =>
            b ← export_keying_material k_dtls_srtp_exporter_label (key_len * 2 + salt_len * 2);
            match b with
            | None => mret None
            | Some b =>
                let '(client, server) := split_keying_material key_len salt_len b in
                mret (Some (cs, server, client))
            end
        end
    end.

Definition setup_dtls_srtp : D () :=
  params ← extract_params;
  match params with
  | None => mret ()
  | Some (cs, send_key, recv_key) =>
      step (fun m =>
        '(_, t) ← set_rtp_params cs send_key cs recv_key (x_srtp m);
        Done ((), upd_x_srtp (fun _ => t) m))
  end.

Definition maybe_setup_dtls_srtp : D () :=
  t ← get x_srtp;
  writable ← is_dtls_writable;
  if is_srtp_active t || negb writable then mret () else setup_dtls_srtp.

(** [DtlsSrtpTransport::_on_dtls_state] *)
Definition srtp_on_dtls_state (s : DtlsTransportState) : D () :=
  if negb (bool_decide (s = dtls_connected)) then srtp_reset else maybe_setup_dtls_srtp.

Definition with_recv (f : SrtpSession -> option bytes * SrtpSession) : D (option bytes) :=
  run (fun m =>
    match st_recv (x_srtp m) with
    | Some r => let '(o, r) := f r in
                (o, upd_x_srtp (fun t => mkSrtp (st_send t) (Some r) (st_global t)) m)
    | None => (None, m)
    end).

Definition with_send (f : SrtpSession -> option bytes * SrtpSession) : D (option bytes) :=
  run (fun m =>
    match st_send (x_srtp m) with
    | Some s => let '(o, s) := f s in
                (o, upd_x_srtp (fun t => mkSrtp (Some s) (st_recv t) (st_global t)) m)
    | None => (None, m)
    end).

Definition on_rtp_packet_received (p : bytes) (ts : Z) : D () :=
  t ← get x_srtp;
  if negb (is_srtp_active t) then mret ()
  else
    o ← with_recv (session_unprotect_rtp p);
    match o with
    | None => put (upd_x_unprotect_fail_count (fun n => n + 1))
    | Some q => out_event (EvRtp q ts)
    end.

Definition on_rtcp_packet_received (p : bytes) (ts : Z) : D () :=
  t ← get x_srtp;
  if negb (is_srtp_active t) then mret ()
  else
    o ← with_recv (session_unprotect_rtcp p);
    match o with None => mret () | Some q => out_event (EvRtcp q ts) end.

(** [DtlsSrtpTransport::_on_read_packet] *)
Definition srtp_on_read_packet (p : bytes) (ts : Z) : D () :=
  match infer_rtp_packet_type p with
  | k_unknown => mret ()
  | k_rtcp => on_rtcp_packet_received p ts
  | k_rtp => on_rtp_packet_received p ts
  end.

Definition send_auth_tag_len (t : SrtpTransport) : Z * Z :=
  match st_send t with Some s => session_auth_tag_len s | None => (0, 0) end.

(** The buffer is allocated for the packet and the tag. *)
Definition send_rtp (p : bytes) : D Z :=
  t ← get x_srtp;
  if negb (is_srtp_active t) then mret (-1)
  else
    let capacity := Z.of_nat (length p) + fst (send_auth_tag_len t) in
    let seq_num := parse_rtp_sequence_number p in
    o ← with_send (session_protect_rtp p capacity);
    match o with
    | None => mret (-1)
    | Some q => _ ← put (upd_x_last_send_seq_num (fun _ => seq_num)); channel_send q
    end.

Definition send_rtcp (p : bytes) : D Z :=
  t ← get x_srtp;
  if negb (is_srtp_active t) then mret (-1)
  else
    let capacity := Z.of_nat (length p) + snd (send_auth_tag_len t) + 4 in
    o ← with_send (session_protect_rtcp p capacity);
    match o with None => mret (-1) | Some q => channel_send q end.

(** ** The DTLS transport *)

Definition set_dtls_state (s : DtlsTransportState) : D () :=
  old ← get d_state;
  if bool_decide (old = s) then mret ()
  else
    _ ← put (upd_d_state (fun _ => s));
    _ ← out_event (EvDtlsState s);
    srtp_on_dtls_state s.

Definition set_writable_state (b : bool) : D () :=
  old ← get d_writable;
  if bool_decide (old = b) then mret ()
  else _ ← put (upd_d_writable (fun _ => b)); out_event (EvDtlsWritable b).

(** [_set_receiving] *)
Definition dtls_set_receiving (b : bool) : D () :=
  old ← get d_receiving;
  if bool_decide (old = b) then mret ()
  else _ ← put (upd_d_receiving (fun _ => b)); out_event (EvDtlsReceiving b).

Definition handle_dtls_packet (p : bytes) : D bool :=
  if dtls_records_ok (length p) p then on_received_packet p else mret false.

Definition maybe_start_dtls : D () :=
  ssl ← get d_ssl;
  writable ← get m_ice_writable;
  if negb (ssl && writable) then mret ()
  else
    n ← call;
    if negb (ssl_start n =? 0) then set_dtls_state dtls_failed
    else
      _ ← set_dtls_state dtls_connecting;
      hello ← get d_cached_client_hello;
      if bool_decide (hello = []) then mret ()
      else
        ok ← handle_dtls_packet hello;
        _ ← if_ (negb ok) (set_dtls_state dtls_failed);
        put (upd_d_cached_client_hello (fun _ => [])).

(** [_setup_dtls]; creating the adapter cannot fail, and cloning the identity
    dereferences the certificate. *)
Definition setup_dtls : D bool :=
  _ ← put (upd_d_downward (fun _ => Some (mkStream [] SS_OPEN)));
  _ ← put (upd_d_ssl (fun _ => true));
  cert ← get d_local_certificate;
  match cert with
  | None => fault null_deref
  | Some _ =>
      fp ← get d_remote_fingerprint;
      alg ← get d_remote_alg;
      fp_ok ← (if bool_decide (fp = []) then mret true
               else n ← call; mret (fst (ssl_set_digest n alg fp)));
      if negb fp_ok then mret false
      else
        n ← call;
        if negb (ssl_set_suites n srtp_ciphers) then mret false
        else _ ← maybe_start_dtls; mret true
  end.

Definition set_local_certificate (cert : option Z) : D bool :=
  active ← get d_active;
  if (active : bool) then
    old ← get d_local_certificate; mret (bool_decide (cert = old))
  else
    match cert with
    | None => mret true
    | Some _ =>
        _ ← put (upd_d_local_certificate (fun _ => cert));
        _ ← put (upd_d_active (fun _ => true));
        mret true
    end.

Definition set_remote_fingerprint (digest_alg digest : bytes) : D bool :=
  active ← get d_active;
  old ← get d_remote_fingerprint;
  if active && bool_decide (old = digest) && negb (bool_decide (digest_alg = [])) then mret true
  else if bool_decide (digest_alg = []) then
    _ ← put (upd_d_active (fun _ => false)); mret false
  else if negb active then mret false
  else
    let fingerprint_change := negb (bool_decide (old = [])) in
    _ ← put (upd_d_remote_fingerprint (fun _ => digest));
    _ ← put (upd_d_remote_alg (fun _ => digest_alg));
    ssl ← get d_ssl;
    if ssl && negb fingerprint_change then
      n ← call;
      let '(ok, verification_failed) := ssl_set_digest n digest_alg digest in
      if negb ok then _ ← set_dtls_state dtls_failed; mret verification_failed
      else mret true
    else
      _ ← if_ (ssl && fingerprint_change)
            (_ ← put (upd_d_ssl (fun _ => false));
             _ ← put (upd_d_downward (fun _ => None));
             _ ← set_dtls_state dtls_new;
             set_writable_state false);
      ok ← setup_dtls;
      if negb ok then _ ← set_dtls_state dtls_failed; mret false else mret true.

(** [_on_writable_state] of the ICE channel *)
Definition on_ice_writable_state (b : bool) : D () :=
  _ ← put (upd_m_ice_writable (fun _ => b));
  active ← get d_active;
  if negb active then set_writable_state b
  else
    s ← get d_state;
    match s with
    | dtls_new => maybe_start_dtls
    | dtls_connected => set_writable_state b
    | _ => mret ()
    end.

Definition on_ice_receiving_state (b : bool) : D () :=
  _ ← put (upd_m_ice_receiving (fun _ => b)); dtls_set_receiving b.

(** [DtlsTransport::_on_read_packet] *)
Definition dtls_on_read_packet (p : bytes) (ts : Z) : D () :=
  s ← get d_state;
  match s with
  | dtls_new =>
      if is_dtls_client_hello_packet p then
        _ ← put (upd_d_cached_client_hello (fun _ => p));
        ssl ← get d_ssl;
        cert ← get d_local_certificate;
        if negb ssl && bool_decide (is_Some cert) then _ ← setup_dtls; mret () else mret ()
      else mret ()
  | dtls_connecting | dtls_connected =>
      if is_dtls_packet p then _ ← handle_dtls_packet p; mret ()
      else if negb (bool_decide (s = dtls_connected)) then mret ()
      else if negb (dtls_is_rtp_packet p) then mret ()
      else srtp_on_read_packet p ts
  | _ => mret ()
  end.

(** The [do ... while] of [SE_READ] on the results of the calls of [Read]; a
    list that ends counts as a read that blocks. *)
Fixpoint read_loop (reads : list StreamResult) : D () :=
  match reads with
  | [] => mret ()
  | SR_SUCCESS :: reads => read_loop reads
  | SR_BLOCK :: _ => mret ()
  | SR_EOS :: _ =>
      _ ← set_writable_state false; _ ← set_dtls_state dtls_closed; out_event EvClosed
  | SR_ERROR :: _ =>
      _ ← set_writable_state false; _ ← set_dtls_state dtls_failed; out_event EvClosed
  end.

Definition on_dtls_event (sig error : Z) (reads : list StreamResult) : D () :=
  _ ← if_ (negb (Z.land sig SE_OPEN =? 0))
        (_ ← set_writable_state true; set_dtls_state dtls_connected);
  _ ← if_ (negb (Z.land sig SE_READ =? 0))
        (ssl ← get d_ssl; if (ssl : bool) then read_loop reads else fault null_deref);
  if_ (negb (Z.land sig SE_CLOSE =? 0))
    (_ ← set_writable_state false;
     set_dtls_state (if error =? 0 then dtls_closed else dtls_failed)).

(** ** What can happen to the transports *)

Inductive media_input : Type :=
  | InIceWritable (b : bool)
  | InIceReceiving (b : bool)
  | InIcePacket (p : bytes) (ts : Z)
  | InLocalCertificate (cert : option Z)
  | InRemoteFingerprint (alg digest : bytes)
  | InSslEvent (sig error : Z) (reads : list StreamResult)
  | InSslRead (len : nat)
  | InSslWrite (p : bytes)
  | InSslClose
  | InSendRtp (p : bytes)
  | InSendRtcp (p : bytes).

Definition media_handle (i : media_input) : D () :=
  match i with
  | InIceWritable b => on_ice_writable_state b
  | InIceReceiving b => on_ice_receiving_state b
  | InIcePacket p ts => dtls_on_read_packet p ts
  | InLocalCertificate cert => _ ← set_local_certificate cert; mret ()
  | InRemoteFingerprint alg digest => _ ← set_remote_fingerprint alg digest; mret ()
  | InSslEvent sig error reads => on_dtls_event sig error reads
  | InSslRead len => _ ← stream_read len; mret ()
  | InSslWrite p => _ ← stream_write p; mret ()
  | InSslClose => stream_close
  | InSendRtp p => _ ← send_rtp p; mret ()
  | InSendRtcp p => _ ← send_rtcp p; mret ()
  end.

(** The transports [set_local_description] makes. *)
Definition new_media (ice_writable : bool) (g : srtp_global) : media :=
  mkMedia ice_writable false dtls_new false false false None [] None [] [] false
    (mkSrtp None None g) true 0 0 0 [].

(** The engine acts only while there is one. *)
Definition media_input_ok (i : media_input) (m : media) : bool :=
  match i with
  | InSslEvent _ _ _ | InSslRead _ | InSslWrite _ | InSslClose => d_ssl m
  | _ => true
  end.
End dtls.
