(* ===== verification/ZeroBuffer.v ===== *)
(** * Buffers that are wiped (rtc_base/buffer.h, pc/dtls_srtp_transport.cpp)

    [BufferT<T, true>], which holds the SRTP keys between the DTLS engine and
    libsrtp: memory is overwritten with zeros before it goes back to the
    allocator.  The state has the buffers and the blocks that were given back,
    each with what it held then.  The library is compiled with NDEBUG and the
    server, which instantiates this template, without: [debug] says whether
    assertions are checked. *)

From S2P Require Import Prelude State ByteBuffer Sds CopyOnWrite Srtp Dtls.
Local Open Scope nat_scope.

(** ** State *)

Record ZBuffer : Type := mkZ {
  z_size : nat;
  z_capacity : nat;
  z_data : option mem;  (* data_, null or a block *)
}.

Record zheap : Type := mkZheap {
  z_bufs : gmap nat ZBuffer;
  z_freed : list mem;
}.

Definition upd_bufs (f : gmap nat ZBuffer -> gmap nat ZBuffer) (s : zheap) : zheap := mkZheap (f (z_bufs s)) (z_freed s).

Definition Zm := St zheap.

Definition zget (h : nat) : Zm ZBuffer := step (fun s => b ← deref use_after_free (z_bufs s !! h); Done (b, s)).
Definition zput (h : nat) (b : ZBuffer) : Zm () := put (upd_bufs <[h := b]>).
Definition zdo {A} (o : outcome A) : Zm A := fun s => a ← o; Done (a, s).

(** [delete[]], of null or a block. *)
Definition zfree (p : option mem) : Zm () :=
  put (fun s => mkZheap (z_bufs s) (match p with None => z_freed s | Some d => d :: z_freed s end)).

Definition zabort {A} : Zm A := fun _ => Throws aborted.

(** ** Operations *)

Section operations.
Context (debug : bool).

Definition IsConsistent (b : ZBuffer) : bool :=
  (negb (bool_decide (z_data b = None)) || (z_capacity b =? 0)) && (z_size b <=? z_capacity b).

(** [RTC_DCHECK(IsConsistent())] *)
Definition dcheck (b : ZBuffer) : Zm () :=
  if debug && negb (IsConsistent b) then zabort else mret ().

(** [new T[n]], which leaves the bytes unwritten, or null. *)
Definition z_new (size capacity : nat) : ZBuffer :=
  let capacity := Nat.max size capacity in
  mkZ size capacity (if 0 <? capacity then Some (repeat None capacity) else None).

Definition ExplicitZeroMemory (d : mem) (i n : nat) : outcome mem := mstore d (Z.of_nat i) (repeat (Some x00) n).

Definition MaybeZeroCompleteBuffer (b : ZBuffer) : outcome ZBuffer :=
  if 0 <? z_capacity b
  then d ← deref null_deref (z_data b); d ← ExplicitZeroMemory d 0 (z_capacity b); Done (mkZ (z_size b) (z_capacity b) (Some d))
  else Done b.

Definition ZeroTrailingData (count : nat) (b : ZBuffer) : outcome ZBuffer :=
  d ← deref null_deref (z_data b);
  d ← ExplicitZeroMemory d (z_size b) count;
  Done (mkZ (z_size b) (z_capacity b) (Some d)).

Definition zero_trailing (h old_size : nat) : Zm () :=
  b ← zget h;
  if z_size b <? old_size then b ← zdo (ZeroTrailingData (old_size - z_size b) b); zput h b else mret ().

Definition z_ensure (h capacity : nat) (extra_headroom : bool) : Zm () :=
  b ← zget h;
  _ ← dcheck b;
  if capacity <=? z_capacity b then mret ()
  else
    let new_capacity := if extra_headroom then Nat.max capacity (z_capacity b + z_capacity b / 2) else capacity in
    let new_data := repeat None new_capacity in
    new_data ← zdo (match z_data b with None => Done new_data | Some d => memcpy new_data 0 d (z_size b) end);
    b ← zdo (MaybeZeroCompleteBuffer b);
    _ ← zfree (z_data b);
    zput h (mkZ (z_size b) new_capacity (Some new_data)).

(** [memcpy(data_ + i, data, size)]; nothing is copied to null. *)
Definition z_memcpy (h i : nat) (data : mem) (size : nat) : Zm () :=
  b ← zget h;
  match z_data b with
  | None => if size =? 0 then mret () else fault null_deref
  | Some d => d ← zdo (memcpy d i data size); zput h (mkZ (z_size b) (z_capacity b) (Some d))
  end.

Definition z_resize (h size : nat) : Zm () := b ← zget h; zput h (mkZ size (z_capacity b) (z_data b)).

Definition z_AppendData (h : nat) (data : mem) (size : nat) : Zm () :=
  b ← zget h;
  _ ← dcheck b;
  let new_size := z_size b + size in
  _ ← z_ensure h new_size true;
  _ ← z_memcpy h (z_size b) data size;
  z_resize h new_size.

Definition z_SetSize (h size : nat) : Zm () :=
  b ← zget h;
  _ ← z_ensure h size true;
  _ ← z_resize h size;
  zero_trailing h (z_size b).

Definition z_SetData (h : nat) (data : mem) (size : nat) : Zm () :=
  b ← zget h;
  _ ← dcheck b;
  _ ← z_resize h 0;
  _ ← z_AppendData h data size;
  zero_trailing h (z_size b).

(** [AppendData(max_elements, setter)]: the setter writes [data] and returns
    [written]. *)
Definition z_AppendSetter (h max_elements : nat) (data : mem) (written : nat) : Zm () :=
  b ← zget h;
  _ ← dcheck b;
  _ ← z_SetSize h (z_size b + max_elements);
  _ ← z_memcpy h (z_size b) data (length data);
  if written <=? max_elements then z_resize h (z_size b + written) else zabort.

Definition z_SetSetter (h max_elements : nat) (data : mem) (written : nat) : Zm () :=
  b ← zget h;
  _ ← dcheck b;
  _ ← z_resize h 0;
  _ ← z_AppendSetter h max_elements data written;
  zero_trailing h (z_size b).

Definition z_EnsureCapacity (h capacity : nat) : Zm () := z_ensure h capacity false.

Definition z_Clear (h : nat) : Zm () :=
  b ← zget h; b ← zdo (MaybeZeroCompleteBuffer b); zput h (mkZ 0 (z_capacity b) (z_data b)).

(** The constructors, of a size, of data, and of a buffer that is moved from. *)
Definition z_sized (h size capacity : nat) : Zm () := zput h (z_new size capacity).
Definition z_from (h : nat) (data : mem) (size capacity : nat) : Zm () :=
  _ ← z_sized h size capacity; z_memcpy h 0 data size.
(** [OnMovedFrom], which leaves an inconsistent size when assertions are on. *)
Definition moved_from : ZBuffer := mkZ (if debug then 1 else 0) 0 None.
Definition z_move (h g : nat) : Zm () := b ← zget g; _ ← dcheck b; _ ← zput h b; zput g moved_from.

(** [operator=(BufferT&&)]; a buffer that is moved to itself loses its data. *)
Definition z_move_assign (h g : nat) : Zm () :=
  c ← zget g;
  _ ← dcheck c;
  b ← zget h;
  b ← zdo (MaybeZeroCompleteBuffer b);
  _ ← zput h b;
  c ← zget g;
  _ ← zput h c;
  _ ← zfree (z_data b);
  zput g moved_from.

Definition z_swap (h g : nat) : Zm () := b ← zget h; c ← zget g; _ ← zput h c; zput g b.

Definition z_destroy (h : nat) : Zm () :=
  b ← zget h; b ← zdo (MaybeZeroCompleteBuffer b); _ ← zfree (z_data b); put (upd_bufs (delete h)).

(** [&buffer[i]] *)
Definition z_at (h i : nat) : Zm ZBuffer :=
  b ← zget h;
  if debug && negb (i <? z_size b) then zabort else _ ← dcheck b; mret b.

(** [memcpy] from and to a buffer. *)
Definition z_read (h i n : nat) : Zm mem :=
  b ← z_at h i; match z_data b with None => if n =? 0 then mret [] else fault null_deref | Some d => zdo (mslice d (Z.of_nat i) (Z.of_nat n)) end.
Definition z_write (h i : nat) (data : mem) (size : nat) : Zm () := _ ← z_at h i; z_memcpy h i data size.

Inductive z_op : Type :=
  | ZSized (h size capacity : nat)
  | ZFrom (h : nat) (data : bytes) (capacity : nat)
  | ZMove (h g : nat)
  | ZMoveAssign (h g : nat)
  | ZSwap (h g : nat)
  | ZAppendData (h : nat) (data : bytes)
  | ZSetData (h : nat) (data : bytes)
  | ZAppendSetter (h max_elements : nat) (data : bytes) (written : nat)
  | ZSetSetter (h max_elements : nat) (data : bytes) (written : nat)
  | ZSetSize (h size : nat)
  | ZEnsureCapacity (h capacity : nat)
  | ZClear (h : nat)
  | ZWrite (h i : nat) (data : bytes)
  | ZDestroy (h : nat).

Definition z_do (o : z_op) : Zm () :=
  match o with
  | ZSized h size capacity => z_sized h size capacity
  | ZFrom h data capacity => z_from h (mem_of data) (length data) capacity
  | ZMove h g => z_move h g
  | ZMoveAssign h g => z_move_assign h g
  | ZSwap h g => z_swap h g
  | ZAppendData h data => z_AppendData h (mem_of data) (length data)
  | ZSetData h data => z_SetData h (mem_of data) (length data)
  | ZAppendSetter h n data written => z_AppendSetter h n (mem_of data) written
  | ZSetSetter h n data written => z_SetSetter h n (mem_of data) written
  | ZSetSize h size => z_SetSize h size
  | ZEnsureCapacity h capacity => z_EnsureCapacity h capacity
  | ZClear h => z_Clear h
  | ZWrite h i data => z_write h i (mem_of data) (length data)
  | ZDestroy h => z_destroy h
  end.

Fixpoint z_run (os : list z_op) : Zm () :=
  match os with [] => mret () | o :: os => _ ← z_do o; z_run os end.

(** ** The keys

    [_extract_params] and [_setup_dtls_srtp] from the moment the suite is
    known, on buffers 0 (send_key), 1 (recv_key), 2 (dtls_buffer), 3
    (client_write_key) and 4 (server_write_key).  [material] is what the engine
    exports; the keys go to [set_rtp_params], and the buffers die in the reverse
    order of their declarations. *)
Definition extract_keys (key_len salt_len : nat) (material : option bytes) : Zm bool :=
  let key_salt := key_len + salt_len in
  _ ← z_sized 2 (key_len * 2 + salt_len * 2) 0;
  match material with
  | None => _ ← z_destroy 2; mret false
  | Some m =>
      _ ← z_write 2 0 (mem_of m) (length m);
      _ ← z_sized 3 key_salt 0;
      _ ← z_sized 4 key_salt 0;
      ck ← z_read 2 0 key_len;
      _ ← z_write 3 0 ck key_len;
      sk ← z_read 2 key_len key_len;
      _ ← z_write 4 0 sk key_len;
      cs ← z_read 2 (key_len + key_len) salt_len;
      _ ← z_write 3 key_len cs salt_len;
      ss ← z_read 2 (key_len + key_len + salt_len) salt_len;
      _ ← z_write 4 key_len ss salt_len;
      _ ← z_move_assign 0 4;
      _ ← z_move_assign 1 3;
      _ ← z_destroy 4;
      _ ← z_destroy 3;
      _ ← z_destroy 2;
      mret true
  end.

Definition key_bytes (h : nat) : Zm bytes :=
  b ← zget h; m ← z_read h 0 (z_size b); zdo (cells_bytes m).

Definition setup_keys (key_len salt_len : nat) (material : option bytes) : Zm (option (bytes * bytes)) :=
  _ ← z_sized 0 0 0;
  _ ← z_sized 1 0 0;
  ok ← extract_keys key_len salt_len material;
  r ← (if (ok : bool) then send ← key_bytes 0; recv ← key_bytes 1; mret (Some (send, recv)) else mret None);
  _ ← z_destroy 1;
  _ ← z_destroy 0;
  mret r.
End operations.
