(* ===== verification/ZeroTheory.v ===== *)
(** * What wiped buffers promise

    A buffer is a vector of bytes, and every block that goes back to the
    allocator holds zeros only; the unused part of a live block holds nothing
    either, if the setters keep to what they return.  The keys of a handshake
    reach libsrtp as the engine exported them and leave nothing behind. *)

From S2P Require Import Prelude State ByteBuffer Sds SdsTheory CopyOnWrite CopyOnWriteTheory Srtp Dtls ZeroBuffer.
Local Open Scope nat_scope.

Section theory.
Context (debug : bool).

(** ** Consistent buffers *)

Definition blank (c : option byte) : Prop := c = None \/ c = Some x00.

(** [IsConsistent]. *)
Definition zcons (b : ZBuffer) : Prop :=
  match z_data b with
  | None => z_capacity b = 0 /\ z_size b = 0
  | Some d => length d = z_capacity b /\ 0 < z_capacity b /\ z_size b <= z_capacity b
  end.

Definition cells (b : ZBuffer) : mem := default [] (z_data b).
Definition zvis (b : ZBuffer) : mem := take (z_size b) (cells b).

(** Nothing from the byte [k] on. *)
Definition clean (k : nat) (b : ZBuffer) : Prop := Forall blank (drop k (cells b)).

Definition fine (b : ZBuffer) (v : mem) (k : nat) : Prop := zcons b /\ zvis b = v /\ clean k b.

Definition zeros (d : mem) : Prop := d = repeat (Some x00) (length d).
Definition wiped (s : zheap) : Prop := Forall zeros (z_freed s).

(** Only the buffer [h] changed, and it is as [Q] says now. *)
Definition on (h : nat) (Q : ZBuffer -> Prop) (s s' : zheap) : Prop :=
  (exists b, z_bufs s' = <[h := b]> (z_bufs s) /\ Q b) /\ wiped s'.

Lemma on_trans h (Q R : ZBuffer -> Prop) s s1 s2 :
  on h Q s s1 -> on h R s1 s2 -> on h R s s2.
Proof.
  intros [(b & E & _) _] [(b' & E' & Hb) Hw]. split; [|done]. exists b'. split; [|done].
  by rewrite E', E, insert_insert_eq.
Qed.

Lemma on_mono h (Q R : ZBuffer -> Prop) s s' : on h Q s s' -> (forall b, Q b -> R b) -> on h R s s'.
Proof. intros [(b & E & Hb) Hw] H. split; [|done]. eauto. Qed.

Lemma on_get h Q s s' : on h Q s s' -> exists b, z_bufs s' !! h = Some b /\ Q b /\ wiped s'.
Proof. intros [(b & E & Hb) Hw]. exists b. rewrite E, lookup_insert_eq. done. Qed.

Lemma on_same h (Q : ZBuffer -> Prop) b s : z_bufs s !! h = Some b -> Q b -> wiped s -> on h Q s s.
Proof. intros Hb HQ Hw. split; [|done]. exists b. by rewrite insert_id. Qed.

Lemma cells_length b : zcons b -> length (cells b) = z_capacity b.
Proof. unfold zcons, cells. destruct (z_data b); cbn; lia. Qed.

Lemma zcons_le b : zcons b -> z_size b <= z_capacity b.
Proof. unfold zcons. destruct (z_data b); lia. Qed.

Lemma zcons_resize b n d : zcons b -> n <= z_capacity b -> length d = z_capacity b ->
  zcons (mkZ n (z_capacity b) (match z_data b with None => None | Some _ => Some d end)).
Proof. unfold zcons. intros Hc Hn Hd. destruct (z_data b) as [d'|]; cbn; lia. Qed.

Lemma fine_size b v k : fine b v k -> length v = z_size b.
Proof.
  intros (Hc & <- & _). unfold zvis. rewrite length_take, cells_length by done. apply zcons_le in Hc. lia.
Qed.

Lemma zeros_repeat n : zeros (repeat (Some x00) n).
Proof. unfold zeros. by rewrite repeat_length. Qed.

Lemma blank_repeat n : Forall blank (repeat None n).
Proof. apply Forall_forall. intros x Hx%list_elem_of_In%repeat_spec. by left. Qed.

Lemma blank_zeros n : Forall blank (repeat (Some x00) n).
Proof. apply Forall_forall. intros x Hx%list_elem_of_In%repeat_spec. by right. Qed.

Lemma clean_mono k k' b : clean k b -> k <= k' -> clean k' b.
Proof.
  unfold clean. intros H Hk. replace k' with (k + (k' - k)) by lia. rewrite <- drop_drop. by apply Forall_drop.
Qed.

(** Overwriting with zeros. *)
Lemma zero_at d i n :
  i + n <= length d -> ExplicitZeroMemory d i n = Done (take i d ++ repeat (Some x00) n ++ drop (i + n) d).
Proof.
  intros Hn. unfold ExplicitZeroMemory.
  assert (d = take i d ++ take n (drop i d) ++ drop (i + n) d) as E.
  { rewrite <- drop_drop. by rewrite !take_drop. }
  rewrite E at 1. apply mstore_app; rewrite ?repeat_length, ?length_take, ?length_drop; lia.
Qed.

Lemma MaybeZero_spec b :
  zcons b ->
  MaybeZeroCompleteBuffer b
    = Done (mkZ (z_size b) (z_capacity b) (match z_data b with None => None | Some _ => Some (repeat (Some x00) (z_capacity b)) end)).
Proof.
  unfold zcons, MaybeZeroCompleteBuffer. intros Hc. destruct b as [n c [d|]]; cbn [z_data z_capacity z_size] in *.
  - destruct Hc as (El & Hp & _). replace (0 <? c) with true by (symmetry; by apply Nat.ltb_lt). cbn.
    rewrite zero_at by lia. cbn. rewrite take_0, drop_ge by lia. by rewrite app_nil_r.
  - destruct Hc as [-> ->]. done.
Qed.

(** The assertions hold of a consistent buffer. *)
Lemma dcheck_spec b (Q : () -> zheap -> Prop) s : zcons b -> Q () s -> post (dcheck debug b) Q s.
Proof.
  intros Hz HQ. unfold dcheck. replace (IsConsistent b) with true; [by rewrite andb_false_r|].
  unfold IsConsistent, zcons in *. symmetry. apply andb_true_iff. rewrite orb_true_iff, Nat.leb_le, Nat.eqb_eq.
  destruct (z_data b); [rewrite bool_decide_eq_false_2 by done|]; cbn; intuition lia.
Qed.

Ltac zget Hb := apply post_bind; unfold post at 1, zget, step; cbn [z_bufs z_freed]; rewrite Hb; cbn [deref mbind outcome_bind].
Ltac zcheck Hz := apply post_bind, (dcheck_spec _ _ _ Hz).
Ltac zdone E := apply post_bind; unfold post at 1, zdo; rewrite E; cbn [mbind outcome_bind].

Lemma zput_spec h b (Q : ZBuffer -> Prop) s : Q b -> wiped s -> post (zput h b) (fun _ => on h Q s) s.
Proof. intros HQ Hw. unfold post, zput, put. split; [|done]. exists b. by split. Qed.

(** Freeing the block of a buffer that was wiped, and storing another. *)
Lemma free_put h n c (p : option mem) (b' : ZBuffer) (Q : ZBuffer -> Prop) s :
  wiped s -> Q b' ->
  post (zfree (z_data (mkZ n c (match p with None => None | Some _ => Some (repeat (Some x00) c) end))) ≫= fun _ => zput h b')
    (fun _ => on h Q s) s.
Proof.
  intros Hw HQ. apply post_bind. unfold post at 1, zfree, put. cbn [z_data]. unfold post, zput, put. split.
  - exists b'. by split.
  - unfold wiped. cbn. destruct p; [|done]. constructor; [apply zeros_repeat|done].
Qed.

Lemma ensure_spec h capacity extra b v k s :
  z_bufs s !! h = Some b -> fine b v k -> length v <= k -> wiped s ->
  post (z_ensure debug h capacity extra) (fun _ => on h (fun b' => fine b' v k /\ capacity <= z_capacity b' /\ z_capacity b <= z_capacity b') s) s.
Proof.
  intros Hb Hf Hk Hw. unfold z_ensure. zget Hb. zcheck (proj1 Hf). destruct (Nat.leb_spec capacity (z_capacity b)) as [Hc|Hc].
  { by apply post_ret, (on_same _ _ b). }
  set (n := if extra then _ else _).
  assert (capacity <= n) as Hn by (unfold n; destruct extra; lia). clearbody n.
  pose proof (fine_size _ _ _ Hf) as El. destruct Hf as (Hz & Ev & Hcl).
  assert (match z_data b with None => Done (repeat None n) | Some d => memcpy (repeat None n) 0 d (z_size b) end
    = Done (v ++ repeat None (n - length v))) as E.
  { unfold zcons, zvis, cells in *. destruct (z_data b) as [d|]; cbn [default from_option id] in *.
    - rewrite memcpy_front by (rewrite ?repeat_length; lia). rewrite Ev. do 2 f_equal.
      replace n with (z_size b + (n - z_size b)) at 1 by lia. rewrite repeat_app, El. apply drop_app_length'.
      by rewrite repeat_length.
    - subst v. rewrite take_nil. cbn. by rewrite Nat.sub_0_r. }
  zdone E. zdone (MaybeZero_spec b Hz). apply free_put; [done|].
  split; [|split; [done|cbn; lia]]. split_and!.
  - unfold zcons. cbn. rewrite length_app, repeat_length. unfold zcons in Hz. destruct (z_data b); lia.
  - unfold zvis, cells. cbn. by apply take_app_length'.
  - unfold clean, cells. cbn. rewrite drop_app_ge by lia. apply Forall_drop, blank_repeat.
Qed.

Lemma memcpy_spec h i data size b s :
  z_bufs s !! h = Some b -> zcons b -> i + size <= z_capacity b -> size <= length data -> wiped s ->
  post (z_memcpy h i data size) (fun _ => on h (fun b' => zcons b' /\ z_size b' = z_size b /\ z_capacity b' = z_capacity b
    /\ cells b' = take i (cells b) ++ take size data ++ drop (i + size) (cells b)) s) s.
Proof.
  intros Hb Hz Hi Hd Hw. unfold z_memcpy. zget Hb. pose proof (cells_length b Hz) as El.
  unfold cells in *. destruct (z_data b) as [d|] eqn:Ed; cbn [default from_option id] in *.
  - zdone (memcpy_at d i data size ltac:(lia) Hd). apply zput_spec; [|done]. unfold zcons in *. rewrite Ed in Hz. cbn.
    rewrite !length_app, !length_take, length_drop. split_and!; [lia..|done].
  - unfold zcons in Hz. rewrite Ed in Hz. replace size with 0 by lia. apply post_ret, (on_same _ _ b); [done| |done].
    rewrite Ed. split_and!; [unfold zcons; by rewrite Ed|done|done|]. cbn. by rewrite take_nil, drop_nil, take_0.
Qed.

Lemma resize_spec h n b s :
  z_bufs s !! h = Some b -> wiped s ->
  post (z_resize h n) (fun _ => on h (fun b' => b' = mkZ n (z_capacity b) (z_data b)) s) s.
Proof. intros Hb Hw. unfold z_resize. zget Hb. by apply zput_spec. Qed.

Lemma zcons_size b n : zcons b -> n <= z_capacity b -> zcons (mkZ n (z_capacity b) (z_data b)).
Proof. unfold zcons. cbn. destruct (z_data b); lia. Qed.

(** The cells of a buffer from its vector. *)
Lemma cells_split b v k : fine b v k -> cells b = v ++ drop (length v) (cells b).
Proof. intros Hf. rewrite (fine_size _ _ _ Hf). destruct Hf as (_ & <- & _). unfold zvis. by rewrite take_drop. Qed.

Lemma AppendData_fine h data b v k s :
  z_bufs s !! h = Some b -> fine b v k -> length v <= k -> wiped s ->
  post (z_AppendData debug h data (length data)) 
    (fun _ => on h (fun b' => fine b' (v ++ data) (Nat.max k (length v + length data)) /\ z_capacity b <= z_capacity b') s) s.
Proof.
  intros Hb Hf Hk Hw. unfold z_AppendData. zget Hb. zcheck (proj1 Hf). rewrite <- (fine_size _ _ _ Hf).
  apply post_bind. eapply post_mono; [by eapply ensure_spec|]. intros [] s1 H1.
  pose proof (on_get _ _ _ _ H1) as (b1 & Hb1 & (Hf1 & Hc1 & Hm1) & Hw1).
  pose proof Hf1 as (Hz1 & _ & Hcl1). pose proof (cells_length _ Hz1) as El1.
  apply post_bind. eapply post_mono; [by eapply memcpy_spec|]. intros [] s2 H2.
  pose proof (on_get _ _ _ _ H2) as (b2 & Hb2 & (Hz2 & _ & Hc2 & E2) & Hw2).
  eapply post_mono; [by eapply resize_spec|]. intros [] s3 H3.
  eapply on_mono; [eapply on_trans; [by eapply on_trans|exact H3]|]. intros b3 ->.
  split; [|cbn; lia]. rewrite (cells_split _ _ _ Hf1), take_app_length, firstn_all in E2.
  rewrite drop_app_ge, drop_drop in E2 by lia.
  replace (length v + (length v + length data - length v)) with (length v + length data) in E2 by lia.
  split_and!.
  - apply zcons_size; [done|lia].
  - unfold zvis. cbn. fold (cells b2). rewrite E2, app_assoc. apply take_app_length'. rewrite length_app. lia.
  - unfold clean. change (cells (mkZ _ _ (z_data b2))) with (cells b2). rewrite E2, app_assoc, drop_app_ge by (rewrite length_app; lia).
    rewrite length_app, drop_drop. eapply (clean_mono k); [done|lia].
Qed.

(** Zeros in place of what a smaller size left over. *)
Lemma zero_trailing_fine h old b v k s :
  z_bufs s !! h = Some b -> fine b v k -> length v <= k -> old <= z_capacity b -> wiped s ->
  post (zero_trailing h old)
    (fun _ => on h (fun b' => fine b' v (if k <=? Nat.max old (length v) then length v else k) /\ z_capacity b' = z_capacity b) s) s.
Proof.
  intros Hb Hf Hk Ho Hw. unfold zero_trailing. zget Hb. pose proof (fine_size _ _ _ Hf) as El.
  destruct (Nat.ltb_spec (z_size b) old) as [Hlt|Hge].
  - destruct Hf as (Hz & Ev & Hcl). pose proof (cells_length _ Hz) as Ec.
    assert (z_data b = Some (cells b)) as Ed.
    { unfold zcons, cells in *. destruct (z_data b); [done|lia]. }
    assert (ZeroTrailingData (old - z_size b) b = Done (mkZ (z_size b) (z_capacity b)
      (Some (v ++ repeat (Some x00) (old - z_size b) ++ drop old (cells b))))) as E.
    { unfold ZeroTrailingData. rewrite Ed. cbn. rewrite zero_at by lia. cbn. unfold zvis in Ev. rewrite Ev.
      replace (z_size b + (old - z_size b)) with old by lia. done. }
    zdone E. apply zput_spec; [|done]. split; [|done]. split_and!.
    + unfold zcons in *. rewrite Ed in Hz. cbn. rewrite !length_app, repeat_length, length_drop. lia.
    + unfold zvis, cells. cbn. by apply take_app_length'.
    + unfold clean, cells. cbn. destruct (Nat.leb_spec k (Nat.max old (length v))).
      * rewrite drop_app_length. apply Forall_app. split; [apply blank_zeros|]. eapply (clean_mono k); [done|lia].
      * rewrite app_assoc, drop_app_ge by (rewrite length_app, repeat_length; lia).
        rewrite length_app, repeat_length, drop_drop. eapply (clean_mono k); [done|lia].
  - apply post_ret, (on_same _ _ b); [done| |done]. split; [|done]. destruct Hf as (? & ? & ?). split_and!; [done..|].
    destruct (Nat.leb_spec k (Nat.max old (length v))); [|done]. eapply clean_mono; [done|]. lia.
Qed.

(** [SetSize] keeps the bytes it has room for; below [k] the rest is as it was. *)
Lemma SetSize_fine h size b v k s :
  z_bufs s !! h = Some b -> fine b v k -> length v <= k -> wiped s ->
  post (z_SetSize debug h size) (fun _ => on h (fun b' => exists more, length more = size - length v
    /\ fine b' (take size v ++ more) (if (size <? length v) && (k <=? length v) then size else k) /\ z_capacity b <= z_capacity b'
    /\ size <= z_capacity b' /\ (k = length v -> Forall blank more)) s) s.
Proof.
  intros Hb Hf Hk Hw. unfold z_SetSize. zget Hb. pose proof (fine_size _ _ _ Hf) as El.
  apply post_bind. eapply post_mono; [by eapply ensure_spec|]. intros [] s1 H1.
  pose proof (on_get _ _ _ _ H1) as (b1 & Hb1 & (Hf1 & Hc1 & Hm1) & Hw1).
  pose proof Hf1 as (Hz1 & Ev1 & Hcl1). pose proof (zcons_le _ Hz1) as Hle1. pose proof (cells_length _ Hz1) as El1.
  pose proof (fine_size _ _ _ Hf1) as Es1.
  apply post_bind. eapply post_mono; [by eapply resize_spec|]. intros [] s2 H2.
  pose proof (on_get _ _ _ _ H2) as (b2 & Hb2 & Eb2 & Hw2).
  assert (cells b2 = cells b1) as Ec by (by subst b2).
  set (more := take (size - length v) (drop (length v) (cells b1))).
  assert (length more = size - length v) as Em by (unfold more; rewrite length_take, length_drop; lia).
  assert (fine b2 (take size v ++ more) k) as Hf2.
  { split_and!; [by subst b2; apply zcons_size| |by unfold clean; rewrite Ec].
    unfold zvis. rewrite Ec. subst b2. cbn. rewrite (cells_split _ _ _ Hf1) at 1. by rewrite take_app. }
  assert (k = length v -> Forall blank more) as Hbl.
  { intros ->. unfold more. by apply Forall_take. }
  assert (length (take size v ++ more) = size) as Et by (rewrite length_app, length_take; lia).
  pose proof (on_trans _ _ _ _ _ _ H1 H2) as H12.
  destruct (Nat.ltb_spec size (length v)) as [Hs|Hs].
  - eapply post_mono; [eapply (zero_trailing_fine h (z_size b)); [done|exact Hf2|rewrite Et; lia|subst b2; cbn; lia|done]|].
    rewrite Et, <- El, (Nat.max_l (length v) size) by lia. cbn [andb].
    intros [] s3 H3. eapply on_mono; [by eapply on_trans|]. intros b3 [Hf3 Ecap]. exists more.
    rewrite Ecap, Eb2. cbn. split_and!; [done|apply Hf3..|done|done|done].
  - unfold zero_trailing. zget Hb2. replace (z_size b2 <? z_size b) with false.
    2: { symmetry. apply Nat.ltb_ge. rewrite Eb2. cbn. lia. }
    apply post_ret. eapply on_mono; [exact H12|]. intros b3 E3. rewrite <- Eb2 in E3. subst b3. exists more.
    split_and!; [done|apply Hf2..| | |done]; rewrite Eb2; cbn; lia.
Qed.

(** ** Every operation on a buffer

    [c] says that nothing is left behind the size. *)

Definition keeps (c : bool) (v : mem) (b : ZBuffer) : Prop :=
  exists k, length v <= k /\ fine b v k /\ (c = true -> k = length v).

Lemma SetData_keeps c h data b v s :
  z_bufs s !! h = Some b -> keeps c v b -> wiped s ->
  post (z_SetData debug h data (length data)) (fun _ => on h (keeps c data) s) s.
Proof.
  intros Hb (k & Hk & Hf & Hc) Hw. unfold z_SetData. zget Hb. zcheck (proj1 Hf). pose proof (fine_size _ _ _ Hf) as El.
  apply post_bind. eapply post_mono; [by eapply resize_spec|]. intros [] s1 H1.
  pose proof (on_get _ _ _ _ H1) as (b1 & Hb1 & E1 & Hw1).
  assert (fine b1 [] k) as Hf1.
  { destruct Hf as (Hz & _ & Hcl). subst b1. split_and!; [apply zcons_size; [done|lia]|done|done]. }
  apply post_bind. eapply post_mono; [eapply AppendData_fine; [done|done|cbn; lia|done]|]. intros [] s2 H2.
  pose proof (on_get _ _ _ _ H2) as (b2 & Hb2 & [Hf2 Hc2] & Hw2). cbn [app length Nat.add] in *.
  assert (z_size b <= z_capacity b2) as Hcap.
  { subst b1. cbn in Hc2. destruct Hf as (Hz & _). apply zcons_le in Hz. lia. }
  eapply post_mono; [eapply zero_trailing_fine; [done|exact Hf2|lia|done|done]|].
  intros [] s3 H3. eapply on_mono; [eapply on_trans; [by eapply on_trans|done]|]. intros b3 [Hf3 _].
  eexists. split_and!; [|exact Hf3|].
  - case_match; lia.
  - intros E. rewrite (Hc E) in *. case_match eqn:Em; [done|]. apply Nat.leb_gt in Em. lia.
Qed.

Lemma AppendData_keeps c h data b v s :
  z_bufs s !! h = Some b -> keeps c v b -> wiped s ->
  post (z_AppendData debug h data (length data)) (fun _ => on h (keeps c (v ++ data)) s) s.
Proof.
  intros Hb (k & Hk & Hf & Hc) Hw. eapply post_mono; [by eapply AppendData_fine|]. intros [] s' Hs'.
  eapply on_mono; [done|]. intros b' [Hf' _]. eexists. split_and!; [|exact Hf'|]; rewrite length_app; [lia|].
  intros E. rewrite (Hc E). lia.
Qed.

Lemma EnsureCapacity_keeps c h capacity b v s :
  z_bufs s !! h = Some b -> keeps c v b -> wiped s ->
  post (z_EnsureCapacity debug h capacity) (fun _ => on h (keeps c v) s) s.
Proof.
  intros Hb (k & Hk & Hf & Hc) Hw. eapply post_mono; [by eapply ensure_spec|]. intros [] s' Hs'.
  eapply on_mono; [done|]. intros b' [Hf' _]. by exists k.
Qed.

Lemma fine_mono b v k k' : fine b v k -> k <= k' -> fine b v k'.
Proof. intros (? & ? & ?) Hk. split_and!; [done..|]. by eapply clean_mono. Qed.

Lemma SetSize_keeps c h size b v s :
  z_bufs s !! h = Some b -> keeps c v b -> wiped s ->
  post (z_SetSize debug h size) (fun _ => on h (fun b' => exists more, length more = size - length v /\ keeps c (take size v ++ more) b') s) s.
Proof.
  intros Hb (k & Hk & Hf & Hc) Hw. eapply post_mono; [by eapply SetSize_fine|].
  intros [] s' Hs'. eapply on_mono; [done|]. intros b' (more & Em & Hf' & _ & _ & Hbl). exists more. split; [done|].
  exists (if (size <? length v) && (k <=? length v) then size else Nat.max size k). rewrite length_app, length_take.
  split_and!; [|eapply fine_mono; [exact Hf'|destruct (_ && _); lia]|].
  - destruct (Nat.ltb_spec size (length v)), (Nat.leb_spec k (length v)); cbn; lia.
  - intros E. rewrite (Hc E). destruct (Nat.ltb_spec size (length v)), (Nat.leb_spec (length v) (length v)); cbn; lia.
Qed.

(** A setter that writes [data] and returns [written]. *)
Definition setter_bytes (data : mem) (written : nat) : mem := take written data ++ repeat None (written - length data).

Lemma AppendSetter_fine h n data written b v k s :
  z_bufs s !! h = Some b -> fine b v k -> length v <= k -> length data <= n -> written <= n -> wiped s ->
  post (z_AppendSetter debug h n data written) (fun _ => on h (fun b' => exists w, Forall2 agree (setter_bytes data written) w
    /\ fine b' (v ++ w) (Nat.max k (length v + Nat.max (length data) written)) /\ z_capacity b <= z_capacity b') s) s.
Proof.
  intros Hb Hf Hk Hd Hn Hw. unfold z_AppendSetter. zget Hb. zcheck (proj1 Hf). rewrite <- (fine_size _ _ _ Hf).
  apply post_bind. eapply post_mono; [by eapply SetSize_fine|]. intros [] s1 H1.
  pose proof (on_get _ _ _ _ H1) as (b1 & Hb1 & (more & Em & Hf1 & Hm1 & Hc1 & Hbl) & Hw1).
  replace (length v + n <? length v) with false in Hf1 by (symmetry; apply Nat.ltb_ge; lia). cbn [andb] in Hf1.
  rewrite take_ge in Hf1 by lia. pose proof Hf1 as (Hz1 & _ & Hcl1). pose proof (cells_length _ Hz1) as El1.
  pose proof (cells_split _ _ _ Hf1) as Ec1. set (tl := drop (length (v ++ more)) (cells b1)) in Ec1.
  apply post_bind. eapply post_mono; [eapply (memcpy_spec h (length v) data (length data)); [done|done|lia|done|done]|].
  intros [] s2 H2. pose proof (on_get _ _ _ _ H2) as (b2 & Hb2 & (Hz2 & _ & Hc2 & E2) & Hw2).
  replace (written <=? n) with true by (symmetry; by apply Nat.leb_le).
  eapply post_mono; [by eapply resize_spec|]. intros [] s3 H3.
  eapply on_mono; [eapply on_trans; [by eapply on_trans|exact H3]|]. intros b3 ->.
  exists (take written (data ++ drop (length data) more)).
  assert (cells b2 = (v ++ data ++ drop (length data) more) ++ tl) as E2'.
  { rewrite E2, firstn_all, Ec1, <- !app_assoc, take_app_length, drop_app_add, drop_app_le by lia. done. }
  unfold fine. split_and!.
  - unfold setter_bytes. rewrite take_app. apply Forall2_app; [done|]. apply agree_more. rewrite length_take, length_drop. lia.
  - apply zcons_size; [done|lia].
  - unfold zvis. cbn. fold (cells b2). rewrite E2', <- app_assoc, take_app_add, take_app_le; [done|].
    rewrite length_app, length_drop. lia.
  - unfold clean. change (cells (mkZ _ _ (z_data b2))) with (cells b2). rewrite E2, firstn_all, app_assoc, drop_app_ge.
    + rewrite drop_drop. eapply (clean_mono k); [done|]. rewrite length_app, length_take. lia.
    + rewrite length_app, length_take. lia.
  - cbn. lia.
Qed.

Lemma length_setter data written w : Forall2 agree (setter_bytes data written) w -> length w = written.
Proof. intros H. apply Forall2_length in H. rewrite <- H. unfold setter_bytes. rewrite length_app, length_take, repeat_length. lia. Qed.

Lemma AppendSetter_keeps c h n data written b v s :
  z_bufs s !! h = Some b -> keeps c v b -> length data <= n -> written <= n -> (c = true -> length data <= written) -> wiped s ->
  post (z_AppendSetter debug h n data written)
    (fun _ => on h (fun b' => exists w, Forall2 agree (setter_bytes data written) w /\ keeps c (v ++ w) b') s) s.
Proof.
  intros Hb (k & Hk & Hf & Hc) Hd Hn Hset Hw. eapply post_mono; [by eapply AppendSetter_fine|]. intros [] s' Hs'.
  eapply on_mono; [done|]. intros b' (w & Ha & Hf' & _). exists w. split; [done|]. pose proof (length_setter _ _ _ Ha).
  eexists. split_and!; [|exact Hf'|]; rewrite length_app; [lia|]. intros E. specialize (Hset E). rewrite (Hc E). lia.
Qed.

Lemma SetSetter_keeps c h n data written b v s :
  z_bufs s !! h = Some b -> keeps c v b -> length data <= n -> written <= n -> (c = true -> length data <= written) -> wiped s ->
  post (z_SetSetter debug h n data written)
    (fun _ => on h (fun b' => exists w, Forall2 agree (setter_bytes data written) w /\ keeps c w b') s) s.
Proof.
  intros Hb (k & Hk & Hf & Hc) Hd Hn Hset Hw. unfold z_SetSetter. zget Hb. zcheck (proj1 Hf). pose proof (fine_size _ _ _ Hf) as El.
  apply post_bind. eapply post_mono; [by eapply resize_spec|]. intros [] s1 H1.
  pose proof (on_get _ _ _ _ H1) as (b1 & Hb1 & E1 & Hw1).
  assert (fine b1 [] k) as Hf1.
  { destruct Hf as (Hz & _ & Hcl). subst b1. split_and!; [apply zcons_size; [done|lia]|done|done]. }
  apply post_bind. eapply post_mono; [eapply (AppendSetter_fine h n data written); [done|done|cbn; lia|done..]|]. intros [] s2 H2.
  pose proof (on_get _ _ _ _ H2) as (b2 & Hb2 & (w & Ha & Hf2 & Hc2) & Hw2). cbn [app length Nat.add] in *.
  pose proof (length_setter _ _ _ Ha) as Elw.
  assert (z_size b <= z_capacity b2) as Hcap.
  { subst b1. cbn in Hc2. destruct Hf as (Hz & _). apply zcons_le in Hz. lia. }
  eapply post_mono; [eapply zero_trailing_fine; [done|exact Hf2|lia|done|done]|].
  intros [] s3 H3. eapply on_mono; [eapply on_trans; [by eapply on_trans|done]|]. intros b3 [Hf3 _]. exists w. split; [done|].
  eexists. split_and!; [|exact Hf3|].
  - case_match; lia.
  - intros E. specialize (Hset E). rewrite (Hc E) in *. case_match eqn:Em; [done|]. apply Nat.leb_gt in Em. lia.
Qed.

Lemma keeps_wiped c b :
  zcons b -> keeps c [] (mkZ 0 (z_capacity b) (match z_data b with None => None | Some _ => Some (repeat (Some x00) (z_capacity b)) end)).
Proof.
  intros Hz. exists 0. unfold fine, clean, zvis, cells, zcons in *. cbn.
  destruct (z_data b); cbn; rewrite ?repeat_length; split_and!; try done; try lia. apply blank_zeros.
Qed.

Lemma Write_keeps c h i data b v s :
  z_bufs s !! h = Some b -> keeps c v b -> wiped s -> i + length data <= length v ->
  post (z_memcpy h i data (length data)) (fun _ => on h (keeps c (take i v ++ data ++ drop (i + length data) v)) s) s.
Proof.
  intros Hb (k & Hk & Hf & Hc) Hw Hi. pose proof (fine_size _ _ _ Hf) as El. pose proof (cells_split _ _ _ Hf) as Ec.
  pose proof Hf as (Hz & _ & Hcl). pose proof (zcons_le _ Hz). pose proof (cells_length _ Hz) as Elc.
  eapply post_mono; [eapply (memcpy_spec h i data (length data)); [done|done|lia|done|done]|]. intros [] s' Hs'.
  eapply on_mono; [done|]. intros b' (Hz' & Es & Hc' & E). rewrite firstn_all in E.
  rewrite Ec, take_app_le, drop_app_le, !app_assoc in E by lia. rewrite <- (app_assoc (take i v)) in E.
  set (v' := take i v ++ data ++ _) in *. exists k.
  assert (length v' = length v) as Elv by (unfold v'; rewrite !length_app, length_take, length_drop; lia).
  rewrite Elv. split_and!; [done| |done]. split_and!; [done|..].
  - unfold zvis. rewrite E. apply take_app_length'. lia.
  - unfold clean in *. rewrite E, drop_app_ge by lia. rewrite Ec, drop_app_ge in Hcl by lia. by rewrite Elv.
Qed.

(** [&buffer[i]] of an index below the size. *)
Lemma z_at_spec h i b v k (Q : ZBuffer -> zheap -> Prop) s :
  z_bufs s !! h = Some b -> fine b v k -> i < length v -> Q b s -> post (z_at debug h i) Q s.
Proof.
  intros Hb Hf Hi HQ. unfold z_at. zget Hb. rewrite (fine_size _ _ _ Hf) in Hi.
  replace (i <? z_size b) with true by (symmetry; by apply Nat.ltb_lt). rewrite andb_false_r.
  zcheck (proj1 Hf). by apply post_ret.
Qed.

Lemma z_write_keeps c h i data b v s :
  z_bufs s !! h = Some b -> keeps c v b -> wiped s -> i < length v -> i + length data <= length v ->
  post (z_write debug h i data (length data)) (fun _ => on h (keeps c (take i v ++ data ++ drop (i + length data) v)) s) s.
Proof.
  intros Hb Hk Hw Hi Hl. pose proof Hk as (k & _ & Hf & _). unfold z_write. apply post_bind.
  eapply z_at_spec; [done|done|done|]. by eapply Write_keeps.
Qed.

Lemma z_new_fine size capacity : fine (z_new size capacity) (repeat None size) size.
Proof.
  unfold fine, clean, zvis, cells, zcons, z_new. cbn [z_size z_capacity z_data].
  destruct (Nat.ltb_spec 0 (Nat.max size capacity)) as [Hp|Hp]; cbn [default from_option id].
  - rewrite repeat_length. split_and!; [done|done|lia| |apply Forall_drop, blank_repeat].
    replace (Nat.max size capacity) with (size + (capacity - size)) by lia. rewrite repeat_app.
    apply take_app_length'. by rewrite repeat_length.
  - replace size with 0 by lia. replace capacity with 0 by lia. done.
Qed.

Lemma z_new_keeps c size capacity : keeps c (repeat None size) (z_new size capacity).
Proof. exists size. rewrite repeat_length. split_and!; [done|apply z_new_fine|done]. Qed.

Lemma from_keeps c h data capacity s :
  wiped s -> post (z_from h data (length data) capacity) (fun _ => on h (keeps c data) s) s.
Proof.
  intros Hw. unfold z_from. apply post_bind. eapply post_mono; [apply (zput_spec h _ (keeps c (repeat None (length data)))); [apply z_new_keeps|done]|].
  intros [] s1 H1. pose proof (on_get _ _ _ _ H1) as (b1 & Hb1 & Hk1 & Hw1).
  eapply post_mono; [eapply Write_keeps; [done|exact Hk1|done|by rewrite repeat_length]|]. intros [] s2 H2.
  eapply on_mono; [by eapply on_trans|]. intros b2. rewrite take_0, drop_ge, app_nil_r by (by rewrite repeat_length). done.
Qed.

(** ** Vectors

    A buffer that was moved from has no vector: only assignment, [Clear], [swap]
    and the destructor may be called. *)

Abbreviation zvectors := (gmap nat (option mem)).

Definition znew (h : nat) (v : mem) (a : zvectors) : option zvectors :=
  match a !! h with None => Some (<[h := Some v]> a) | Some _ => None end.
Definition zchange (h : nat) (f : mem -> option mem) (a : zvectors) : option zvectors :=
  v ← a !! h; v ← v; w ← f v; Some (<[h := Some w]> a).

Definition zspec_do (o : z_op) (a : zvectors) : option zvectors :=
  match o with
  | ZSized h size _ => znew h (repeat None size) a
  | ZFrom h data _ => znew h (mem_of data) a
  | ZMove h g => v ← a !! g; v ← v; znew h v (<[g := None]> a)
  | ZMoveAssign h g => v ← a !! g; v ← v; _ ← a !! h; Some (<[g := None]> (<[h := Some v]> a))
  | ZSwap h g => v ← a !! h; w ← a !! g; Some (<[g := v]> (<[h := w]> a))
  | ZAppendData h data => zchange h (fun v => Some (v ++ mem_of data)) a
  | ZSetData h data => zchange h (fun _ => Some (mem_of data)) a
  | ZAppendSetter h n data written =>
      zchange h (fun v => if (length data <=? n) && (written <=? n) then Some (v ++ setter_bytes (mem_of data) written) else None) a
  | ZSetSetter h n data written =>
      zchange h (fun _ => if (length data <=? n) && (written <=? n) then Some (setter_bytes (mem_of data) written) else None) a
  | ZSetSize h size => zchange h (fun v => Some (take size v ++ repeat None (size - length v))) a
  | ZEnsureCapacity h _ => zchange h Some a
  | ZClear h => _ ← a !! h; Some (<[h := Some []]> a)
  | ZWrite h i data =>
      zchange h (fun v => if (i <? length v) && (i + length data <=? length v)
                          then Some (take i v ++ mem_of data ++ drop (i + length data) v) else None) a
  | ZDestroy h => _ ← a !! h; Some (delete h a)
  end.

Fixpoint zspec_run (os : list z_op) (a : zvectors) : option zvectors :=
  match os with [] => Some a | o :: os => a ← zspec_do o a; zspec_run os a end.

(** A setter that returns at least what it wrote. *)
Definition careful (o : z_op) : bool :=
  match o with ZAppendSetter _ _ data written | ZSetSetter _ _ data written => length data <=? written | _ => true end.

Definition zmatch (c : bool) (v : option mem) (b : ZBuffer) : Prop :=
  match v with
  | Some v => exists w, Forall2 agree v w /\ keeps c w b
  | None => b = moved_from debug
  end.

Definition zinv (c : bool) (a : zvectors) (s : zheap) : Prop :=
  wiped s /\ forall h, option_Forall2 (zmatch c) (a !! h) (z_bufs s !! h).

Lemma zinv_some c a s h v : zinv c a s -> a !! h = Some v -> exists b, z_bufs s !! h = Some b /\ zmatch c v b.
Proof. intros [_ Hi] Ev. specialize (Hi h). rewrite Ev in Hi. inversion Hi as [? b Hb|]; subst. eauto. Qed.

Lemma zinv_on c a h v s s' : zinv c a s -> on h (zmatch c v) s s' -> zinv c (<[h := v]> a) s'.
Proof.
  intros [_ Hi] [(b & E & Hb) Hw]. split; [done|]. intros k. rewrite E. destruct (decide (k = h)) as [->|Hne].
  - rewrite !lookup_insert_eq. by constructor.
  - rewrite !lookup_insert_ne by done. apply Hi.
Qed.

Lemma zinv_change c h f a a' s (m : Zm ()) :
  zinv c a s -> zchange h f a = Some a' ->
  (forall b v v' w, z_bufs s !! h = Some b -> f v = Some v' -> Forall2 agree v w -> keeps c w b ->
     post m (fun _ => on h (zmatch c (Some v')) s) s) ->
  post m (fun _ => zinv c a') s.
Proof.
  intros Hi Ha Hm. unfold zchange in Ha. destruct (a !! h) as [[v|]|] eqn:Ev; try done. cbn in Ha.
  destruct (f v) as [v'|] eqn:Ef; [|done]. injection Ha as <-.
  destruct (zinv_some _ _ _ _ _ Hi Ev) as (b & Hb & w & Hv & Hk). eapply post_mono; [by eapply Hm|].
  intros [] s' Hs'. by eapply zinv_on.
Qed.

Lemma zinv_new c h v a a' s (m : Zm ()) :
  zinv c a s -> znew h v a = Some a' -> (wiped s -> post m (fun _ => on h (keeps c v) s) s) -> post m (fun _ => zinv c a') s.
Proof.
  intros Hi Ha Hm. unfold znew in Ha. destruct (a !! h) as [w|] eqn:Ev; [done|]. injection Ha as <-.
  eapply post_mono; [apply Hm, Hi|]. intros [] s' Hs'. eapply zinv_on; [done|]. eapply on_mono; [done|]. intros b Hb. by exists v.
Qed.

(** From the contents of an operation to the match with the vector. *)
Lemma keeps_match c h (m : Zm ()) v w s :
  Forall2 agree v w -> post m (fun _ => on h (keeps c w) s) s -> post m (fun _ => on h (zmatch c (Some v)) s) s.
Proof.
  intros Hv Hm. eapply post_mono; [exact Hm|]. intros [] s' Hs'. eapply on_mono; [done|]. intros b Hb. by exists w.
Qed.

(** Two buffers at once. *)
Lemma zinv_two c a h g v w b d s s' :
  zinv c a s -> z_bufs s' = <[g := d]> (<[h := b]> (z_bufs s)) -> wiped s' -> zmatch c v b -> zmatch c w d ->
  zinv c (<[g := w]> (<[h := v]> a)) s'.
Proof.
  intros [_ Hi] E Hw Hb Hd. split; [done|]. intros k. rewrite E. destruct (decide (k = g)) as [->|].
  - rewrite !lookup_insert_eq. by constructor.
  - rewrite !(lookup_insert_ne _ g) by done. destruct (decide (k = h)) as [->|].
    + rewrite !lookup_insert_eq. by constructor.
    + rewrite !lookup_insert_ne by done. apply Hi.
Qed.

(** Wiping any buffer there is, moved from or not. *)
Lemma wipe_any c v b :
  zmatch c v b ->
  exists p, MaybeZeroCompleteBuffer b = Done (mkZ (z_size b) (z_capacity b) p)
    /\ (forall d, p = Some d -> zeros d) /\ keeps c [] (mkZ 0 (z_capacity b) p).
Proof.
  intros Hb. destruct v as [v|]; cbn in Hb.
  - destruct Hb as (w & _ & (k & _ & (Hz & _) & _)). eexists. split; [by apply MaybeZero_spec|].
    split; [destruct (z_data b); intros d [= <-]; apply zeros_repeat|]. by apply keeps_wiped.
  - subst b. exists None. split; [done|]. split; [done|]. exists 0. unfold fine, zcons, clean. cbn. by split_and!.
Qed.

Lemma wiped_free p s bufs :
  wiped s -> (forall d, p = Some d -> zeros d) ->
  wiped (mkZheap bufs (match p with None => z_freed s | Some d => d :: z_freed s end)).
Proof. intros Hw Hp. destruct p; [|done]. constructor; [by apply Hp|done]. Qed.

Lemma setter_agree data written w w' v v' :
  Forall2 agree v v' -> Forall2 agree (setter_bytes data written) w -> w' = v' ++ w ->
  Forall2 agree (v ++ setter_bytes data written) w'.
Proof. intros ? ? ->. by apply Forall2_app. Qed.

Lemma do_zinv_one c o a a' s :
  match o with ZMove _ _ | ZMoveAssign _ _ | ZSwap _ _ | ZDestroy _ | ZClear _ => False | _ => True end ->
  (c = true -> careful o = true) ->
  zinv c a s -> zspec_do o a = Some a' -> post (z_do debug o) (fun _ => zinv c a') s.
Proof.
  intros Ho Hcare Hi Ha. pose proof (proj1 Hi) as Hw. destruct o; try done; cbn [zspec_do z_do careful] in *;
    rewrite <- ?(length_mem_of data) in *;
    first [eapply zinv_new; [done..|]; intros _ | eapply zinv_change; [done..|]; intros b u u' w Hb Hu Hv Hk].
  - apply zput_spec; [apply z_new_keeps|done].
  - by apply from_keeps.
  - injection Hu as <-. eapply keeps_match; [by apply Forall2_app|]. by eapply AppendData_keeps.
  - injection Hu as <-. eapply keeps_match; [done|]. by eapply SetData_keeps.
  - destruct (Nat.leb_spec (length (mem_of data)) max_elements); [|done]. destruct (Nat.leb_spec written max_elements); [|done].
    injection Hu as <-. rewrite Nat.leb_le in Hcare. eapply post_mono; [by eapply AppendSetter_keeps|].
    intros [] s' Hs'. eapply on_mono; [done|]. intros b' (x & Hx & Hk'). eexists. split; [by eapply setter_agree|exact Hk'].
  - destruct (Nat.leb_spec (length (mem_of data)) max_elements); [|done]. destruct (Nat.leb_spec written max_elements); [|done].
    injection Hu as <-. rewrite Nat.leb_le in Hcare. eapply post_mono; [by eapply SetSetter_keeps|].
    intros [] s' Hs'. eapply on_mono; [done|]. intros b' (x & Hx & Hk'). eexists. by split.
  - injection Hu as <-. eapply post_mono; [by eapply SetSize_keeps|].
    intros [] s' Hs'. eapply on_mono; [done|]. intros b' (more & Em & Hk'). eexists. split; [|exact Hk'].
    apply Forall2_app; [by apply Forall2_take|]. apply agree_more. by rewrite Em, (Forall2_length _ _ _ Hv).
  - injection Hu as <-. eapply keeps_match; [done|]. by eapply EnsureCapacity_keeps.
  - cbn beta in Hu. destruct (Nat.ltb_spec i (length u)); [|done]. destruct (Nat.leb_spec (i + length (mem_of data)) (length u)); [|done].
    injection Hu as <-. pose proof (Forall2_length _ _ _ Hv) as El.
    eapply keeps_match; [|eapply z_write_keeps; [done|done|done|lia|lia]].
    apply Forall2_app; [by apply Forall2_take|]. apply Forall2_app; [done|]. by apply Forall2_drop.
Qed.

Lemma do_zinv_two c o a a' s :
  match o with ZMove _ _ | ZMoveAssign _ _ | ZSwap _ _ | ZDestroy _ | ZClear _ => True | _ => False end ->
  zinv c a s -> zspec_do o a = Some a' -> post (z_do debug o) (fun _ => zinv c a') s.
Proof.
  intros Ho Hi Ha. pose proof (proj1 Hi) as Hw. destruct o; try done; cbn [zspec_do z_do] in *.
  - destruct (a !! g) as [[v|]|] eqn:Ev; try done. cbn [mbind option_bind] in Ha. unfold znew in Ha.
    destruct (<[g:=None]> a !! h) eqn:Eh; [done|]. injection Ha as <-. apply lookup_insert_None in Eh as [Eh Hne].
    destruct (zinv_some _ _ _ _ _ Hi Ev) as (b & Hb & Hm). pose proof Hm as (w & Hv & Hk). pose proof Hk as (k & _ & (Hz & _) & _).
    unfold z_move. zget Hb. zcheck Hz. apply post_bind.
    unfold post, zput, put, upd_bufs. cbn. rewrite insert_insert_ne by done.
    by eapply (zinv_two c a h g (Some v) None b (moved_from debug)).
  - destruct (a !! g) as [[v|]|] eqn:Ev; try done. destruct (a !! h) as [u|] eqn:Eh; [|done]. injection Ha as <-.
    destruct (zinv_some _ _ _ _ _ Hi Ev) as (b & Hb & Hm). pose proof Hm as (w & Hv & Hk). pose proof Hk as (k & _ & (Hz & _) & _).
    destruct (zinv_some _ _ _ _ _ Hi Eh) as (d & Hd & Hu). destruct (wipe_any _ _ _ Hu) as (q & Eq & Hq & _).
    unfold z_move_assign. zget Hb. zcheck Hz. zget Hd. zdone Eq. set (zd := mkZ _ _ q).
    apply post_bind. unfold post at 1, zput, put, upd_bufs. cbn [z_bufs z_freed].
    assert (exists x, <[h:=zd]> (z_bufs s) !! g = Some x /\ <[g:=moved_from debug]> (<[h:=x]> (z_bufs s)) = <[g:=moved_from debug]> (<[h:=b]> (z_bufs s)))
      as (x & Ex & E).
    { destruct (decide (h = g)) as [->|Hne].
      - exists zd. by rewrite lookup_insert_eq, !insert_insert_eq.
      - exists b. by rewrite lookup_insert_ne. }
    zget Ex. apply post_bind. unfold post at 1, put, upd_bufs, zput. cbn [z_bufs z_freed].
    apply post_bind. unfold post, zfree, zput, put, upd_bufs. cbn [z_bufs z_freed z_data]. rewrite insert_insert_eq, E.
    eapply (zinv_two c a h g (Some v) None b (moved_from debug)); [done|done| |done|done]. by apply wiped_free.
  - destruct (a !! h) as [v|] eqn:Ev; [|done]. destruct (a !! g) as [u|] eqn:Eg; [|done]. injection Ha as <-.
    destruct (zinv_some _ _ _ _ _ Hi Ev) as (b & Hb & Hv).
    destruct (zinv_some _ _ _ _ _ Hi Eg) as (d & Hd & Hu).
    unfold z_swap. zget Hb. zget Hd. apply post_bind. unfold post, zput, put, upd_bufs. cbn.
    by eapply (zinv_two c a h g u v d b).
  - destruct (a !! h) as [v|] eqn:Ev; [|done]. injection Ha as <-.
    destruct (zinv_some _ _ _ _ _ Hi Ev) as (b & Hb & Hv). destruct (wipe_any _ _ _ Hv) as (q & Eq & _ & Hk).
    unfold z_Clear. zget Hb. zdone Eq. eapply post_mono; [eapply (zput_spec h _ (zmatch c (Some []))); [by exists []|done]|].
    intros [] s' Hs'. by eapply zinv_on.
  - destruct (a !! h) as [v|] eqn:Ev; [|done]. injection Ha as <-.
    destruct (zinv_some _ _ _ _ _ Hi Ev) as (b & Hb & Hv). destruct (wipe_any _ _ _ Hv) as (q & Eq & Hq & _).
    unfold z_destroy. zget Hb. zdone Eq. apply post_bind. unfold post, zfree, put, upd_bufs. cbn [z_bufs z_freed z_data].
    split; [by apply wiped_free|]. cbn [z_bufs]. intros j. destruct (decide (j = h)) as [->|Hne].
    + rewrite !lookup_delete_eq. constructor.
    + rewrite !lookup_delete_ne by done. apply Hi.
Qed.

Lemma do_zinv c o a a' s :
  (c = true -> careful o = true) -> zinv c a s -> zspec_do o a = Some a' -> post (z_do debug o) (fun _ => zinv c a') s.
Proof.
  intros Hc Hi Ha. destruct o; try (by eapply do_zinv_one); by eapply do_zinv_two.
Qed.

Lemma run_zinv c os a a' s :
  (c = true -> forallb careful os = true) -> zinv c a s -> zspec_run os a = Some a' -> post (z_run debug os) (fun _ => zinv c a') s.
Proof.
  revert a s. induction os as [|o os IH]; intros a s Hc Hi Ha; cbn in *.
  - injection Ha as <-. by apply post_ret.
  - destruct (zspec_do o a) as [a1|] eqn:E; [|done]. apply post_bind.
    eapply post_mono; [eapply do_zinv; [|done|done]; intros Ec; by apply andb_true_iff in Hc as [? _]|].
    intros [] s1 H1. eapply IH; [|done|done]. intros Ec. by apply andb_true_iff in Hc as [_ ?].
Qed.

Definition no_zbuffers : zheap := mkZheap ∅ [].

Lemma no_zbuffers_inv c : zinv c ∅ no_zbuffers.
Proof. split; [constructor|]. intros h. cbn. rewrite !lookup_empty. constructor. Qed.

(** C38: buffers that are wiped on release.  Whatever constructors, moves,
    assignments, writes, size changes and destructors run on buffers that exist,
    and on a buffer that was moved from only what may be, each buffer has the
    bytes of its vector, every block that goes back to the allocator holds zeros
    only, and, if no setter writes more than it returns, the part of a block
    behind the size holds nothing that was ever stored.  It makes no difference
    whether assertions are on. *)
Theorem buffers_wiped os a :
  zspec_run os ∅ = Some a ->
  exists s, z_run debug os no_zbuffers = Done ((), s)
    /\ (forall h, option_Forall2 (fun v b => match v with Some v => Forall2 agree v (zvis b) | None => z_data b = None end)
         (a !! h) (z_bufs s !! h))
    /\ (forall d, d ∈ z_freed s -> d = repeat (Some x00) (length d))
    /\ (forallb careful os = true -> forall h b, z_bufs s !! h = Some b -> Forall blank (drop (z_size b) (cells b))).
Proof.
  intros Ha. set (c := forallb careful os).
  pose proof (run_zinv c os ∅ a no_zbuffers (fun e => e) (no_zbuffers_inv c) Ha) as Hp.
  apply post_Done in Hp as ([] & s & E & Hw & Hi). exists s. split_and!; [done| | |].
  - intros h. destruct (Hi h) as [[v|] b Hb|]; constructor; [|by rewrite Hb].
    destruct Hb as (w & Hv & (k & _ & (_ & Ev & _) & _)). by rewrite Ev.
  - intros d Hd. by apply (Forall_forall zeros (z_freed s)).
  - intros Hc h b Hb. specialize (Hi h). rewrite Hb in Hi. inversion Hi as [v b' Hm E1 E2|]; subst.
    destruct v as [v|]; [|rewrite Hm; unfold cells; cbn; by rewrite drop_nil].
    destruct Hm as (w & _ & (k & _ & Hf & Hk)).
    pose proof (fine_size _ _ _ Hf) as El. rewrite (Hk Hc), El in Hf. apply Hf.
Qed.

(** ** The keys *)

Lemma z_then {B} o (k : Zm B) Q a a' s :
  careful o = true -> zinv true a s -> zspec_do o a = Some a' ->
  (forall s', zinv true a' s' -> post k Q s') -> post (z_do debug o ≫= fun _ => k) Q s.
Proof.
  intros Hc Hi Ha Hk. apply post_bind. eapply post_mono; [by eapply (do_zinv true)|]. intros [] s'. apply Hk.
Qed.

Lemma z_copy_then {B} h i y n v (k : Zm B) Q a s :
  zinv true a s -> a !! h = Some (Some v) -> n = length y -> i < length v -> i + n <= length v ->
  (forall s', zinv true (<[h := Some (take i v ++ mem_of y ++ drop (i + n) v)]> a) s' -> post k Q s') ->
  post (z_write debug h i (mem_of y) n ≫= fun _ => k) Q s.
Proof.
  intros Hi Ha -> Hlt Hl Hk. eapply (z_then (ZWrite h i y)); [done|done| |exact Hk].
  cbn [zspec_do]. unfold zchange. rewrite Ha. cbn [mbind option_bind].
  replace (_ && _) with true; [done|]. symmetry. by rewrite andb_true_iff, Nat.ltb_lt, Nat.leb_le.
Qed.

Lemma agree_bytes x w : Forall2 agree (mem_of x) w -> w = mem_of x.
Proof.
  revert w. induction x as [|b x IH]; intros w H; inversion H as [|? c ? w' Hb Hw]; subst; [done|].
  destruct Hb as [?|<-]; [done|]. cbn. f_equal. by apply IH.
Qed.

Lemma z_read_then {B} h i n x (k : mem -> Zm B) Q a s :
  zinv true a s -> a !! h = Some (Some (mem_of x)) -> i < length x -> i + n <= length x ->
  post (k (mem_of (take n (drop i x)))) Q s -> post (z_read debug h i n ≫= k) Q s.
Proof.
  intros Hi Ha Hlt Hn Hk. destruct (zinv_some _ _ _ _ _ Hi Ha) as (b & Hb & w & Hw%agree_bytes & (k' & _ & Hf & _)). subst w.
  pose proof (fine_size _ _ _ Hf) as El. pose proof (cells_split _ _ _ Hf) as Ec.
  apply post_bind. unfold z_read. apply post_bind.
  eapply z_at_spec; [done|done|by rewrite length_mem_of|]. rewrite length_mem_of in *.
  unfold cells in Ec. destruct (z_data b) as [d|] eqn:Ed.
  - cbn [default from_option id] in Ec.
    assert (mslice d (Z.of_nat i) (Z.of_nat n) = Done (mem_of (take n (drop i x)))) as E.
    { rewrite Ec. rewrite <- (take_drop i x) at 1. rewrite <- (take_drop n (drop i x)) at 1. rewrite !mem_of_app, <- !app_assoc.
      by rewrite mslice_app by (rewrite length_mem_of, length_take, ?length_drop; lia). }
    unfold post at 1, zdo. rewrite E. exact Hk.
  - destruct Hf as (Hz & _). unfold zcons in Hz. rewrite Ed in Hz. lia.
Qed.

Lemma key_bytes_then {B} h x (k : bytes -> Zm B) Q a s :
  zinv true a s -> a !! h = Some (Some (mem_of x)) -> 0 < length x -> post (k x) Q s -> post (key_bytes debug h ≫= k) Q s.
Proof.
  intros Hi Ha Hx Hk. destruct (zinv_some _ _ _ _ _ Hi Ha) as (b & Hb & w & Hw%agree_bytes & (k' & _ & Hf & _)). subst w.
  pose proof (fine_size _ _ _ Hf) as El. rewrite length_mem_of in El. apply post_bind. unfold key_bytes. zget Hb.
  eapply z_read_then; [done|done|lia|lia|]. unfold post, zdo. rewrite drop_0, <- El, firstn_all, cells_bytes_mem_of. exact Hk.
Qed.

Lemma zinv_empty s : zinv true ∅ s -> z_bufs s = ∅ /\ forall d, d ∈ z_freed s -> d = repeat (Some x00) (length d).
Proof.
  intros [Hw Hi]. split.
  - apply map_empty. intros h. specialize (Hi h). rewrite lookup_empty in Hi. by inversion Hi.
  - intros d Hd. by apply (Forall_forall zeros (z_freed s)).
Qed.

(** A key and its salt, copied into an unwritten buffer one after the other. *)
Lemma two_copies (x y : bytes) n m :
  n = length x -> m = length y ->
  let v := take 0 (repeat None (n + m)) ++ mem_of x ++ drop (0 + n) (repeat (@None byte) (n + m)) in
  length v = n + m /\ take n v ++ mem_of y ++ drop (n + m) v = mem_of (x ++ y).
Proof.
  intros -> -> v. assert (v = mem_of x ++ repeat None (length y)) as ->.
  { unfold v. rewrite take_0, repeat_app, drop_app_length' by (by rewrite repeat_length). done. }
  rewrite length_app, length_mem_of, repeat_length. split; [done|].
  rewrite take_app_length', drop_ge, mem_of_app, app_nil_r; rewrite ?length_app, ?length_mem_of, ?repeat_length; done.
Qed.

Definition two_empty : zvectors := <[1 := Some []]> (<[0 := Some []]> ∅).
Definition two_keys (client server : bytes) : zvectors := <[1 := Some (mem_of client)]> (<[0 := Some (mem_of server)]> ∅).

Lemma extract_nothing key_len salt_len s :
  zinv true two_empty s ->
  post (extract_keys debug key_len salt_len None) (fun ok s' => ok = false /\ zinv true two_empty s') s.
Proof.
  intros Hi. unfold extract_keys.
  eapply (z_then (ZSized 2 (key_len * 2 + salt_len * 2) 0)); [done|exact Hi|reflexivity|]. intros s1 H1.
  eapply (z_then (ZDestroy 2)); [done|exact H1|reflexivity|]. intros s2 H2. apply post_ret. by split.
Qed.

Lemma extract_keys_spec key_len salt_len m s :
  0 < key_len -> 0 < salt_len -> length m = key_len * 2 + salt_len * 2 -> zinv true two_empty s ->
  post (extract_keys debug key_len salt_len (Some m)) (fun ok s' => ok = true /\
    zinv true (let '(client, server) := split_keying_material key_len salt_len m in two_keys client server) s') s.
Proof.
  intros Hkl Hsl Em Hi. unfold extract_keys, split_keying_material.
  set (ck := take key_len m). set (cs := take salt_len (drop (key_len + key_len) m)).
  set (sk := take key_len (drop key_len m)). set (ss := take salt_len (drop (key_len + key_len + salt_len) m)).
  assert (key_len = length ck) as Eck by (unfold ck; rewrite length_take; lia).
  assert (key_len = length sk) as Esk by (unfold sk; rewrite length_take, length_drop; lia).
  assert (salt_len = length cs) as Ecs by (unfold cs; rewrite length_take, length_drop; lia).
  assert (salt_len = length ss) as Ess by (unfold ss; rewrite length_take, length_drop; lia).
  destruct (two_copies ck cs key_len salt_len Eck Ecs) as [Lc Vc].
  destruct (two_copies sk ss key_len salt_len Esk Ess) as [Ls Vs].
  eapply (z_then (ZSized 2 (key_len * 2 + salt_len * 2) 0)); [done|exact Hi|reflexivity|]. clear s Hi. intros s Hi.
  eapply (z_copy_then 2 0 m); [exact Hi|reflexivity|done|rewrite repeat_length; lia|by rewrite repeat_length, Em|]. clear s Hi. intros s Hi.
  assert (take 0 (repeat (@None byte) (key_len * 2 + salt_len * 2)) ++ mem_of m ++ drop (0 + length m) (repeat None (key_len * 2 + salt_len * 2))
    = mem_of m) as E2 by (rewrite take_0, drop_ge, app_nil_r by (rewrite repeat_length; lia); done).
  rewrite E2 in Hi. clear E2.
  eapply (z_then (ZSized 3 (key_len + salt_len) 0)); [done|exact Hi|reflexivity|]. clear s Hi. intros s Hi.
  eapply (z_then (ZSized 4 (key_len + salt_len) 0)); [done|exact Hi|reflexivity|]. clear s Hi. intros s Hi.
  eapply (z_read_then 2 0 key_len m); [exact Hi|reflexivity|lia|lia|]. rewrite drop_0. fold ck.
  eapply (z_copy_then 3 0 ck key_len); [exact Hi|reflexivity|exact Eck|rewrite repeat_length; lia|rewrite repeat_length; lia|]. clear s Hi. intros s Hi.
  eapply (z_read_then 2 key_len key_len m); [exact Hi|reflexivity|lia|lia|]. fold sk.
  eapply (z_copy_then 4 0 sk key_len); [exact Hi|reflexivity|exact Esk|rewrite repeat_length; lia|rewrite repeat_length; lia|]. clear s Hi. intros s Hi.
  eapply (z_read_then 2 (key_len + key_len) salt_len m); [exact Hi|reflexivity|lia|lia|]. fold cs.
  eapply (z_copy_then 3 key_len cs salt_len); [exact Hi|reflexivity|exact Ecs|rewrite Lc; lia|by rewrite Lc|]. clear s Hi. intros s Hi.
  rewrite Vc in Hi.
  eapply (z_read_then 2 (key_len + key_len + salt_len) salt_len m); [exact Hi|reflexivity|lia|lia|]. fold ss.
  eapply (z_copy_then 4 key_len ss salt_len); [exact Hi|reflexivity|exact Ess|rewrite Ls; lia|by rewrite Ls|]. clear s Hi. intros s Hi.
  rewrite Vs in Hi.
  eapply (z_then (ZMoveAssign 0 4)); [done|exact Hi|reflexivity|]. clear s Hi. intros s Hi.
  eapply (z_then (ZMoveAssign 1 3)); [done|exact Hi|reflexivity|]. clear s Hi. intros s Hi.
  eapply (z_then (ZDestroy 4)); [done|exact Hi|reflexivity|]. clear s Hi. intros s Hi.
  eapply (z_then (ZDestroy 3)); [done|exact Hi|reflexivity|]. clear s Hi. intros s Hi.
  eapply (z_then (ZDestroy 2)); [done|exact Hi|reflexivity|]. clear s Hi. intros s Hi.
  apply post_ret. split; [done|exact Hi].
Qed.

(** C16: the keys of a handshake.  From what the engine exports the send and the
    receive key are cut as the server's and the client's, libsrtp is called with
    them, and when the function returns no buffer is left and every block that
    held key material went back wiped; when nothing could be exported, as well.
    No assertion fails. *)
Theorem keys_wiped key_len salt_len (material : option bytes) :
  0 < key_len -> 0 < salt_len -> (forall m, material = Some m -> length m = key_len * 2 + salt_len * 2) ->
  exists s, setup_keys debug key_len salt_len material no_zbuffers
      = Done ((fun m => let '(client, server) := split_keying_material key_len salt_len m in (server, client)) <$> material, s)
    /\ z_bufs s = ∅ /\ forall d, d ∈ z_freed s -> d = repeat (Some x00) (length d).
Proof.
  intros Hkl Hsl Hm.
  enough (post (setup_keys debug key_len salt_len material) (fun r s =>
    r = ((fun m => let '(client, server) := split_keying_material key_len salt_len m in (server, client)) <$> material) /\ zinv true ∅ s)
    no_zbuffers) as (r & s & E & -> & Hi)%post_Done.
  { exists s. split; [exact E|]. by apply zinv_empty. }
  unfold setup_keys. eapply (z_then (ZSized 0 0 0)); [done|apply no_zbuffers_inv|reflexivity|]. intros s1 H1.
  eapply (z_then (ZSized 1 0 0)); [done|exact H1|reflexivity|]. clear s1 H1. intros s2 H2.
  apply post_bind. destruct material as [m|].
  - eapply post_mono; [apply extract_keys_spec; [done|done|by apply Hm|exact H2]|]. clear s2 H2. intros ok s [-> Hi].
    cbn [fmap option_fmap option_map]. specialize (Hm m eq_refl).
    assert (0 < length (fst (split_keying_material key_len salt_len m)) /\ 0 < length (snd (split_keying_material key_len salt_len m))) as [Lc Ls].
    { unfold split_keying_material. cbn [fst snd]. rewrite !length_app, !length_take, !length_drop. lia. }
    destruct (split_keying_material key_len salt_len m) as [client server]. cbn [fst snd] in Lc, Ls.
    apply post_bind. eapply key_bytes_then; [exact Hi|reflexivity|exact Ls|]. eapply key_bytes_then; [exact Hi|reflexivity|exact Lc|].
    apply post_ret. eapply (z_then (ZDestroy 1)); [done|exact Hi|reflexivity|]. clear s Hi. intros s Hi.
    eapply (z_then (ZDestroy 0)); [done|exact Hi|reflexivity|]. clear s Hi. intros s Hi.
    apply post_ret. split; [done|exact Hi].
  - eapply post_mono; [by apply extract_nothing|]. clear s2 H2. intros ok s [-> Hi].
    apply post_bind, post_ret. eapply (z_then (ZDestroy 1)); [done|exact Hi|reflexivity|]. clear s Hi. intros s Hi.
    eapply (z_then (ZDestroy 0)); [done|exact Hi|reflexivity|]. clear s Hi. intros s Hi.
    apply post_ret. split; [done|exact Hi].
Qed.

End theory.

(** A key that grows, moves and shrinks. *)
Definition z_example : list z_op :=
  [ZFrom 0 (str "key") 0; ZAppendData 0 (str " and salt"); ZSized 1 4 0; ZMoveAssign 1 0; ZSetData 1 (str "x"); ZClear 0;
   ZSetSetter 0 4 (str "ab") 3; ZSetSize 1 5; ZDestroy 0].

Lemma buffers_wiped_witness :
  (exists a, zspec_run z_example ∅ = Some a /\ a !! 1 = Some (Some (mem_of (str "x") ++ repeat None 4)))
  /\ exists s, z_run true z_example no_zbuffers = Done ((), s) /\ length (z_freed s) = 3.
Proof.
  split; [eexists; split; [vm_compute; reflexivity|vm_compute; reflexivity]|].
  destruct (zspec_run z_example ∅) as [a|] eqn:E; [|vm_compute in E; discriminate E].
  destruct (buffers_wiped true z_example a E) as (s & Er & _). exists s. split; [exact Er|].
  vm_compute in Er. injection Er as <-. reflexivity.
Defined.

Lemma keys_wiped_witness :
  let m := map z_byte (seqZ 0 60) in
  exists s, setup_keys true 16 14 (Some m) no_zbuffers
      = Done (Some (map z_byte (seqZ 16 16 ++ seqZ 46 14), map z_byte (seqZ 0 16 ++ seqZ 32 14)), s)
    /\ z_bufs s = ∅ /\ forall d, d ∈ z_freed s -> d = repeat (Some x00) (length d).
Proof.
  destruct (keys_wiped true 16 14 (Some (map z_byte (seqZ 0 60)))) as (s & E & H); [lia|lia|by intros m [= <-]|].
  exists s. split; [etransitivity; [exact E|]|exact H]. vm_compute. reflexivity.
Defined.
