(* ===== verification/DtlsTheory.v ===== *)
(** * Theory of the DTLS and DTLS-SRTP transports

    The invariant of the pair, that every input keeps it and ends normally,
    and what the important inputs do. *)

From S2P Require Import Prelude ByteBuffer State Rtp Srtp Dtls.
Local Open Scope Z_scope.

Section invariant.
Context `{SrtpLib} `{DtlsEnv}.

(** [others] is the number of libsrtp's users outside these transports. *)
Record media_inv (others : Z) (m : media) : Prop := {
  mi_paired : sessions_paired (x_srtp m);
  mi_active : is_srtp_active (x_srtp m) = true -> d_state m = dtls_connected;
  mi_engine : d_state m = dtls_connecting \/ d_state m = dtls_connected -> d_ssl m = true;
  mi_stream : d_ssl m = true -> is_Some (d_downward m);
  mi_cert : d_active m = true -> is_Some (d_local_certificate m);
  mi_users : other_users (x_srtp m) = others;
}.

(** What the handlers of signals leave alone. *)
Record steady (m m' : media) : Prop := {
  sd_ssl : d_ssl m' = d_ssl m;
  sd_cert : d_local_certificate m' = d_local_certificate m;
  sd_active : d_active m' = d_active m;
  sd_fp : d_remote_fingerprint m' = d_remote_fingerprint m;
  sd_ice : m_ice_writable m' = m_ice_writable m;
}.

Definition kept (others : Z) (m : media) : forall {A}, A -> media -> Prop :=
  fun _ _ m' => media_inv others m' /\ steady m m'.

Lemma steady_refl m : steady m m.
Proof. done. Qed.

Lemma steady_trans m1 m2 m3 : steady m1 m2 -> steady m2 m3 -> steady m1 m3.
Proof. intros [? ? ? ? ?] [? ? ? ? ?]. split; congruence. Qed.

(** The fields the invariant reads are the same. *)
Definition same_core (m m' : media) : Prop :=
  x_srtp m' = x_srtp m /\ d_state m' = d_state m /\ d_downward m' = d_downward m /\ steady m m'.

Lemma same_core_inv n m m' : same_core m m' -> media_inv n m -> media_inv n m'.
Proof.
  intros (E1 & E2 & E3 & [S1 S2 S3 S4 S5]) [I1 I2 I3 I4 I5 I6].
  split; rewrite ?E1, ?E2, ?E3, ?S1, ?S2, ?S3; done.
Qed.

Lemma same_core_kept n m m' {A} (a : A) : same_core m m' -> media_inv n m -> kept n m a m'.
Proof. intros Hs Hi. split; [by eapply same_core_inv|apply Hs]. Qed.

Lemma media_kept_bind {A B} n (p : St media A) (k : A -> St media B) m :
  post p (kept n m) m ->
  (forall a m', media_inv n m' -> steady m m' -> post (k a) (kept n m') m') ->
  post (p ≫= k) (kept n m) m.
Proof.
  intros Hp Hk. apply post_bind. eapply post_mono; [exact Hp|]. intros a m1 [Hi Hs].
  eapply post_mono; [by apply Hk|]. intros b m2 [Hi2 Hs2]. split; [done|]. by eapply steady_trans.
Qed.

Lemma media_get_bind {A B} n (f : media -> A) (k : A -> St media B) m :
  post (k (f m)) (kept n m) m -> post (get f ≫= k) (kept n m) m.
Proof. done. Qed.

Lemma media_kept_ret {A} n (a : A) m : media_inv n m -> post (mret a) (kept n m) m.
Proof. intros Hi. by apply same_core_kept. Qed.

Lemma out_event_kept n e m : media_inv n m -> post (out_event e) (kept n m) m.
Proof. intros Hi. by apply same_core_kept. Qed.

Lemma call_kept n m : media_inv n m -> post call (kept n m) m.
Proof. intros Hi. by apply same_core_kept. Qed.

Lemma channel_send_kept n p m : media_inv n m -> post (channel_send p) (kept n m) m.
Proof. intros Hi. by apply same_core_kept. Qed.

Lemma set_writable_state_kept n b m : media_inv n m -> post (set_writable_state b) (kept n m) m.
Proof.
  intros Hi. unfold set_writable_state. apply media_get_bind. case_bool_decide; [by apply media_kept_ret|].
  by apply same_core_kept.
Qed.

Lemma dtls_set_receiving_kept n b m : media_inv n m -> post (dtls_set_receiving b) (kept n m) m.
Proof.
  intros Hi. unfold dtls_set_receiving. apply media_get_bind. case_bool_decide; [by apply media_kept_ret|].
  by apply same_core_kept.
Qed.

Lemma downward_kept n s m :
  media_inv n m -> kept n m () (upd_d_downward (fun _ => Some s) m).
Proof.
  intros [I1 I2 I3 I4 I5 I6]. split; [|done]. split; try done.
Qed.

Lemma stream_read_kept n len m :
  media_inv n m -> d_ssl m = true -> post (stream_read len) (kept n m) m.
Proof.
  intros Hi Hssl. unfold stream_read. apply media_get_bind.
  destruct (mi_stream n m Hi Hssl) as [s ->]. destruct (sc_state s); [by apply media_kept_ret..|].
  destruct (ReadFront _ _) as [[p q]|]; [|by apply media_kept_ret].
  apply media_kept_bind; [by apply downward_kept|]. intros _ m1 Hi1 _. by apply media_kept_ret.
Qed.

Lemma on_received_packet_kept n p m :
  media_inv n m -> d_ssl m = true -> post (on_received_packet p) (kept n m) m.
Proof.
  intros Hi Hssl. unfold on_received_packet. apply media_get_bind.
  destruct (mi_stream n m Hi Hssl) as [s ->].
  apply media_kept_bind; [by apply downward_kept|]. intros _ m1 Hi1 _.
  apply media_kept_bind; [by apply out_event_kept|]. intros _ m2 Hi2 _. by apply media_kept_ret.
Qed.

Lemma handle_dtls_packet_kept n p m :
  media_inv n m -> d_ssl m = true -> post (handle_dtls_packet p) (kept n m) m.
Proof.
  intros Hi Hssl. unfold handle_dtls_packet. destruct (dtls_records_ok _ _); [|by apply media_kept_ret].
  by apply on_received_packet_kept.
Qed.

(** ** SRTP *)

Lemma paired_active t : sessions_paired t ->
  (is_srtp_active t = true /\ keyed (st_send t) /\ keyed (st_recv t)) \/
  (is_srtp_active t = false /\ st_send t = None /\ st_recv t = None).
Proof.
  unfold is_srtp_active. intros [[Hs Hr]|[Hs Hr]].
  - left. split; [|done]. destruct Hs as (? & ? & -> & _), Hr as (? & ? & -> & _). done.
  - right. by rewrite Hs, Hr.
Qed.

Lemma keyed_with_ctx s ctx old : ss_session s = Some old -> ss_inited s = true ->
  keyed (Some (with_ctx s ctx)).
Proof. intros Hs Hi. by exists (with_ctx s ctx), ctx. Qed.

(** A call on a keyed session leaves it keyed. *)
Definition session_call (f : SrtpSession -> option bytes * SrtpSession) : Prop :=
  forall s, keyed (Some s) -> keyed (Some (snd (f s))).

Lemma session_calls p max_len :
  session_call (session_protect_rtp p max_len) /\ session_call (session_protect_rtcp p max_len) /\
  session_call (session_unprotect_rtp p) /\ session_call (session_unprotect_rtcp p).
Proof.
  split_and!; intros s (x & ctx & [= <-] & Hc & Hi);
    unfold session_protect_rtp, session_protect_rtcp, session_unprotect_rtp, session_unprotect_rtcp;
    rewrite Hc.
  - destruct (_ <? _); [by exists s, ctx|]. destruct (lib_protect _ _). by eapply keyed_with_ctx.
  - destruct (_ <? _); [by exists s, ctx|]. destruct (lib_protect_rtcp _ _). by eapply keyed_with_ctx.
  - destruct (lib_unprotect _ _). by eapply keyed_with_ctx.
  - destruct (lib_unprotect_rtcp _ _). by eapply keyed_with_ctx.
Qed.

Lemma keyed_inited s : keyed s -> inited s = 1.
Proof. intros (x & ctx & -> & _ & Hi). cbn. by rewrite Hi. Qed.

(** The transport's sessions are replaced by keyed ones. *)
Lemma resession_kept n m s r {A} (a : A) :
  media_inv n m -> is_srtp_active (x_srtp m) = true -> keyed (Some s) -> keyed (Some r) ->
  kept n m a (upd_x_srtp (fun t => mkSrtp (Some s) (Some r) (st_global t)) m).
Proof.
  intros [I1 I2 I3 I4 I5 I6] Ha Hs Hr. split; [|done]. split; try done.
  - by left.
  - intros _. by apply I2.
  - rewrite <- I6. unfold other_users, transport_users. cbn [upd_x_srtp x_srtp st_send st_recv st_global].
    destruct (paired_active _ I1) as [(_ & Ks & Kr)|(Hn & _)]; [|congruence].
    by rewrite !keyed_inited.
Qed.

Lemma with_recv_kept n f m :
  session_call f -> media_inv n m -> is_srtp_active (x_srtp m) = true ->
  post (with_recv f) (kept n m) m.
Proof.
  intros Hf Hi Ha. unfold with_recv. apply post_run.
  destruct (paired_active _ (mi_paired n m Hi)) as [(_ & Ks & Kr)|(Hn & _)]; [|congruence].
  destruct Ks as (s & sc & Es & Ks), Kr as (r & rc & Er & Kr). rewrite Er.
  pose proof (Hf r) as Hr. destruct (f r) as [o r']. cbn [fst snd].
  unfold upd_x_srtp. cbv beta. rewrite Es.
  apply (resession_kept n m s r'); [done..|by exists s, sc|]. apply Hr. by exists r, rc.
Qed.

Lemma with_send_kept n f m :
  session_call f -> media_inv n m -> is_srtp_active (x_srtp m) = true ->
  post (with_send f) (kept n m) m.
Proof.
  intros Hf Hi Ha. unfold with_send. apply post_run.
  destruct (paired_active _ (mi_paired n m Hi)) as [(_ & Ks & Kr)|(Hn & _)]; [|congruence].
  destruct Ks as (s & sc & Es & Ks), Kr as (r & rc & Er & Kr). rewrite Es.
  pose proof (Hf s) as Hs. destruct (f s) as [o s']. cbn [fst snd].
  unfold upd_x_srtp. cbv beta. rewrite Er.
  apply (resession_kept n m s' r); [done..| |by exists r, rc]. apply Hs. by exists s, sc.
Qed.

Lemma on_rtp_packet_received_kept n p ts m :
  media_inv n m -> post (on_rtp_packet_received p ts) (kept n m) m.
Proof.
  intros Hi. unfold on_rtp_packet_received. apply media_get_bind.
  destruct (is_srtp_active (x_srtp m)) eqn:Ha; cbn [negb]; [|by apply media_kept_ret].
  apply media_kept_bind; [apply with_recv_kept; [apply (session_calls p 0)|done..]|].
  intros [q|] m1 Hi1 _; [by apply out_event_kept|by apply same_core_kept].
Qed.

Lemma on_rtcp_packet_received_kept n p ts m :
  media_inv n m -> post (on_rtcp_packet_received p ts) (kept n m) m.
Proof.
  intros Hi. unfold on_rtcp_packet_received. apply media_get_bind.
  destruct (is_srtp_active (x_srtp m)) eqn:Ha; cbn [negb]; [|by apply media_kept_ret].
  apply media_kept_bind; [apply with_recv_kept; [apply (session_calls p 0)|done..]|].
  intros [q|] m1 Hi1 _; [by apply out_event_kept|by apply media_kept_ret].
Qed.

Lemma srtp_on_read_packet_kept n p ts m :
  media_inv n m -> post (srtp_on_read_packet p ts) (kept n m) m.
Proof.
  intros Hi. unfold srtp_on_read_packet.
  destruct (infer_rtp_packet_type p);
    [by apply on_rtp_packet_received_kept|by apply on_rtcp_packet_received_kept|by apply media_kept_ret].
Qed.

Lemma send_rtp_kept n p m : media_inv n m -> post (send_rtp p) (kept n m) m.
Proof.
  intros Hi. unfold send_rtp. apply media_get_bind.
  destruct (is_srtp_active (x_srtp m)) eqn:Ha; cbn [negb]; [|by apply media_kept_ret]. cbv zeta.
  apply media_kept_bind; [apply with_send_kept; [apply session_calls|done..]|].
  intros [q|] m1 Hi1 _; [|by apply media_kept_ret].
  apply media_kept_bind; [by apply same_core_kept|]. intros _ m2 Hi2 _. by apply channel_send_kept.
Qed.

Lemma send_rtcp_kept n p m : media_inv n m -> post (send_rtcp p) (kept n m) m.
Proof.
  intros Hi. unfold send_rtcp. apply media_get_bind.
  destruct (is_srtp_active (x_srtp m)) eqn:Ha; cbn [negb]; [|by apply media_kept_ret]. cbv zeta.
  apply media_kept_bind; [apply with_send_kept; [apply session_calls|done..]|].
  intros [q|] m1 Hi1 _; [by apply channel_send_kept|by apply media_kept_ret].
Qed.

(** *** Setting up *)

Lemma extract_params_kept n m : media_inv n m -> post extract_params (kept n m) m.
Proof.
  intros Hi. unfold extract_params. apply media_get_bind. destruct (negb _); [by apply media_kept_ret|].
  apply media_kept_bind.
  { unfold get_srtp_crypto_suite. apply media_get_bind. case_bool_decide; [|by apply media_kept_ret].
    by apply same_core_kept. }
  intros [cs|] m1 Hi1 _; [|by apply media_kept_ret].
  destruct (GetSrtpKeyAndSaltLengths cs) as [[k l]|]; [|by apply media_kept_ret]. apply media_kept_bind.
  { unfold export_keying_material. apply media_get_bind. destruct (d_ssl m1); [|by apply media_kept_ret].
    by apply same_core_kept. }
  intros [b|] m2 Hi2 _; [|by apply media_kept_ret]. destruct (split_keying_material k l b).
  by apply media_kept_ret.
Qed.

(** Keys are taken only from a connected engine. *)
Lemma extract_params_connected m ps m' :
  extract_params m = Done (Some ps, m') -> d_state m = dtls_connected /\ d_state m' = d_state m.
Proof.
  unfold extract_params, get_srtp_crypto_suite, export_keying_material, get, call, mbind, St_bind,
    mret, St_ret.
  destruct (negb _); [done|]. case_bool_decide as Hc; [|done].
  destruct (ssl_suite _) as [cs|]; [|done]. destruct (GetSrtpKeyAndSaltLengths cs) as [[k l]|]; [|done].
  cbn [d_ssl upd_m_calls]. destruct (d_ssl m); [|done]. destruct (ssl_export _ _ _) as [b|]; [|done].
  destruct (split_keying_material k l b). by intros [= <- <-].
Qed.

Lemma setup_dtls_srtp_kept n m : media_inv n m -> post setup_dtls_srtp (kept n m) m.
Proof.
  intros Hi. unfold setup_dtls_srtp. pose proof (extract_params_kept n m Hi) as He.
  unfold post, mbind, St_bind in *.
  destruct (extract_params m) as [[[[[cs sk] rk]|] m1]| |] eqn:E; try done.
  apply extract_params_connected in E as [Hc Hsame]. destruct He as [Hi1 Hs1].
  unfold step. destruct (set_rtp_params_paired cs cs sk rk (x_srtp m1) (mi_paired n m1 Hi1))
    as (ok & t & -> & Hp & Hu). cbn [mbind outcome_bind].
  split; [|by eapply steady_trans; [exact Hs1|]].
  destruct Hi1 as [I1 I2 I3 I4 I5 I6]. split; try done.
  - intros _. cbn. congruence.
  - cbn. congruence.
Qed.

Lemma srtp_on_dtls_state_kept n s m :
  sessions_paired (x_srtp m) -> other_users (x_srtp m) = n -> d_state m = s ->
  (s = dtls_connecting \/ s = dtls_connected -> d_ssl m = true) ->
  (d_ssl m = true -> is_Some (d_downward m)) ->
  (d_active m = true -> is_Some (d_local_certificate m)) ->
  post (srtp_on_dtls_state s) (kept n m) m.
Proof.
  intros I1 I6 Hs I3 I4 I5. unfold srtp_on_dtls_state. case_bool_decide as Hc; cbn [negb].
  - assert (Hi : media_inv n m) by (split; try done; by rewrite Hs).
    unfold maybe_setup_dtls_srtp, is_dtls_writable. do 2 apply media_get_bind.
    destruct (_ || _); [by apply media_kept_ret|]. by apply setup_dtls_srtp_kept.
  - apply post_put. split; [|done]. split; cbn; try done.
    + by right.
    + by rewrite Hs.
    + by rewrite reset_params_users.
Qed.

Lemma set_dtls_state_kept n s m :
  media_inv n m -> (s = dtls_connecting \/ s = dtls_connected -> d_ssl m = true) ->
  post (set_dtls_state s) (kept n m) m.
Proof.
  intros Hi Hs. unfold set_dtls_state. apply media_get_bind. case_bool_decide; [by apply media_kept_ret|].
  apply post_bind, post_put, post_bind. unfold out_event. apply post_put.
  destruct Hi as [I1 I2 I3 I4 I5 I6].
  eapply post_mono; [by apply (srtp_on_dtls_state_kept n)|].
  intros u m2 [Hi2 [A1 A2 A3 A4 A5]]. split; [done|by split].
Qed.

Lemma maybe_start_dtls_kept n m : media_inv n m -> post maybe_start_dtls (kept n m) m.
Proof.
  intros Hi. unfold maybe_start_dtls. do 2 apply media_get_bind.
  destruct (d_ssl m) eqn:Hssl, (m_ice_writable m); cbn [andb negb]; try by apply media_kept_ret.
  apply media_kept_bind; [by apply call_kept|]. intros k m1 Hi1 Hs1.
  destruct (negb _); [apply set_dtls_state_kept; [done|by intros [|]]|].
  apply media_kept_bind; [apply set_dtls_state_kept; [done|by rewrite (sd_ssl _ _ Hs1)]|].
  intros _ m2 Hi2 Hs2. apply media_get_bind. case_bool_decide; [by apply media_kept_ret|].
  assert (Hssl2 : d_ssl m2 = true) by (by rewrite (sd_ssl _ _ Hs2), (sd_ssl _ _ Hs1)).
  apply media_kept_bind; [by apply handle_dtls_packet_kept|]. intros ok m3 Hi3 _.
  apply media_kept_bind.
  { apply post_if; [|by intros _]. intros _. apply set_dtls_state_kept; [done|by intros [|]]. }
  intros _ m4 Hi4 _. by apply same_core_kept.
Qed.

Definition inv_after (others : Z) {A} : A -> media -> Prop := fun _ m' => media_inv others m'.

Lemma inv_bind {A B} n (p : St media A) (k : A -> St media B) m :
  post p (kept n m) m ->
  (forall a m', media_inv n m' -> steady m m' -> post (k a) (inv_after n) m') ->
  post (p ≫= k) (inv_after n) m.
Proof.
  intros Hp Hk. apply post_bind. eapply post_mono; [exact Hp|]. intros a m1 [Hi Hs]. by apply Hk.
Qed.

Lemma kept_inv {A} n (p : St media A) m : post p (kept n m) m -> post p (inv_after n) m.
Proof. intros Hp. eapply post_mono; [exact Hp|]. by intros a m1 [Hi _]. Qed.

Lemma setup_dtls_inv n m :
  media_inv n m -> is_Some (d_local_certificate m) -> post setup_dtls (inv_after n) m.
Proof.
  intros [I1 I2 I3 I4 I5 I6] [cert Hcert]. unfold setup_dtls.
  apply post_bind, post_put, post_bind, post_put, post_bind, post_get.
  cbn [d_local_certificate upd_d_ssl upd_d_downward]. rewrite Hcert.
  set (m1 := upd_d_ssl _ _). assert (Hi1 : media_inv n m1) by (by split).
  apply post_bind, post_get, post_bind, post_get. apply inv_bind.
  { case_bool_decide; [by apply media_kept_ret|]. by apply same_core_kept. }
  intros fp_ok m2 Hi2 _. destruct fp_ok; cbn [negb]; [|by apply kept_inv, media_kept_ret].
  apply inv_bind; [by apply call_kept|]. intros k m3 Hi3 _.
  destruct (negb _); [by apply kept_inv, media_kept_ret|].
  apply inv_bind; [by apply maybe_start_dtls_kept|]. intros _ m4 Hi4 _. by apply kept_inv, media_kept_ret.
Qed.

(** Leaving the engine for a new one. *)
Lemma set_dtls_state_new n m :
  sessions_paired (x_srtp m) -> other_users (x_srtp m) = n ->
  (is_srtp_active (x_srtp m) = true -> d_state m = dtls_connected) ->
  (d_ssl m = true -> is_Some (d_downward m)) ->
  (d_active m = true -> is_Some (d_local_certificate m)) ->
  post (set_dtls_state dtls_new) (kept n m) m.
Proof.
  intros I1 I6 I2 I4 I5. unfold set_dtls_state. apply media_get_bind. case_bool_decide as Hs.
  - apply media_kept_ret. split; try done. rewrite Hs. by intros [|].
  - apply post_bind, post_put, post_bind. unfold out_event. apply post_put.
    eapply post_mono; [apply (srtp_on_dtls_state_kept n); try done; by intros [|]|].
    intros u m2 [Hi2 [A1 A2 A3 A4 A5]]. split; [done|by split].
Qed.

Lemma fail_inv n (b : bool) m :
  media_inv n m -> post (_ ← set_dtls_state dtls_failed; mret b) (inv_after n) m.
Proof.
  intros Hi. apply inv_bind; [apply set_dtls_state_kept; [done|by intros [|]]|].
  intros _ m1 Hi1 _. by apply kept_inv, media_kept_ret.
Qed.

Lemma setup_or_fail_inv n m :
  media_inv n m -> is_Some (d_local_certificate m) ->
  post (ok ← setup_dtls; if negb ok then _ ← set_dtls_state dtls_failed; mret false else mret true)
    (inv_after n) m.
Proof.
  intros Hi Hc. apply post_bind. eapply post_mono; [by apply setup_dtls_inv|].
  intros ok m1 Hi1. destruct ok; [by apply kept_inv, media_kept_ret|by apply fail_inv].
Qed.

Lemma set_remote_fingerprint_inv n alg digest m :
  media_inv n m -> post (set_remote_fingerprint alg digest) (inv_after n) m.
Proof.
  intros Hi. unfold set_remote_fingerprint. do 2 apply post_bind, post_get.
  destruct (_ && negb _); [by apply kept_inv, media_kept_ret|].
  case_bool_decide as Halg.
  { apply post_bind, post_put, post_ret. destruct Hi as [I1 I2 I3 I4 I5 I6]. by split. }
  destruct (d_active m) eqn:Hact; cbn [negb]; [|by apply kept_inv, media_kept_ret].
  set (fresh := bool_decide (d_remote_fingerprint m = [])).
  apply post_bind, post_put, post_bind, post_put. set (m1 := upd_d_remote_alg _ _).
  assert (Hi1 : media_inv n m1) by (destruct Hi; by split).
  assert (Hcert : is_Some (d_local_certificate m1)) by (by apply (mi_cert n m Hi)).
  clearbody fresh m1. clear Hi Hact m. apply post_bind, post_get.
  assert (Htail : forall k : nat, let '(ok, vf) := ssl_set_digest k alg digest in
    forall m2, media_inv n m2 ->
      post (if negb ok then _ ← set_dtls_state dtls_failed; mret vf else mret true)
        (inv_after n) m2).
  { intros k. destruct (ssl_set_digest k alg digest) as [ok vf]. intros m2 Hi2.
    destruct ok; [by apply kept_inv, media_kept_ret|by apply fail_inv]. }
  destruct (d_ssl m1) eqn:Hssl, fresh; cbn [andb negb].
  - apply inv_bind; [by apply call_kept|]. intros k m2 Hi2 _. specialize (Htail k).
    destruct (ssl_set_digest k alg digest) as [ok vf]. by apply Htail.
  - apply post_bind, post_bind, post_put, post_bind, post_put.
    set (m2 := upd_d_downward _ _). destruct Hi1 as [I1 I2 I3 I4 I5 I6].
    apply post_bind. eapply post_mono; [by apply (set_dtls_state_new n)|].
    intros u m3 [Hi3 Hs3]. eapply post_mono; [by apply set_writable_state_kept|].
    intros u' m4 [Hi4 Hs4]. apply setup_or_fail_inv; [done|].
    rewrite (sd_cert _ _ Hs4), (sd_cert _ _ Hs3). exact Hcert.
  - apply post_bind, post_ret. by apply setup_or_fail_inv.
  - apply post_bind, post_ret. by apply setup_or_fail_inv.
Qed.

Lemma set_local_certificate_inv n cert m :
  media_inv n m -> post (set_local_certificate cert) (inv_after n) m.
Proof.
  intros Hi. unfold set_local_certificate. apply post_bind, post_get.
  destruct (d_active m) eqn:Hact; [apply post_bind, post_get; by apply post_ret|].
  destruct cert as [c|]; [|by apply post_ret].
  apply post_bind, post_put, post_bind, post_put, post_ret. destruct Hi. split; done.
Qed.

Lemma on_ice_writable_state_inv n b m :
  media_inv n m -> post (on_ice_writable_state b) (inv_after n) m.
Proof.
  intros Hi. unfold on_ice_writable_state. apply post_bind, post_put.
  set (m1 := upd_m_ice_writable _ _). assert (Hi1 : media_inv n m1) by (destruct Hi; by split).
  apply post_bind, post_get. destruct (negb _); [by apply kept_inv, set_writable_state_kept|].
  apply post_bind, post_get. destruct (d_state m1);
    [by apply kept_inv, maybe_start_dtls_kept|by apply kept_inv, media_kept_ret
    |by apply kept_inv, set_writable_state_kept|by apply kept_inv, media_kept_ret..].
Qed.

Lemma dtls_on_read_packet_inv n p ts m :
  media_inv n m -> post (dtls_on_read_packet p ts) (inv_after n) m.
Proof.
  intros Hi. unfold dtls_on_read_packet. apply post_bind, post_get.
  assert (Hrun : forall b : bool, d_ssl m = true ->
    post (if is_dtls_packet p then _ ← handle_dtls_packet p; mret ()
          else if b then mret () else if negb (dtls_is_rtp_packet p) then mret ()
          else srtp_on_read_packet p ts) (inv_after n) m).
  { intros b Hssl. destruct (is_dtls_packet p).
    - apply inv_bind; [by apply handle_dtls_packet_kept|]. intros _ m1 Hi1 _. by apply kept_inv, media_kept_ret.
    - destruct b; [by apply kept_inv, media_kept_ret|]. destruct (negb _); [by apply kept_inv, media_kept_ret|].
      by apply kept_inv, srtp_on_read_packet_kept. }
  destruct (d_state m) eqn:Hs; try by apply kept_inv, media_kept_ret.
  - destruct (is_dtls_client_hello_packet p); [|by apply kept_inv, media_kept_ret].
    apply inv_bind; [by apply same_core_kept|]. intros _ m1 Hi1 _.
    apply post_bind, post_get, post_bind, post_get.
    destruct (negb (d_ssl m1)); cbn [andb]; [|by apply kept_inv, media_kept_ret].
    case_bool_decide as Hc; [|by apply kept_inv, media_kept_ret].
    apply post_bind. eapply post_mono; [by apply setup_dtls_inv|]. intros ok m2 Hi2. by apply post_ret.
  - apply Hrun. apply (mi_engine n m Hi). by left.
  - apply Hrun. apply (mi_engine n m Hi). by right.
Qed.

Lemma read_loop_kept n reads m : media_inv n m -> post (read_loop reads) (kept n m) m.
Proof.
  intros Hi. induction reads as [|[] reads IH]; cbn [read_loop];
    [by apply media_kept_ret|exact IH|by apply media_kept_ret|..].
  - apply media_kept_bind; [by apply set_writable_state_kept|]. intros _ m1 Hi1 _.
    apply media_kept_bind; [apply set_dtls_state_kept; [done|by intros [|]]|]. intros _ m2 Hi2 _.
    by apply out_event_kept.
  - apply media_kept_bind; [by apply set_writable_state_kept|]. intros _ m1 Hi1 _.
    apply media_kept_bind; [apply set_dtls_state_kept; [done|by intros [|]]|]. intros _ m2 Hi2 _.
    by apply out_event_kept.
Qed.

Lemma on_dtls_event_kept n sig error reads m :
  media_inv n m -> d_ssl m = true -> post (on_dtls_event sig error reads) (kept n m) m.
Proof.
  intros Hi Hssl. unfold on_dtls_event. apply media_kept_bind.
  { apply post_if; [|by intros _; apply same_core_kept]. intros _.
    apply media_kept_bind; [by apply set_writable_state_kept|]. intros _ m1 Hi1 Hs1.
    apply set_dtls_state_kept; [done|by rewrite (sd_ssl _ _ Hs1)]. }
  intros _ m1 Hi1 Hs1. apply media_kept_bind.
  { apply post_if; [|by intros _; apply same_core_kept]. intros _. apply media_get_bind.
    rewrite (sd_ssl _ _ Hs1), Hssl. by apply read_loop_kept. }
  intros _ m2 Hi2 _. apply post_if; [|by intros _; apply same_core_kept]. intros _.
  apply media_kept_bind; [by apply set_writable_state_kept|]. intros _ m3 Hi3 _.
  apply set_dtls_state_kept; [done|]. destruct (error =? 0); by intros [|].
Qed.

Lemma media_handle_inv n i m :
  media_inv n m -> media_input_ok i m = true -> post (media_handle i) (inv_after n) m.
Proof.
  intros Hi Hok.
  assert (Hdrop : forall {A} (p : St media A), post p (inv_after n) m ->
    post (_ ← p; mret ()) (inv_after n) m).
  { intros A p Hp. apply post_bind. eapply post_mono; [exact Hp|]. intros a m1 Hm1. by apply post_ret. }
  destruct i; cbn [media_handle media_input_ok] in *.
  - by apply on_ice_writable_state_inv.
  - unfold on_ice_receiving_state. apply inv_bind; [by apply post_put; split; [destruct Hi|]|].
    intros _ m1 Hi1 _. by apply kept_inv, dtls_set_receiving_kept.
  - by apply dtls_on_read_packet_inv.
  - by apply Hdrop, set_local_certificate_inv.
  - by apply Hdrop, set_remote_fingerprint_inv.
  - by apply kept_inv, on_dtls_event_kept.
  - by apply Hdrop, kept_inv, stream_read_kept.
  - apply Hdrop, kept_inv. unfold stream_write. apply media_kept_bind; [by apply channel_send_kept|].
    intros _ m1 Hi1 _. by apply media_kept_ret.
  - unfold stream_close. apply post_put. destruct Hi as [I1 I2 I3 I4 I5 I6]. split; try done.
    cbn. intros Hssl. destruct (I4 Hssl) as [s ->]. by eexists.
  - by apply Hdrop, kept_inv, send_rtp_kept.
  - by apply Hdrop, kept_inv, send_rtcp_kept.
Qed.

Lemma new_media_inv w g : media_inv (g_libsrtp_usage_count g) (new_media w g).
Proof.
  split; cbn; try done.
  - by right.
  - by intros [|].
  - unfold other_users, transport_users. cbn. lia.
Qed.
End invariant.

(** The states of the transports of a media section. *)
Inductive media_reachable `{SrtpLib} `{DtlsEnv} (w : bool) (g : srtp_global) : media -> Prop :=
  | media_start : media_reachable w g (new_media w g)
  | media_step m i m' :
      media_reachable w g m -> media_input_ok i m = true -> media_handle i m = Done ((), m') ->
      media_reachable w g m'.

Lemma media_reachable_inv `{SrtpLib} `{DtlsEnv} w g m :
  media_reachable w g m -> media_inv (g_libsrtp_usage_count g) m.
Proof.
  induction 1 as [|m i m' _ IH Hok E]; [apply new_media_inv|].
  pose proof (media_handle_inv _ i m IH Hok) as Hp. unfold post in Hp. by rewrite E in Hp.
Qed.

(** C2: media flows only over a finished handshake.  In every reachable state
    of the DTLS and DTLS-SRTP transports both SRTP sessions are keyed or none
    is, they are keyed only while DTLS is connected, libsrtp's usage count is
    the count outside plus the sessions here, and the next input, whatever it
    is (a change of the ICE channel, a datagram of any bytes, a certificate, a
    fingerprint, any event of the engine, a packet to send), ends normally:
    no null or freed engine, stream or certificate is used. *)
Theorem srtp_only_when_connected `{SrtpLib} `{DtlsEnv} (w : bool) (g : srtp_global) (m : media)
    (i : media_input) :
  media_reachable w g m -> media_input_ok i m = true ->
  (st_send (x_srtp m) = None <-> st_recv (x_srtp m) = None) /\
  (is_srtp_active (x_srtp m) = true -> d_state m = dtls_connected /\ d_ssl m = true) /\
  g_libsrtp_usage_count (st_global (x_srtp m)) =
    g_libsrtp_usage_count g + (if is_srtp_active (x_srtp m) then 2 else 0) /\
  exists m', media_handle i m = Done ((), m').
Proof.
  intros Hm Hok. apply media_reachable_inv in Hm as Hi.
  pose proof (media_handle_inv _ i m Hi Hok) as Hp. destruct Hi as [I1 I2 I3 I4 I5 I6].
  split; [|split; [|split]].
  - destruct I1 as [[(? & ? & -> & _) (? & ? & -> & _)]|[-> ->]]; done.
  - intros Ha. specialize (I2 Ha). split; [done|]. apply I3. by right.
  - rewrite <- I6. unfold other_users, transport_users.
    destruct (paired_active _ I1) as [(-> & Ks & Kr)|(-> & -> & ->)].
    + rewrite (keyed_inited _ Ks), (keyed_inited _ Kr). lia.
    + cbn. lia.
  - apply post_Done in Hp as ([] & m' & E & _). by exists m'.
Qed.
