(* ===== verification/DtlsBehaviour.v ===== *)
(** * What the DTLS-SRTP transports do with a handshake and with packets

    The keys a finished handshake installs, the paths of media packets in both
    directions, and the ClientHello that comes early. *)

From S2P Require Import Prelude ByteBuffer State Rtp Srtp Dtls DtlsTheory.
Local Open Scope Z_scope.

Section keys.
Context `{SrtpLib} `{DtlsEnv}.

(** libsrtp takes keys of the profile [cs]. *)
Definition srtp_accepts (cs : Z) : Prop :=
  (forall n, lib_init n = true) /\ is_Some (lib_rtp_tag cs) /\ is_Some (lib_rtcp_tag cs).

Lemma set_key_accepts type cs key g ctx :
  srtp_accepts cs -> lib_create type cs key = Some ctx ->
  exists s g', set_key type cs key new_session g = (true, s, g') /\ ss_session s = Some ctx.
Proof.
  intros (Hi & [rt Hrt] & [rc Hrc]) Hc. unfold set_key. cbn [ss_session new_session].
  assert (Hinc : exists g', increment_libsrtp_usage_count_and_maybe_init g = (true, g')).
  { unfold increment_libsrtp_usage_count_and_maybe_init. rewrite Hi. destruct (_ =? 0); by eexists. }
  destruct Hinc as [g' ->]. unfold do_set_key. rewrite Hrt, Hrc. cbn [ss_session]. rewrite Hc.
  by eexists _, _.
Qed.

Lemma set_rtp_params_accepts cs skey rkey t sctx rctx :
  srtp_accepts cs -> st_send t = None ->
  lib_create ssrc_any_outbound cs skey = Some sctx ->
  lib_create ssrc_any_inbound cs rkey = Some rctx ->
  exists t', set_rtp_params cs skey cs rkey t = Done (true, t') /\
    ss_session <$> st_send t' = Some (Some sctx) /\ ss_session <$> st_recv t' = Some (Some rctx).
Proof.
  intros Ha Hn Hs Hr. unfold set_rtp_params. rewrite Hn.
  cbn [create_srtp_session st_send st_recv st_global deref mbind outcome_bind]. unfold set_send, set_recv.
  destruct (set_key_accepts ssrc_any_outbound cs skey
    (destroy_opt (st_recv t) (destroy_opt (st_send t) (st_global t))) sctx) as (s & g1 & -> & Es); [done..|].
  cbn [negb st_recv st_send st_global deref mbind outcome_bind].
  destruct (set_key_accepts ssrc_any_inbound cs rkey g1 rctx) as (r & g2 & -> & Er); [done..|].
  cbn [negb]. eexists. split; [done|]. cbn. by rewrite Es, Er.
Qed.

Lemma split_keying_material_app k l ck sk cl sl :
  length ck = k -> length sk = k -> length cl = l -> length sl = l ->
  split_keying_material k l (ck ++ sk ++ cl ++ sl) = (ck ++ cl, sk ++ sl).
Proof.
  intros H1 H2 H3 H4. unfold split_keying_material.
  rewrite (take_app_length' ck) by done.
  rewrite (drop_app_length' ck _ k) by done. rewrite (take_app_length' sk) by done.
  replace (drop (k + k) (ck ++ sk ++ cl ++ sl)) with (cl ++ sl)
    by (by rewrite app_assoc, drop_app_length' by (rewrite length_app; lia)).
  rewrite (take_app_length' cl) by done.
  replace (drop (k + k + l) (ck ++ sk ++ cl ++ sl)) with sl
    by (by rewrite !app_assoc, drop_app_length' by (rewrite !length_app; lia)).
  by rewrite (take_ge sl) by lia.
Qed.

(** What the engine answers when the transport asks for keys. *)
Definition engine_exports (n : nat) (cs : Z) (ck sk cl sl : bytes) : Prop :=
  ssl_suite n = Some cs /\
  GetSrtpKeyAndSaltLengths cs = Some (length ck, length cl) /\
  length sk = length ck /\ length sl = length cl /\
  ssl_export (S n) k_dtls_srtp_exporter_label (length ck * 2 + length cl * 2) =
    Some (ck ++ sk ++ cl ++ sl).

Lemma extract_params_exports m cs ck sk cl sl :
  d_active m = true -> d_state m = dtls_connected -> d_ssl m = true ->
  engine_exports (m_calls m) cs ck sk cl sl ->
  extract_params m =
    Done (Some (cs, sk ++ sl, ck ++ cl), upd_m_calls S (upd_m_calls S m)).
Proof.
  intros Ha Hs Hd (H1 & H2 & H3 & H4 & H5).
  unfold extract_params, get_srtp_crypto_suite, export_keying_material, get, call, mbind, St_bind,
    mret, St_ret.
  rewrite Ha. cbn [negb]. rewrite Hs, bool_decide_true by done. rewrite H1. cbv iota beta.
  rewrite H2. cbn [d_ssl upd_m_calls]. rewrite Hd. cbv iota beta.
  change (m_calls (upd_m_calls S m)) with (S (m_calls m)). rewrite H5. cbv iota beta. by rewrite split_keying_material_app.
Qed.

Lemma setup_dtls_srtp_keys m cs ck sk cl sl sctx rctx :
  d_active m = true -> d_state m = dtls_connected -> d_ssl m = true ->
  engine_exports (m_calls m) cs ck sk cl sl -> srtp_accepts cs -> st_send (x_srtp m) = None ->
  lib_create ssrc_any_outbound cs (sk ++ sl) = Some sctx ->
  lib_create ssrc_any_inbound cs (ck ++ cl) = Some rctx ->
  post setup_dtls_srtp (fun _ m' =>
    ss_session <$> st_send (x_srtp m') = Some (Some sctx) /\
    ss_session <$> st_recv (x_srtp m') = Some (Some rctx) /\
    d_state m' = d_state m /\ d_writable m' = d_writable m /\ m_out m' = m_out m) m.
Proof.
  intros Ha Hs Hd He Hacc Hn Hc1 Hc2. unfold setup_dtls_srtp, post, mbind, St_bind.
  rewrite (extract_params_exports m cs ck sk cl sl) by done. unfold step. cbn [x_srtp upd_m_calls].
  destruct (set_rtp_params_accepts cs (sk ++ sl) (ck ++ cl) (x_srtp m) sctx rctx) as (t & -> & E1 & E2);
    [done..|]. done.
Qed.
End keys.

(** C4: a finished handshake installs the right keys on the right side.  When
    the engine reports its handshake done ([SE_OPEN]) on connecting
    transports, and exports key material laid out as client key, server key,
    client salt, server salt (RFC 5764), the transport becomes writable and
    connected, in this order, and its outbound SRTP session is keyed with the
    server's key and salt and its inbound one with the client's: media flows
    both ways from the first packet on, without a second event. *)
Theorem handshake_keys `{SrtpLib} `{DtlsEnv} (w : bool) (g : srtp_global) (m : media) (error : Z)
    (reads : list StreamResult) (cs : Z) (ck sk cl sl : bytes) (sctx rctx : lib_ctx) :
  media_reachable w g m -> d_state m = dtls_connecting -> d_active m = true ->
  engine_exports (m_calls m) cs ck sk cl sl -> srtp_accepts cs ->
  lib_create ssrc_any_outbound cs (sk ++ sl) = Some sctx ->
  lib_create ssrc_any_inbound cs (ck ++ cl) = Some rctx ->
  exists m', media_handle (InSslEvent SE_OPEN error reads) m = Done ((), m') /\
    d_state m' = dtls_connected /\ d_writable m' = true /\
    ss_session <$> st_send (x_srtp m') = Some (Some sctx) /\
    ss_session <$> st_recv (x_srtp m') = Some (Some rctx) /\
    m_out m' = m_out m ++ (if d_writable m then [] else [EvDtlsWritable true]) ++
               [EvDtlsState dtls_connected].
Proof.
  intros Hm Hs Ha He Hacc Hc1 Hc2. apply media_reachable_inv in Hm as [I1 I2 I3 I4 I5 I6].
  assert (Hn : st_send (x_srtp m) = None).
  { destruct (paired_active _ I1) as [(Hact & _)|(_ & Hn & _)]; [|done]. specialize (I2 Hact). congruence. }
  assert (Hp : post (media_handle (InSslEvent SE_OPEN error reads)) (fun _ m' =>
      ss_session <$> st_send (x_srtp m') = Some (Some sctx) /\
      ss_session <$> st_recv (x_srtp m') = Some (Some rctx) /\
      d_state m' = dtls_connected /\ d_writable m' = true /\
      m_out m' = m_out m ++ (if d_writable m then [] else [EvDtlsWritable true]) ++
               [EvDtlsState dtls_connected]) m).
  { cbn [media_handle]. unfold on_dtls_event, if_. change (negb (Z.land SE_OPEN SE_OPEN =? 0)) with true.
    change (negb (Z.land SE_OPEN SE_READ =? 0)) with false.
    change (negb (Z.land SE_OPEN SE_CLOSE =? 0)) with false. cbv iota.
    apply post_bind, post_bind, post_bind, post_get.
    assert (Hgo : forall m1, d_active m1 = true -> d_state m1 = dtls_connecting -> d_ssl m1 = true ->
      m_calls m1 = m_calls m -> x_srtp m1 = x_srtp m -> d_writable m1 = true ->
      post (set_dtls_state dtls_connected) (fun _ m' =>
        ss_session <$> st_send (x_srtp m') = Some (Some sctx) /\
        ss_session <$> st_recv (x_srtp m') = Some (Some rctx) /\
        d_state m' = dtls_connected /\ d_writable m' = true /\
        m_out m' = m_out m1 ++ [EvDtlsState dtls_connected]) m1).
    { intros m1 A1 A2 A3 A4 A5 A6. unfold set_dtls_state. apply post_bind, post_get.
      rewrite A2. cbn [bool_decide]. rewrite bool_decide_false by done.
      apply post_bind, post_put, post_bind, post_put. unfold srtp_on_dtls_state.
      rewrite bool_decide_true by done. cbn [negb]. unfold maybe_setup_dtls_srtp, is_dtls_writable.
      apply post_bind, post_get, post_bind, post_get. cbn [x_srtp d_writable upd_m_out upd_d_state].
      rewrite A5, A6. unfold is_srtp_active. rewrite Hn. cbn [negb orb].
      rewrite bool_decide_false by (by intros [? ?]). cbn [andb orb].
      eapply post_mono; [eapply setup_dtls_srtp_keys; try done|].
      - cbn [upd_m_out upd_d_state m_calls]. rewrite A4. exact He.
      - cbn. by rewrite A5.
      - intros _ m2 (B1 & B2 & B3 & B4 & B5). rewrite B3, B4, B5. by split_and!. }
    assert (Hssl : d_ssl m = true) by (apply I3; by left).
    case_bool_decide as Hw.
    - apply post_ret. eapply post_mono; [by apply Hgo|]. intros _ m2 (B1 & B2 & B3 & B4 & B5).
      apply post_bind, post_ret. unfold post, mret, St_ret. by rewrite B5, Hw.
    - apply post_bind, post_put, post_put. eapply post_mono; [by apply Hgo|].
      intros _ m2 (B1 & B2 & B3 & B4 & B5). apply post_bind, post_ret. unfold post, mret, St_ret.
      rewrite B5. cbn [m_out upd_m_out upd_d_writable]. destruct (d_writable m); [done|].
      by rewrite <- app_assoc. }
  apply post_Done in Hp as ([] & m' & E & B1 & B2 & B3 & B4 & B5). by exists m'.
Qed.

Section packets.
Context `{SrtpLib} `{DtlsEnv}.

(** Both SRTP sessions carry a context. *)
Definition srtp_contexts (m : media) (sctx rctx : lib_ctx) : Prop :=
  ss_session <$> st_send (x_srtp m) = Some (Some sctx) /\
  ss_session <$> st_recv (x_srtp m) = Some (Some rctx).

Lemma srtp_contexts_sessions m sctx rctx :
  srtp_contexts m sctx rctx ->
  exists s r, st_send (x_srtp m) = Some s /\ st_recv (x_srtp m) = Some r /\
    ss_session s = Some sctx /\ ss_session r = Some rctx /\ is_srtp_active (x_srtp m) = true.
Proof.
  unfold srtp_contexts, is_srtp_active. intros [Hs Hr].
  destruct (st_send (x_srtp m)) as [s|]; [|done]. destruct (st_recv (x_srtp m)) as [r|]; [|done].
  injection Hs as Hs. injection Hr as Hr. by exists s, r.
Qed.

(** The buffers the transport allocates are large enough. *)
Lemma protect_rtp_fits p s ctx :
  ss_session s = Some ctx ->
  session_protect_rtp p (Z.of_nat (length p) + fst (session_auth_tag_len s)) s =
    (fst (lib_protect ctx p), with_ctx s (snd (lib_protect ctx p))).
Proof.
  intros Hs. unfold session_protect_rtp, session_auth_tag_len. rewrite Hs. cbn [fst].
  rewrite Z.ltb_irrefl. by destruct (lib_protect ctx p).
Qed.

Lemma protect_rtcp_fits p s ctx :
  ss_session s = Some ctx ->
  session_protect_rtcp p (Z.of_nat (length p) + snd (session_auth_tag_len s) + 4) s =
    (fst (lib_protect_rtcp ctx p), with_ctx s (snd (lib_protect_rtcp ctx p))).
Proof.
  intros Hs. unfold session_protect_rtcp, session_auth_tag_len. rewrite Hs. cbn [snd].
  rewrite Z.ltb_irrefl. by destruct (lib_protect_rtcp ctx p).
Qed.

Lemma send_rtp_out m p sctx rctx :
  srtp_contexts m sctx rctx ->
  post (send_rtp p) (fun _ m' =>
    m_out m' = m_out m ++ option_list (EvIceSend <$> fst (lib_protect sctx p)) /\
    srtp_contexts m' (snd (lib_protect sctx p)) rctx) m.
Proof.
  intros Hc. destruct (srtp_contexts_sessions m sctx rctx Hc) as (s & r & Es & Er & Cs & Cr & Ha).
  unfold send_rtp. apply post_bind, post_get. rewrite Ha. cbn [negb]. cbv zeta.
  unfold send_auth_tag_len. rewrite Es. apply post_bind. unfold with_send. apply post_run.
  rewrite Es, (protect_rtp_fits p s sctx Cs). cbn [fst snd].
  destruct (lib_protect sctx p) as [[q|] ctx]; cbn [fst snd option_list fmap option_fmap option_map].
  - apply post_bind, post_put. unfold channel_send. apply post_bind. unfold post, call.
    apply (post_bind (out_event _)), post_put, post_ret. split; [done|]. split; [done|].
    cbn. by rewrite Er, <- Cr.
  - apply post_ret. rewrite app_nil_r. split; [done|]. split; [done|]. cbn. by rewrite Er, <- Cr.
Qed.

Lemma send_rtcp_out m p sctx rctx :
  srtp_contexts m sctx rctx ->
  post (send_rtcp p) (fun _ m' =>
    m_out m' = m_out m ++ option_list (EvIceSend <$> fst (lib_protect_rtcp sctx p)) /\
    srtp_contexts m' (snd (lib_protect_rtcp sctx p)) rctx) m.
Proof.
  intros Hc. destruct (srtp_contexts_sessions m sctx rctx Hc) as (s & r & Es & Er & Cs & Cr & Ha).
  unfold send_rtcp. apply post_bind, post_get. rewrite Ha. cbn [negb]. cbv zeta.
  unfold send_auth_tag_len. rewrite Es. apply post_bind. unfold with_send. apply post_run.
  rewrite Es, (protect_rtcp_fits p s sctx Cs). cbn [fst snd].
  destruct (lib_protect_rtcp sctx p) as [[q|] ctx]; cbn [fst snd option_list fmap option_fmap option_map].
  - unfold channel_send. apply post_bind. unfold post, call.
    apply (post_bind (out_event _)), post_put, post_ret. split; [done|]. split; [done|].
    cbn. by rewrite Er, <- Cr.
  - apply post_ret. rewrite app_nil_r. split; [done|]. split; [done|]. cbn. by rewrite Er, <- Cr.
Qed.

(** What a datagram that is no DTLS record becomes. *)
Definition delivered (rctx : lib_ctx) (p : bytes) (ts : Z) : list media_event :=
  if is_dtls_packet p || negb (dtls_is_rtp_packet p) then []
  else match infer_rtp_packet_type p with
       | k_unknown => []
       | k_rtp => option_list ((fun q => EvRtp q ts) <$> fst (lib_unprotect rctx p))
       | k_rtcp => option_list ((fun q => EvRtcp q ts) <$> fst (lib_unprotect_rtcp rctx p))
       end.

Lemma receive_out m p ts sctx rctx :
  d_state m = dtls_connected -> is_dtls_packet p = false -> srtp_contexts m sctx rctx ->
  post (dtls_on_read_packet p ts) (fun _ m' => m_out m' = m_out m ++ delivered rctx p ts) m.
Proof.
  intros Hs Hd Hc. destruct (srtp_contexts_sessions m sctx rctx Hc) as (s & r & Es & Er & Cs & Cr & Ha).
  unfold dtls_on_read_packet, delivered. apply post_bind, post_get. rewrite Hs, Hd.
  rewrite bool_decide_true by done. cbn [negb orb].
  destruct (negb _); [apply post_ret; by rewrite app_nil_r|].
  unfold srtp_on_read_packet.
  destruct (infer_rtp_packet_type p); [| |apply post_ret; by rewrite app_nil_r].
  - unfold on_rtp_packet_received. apply post_bind, post_get. rewrite Ha. cbn [negb].
    apply post_bind. unfold with_recv. apply post_run. rewrite Er.
    unfold session_unprotect_rtp. rewrite Cr. destruct (lib_unprotect rctx p) as [[q|] ctx]; cbn [fst snd].
    + by apply post_put.
    + apply post_put. cbn. by rewrite app_nil_r.
  - unfold on_rtcp_packet_received. apply post_bind, post_get. rewrite Ha. cbn [negb].
    apply post_bind. unfold with_recv. apply post_run. rewrite Er.
    unfold session_unprotect_rtcp. rewrite Cr. destruct (lib_unprotect_rtcp rctx p) as [[q|] ctx]; cbn [fst snd].
    + by apply post_put.
    + apply post_ret. cbn. by rewrite app_nil_r.
Qed.
End packets.

(** Media packets are protected and unprotected, never passed in the
    clear.  On connected transports with SRTP contexts, a packet to send goes
    out on the ICE channel exactly as libsrtp protects it with the outbound
    context (the buffer is always large enough for it), and is dropped when
    libsrtp refuses it; a datagram that is not a DTLS record is delivered only
    as libsrtp authenticates it with the inbound context, as RTP or RTCP by
    its second byte; nothing else leaves the transports. *)
Theorem media_paths `{SrtpLib} `{DtlsEnv} (m : media) (sctx rctx : lib_ctx) (p : bytes) (ts : Z) :
  srtp_contexts m sctx rctx ->
  (exists m', media_handle (InSendRtp p) m = Done ((), m') /\
     m_out m' = m_out m ++ option_list (EvIceSend <$> fst (lib_protect sctx p)) /\
     srtp_contexts m' (snd (lib_protect sctx p)) rctx) /\
  (exists m', media_handle (InSendRtcp p) m = Done ((), m') /\
     m_out m' = m_out m ++ option_list (EvIceSend <$> fst (lib_protect_rtcp sctx p)) /\
     srtp_contexts m' (snd (lib_protect_rtcp sctx p)) rctx) /\
  (d_state m = dtls_connected -> is_dtls_packet p = false ->
   exists m', media_handle (InIcePacket p ts) m = Done ((), m') /\
     m_out m' = m_out m ++ delivered rctx p ts).
Proof.
  intros Hc. split; [|split].
  - pose proof (send_rtp_out m p sctx rctx Hc) as Hp. apply post_Done in Hp as (z & m' & E & Ho & Hk).
    exists m'. split_and!; [|done..]. cbn [media_handle]. unfold mbind, St_bind. by rewrite E.
  - pose proof (send_rtcp_out m p sctx rctx Hc) as Hp. apply post_Done in Hp as (z & m' & E & Ho & Hk).
    exists m'. split_and!; [|done..]. cbn [media_handle]. unfold mbind, St_bind. by rewrite E.
  - intros Hs Hd. pose proof (receive_out m p ts sctx rctx Hs Hd Hc) as Hp.
    apply post_Done in Hp as ([] & m' & E & Ho). by exists m'.
Qed.

Lemma start_with_hello `{SrtpLib} `{DtlsEnv} m hello ps :
  d_ssl m = true -> m_ice_writable m = true -> d_state m = dtls_new ->
  d_cached_client_hello m = hello -> hello <> [] -> dtls_records_ok (length hello) hello = true ->
  d_downward m = Some (mkStream ps SS_OPEN) -> (length ps < k_max_pending_packets)%nat ->
  ssl_start (m_calls m) = 0 ->
  post maybe_start_dtls (fun _ m2 =>
    d_state m2 = dtls_connecting /\ d_downward m2 = Some (mkStream (ps ++ [hello]) SS_OPEN) /\
    d_cached_client_hello m2 = [] /\ m_out m2 = m_out m ++ [EvDtlsState dtls_connecting; EvSslRead]) m.
Proof.
  intros Hd Hw Hs Hh Hne Hr Hst Hlen Hstart. unfold maybe_start_dtls.
  apply post_bind, post_get, post_bind, post_get. rewrite Hd, Hw. cbn [andb negb].
  apply post_bind. unfold post at 1, call. rewrite Hstart. cbn [negb Z.eqb].
  apply post_bind. unfold set_dtls_state. apply post_bind, post_get. cbn [d_state upd_m_calls].
  rewrite Hs, bool_decide_false by done. apply post_bind, post_put, post_bind, post_put.
  unfold srtp_on_dtls_state. rewrite bool_decide_false by done. cbn [negb]. apply post_put.
  apply post_bind, post_get. set (m1 := upd_x_srtp _ _).
  change (d_cached_client_hello m1) with (d_cached_client_hello m). rewrite Hh, bool_decide_false by done.
  apply post_bind. unfold handle_dtls_packet. rewrite Hr. unfold on_received_packet.
  apply post_bind, post_get. change (d_downward m1) with (d_downward m). rewrite Hst.
  apply post_bind, post_put, post_bind, post_put, post_ret. cbn [negb if_].
  apply post_bind, post_ret, post_put. split; [done|]. cbn [d_downward upd_d_cached_client_hello
    upd_m_out upd_d_downward]. unfold WriteBack. cbn [sc_packets]. rewrite bool_decide_false by lia.
  split; [done|]. split; [done|]. cbn. by rewrite <- app_assoc.
Qed.

(** The ClientHello that comes before ICE is writable is not lost.  When
    the engine is set up but waits for the ICE channel, a well-framed
    ClientHello is kept, the last one if there are several, and when the
    channel becomes writable and the engine starts, it is handed to the engine
    once, after the state has become connecting, and forgotten. *)
Theorem early_client_hello `{SrtpLib} `{DtlsEnv} (m : media) (hello : bytes) (ts : Z)
    (ps : list bytes) :
  d_state m = dtls_new -> d_ssl m = true -> d_active m = true ->
  d_downward m = Some (mkStream ps SS_OPEN) -> (length ps < k_max_pending_packets)%nat ->
  is_dtls_client_hello_packet hello = true -> dtls_records_ok (length hello) hello = true ->
  ssl_start (m_calls m) = 0 ->
  exists m1, media_handle (InIcePacket hello ts) m = Done ((), m1) /\
    m_out m1 = m_out m /\ d_cached_client_hello m1 = hello /\
    exists m2, media_handle (InIceWritable true) m1 = Done ((), m2) /\
    d_state m2 = dtls_connecting /\ d_downward m2 = Some (mkStream (ps ++ [hello]) SS_OPEN) /\
    d_cached_client_hello m2 = [] /\ m_out m2 = m_out m ++ [EvDtlsState dtls_connecting; EvSslRead].
Proof.
  intros Hs Hd Ha Hst Hlen Hh Hr Hstart. eexists. split.
  { cbn [media_handle]. unfold dtls_on_read_packet, get, put, mbind, St_bind, mret, St_ret.
    rewrite Hs, Hh. cbn [d_ssl upd_d_cached_client_hello]. rewrite Hd. cbn [negb andb]. reflexivity. }
  cbn [m_out d_cached_client_hello upd_d_cached_client_hello]. split; [done|]. split; [done|].
  set (m1 := upd_d_cached_client_hello _ m).
  assert (Hp : post (media_handle (InIceWritable true)) (fun _ m2 =>
    d_state m2 = dtls_connecting /\ d_downward m2 = Some (mkStream (ps ++ [hello]) SS_OPEN) /\
    d_cached_client_hello m2 = [] /\
    m_out m2 = m_out m ++ [EvDtlsState dtls_connecting; EvSslRead]) m1).
  { cbn [media_handle]. unfold on_ice_writable_state. apply post_bind, post_put, post_bind, post_get.
    change (d_active (upd_m_ice_writable _ m1)) with (d_active m). rewrite Ha. cbn [negb].
    apply post_bind, post_get. change (d_state (upd_m_ice_writable _ m1)) with (d_state m). rewrite Hs.
    apply (start_with_hello (upd_m_ice_writable (fun _ => true) m1) hello ps); try done. by intros ->. }
  apply post_Done in Hp as ([] & m2 & E & Hm2). by exists m2.
Qed.

(** ** Examples *)

(** An engine that accepts everything and exports bytes of its own choice. *)
Definition toy_dtls : DtlsEnv := {|
  ssl_set_digest := fun _ _ _ => (true, false);
  ssl_set_suites := fun _ _ => true;
  ssl_start := fun _ => 0;
  ssl_suite := fun _ => Some kSrtpAes128CmSha1_80;
  ssl_export := fun _ _ _ => Some (repeat x01 16 ++ repeat x02 16 ++ repeat x03 14 ++ repeat x04 14);
  ice_send := fun _ p => Z.of_nat (length p);
|}.

#[local] Existing Instance toy_srtp.
#[local] Existing Instance toy_dtls.

Definition toy_global : srtp_global := mkGlobal 0 0.

(** A certificate, the peer's fingerprint, a writable ICE channel. *)
Definition toy_inputs : list media_input :=
  [InLocalCertificate (Some 1); InRemoteFingerprint (str "sha-256") (str "fp"); InIceWritable true].

Definition toy_step (m : media) (i : media_input) : media :=
  match media_handle i m with Done (_, m') => m' | _ => m end.

Definition toy_run (l : list media_input) : media :=
  fold_left toy_step l (new_media false toy_global).

Definition toy_open : media_input := InSslEvent SE_OPEN 0 [].

Lemma toy_connecting : media_reachable false toy_global (toy_run toy_inputs).
Proof.
  apply (media_step false toy_global
    (toy_run [InLocalCertificate (Some 1); InRemoteFingerprint (str "sha-256") (str "fp")]) (InIceWritable true));
    [|vm_compute; reflexivity..].
  apply (media_step false toy_global
    (toy_run [InLocalCertificate (Some 1)]) (InRemoteFingerprint (str "sha-256") (str "fp")));
    [|vm_compute; reflexivity..].
  apply (media_step false toy_global
    (toy_run []) (InLocalCertificate (Some 1))); [|vm_compute; reflexivity..].
  apply media_start.
Qed.

Lemma toy_connected :
  media_reachable false toy_global (toy_run (toy_inputs ++ [toy_open])).
Proof.
  apply (media_step false toy_global (toy_run toy_inputs) toy_open);
    [apply toy_connecting|vm_compute; reflexivity..].
Qed.

Lemma srtp_only_when_connected_witness :
  let m := toy_run (toy_inputs ++ [toy_open]) in
  (st_send (x_srtp m) = None <-> st_recv (x_srtp m) = None) /\
  (is_srtp_active (x_srtp m) = true -> d_state m = dtls_connected /\ d_ssl m = true) /\
  g_libsrtp_usage_count (st_global (x_srtp m)) =
    g_libsrtp_usage_count toy_global + (if is_srtp_active (x_srtp m) then 2 else 0) /\
  exists m', media_handle (InSslEvent SE_CLOSE 0 []) m = Done ((), m').
Proof.
  apply (srtp_only_when_connected false toy_global);
    [apply toy_connected|vm_compute; reflexivity].
Defined.

Lemma toy_accepts : srtp_accepts kSrtpAes128CmSha1_80.
Proof. split; [done|]. split; by eexists. Qed.

Lemma handshake_keys_witness :
  let m := toy_run toy_inputs in
  exists m', media_handle toy_open m = Done ((), m') /\
    d_state m' = dtls_connected /\ d_writable m' = true /\
    ss_session <$> st_send (x_srtp m') = Some (Some (repeat x02 16 ++ repeat x04 14)) /\
    ss_session <$> st_recv (x_srtp m') = Some (Some (repeat x01 16 ++ repeat x03 14)) /\
    m_out m' = m_out m ++ (if d_writable m then [] else [EvDtlsWritable true]) ++
               [EvDtlsState dtls_connected].
Proof.
  apply (handshake_keys false toy_global (toy_run toy_inputs) 0 []
    kSrtpAes128CmSha1_80 (repeat x01 16) (repeat x02 16) (repeat x03 14) (repeat x04 14));
    [apply toy_connecting|vm_compute; reflexivity|vm_compute; reflexivity| |apply toy_accepts|vm_compute; reflexivity..].
  unfold engine_exports. split_and!; vm_compute; reflexivity.
Defined.

(** An RTP packet of twelve bytes. *)
Definition toy_rtp : bytes := x80 :: x60 :: repeat x00 10.

Lemma media_paths_witness :
  let m := toy_run (toy_inputs ++ [toy_open]) in
  let sctx := repeat x02 16 ++ repeat x04 14 in
  let rctx := repeat x01 16 ++ repeat x03 14 in
  (exists m', media_handle (InSendRtp toy_rtp) m = Done ((), m') /\
     m_out m' = m_out m ++ option_list (EvIceSend <$> fst (lib_protect sctx toy_rtp)) /\
     srtp_contexts m' (snd (lib_protect sctx toy_rtp)) rctx) /\
  (exists m', media_handle (InSendRtcp toy_rtp) m = Done ((), m') /\
     m_out m' = m_out m ++ option_list (EvIceSend <$> fst (lib_protect_rtcp sctx toy_rtp)) /\
     srtp_contexts m' (snd (lib_protect_rtcp sctx toy_rtp)) rctx) /\
  (d_state m = dtls_connected -> is_dtls_packet toy_rtp = false ->
   exists m', media_handle (InIcePacket toy_rtp 0) m = Done ((), m') /\
     m_out m' = m_out m ++ delivered rctx toy_rtp 0).
Proof.
  apply (media_paths). split; vm_compute; reflexivity.
Defined.

(** A handshake record of one ClientHello byte, framed. *)
Definition toy_hello : bytes :=
  [x16; xfe; xfd; x00; x00; x00; x00; x00; x00; x00; x00; x00; x05; x01; x00; x00; x00; x00].

Lemma early_client_hello_witness :
  let m := toy_run [InLocalCertificate (Some 1); InRemoteFingerprint (str "sha-256") (str "fp")] in
  exists m1, media_handle (InIcePacket toy_hello 0) m = Done ((), m1) /\
    m_out m1 = m_out m /\ d_cached_client_hello m1 = toy_hello /\
    exists m2, media_handle (InIceWritable true) m1 = Done ((), m2) /\
    d_state m2 = dtls_connecting /\ d_downward m2 = Some (mkStream ([] ++ [toy_hello]) SS_OPEN) /\
    d_cached_client_hello m2 = [] /\ m_out m2 = m_out m ++ [EvDtlsState dtls_connecting; EvSslRead].
Proof.
  apply (early_client_hello); try (vm_compute; reflexivity).
  vm_compute. lia.
Defined.
