(* ===== verification/Sdp.v ===== *)
(** * Session descriptions (pc/session_description.cpp, pc/codec_info.h,
    pc/stream_params.cpp, rtc_base/ssl_fingerprint.cc)

    The description of a session and its text.  The text is a list of lines,
    each ended by CR LF as the [stringstream] receives them. *)

From S2P Require Import Prelude StringEncode IpAddress IceTypes.
Local Open Scope Z_scope.

(** ** Data *)

Inductive sdpType : Type := k_offer | k_answer.
Inductive MediaType : Type := MEDIA_TYPE_AUDIO | MEDIA_TYPE_VIDEO.
Inductive RtpDirection : Type := k_send_recv | k_send_only | k_recv_only | k_inactive.
Inductive ConnectionRole : Type := NONE | ACTIVE | PASSIVE | ACTPASS | HOLDCONN.

#[export] Instance MediaType_eq_dec : EqDecision MediaType.
Proof. solve_decision. Defined.

(** An empty [param] is the one-argument constructor. *)
Record FeedbackParam : Type := mkFeedback { fb_id : bytes; fb_param : bytes }.

(** [CodecParam] is a [std::map]: its entries in the order of the keys. *)
Record CodecInfo : Type := mkCodec {
  cd_id : Z;
  cd_name : bytes;
  cd_clockrate : Z;
  cd_channels : option Z;  (* of an [AudioCodecInfo]; [None]: a [VideoCodecInfo] *)
  cd_feedback_param : list FeedbackParam;
  cd_codec_param : list (bytes * bytes);
}.

Record SsrcGroup : Type := mkSsrcGroup { sg_semantics : bytes; sg_ssrcs : list Z }.

Record StreamParams : Type := mkStreamParams {
  sp_id : bytes;
  sp_ssrcs : list Z;
  sp_ssrc_groups : list SsrcGroup;
  sp_cname : bytes;
  sp_stream_id : bytes;
}.

Definition has_ssrc (s : StreamParams) (ssrc : Z) : bool := existsb (fun item => item =? ssrc) (sp_ssrcs s).

Record MediaContentDescription : Type := mkContent {
  mc_type : MediaType;
  mc_direction : RtpDirection;
  mc_rtcp_mux : bool;
  mc_candidates : list Candidate;
  mc_send_streams : list StreamParams;
}.

Definition mid_of (t : MediaType) : bytes :=
  match t with MEDIA_TYPE_AUDIO => str "audio" | MEDIA_TYPE_VIDEO => str "video" end.

Definition mc_mid (c : MediaContentDescription) : bytes := mid_of (mc_type c).

(** The codecs the constructor of the description adds. *)
Definition get_codecs (t : MediaType) : list CodecInfo :=
  match t with
  | MEDIA_TYPE_AUDIO =>
      [mkCodec 111 (str "opus") 48000 (Some 2) [mkFeedback (str "transport-cc") []]
         [(str "minptime", str "10"); (str "useinbandfec", str "1")]]
  | MEDIA_TYPE_VIDEO =>
      [mkCodec 107 (str "h264") 90000 None
         [mkFeedback (str "goog-remb") []; mkFeedback (str "transport-cc") [];
          mkFeedback (str "ccm") (str "fir"); mkFeedback (str "nack") [];
          mkFeedback (str "nack") (str "pli")]
         [(str "level-asymmetry-allowed", str "1"); (str "packetization-mode", str "1");
          (str "profile-level-id", str "42e01f")];
       mkCodec 99 (str "rtx") 90000 None [] [(str "apt", to_string 107)]]
  end.

(** The direction member is uninitialised until it is set; here it starts as
    any direction [d]. *)
Definition new_content (t : MediaType) (d : RtpDirection) : MediaContentDescription :=
  mkContent t d true [] [].

Record ContentGroup : Type := mkGroup { cg_semantics : bytes; cg_content_names : list bytes }.

Definition has_content_name (g : ContentGroup) (name : bytes) : bool :=
  existsb (fun n => bool_decide (n = name)) (cg_content_names g).

Definition add_content_name (name : bytes) (g : ContentGroup) : ContentGroup :=
  if has_content_name g name then g
  else mkGroup (cg_semantics g) (cg_content_names g ++ [name]).

Record SSLFingerprint : Type := mkFingerprint { fp_algorithm : bytes; fp_digest : bytes }.

Record TransportDescription : Type := mkTd {
  td_mid : bytes;
  td_ice_ufrag : bytes;
  td_ice_pwd : bytes;
  td_identity_fingerprint : option SSLFingerprint;
  td_connection_role : ConnectionRole;
}.

Definition new_td : TransportDescription := mkTd [] [] [] None NONE.

Record SessionDescription : Type := mkDesc {
  sd_type : sdpType;
  sd_contents : list MediaContentDescription;
  sd_content_groups : list ContentGroup;
  sd_transport_infos : list TransportDescription;
}.

Definition new_desc (t : sdpType) : SessionDescription := mkDesc t [] [] [].

(** ** Operations *)

Definition add_content (c : MediaContentDescription) (d : SessionDescription) : SessionDescription :=
  mkDesc (sd_type d) (sd_contents d ++ [c]) (sd_content_groups d) (sd_transport_infos d).

Definition add_group (g : ContentGroup) (d : SessionDescription) : SessionDescription :=
  mkDesc (sd_type d) (sd_contents d) (sd_content_groups d ++ [g]) (sd_transport_infos d).

Definition add_transport_td (td : TransportDescription) (d : SessionDescription) : SessionDescription :=
  mkDesc (sd_type d) (sd_contents d) (sd_content_groups d) (sd_transport_infos d ++ [td]).

Definition get_content (mid : bytes) (d : SessionDescription) : option MediaContentDescription :=
  List.find (fun c => bool_decide (mc_mid c = mid)) (sd_contents d).

Definition get_transport_info (mid : bytes) (d : SessionDescription) : option TransportDescription :=
  List.find (fun td => bool_decide (td_mid td = mid)) (sd_transport_infos d).

Definition get_group_by_name (name : bytes) (d : SessionDescription) : list ContentGroup :=
  List.filter (fun g => bool_decide (cg_semantics g = name)) (sd_content_groups d).

Definition BUNDLE : bytes := str "BUNDLE".

Definition is_bundle (mid : bytes) (d : SessionDescription) : bool :=
  existsb (fun g => existsb (fun name => bool_decide (name = mid)) (cg_content_names g))
    (get_group_by_name BUNDLE d).

(** [content_names()[0]] of the first group. *)
Definition get_first_bundle_mid (d : SessionDescription) : outcome bytes :=
  match get_group_by_name BUNDLE d with
  | [] => Done []
  | g :: _ => deref out_of_bounds (head (cg_content_names g))
  end.

(** [add_transport_info(mid, ice_param, certificate)].  [certificate] is what
    [SSLFingerprint::CreateFromCertificate] makes of it: [None] for a null
    certificate, [Some None] where it fails. *)
Definition add_transport_info (mid : bytes) (ice_param : IceParameters)
    (certificate : option (option SSLFingerprint)) (d : SessionDescription)
    : bool * SessionDescription :=
  let role := match sd_type d with k_offer => ACTPASS | k_answer => ACTIVE end in
  match certificate with
  | Some None => (false, d)
  | None => (true, add_transport_td (mkTd mid (ice_ufrag ice_param) (ice_pwd ice_param) None role) d)
  | Some fp =>
      (true, add_transport_td (mkTd mid (ice_ufrag ice_param) (ice_pwd ice_param) fp role) d)
  end.

(** ** Fingerprints *)

Definition IsFips180DigestAlgorithm (alg : bytes) : bool :=
  existsb (fun a => bool_decide (alg = a))
    [str "sha-1"; str "sha-224"; str "sha-256"; str "sha-384"; str "sha-512"].

(** [MessageDigest::kMaxSize] *)
Definition kMaxSize : nat := 64.

Definition CreateUniqueFromRfc4572 (algorithm fingerprint : bytes) : option SSLFingerprint :=
  if bool_decide (algorithm = []) || negb (IsFips180DigestAlgorithm algorithm) then None
  else if bool_decide (fingerprint = []) then None
  else mkFingerprint algorithm <$> hex_decode_with_delimiter kMaxSize fingerprint ":".

Definition GetRfc4572Fingerprint (fp : SSLFingerprint) : bytes :=
  map to_upper (hex_encode_with_delimiter (fp_digest fp) (Some ":"%byte)).

(** ** The text *)

Definition k_media_protocol_dtls_savpf : bytes := str "UDP/TLS/RTP/SAVPF".

Definition add_rtcp_fb_line (c : CodecInfo) : list bytes :=
  map (fun p => str "a=rtcp-fd:" ++ to_string (cd_id c) ++ str " " ++ fb_id p ++
                (if bool_decide (fb_param p = []) then [] else str " " ++ fb_param p))
    (cd_feedback_param c).

Definition add_fmtp_line (c : CodecInfo) : list bytes :=
  match cd_codec_param c with
  | [] => []
  | _ =>
      let data := flat_map (fun '(k, v) => str ";" ++ k ++ str "=" ++ v) (cd_codec_param c) in
      [str "a=fmtp:" ++ to_string (cd_id c) ++ str " " ++ drop 1 data]
  end.

(** Only audio contents print channels, and their codecs are audio codecs. *)
Definition build_rtp_map (t : MediaType) : list bytes :=
  flat_map (fun c =>
    (str "a=rtpmap:" ++ to_string (cd_id c) ++ str " " ++ cd_name c ++ str "/" ++
     to_string (cd_clockrate c) ++
     match t, cd_channels c with
     | MEDIA_TYPE_AUDIO, Some channels => str "/" ++ to_string channels
     | _, _ => []
     end) :: add_rtcp_fb_line c ++ add_fmtp_line c) (get_codecs t).

Definition build_rtp_direction (d : RtpDirection) : list bytes :=
  [match d with
   | k_send_recv => str "a=sendrecv"
   | k_send_only => str "a=sendonly"
   | k_recv_only => str "a=recvonly"
   | k_inactive => str "a=inactive"
   end].

Definition connection_role_to_string (role : ConnectionRole) : bytes :=
  match role with
  | ACTIVE => str "active"
  | PASSIVE => str "passive"
  | ACTPASS => str "actpass"
  | HOLDCONN => str "holdconn"
  | NONE => str "none"
  end.

Definition add_ssrc_line (ssrc : Z) (attribute value : bytes) : bytes :=
  str "a=ssrc:" ++ to_string ssrc ++ str " " ++ attribute ++ str ":" ++ value.

Definition build_ssrc (streams : list StreamParams) : list bytes :=
  flat_map (fun track =>
    flat_map (fun g =>
      match sg_ssrcs g with
      | [] => []
      | _ => [str "a=ssrc-group" ++ sg_semantics g ++
              flat_map (fun ssrc => str " " ++ to_string ssrc) (sg_ssrcs g)]
      end) (sp_ssrc_groups track) ++
    let msid := sp_stream_id track ++ str " " ++ sp_id track in
    flat_map (fun ssrc =>
      [add_ssrc_line ssrc (str "cname") (sp_cname track);
       add_ssrc_line ssrc (str "msid") msid;
       add_ssrc_line ssrc (str "mslabel") (sp_stream_id track);
       add_ssrc_line ssrc (str "lable") (sp_id track)]) (sp_ssrcs track)) streams.

Definition crlf (line : bytes) : bytes := line ++ [x0d; x0a].

Section text.
(** [inet_ntop] of the C library, for IPv4 and IPv6 addresses. *)
Variable inet_ntop : IPAddress -> bytes.

Definition HostAsURIString (a : SocketAddress) : bytes :=
  if negb (literal_ a) && negb (bool_decide (hostname_ a = [])) then hostname_ a
  else match ip_ a with
       | ip_v6 _ => str "[" ++ inet_ntop (ip_ a) ++ str "]"
       | ip_v4 _ => inet_ntop (ip_ a)
       | ip_unspec => []
       end.

Definition build_candidate (cs : list Candidate) : list bytes :=
  map (fun c => str "a=candidate:" ++ foundation c ++ str " " ++ to_string (component c) ++
                str " " ++ protocol c ++ str " " ++ to_string (cand_priority c) ++ str " " ++
                HostAsURIString (address c) ++ str " " ++ to_string (cand_port c) ++
                str " typ " ++ cand_type c) cs.

Definition transport_lines (td : TransportDescription) : list bytes :=
  [str "a=ice-ufrag:" ++ td_ice_ufrag td; str "a=ice-pwd:" ++ td_ice_pwd td] ++
  match td_identity_fingerprint td with
  | Some fp =>
      [str "a=fingerprint:" ++ fp_algorithm fp ++ str " " ++ GetRfc4572Fingerprint fp;
       str "a=setup:" ++ connection_role_to_string (td_connection_role td)]
  | None => []
  end.

Definition media_line (t : MediaType) : bytes :=
  str "m=" ++ mid_of t ++ str " 9 " ++ k_media_protocol_dtls_savpf ++
  flat_map (fun c => str " " ++ to_string (cd_id c)) (get_codecs t).

Definition content_lines (d : SessionDescription) (c : MediaContentDescription) : list bytes :=
  [media_line (mc_type c); str "c=IN IP4 0.0.0.0"; str "a=rtcp:9 IN IP4 0.0.0.0"] ++
  build_candidate (mc_candidates c) ++
  from_option transport_lines [] (get_transport_info (mc_mid c) d) ++
  [str "a=mid:" ++ mc_mid c] ++
  build_rtp_direction (mc_direction c) ++
  (if mc_rtcp_mux c then [str "a=rtcp-mux"] else []) ++
  build_rtp_map (mc_type c) ++
  build_ssrc (mc_send_streams c).

Definition group_lines (d : SessionDescription) : list bytes :=
  match get_group_by_name BUNDLE d with
  | [] => []
  | gs => [str "a=group:BUNDLE" ++
           flat_map (fun g => flat_map (fun name => str " " ++ name) (cg_content_names g)) gs]
  end.

Definition sdp_lines (d : SessionDescription) : list bytes :=
  [str "v=0"; str "o=- 0 2 IN IP4 127.0.0.1"; str "s=-"; str "t=0 0"] ++
  group_lines d ++ [str "a=msid-semantic: WMS"] ++
  flat_map (content_lines d) (sd_contents d).

(** [SessionDescription::to_string] *)
Definition desc_to_string (d : SessionDescription) : bytes := flat_map crlf (sdp_lines d).
End text.
