(* ===== verification/SdpParse.v ===== *)
(** * Parsing a remote description (pc/peer_connection.cpp)

    [set_remote_sdp] up to the call of the transport controller: the text of
    an answer line by line.  [None] is the code's [return -1]; [substr] may
    throw, and nothing on this path catches. *)

From S2P Require Import Prelude StringEncode IpAddress IceTypes Sdp.
Local Open Scope Z_scope.

Record SsrcInfo : Type := mkSsrcInfo {
  si_ssrc_id : Z;
  si_cname : bytes;
  si_stream_id : bytes;
  si_track_id : bytes;
}.

(** Replace the first element that satisfies [p], or append [new] changed by
    [f]: the find-or-push loops of the parser. *)
Fixpoint update_or_push {A} (p : A -> bool) (new : A) (f : A -> A) (l : list A) : list A :=
  match l with
  | [] => [f new]
  | x :: l => if p x then f x :: l else x :: update_or_push p new f l
  end.

Definition get_attribute (line : bytes) : bytes :=
  match tokenize line ":" with
  | _ :: f :: _ => f
  | _ => []
  end.

Definition parse_transport_info (td : TransportDescription) (line : bytes)
    : outcome (option TransportDescription) :=
  if contains (str "a=ice-ufrag") line then
    Done (Some (mkTd (td_mid td) (get_attribute line) (td_ice_pwd td) (td_identity_fingerprint td)
                  (td_connection_role td)))
  else if contains (str "a=ice-pwd") line then
    Done (Some (mkTd (td_mid td) (td_ice_ufrag td) (get_attribute line) (td_identity_fingerprint td)
                  (td_connection_role td)))
  else if contains (str "a=fingerprint") line then
    match tokenize line " " with
    | [item0; content] =>
        alg ← substr_from item0 14;
        match CreateUniqueFromRfc4572 (map to_lower alg) content with
        | None => Done None
        | Some fp =>
            Done (Some (mkTd (td_mid td) (td_ice_ufrag td) (td_ice_pwd td) (Some fp)
                          (td_connection_role td)))
        end
    | _ => Done None
    end
  else Done (Some td).

(** The attributes the parser keeps; [None] for an msid with more than two
    fields ([split] yields at least one). *)
Definition ssrc_attribute (attribute value : bytes) (info : SsrcInfo) : option SsrcInfo :=
  if bool_decide (attribute = str "cname") then
    Some (mkSsrcInfo (si_ssrc_id info) value (si_stream_id info) (si_track_id info))
  else if bool_decide (attribute = str "msid") then
    match split value " " with
    | [stream_id] => Some (mkSsrcInfo (si_ssrc_id info) (si_cname info) stream_id (si_track_id info))
    | [stream_id; track_id] => Some (mkSsrcInfo (si_ssrc_id info) (si_cname info) stream_id track_id)
    | _ => None
    end
  else Some info.

Definition parse_ssrc_info (infos : list SsrcInfo) (line : bytes) : outcome (option (list SsrcInfo)) :=
  if negb (contains (str "a=ssrc:") line) then Done (Some infos)
  else
    l ← substr_from line 2;
    match tokenize_first l " " with
    | None => Done None
    | Some (field1, field2) =>
        ssrc_id_s ← substr_from field1 5;
        match FromString_uint32 ssrc_id_s, tokenize_first field2 ":" with
        | Some ssrc_id, Some (attribute, value) =>
            let set info := default info (ssrc_attribute attribute value info) in
            match ssrc_attribute attribute value (mkSsrcInfo ssrc_id [] [] []) with
            | None => Done None
            | Some _ =>
                Done (Some (update_or_push (fun i => si_ssrc_id i =? ssrc_id)
                              (mkSsrcInfo ssrc_id [] [] []) set infos))
            end
        | _, _ => Done None
        end
    end.

Fixpoint parse_ssrc_ids (fields : list bytes) : option (list Z) :=
  match fields with
  | [] => Some []
  | f :: fields => ssrc_id ← FromString_uint32 f; ssrcs ← parse_ssrc_ids fields; Some (ssrc_id :: ssrcs)
  end.

Definition parse_ssrc_group_info (groups : list SsrcGroup) (line : bytes)
    : outcome (option (list SsrcGroup)) :=
  if negb (contains (str "a=ssrc-group:") line) then Done (Some groups)
  else
    l ← substr_from line 2;
    match split l " " with
    | field0 :: (_ :: _) as fields =>
        let semantics := get_attribute field0 in
        if bool_decide (semantics = []) then Done None
        else Done (ssrcs ← parse_ssrc_ids (tail fields); Some (groups ++ [mkSsrcGroup semantics ssrcs]))
    | _ => Done None
    end.

Definition create_track_from_ssrc_info (infos : list SsrcInfo) (tracks : list StreamParams)
    : list StreamParams :=
  fold_left (fun tracks info =>
    update_or_push (fun t => bool_decide (sp_id t = si_track_id info))
      (mkStreamParams (si_track_id info) [] [] [] [])
      (fun t => mkStreamParams (sp_id t) (sp_ssrcs t ++ [si_ssrc_id info]) (sp_ssrc_groups t)
                  (si_cname info) (si_stream_id info)) tracks) infos tracks.

(** The variables of the loop over the lines.  The two contents and the two
    transport descriptions are shared pointers: the description of the peer
    refers to them while the loop and what follows it still change them, so
    the list of contents holds the types and the objects are looked up at the
    end. *)
Record parse_state : Type := mkParse {
  ps_media_type : bytes;
  ps_groups : list ContentGroup;
  ps_contents : list MediaType;
  ps_audio_td : TransportDescription;
  ps_video_td : TransportDescription;
  ps_audio_ssrc : list SsrcInfo;
  ps_video_ssrc : list SsrcInfo;
  ps_video_groups : list SsrcGroup;
}.

Definition parse_start : parse_state := mkParse [] [] [] new_td new_td [] [] [].

Definition set_mid (mid : bytes) (td : TransportDescription) : TransportDescription :=
  mkTd mid (td_ice_ufrag td) (td_ice_pwd td) (td_identity_fingerprint td) (td_connection_role td).

(** The [m=] branches of one turn of the loop. *)
Definition parse_m_line (field : bytes) (s : parse_state) : outcome (option parse_state) :=
  if contains (str "m=group:BUNDLE") field then
    match split field " " with
    | _ :: (_ :: _) as names =>
        let g := fold_left (fun g name => add_content_name name g) (tail names) (mkGroup BUNDLE []) in
        Done (Some (mkParse (ps_media_type s) (ps_groups s ++ [g]) (ps_contents s) (ps_audio_td s)
                      (ps_video_td s) (ps_audio_ssrc s) (ps_video_ssrc s) (ps_video_groups s)))
    | _ => Done (Some s)
    end
  else if contains (str "m=") field then
    match split field " " with
    | item0 :: _ :: _ :: _ =>
        media_type ← substr_from item0 2;
        if bool_decide (media_type = str "audio") then
          Done (Some (mkParse media_type (ps_groups s) (ps_contents s ++ [MEDIA_TYPE_AUDIO])
                        (set_mid (str "audio") (ps_audio_td s)) (ps_video_td s) (ps_audio_ssrc s)
                        (ps_video_ssrc s) (ps_video_groups s)))
        else if bool_decide (media_type = str "video") then
          Done (Some (mkParse media_type (ps_groups s) (ps_contents s ++ [MEDIA_TYPE_VIDEO])
                        (ps_audio_td s) (set_mid (str "video") (ps_video_td s)) (ps_audio_ssrc s)
                        (ps_video_ssrc s) (ps_video_groups s)))
        else
          Done (Some (mkParse media_type (ps_groups s) (ps_contents s) (ps_audio_td s) (ps_video_td s)
                        (ps_audio_ssrc s) (ps_video_ssrc s) (ps_video_groups s)))
    | _ => Done None
    end
  else Done (Some s).

(** Bind for [outcome (option _)]: stop at an exception or a failed parse. *)
Definition try {A B} (m : outcome (option A)) (k : A -> outcome (option B)) : outcome (option B) :=
  o ← m; match o with None => Done None | Some a => k a end.

Definition parse_attribute_line (field : bytes) (s : parse_state) : outcome (option parse_state) :=
  if bool_decide (ps_media_type s = str "audio") then
    try (parse_transport_info (ps_audio_td s) field) (fun td =>
    try (parse_ssrc_info (ps_audio_ssrc s) field) (fun infos =>
    Done (Some (mkParse (ps_media_type s) (ps_groups s) (ps_contents s) td (ps_video_td s) infos
                  (ps_video_ssrc s) (ps_video_groups s)))))
  else if bool_decide (ps_media_type s = str "video") then
    try (parse_transport_info (ps_video_td s) field) (fun td =>
    try (parse_ssrc_group_info (ps_video_groups s) field) (fun groups =>
    try (parse_ssrc_info (ps_video_ssrc s) field) (fun infos =>
    Done (Some (mkParse (ps_media_type s) (ps_groups s) (ps_contents s) (ps_audio_td s) td
                  (ps_audio_ssrc s) infos groups)))))
  else Done (Some s).

(** One turn of the loop: whether it goes on, and the variables. *)
Definition parse_line (is_rn : bool) (field : bytes) (s : parse_state) : outcome (bool * parse_state) :=
  let field := if is_rn then take (length field - 1) field else field in
  o ← parse_m_line field s;
  match o with
  | None => Done (false, s)
  | Some s =>
      o ← parse_attribute_line field s;
      match o with None => Done (false, s) | Some s => Done (true, s) end
  end.

Fixpoint parse_lines (is_rn : bool) (fields : list bytes) (s : parse_state)
    : outcome (bool * parse_state) :=
  match fields with
  | [] => Done (true, s)
  | f :: fields =>
      '(ok, s) ← parse_line is_rn f s;
      if ok : bool then parse_lines is_rn fields s else Done (false, s)
  end.

(** The streams of the video content: the loop that adds the tracks stands in
    the body of the loop over the groups. *)
Fixpoint add_video_streams (groups : list SsrcGroup) (tracks : list StreamParams) : list StreamParams :=
  match groups with
  | [] => []
  | g :: groups =>
      match sg_ssrcs g with
      | [] => add_video_streams groups tracks
      | ssrc :: _ =>
          let tracks := map (fun t =>
            if has_ssrc t ssrc
            then mkStreamParams (sp_id t) (sp_ssrcs t) (sp_ssrc_groups t ++ [g]) (sp_cname t) (sp_stream_id t)
            else t) tracks in
          tracks ++ add_video_streams groups tracks
      end
  end.

Definition video_streams (s : parse_state) : list StreamParams :=
  match ps_video_ssrc s with
  | [] => []
  | infos => add_video_streams (ps_video_groups s) (create_track_from_ssrc_info infos [])
  end.

Definition audio_streams (s : parse_state) : list StreamParams :=
  match ps_audio_ssrc s with
  | [] => []
  | infos => create_track_from_ssrc_info infos []
  end.

(** The description; [direction] stands for the contents' direction, which
    the parser leaves unset.  A [return -1] in the loop leaves the groups and
    the contents found so far, without streams and transports. *)
Definition parsed_contents (direction : RtpDirection) (streams : MediaType -> list StreamParams)
    (s : parse_state) : list MediaContentDescription :=
  map (fun t => mkContent t direction true [] (streams t)) (ps_contents s).

Definition parsed_streams (s : parse_state) (t : MediaType) : list StreamParams :=
  match t with MEDIA_TYPE_AUDIO => audio_streams s | MEDIA_TYPE_VIDEO => video_streams s end.

Definition parsed_desc (direction : RtpDirection) (ok : bool) (s : parse_state) : SessionDescription :=
  if ok then
    mkDesc k_answer (parsed_contents direction (parsed_streams s) s) (ps_groups s)
      [ps_audio_td s; ps_video_td s]
  else mkDesc k_answer (parsed_contents direction (fun _ => []) s) (ps_groups s) [].

(** The result and the new [_remote_desc], from the old one. *)
Definition parse_remote_sdp (direction : RtpDirection) (sdp : bytes) (old : option SessionDescription)
    : outcome (Z * option SessionDescription) :=
  match tokenize sdp x0a with
  | [] => Done (-1, old)
  | fields =>
      let is_rn := contains [x0d; x0a] sdp in
      '(ok, s) ← parse_lines is_rn fields parse_start;
      Done (if ok : bool then 0 else -1, Some (parsed_desc direction ok s))
  end.
