(* ===== verification/SdpTheory.v ===== *)
(** * The text of descriptions and its parser

    What the parser makes of the text that [to_string] prints, line by line
    and as a whole. *)

From S2P Require Import Prelude StringEncode IpAddress IceTypes Sdp SdpParse.
Local Open Scope Z_scope.

(** ** Characters *)

(** Text that may stand in an attribute line, and a word of it. *)
Definition plain_char (b : byte) : bool :=
  negb (bool_decide (b = x0a)) && negb (bool_decide (b = "="%byte)).
Definition word_char (b : byte) : bool :=
  plain_char b && negb (bool_decide (b = " "%byte)) && negb (bool_decide (b = ":"%byte)).

Definition plain (s : bytes) : bool := forallb plain_char s.
Definition word (s : bytes) : bool := forallb word_char s.

Lemma plain_app s1 s2 : plain (s1 ++ s2) = plain s1 && plain s2.
Proof. apply forallb_app. Qed.

Lemma word_app s1 s2 : word (s1 ++ s2) = word s1 && word s2.
Proof. apply forallb_app. Qed.

Lemma word_plain s : word s = true -> plain s = true.
Proof.
  unfold word, plain. rewrite !forallb_forall. intros Hs b Hb. specialize (Hs b Hb).
  unfold word_char in Hs. by apply andb_true_iff in Hs as [[Hs _]%andb_true_iff _].
Qed.

Lemma forallb_notin (f : byte -> bool) s b : forallb f s = true -> f b = false -> b ∉ s.
Proof.
  rewrite forallb_forall. intros Hs Hb Hin. apply list_elem_of_In in Hin. by rewrite (Hs b Hin) in Hb.
Qed.

Lemma word_no_space s : word s = true -> " "%byte ∉ s.
Proof. intros Hs. by eapply forallb_notin. Qed.
Lemma word_no_colon s : word s = true -> ":"%byte ∉ s.
Proof. intros Hs. by eapply forallb_notin. Qed.
Lemma plain_no_eq s : plain s = true -> "="%byte ∉ s.
Proof. intros Hs. by eapply forallb_notin. Qed.
Lemma plain_no_newline s : plain s = true -> x0a ∉ s.
Proof. intros Hs. by eapply forallb_notin. Qed.

Lemma digits_word s : Forall (fun b => is_digit b = true) s -> word s = true.
Proof.
  intros Hs. apply forallb_forall. intros b Hb. apply list_elem_of_In in Hb.
  pose proof (proj1 (Forall_forall _ _) Hs b Hb) as Hd. by destruct b.
Qed.

Lemma to_string_word n : 0 <= n -> word (to_string n) = true.
Proof. intros Hn. apply digits_word, to_string_spec, Hn. Qed.

Lemma hex_upper_plain b : forallb (fun c => plain_char c && negb (bool_decide (c = " "%byte)))
  (map to_upper (hex_pair b)) = true.
Proof. by destruct b. Qed.

Lemma fingerprint_text_chars s :
  forallb (fun c => plain_char c && negb (bool_decide (c = " "%byte)))
    (map to_upper (hex_encode_with_delimiter s (Some ":"%byte))) = true.
Proof.
  induction s as [|b s IH]; [done|]. destruct s as [|b' s']; [apply hex_upper_plain|].
  change (hex_encode_with_delimiter (b :: b' :: s') (Some ":"%byte)) with
    (hex_pair b ++ [":"%byte] ++ hex_encode_with_delimiter (b' :: s') (Some ":"%byte)).
  by rewrite !map_app, !forallb_app, hex_upper_plain, IH.
Qed.

(** ** Substrings of an attribute line *)

Lemma is_prefix_second (a : byte) p b s : "="%byte ∉ s -> is_prefix (a :: "="%byte :: p) (b :: s) = false.
Proof.
  intros Hs. cbn [is_prefix]. destruct (bool_decide (a = b)); [|done]. destruct s as [|c s]; [done|].
  cbn [is_prefix]. apply not_elem_of_cons in Hs as [Hc _]. by rewrite bool_decide_false.
Qed.

Lemma contains_no_eq (a : byte) p s : "="%byte ∉ s -> contains (a :: "="%byte :: p) s = false.
Proof.
  induction s as [|b s IH]; intros Hs; [done|]. cbn [contains].
  apply not_elem_of_cons in Hs as [_ Hs]. rewrite is_prefix_second, IH by done. done.
Qed.

(** In a line [x=...] with no other equals sign a pattern [y=...] can only
    stand at the start. *)
Lemma contains_line (a b : byte) p s :
  plain s = true ->
  contains (a :: "="%byte :: p) (b :: "="%byte :: s) = is_prefix (a :: "="%byte :: p) (b :: "="%byte :: s).
Proof.
  intros Hs. pose proof (plain_no_eq s Hs) as He.
  change (contains (a :: "="%byte :: p) (b :: "="%byte :: s)) with
    (is_prefix (a :: "="%byte :: p) (b :: "="%byte :: s) ||
     (is_prefix (a :: "="%byte :: p) ("="%byte :: s) || contains (a :: "="%byte :: p) s)).
  rewrite (is_prefix_second a p "="%byte s), contains_no_eq by done. apply orb_false_r.
Qed.

Lemma is_prefix_app_r p s t : is_prefix p (s ++ t) = true -> is_prefix (take (length s) p) s = true.
Proof.
  revert p. induction s as [|b s IH]; intros [|a p]; cbn [is_prefix app length take]; try done.
  intros [Ha Hs]%andb_true_iff. rewrite Ha. by apply IH.
Qed.

Lemma is_prefix_common u p s : is_prefix (u ++ p) (u ++ s) = is_prefix p s.
Proof. induction u as [|a u IH]; [done|]. cbn [app is_prefix]. by rewrite bool_decide_true, IH. Qed.

(** ** Lines *)

Lemma tokenize_lines lines :
  Forall (fun l => x0a ∉ l) lines ->
  tokenize (flat_map crlf lines) x0a = map (fun l => l ++ [x0d]) lines.
Proof.
  unfold tokenize. induction 1 as [|l lines Hl _ IH]; [done|]. cbn [flat_map map]. unfold crlf at 1.
  rewrite tokenize_loop_split. change (split_loop x0a [] ?s) with (split s x0a).
  rewrite <- !app_assoc, split_field_app by done. cbn [app]. rewrite !split_cons.
  rewrite bool_decide_false, bool_decide_true by done.
  unfold tokenize in IH. rewrite tokenize_loop_split in IH. change (split_loop x0a [] ?s) with (split s x0a) in IH.
  rewrite filter_cons, decide_True, IH; [done|]. by destruct l.
Qed.

Lemma is_prefix_app_l p s t : is_prefix p s = true -> is_prefix p (s ++ t) = true.
Proof.
  revert s. induction p as [|a p IH]; intros [|c s]; cbn [is_prefix app]; try done.
  intros [Ha Hs]%andb_true_iff. rewrite Ha. by apply IH.
Qed.

Lemma contains_app_l p s t : contains p s = true -> contains p (s ++ t) = true.
Proof.
  induction s as [|b s IH]; cbn [contains app].
  - destruct p; [|done]. by destruct t.
  - intros [Hp|Hc]%orb_true_iff; apply orb_true_iff; [left|right; by apply IH].
    by apply (is_prefix_app_l p (b :: s)).
Qed.

Lemma contains_app_r p s t : contains p t = true -> contains p (s ++ t) = true.
Proof. intros Ht. induction s as [|b s IH]; [done|]. cbn [contains app]. by rewrite IH, orb_true_r. Qed.

Lemma contains_crlf lines : lines <> [] -> contains [x0d; x0a] (flat_map crlf lines) = true.
Proof.
  destruct lines as [|l lines]; [done|]. intros _. cbn [flat_map].
  apply contains_app_l. unfold crlf. by apply contains_app_r.
Qed.

Lemma parse_lines_app rn l1 l2 s s1 :
  parse_lines rn l1 s = Done (true, s1) -> parse_lines rn (l1 ++ l2) s = parse_lines rn l2 s1.
Proof.
  revert s. induction l1 as [|f l1 IH]; intros s; cbn [parse_lines app]; [by intros [= <-]|].
  destruct (parse_line rn f s) as [[[|] s2]| |]; cbn; try done. apply IH.
Qed.

(** A line as it is cut at the newlines, with its carriage return. *)
Lemma parse_line_cr l s :
  parse_line true (l ++ [x0d]) s =
  (o ← parse_m_line l s;
   match o with
   | None => Done (false, s)
   | Some s =>
       o ← parse_attribute_line l s;
       match o with None => Done (false, s) | Some s => Done (true, s) end
   end).
Proof.
  unfold parse_line. rewrite length_app. cbn [length].
  replace (length l + 1 - 1)%nat with (length l) by lia. by rewrite take_app_length.
Qed.

(** The patterns the parser looks for. *)
Definition patterns : list bytes :=
  [str "m=group:BUNDLE"; str "m="; str "a=ice-ufrag"; str "a=ice-pwd"; str "a=fingerprint";
   str "a=ssrc:"; str "a=ssrc-group:"].

Definition inert (l : bytes) : bool := forallb (fun p => negb (contains p l)) patterns.

Lemma inert_not l p : inert l = true -> In p patterns -> contains p l = false.
Proof. unfold inert. rewrite forallb_forall. intros Hl Hp. by apply negb_true_iff, Hl. Qed.

Lemma inert_line l s : inert l = true -> parse_line true (l ++ [x0d]) s = Done (true, s).
Proof.
  intros Hl. rewrite parse_line_cr. unfold parse_m_line.
  rewrite !(inert_not l) by (done || (cbn; tauto)). cbn [mbind outcome_bind].
  unfold parse_attribute_line, parse_transport_info, parse_ssrc_info, parse_ssrc_group_info.
  rewrite !(inert_not l) by (done || (cbn; tauto)). cbn [negb try mbind outcome_bind].
  destruct s as [mt g c atd vtd ai vi vg]. cbn [ps_media_type]. by repeat case_bool_decide.
Qed.

Lemma inert_lines ls s :
  forallb inert ls = true -> parse_lines true (map (fun l => l ++ [x0d]) ls) s = Done (true, s).
Proof.
  induction ls as [|l ls IH]; [done|]. cbn [forallb map parse_lines]. intros [Hl Hls]%andb_true_iff.
  rewrite inert_line by done. by apply IH.
Qed.

(** A line [pre ++ t] whose head [pre] decides. *)
Definition second_eq (s : bytes) : bool :=
  match s with _ :: c :: _ => bool_decide (c = "="%byte) | _ => false end.

Definition head_decides (pre p : bytes) (v : bool) : bool :=
  second_eq pre && second_eq p && plain (drop 2 pre) &&
  (if v then is_prefix p pre else negb (is_prefix (take (length pre) p) pre)).

Lemma contains_head pre t p v :
  head_decides pre p v = true -> plain t = true -> contains p (pre ++ t) = v.
Proof.
  unfold head_decides. intros [[[H1 H2]%andb_true_iff H3]%andb_true_iff H4]%andb_true_iff Ht.
  destruct pre as [|b [|c h]]; try done. cbn [second_eq] in H1. apply bool_decide_eq_true in H1 as ->.
  destruct p as [|a [|c q]]; try done. cbn [second_eq] in H2. apply bool_decide_eq_true in H2 as ->.
  change (drop 2 (b :: "="%byte :: h)) with h in H3. change ((b :: "="%byte :: h) ++ t) with (b :: "="%byte :: (h ++ t)).
  rewrite contains_line by (by rewrite plain_app, H3, Ht).
  change (b :: "="%byte :: (h ++ t)) with ((b :: "="%byte :: h) ++ t). destruct v.
  - by apply is_prefix_app_l.
  - apply negb_true_iff in H4. apply not_true_is_false. intros Ht'. apply is_prefix_app_r in Ht'. congruence.
Qed.

Lemma inert_head pre t :
  forallb (fun p => head_decides pre p false) patterns = true -> plain t = true ->
  inert (pre ++ t) = true.
Proof.
  intros Hp Ht. unfold inert. rewrite forallb_forall in *. intros p Hin.
  by rewrite (contains_head pre t p false) by auto.
Qed.

(** ** The lines that carry something *)

(** The parts of the loop's variables that belong to one kind of media. *)
Definition st_td (t : MediaType) (f : TransportDescription -> TransportDescription) (s : parse_state)
    : parse_state :=
  match t with
  | MEDIA_TYPE_AUDIO => mkParse (ps_media_type s) (ps_groups s) (ps_contents s) (f (ps_audio_td s))
      (ps_video_td s) (ps_audio_ssrc s) (ps_video_ssrc s) (ps_video_groups s)
  | MEDIA_TYPE_VIDEO => mkParse (ps_media_type s) (ps_groups s) (ps_contents s) (ps_audio_td s)
      (f (ps_video_td s)) (ps_audio_ssrc s) (ps_video_ssrc s) (ps_video_groups s)
  end.

Definition st_ssrc (t : MediaType) (f : list SsrcInfo -> list SsrcInfo) (s : parse_state)
    : parse_state :=
  match t with
  | MEDIA_TYPE_AUDIO => mkParse (ps_media_type s) (ps_groups s) (ps_contents s) (ps_audio_td s)
      (ps_video_td s) (f (ps_audio_ssrc s)) (ps_video_ssrc s) (ps_video_groups s)
  | MEDIA_TYPE_VIDEO => mkParse (ps_media_type s) (ps_groups s) (ps_contents s) (ps_audio_td s)
      (ps_video_td s) (ps_audio_ssrc s) (f (ps_video_ssrc s)) (ps_video_groups s)
  end.

Definition set_ufrag (u : bytes) (td : TransportDescription) : TransportDescription :=
  mkTd (td_mid td) u (td_ice_pwd td) (td_identity_fingerprint td) (td_connection_role td).
Definition set_pwd (p : bytes) (td : TransportDescription) : TransportDescription :=
  mkTd (td_mid td) (td_ice_ufrag td) p (td_identity_fingerprint td) (td_connection_role td).
Definition set_fp (fp : SSLFingerprint) (td : TransportDescription) : TransportDescription :=
  mkTd (td_mid td) (td_ice_ufrag td) (td_ice_pwd td) (Some fp) (td_connection_role td).

(** A line that only the transport parser answers to. *)
Lemma transport_line l t f s :
  ps_media_type s = mid_of t ->
  (forall p, In p [str "m=group:BUNDLE"; str "m="; str "a=ssrc:"; str "a=ssrc-group:"] ->
     contains p l = false) ->
  (forall td, parse_transport_info td l = Done (Some (f td))) ->
  parse_line true (l ++ [x0d]) s = Done (true, st_td t f s).
Proof.
  intros Hm Hn Hf. rewrite parse_line_cr. unfold parse_m_line.
  rewrite !Hn by (cbn; tauto). cbn [mbind outcome_bind].
  unfold parse_attribute_line, parse_ssrc_info, parse_ssrc_group_info.
  rewrite !Hn by (cbn; tauto). rewrite Hm. unfold try, st_td. destruct t.
  - by rewrite bool_decide_true, Hf, Hm by done.
  - by rewrite bool_decide_false, bool_decide_true, Hf, Hm by done.
Qed.

Lemma get_attribute_head pre v :
  ":"%byte ∉ pre -> pre <> [] -> ":"%byte ∉ v -> v <> [] -> get_attribute (pre ++ ":"%byte :: v) = v.
Proof.
  intros Hp Hpn Hv Hvn. unfold get_attribute, tokenize. rewrite tokenize_loop_split.
  change (split_loop ":"%byte [] ?s) with (split s ":"%byte).
  rewrite split_field_app by done. rewrite split_cons, bool_decide_true by done.
  rewrite split_field by done. rewrite app_nil_r.
  destruct pre, v; try done.
Qed.

Ltac heads t := intros p Hin; cbn in Hin;
  repeat destruct Hin as [<-|Hin]; try done; (apply contains_head; [by vm_compute|exact t]).

Lemma ufrag_line t u s :
  ps_media_type s = mid_of t -> word u = true -> u <> [] ->
  parse_line true ((str "a=ice-ufrag:" ++ u) ++ [x0d]) s = Done (true, st_td t (set_ufrag u) s).
Proof.
  intros Hm Hu Hne. pose proof (word_plain u Hu) as Hp. apply transport_line; [done|heads Hp|].
  intros td. unfold parse_transport_info. rewrite (contains_head (str "a=ice-ufrag:") u (str "a=ice-ufrag") true eq_refl Hp).
  change (str "a=ice-ufrag:" ++ u) with (str "a=ice-ufrag" ++ ":"%byte :: u).
  rewrite get_attribute_head; [done|by apply (bool_decide_unpack _); vm_compute|done| |done].
  by apply word_no_colon.
Qed.

Lemma pwd_line t u s :
  ps_media_type s = mid_of t -> word u = true -> u <> [] ->
  parse_line true ((str "a=ice-pwd:" ++ u) ++ [x0d]) s = Done (true, st_td t (set_pwd u) s).
Proof.
  intros Hm Hu Hne. pose proof (word_plain u Hu) as Hp. apply transport_line; [done|heads Hp|].
  intros td. unfold parse_transport_info.
  rewrite (contains_head (str "a=ice-pwd:") u (str "a=ice-ufrag") false eq_refl Hp),
    (contains_head (str "a=ice-pwd:") u (str "a=ice-pwd") true eq_refl Hp).
  change (str "a=ice-pwd:" ++ u) with (str "a=ice-pwd" ++ ":"%byte :: u).
  rewrite get_attribute_head; [done|by apply (bool_decide_unpack _); vm_compute|done| |done].
  by apply word_no_colon.
Qed.

Lemma tokenize_two d a b :
  d ∉ a -> a <> [] -> d ∉ b -> b <> [] -> tokenize (a ++ d :: b) d = [a; b].
Proof.
  intros Ha Han Hb Hbn. unfold tokenize. rewrite tokenize_loop_split.
  change (split_loop d [] ?s) with (split s d).
  rewrite split_field_app by done. rewrite split_cons, bool_decide_true by done.
  rewrite split_field by done. rewrite app_nil_r. by destruct a, b.
Qed.

Lemma tokenize_first_at d a s :
  d ∉ a -> tokenize_first (a ++ d :: s) d = Some (a, skip_delimiters d s).
Proof.
  induction a as [|c a IH]; intros Ha; cbn [app tokenize_first].
  - by rewrite bool_decide_true.
  - apply not_elem_of_cons in Ha as [Hc Ha]. rewrite bool_decide_false by done. by rewrite (IH Ha).
Qed.

(** What a fingerprint must be for its text to be read. *)
Definition fingerprint_ok (fp : SSLFingerprint) : Prop :=
  IsFips180DigestAlgorithm (fp_algorithm fp) = true /\ fp_digest fp <> [] /\
  (length (fp_digest fp) <= kMaxSize)%nat.

Lemma fips_algorithm alg :
  IsFips180DigestAlgorithm alg = true ->
  alg <> [] /\ plain alg = true /\ (" "%byte ∉ alg) /\ map to_lower alg = alg.
Proof.
  unfold IsFips180DigestAlgorithm. rewrite existsb_exists. intros (a & Hin & ->%bool_decide_eq_true).
  cbn in Hin. repeat destruct Hin as [<-|Hin]; try done;
    (split_and!; [done|by vm_compute|by apply (bool_decide_unpack _); vm_compute|by vm_compute]).
Qed.

Lemma fingerprint_text_parse alg digest :
  fingerprint_ok (mkFingerprint alg digest) ->
  CreateUniqueFromRfc4572 (map to_lower alg) (GetRfc4572Fingerprint (mkFingerprint alg digest)) =
    Some (mkFingerprint alg digest) /\ GetRfc4572Fingerprint (mkFingerprint alg digest) <> [].
Proof.
  intros (Halg & Hne & Hlen). cbn [fp_algorithm fp_digest] in *.
  destruct (fips_algorithm alg Halg) as (Han & _ & _ & Hlow).
  assert (Ht : GetRfc4572Fingerprint (mkFingerprint alg digest) <> []).
  { unfold GetRfc4572Fingerprint. cbn [fp_digest]. intros E. apply (f_equal length) in E.
    rewrite length_map, hex_encode_length in E. cbn in E. destruct digest; [done|]. cbn in E. lia. }
  split; [|done]. unfold CreateUniqueFromRfc4572. rewrite Hlow, Halg, !bool_decide_false by done.
  cbn [negb orb]. unfold GetRfc4572Fingerprint. cbn [fp_digest]. by rewrite hex_decode_upper.
Qed.

Lemma fingerprint_plain fp : fingerprint_ok fp ->
  plain (fp_algorithm fp ++ str " " ++ GetRfc4572Fingerprint fp) = true /\
  " "%byte ∉ GetRfc4572Fingerprint fp.
Proof.
  intros (Halg & _). destruct (fips_algorithm _ Halg) as (_ & Hp & _ & _).
  pose proof (fingerprint_text_chars (fp_digest fp)) as Hc.
  change (map to_upper (hex_encode_with_delimiter (fp_digest fp) (Some ":"%byte))) with
    (GetRfc4572Fingerprint fp) in Hc.
  split.
  - rewrite !plain_app, Hp. cbn [andb]. change (plain (str " ")) with true. cbn [andb].
    unfold plain. rewrite forallb_forall in *. intros b Hb. by apply Hc in Hb as [? _]%andb_true_iff.
  - by eapply forallb_notin.
Qed.

Lemma fingerprint_line t fp s :
  ps_media_type s = mid_of t -> fingerprint_ok fp ->
  parse_line true ((str "a=fingerprint:" ++ fp_algorithm fp ++ str " " ++ GetRfc4572Fingerprint fp) ++ [x0d]) s =
    Done (true, st_td t (set_fp fp) s).
Proof.
  intros Hm Hok. destruct (fingerprint_plain fp Hok) as [Hp Hsp].
  apply transport_line; [done|heads Hp|]. intros td. unfold parse_transport_info.
  rewrite (contains_head (str "a=fingerprint:") _ (str "a=ice-ufrag") false eq_refl Hp),
    (contains_head (str "a=fingerprint:") _ (str "a=ice-pwd") false eq_refl Hp),
    (contains_head (str "a=fingerprint:") _ (str "a=fingerprint") true eq_refl Hp).
  destruct fp as [alg digest]. destruct (fingerprint_text_parse alg digest Hok) as [Hc Hne].
  destruct Hok as (Halg & _). destruct (fips_algorithm alg Halg) as (_ & _ & Hs & _).
  cbn [fp_algorithm] in *.
  change (str "a=fingerprint:" ++ alg ++ str " " ++ ?t) with (str "a=fingerprint:" ++ alg ++ " "%byte :: t).
  rewrite app_assoc, tokenize_two; [| |done|done|done].
  2: { apply not_elem_of_app. split; [by apply (bool_decide_unpack _); vm_compute|done]. }
  change (substr_from (str "a=fingerprint:" ++ alg) 14) with (Done alg). cbn [mbind outcome_bind].
  by rewrite Hc.
Qed.

(** *** SSRC lines *)

Lemma update_or_push_fresh {A} (p : A -> bool) new f l :
  (forall x, In x l -> p x = false) -> update_or_push p new f l = l ++ [f new].
Proof.
  induction l as [|x l IH]; intros Hl; [done|]. cbn [update_or_push].
  rewrite (Hl x) by (by left). rewrite IH; [done|]. intros y Hy. apply Hl. by right.
Qed.

Lemma update_or_push_last {A} (p : A -> bool) new f l x :
  (forall x, In x l -> p x = false) -> p x = true ->
  update_or_push p new f (l ++ [x]) = l ++ [f x].
Proof.
  induction l as [|y l IH]; intros Hl Hx; cbn [update_or_push app]; [by rewrite Hx|].
  rewrite (Hl y) by (by left). rewrite IH; [done| |done]. intros z Hz. apply Hl. by right.
Qed.

Definition ssrc_update (ssrc : Z) (attribute value : bytes) (infos : list SsrcInfo) : list SsrcInfo :=
  update_or_push (fun i => si_ssrc_id i =? ssrc) (mkSsrcInfo ssrc [] [] [])
    (fun info => default info (ssrc_attribute attribute value info)) infos.

Lemma skip_delimiters_other d s : head s <> Some d -> skip_delimiters d s = s.
Proof. destruct s as [|c s]; [done|]. cbn. intros Hc. rewrite bool_decide_false; [done|congruence]. Qed.

Lemma ssrc_line t ssrc attribute value s :
  ps_media_type s = mid_of t -> 0 <= ssrc < 2 ^ 32 -> word attribute = true -> attribute <> [] ->
  plain value = true -> head value <> Some ":"%byte ->
  is_Some (ssrc_attribute attribute value (mkSsrcInfo ssrc [] [] [])) ->
  parse_line true (add_ssrc_line ssrc attribute value ++ [x0d]) s =
    Done (true, st_ssrc t (ssrc_update ssrc attribute value) s).
Proof.
  intros Hm Hr Ha Han Hv Hvh [info Hinfo]. unfold add_ssrc_line.
  pose proof (to_string_word ssrc (proj1 Hr)) as Hn.
  set (rest := to_string ssrc ++ str " " ++ attribute ++ str ":" ++ value).
  assert (Hp : plain rest = true).
  { subst rest. rewrite !plain_app, (word_plain _ Hn), (word_plain _ Ha), Hv. done. }
  rewrite parse_line_cr. unfold parse_m_line.
  rewrite (contains_head (str "a=ssrc:") rest (str "m=group:BUNDLE") false eq_refl Hp),
    (contains_head (str "a=ssrc:") rest (str "m=") false eq_refl Hp).
  cbn [mbind outcome_bind]. unfold parse_attribute_line, parse_transport_info, parse_ssrc_group_info.
  rewrite (contains_head (str "a=ssrc:") rest (str "a=ice-ufrag") false eq_refl Hp),
    (contains_head (str "a=ssrc:") rest (str "a=ice-pwd") false eq_refl Hp),
    (contains_head (str "a=ssrc:") rest (str "a=fingerprint") false eq_refl Hp),
    (contains_head (str "a=ssrc:") rest (str "a=ssrc-group:") false eq_refl Hp).
  assert (Hparse : forall infos, parse_ssrc_info infos (str "a=ssrc:" ++ rest) =
    Done (Some (ssrc_update ssrc attribute value infos))).
  { intros infos. unfold parse_ssrc_info.
    rewrite (contains_head (str "a=ssrc:") rest (str "a=ssrc:") true eq_refl Hp). cbn [negb].
    change (substr_from (str "a=ssrc:" ++ rest) 2) with (Done (str "ssrc:" ++ rest)).
    cbn [mbind outcome_bind]. subst rest.
    change (str "ssrc:" ++ to_string ssrc ++ str " " ++ ?t) with
      (str "ssrc:" ++ to_string ssrc ++ " "%byte :: t).
    rewrite app_assoc, tokenize_first_at.
    2: { apply not_elem_of_app. split; [by apply (bool_decide_unpack _); vm_compute|].
         by apply word_no_space. }
    change (substr_from (str "ssrc:" ++ to_string ssrc) 5) with (Done (to_string ssrc)).
    cbn [mbind outcome_bind]. rewrite FromString_uint32_to_string by done.
    rewrite skip_delimiters_other.
    2: { destruct attribute as [|c attribute]; [done|]. cbn. intros [= ->]. done. }
    change (attribute ++ str ":" ++ value) with (attribute ++ ":"%byte :: value).
    rewrite tokenize_first_at by (by apply word_no_colon).
    rewrite skip_delimiters_other by done. by rewrite Hinfo. }
  unfold try, st_ssrc. rewrite Hm. destruct t.
  - by rewrite bool_decide_true, Hparse by done.
  - by rewrite bool_decide_false, bool_decide_true, Hparse by done.
Qed.

(** *** The lines of a stream *)

Record stream_ok (track : StreamParams) : Prop := {
  so_id : word (sp_id track) = true;
  so_stream_id : word (sp_stream_id track) = true;
  so_cname : word (sp_cname track) = true;
  so_ssrcs : sp_ssrcs track <> [];
  so_range : forall ssrc, In ssrc (sp_ssrcs track) -> 0 <= ssrc < 2 ^ 32;
  so_groups : forall g, In g (sp_ssrc_groups track) -> word (sg_semantics g) = true /\
    forall ssrc, In ssrc (sg_ssrcs g) -> 0 <= ssrc;
}.

Definition ssrc_info_of (track : StreamParams) (ssrc : Z) : SsrcInfo :=
  mkSsrcInfo ssrc (sp_cname track) (sp_stream_id track) (sp_id track).

Lemma word_head s : word s = true -> head s <> Some ":"%byte.
Proof. intros Hs. apply word_no_colon in Hs. destruct s as [|c s]; [done|]. cbn. intros [= ->]. apply Hs. by left. Qed.

Lemma st_ssrc_ssrc t f g s : st_ssrc t g (st_ssrc t f s) = st_ssrc t (fun l => g (f l)) s.
Proof. by destruct t. Qed.

Lemma ssrc_type t f s : ps_media_type (st_ssrc t f s) = ps_media_type s.
Proof. by destruct t. Qed.

Lemma td_type t f s : ps_media_type (st_td t f s) = ps_media_type s.
Proof. by destruct t. Qed.

(** The state's list of infos for this kind of media. *)
Definition infos_of (t : MediaType) (s : parse_state) : list SsrcInfo :=
  match t with MEDIA_TYPE_AUDIO => ps_audio_ssrc s | MEDIA_TYPE_VIDEO => ps_video_ssrc s end.

Lemma st_ssrc_ext t f g s : f (infos_of t s) = g (infos_of t s) -> st_ssrc t f s = st_ssrc t g s.
Proof. destruct t; cbn; by intros ->. Qed.

Definition ssrc_lines (track : StreamParams) (ssrc : Z) : list bytes :=
  [add_ssrc_line ssrc (str "cname") (sp_cname track);
   add_ssrc_line ssrc (str "msid") (sp_stream_id track ++ str " " ++ sp_id track);
   add_ssrc_line ssrc (str "mslabel") (sp_stream_id track);
   add_ssrc_line ssrc (str "lable") (sp_id track)].

Lemma one_ssrc t track ssrc s :
  ps_media_type s = mid_of t -> stream_ok track -> 0 <= ssrc < 2 ^ 32 ->
  (forall i, In i (infos_of t s) -> si_ssrc_id i <> ssrc) ->
  parse_lines true (map (fun l => l ++ [x0d]) (ssrc_lines track ssrc)) s =
    Done (true, st_ssrc t (fun l => l ++ [ssrc_info_of track ssrc]) s).
Proof.
  intros Hm [H1 H2 H3 _ _ _] Hr Hf. unfold ssrc_lines. cbn [map parse_lines].
  assert (Hmsid : forall i, ssrc_attribute (str "msid") (sp_stream_id track ++ str " " ++ sp_id track) i =
    Some (mkSsrcInfo (si_ssrc_id i) (si_cname i) (sp_stream_id track) (sp_id track))).
  { intros i. unfold ssrc_attribute. rewrite bool_decide_false, bool_decide_true by done.
    change (str " " ++ sp_id track) with (" "%byte :: sp_id track).
    rewrite split_field_app by (by apply word_no_space). rewrite split_cons, bool_decide_true by done.
    rewrite split_field by (by apply word_no_space). by rewrite app_nil_r. }
  rewrite (ssrc_line t) by (rewrite ?ssrc_type; try done; by (apply word_plain || apply word_head)).
  cbn [mbind outcome_bind].
  rewrite (ssrc_line t); [|by rewrite ?ssrc_type|done|done|done| | |by rewrite Hmsid].
  2: { rewrite !plain_app, (word_plain _ H1), (word_plain _ H2). done. }
  2: { pose proof (word_head _ H2) as Hh. by destruct (sp_stream_id track). }
  cbn [mbind outcome_bind].
  rewrite (ssrc_line t) by (rewrite ?ssrc_type; try done; by (apply word_plain || apply word_head)).
  cbn [mbind outcome_bind].
  rewrite (ssrc_line t) by (rewrite ?ssrc_type; try done; by (apply word_plain || apply word_head)).
  cbn [mbind outcome_bind]. rewrite !st_ssrc_ssrc. do 2 f_equal. apply st_ssrc_ext.
  assert (Hfresh : forall i, In i (infos_of t s) -> (si_ssrc_id i =? ssrc) = false)
    by (intros i Hi; apply Z.eqb_neq, Hf, Hi).
  unfold ssrc_update. rewrite (update_or_push_fresh _ _ _ (infos_of t s)) by done.
  rewrite !update_or_push_last by (done || (cbn; rewrite ?Hmsid; apply Z.eqb_refl)).
  cbn [default]. rewrite Hmsid. done.
Qed.

Lemma build_ssrc_cons track streams :
  build_ssrc (track :: streams) =
  flat_map (fun g => match sg_ssrcs g with
    | [] => []
    | _ => [str "a=ssrc-group" ++ sg_semantics g ++ flat_map (fun ssrc => str " " ++ to_string ssrc) (sg_ssrcs g)]
    end) (sp_ssrc_groups track) ++ flat_map (ssrc_lines track) (sp_ssrcs track) ++ build_ssrc streams.
Proof. unfold build_ssrc at 1. cbn [flat_map]. by rewrite <- app_assoc. Qed.

Lemma ssrcs_plain l : (forall ssrc, In ssrc l -> 0 <= ssrc) ->
  plain (flat_map (fun ssrc => str " " ++ to_string ssrc) l) = true.
Proof.
  induction l as [|n l IH]; intros Hl; [done|]. cbn [flat_map]. rewrite !plain_app.
  rewrite (word_plain _ (to_string_word n (Hl n (or_introl eq_refl)))), IH; [done|].
  intros m Hm. apply Hl. by right.
Qed.

(** The parser does not know the lines the printer writes for SSRC groups. *)
Lemma group_lines_inert gs :
  (forall g, In g gs -> word (sg_semantics g) = true /\ forall ssrc, In ssrc (sg_ssrcs g) -> 0 <= ssrc) ->
  forallb inert (flat_map (fun g => match sg_ssrcs g with
    | [] => []
    | _ => [str "a=ssrc-group" ++ sg_semantics g ++ flat_map (fun ssrc => str " " ++ to_string ssrc) (sg_ssrcs g)]
    end) gs) = true.
Proof.
  induction gs as [|g gs IH]; intros Hg; [done|]. cbn [flat_map]. rewrite forallb_app, IH.
  2: { intros g' Hin. apply Hg. by right. }
  destruct (Hg g (or_introl eq_refl)) as [Hw Hs]. rewrite andb_true_r.
  destruct (sg_ssrcs g) as [|n l] eqn:E; [done|]. cbn [forallb]. rewrite andb_true_r.
  set (rest := sg_semantics g ++ _).
  assert (Hp : plain rest = true).
  { subst rest. by rewrite plain_app, (word_plain _ Hw), ssrcs_plain. }
  assert (Hh : head rest <> Some ":"%byte).
  { subst rest. pose proof (word_head _ Hw) as Hh. by destruct (sg_semantics g). }
  unfold inert. rewrite forallb_forall. intros p Hin. apply negb_true_iff. cbn in Hin.
  repeat destruct Hin as [<-|Hin]; try done; try (apply contains_head; [by vm_compute|exact Hp]).
  change (str "a=ssrc-group" ++ rest) with ("a"%byte :: "="%byte :: (str "ssrc-group" ++ rest)).
  rewrite contains_line by (by rewrite plain_app, Hp).
  change ("a"%byte :: "="%byte :: (str "ssrc-group" ++ rest)) with (str "a=ssrc-group" ++ rest).
  etransitivity; [apply (is_prefix_common (str "a=ssrc-group") (str ":"))|].
  destruct rest as [|c rest]; [done|]. cbn [str is_prefix String.list_byte_of_string].
  change (bool_decide (":"%byte = c) && true = false). rewrite bool_decide_false; [done|].
  cbn in Hh. congruence.
Qed.

Lemma all_ssrcs t track ssrcs s :
  ps_media_type s = mid_of t -> stream_ok track ->
  (forall ssrc, In ssrc ssrcs -> 0 <= ssrc < 2 ^ 32) -> NoDup ssrcs ->
  (forall i, In i (infos_of t s) -> si_ssrc_id i ∉ ssrcs) ->
  parse_lines true (map (fun l => l ++ [x0d]) (flat_map (ssrc_lines track) ssrcs)) s =
    Done (true, st_ssrc t (fun l => l ++ map (ssrc_info_of track) ssrcs) s).
Proof.
  intros Hm Hok. revert s Hm. induction ssrcs as [|n ssrcs IH]; intros s Hm Hr Hnd Hf.
  { cbn. rewrite (st_ssrc_ext t _ (fun l => l)) by apply app_nil_r. by destruct s, t. }
  cbn [flat_map]. rewrite map_app.
  rewrite (parse_lines_app _ _ _ _ _ (one_ssrc t track n s Hm Hok (Hr n (or_introl eq_refl))
    ltac:(intros i Hi; specialize (Hf i Hi); set_solver))).
  apply NoDup_cons in Hnd as [Hn Hnd].
  rewrite IH; [|by rewrite ssrc_type|intros m Hin; apply Hr; by right|done|].
  - rewrite st_ssrc_ssrc. do 2 f_equal. apply st_ssrc_ext. by rewrite <- app_assoc.
  - intros i Hi. assert (Hi' : In i (infos_of t s ++ [ssrc_info_of track n])) by (by destruct t).
    apply in_app_or in Hi' as [Hi'|[<-|[]]]; [|exact Hn]. specialize (Hf i Hi'). set_solver.
Qed.

Definition stream_infos (streams : list StreamParams) : list SsrcInfo :=
  flat_map (fun track => map (ssrc_info_of track) (sp_ssrcs track)) streams.

Definition stream_ssrcs (streams : list StreamParams) : list Z := flat_map sp_ssrcs streams.

Lemma build_ssrc_parse t streams s :
  ps_media_type s = mid_of t -> Forall stream_ok streams -> NoDup (stream_ssrcs streams) ->
  (forall i, In i (infos_of t s) -> si_ssrc_id i ∉ stream_ssrcs streams) ->
  parse_lines true (map (fun l => l ++ [x0d]) (build_ssrc streams)) s =
    Done (true, st_ssrc t (fun l => l ++ stream_infos streams) s).
Proof.
  intros Hm Hok. revert s Hm. induction Hok as [|track streams Ht _ IH]; intros s Hm Hnd Hf.
  { cbn. rewrite (st_ssrc_ext t _ (fun l => l)) by apply app_nil_r. by destruct s, t. }
  rewrite build_ssrc_cons, !map_app.
  rewrite (parse_lines_app _ _ _ s s) by (apply inert_lines, group_lines_inert, Ht).
  cbn [stream_ssrcs flat_map] in Hnd, Hf. apply NoDup_app in Hnd as (Hnd1 & Hdis & Hnd2).
  rewrite (parse_lines_app _ _ _ _ _ (all_ssrcs t track (sp_ssrcs track) s Hm Ht (so_range track Ht) Hnd1
    ltac:(intros i Hi; specialize (Hf i Hi); set_solver))).
  rewrite IH; [|by rewrite ssrc_type|done|].
  - rewrite st_ssrc_ssrc. do 2 f_equal. apply st_ssrc_ext. by rewrite <- app_assoc.
  - intros i Hi.
    assert (Hi' : In i (infos_of t s ++ map (ssrc_info_of track) (sp_ssrcs track))) by (by destruct t).
    apply in_app_or in Hi' as [Hi'|Hi'].
    + specialize (Hf i Hi'). unfold stream_ssrcs. set_solver.
    + apply in_map_iff in Hi' as (n & <- & Hn). cbn. apply Hdis. by apply list_elem_of_In.
Qed.

(** *** Tracks from infos *)

(** What is left of a stream: its SSRC groups are not read back. *)
Definition without_groups (track : StreamParams) : StreamParams :=
  mkStreamParams (sp_id track) (sp_ssrcs track) [] (sp_cname track) (sp_stream_id track).

Lemma one_track track tracks ssrcs done_ssrcs :
  (forall t, In t tracks -> sp_id t <> sp_id track) ->
  create_track_from_ssrc_info (map (ssrc_info_of track) ssrcs)
    (tracks ++ [mkStreamParams (sp_id track) done_ssrcs [] (sp_cname track) (sp_stream_id track)]) =
  tracks ++ [mkStreamParams (sp_id track) (done_ssrcs ++ ssrcs) [] (sp_cname track) (sp_stream_id track)].
Proof.
  intros Hf. revert done_ssrcs. induction ssrcs as [|n ssrcs IH]; intros ds; [by rewrite app_nil_r|].
  unfold create_track_from_ssrc_info in *. cbn [map fold_left]. rewrite update_or_push_last.
  - cbn. rewrite IH. by rewrite <- app_assoc.
  - intros t Ht. apply bool_decide_false, Hf, Ht.
  - by apply bool_decide_true.
Qed.

Lemma create_tracks streams tracks :
  Forall stream_ok streams -> NoDup (map sp_id streams) ->
  (forall t, In t tracks -> sp_id t ∉ map sp_id streams) ->
  create_track_from_ssrc_info (stream_infos streams) tracks = tracks ++ map without_groups streams.
Proof.
  intros Hok. revert tracks. induction Hok as [|track streams Ht _ IH]; intros tracks Hnd Hf.
  { by rewrite app_nil_r. }
  apply NoDup_cons in Hnd as [Hn Hnd]. cbn [stream_infos flat_map].
  unfold create_track_from_ssrc_info. rewrite fold_left_app.
  assert (Hone : create_track_from_ssrc_info (map (ssrc_info_of track) (sp_ssrcs track)) tracks =
    tracks ++ [without_groups track]).
  { pose proof (so_ssrcs track Ht) as Hne. unfold without_groups.
    destruct (sp_ssrcs track) as [|n ssrcs]; [done|].
    unfold create_track_from_ssrc_info. cbn [map fold_left]. rewrite update_or_push_fresh.
    - apply (one_track track tracks ssrcs [n]). intros t Hin E. apply (Hf t Hin). cbn. rewrite E. by left.
    - intros t Hin. apply bool_decide_false. intros E. apply (Hf t Hin). cbn in *. rewrite E. by left. }
  unfold create_track_from_ssrc_info in Hone. rewrite Hone.
  change (create_track_from_ssrc_info (stream_infos streams) (tracks ++ [without_groups track]) =
    tracks ++ map without_groups (track :: streams)).
  rewrite IH; [by rewrite <- app_assoc|done|].
  intros t Hin. apply in_app_or in Hin as [Hin|[<-|[]]]; [|exact Hn]. specialize (Hf t Hin). set_solver.
Qed.

(** ** A media section and the whole text *)

Section text.
Context (inet_ntop : IPAddress -> bytes).

Record candidate_ok (c : Candidate) : Prop := {
  co_foundation : word (foundation c) = true;
  co_component : 0 <= component c;
  co_protocol : word (protocol c) = true;
  co_priority : 0 <= cand_priority c;
  co_host : plain (HostAsURIString inet_ntop (address c)) = true;
  co_port : 0 <= cand_port c;
  co_type : word (cand_type c) = true;
}.

Lemma candidate_inert cs :
  Forall candidate_ok cs -> forallb inert (build_candidate inet_ntop cs) = true.
Proof.
  induction 1 as [|c cs [H1 H2 H3 H4 H5 H6 H7] _ IH]; [done|]. cbn [build_candidate map forallb].
  fold (build_candidate inet_ntop cs). rewrite IH, andb_true_r. apply inert_head; [by vm_compute|].
  rewrite !plain_app, H5, (word_plain _ H1), (word_plain _ H3), (word_plain _ H7),
    (word_plain _ (to_string_word _ H2)), (word_plain _ (to_string_word _ H4)),
    (word_plain _ (to_string_word _ H6)). done.
Qed.

Record transport_ok (td : TransportDescription) (fp : SSLFingerprint) : Prop := {
  to_ufrag : word (td_ice_ufrag td) = true /\ td_ice_ufrag td <> [];
  to_pwd : word (td_ice_pwd td) = true /\ td_ice_pwd td <> [];
  to_fingerprint : td_identity_fingerprint td = Some fp /\ fingerprint_ok fp;
}.

Lemma transport_parse t td fp s :
  ps_media_type s = mid_of t -> transport_ok td fp ->
  parse_lines true (map (fun l => l ++ [x0d]) (transport_lines td)) s =
    Done (true, st_td t (fun x => set_fp fp (set_pwd (td_ice_pwd td) (set_ufrag (td_ice_ufrag td) x))) s).
Proof.
  intros Hm [[Hu Hun] [Hp Hpn] [Hf Hok]]. unfold transport_lines. rewrite Hf.
  cbn [app map parse_lines].
  rewrite (ufrag_line t) by done. cbn [mbind outcome_bind].
  rewrite (pwd_line t) by (rewrite ?td_type; done). cbn [mbind outcome_bind].
  rewrite (fingerprint_line t) by (rewrite ?td_type; done). cbn [mbind outcome_bind].
  rewrite inert_line by (by destruct (td_connection_role td); vm_compute).
  cbn [mbind outcome_bind]. by destruct t.
Qed.

(** The variables after the [m=] line of a kind of media. *)
Definition after_m (t : MediaType) (s : parse_state) : parse_state :=
  st_td t (set_mid (mid_of t))
    (mkParse (mid_of t) (ps_groups s) (ps_contents s ++ [t]) (ps_audio_td s) (ps_video_td s)
       (ps_audio_ssrc s) (ps_video_ssrc s) (ps_video_groups s)).

Lemma media_line_parse t s :
  parse_lines true (map (fun l => l ++ [x0d])
    [media_line t; str "c=IN IP4 0.0.0.0"; str "a=rtcp:9 IN IP4 0.0.0.0"]) s = Done (true, after_m t s).
Proof. destruct s, t; vm_compute; reflexivity. Qed.

Lemma after_m_type t s : ps_media_type (after_m t s) = mid_of t.
Proof. by destruct t. Qed.

Lemma after_m_infos t s : infos_of t (after_m t s) = infos_of t s.
Proof. by destruct t. Qed.

Record content_ok (d : SessionDescription) (c : MediaContentDescription) : Prop := {
  ct_candidates : Forall candidate_ok (mc_candidates c);
  ct_transport : exists td fp, get_transport_info (mc_mid c) d = Some td /\ transport_ok td fp;
  ct_streams : Forall stream_ok (mc_send_streams c);
  ct_ssrcs : NoDup (stream_ssrcs (mc_send_streams c));
  ct_ids : NoDup (map sp_id (mc_send_streams c));
}.

(** What a media section leaves in the variables. *)
Definition after_content (d : SessionDescription) (c : MediaContentDescription) (s : parse_state)
    : parse_state :=
  let t := mc_type c in
  st_ssrc t (fun l => l ++ stream_infos (mc_send_streams c))
    (st_td t (fun x =>
       match get_transport_info (mc_mid c) d with
       | Some td =>
           from_option (fun fp => set_fp fp (set_pwd (td_ice_pwd td) (set_ufrag (td_ice_ufrag td) x))) x
             (td_identity_fingerprint td)
       | None => x
       end) (after_m t s)).

Lemma rtp_map_inert t : forallb inert (build_rtp_map t) = true.
Proof. by destruct t; vm_compute. Qed.

Lemma content_parse d c s :
  content_ok d c -> infos_of (mc_type c) s = [] ->
  parse_lines true (map (fun l => l ++ [x0d]) (content_lines inet_ntop d c)) s =
    Done (true, after_content d c s).
Proof.
  intros [H1 (td & fp & Htd & Hok) H3 H4 H5] Hi. unfold content_lines. rewrite !map_app.
  rewrite (parse_lines_app _ _ _ _ _ (media_line_parse (mc_type c) s)).
  rewrite (parse_lines_app _ _ _ _ _ (inert_lines _ _ (candidate_inert _ H1))).
  unfold after_content. rewrite Htd. cbn [from_option].
  destruct (to_fingerprint td fp Hok) as [Hfp _]. rewrite Hfp.
  rewrite (parse_lines_app _ _ _ _ _ (transport_parse (mc_type c) td fp _ (after_m_type _ s) Hok)).
  set (s1 := st_td _ _ (after_m _ s)).
  rewrite (parse_lines_app _ _ _ s1 s1) by
    (apply (inert_lines [str "a=mid:" ++ mc_mid c]); unfold mc_mid; by destruct (mc_type c); vm_compute).
  rewrite (parse_lines_app _ _ _ s1 s1) by
    (apply inert_lines; by destruct (mc_direction c); vm_compute).
  rewrite (parse_lines_app _ _ _ s1 s1) by
    (apply inert_lines; by destruct (mc_rtcp_mux c); vm_compute).
  rewrite (parse_lines_app _ _ _ s1 s1) by (apply inert_lines, rtp_map_inert).
  rewrite (build_ssrc_parse (mc_type c)); [done| |done|done|].
  - subst s1. by rewrite td_type, after_m_type.
  - intros i Hin. assert (Hin' : In i (infos_of (mc_type c) s)) by (subst s1; by destruct (mc_type c)).
    by rewrite Hi in Hin'.
Qed.

Lemma contents_parse d cs s :
  Forall (content_ok d) cs -> NoDup (map mc_type cs) ->
  (forall c, In c cs -> infos_of (mc_type c) s = []) ->
  parse_lines true (map (fun l => l ++ [x0d]) (flat_map (content_lines inet_ntop d) cs)) s =
    Done (true, fold_left (fun s c => after_content d c s) cs s).
Proof.
  intros Hok. revert s. induction Hok as [|c cs Hc _ IH]; intros s Hnd Hi; [done|].
  cbn [flat_map fold_left]. rewrite map_app.
  rewrite (parse_lines_app _ _ _ _ _ (content_parse d c s Hc (Hi c (or_introl eq_refl)))).
  apply NoDup_cons in Hnd as [Hn Hnd]. apply IH; [done|].
  intros c' Hin. rewrite <- (Hi c') by (by right).
  assert (Hne : mc_type c' <> mc_type c).
  { intros E. apply Hn. rewrite <- E. apply list_elem_of_In, in_map, Hin. }
  unfold after_content. by destruct (mc_type c), (mc_type c').
Qed.

(** *** No line holds a newline *)

Definition one_line (l : bytes) : bool := forallb (fun b => negb (bool_decide (b = x0a))) l.

Lemma one_line_app l1 l2 : one_line (l1 ++ l2) = one_line l1 && one_line l2.
Proof. apply forallb_app. Qed.

Lemma plain_one_line l : plain l = true -> one_line l = true.
Proof.
  unfold plain, one_line. rewrite !forallb_forall. intros Hl b Hb. specialize (Hl b Hb).
  by apply andb_true_iff in Hl as [? _].
Qed.

Lemma word_one_line l : word l = true -> one_line l = true.
Proof. intros Hl. by apply plain_one_line, word_plain. Qed.

Lemma candidates_one_line cs :
  Forall candidate_ok cs -> forallb one_line (build_candidate inet_ntop cs) = true.
Proof.
  induction 1 as [|c cs [H1 H2 H3 H4 H5 H6 H7] _ IH]; [done|]. cbn [build_candidate map forallb].
  fold (build_candidate inet_ntop cs). rewrite IH, andb_true_r.
  rewrite !one_line_app, (plain_one_line _ H5), (word_one_line _ H1), (word_one_line _ H3),
    (word_one_line _ H7), (word_one_line _ (to_string_word _ H2)),
    (word_one_line _ (to_string_word _ H4)), (word_one_line _ (to_string_word _ H6)). done.
Qed.

Lemma transport_one_line td fp : transport_ok td fp -> forallb one_line (transport_lines td) = true.
Proof.
  intros [[Hu _] [Hp _] [Hf Hok]]. unfold transport_lines. rewrite Hf. cbn [app forallb].
  destruct (fingerprint_plain fp Hok) as [Hfp _].
  rewrite !(one_line_app (str _)), (word_one_line _ Hu), (word_one_line _ Hp), (plain_one_line _ Hfp).
  by destruct (td_connection_role td).
Qed.

Lemma ssrc_lines_one_line track ssrc :
  stream_ok track -> 0 <= ssrc -> forallb one_line (ssrc_lines track ssrc) = true.
Proof.
  intros [H1 H2 H3 _ _ _] Hn. unfold ssrc_lines, add_ssrc_line. cbn [forallb].
  rewrite !one_line_app, (word_one_line _ H1), (word_one_line _ H2), (word_one_line _ H3),
    (word_one_line _ (to_string_word _ Hn)). done.
Qed.

Lemma group_line_one_line g :
  word (sg_semantics g) = true -> (forall ssrc, In ssrc (sg_ssrcs g) -> 0 <= ssrc) ->
  one_line (str "a=ssrc-group" ++ sg_semantics g ++
    flat_map (fun ssrc => str " " ++ to_string ssrc) (sg_ssrcs g)) = true.
Proof.
  intros Hw Hs. rewrite !one_line_app, (word_one_line _ Hw), (plain_one_line _ (ssrcs_plain _ Hs)). done.
Qed.

Lemma forallb_flat_map {A B} (f : B -> bool) (g : A -> list B) l :
  (forall x, In x l -> forallb f (g x) = true) -> forallb f (flat_map g l) = true.
Proof.
  induction l as [|x l IH]; intros Hl; [done|]. cbn [flat_map]. rewrite forallb_app.
  rewrite (Hl x (or_introl eq_refl)), IH; [done|]. intros y Hy. apply Hl. by right.
Qed.

Lemma streams_one_line streams : Forall stream_ok streams -> forallb one_line (build_ssrc streams) = true.
Proof.
  induction 1 as [|track streams Ht _ IH]; [done|]. rewrite build_ssrc_cons, !forallb_app, IH, andb_true_r.
  apply andb_true_iff. split; apply forallb_flat_map.
  - intros g Hg. destruct (so_groups track Ht g Hg) as [Hw Hs]. pose proof (group_line_one_line g Hw Hs) as Hl.
    destruct (sg_ssrcs g); [done|]. cbn [forallb]. by rewrite Hl.
  - intros n Hn. apply ssrc_lines_one_line; [done|]. by apply (so_range track Ht).
Qed.

Lemma content_one_line d c : content_ok d c -> forallb one_line (content_lines inet_ntop d c) = true.
Proof.
  intros [H1 (td & fp & Htd & Hok) H3 _ _]. unfold content_lines. rewrite !forallb_app, Htd.
  cbn [from_option]. rewrite (candidates_one_line _ H1), (transport_one_line td fp Hok), (streams_one_line _ H3).
  unfold mc_mid. by destruct (mc_type c), (mc_direction c), (mc_rtcp_mux c); vm_compute.
Qed.

(** ** The whole text *)

(** A description as [create_offer] makes them: each kind of media at most
    once, and the names of the groups are words. *)
Record desc_ok (d : SessionDescription) : Prop := {
  do_contents : Forall (content_ok d) (sd_contents d);
  do_types : NoDup (map mc_type (sd_contents d));
  do_groups : forall g, In g (sd_content_groups d) -> forallb word (cg_content_names g) = true;
}.

Lemma group_names_plain gs :
  (forall g, In g gs -> forallb word (cg_content_names g) = true) ->
  plain (flat_map (fun g => flat_map (fun name => str " " ++ name) (cg_content_names g)) gs) = true.
Proof.
  intros Hg. unfold plain. apply forallb_flat_map. intros g Hin. apply forallb_flat_map.
  intros name Hn. pose proof (proj1 (forallb_forall _ _) (Hg g Hin) name Hn) as Hw.
  rewrite forallb_app. by rewrite (word_plain _ Hw : forallb _ _ = true).
Qed.

Lemma group_lines_ok d :
  desc_ok d -> forallb inert (group_lines d) = true /\ forallb one_line (group_lines d) = true.
Proof.
  intros [_ _ Hg]. unfold group_lines.
  assert (Hp : plain (flat_map (fun g => flat_map (fun name => str " " ++ name) (cg_content_names g))
    (get_group_by_name BUNDLE d)) = true).
  { apply group_names_plain. intros g Hin. apply Hg. unfold get_group_by_name in Hin.
    by apply filter_In in Hin as [? _]. }
  destruct (get_group_by_name BUNDLE d) as [|g gs]; [done|]. cbn [forallb].
  rewrite inert_head by (done || by vm_compute).
  rewrite one_line_app, (plain_one_line _ Hp). done.
Qed.

Lemma sdp_lines_parse d :
  desc_ok d ->
  parse_lines true (map (fun l => l ++ [x0d]) (sdp_lines inet_ntop d)) parse_start =
    Done (true, fold_left (fun s c => after_content d c s) (sd_contents d) parse_start).
Proof.
  intros Hd. destruct (group_lines_ok d Hd) as [Hg _]. destruct Hd as [Hc Ht _].
  unfold sdp_lines. rewrite !map_app.
  rewrite (parse_lines_app _ _ _ parse_start parse_start) by (by apply inert_lines; vm_compute).
  rewrite (parse_lines_app _ _ _ parse_start parse_start) by (by apply inert_lines).
  rewrite (parse_lines_app _ _ _ parse_start parse_start) by (by apply inert_lines; vm_compute).
  apply contents_parse; [done..|]. intros c _. by destruct (mc_type c).
Qed.

Lemma sdp_lines_one_line d : desc_ok d -> Forall (fun l => x0a ∉ l) (sdp_lines inet_ntop d).
Proof.
  intros Hd. destruct (group_lines_ok d Hd) as [_ Hg]. destruct Hd as [Hc _ _].
  assert (Hall : forallb one_line (sdp_lines inet_ntop d) = true).
  { unfold sdp_lines. rewrite !forallb_app, Hg. cbn [andb].
    rewrite forallb_flat_map; [by vm_compute|]. intros c Hin. apply content_one_line.
    by apply (proj1 (List.Forall_forall _ _) Hc). }
  apply List.Forall_forall. intros l Hl. rewrite forallb_forall in Hall. by eapply forallb_notin; [apply Hall|].
Qed.

Lemma parse_printed d direction old :
  desc_ok d ->
  parse_remote_sdp direction (desc_to_string inet_ntop d) old =
    Done (0, Some (parsed_desc direction true
                     (fold_left (fun s c => after_content d c s) (sd_contents d) parse_start))).
Proof.
  intros Hd. unfold parse_remote_sdp, desc_to_string.
  rewrite tokenize_lines by (by apply sdp_lines_one_line).
  rewrite contains_crlf by done.
  pose proof (sdp_lines_parse d Hd) as Hp.
  destruct (map _ (sdp_lines inet_ntop d)) as [|l ls] eqn:E; [done|]. cbv zeta. by rewrite Hp.
Qed.
End text.

(** ** What comes back *)

Section roundtrip.
Context (inet_ntop : IPAddress -> bytes).

(** Each kind of media at most once: at most two sections. *)
Lemma contents_cases (cs : list MediaContentDescription) :
  NoDup (map mc_type cs) ->
  cs = [] \/ (exists c, cs = [c]) \/
  (exists c1 c2, cs = [c1; c2] /\ mc_type c1 <> mc_type c2).
Proof.
  destruct cs as [|c1 [|c2 [|c3 cs]]]; cbn [map]; intros Hnd; [by left|by right; left; exists c1| |].
  - right. right. exists c1, c2. split; [done|]. apply NoDup_cons in Hnd as [Hn _]. set_solver.
  - exfalso. apply NoDup_cons in Hnd as [H1 Hnd]. apply NoDup_cons in Hnd as [H2 _].
    destruct (mc_type c1), (mc_type c2), (mc_type c3); set_solver.
Qed.

Definition streams_read (t : MediaType) (streams : list StreamParams) : list StreamParams :=
  match t with MEDIA_TYPE_AUDIO => map without_groups streams | MEDIA_TYPE_VIDEO => [] end.

Lemma tracks_read streams :
  Forall stream_ok streams -> NoDup (map sp_id streams) ->
  match stream_infos streams with [] => [] | infos => create_track_from_ssrc_info infos [] end =
  map without_groups streams.
Proof.
  intros Hok Hnd. pose proof (create_tracks streams [] Hok Hnd ltac:(done)) as E.
  change ([] ++ map without_groups streams) with (map without_groups streams) in E.
  rewrite <- E. by destruct (stream_infos streams).
Qed.

(** What the parsed description [d'] keeps of a section of [d]. *)
Definition section_read (d d' : SessionDescription) (c : MediaContentDescription) : Prop :=
  exists td td' c', get_transport_info (mc_mid c) d = Some td /\
    get_transport_info (mc_mid c) d' = Some td' /\
    td_ice_ufrag td' = td_ice_ufrag td /\ td_ice_pwd td' = td_ice_pwd td /\
    td_identity_fingerprint td' = td_identity_fingerprint td /\
    get_content (mc_mid c) d' = Some c' /\
    mc_send_streams c' = streams_read (mc_type c) (mc_send_streams c).

(** The transport description the parser ends with for a section. *)
Definition td_read (t : MediaType) (td : TransportDescription) (fp : SSLFingerprint) : TransportDescription :=
  mkTd (mid_of t) (td_ice_ufrag td) (td_ice_pwd td) (Some fp) NONE.

Lemma after_content_audio d c s :
  content_ok inet_ntop d c -> mc_type c = MEDIA_TYPE_AUDIO -> ps_audio_td s = new_td ->
  exists td fp, get_transport_info (str "audio") d = Some td /\ td_identity_fingerprint td = Some fp /\
    after_content d c s =
      mkParse (str "audio") (ps_groups s) (ps_contents s ++ [MEDIA_TYPE_AUDIO])
        (td_read MEDIA_TYPE_AUDIO td fp) (ps_video_td s)
        (ps_audio_ssrc s ++ stream_infos (mc_send_streams c)) (ps_video_ssrc s) (ps_video_groups s).
Proof.
  intros [_ (td & fp & Htd & Hok) _ _ _] Ht Hs. destruct (to_fingerprint td fp Hok) as [Hfp _].
  exists td, fp. unfold mc_mid in Htd. rewrite Ht in Htd. split_and!; [done|done|].
  unfold after_content, mc_mid. rewrite Ht, Htd, Hfp. cbn -[str]. by rewrite Hs.
Qed.

Lemma after_content_video d c s :
  content_ok inet_ntop d c -> mc_type c = MEDIA_TYPE_VIDEO -> ps_video_td s = new_td ->
  exists td fp, get_transport_info (str "video") d = Some td /\ td_identity_fingerprint td = Some fp /\
    after_content d c s =
      mkParse (str "video") (ps_groups s) (ps_contents s ++ [MEDIA_TYPE_VIDEO])
        (ps_audio_td s) (td_read MEDIA_TYPE_VIDEO td fp) (ps_audio_ssrc s)
        (ps_video_ssrc s ++ stream_infos (mc_send_streams c)) (ps_video_groups s).
Proof.
  intros [_ (td & fp & Htd & Hok) _ _ _] Ht Hs. destruct (to_fingerprint td fp Hok) as [Hfp _].
  exists td, fp. unfold mc_mid in Htd. rewrite Ht in Htd. split_and!; [done|done|].
  unfold after_content, mc_mid. rewrite Ht, Htd, Hfp. cbn -[str]. by rewrite Hs.
Qed.

(** A section is read when the final variables hold its transport and its
    streams' infos. *)
Lemma parsed_content s direction t :
  In t (ps_contents s) ->
  exists c', get_content (mid_of t) (parsed_desc direction true s) = Some c' /\
    mc_send_streams c' = parsed_streams s t.
Proof.
  unfold get_content, parsed_desc, parsed_contents. cbn [sd_contents].
  induction (ps_contents s) as [|t' l IH]; intros Hin; [done|].
  cbn [map List.find]. unfold mc_mid at 1. cbn [mc_type]. case_bool_decide as E.
  - assert (t' = t) as -> by (by destruct t', t). by eexists.
  - destruct Hin as [->|Hin]; [done|]. by apply IH.
Qed.

Lemma section_read_audio d c s direction td fp :
  content_ok inet_ntop d c -> mc_type c = MEDIA_TYPE_AUDIO -> In MEDIA_TYPE_AUDIO (ps_contents s) ->
  get_transport_info (str "audio") d = Some td -> td_identity_fingerprint td = Some fp ->
  ps_audio_td s = td_read MEDIA_TYPE_AUDIO td fp ->
  ps_audio_ssrc s = stream_infos (mc_send_streams c) ->
  section_read d (parsed_desc direction true s) c.
Proof.
  intros [_ _ H3 _ H5] Ht Hin Htd Hfp Etd Einfos.
  destruct (parsed_content s direction _ Hin) as (c' & Hc & Hs).
  exists td, (td_read MEDIA_TYPE_AUDIO td fp), c'. unfold mc_mid. rewrite Ht.
  split_and!; try done.
  - unfold get_transport_info, parsed_desc. cbn [sd_transport_infos List.find]. rewrite Etd.
    by rewrite bool_decide_true.
  - rewrite Hs. unfold parsed_streams, audio_streams. rewrite Einfos. by apply tracks_read.
Qed.

Lemma section_read_video d c s direction td fp :
  mc_type c = MEDIA_TYPE_VIDEO -> In MEDIA_TYPE_VIDEO (ps_contents s) ->
  get_transport_info (str "video") d = Some td -> td_identity_fingerprint td = Some fp ->
  ps_video_td s = td_read MEDIA_TYPE_VIDEO td fp -> ps_video_groups s = [] ->
  td_mid (ps_audio_td s) <> str "video" ->
  section_read d (parsed_desc direction true s) c.
Proof.
  intros Ht Hin Htd Hfp Etd Eg Hother.
  destruct (parsed_content s direction _ Hin) as (c' & Hc & Hs).
  exists td, (td_read MEDIA_TYPE_VIDEO td fp), c'. unfold mc_mid. rewrite Ht.
  split_and!; try done.
  - unfold get_transport_info, parsed_desc. cbn [sd_transport_infos List.find]. rewrite Etd.
    rewrite (bool_decide_false (td_mid (ps_audio_td s) = _)) by done. by rewrite bool_decide_true.
  - rewrite Hs. unfold parsed_streams, video_streams. rewrite Eg. by destruct (ps_video_ssrc s).
Qed.
End roundtrip.

Lemma print_parse (inet_ntop : IPAddress -> bytes) (d : SessionDescription)
    (direction : RtpDirection) (old : option SessionDescription) :
  desc_ok inet_ntop d ->
  exists d', parse_remote_sdp direction (desc_to_string inet_ntop d) old = Done (0, Some d') /\
    map mc_type (sd_contents d') = map mc_type (sd_contents d) /\
    sd_content_groups d' = [] /\
    forall c, In c (sd_contents d) -> section_read d d' c.
Proof.
  intros Hd. rewrite parse_printed by done. eexists. split; [done|]. destruct Hd as [Hok Hnd _].
  destruct (contents_cases _ Hnd) as [E|[(c & E)|(c1 & c2 & E & Hne)]]; rewrite E in *; clear E Hnd;
    cbn [fold_left].
  - done.
  - apply Forall_cons in Hok as [Hc _]. destruct (mc_type c) eqn:Ht; cbn [map]; rewrite Ht.
    + destruct (after_content_audio inet_ntop d c parse_start Hc Ht eq_refl) as (td & fp & Htd & Hfp & ->).
      split; [done|]. split; [done|]. intros ? [<-|[]].
      by apply (section_read_audio inet_ntop d c _ direction td fp Hc Ht); [left|..].
    + destruct (after_content_video inet_ntop d c parse_start Hc Ht eq_refl) as (td & fp & Htd & Hfp & ->).
      split; [done|]. split; [done|]. intros ? [<-|[]].
      by apply (section_read_video d c _ direction td fp Ht); [left|..].
  - apply Forall_cons in Hok as [Hc1 Hok]. apply Forall_cons in Hok as [Hc2 _]. cbn [map].
    destruct (mc_type c1) eqn:Ht1, (mc_type c2) eqn:Ht2; try done.
    + destruct (after_content_audio inet_ntop d c1 parse_start Hc1 Ht1 eq_refl) as (td1 & fp1 & Htd1 & Hfp1 & ->).
      destruct (after_content_video inet_ntop d c2 (mkParse (str "audio") [] [MEDIA_TYPE_AUDIO]
        (td_read MEDIA_TYPE_AUDIO td1 fp1) new_td (stream_infos (mc_send_streams c1)) [] []) Hc2 Ht2 eq_refl)
        as (td2 & fp2 & Htd2 & Hfp2 & E2). cbn -[after_content str] in *. rewrite E2.
      split; [done|]. split; [done|]. intros ? [<-|[<-|[]]].
      * by apply (section_read_audio inet_ntop d c1 _ direction td1 fp1 Hc1 Ht1); [left|..].
      * by apply (section_read_video d c2 _ direction td2 fp2 Ht2); [right; left|..].
    + destruct (after_content_video inet_ntop d c1 parse_start Hc1 Ht1 eq_refl) as (td1 & fp1 & Htd1 & Hfp1 & ->).
      destruct (after_content_audio inet_ntop d c2 (mkParse (str "video") [] [MEDIA_TYPE_VIDEO]
        new_td (td_read MEDIA_TYPE_VIDEO td1 fp1) [] (stream_infos (mc_send_streams c1)) []) Hc2 Ht2 eq_refl)
        as (td2 & fp2 & Htd2 & Hfp2 & E2). cbn -[after_content str] in *. rewrite E2.
      split; [done|]. split; [done|]. intros ? [<-|[<-|[]]].
      * by apply (section_read_video d c1 _ direction td1 fp1 Ht1); [left|..].
      * by apply (section_read_audio inet_ntop d c2 _ direction td2 fp2 Hc2 Ht2); [right; left|..].
Qed.

(** C7: the printed text of a description is read back.  For a description as
    the server makes it (audio and video at most once each, in any order;
    credentials, SSRC names and candidate fields without separators; a FIPS
    fingerprint of at most 64 bytes), [set_remote_sdp]'s parser accepts the
    text that [to_string] prints, whatever the candidates, directions, roles
    and streams are, and returns the same sections in the same order, each
    with its ICE credentials and its fingerprint.  The audio streams come back
    with their SSRCs, names and labels in order but without SSRC groups; no
    video stream comes back, because the printer's group lines are not what
    the parser looks for, and the parser adds the video tracks once per group;
    the BUNDLE group does not come back either. *)
Theorem sdp_print_parse (inet_ntop : IPAddress -> bytes) (d : SessionDescription)
    (direction : RtpDirection) (old : option SessionDescription) :
  desc_ok inet_ntop d ->
  exists d', parse_remote_sdp direction (desc_to_string inet_ntop d) old = Done (0, Some d') /\
    map mc_type (sd_contents d') = map mc_type (sd_contents d) /\
    sd_content_groups d' = [] /\
    forall c, In c (sd_contents d) -> section_read d d' c.
Proof. apply print_parse. Qed.

(** A description with everything the theorem speaks of. *)
Definition example_ntop (a : IPAddress) : bytes := str "192.0.2.7".

Definition example_candidate : Candidate :=
  {| component := 1; protocol := str "udp"; address := mk_addr (ip_v4 3221225991) 5000;
     cand_port := 5000; cand_priority := 2130706431; cand_username := []; cand_password := [];
     cand_type := str "host"; foundation := str "4234997325" |}.

Definition example_td (mid : bytes) : TransportDescription :=
  mkTd mid (str "ufra") (str "passwordpasswordpassword")
    (Some (mkFingerprint (str "sha-256") [xab; x01; xff])) ACTPASS.

Definition example_desc : SessionDescription :=
  mkDesc k_offer
    [mkContent MEDIA_TYPE_AUDIO k_send_recv true [example_candidate]
       [mkStreamParams (str "a0") [1; 2] [] (str "cn") (str "s0")];
     mkContent MEDIA_TYPE_VIDEO k_recv_only true []
       [mkStreamParams (str "v0") [3; 4] [mkSsrcGroup (str "FID") [3; 4]] (str "cn") (str "s0")]]
    [mkGroup BUNDLE [str "audio"; str "video"]]
    [example_td (str "audio"); example_td (str "video")].

Lemma example_transport_ok mid :
  transport_ok (example_td mid) (mkFingerprint (str "sha-256") [xab; x01; xff]).
Proof. split; [done|done|]. split; [done|]. split; [done|]. split; [done|]. cbn. unfold kMaxSize. lia. Qed.

Lemma example_desc_ok : desc_ok example_ntop example_desc.
Proof.
  split.
  - apply Forall_cons. split; [|apply Forall_singleton]; split.
    + apply Forall_singleton. by split.
    + eexists _, _. split; [reflexivity|apply example_transport_ok].
    + apply Forall_singleton. split; try done. cbn. lia.
    + apply (bool_decide_unpack _). by vm_compute.
    + apply (bool_decide_unpack _). by vm_compute.
    + done.
    + eexists _, _. split; [reflexivity|apply example_transport_ok].
    + apply Forall_singleton. split; try done; [cbn; lia|].
      intros g [<-|[]]. split; [done|]. cbn. lia.
    + apply (bool_decide_unpack _). by vm_compute.
    + apply (bool_decide_unpack _). by vm_compute.
  - apply (bool_decide_unpack _). by vm_compute.
  - intros g [<-|[]]. done.
Qed.

Lemma sdp_print_parse_witness :
  exists d', parse_remote_sdp k_inactive (desc_to_string example_ntop example_desc) None = Done (0, Some d') /\
    map mc_type (sd_contents d') = map mc_type (sd_contents example_desc) /\
    sd_content_groups d' = [] /\
    forall c, In c (sd_contents example_desc) -> section_read example_desc d' c.
Proof. apply (sdp_print_parse example_ntop example_desc k_inactive None), example_desc_ok. Defined.

(** ** The streams of a parsed video section *)

Lemma add_video_streams_length groups tracks :
  length (add_video_streams groups tracks) =
  (length (List.filter (fun g => negb (bool_decide (sg_ssrcs g = []))) groups) * length tracks)%nat.
Proof.
  revert tracks. induction groups as [|g groups IH]; intros tracks; [done|]. cbn [add_video_streams List.filter].
  destruct (sg_ssrcs g) as [|n l] eqn:E; cbn [negb bool_decide]; [by rewrite bool_decide_true by done|].
  rewrite bool_decide_false by done. cbn [negb length]. rewrite length_app, IH, length_map. lia.
Qed.

(** The parser adds the video tracks once per SSRC group.  A parsed video
    section has as many streams as there are non-empty SSRC groups times
    tracks: none at all for an answer without groups, and every track twice
    with two groups, while an audio section has one stream per track. *)
Theorem video_streams_per_group (s : parse_state) :
  length (video_streams s) =
    (length (List.filter (fun g => negb (bool_decide (sg_ssrcs g = []))) (ps_video_groups s)) *
     length (create_track_from_ssrc_info (ps_video_ssrc s) []))%nat /\
  length (audio_streams s) = length (create_track_from_ssrc_info (ps_audio_ssrc s) []).
Proof.
  unfold video_streams, audio_streams. split.
  - destruct (ps_video_ssrc s) as [|i infos]; [|apply add_video_streams_length]. cbn. lia.
  - by destruct (ps_audio_ssrc s).
Qed.
