(* ===== verification/IceAgent.v ===== *)
(** * The ICE agent (ice/ice_agent.cpp)

    The agent owns the channels of a peer and derives one ICE state from
    theirs.  It is written against the interface [IceChannelI]; the channel of
    IceChannel is an instance. *)

From S2P Require Import Prelude IpAddress IceTypes IcePort IceController IceConnection IceChannel.
Local Open Scope Z_scope.

(** ** The interface *)

(** What the agent and the controller use of a channel.  A channel signals
    while it runs: [chan_set_remote_ice_params] also returns the states it
    signals in, in order. *)
Class IceChannelI (C : Type) : Type := {
  chan_new : bytes -> Z -> C;
  chan_transport_name : C -> bytes;
  chan_component : C -> Z;
  chan_state : C -> IceTransportChannelState;
  chan_writable : C -> bool;
  chan_ice_params : C -> IceParameters;
  chan_set_ice_params : IceParameters -> C -> C;
  chan_set_remote_ice_params : IceParameters -> C -> outcome (list C * C);
  (** with the candidates it signals, if it does *)
  chan_gathering_candidate : C -> outcome (option (list Candidate) * C);
}.

(** What a channel promises. *)
Class IceChannelLaws (C : Type) `{IceChannelI C} : Prop := {
  chan_new_name : forall name comp, chan_transport_name (chan_new name comp) = name;
  chan_new_component : forall name comp, chan_component (chan_new name comp) = comp;
  chan_set_name : forall p c, chan_transport_name (chan_set_ice_params p c) = chan_transport_name c;
  chan_set_component : forall p c, chan_component (chan_set_ice_params p c) = chan_component c;
  chan_set_params : forall p c, chan_ice_params (chan_set_ice_params p c) = p;
  chan_new_state : forall name comp, chan_state (chan_new name comp) = ice_new;
  chan_set_state : forall p c, chan_state (chan_set_ice_params p c) = chan_state c;
  chan_gather_same : forall c, exists o c', chan_gathering_candidate c = Done (o, c') /\
    chan_transport_name c' = chan_transport_name c /\ chan_component c' = chan_component c /\
    chan_ice_params c' = chan_ice_params c /\ chan_state c' = chan_state c;
}.

(** [IceCandidateComponent::RTP] *)
Definition RTP : Z := 1.

(** ** The aggregated state *)

Definition count_state (s : IceTransportChannelState) (l : list IceTransportChannelState) : Z :=
  Z.of_nat (length (List.filter (fun x => bool_decide (x = s)) l)).

(** The decision of [_update_state] over the channels' states. *)
Definition agent_ice_state (l : list IceTransportChannelState) : IceTransportChannelState :=
  let total_ice_new := count_state ice_new l in
  let total_ice_checking := count_state ice_checking l in
  let total_ice_connected := count_state ice_connected l in
  let total_ice_completed := count_state ice_completed l in
  let total_ice_failed := count_state ice_failed l in
  let total_ice_disconnected := count_state ice_disconnected l in
  let total_ice_closed := count_state ice_closed l in
  let total_ice := Z.of_nat (length l) in
  if 0 <? total_ice_failed then ice_failed
  else if 0 <? total_ice_disconnected then ice_disconnected
  else if total_ice_new + total_ice_closed =? total_ice then ice_new
  else if 0 <? total_ice_new + total_ice_checking then ice_checking
  else if total_ice_completed + total_ice_closed =? total_ice then ice_completed
  else if total_ice_connected + total_ice_completed + total_ice_closed =? total_ice then ice_connected
  else ice_new.

Section agent.
Context {C : Type} `{IceChannelI C}.

Record IceAgent : Type := mkAgent {
  ag_channels : list C;
  ag_ice_state : IceTransportChannelState;
}.

Definition new_agent : IceAgent := mkAgent [] ice_new.

(** The new agent and what it signals. *)
Definition agent_update_state (a : IceAgent) : IceAgent * list IceTransportChannelState :=
  let ice_state := agent_ice_state (map chan_state (ag_channels a)) in
  if bool_decide (ag_ice_state a = ice_state) then (a, [])
  else
    let first :=
      if bool_decide (ag_ice_state a = ice_checking) && bool_decide (ice_state = ice_completed)
      then [ice_connected] else [] in
    (mkAgent (ag_channels a) ice_state, first ++ [ice_state]).

Definition is_channel (name : bytes) (comp : Z) (c : C) : bool :=
  bool_decide (name = chan_transport_name c) && (comp =? chan_component c).

Definition get_channel (name : bytes) (comp : Z) (a : IceAgent) : option C :=
  List.find (is_channel name comp) (ag_channels a).

(** The channel [get_channel] finds is changed in place. *)
Fixpoint update_first {A} (p : A -> bool) (f : A -> A) (l : list A) : list A :=
  match l with
  | [] => []
  | x :: l => if p x then f x :: l else x :: update_first p f l
  end.

Definition change_channel (name : bytes) (comp : Z) (f : C -> C) (a : IceAgent) : IceAgent :=
  mkAgent (update_first (is_channel name comp) f (ag_channels a)) (ag_ice_state a).

Definition create_channel (name : bytes) (comp : Z) (a : IceAgent) : IceAgent :=
  match get_channel name comp a with
  | Some _ => a
  | None => mkAgent (ag_channels a ++ [chan_new name comp]) (ag_ice_state a)
  end.

(** [set_ice_param]; without such a channel nothing happens. *)
Definition set_ice_param (name : bytes) (comp : Z) (params : IceParameters) (a : IceAgent) : IceAgent :=
  change_channel name comp (chan_set_ice_params params) a.

(** A channel signals, being in the state [c]: each of its three signals runs
    [_update_state]. *)
Definition on_channel_signal (name : bytes) (comp : Z) (c : C) (a : IceAgent)
    : IceAgent * list IceTransportChannelState :=
  agent_update_state (change_channel name comp (fun _ => c) a).
End agent.
Arguments IceAgent C : clear implicits.

(** ** The channel of IceChannel as an instance *)

Section instance.
Context `{IceEnv} (networks : list (option Z)).

(** The states the channel is in when it signals: an ICE state signal comes
    after the change, the others leave the state alone. *)
Fixpoint signal_states (s : IceTransportChannelState) (evs : list ice_event)
    : list IceTransportChannelState :=
  match evs with
  | [] => []
  | EvIceState s' :: evs => s' :: signal_states s' evs
  | EvWritable _ :: evs | EvReceiving _ :: evs => s :: signal_states s evs
  | _ :: evs => signal_states s evs
  end.

Definition new_events (w w' : world) : list ice_event := drop (length (w_out w)) (w_out w').

Definition world_in_state (w : world) (s : IceTransportChannelState) : world :=
  upd_w_ch (upd_ch_state (fun _ => s)) w.

Fixpoint gathered (evs : list ice_event) : option (list Candidate) :=
  match evs with
  | [] => None
  | EvCandidates cs :: _ => Some cs
  | _ :: evs => gathered evs
  end.

#[export] Instance world_channel : IceChannelI world := {|
  chan_new := new_world;
  chan_transport_name := fun w => ch_transport_name (w_ch w);
  chan_component := fun w => ch_component (w_ch w);
  chan_state := fun w => ch_state (w_ch w);
  chan_writable := fun w => ch_writable (w_ch w);
  chan_ice_params := fun w => ch_ice_params (w_ch w);
  chan_set_ice_params := fun p w => upd_w_ch (upd_ch_ice_params (fun _ => p)) w;
  chan_set_remote_ice_params := fun p w =>
    '(_, w') ← set_remote_ice_params p w;
    Done (map (world_in_state w') (signal_states (ch_state (w_ch w)) (new_events w w')), w');
  chan_gathering_candidate := fun w =>
    '(_, w') ← gathering_candidate networks w;
    Done (gathered (new_events w w'), w');
|}.
End instance.

(** ** Theory *)

Lemma count_state_zero s l : (count_state s l = 0 <-> s ∉ l) /\ 0 <= count_state s l.
Proof.
  unfold count_state. split; [|lia]. induction l as [|x l IH]; cbn [List.filter length].
  - split; [intros _ Hin; by apply not_elem_of_nil in Hin|done].
  - case_bool_decide as E; cbn [length].
    + subst. split; [lia|]. intros Hn. exfalso. apply Hn. by left.
    + rewrite IH, not_elem_of_cons. split; [intros Hn; by split|tauto].
Qed.

(** Every channel is counted once. *)
Lemma count_state_sum l :
  count_state ice_new l + count_state ice_checking l + count_state ice_connected l +
  count_state ice_completed l + count_state ice_failed l + count_state ice_disconnected l +
  count_state ice_closed l = Z.of_nat (length l).
Proof.
  induction l as [|x l IH]; [done|].
  assert (Hc : forall s, count_state s (x :: l) = (if bool_decide (x = s) then 1 else 0) + count_state s l).
  { intros s. unfold count_state. cbn [List.filter]. case_bool_decide; cbn [length]; lia. }
  rewrite !Hc. cbn [length]. destruct x; repeat (case_bool_decide; try congruence); lia.
Qed.

(** All states of [l] are among [ss]. *)
Definition all_in (ss l : list IceTransportChannelState) : Prop := forall s, s ∈ l -> s ∈ ss.

(** What the decision means. *)
Definition agent_state_means (l : list IceTransportChannelState) (s : IceTransportChannelState) : Prop :=
  match s with
  | ice_failed => ice_failed ∈ l
  | ice_disconnected => (ice_failed ∉ l) /\ ice_disconnected ∈ l
  | ice_new => all_in [ice_new; ice_closed] l
  | ice_checking => (ice_failed ∉ l) /\ (ice_disconnected ∉ l) /\ ~ all_in [ice_new; ice_closed] l /\
      (ice_new ∈ l \/ ice_checking ∈ l)
  | ice_completed => all_in [ice_completed; ice_closed] l /\ ice_completed ∈ l
  | ice_connected => all_in [ice_connected; ice_completed; ice_closed] l /\ ice_connected ∈ l
  | ice_closed => False
  end.

Lemma count_pos s l : (0 <? count_state s l) = true <-> s ∈ l.
Proof.
  destruct (count_state_zero s l) as [Hz Hn]. rewrite Z.ltb_lt. split.
  - intros Hp. destruct (decide (s ∈ l)) as [|Hnot]; [done|]. apply Hz in Hnot. lia.
  - intros Hin. destruct (decide (count_state s l = 0)) as [E|]; [|lia]. by apply Hz in E.
Qed.

Lemma count_pos_false s l : (0 <? count_state s l) = false <-> s ∉ l.
Proof. rewrite <- not_true_iff_false, count_pos. done. Qed.

(** The counts over [ss] add up to the length exactly when nothing else
    occurs. *)
Lemma all_in_counts ss l :
  all_in ss l <->
  forall s, s ∉ ss -> count_state s l = 0.
Proof.
  split.
  - intros Ha s Hs. apply count_state_zero. intros Hin. by apply Hs, Ha.
  - intros Hc s Hin. destruct (decide (s ∈ ss)) as [|Hn]; [done|]. apply Hc, count_state_zero in Hn. done.
Qed.

Ltac counts l :=
  pose proof (count_state_sum l); pose proof (proj2 (count_state_zero ice_new l));
  pose proof (proj2 (count_state_zero ice_checking l)); pose proof (proj2 (count_state_zero ice_connected l));
  pose proof (proj2 (count_state_zero ice_completed l)); pose proof (proj2 (count_state_zero ice_failed l));
  pose proof (proj2 (count_state_zero ice_disconnected l)); pose proof (proj2 (count_state_zero ice_closed l)).

Lemma all_new_counts l :
  (count_state ice_new l + count_state ice_closed l =? Z.of_nat (length l)) = true <->
  all_in [ice_new; ice_closed] l.
Proof.
  counts l. rewrite all_in_counts, Z.eqb_eq. split.
  - intros E s Hs. destruct s; try lia; set_solver.
  - intros Hc. pose proof (Hc ice_checking ltac:(set_solver)). pose proof (Hc ice_connected ltac:(set_solver)).
    pose proof (Hc ice_completed ltac:(set_solver)). pose proof (Hc ice_failed ltac:(set_solver)).
    pose proof (Hc ice_disconnected ltac:(set_solver)). lia.
Qed.

Lemma all_completed_counts l :
  (count_state ice_completed l + count_state ice_closed l =? Z.of_nat (length l)) = true <->
  all_in [ice_completed; ice_closed] l.
Proof.
  counts l. rewrite all_in_counts, Z.eqb_eq. split.
  - intros E s Hs. destruct s; try lia; set_solver.
  - intros Hc. pose proof (Hc ice_checking ltac:(set_solver)). pose proof (Hc ice_connected ltac:(set_solver)).
    pose proof (Hc ice_new ltac:(set_solver)). pose proof (Hc ice_failed ltac:(set_solver)).
    pose proof (Hc ice_disconnected ltac:(set_solver)). lia.
Qed.

Lemma agent_ice_state_means l : agent_state_means l (agent_ice_state l).
Proof.
  unfold agent_ice_state. cbv zeta.
  destruct (0 <? count_state ice_failed l) eqn:Ef; [by apply count_pos|]. apply count_pos_false in Ef as Ef'.
  destruct (0 <? count_state ice_disconnected l) eqn:Ed; [by split; [|apply count_pos]|].
  apply count_pos_false in Ed as Ed'.
  destruct (_ + count_state ice_closed l =? _) eqn:En; [by apply all_new_counts|].
  assert (En' : ~ all_in [ice_new; ice_closed] l) by (rewrite <- all_new_counts; congruence).
  apply Z.ltb_ge in Ef, Ed. counts l.
  destruct (0 <? count_state ice_new l + count_state ice_checking l) eqn:Ec.
  { split_and!; try done. rewrite <- !count_pos, !Z.ltb_lt. apply Z.ltb_lt in Ec. lia. }
  apply Z.ltb_ge in Ec. apply Z.eqb_neq in En.
  destruct (_ + count_state ice_closed l =? _) eqn:Ep.
  { split; [by apply all_completed_counts|]. apply count_pos, Z.ltb_lt. apply Z.eqb_eq in Ep. lia. }
  apply Z.eqb_neq in Ep. destruct (_ =? Z.of_nat (length l)) eqn:Eo; [|apply Z.eqb_neq in Eo; lia].
  split; [|apply count_pos, Z.ltb_lt; lia].
  apply all_in_counts. intros s Hs. destruct s; try lia; set_solver.
Qed.

(** [all_in] by what does not occur. *)
Ltac excluded :=
  split;
  [intros Ha; split_and!; intros Hin; apply Ha in Hin; set_solver
  |intros Hex s Hin; destruct_and! Hex; destruct s; try set_solver; exfalso; tauto].

Lemma all_new_excluded l :
  all_in [ice_new; ice_closed] l <->
  (ice_checking ∉ l) /\ (ice_connected ∉ l) /\ (ice_completed ∉ l) /\ (ice_failed ∉ l) /\
  (ice_disconnected ∉ l).
Proof. excluded. Qed.

Lemma all_completed_excluded l :
  all_in [ice_completed; ice_closed] l <->
  (ice_new ∉ l) /\ (ice_checking ∉ l) /\ (ice_connected ∉ l) /\ (ice_failed ∉ l) /\
  (ice_disconnected ∉ l).
Proof. excluded. Qed.

Lemma all_connected_excluded l :
  all_in [ice_connected; ice_completed; ice_closed] l <->
  (ice_new ∉ l) /\ (ice_checking ∉ l) /\ (ice_failed ∉ l) /\ (ice_disconnected ∉ l).
Proof. excluded. Qed.

(** The meanings exclude each other: the decision is the only state that
    means what it says. *)
Lemma agent_state_means_unique l s : agent_state_means l s <-> s = agent_ice_state l.
Proof.
  split; [|intros ->; apply agent_ice_state_means]. intros Hs.
  pose proof (agent_ice_state_means l) as Ha. revert Hs Ha. generalize (agent_ice_state l). intros s'.
  destruct s, s'; cbn; try done;
    rewrite ?all_new_excluded, ?all_completed_excluded, ?all_connected_excluded; intros; exfalso; tauto.
Qed.

Section laws.
Context `{IceEnv} (networks : list (option Z)).

(** What gathering leaves alone. *)
Definition same_channel (w w' : world) : Prop :=
  ch_transport_name (w_ch w') = ch_transport_name (w_ch w) /\
  ch_component (w_ch w') = ch_component (w_ch w) /\
  ch_ice_params (w_ch w') = ch_ice_params (w_ch w) /\ ch_state (w_ch w') = ch_state (w_ch w).

Lemma gather_network_same bound w : exists w', gather_network bound w = Done ((), w') /\ same_channel w w'.
Proof.
  unfold gather_network, channel, gets, mbind, M_bind. cbv zeta.
  destruct (create_ice_candidate _ bound) as [port [c|]]; by eexists.
Qed.

Lemma gather_networks_same w :
  exists w', mapM_ gather_network networks w = Done ((), w') /\ same_channel w w'.
Proof.
  revert w. induction networks as [|b bs IH]; intros w; [by eexists|].
  destruct (gather_network_same b w) as (w1 & E1 & S1). destruct (IH w1) as (w2 & E2 & S2).
  exists w2. cbn [mapM_]. unfold mbind, M_bind. rewrite E1, E2. split; [done|].
  destruct S1 as (A1 & A2 & A3 & A4), S2 as (B1 & B2 & B3 & B4). split_and!; congruence.
Qed.

Lemma gathering_same w : exists w', gathering_candidate networks w = Done ((), w') /\ same_channel w w'.
Proof.
  unfold gathering_candidate, channel, gets, mbind, M_bind.
  destruct (_ || _); [by eexists|]. case_bool_decide; [by eexists|].
  destruct (gather_networks_same w) as (w1 & E1 & S1). rewrite E1. by eexists.
Qed.

#[export] Instance world_channel_laws : IceChannelLaws (H := world_channel networks) world.
Proof.
  split; try done. intros w. cbn. destruct (gathering_same w) as (w1 & E & S1). rewrite E.
  cbn. by eexists _, _.
Qed.
End laws.

Section agent_theory.
Context {C : Type} `{IceChannelI C}.

(** What an update signals: nothing unless the state changes, and connected
    is never skipped on the way from checking to completed. *)
Definition agent_signals (old new : IceTransportChannelState) : list IceTransportChannelState :=
  if bool_decide (old = new) then []
  else match old, new with
       | ice_checking, ice_completed => [ice_connected; ice_completed]
       | _, _ => [new]
       end.

Lemma agent_update_spec (a : IceAgent C) :
  let new := agent_ice_state (map chan_state (ag_channels a)) in
  agent_update_state a = (mkAgent (ag_channels a) new, agent_signals (ag_ice_state a) new).
Proof.
  cbv zeta. unfold agent_update_state, agent_signals. cbv zeta.
  set (new := agent_ice_state _). clearbody new.
  case_bool_decide as E; [subst; by destruct a|].
  destruct a as [cs []], new; try done.
Qed.

Lemma update_first_id {A} (p : A -> bool) (f : A -> A) l :
  (forall x, p x = true -> f x = x) -> update_first p f l = l.
Proof.
  intros Hf. induction l as [|x l IH]; [done|]. cbn. destruct (p x) eqn:E; [by rewrite Hf|by rewrite IH].
Qed.

(** A run of the agent: its channels signal one after the other. *)
Fixpoint agent_run (sigs : list (bytes * Z * C)) (a : IceAgent C)
    : IceAgent C * list IceTransportChannelState :=
  match sigs with
  | [] => (a, [])
  | (name, comp, c) :: sigs =>
      let '(a1, out1) := on_channel_signal name comp c a in
      let '(a2, out2) := agent_run sigs a1 in (a2, out1 ++ out2)
  end.

(** A trace of signals that starts in [s]: no repetition, and completed is
    not entered from checking. *)
Fixpoint signals_from (s : IceTransportChannelState) (out : list IceTransportChannelState) : Prop :=
  match out with
  | [] => True
  | s' :: out => s' <> s /\ (s = ice_checking -> s' <> ice_completed) /\ signals_from s' out
  end.

Lemma last_any {A} (y : A) l d1 d2 : List.last (y :: l) d1 = List.last (y :: l) d2.
Proof. revert y. induction l as [|z l IH]; intros y; [done|]. exact (IH z). Qed.

Lemma last_app_default {A} (l1 l2 : list A) d : List.last (l1 ++ l2) d = List.last l2 (List.last l1 d).
Proof.
  induction l2 as [|x l2 IH] using rev_ind; [by rewrite app_nil_r|]. by rewrite app_assoc, !List.last_last.
Qed.

Lemma signals_from_app s l1 l2 :
  signals_from s l1 -> signals_from (List.last l1 s) l2 -> signals_from s (l1 ++ l2).
Proof.
  revert s. induction l1 as [|x l1 IH]; intros s; [done|]. cbn [signals_from app].
  intros (H1 & H2 & H3) Hl. split_and!; [done|done|]. apply IH; [done|].
  destruct l1 as [|y l1]; [done|]. by rewrite (last_any y l1 x s).
Qed.

Lemma agent_signals_from old new :
  signals_from old (agent_signals old new) /\ List.last (agent_signals old new) old = new.
Proof. unfold agent_signals. case_bool_decide as E; [by subst|]. by destruct old, new. Qed.
End agent_theory.

(** The agent's state is the summary of its channels' states, and its
    signals tell its history.  After any run of channel signals the agent is
    failed if some channel is, else disconnected if some channel is, else new
    if all are new or closed, else checking if some is new or checking, else
    completed if all are completed or closed, else connected with all
    connected, completed or closed (the default of the code is never taken);
    it signals exactly the changes, the last signal is the state, no state is
    signalled twice in a row, and completed never follows checking directly. *)
Theorem agent_summarises {C : Type} `{IceChannelI C} (sigs : list (bytes * Z * C)) (a : IceAgent C)
    (name : bytes) (comp : Z) (c : C) :
  let '(a', out) := agent_run (sigs ++ [(name, comp, c)]) a in
  (forall s, agent_state_means (map chan_state (ag_channels a')) s <-> s = ag_ice_state a') /\
  signals_from (ag_ice_state a) out /\ List.last out (ag_ice_state a) = ag_ice_state a'.
Proof.
  revert a. induction sigs as [|[[n k] c1] sigs IH]; intros a; cbn [agent_run app].
  - unfold on_channel_signal. set (b := change_channel _ _ _ a). rewrite (agent_update_spec b).
    change (ag_ice_state b) with (ag_ice_state a). cbn [ag_channels ag_ice_state]. rewrite app_nil_r.
    split; [apply agent_state_means_unique|apply agent_signals_from].
  - unfold on_channel_signal. set (b := change_channel _ _ _ a). rewrite (agent_update_spec b).
    change (ag_ice_state b) with (ag_ice_state a). set (new := agent_ice_state _).
    specialize (IH (mkAgent (ag_channels b) new)). cbn [ag_ice_state] in IH.
    destruct (agent_run (sigs ++ [(name, comp, c)]) (mkAgent (ag_channels b) new)) as [a' out].
    destruct IH as (I1 & I2 & I3). destruct (agent_signals_from (ag_ice_state a) new) as [S1 S2].
    split; [done|]. split; [apply signals_from_app; [done|by rewrite S2]|].
    by rewrite last_app_default, S2.
Qed.
