(* ===== verification/TransportController.v ===== *)
(** * The transport controller and the peer connection
    (pc/transport_controller.cpp, pc/peer_connection.cpp)

    The controller owns the agent and one DTLS-SRTP transport per transport
    name, and derives the state of the connection from both.  It is written
    against the interfaces of the channel ([IceChannelI]) and of the media
    transports ([MediaI]); the transports of Dtls are an instance.  What a
    transport makes of the signals of its channel is its own input and not
    repeated here. *)

From S2P Require Import Prelude IpAddress IceTypes State Srtp Dtls Sdp SdpParse IceAgent.
Local Open Scope Z_scope.

(** ** The interface of the media transports *)

Class MediaI (M : Type) : Type := {
  (** made on a channel that is writable or not *)
  media_new : bool -> M;
  media_dtls_state : M -> DtlsTransportState;
  media_certificate : M -> option Z;
  media_set_local_certificate : option Z -> M -> outcome M;
  (** also the states the transport signals in, in order *)
  media_set_remote_fingerprint : bytes -> bytes -> M -> outcome (list M * M);
  media_send_rtp : bytes -> M -> outcome (Z * M);
  media_send_rtcp : bytes -> M -> outcome (Z * M);
}.

Class MediaLaws (M : Type) `{MediaI M} : Prop := {
  media_new_state : forall w, media_dtls_state (media_new w) = dtls_new;
  media_new_certificate : forall w cert, exists m,
    media_set_local_certificate cert (media_new w) = Done m /\
    media_certificate m = cert /\ media_dtls_state m = dtls_new;
}.

Section instance.
Context `{SrtpLib} `{DtlsEnv} (g : srtp_global).

(** The DTLS state at every signal of the trace. *)
Fixpoint media_signals (s : DtlsTransportState) (evs : list media_event) : list DtlsTransportState :=
  match evs with
  | [] => []
  | EvDtlsState s' :: evs => s' :: media_signals s' evs
  | EvDtlsReceiving _ :: evs | EvDtlsWritable _ :: evs => s :: media_signals s evs
  | _ :: evs => media_signals s evs
  end.

#[export] Instance media_transport : MediaI media := {|
  media_new := fun w => new_media w g;
  media_dtls_state := d_state;
  media_certificate := d_local_certificate;
  media_set_local_certificate := fun cert m => '(_, m') ← set_local_certificate cert m; Done m';
  media_set_remote_fingerprint := fun alg digest m =>
    '(_, m') ← set_remote_fingerprint alg digest m;
    Done (map (fun s => upd_d_state (fun _ => s) m')
            (media_signals (d_state m) (drop (length (m_out m)) (m_out m'))), m');
  media_send_rtp := send_rtp;
  media_send_rtcp := send_rtcp;
|}.

#[export] Instance media_transport_laws : MediaLaws media.
Proof. split; [done|]. intros w [cert|]; by eexists. Qed.
End instance.

(** ** The controller *)

Inductive PeerConnectionState : Type :=
  | pc_new | pc_connecting | pc_connected | pc_disconnected | pc_failed | pc_closed.

#[export] Instance PeerConnectionState_eq_dec : EqDecision PeerConnectionState.
Proof. solve_decision. Defined.

Definition count_dtls (s : DtlsTransportState) (l : list DtlsTransportState) : Z :=
  Z.of_nat (length (List.filter (fun x => bool_decide (x = s)) l)).

(** The decision of [_update_state] over the DTLS and the ICE states. *)
Definition controller_state (ds : list DtlsTransportState) (ics : list IceTransportChannelState)
    : PeerConnectionState :=
  let total_connected := count_state ice_connected ics + count_dtls dtls_connected ds in
  let total_dtls_connecting := count_dtls dtls_connecting ds in
  let total_failed := count_state ice_failed ics + count_dtls dtls_failed ds in
  let total_closed := count_state ice_closed ics + count_dtls dtls_closed ds in
  let total_new := count_state ice_new ics + count_dtls dtls_new ds in
  let total_ice_checking := count_state ice_checking ics in
  let total_ice_disconnected := count_state ice_disconnected ics in
  let total_ice_completed := count_state ice_completed ics in
  let total_transports := Z.of_nat (length ds) * 2 in
  if 0 <? total_failed then pc_failed
  else if 0 <? total_ice_disconnected then pc_disconnected
  else if total_new + total_closed =? total_transports then pc_new
  else if 0 <? total_ice_checking + total_dtls_connecting + total_new then pc_connecting
  else if total_connected + total_ice_completed + total_closed =? total_transports then pc_connected
  else pc_new.

(** What the controller signals. *)
Inductive tc_event : Type :=
  | TcConnectionState (s : PeerConnectionState)
  | TcCandidates (transport_name : bytes) (comp : Z) (cs : list Candidate).

Section controller.
Context {C M : Type} `{IceChannelI C} `{MediaI M}.

(** The two maps of the code, from transport names to the DTLS transports and
    to the DTLS-SRTP transports on them, are filled together and are one map
    here. *)
Record TransportController : Type := mkTc {
  tc_agent : IceAgent C;
  tc_media : gmap bytes M;
  tc_certificate : option Z;
  tc_pc_state : PeerConnectionState;
  tc_slots : nat;  (* how often [_on_ice_state] is connected to the agent *)
  tc_out : list tc_event;
}.

Definition new_tc : TransportController := mkTc new_agent ∅ None pc_new 0 [].

Definition tc_set_agent (a : IceAgent C) (tc : TransportController) : TransportController :=
  mkTc a (tc_media tc) (tc_certificate tc) (tc_pc_state tc) (tc_slots tc) (tc_out tc).
Definition tc_set_media (mm : gmap bytes M) (tc : TransportController) : TransportController :=
  mkTc (tc_agent tc) mm (tc_certificate tc) (tc_pc_state tc) (tc_slots tc) (tc_out tc).
Definition tc_emit (e : tc_event) (tc : TransportController) : TransportController :=
  mkTc (tc_agent tc) (tc_media tc) (tc_certificate tc) (tc_pc_state tc) (tc_slots tc) (tc_out tc ++ [e]).

(** [tc->set_local_certificate(cert)] *)
Definition tc_set_local_certificate (cert : option Z) (tc : TransportController) : TransportController :=
  mkTc (tc_agent tc) (tc_media tc) cert (tc_pc_state tc) (tc_slots tc) (tc_out tc).

(** The states of the transports and of the channels they were made on, which
    the agent keeps to the end. *)
Definition dtls_states (tc : TransportController) : list DtlsTransportState :=
  map (fun '(_, m) => media_dtls_state m) (map_to_list (tc_media tc)).
Definition ice_states (tc : TransportController) : list IceTransportChannelState :=
  map (fun '(mid, _) => from_option chan_state ice_new (get_channel mid RTP (tc_agent tc)))
    (map_to_list (tc_media tc)).

(** [_update_state] *)
Definition tc_update_state (tc : TransportController) : TransportController :=
  let pc_state := controller_state (dtls_states tc) (ice_states tc) in
  if bool_decide (tc_pc_state tc = pc_state) then tc
  else tc_emit (TcConnectionState pc_state)
         (mkTc (tc_agent tc) (tc_media tc) (tc_certificate tc) pc_state (tc_slots tc) (tc_out tc)).

(** The agent's signals run every connected slot. *)
Definition tc_on_agent (r : IceAgent C * list IceTransportChannelState) (tc : TransportController)
    : TransportController :=
  let '(a, sigs) := r in
  fold_left (fun tc _ => Nat.iter (tc_slots tc) tc_update_state tc) sigs (tc_set_agent a tc).

(** A channel signals in the state [c]. *)
Definition tc_on_channel_signal (mid : bytes) (c : C) (tc : TransportController) : TransportController :=
  tc_on_agent (on_channel_signal mid RTP c (tc_agent tc)) tc.

(** A DTLS transport signals in the state [m]: [_on_dtls_state],
    [_on_dtls_writable_state] and [_on_dtls_receiving_state]. *)
Definition tc_on_media_signal (mid : bytes) (m : M) (tc : TransportController) : TransportController :=
  tc_update_state (tc_set_media (<[mid := m]> (tc_media tc)) tc).

(** Whether a section has a transport of its own. *)
Definition own_transport (d : SessionDescription) (mid : bytes) : outcome bool :=
  if is_bundle mid d then first ← get_first_bundle_mid d; Done (bool_decide (mid = first))
  else Done true.

(** One turn of the loop of [set_local_description]. *)
Definition local_content (d : SessionDescription) (mid : bytes) (tc : TransportController)
    : outcome TransportController :=
  own ← own_transport d mid;
  if negb own then Done tc
  else
    let a := create_channel mid RTP (tc_agent tc) in
    let a := match get_transport_info mid d with
             | Some td => set_ice_param mid RTP (mkIceParameters (td_ice_ufrag td) (td_ice_pwd td)) a
             | None => a
             end in
    c ← deref null_deref (get_channel mid RTP a);
    m ← media_set_local_certificate (tc_certificate tc) (media_new (chan_writable c));
    Done (mkTc a (<[mid := m]> (tc_media tc)) (tc_certificate tc) (tc_pc_state tc) (S (tc_slots tc))
            (tc_out tc)).

Fixpoint local_contents (d : SessionDescription) (mids : list bytes) (tc : TransportController)
    : outcome TransportController :=
  match mids with
  | [] => Done tc
  | mid :: mids => tc ← local_content d mid tc; local_contents d mids tc
  end.

(** [IceAgent::gathering_candidate], and the signals of the channels that
    reach the controller's listener. *)
Fixpoint gather_channels (cs : list C) : outcome (list C * list tc_event) :=
  match cs with
  | [] => Done ([], [])
  | c :: cs =>
      '(o, c) ← chan_gathering_candidate c;
      '(cs, evs) ← gather_channels cs;
      Done (c :: cs,
            match o with
            | Some cands => TcCandidates (chan_transport_name c) (chan_component c) cands :: evs
            | None => evs
            end)
  end.

Definition set_local_description (d : SessionDescription) (tc : TransportController)
    : outcome TransportController :=
  tc ← local_contents d (map mc_mid (sd_contents d)) tc;
  '(cs, evs) ← gather_channels (ag_channels (tc_agent tc));
  Done (mkTc (mkAgent cs (ag_ice_state (tc_agent tc))) (tc_media tc) (tc_certificate tc) (tc_pc_state tc)
          (tc_slots tc) (tc_out tc ++ evs)).

(** [IceAgent::set_remote_ice_param], with the reactions to the channel's
    signals. *)
Definition tc_set_remote_ice_param (mid : bytes) (params : IceParameters) (tc : TransportController)
    : outcome TransportController :=
  match get_channel mid RTP (tc_agent tc) with
  | None => Done tc
  | Some c =>
      '(sigs, c) ← chan_set_remote_ice_params params c;
      let tc := fold_left (fun tc c => tc_on_channel_signal mid c tc) sigs tc in
      Done (tc_set_agent (change_channel mid RTP (fun _ => c) (tc_agent tc)) tc)
  end.

(** One turn of the loop of [set_remote_description]; the fingerprint of the
    description is dereferenced without a check. *)
Definition remote_content (d : SessionDescription) (mid : bytes) (tc : TransportController)
    : outcome TransportController :=
  own ← own_transport d mid;
  if negb own then Done tc
  else
    match get_transport_info mid d with
    | None => Done tc
    | Some td =>
        tc ← tc_set_remote_ice_param mid (mkIceParameters (td_ice_ufrag td) (td_ice_pwd td)) tc;
        match tc_media tc !! mid with
        | None => Done tc
        | Some m =>
            fp ← deref null_deref (td_identity_fingerprint td);
            '(sigs, m) ← media_set_remote_fingerprint (fp_algorithm fp) (fp_digest fp) m;
            let tc := fold_left (fun tc m => tc_on_media_signal mid m tc) sigs tc in
            Done (tc_set_media (<[mid := m]> (tc_media tc)) tc)
        end
    end.

Fixpoint remote_contents (d : SessionDescription) (mids : list bytes) (tc : TransportController)
    : outcome TransportController :=
  match mids with
  | [] => Done tc
  | mid :: mids => tc ← remote_content d mid tc; remote_contents d mids tc
  end.

Definition set_remote_description (d : SessionDescription) (tc : TransportController)
    : outcome TransportController :=
  remote_contents d (map mc_mid (sd_contents d)) tc.

Definition tc_send_rtp (mid data : bytes) (tc : TransportController) : outcome (Z * TransportController) :=
  match tc_media tc !! mid with
  | None => Done (-1, tc)
  | Some m => '(r, m) ← media_send_rtp data m; Done (r, tc_set_media (<[mid := m]> (tc_media tc)) tc)
  end.

Definition tc_send_rtcp (mid data : bytes) (tc : TransportController) : outcome (Z * TransportController) :=
  match tc_media tc !! mid with
  | None => Done (-1, tc)
  | Some m => '(r, m) ← media_send_rtcp data m; Done (r, tc_set_media (<[mid := m]> (tc_media tc)) tc)
  end.

(** ** The peer connection *)

Record RTCOfferAnswerOptions : Type := mkOptions {
  recv_audio : bool; recv_video : bool; send_audio : bool; send_video : bool;
  use_rtp_mux : bool; use_rtcp_mux : bool; dtls_on : bool;
}.

Record PeerConnection : Type := mkPc {
  pc_local_desc : option SessionDescription;
  pc_remote_desc : option SessionDescription;
  pc_certificate : option Z;
  pc_transport_controller : TransportController;
  pc_audio_source : list StreamParams;
  pc_video_source : list StreamParams;
}.

Definition pc_init (certificate : option Z) (pc : PeerConnection) : PeerConnection :=
  mkPc (pc_local_desc pc) (pc_remote_desc pc) certificate
    (tc_set_local_certificate certificate (pc_transport_controller pc)) (pc_audio_source pc)
    (pc_video_source pc).

Definition get_direction (send recv : bool) : RtpDirection :=
  if send && recv then k_send_recv
  else if send && negb recv then k_send_only
  else if negb send && recv then k_recv_only
  else k_inactive.

Section offer.
(** The text of an address, the fingerprint of a certificate, and the random
    credentials. *)
Variable inet_ntop : IPAddress -> bytes.
Variable cert_fingerprint : Z -> option SSLFingerprint.
Variable ice_param : IceParameters.

(** The audio or video part of [create_offer]. *)
Definition offer_content (t : MediaType) (send recv rtcp_mux : bool) (certificate : option Z)
    (source : list StreamParams) (d : SessionDescription) : SessionDescription :=
  if recv || send then
    let c := mkContent t (get_direction send recv) rtcp_mux [] (if send then source else []) in
    snd (add_transport_info (mid_of t) ice_param (cert_fingerprint <$> certificate) (add_content c d))
  else d.

Definition offer_bundle (d : SessionDescription) : SessionDescription :=
  let g := fold_left (fun g c => add_content_name (mc_mid c) g) (sd_contents d) (mkGroup BUNDLE []) in
  if bool_decide (cg_content_names g = []) then d else add_group g d.

Definition offer_desc (o : RTCOfferAnswerOptions) (pc : PeerConnection) : SessionDescription :=
  let d := new_desc k_offer in
  let d := offer_content MEDIA_TYPE_AUDIO (send_audio o) (recv_audio o) (use_rtcp_mux o)
             (pc_certificate pc) (pc_audio_source pc) d in
  let d := offer_content MEDIA_TYPE_VIDEO (send_video o) (recv_video o) (use_rtcp_mux o)
             (pc_certificate pc) (pc_video_source pc) d in
  if use_rtp_mux o then offer_bundle d else d.

(** [on_candidate_allocate_done]: the first section of the name. *)
Definition set_candidates (mid : bytes) (cs : list Candidate) (d : SessionDescription) : SessionDescription :=
  mkDesc (sd_type d)
    (update_first (fun c => bool_decide (mc_mid c = mid))
       (fun c => mkContent (mc_type c) (mc_direction c) (mc_rtcp_mux c) cs (mc_send_streams c))
       (sd_contents d))
    (sd_content_groups d) (sd_transport_infos d).

Definition on_tc_event (d : SessionDescription) (e : tc_event) : SessionDescription :=
  match e with TcCandidates mid _ cs => set_candidates mid cs d | TcConnectionState _ => d end.

(** [create_offer]: the text, empty on failure. *)
Definition create_offer (o : RTCOfferAnswerOptions) (pc : PeerConnection)
    : outcome (bytes * PeerConnection) :=
  if dtls_on o && negb (bool_decide (is_Some (pc_certificate pc))) then Done ([], pc)
  else
    let d := offer_desc o pc in
    tc ← set_local_description d (pc_transport_controller pc);
    let d := fold_left on_tc_event (drop (length (tc_out (pc_transport_controller pc))) (tc_out tc)) d in
    Done (desc_to_string inet_ntop d,
          mkPc (Some d) (pc_remote_desc pc) (pc_certificate pc) tc (pc_audio_source pc) (pc_video_source pc)).
End offer.

(** [set_remote_sdp] *)
Definition set_remote_sdp (direction : RtpDirection) (sdp : bytes) (pc : PeerConnection)
    : outcome (Z * PeerConnection) :=
  '(r, remote) ← parse_remote_sdp direction sdp (pc_remote_desc pc);
  let pc := mkPc (pc_local_desc pc) remote (pc_certificate pc) (pc_transport_controller pc)
              (pc_audio_source pc) (pc_video_source pc) in
  if r =? 0 then
    d ← deref null_deref remote;
    tc ← set_remote_description d (pc_transport_controller pc);
    Done (0, mkPc (pc_local_desc pc) remote (pc_certificate pc) tc (pc_audio_source pc) (pc_video_source pc))
  else Done (r, pc).

(** [send_rtp] and [send_rtcp] use the transport of the audio section. *)
Definition pc_send_rtp (data : bytes) (pc : PeerConnection) : outcome (Z * PeerConnection) :=
  '(r, tc) ← tc_send_rtp (str "audio") data (pc_transport_controller pc);
  Done (r, mkPc (pc_local_desc pc) (pc_remote_desc pc) (pc_certificate pc) tc (pc_audio_source pc)
             (pc_video_source pc)).

Definition pc_send_rtcp (data : bytes) (pc : PeerConnection) : outcome (Z * PeerConnection) :=
  '(r, tc) ← tc_send_rtcp (str "audio") data (pc_transport_controller pc);
  Done (r, mkPc (pc_local_desc pc) (pc_remote_desc pc) (pc_certificate pc) tc (pc_audio_source pc)
             (pc_video_source pc)).
End controller.
Arguments TransportController C M : clear implicits.
Arguments PeerConnection C M : clear implicits.
