(* ===== verification/TransportTheory.v ===== *)
(** * Theory of the transport controller

    The state of the connection, the transports an offer makes, and what an
    answer does to them. *)

From S2P Require Import Prelude IpAddress IceTypes State Dtls Sdp SdpParse IceAgent TransportController.
Local Open Scope Z_scope.

(** ** The decision *)

Lemma count_dtls_zero s l : (count_dtls s l = 0 <-> s ∉ l) /\ 0 <= count_dtls s l.
Proof.
  unfold count_dtls. split; [|lia]. induction l as [|x l IH]; cbn [List.filter length].
  - split; [intros _ Hin; by apply not_elem_of_nil in Hin|done].
  - case_bool_decide as E; cbn [length].
    + subst. split; [lia|]. intros Hn. exfalso. apply Hn. by left.
    + rewrite IH, not_elem_of_cons. split; [intros Hn; by split|tauto].
Qed.

Lemma count_dtls_sum l :
  count_dtls dtls_new l + count_dtls dtls_connecting l + count_dtls dtls_connected l +
  count_dtls dtls_closed l + count_dtls dtls_failed l = Z.of_nat (length l).
Proof.
  induction l as [|x l IH]; [done|].
  assert (Hc : forall s, count_dtls s (x :: l) = (if bool_decide (x = s) then 1 else 0) + count_dtls s l).
  { intros s. unfold count_dtls. cbn [List.filter]. case_bool_decide; cbn [length]; lia. }
  rewrite !Hc. cbn [length]. destruct x; repeat (case_bool_decide; try congruence); lia.
Qed.

Lemma count_state_eq0 s l : count_state s l = 0 <-> s ∉ l.
Proof. apply count_state_zero. Qed.
Lemma count_dtls_eq0 s l : count_dtls s l = 0 <-> s ∉ l.
Proof. apply count_dtls_zero. Qed.

(** Nothing has begun, and something has not ended. *)
Definition ice_idle (l : list IceTransportChannelState) : Prop :=
  (ice_checking ∉ l) /\ (ice_connected ∉ l) /\ (ice_completed ∉ l).
Definition ice_pending (l : list IceTransportChannelState) : Prop := ice_new ∈ l \/ ice_checking ∈ l.
Definition dtls_idle (l : list DtlsTransportState) : Prop := (dtls_connecting ∉ l) /\ (dtls_connected ∉ l).
Definition dtls_pending (l : list DtlsTransportState) : Prop := dtls_new ∈ l \/ dtls_connecting ∈ l.

(** What the state of the connection means, for the states of its DTLS
    transports and of their channels. *)
Definition connection_means (ds : list DtlsTransportState) (ics : list IceTransportChannelState)
    (s : PeerConnectionState) : Prop :=
  let failed := ice_failed ∈ ics \/ dtls_failed ∈ ds in
  let disconnected := ice_disconnected ∈ ics in
  let idle := ice_idle ics /\ dtls_idle ds in
  let pending := ice_pending ics \/ dtls_pending ds in
  match s with
  | pc_failed => failed
  | pc_disconnected => ~ failed /\ disconnected
  | pc_new => ~ failed /\ ~ disconnected /\ idle
  | pc_connecting => ~ failed /\ ~ disconnected /\ ~ idle /\ pending
  | pc_connected => ~ failed /\ ~ disconnected /\ ~ idle /\ ~ pending
  | pc_closed => False
  end.

Ltac all_counts ds ics :=
  pose proof (count_state_sum ics); pose proof (count_dtls_sum ds);
  pose proof (proj2 (count_state_zero ice_new ics)); pose proof (proj2 (count_state_zero ice_checking ics));
  pose proof (proj2 (count_state_zero ice_connected ics)); pose proof (proj2 (count_state_zero ice_completed ics));
  pose proof (proj2 (count_state_zero ice_failed ics)); pose proof (proj2 (count_state_zero ice_disconnected ics));
  pose proof (proj2 (count_state_zero ice_closed ics)); pose proof (proj2 (count_dtls_zero dtls_new ds));
  pose proof (proj2 (count_dtls_zero dtls_connecting ds)); pose proof (proj2 (count_dtls_zero dtls_connected ds));
  pose proof (proj2 (count_dtls_zero dtls_closed ds)); pose proof (proj2 (count_dtls_zero dtls_failed ds)).

(** Membership as a positive count. *)
Lemma count_state_in s l : s ∈ l <-> 0 < count_state s l.
Proof. rewrite <- count_pos. apply Z.ltb_lt. Qed.
Lemma count_dtls_in s l : s ∈ l <-> 0 < count_dtls s l.
Proof.
  destruct (count_dtls_zero s l) as [Hz Hn]. destruct (decide (s ∈ l)) as [Hin|Hin].
  - split; [|done]. intros _. destruct (decide (count_dtls s l = 0)) as [E|]; [|lia]. by apply Hz in E.
  - apply Hz in Hin as E. split; [done|lia].
Qed.

Lemma controller_state_means ds ics :
  length ds = length ics -> connection_means ds ics (controller_state ds ics).
Proof.
  intros Hl. unfold controller_state. cbv zeta. all_counts ds ics.
  destruct (0 <? count_state ice_failed ics + _) eqn:Ef.
  { apply Z.ltb_lt in Ef. cbn. rewrite count_state_in, count_dtls_in. lia. }
  apply Z.ltb_ge in Ef. destruct (0 <? count_state ice_disconnected ics) eqn:Ed.
  { apply Z.ltb_lt in Ed. cbn. rewrite !count_state_in, count_dtls_in. lia. }
  apply Z.ltb_ge in Ed. destruct (_ =? Z.of_nat (length ds) * 2) eqn:En.
  { apply Z.eqb_eq in En. cbn. unfold ice_idle, ice_pending, dtls_idle, dtls_pending.
    rewrite !count_state_in, !count_dtls_in. lia. }
  apply Z.eqb_neq in En. destruct (0 <? count_state ice_checking ics + _ + _) eqn:Ec.
  { apply Z.ltb_lt in Ec. cbn. unfold ice_idle, ice_pending, dtls_idle, dtls_pending.
    rewrite !count_state_in, !count_dtls_in. lia. }
  apply Z.ltb_ge in Ec. destruct (_ =? Z.of_nat (length ds) * 2) eqn:Eo.
  { cbn. unfold ice_idle, ice_pending, dtls_idle, dtls_pending.
    rewrite !count_state_in, !count_dtls_in. lia. }
  apply Z.eqb_neq in Eo. lia.
Qed.

Lemma connection_means_unique ds ics s :
  length ds = length ics -> connection_means ds ics s <-> s = controller_state ds ics.
Proof.
  intros Hl. split; [|intros ->; by apply controller_state_means]. intros Hs.
  pose proof (controller_state_means ds ics Hl) as Hc. revert Hs Hc.
  generalize (controller_state ds ics). intros s'. destruct s, s'; cbn; try done; intros; exfalso; tauto.
Qed.

(** What the agent's summary tells about channels none of which is closed. *)
Definition summary_tells (l : list IceTransportChannelState) (a : IceTransportChannelState) : Prop :=
  match a with
  | ice_failed => ice_failed ∈ l
  | ice_disconnected => (ice_failed ∉ l) /\ ice_disconnected ∈ l
  | ice_new => (ice_failed ∉ l) /\ (ice_disconnected ∉ l) /\ ice_idle l /\ (ice_pending l <-> l <> [])
  | ice_checking => (ice_failed ∉ l) /\ (ice_disconnected ∉ l) /\ ~ ice_idle l /\ ice_pending l
  | ice_connected | ice_completed =>
      (ice_failed ∉ l) /\ (ice_disconnected ∉ l) /\ ~ ice_idle l /\ ~ ice_pending l
  | ice_closed => False
  end.

Lemma agent_state_tells l : (ice_closed ∉ l) -> summary_tells l (agent_ice_state l).
Proof.
  intros Hc. pose proof (agent_ice_state_means l) as Ha. revert Ha.
  generalize (agent_ice_state l). unfold summary_tells, ice_idle, ice_pending.
  intros []; cbn; rewrite ?all_completed_excluded, ?all_connected_excluded; try tauto.
  - intros Ha. pose proof (proj1 (all_new_excluded l) Ha) as Hex. split_and!; try tauto.
    split; [intros [Hin|Hin] ->; by apply not_elem_of_nil in Hin|]. intros Hne. left.
    destruct l as [|x l]; [done|]. assert (Hx : x ∈ [ice_new; ice_closed]) by (apply Ha; left).
    apply elem_of_cons in Hx as [->|Hx]; [left|].
    apply list_elem_of_singleton in Hx as ->. exfalso. apply Hc. left.
  - rewrite all_new_excluded. tauto.
Qed.

Lemma summary_agrees l l' a :
  summary_tells l a -> summary_tells l' a -> (l <> [] <-> l' <> []) ->
  (ice_failed ∈ l <-> ice_failed ∈ l') /\
  ((ice_failed ∉ l) -> ice_disconnected ∈ l <-> ice_disconnected ∈ l') /\
  ((ice_failed ∉ l) -> (ice_disconnected ∉ l) ->
     (ice_idle l <-> ice_idle l') /\ (ice_pending l <-> ice_pending l')).
Proof.
  unfold summary_tells. generalize (ice_idle l) (ice_idle l') (ice_pending l) (ice_pending l').
  destruct a; tauto.
Qed.

(** The decision sees the channels only through the agent's summary, unless a
    channel is closed. *)
Lemma controller_state_by_agent ds ics ics' :
  (ice_closed ∉ ics) -> (ice_closed ∉ ics') -> length ds = length ics -> length ds = length ics' ->
  agent_ice_state ics = agent_ice_state ics' -> controller_state ds ics = controller_state ds ics'.
Proof.
  intros Hc Hc' Hl Hl' E. apply connection_means_unique; [done|].
  pose proof (controller_state_means ds ics Hl) as Hm.
  assert (Hnil : ics <> [] <-> ics' <> []) by (destruct ics, ics'; cbn in *; try done; lia).
  pose proof (agent_state_tells ics Hc) as Ha. pose proof (agent_state_tells ics' Hc') as Ha'.
  rewrite <- E in Ha'. clear E Hc Hc' Hl Hl'.
  destruct (summary_agrees _ _ _ Ha Ha' Hnil) as (E1 & E2 & E3). clear Ha Ha' Hnil.
  revert Hm. generalize (controller_state ds ics). intros s. unfold connection_means. cbv zeta.
  destruct s; tauto.
Qed.

(** ** The state is kept current *)

Lemma count_state_perm s l l' : l ≡ₚ l' -> count_state s l = count_state s l'.
Proof.
  unfold count_state. intros Hp. f_equal.
  induction Hp as [|x l l' _ IH|x y l|]; cbn [List.filter]; [done| | |congruence].
  - destruct (bool_decide _); cbn; congruence.
  - by destruct (bool_decide (y = s)), (bool_decide (x = s)).
Qed.

Lemma controller_state_perm ds ics ics' : ics ≡ₚ ics' -> controller_state ds ics = controller_state ds ics'.
Proof. intros Hp. unfold controller_state. by rewrite !(count_state_perm _ ics ics') by done. Qed.

Section current.
Context {C M : Type} `{IceChannelI C} `{MediaI M}.
Implicit Types tc : TransportController C M.

Definition channel_states tc : list IceTransportChannelState := map chan_state (ag_channels (tc_agent tc)).
Definition channel_names tc : list bytes := map chan_transport_name (ag_channels (tc_agent tc)).

(** One transport per channel, made by [set_local_description]. *)
Record tc_wired tc : Prop := {
  tw_names : NoDup (channel_names tc);
  tw_component : forall c, In c (ag_channels (tc_agent tc)) -> chan_component c = RTP;
  tw_media : forall mid, is_Some (tc_media tc !! mid) <-> mid ∈ channel_names tc;
}.

(** The derived states are up to date. *)
Record tc_ready tc : Prop := {
  tr_wired : tc_wired tc;
  tr_slots : (0 < tc_slots tc)%nat \/ ag_channels (tc_agent tc) = [];
  tr_open : ice_closed ∉ channel_states tc;
  tr_agent : ag_ice_state (tc_agent tc) = agent_ice_state (channel_states tc);
  tr_current : tc_pc_state tc = controller_state (dtls_states tc) (channel_states tc);
}.

Lemma get_channel_in tc c :
  tc_wired tc -> In c (ag_channels (tc_agent tc)) ->
  get_channel (chan_transport_name c) RTP (tc_agent tc) = Some c.
Proof.
  intros [Hn Hc _]. unfold get_channel, channel_names in *. revert Hn Hc.
  generalize (ag_channels (tc_agent tc)). intros l Hn Hc.
  induction l as [|x l IH]; intros Hin; [done|]. cbn [List.find map] in *.
  apply NoDup_cons in Hn as [Hx Hn]. unfold is_channel at 1.
  destruct Hin as [->|Hin].
  - rewrite bool_decide_true, (Hc c), Z.eqb_refl by (first [done|by left]). done.
  - rewrite bool_decide_false; [|intros E; apply Hx; rewrite <- E; by apply list_elem_of_In, in_map].
    apply IH; [done| |done]. intros y Hy. apply Hc. by right.
Qed.

Lemma media_keys_perm tc : tc_wired tc -> (map_to_list (tc_media tc)).*1 ≡ₚ channel_names tc.
Proof.
  intros [Hn _ Hm]. apply NoDup_Permutation; [apply NoDup_fst_map_to_list|done|].
  intros mid. rewrite <- Hm, list_elem_of_fmap. split.
  - intros ([k m] & -> & Hk). apply elem_of_map_to_list in Hk. by exists m.
  - intros [m Hk]. exists (mid, m). by rewrite elem_of_map_to_list.
Qed.

(** The controller reads each channel once. *)
Lemma ice_states_perm tc : tc_wired tc -> ice_states tc ≡ₚ channel_states tc.
Proof.
  intros Hw. unfold ice_states.
  set (f := fun mid => from_option chan_state ice_new (get_channel mid RTP (tc_agent tc))).
  transitivity (map f (map_to_list (tc_media tc)).*1).
  { apply reflexive_eq. induction (map_to_list (tc_media tc)) as [|[k m] l IH]; [done|].
    cbn [map]. by rewrite IH. }
  rewrite (media_keys_perm tc Hw). unfold channel_names, channel_states. rewrite map_map.
  apply reflexive_eq. apply map_ext_in. intros c Hc. unfold f. by rewrite get_channel_in.
Qed.

Lemma dtls_states_length tc : tc_wired tc -> length (dtls_states tc) = length (channel_states tc).
Proof.
  intros Hw. apply media_keys_perm, Permutation_length in Hw.
  unfold dtls_states, channel_states, channel_names in *. by rewrite length_fmap, !length_map in *.
Qed.

Lemma update_state_current tc :
  tc_wired tc ->
  let s := controller_state (dtls_states tc) (channel_states tc) in
  tc_update_state tc =
    mkTc (tc_agent tc) (tc_media tc) (tc_certificate tc) s (tc_slots tc)
      (tc_out tc ++ (if bool_decide (tc_pc_state tc = s) then [] else [TcConnectionState s])).
Proof.
  intros Hw s. unfold tc_update_state. cbv zeta.
  rewrite (controller_state_perm _ _ _ (ice_states_perm tc Hw)). fold s. case_bool_decide as E.
  - destruct tc. cbn in *. by rewrite app_nil_r, E.
  - done.
Qed.

Lemma update_state_fixed tc :
  tc_wired tc -> tc_pc_state tc = controller_state (dtls_states tc) (channel_states tc) ->
  tc_update_state tc = tc.
Proof.
  intros Hw E. rewrite update_state_current by done. rewrite <- E, bool_decide_true by done.
  destruct tc. cbn. by rewrite app_nil_r.
Qed.

Lemma update_state_twice tc : tc_wired tc -> tc_update_state (tc_update_state tc) = tc_update_state tc.
Proof.
  intros Hw. apply update_state_fixed; rewrite (update_state_current tc Hw); [|done]. by destruct Hw.
Qed.

Lemma update_state_iter n tc :
  tc_wired tc -> Nat.iter (S n) tc_update_state tc = tc_update_state tc.
Proof.
  intros Hw. induction n as [|n IH]; [done|]. change (Nat.iter (S (S n)) tc_update_state tc) with
    (tc_update_state (Nat.iter (S n) tc_update_state tc)). by rewrite IH, update_state_twice.
Qed.

(** Any number of signals, each through at least one slot, is one update. *)
Lemma signals_one_update {A} (sigs : list A) tc :
  tc_wired tc -> sigs <> [] -> (0 < tc_slots tc)%nat ->
  fold_left (fun tc _ => Nat.iter (tc_slots tc) tc_update_state tc) sigs tc = tc_update_state tc.
Proof.
  intros Hw. destruct sigs as [|x sigs]; [done|]. intros _ Hs. cbn [fold_left].
  destruct (tc_slots tc) as [|n] eqn:En; [lia|]. rewrite update_state_iter by done.
  assert (Hu : forall k, Nat.iter (S k) tc_update_state (tc_update_state tc) = tc_update_state tc).
  { intros k. rewrite <- Nat.iter_succ_r. by apply (update_state_iter (S k)). }
  induction sigs as [|y sigs IH]; [done|]. cbn [fold_left].
  assert (Es : tc_slots (tc_update_state tc) = S n).
  { rewrite update_state_current by done. exact En. }
  rewrite Es, Hu. exact IH.
Qed.

(** *** A channel signals *)

Lemma change_channel_names mid c tc :
  chan_transport_name c = mid ->
  map chan_transport_name (ag_channels (change_channel mid RTP (fun _ => c) (tc_agent tc))) = channel_names tc.
Proof.
  intros Hc. unfold change_channel, channel_names. cbn [ag_channels].
  induction (ag_channels (tc_agent tc)) as [|x l IH]; [done|]. cbn [update_first].
  destruct (is_channel mid RTP x) eqn:E; cbn [map]; [|by rewrite IH].
  apply andb_true_iff in E as [E%bool_decide_eq_true _]. by rewrite Hc, E.
Qed.

Lemma change_channel_in mid c (a : IceAgent C) x :
  In x (ag_channels (change_channel mid RTP (fun _ => c) a)) -> x = c \/ In x (ag_channels a).
Proof.
  unfold change_channel. cbn [ag_channels]. induction (ag_channels a) as [|y l IH]; [done|].
  cbn [update_first]. destruct (is_channel mid RTP y); cbn; [|tauto]. intros [<-|Hx]; tauto.
Qed.

Lemma change_channel_wired mid c tc :
  tc_wired tc -> chan_transport_name c = mid -> chan_component c = RTP ->
  tc_wired (tc_set_agent (change_channel mid RTP (fun _ => c) (tc_agent tc)) tc).
Proof.
  intros [Hn Hc Hm] Ec Ecc. split.
  - unfold channel_names. cbn [tc_set_agent tc_agent]. by rewrite change_channel_names.
  - intros x Hx. apply change_channel_in in Hx as [->|Hx]; [done|by apply Hc].
  - intros k. unfold channel_names. cbn [tc_set_agent tc_agent tc_media]. by rewrite change_channel_names.
Qed.

(** What can be signalled. *)
Inductive tc_signal : Type := SigChannel (c : C) | SigMedia (mid : bytes) (m : M).

Definition tc_signalled (sig : tc_signal) tc : TransportController C M :=
  match sig with
  | SigChannel c => tc_on_channel_signal (chan_transport_name c) c tc
  | SigMedia mid m => tc_on_media_signal mid m tc
  end.

(** The channels and transports of the controller signal; no channel is
    closed. *)
Definition signal_ok tc (sig : tc_signal) : Prop :=
  match sig with
  | SigChannel c => chan_component c = RTP /\ chan_state c <> ice_closed /\
      chan_transport_name c ∈ channel_names tc
  | SigMedia mid _ => mid ∈ channel_names tc
  end.

(** What one step adds to the trace. *)
Definition state_change (old new : PeerConnectionState) : list PeerConnectionState :=
  if bool_decide (old = new) then [] else [new].

Lemma update_state_ready tc :
  tc_wired tc -> (0 < tc_slots tc)%nat \/ ag_channels (tc_agent tc) = [] ->
  ice_closed ∉ channel_states tc -> ag_ice_state (tc_agent tc) = agent_ice_state (channel_states tc) ->
  tc_ready (tc_update_state tc) /\ channel_names (tc_update_state tc) = channel_names tc /\
  tc_out (tc_update_state tc) =
    tc_out tc ++ map TcConnectionState (state_change (tc_pc_state tc) (tc_pc_state (tc_update_state tc))).
Proof.
  intros Hw Hs Ho Ha. rewrite (update_state_current tc Hw). split_and!; [|done|].
  - split; try done. by destruct Hw.
  - cbn. unfold state_change. by case_bool_decide.
Qed.

(** Agent signals raised in the wired state [tc]. *)
Lemma on_agent_ready a tc :
  let tc1 := tc_set_agent a tc in
  tc_wired tc1 -> (0 < tc_slots tc)%nat -> ice_closed ∉ channel_states tc1 ->
  tc_pc_state tc = controller_state (dtls_states tc) (channel_states tc) ->
  ag_ice_state (tc_agent tc) = agent_ice_state (channel_states tc) -> ice_closed ∉ channel_states tc ->
  length (channel_states tc) = length (channel_states tc1) -> tc_wired tc ->
  ag_ice_state a = ag_ice_state (tc_agent tc) ->
  let tc' := tc_on_agent (agent_update_state a) tc in
  tc_ready tc' /\ channel_names tc' = channel_names tc1 /\
  tc_out tc' = tc_out tc ++ map TcConnectionState (state_change (tc_pc_state tc) (tc_pc_state tc')).
Proof.
  intros tc1 Hw Hs Ho Hp Ha Ho0 Hlen Hw0 Hag. cbv zeta. rewrite (agent_update_spec a). unfold tc_on_agent.
  set (new := agent_ice_state (map chan_state (ag_channels a))).
  set (tc2 := tc_set_agent (mkAgent (ag_channels a) new) tc).
  assert (Hw2 : tc_wired tc2) by (by destruct Hw).
  assert (Hr2 : tc_pc_state tc2 = tc_pc_state tc) by done.
  destruct (decide (ag_ice_state a = new)) as [E|E].
  - assert (Hsig : agent_signals (ag_ice_state a) new = []) by (unfold agent_signals; by rewrite bool_decide_true).
    rewrite Hsig. cbn [fold_left].
    assert (Hcur : tc_pc_state tc2 = controller_state (dtls_states tc2) (channel_states tc2)).
    { rewrite Hr2, Hp. change (dtls_states tc2) with (dtls_states tc).
      change (channel_states tc2) with (channel_states tc1). pose proof (dtls_states_length tc Hw0) as Hl.
      apply controller_state_by_agent; try done.
      - congruence.
      - rewrite <- Ha, <- Hag, E. done. }
    split_and!; [|done|].
    + split; try done. by left.
    + rewrite Hr2. unfold state_change. rewrite bool_decide_true by done. cbn. by rewrite app_nil_r.
  - assert (Hsig : agent_signals (ag_ice_state a) new <> []).
    { unfold agent_signals. rewrite bool_decide_false by done. by destruct (ag_ice_state a), new. }
    rewrite (signals_one_update _ tc2 Hw2 Hsig Hs).
    destruct (update_state_ready tc2) as (R1 & R2 & R3); try done. by left.
Qed.

Lemma signalled_ready sig tc :
  tc_ready tc -> signal_ok tc sig ->
  let tc' := tc_signalled sig tc in
  tc_ready tc' /\ channel_names tc' = channel_names tc /\
  tc_out tc' = tc_out tc ++ map TcConnectionState (state_change (tc_pc_state tc) (tc_pc_state tc')).
Proof.
  intros [Hw Hs Ho Ha Hp] Hok. cbv zeta. destruct sig as [c|mid m]; cbn [tc_signalled signal_ok] in *.
  - destruct Hok as (Hc & Hne & Hin). unfold tc_on_channel_signal, on_channel_signal.
    set (a := change_channel (chan_transport_name c) RTP (fun _ => c) (tc_agent tc)).
    assert (Hnames : channel_names (tc_set_agent a tc) = channel_names tc) by (by apply change_channel_names).
    rewrite <- Hnames. apply on_agent_ready; try done.
    + by apply change_channel_wired.
    + destruct Hs as [|E]; [done|]. unfold channel_names in Hin. rewrite E in Hin. by apply not_elem_of_nil in Hin.
    + unfold channel_states. cbn. intros Hx. apply list_elem_of_In, in_map_iff in Hx as (x & Ex & Hx).
      apply change_channel_in in Hx as [->|Hx]; [done|]. apply Ho. unfold channel_states.
      rewrite <- Ex. apply list_elem_of_In, in_map, Hx.
    + pose proof (f_equal length Hnames) as Hl. unfold channel_names, channel_states in *.
      by rewrite !length_map in *.
  - unfold tc_on_media_signal. set (tc1 := tc_set_media _ tc).
    assert (Hw1 : tc_wired tc1).
    { destruct Hw as [W1 W2 W3]. split; [done|done|]. intros k. unfold tc1. cbn. specialize (W3 k).
      destruct (decide (k = mid)) as [->|Hk]; [|by rewrite lookup_insert_ne].
      rewrite lookup_insert_eq. split; [done|by eexists]. }
    destruct (update_state_ready tc1) as (R1 & R2 & R3); try done.
Qed.

Fixpoint tc_run (sigs : list tc_signal) tc : TransportController C M :=
  match sigs with [] => tc | sig :: sigs => tc_run sigs (tc_signalled sig tc) end.

(** A trace of connection states that starts in [s]: no repetition. *)
Fixpoint changes_from (s : PeerConnectionState) (out : list PeerConnectionState) : Prop :=
  match out with [] => True | s' :: out => s' <> s /\ changes_from s' out end.

Lemma state_change_trace old new out :
  changes_from new out -> changes_from old (state_change old new ++ out) /\
  List.last (state_change old new ++ out) old = List.last out new.
Proof.
  intros Hc. rewrite last_app_default. unfold state_change. case_bool_decide as E; [by subst|]. cbn.
  by split.
Qed.

Lemma run_ready sigs tc :
  tc_ready tc -> Forall (signal_ok tc) sigs ->
  tc_ready (tc_run sigs tc) /\
  exists out, tc_out (tc_run sigs tc) = tc_out tc ++ map TcConnectionState out /\
    changes_from (tc_pc_state tc) out /\ List.last out (tc_pc_state tc) = tc_pc_state (tc_run sigs tc).
Proof.
  intros Hr Hs. revert tc Hr Hs. induction sigs as [|sig sigs IH]; intros tc Hr Hs.
  { split; [done|]. exists []. by rewrite app_nil_r. }
  apply Forall_cons in Hs as [Hsig Hs]. destruct (signalled_ready sig tc Hr Hsig) as (R & En & Eo).
  cbn [tc_run]. destruct (IH (tc_signalled sig tc) R) as (R' & out & E1 & E2 & E3).
  { eapply Forall_impl; [exact Hs|]. intros []; unfold signal_ok; by rewrite En. }
  split; [done|].
  destruct (state_change_trace (tc_pc_state tc) (tc_pc_state (tc_signalled sig tc)) out E2) as [T1 T2].
  eexists. split; [|split; [exact T1|by rewrite T2]]. by rewrite E1, Eo, map_app, app_assoc.
Qed.
End current.

(** C26: the connection state is never stale and its signals tell its history.
    Although the controller recomputes its state only when a DTLS transport
    signals or the agent's summary changes, and once per connected slot, after
    any run of signals of its transports (no channel being closed) the state
    is the one the transports' states mean: failed if a channel or a handshake
    failed, else disconnected if a channel is, else new if nothing has begun,
    else connecting if something is new, checking or connecting, else
    connected; and it signals exactly the changes, in order, each once. *)
Theorem connection_state_current {C M : Type} `{IceChannelI C} `{MediaI M} (sigs : list tc_signal)
    (tc : TransportController C M) :
  tc_ready tc -> Forall (signal_ok tc) sigs ->
  let tc' := tc_run sigs tc in
  (forall s, connection_means (dtls_states tc') (channel_states tc') s <-> s = tc_pc_state tc') /\
  exists out, tc_out tc' = tc_out tc ++ map TcConnectionState out /\
    changes_from (tc_pc_state tc) out /\ List.last out (tc_pc_state tc) = tc_pc_state tc'.
Proof.
  intros Hr Hs. cbv zeta. destruct (run_ready sigs tc Hr Hs) as [R Hout]. split; [|exact Hout].
  intros s. rewrite (tr_current _ R). apply connection_means_unique, dtls_states_length, R.
Qed.
