(* ===== verification/OfferTheory.v ===== *)
(** * The transports of an offer, and an answer without a fingerprint

    Theory of TransportController over the interfaces of the channels and of
    the media transports: what [create_offer] sets up, and where
    [set_remote_sdp] fails. *)

From S2P Require Import Prelude ByteBuffer StringEncode IpAddress IceTypes IceConnection.
From S2P Require Import IceChannel IceChannelTheory IceBehaviour State Srtp Dtls.
From S2P Require Import DtlsBehaviour Sdp SdpParse SdpTheory IceAgent TransportController.
From S2P Require Import TransportTheory.
Local Open Scope Z_scope.

(** ** Lists *)

Section lists.
Context {A : Type} (p : A -> bool) (f : A -> A).

Lemma find_app_new l x : Forall (fun y => p y = false) l -> p x = true -> List.find p (l ++ [x]) = Some x.
Proof. intros Hl Hx. induction Hl as [|y l Hy _ IH]; cbn; [by rewrite Hx|by rewrite Hy]. Qed.

Lemma find_none_all l : Forall (fun y => p y = false) l -> List.find p l = None.
Proof. intros Hl. induction Hl as [|y l Hy _ IH]; cbn; [done|by rewrite Hy]. Qed.

Lemma update_first_app_new l x :
  Forall (fun y => p y = false) l -> p x = true -> update_first p f (l ++ [x]) = l ++ [f x].
Proof. intros Hl Hx. induction Hl as [|y l Hy _ IH]; cbn; [by rewrite Hx|by rewrite Hy, IH]. Qed.
End lists.

Lemma ice_params_eta p : mkIceParameters (ice_ufrag p) (ice_pwd p) = p.
Proof. by destruct p. Qed.

(** ** The description of an offer *)

(** The sections the options ask for, and those with a transport. *)
Definition offered_mids (o : RTCOfferAnswerOptions) : list bytes :=
  (if recv_audio o || send_audio o then [mid_of MEDIA_TYPE_AUDIO] else []) ++
  (if recv_video o || send_video o then [mid_of MEDIA_TYPE_VIDEO] else []).

Definition transport_mids (o : RTCOfferAnswerOptions) : list bytes :=
  if use_rtp_mux o then take 1 (offered_mids o) else offered_mids o.

Section description.
Context {C M : Type} `{IceChannelI C} `{MediaI M}.
Variable cert_fingerprint : Z -> option SSLFingerprint.
Variable ice_param : IceParameters.
Variables (o : RTCOfferAnswerOptions) (pc : PeerConnection C M).
Hypothesis cert_ok : forall c, pc_certificate pc = Some c -> is_Some (cert_fingerprint c).
Let d := offer_desc cert_fingerprint ice_param o pc.

(** The two sections, each with its transport. *)
Lemma offer_content_added t send recv mux source d0 :
  exists c td, mc_type c = t /\ td_mid td = mid_of t /\
    mkIceParameters (td_ice_ufrag td) (td_ice_pwd td) = ice_param /\
    offer_content cert_fingerprint ice_param t send recv mux (pc_certificate pc) source d0 =
      if recv || send then add_transport_td td (add_content c d0) else d0.
Proof.
  unfold offer_content, add_transport_info.
  set (c := mkContent _ _ _ _ _). exists c.
  destruct (pc_certificate pc) as [cert|] eqn:E; cbn [fmap option_fmap option_map].
  - destruct (cert_ok cert eq_refl) as [fp ->].
    eexists (mkTd _ _ _ (Some fp) _). split_and!; [done|cbn; reflexivity|apply ice_params_eta|].
    by destruct (recv || send).
  - eexists (mkTd _ _ _ None _). split_and!; [done|cbn; reflexivity|apply ice_params_eta|].
    by destruct (recv || send).
Qed.

Lemma offer_desc_sections :
  map mc_mid (sd_contents d) = offered_mids o /\
  (forall mid, mid ∈ offered_mids o -> exists td, get_transport_info mid d = Some td /\
    mkIceParameters (td_ice_ufrag td) (td_ice_pwd td) = ice_param /\
    own_transport d mid = Done (bool_decide (mid ∈ transport_mids o))).
Proof.
  destruct (offer_content_added MEDIA_TYPE_AUDIO (send_audio o) (recv_audio o) (use_rtcp_mux o)
    (pc_audio_source pc) (new_desc k_offer)) as (ca & ta & Eca & Eta & Epa & Ea).
  destruct (offer_content_added MEDIA_TYPE_VIDEO (send_video o) (recv_video o) (use_rtcp_mux o)
    (pc_video_source pc) (offer_content cert_fingerprint ice_param MEDIA_TYPE_AUDIO (send_audio o)
      (recv_audio o) (use_rtcp_mux o) (pc_certificate pc) (pc_audio_source pc) (new_desc k_offer)))
    as (cv & tv & Ecv & Etv & Epv & Ev).
  assert (Hd : d = let d2 := if recv_video o || send_video o then add_transport_td tv (add_content cv
      (if recv_audio o || send_audio o then add_transport_td ta (add_content ca (new_desc k_offer))
       else new_desc k_offer)) else
      (if recv_audio o || send_audio o then add_transport_td ta (add_content ca (new_desc k_offer))
       else new_desc k_offer) in if use_rtp_mux o then offer_bundle d2 else d2).
  { unfold d, offer_desc. cbv zeta. by rewrite Ev, Ea. }
  rewrite Hd. clear Hd Ev Ea. unfold transport_mids, offered_mids, own_transport, get_transport_info.
  destruct ca, ta, cv, tv. cbn in Eca, Eta, Epa, Ecv, Etv, Epv. subst.
  destruct (recv_audio o || send_audio o), (recv_video o || send_video o), (use_rtp_mux o);
    (split; [reflexivity|]); intros mid Hin; cbn [app] in Hin;
    repeat (apply elem_of_cons in Hin as [->|Hin]; [eexists; split; [reflexivity|split; [first [assumption|reflexivity]|reflexivity]]|]);
    by apply not_elem_of_nil in Hin.
Qed.
End description.

(** ** The controller during an offer *)

Section offer_theory.
Context {C M : Type} `{IceChannelI C, !IceChannelLaws C, MediaI M, !MediaLaws M}.
Implicit Types tc : TransportController C M.

(** Every transport is as it was made. *)
Record tc_offering (p : IceParameters) (cert : option Z) tc : Prop := {
  to_wired : tc_wired tc;
  to_slots : tc_slots tc = length (ag_channels (tc_agent tc));
  to_channels : Forall (fun c => chan_state c = ice_new /\ chan_ice_params c = p) (ag_channels (tc_agent tc));
  to_media : map_Forall (fun _ m => media_dtls_state m = dtls_new /\ media_certificate m = cert) (tc_media tc);
  to_certificate : tc_certificate tc = cert;
  to_agent : ag_ice_state (tc_agent tc) = ice_new;
  to_state : tc_pc_state tc = pc_new;
}.

Lemma offering_ready p cert tc : tc_offering p cert tc -> tc_ready tc.
Proof.
  intros [Hw Hs Hc Hm _ Ha Hp].
  assert (Hi : all_in [ice_new] (channel_states tc)).
  { intros s Hin. apply list_elem_of_In, in_map_iff in Hin as (c & <- & Hin).
    rewrite Forall_forall in Hc. destruct (Hc c) as [-> _]; [by apply list_elem_of_In|by left]. }
  assert (Hd : forall s, s ∈ dtls_states tc -> s = dtls_new).
  { intros s Hin. apply list_elem_of_In, in_map_iff in Hin as ([k m] & <- & Hin).
    apply list_elem_of_In, elem_of_map_to_list in Hin. by apply (Hm k m Hin). }
  split; [done| | | |].
  - destruct (ag_channels (tc_agent tc)); [by right|left; rewrite Hs; cbn; lia].
  - intros Hin. apply Hi, list_elem_of_singleton in Hin. done.
  - rewrite Ha. apply agent_state_means_unique. intros s Hin. apply Hi in Hin. set_solver.
  - rewrite Hp. apply connection_means_unique; [by apply dtls_states_length|].
    cbn. split_and!.
    + intros [Hin|Hin]; [by apply Hi, list_elem_of_singleton in Hin|by apply Hd in Hin].
    + intros Hin. by apply Hi, list_elem_of_singleton in Hin.
    + unfold ice_idle. split_and!; intros Hin; by apply Hi, list_elem_of_singleton in Hin.
    + split; intros Hin; by apply Hd in Hin.
Qed.

Lemma no_channel mid tc :
  mid ∉ channel_names tc -> Forall (fun c => is_channel mid RTP c = false) (ag_channels (tc_agent tc)).
Proof.
  intros Hn. apply Forall_forall. intros c Hc. unfold is_channel. rewrite bool_decide_false; [done|].
  intros ->. apply Hn. unfold channel_names. by apply list_elem_of_In, in_map, list_elem_of_In.
Qed.

(** The channel of a section before it gathers. *)
Definition offered_channel (p : IceParameters) (mid : bytes) : C := chan_set_ice_params p (chan_new mid RTP).

(** A section with a transport of its own and a new name. *)
Lemma local_content_offers p cert d mid td tc :
  tc_offering p cert tc -> own_transport d mid = Done true -> get_transport_info mid d = Some td ->
  mkIceParameters (td_ice_ufrag td) (td_ice_pwd td) = p -> mid ∉ channel_names tc ->
  exists tc', local_content d mid tc = Done tc' /\ tc_offering p cert tc' /\
    channel_names tc' = channel_names tc ++ [mid] /\ tc_out tc' = tc_out tc /\
    ag_channels (tc_agent tc') = ag_channels (tc_agent tc) ++ [offered_channel p mid].
Proof.
  intros [[Wn Wc Wm] Hs Hc Hm Hcert Ha Hp] Eo Et Ep Hn. pose proof (no_channel mid tc Hn) as Hno.
  set (c := chan_set_ice_params p (chan_new mid RTP)).
  assert (Ec : chan_transport_name c = mid) by (unfold c; by rewrite chan_set_name, chan_new_name).
  assert (Ecc : chan_component c = RTP) by (unfold c; by rewrite chan_set_component, chan_new_component).
  destruct (media_new_certificate (chan_writable c) (tc_certificate tc)) as (m & Em & Emc & Ems).
  assert (His : is_channel mid RTP c = true).
  { unfold is_channel. by rewrite Ec, Ecc, bool_decide_true. }
  assert (His' : is_channel mid RTP (chan_new mid RTP : C) = true).
  { unfold is_channel. by rewrite chan_new_name, chan_new_component, bool_decide_true. }
  assert (El : local_content d mid tc = Done (mkTc (mkAgent (ag_channels (tc_agent tc) ++ [c])
    (ag_ice_state (tc_agent tc))) (<[mid := m]> (tc_media tc)) (tc_certificate tc) (tc_pc_state tc)
    (S (tc_slots tc)) (tc_out tc))).
  { unfold local_content. rewrite Eo. cbn [mbind outcome_bind negb]. rewrite Et, Ep.
    unfold create_channel, set_ice_param, change_channel, get_channel. rewrite (find_none_all _ _ Hno).
    cbn [ag_channels]. rewrite (update_first_app_new _ _ _ _ Hno His').
    cbn [ag_channels ag_ice_state]. fold c. rewrite (find_app_new _ _ _ Hno His). cbn. by rewrite Em. }
  eexists. split; [exact El|]. unfold channel_names in *. cbn. rewrite map_app. cbn. rewrite Ec.
  split; [|by split]. split; cbn; try done.
  - split; unfold channel_names; cbn.
    + rewrite map_app. cbn. rewrite Ec. apply NoDup_app. split; [done|split; [|by apply NoDup_singleton]].
      intros x Hx ->%list_elem_of_singleton. done.
    + intros x [Hx|[<-|[]]]%in_app_or; [by apply Wc|done].
    + intros k. rewrite map_app, elem_of_app, <- Wm. cbn. rewrite Ec, list_elem_of_singleton.
      destruct (decide (k = mid)) as [->|Hk].
      * rewrite lookup_insert_eq. split; [by right|by eexists].
      * rewrite lookup_insert_ne by done. tauto.
  - rewrite length_app, Hs. cbn. lia.
  - apply Forall_app. split; [done|]. apply Forall_singleton. unfold c.
    by rewrite chan_set_state, chan_new_state, chan_set_params.
  - apply map_Forall_insert_2; [by rewrite Emc|done].
Qed.

Lemma local_contents_offers p cert d own mids tc :
  tc_offering p cert tc -> NoDup mids -> (forall mid, mid ∈ mids -> mid ∉ channel_names tc) ->
  (forall mid, mid ∈ mids -> exists td, get_transport_info mid d = Some td /\
    mkIceParameters (td_ice_ufrag td) (td_ice_pwd td) = p /\ own_transport d mid = Done (own mid)) ->
  exists tc', local_contents d mids tc = Done tc' /\ tc_offering p cert tc' /\
    channel_names tc' = channel_names tc ++ List.filter own mids /\ tc_out tc' = tc_out tc /\
    ag_channels (tc_agent tc') = ag_channels (tc_agent tc) ++ map (offered_channel p) (List.filter own mids).
Proof.
  intros Ho Hnd. revert tc Ho. induction Hnd as [|mid mids Hnew Hnd IH]; intros tc Ho Hn Hd.
  { exists tc. cbn. by rewrite !app_nil_r. }
  destruct (Hd mid) as (td & Et & Ep & Eown); [by left|]. cbn [local_contents List.filter].
  destruct (own mid) eqn:Em.
  - destruct (local_content_offers p cert d mid td tc Ho Eown Et Ep) as (tc1 & E1 & O1 & N1 & Out1 & C1).
    { apply Hn. by left. }
    destruct (IH tc1 O1) as (tc' & E' & O' & N' & Out' & C').
    { intros k Hk. rewrite N1, elem_of_app, list_elem_of_singleton.
      intros [Hin| ->]; [|done]. apply (Hn k); [by right|done]. }
    { intros k Hk. apply Hd. by right. }
    exists tc'. rewrite E1. cbn [mbind outcome_bind]. rewrite E', N', N1, <- app_assoc, Out', C', C1, <- app_assoc. done.
  - unfold local_content. rewrite Eown. cbn [mbind outcome_bind negb].
    apply IH; [done| |]; intros k Hk; [apply Hn|apply Hd]; by right.
Qed.

(** Gathering changes neither the names nor the states. *)
Lemma gather_channels_same (cs : list C) :
  exists cs' evs, gather_channels cs = Done (cs', evs) /\
    Forall2 (fun c c' => chan_transport_name c' = chan_transport_name c /\
      chan_component c' = chan_component c /\ chan_ice_params c' = chan_ice_params c /\
      chan_state c' = chan_state c) cs cs'.
Proof.
  induction cs as [|c cs (cs' & evs & E & Hall)]; cbn [gather_channels]; [by repeat econstructor|].
  destruct (chan_gather_same c) as (o & c' & Ec & Hc). rewrite Ec. cbn [mbind outcome_bind].
  rewrite E. cbn [mbind outcome_bind]. do 2 eexists. split; [done|by constructor].
Qed.

Lemma set_local_description_offers p cert d own tc :
  tc_offering p cert tc -> ag_channels (tc_agent tc) = [] -> NoDup (map mc_mid (sd_contents d)) ->
  (forall mid, mid ∈ map mc_mid (sd_contents d) -> exists td, get_transport_info mid d = Some td /\
    mkIceParameters (td_ice_ufrag td) (td_ice_pwd td) = p /\ own_transport d mid = Done (own mid)) ->
  exists tc', set_local_description d tc = Done tc' /\ tc_offering p cert tc' /\
    channel_names tc' = List.filter own (map mc_mid (sd_contents d)) /\
    exists cs evs, gather_channels (map (offered_channel p) (List.filter own (map mc_mid (sd_contents d)))) = Done (cs, evs) /\
      tc_out tc' = tc_out tc ++ evs.
Proof.
  intros Ho Hnil Hnd Hd.
  destruct (local_contents_offers p cert d own _ tc Ho Hnd) as (tc1 & E1 & O1 & N1 & Out1 & C1); [|done|].
  { intros mid _. unfold channel_names. rewrite Hnil. apply not_elem_of_nil. }
  destruct (gather_channels_same (ag_channels (tc_agent tc1))) as (cs & evs & Eg & Hall).
  unfold set_local_description. rewrite E1. cbn [mbind outcome_bind]. rewrite Eg. cbn [mbind outcome_bind].
  assert (Hnames : map chan_transport_name cs = channel_names tc1).
  { clear -Hall. unfold channel_names. induction Hall as [|c c' l l' [E _] _ IH]; cbn; congruence. }
  assert (Hlen : length cs = length (ag_channels (tc_agent tc1))) by (by apply Forall2_length in Hall).
  eexists. split; [reflexivity|]. unfold channel_names at 1. cbn [tc_agent ag_channels].
  split; [|split; [rewrite Hnames, N1; unfold channel_names; by rewrite Hnil|]].
  2: { exists cs, evs. cbn. rewrite Out1. split; [|done]. rewrite <- Eg, C1. by rewrite Hnil. }
  destruct O1 as [[Wn Wc Wm] Hs Hc Hm Hcert Ha Hp]. split; cbn; try done; [|congruence|].
  - split; unfold channel_names in *; cbn; try by rewrite Hnames.
    intros x Hx. clear -Hall Hx Wc. induction Hall as [|c c' l l' (_ & E & _) _ IH]; [done|].
    destruct Hx as [<-|Hx]; [rewrite E; apply Wc; by left|]. apply IH; [|done]. intros y Hy. apply Wc. by right.
  - clear -Hall Hc. induction Hall as [|c c' l l' (_ & _ & E1 & E2) _ IH]; [done|].
    apply Forall_cons in Hc as [Hc Hcs]. constructor; [by rewrite E1, E2|by apply IH].
Qed.

Lemma new_tc_offering p cert : tc_offering p cert (tc_set_local_certificate cert (new_tc : TransportController C M)).
Proof.
  split; try done.
  split; [constructor|done|]. intros k. cbn. rewrite lookup_empty. unfold channel_names. cbn.
  split; [intros [? [=]]|intros Hin; by apply not_elem_of_nil in Hin].
Qed.

(** Candidates are put into the sections, which keep their names. *)
Lemma on_tc_events_mids evs d :
  map mc_mid (sd_contents (fold_left on_tc_event evs d)) = map mc_mid (sd_contents d).
Proof.
  revert d. induction evs as [|e evs IH]; intros d; [done|]. cbn [fold_left]. rewrite IH.
  destruct e as [s|mid comp cs]; [done|]. cbn. induction (sd_contents d) as [|c l IHl]; [done|].
  cbn. case_bool_decide; cbn; [done|by rewrite IHl].
Qed.

Lemma offered_mids_nodup o : NoDup (offered_mids o).
Proof.
  unfold offered_mids. destruct (recv_audio o || send_audio o), (recv_video o || send_video o);
    apply (bool_decide_unpack _); by vm_compute.
Qed.

Lemma transport_mids_filter o :
  List.filter (fun mid => bool_decide (mid ∈ transport_mids o)) (offered_mids o) = transport_mids o.
Proof.
  unfold transport_mids, offered_mids.
  by destruct (recv_audio o || send_audio o), (recv_video o || send_video o), (use_rtp_mux o).
Qed.

Lemma create_offer_result inet_ntop cert_fingerprint p (o : RTCOfferAnswerOptions) cert audio video :
  (dtls_on o = true -> is_Some cert) -> (forall c, cert = Some c -> is_Some (cert_fingerprint c)) ->
  exists d (tc : TransportController C M),
    create_offer inet_ntop cert_fingerprint p o (pc_init cert (mkPc None None None new_tc audio video)) =
      Done (desc_to_string inet_ntop d, mkPc (Some d) None cert tc audio video) /\
    map mc_mid (sd_contents d) = offered_mids o /\
    tc_offering p cert tc /\ channel_names tc = transport_mids o /\
    exists cs evs, gather_channels (map (offered_channel p) (transport_mids o)) = Done (cs, evs) /\
      d = fold_left on_tc_event evs (offer_desc cert_fingerprint p o (pc_init cert (mkPc None None None (new_tc : TransportController C M) audio video))).
Proof.
  intros Hon Hfp. set (pc := pc_init cert _).
  destruct (offer_desc_sections cert_fingerprint p o pc Hfp) as [Em Ht].
  destruct (set_local_description_offers p cert (offer_desc cert_fingerprint p o pc)
    (fun mid => bool_decide (mid ∈ transport_mids o)) (pc_transport_controller pc)) as (tc & E & O & N & cs & evs & Eg & Eout).
  - apply new_tc_offering.
  - done.
  - rewrite Em. apply offered_mids_nodup.
  - rewrite Em. exact Ht.
  - exists (fold_left on_tc_event (drop 0 (tc_out tc)) (offer_desc cert_fingerprint p o pc)), tc.
    split; [|split; [by rewrite on_tc_events_mids, Em|split; [done|]]].
    + unfold create_offer. destruct (dtls_on o).
      * rewrite bool_decide_true by (by apply Hon). cbn [negb andb].
        rewrite E. reflexivity.
      * cbn [andb]. rewrite E. reflexivity.
    + split; [by rewrite N, Em, transport_mids_filter|]. exists cs, evs. rewrite Em, transport_mids_filter in Eg. split; [done|].
      by rewrite Eout.
Qed.
End offer_theory.

(** C8: an offer sets up the transports it describes.  On a fresh connection,
    [create_offer] never fails when the certificate that DTLS asks for is
    there and can be fingerprinted: the text is the printed local description,
    whose sections are the requested ones, audio first; there is one ICE
    channel and one DTLS-SRTP transport for each of them, and only for the
    first when they are bundled; every channel is new and carries the offer's
    ICE credentials, every transport is new and holds the certificate; and the
    derived states are current. *)
Theorem create_offer_transports {C M : Type} `{IceChannelI C, !IceChannelLaws C, MediaI M, !MediaLaws M}
    inet_ntop cert_fingerprint p (o : RTCOfferAnswerOptions) cert audio video :
  (dtls_on o = true -> is_Some cert) -> (forall c, cert = Some c -> is_Some (cert_fingerprint c)) ->
  exists d (tc : TransportController C M),
    create_offer inet_ntop cert_fingerprint p o (pc_init cert (mkPc None None None new_tc audio video)) =
      Done (desc_to_string inet_ntop d, mkPc (Some d) None cert tc audio video) /\
    map mc_mid (sd_contents d) =
      (if recv_audio o || send_audio o then [str "audio"] else []) ++
      (if recv_video o || send_video o then [str "video"] else []) /\
    channel_names tc =
      (if use_rtp_mux o then take 1 (map mc_mid (sd_contents d)) else map mc_mid (sd_contents d)) /\
    Forall (fun c => chan_state c = ice_new /\ chan_ice_params c = p) (ag_channels (tc_agent tc)) /\
    (forall mid, is_Some (tc_media tc !! mid) <-> mid ∈ channel_names tc) /\
    map_Forall (fun _ m => media_dtls_state m = dtls_new /\ media_certificate m = cert) (tc_media tc) /\
    tc_pc_state tc = pc_new /\ tc_ready tc.
Proof.
  intros Hon Hfp. destruct (create_offer_result inet_ntop cert_fingerprint p o cert audio video Hon Hfp)
    as (d & tc & E & Em & O & N & _).
  exists d, tc. split; [exact E|]. split; [by rewrite Em|]. rewrite Em. split; [exact N|].
  pose proof (offering_ready p cert tc O) as R. destruct O. split_and!; try done. apply to_wired0.
Qed.

(** ** A remote description *)

Section remote.
Context {C M : Type} `{IceChannelI C} `{MediaI M}.
Implicit Types tc : TransportController C M.

(** The transports are neither made nor dropped. *)
Definition same_transports tc tc' : Prop :=
  forall mid, is_Some (tc_media tc' !! mid) <-> is_Some (tc_media tc !! mid).

#[export] Instance same_transports_preorder : PreOrder same_transports.
Proof.
  split; [by intros tc mid|]. intros tc1 tc2 tc3 H12 H23 mid. by rewrite (H23 mid), (H12 mid).
Qed.

Lemma fold_transports {A} (f : TransportController C M -> A -> TransportController C M) l tc :
  (forall x tc, same_transports tc (f tc x)) -> same_transports tc (fold_left f l tc).
Proof.
  intros Hf. revert tc. induction l as [|x l IH]; intros tc; [done|]. cbn [fold_left].
  etransitivity; [apply (Hf x)|apply IH].
Qed.

Lemma update_state_transports tc : same_transports tc (tc_update_state tc).
Proof. unfold tc_update_state. cbv zeta. by case_bool_decide. Qed.

Lemma on_agent_transports r tc : same_transports tc (tc_on_agent r tc).
Proof.
  unfold tc_on_agent. destruct r as [a sigs]. etransitivity; [|apply fold_transports]; [done|].
  intros _ tc1. induction (tc_slots tc1) as [|n IH]; cbn [Nat.iter nat_rect]; [done|].
  etransitivity; [apply IH|apply update_state_transports].
Qed.

Lemma set_media_transports mid m tc :
  is_Some (tc_media tc !! mid) -> same_transports tc (tc_set_media (<[mid := m]> (tc_media tc)) tc).
Proof.
  intros Hm k. cbn. destruct (decide (k = mid)) as [->|Hk]; [|by rewrite lookup_insert_ne].
  rewrite lookup_insert_eq. split; [done|by eexists].
Qed.

Lemma media_signals_transports mid sigs tc :
  is_Some (tc_media tc !! mid) ->
  same_transports tc (fold_left (fun tc m => tc_on_media_signal mid m tc) sigs tc).
Proof.
  revert tc. induction sigs as [|m sigs IH]; intros tc Hm; [done|]. cbn [fold_left].
  assert (Hs : same_transports tc (tc_on_media_signal mid m tc)).
  { unfold tc_on_media_signal. etransitivity; [by apply (set_media_transports mid m)|].
    apply update_state_transports. }
  etransitivity; [exact Hs|]. apply IH. by apply Hs.
Qed.

Lemma remote_ice_transports mid p tc tc' :
  tc_set_remote_ice_param mid p tc = Done tc' -> same_transports tc tc'.
Proof.
  unfold tc_set_remote_ice_param. destruct (get_channel mid RTP (tc_agent tc)) as [c|]; [|by intros [= <-]].
  destruct (chan_set_remote_ice_params p c) as [[sigs c']| |]; cbn [mbind outcome_bind]; [|done..].
  intros [= <-]. transitivity (fold_left (fun tc c => tc_on_channel_signal mid c tc) sigs tc); [|done].
  apply fold_transports. intros x tc1. apply on_agent_transports.
Qed.

(** The section is dereferenced. *)
Lemma remote_content_done d mid tc tc' :
  remote_content d mid tc = Done tc' ->
  same_transports tc tc' /\
  (own_transport d mid = Done true -> forall td, get_transport_info mid d = Some td ->
   is_Some (tc_media tc !! mid) -> is_Some (td_identity_fingerprint td)).
Proof.
  unfold remote_content. destruct (own_transport d mid) as [own| |]; cbn [mbind outcome_bind]; [|done..].
  destruct own; cbn [negb]; [|by intros [= <-]].
  destruct (get_transport_info mid d) as [td|]; [|by intros [= <-]].
  destruct (tc_set_remote_ice_param _ _ tc) as [tc1| |] eqn:E1; cbn [mbind outcome_bind]; [|done..].
  apply remote_ice_transports in E1.
  destruct (tc_media tc1 !! mid) as [m|] eqn:Em.
  - assert (Hm : is_Some (tc_media tc1 !! mid)) by (by eexists).
    destruct (td_identity_fingerprint td) as [fp|] eqn:Ef; cbn [deref mbind outcome_bind]; [|done].
    destruct (media_set_remote_fingerprint _ _ m) as [[sigs m']| |]; cbn [mbind outcome_bind]; [|done..].
    intros [= <-]. split; [|intros _ td' [= <-] _; by rewrite Ef].
    etransitivity; [exact E1|]. pose proof (media_signals_transports mid sigs tc1 Hm) as Hs.
    etransitivity; [exact Hs|]. apply set_media_transports. by apply Hs.
  - intros [= <-]. split; [done|]. intros _ td' _ Hm. apply E1 in Hm. rewrite Em in Hm. by destruct Hm.
Qed.

Lemma remote_contents_done d mids tc tc' :
  remote_contents d mids tc = Done tc' ->
  same_transports tc tc' /\
  (forall mid td, mid ∈ mids -> own_transport d mid = Done true -> get_transport_info mid d = Some td ->
   is_Some (tc_media tc !! mid) -> is_Some (td_identity_fingerprint td)).
Proof.
  revert tc. induction mids as [|mid mids IH]; intros tc; cbn [remote_contents].
  { intros [= <-]. split; [done|]. intros mid td Hin. by apply not_elem_of_nil in Hin. }
  destruct (remote_content d mid tc) as [tc1| |] eqn:E1; cbn [mbind outcome_bind]; [|done..].
  apply remote_content_done in E1 as [H1 F1]. intros [H2 F2]%IH. split; [by etransitivity|].
  intros k td [->|Hin]%elem_of_cons Ho Ht Hm; [by apply F1|]. apply (F2 k); [done..|]. by apply H1.
Qed.
End remote.

(** An answer is accepted only with a fingerprint for every transport.
    When [set_remote_sdp] returns 0, the parsed description is the remote
    description, the transports are those of before, and every section that
    has a transport of its own has a fingerprint.  So a text that parses and
    lacks an [a=fingerprint] line there is not rejected: it never gets an
    answer from [set_remote_sdp], which dereferences the null fingerprint. *)
Theorem remote_fingerprint_required {C M : Type} `{IceChannelI C} `{MediaI M}
    (direction : RtpDirection) (sdp : bytes) (pc pc' : PeerConnection C M) :
  set_remote_sdp direction sdp pc = Done (0, pc') ->
  pc_local_desc pc' = pc_local_desc pc /\
  (forall mid, is_Some (tc_media (pc_transport_controller pc') !! mid) <->
               is_Some (tc_media (pc_transport_controller pc) !! mid)) /\
  exists d, parse_remote_sdp direction sdp (pc_remote_desc pc) = Done (0, Some d) /\
    pc_remote_desc pc' = Some d /\
    forall mid td, mid ∈ map mc_mid (sd_contents d) -> own_transport d mid = Done true ->
      get_transport_info mid d = Some td -> is_Some (tc_media (pc_transport_controller pc) !! mid) ->
      is_Some (td_identity_fingerprint td).
Proof.
  unfold set_remote_sdp.
  destruct (parse_remote_sdp direction sdp (pc_remote_desc pc)) as [[r remote]| |];
    cbn [mbind outcome_bind]; [|done..].
  destruct (r =? 0) eqn:Er; [|intros [= -> _]; done]. apply Z.eqb_eq in Er as ->.
  destruct remote as [d|]; cbn [deref mbind outcome_bind]; [|done].
  destruct (set_remote_description d _) as [tc| |] eqn:Ed; cbn [mbind outcome_bind]; [|done..].
  intros [= <-]. unfold set_remote_description in Ed.
  destruct (remote_contents_done _ _ _ _ Ed) as [Hs Hf].
  split; [done|]. split; [exact Hs|]. exists d. split_and!; [done|done|exact Hf].
Qed.

(** ** Examples *)

#[local] Existing Instance example_env.
#[local] Existing Instance toy_srtp.
#[local] Existing Instance toy_dtls.

Definition example_channel : IceChannelI world := world_channel [Some 50000].
Definition example_media : MediaI media := media_transport toy_global.
#[local] Existing Instance example_channel.
#[local] Existing Instance example_media.

Lemma example_channel_laws : IceChannelLaws world.
Proof. exact (world_channel_laws [Some 50000]). Defined.

Lemma example_media_laws : MediaLaws media.
Proof. exact (media_transport_laws toy_global). Defined.

Definition example_options : RTCOfferAnswerOptions := mkOptions false false true true true true true.
Definition example_cert (_ : Z) : option SSLFingerprint := Some (mkFingerprint (str "sha-256") [x01; x02]).
Definition example_credentials : IceParameters :=
  mkIceParameters (str "abcd") (str "0123456789012345678901").

Definition example_pc : PeerConnection world media := pc_init (Some 1) (mkPc None None None new_tc [] []).

Lemma create_offer_transports_witness :
  exists d (tc : TransportController world media),
    create_offer example_ntop example_cert example_credentials example_options example_pc =
      Done (desc_to_string example_ntop d, mkPc (Some d) None (Some 1) tc [] []) /\
    map mc_mid (sd_contents d) = [str "audio"; str "video"] /\ channel_names tc = [str "audio"].
Proof.
  destruct (create_offer_transports (IceChannelLaws0 := example_channel_laws)
    (MediaLaws0 := example_media_laws) example_ntop
    example_cert example_credentials example_options (Some 1) [] []) as (d & tc & E & Em & En & _).
  - intros _. by exists 1.
  - intros c _. by eexists.
  - exists d, tc. split; [exact E|]. cbn in Em, En. rewrite Em in En. split; [exact Em|exact En].
Defined.

(** The connection after the offer, and the answer of a peer that mirrors it. *)
Definition example_offer : bytes * PeerConnection world media :=
  match create_offer example_ntop example_cert example_credentials example_options example_pc with
  | Done r => r
  | _ => ([], example_pc)
  end.

Definition example_answered : PeerConnection world media :=
  match set_remote_sdp k_inactive (fst example_offer) (snd example_offer) with
  | Done (_, pc) => pc
  | _ => example_pc
  end.

Lemma remote_fingerprint_required_witness :
  exists d, pc_remote_desc example_answered = Some d /\
    exists td, get_transport_info (str "audio") d = Some td /\ is_Some (td_identity_fingerprint td).
Proof.
  destruct (remote_fingerprint_required k_inactive (fst example_offer) (snd example_offer) example_answered)
    as (_ & _ & d & Ed & Er & Hf).
  - by vm_compute.
  - exists d. split; [exact Er|].
    assert (Ed' : exists td, get_transport_info (str "audio") d = Some td /\
      own_transport d (str "audio") = Done true /\ str "audio" ∈ map mc_mid (sd_contents d)).
    { revert Ed. vm_compute. intros [= <-]. eexists. split; [reflexivity|]. split; [reflexivity|]. by left. }
    destruct Ed' as (td & Et & Eo & Hin). exists td. split; [exact Et|].
    apply (Hf (str "audio")); [exact Hin|exact Eo|exact Et|]. vm_compute. by eexists.
Defined.

(** The same text without its fingerprints. *)
Definition without_fingerprint (sdp : bytes) : bytes :=
  flat_map (fun line => line ++ [x0a])
    (List.filter (fun line => negb (contains (str "a=fingerprint") line)) (tokenize sdp x0a)).

Example answer_without_fingerprint :
  set_remote_sdp k_inactive (without_fingerprint (fst example_offer)) (snd example_offer) = Undef null_deref.
Proof. by vm_compute. Qed.

(** The channel begins its checks, the handshake starts, the channel connects
    and the handshake ends. *)
Definition example_signals : list (tc_signal (C := world) (M := media)) :=
  let w s := world_in_state (new_world (str "audio") RTP) s in
  let m s := upd_d_state (fun _ => s) (new_media false toy_global) in
  [SigChannel (w ice_checking); SigMedia (str "audio") (m dtls_connecting); SigChannel (w ice_connected);
   SigMedia (str "audio") (m dtls_connected)].

Definition example_tc : TransportController world media := pc_transport_controller (snd example_offer).

Lemma example_tc_ready : tc_ready example_tc.
Proof.
  destruct (create_offer_result (IceChannelLaws0 := example_channel_laws)
    (MediaLaws0 := example_media_laws) example_ntop
    example_cert example_credentials example_options (Some 1) [] []) as (d & tc & E & _ & O & _).
  - intros _. by exists 1.
  - intros c _. by eexists.
  - apply offering_ready in O. unfold example_tc, example_offer, example_pc. by rewrite E.
Qed.

Lemma connection_state_current_witness :
  Forall (signal_ok example_tc) example_signals /\
  (forall s, connection_means (dtls_states (tc_run example_signals example_tc))
     (channel_states (tc_run example_signals example_tc)) s <->
     s = tc_pc_state (tc_run example_signals example_tc)) /\
  tc_pc_state (tc_run example_signals example_tc) = pc_connected.
Proof.
  assert (Hs : Forall (signal_ok example_tc) example_signals).
  { repeat constructor; vm_compute; try done; by left. }
  split; [exact Hs|]. split; [|by vm_compute].
  exact (proj1 (connection_state_current example_signals example_tc example_tc_ready Hs)).
Defined.
