(* ===== verification/Negotiation.v ===== *)
(** * Offers, from random credentials to the text a peer reads

    [create_offer] draws the credentials itself (Helpers), gives them to the
    channels and prints them; what a peer reads from the text is what the
    channels have. *)

From S2P Require Import Prelude Crc32 StringEncode IpAddress IceTypes IcePort IceConnection IceChannel IceChannelTheory State Helpers Srtp Dtls DtlsBehaviour.
From S2P Require Import Sdp SdpParse SdpTheory IceAgent TransportController TransportTheory OfferTheory.
Local Open Scope Z_scope.

(** ** Creating an offer *)

Section offer.
Context {C M S : Type} `{IceChannelI C} `{MediaI M}.
Variable inet_ntop : IPAddress -> bytes.
Variable cert_fingerprint : Z -> option SSLFingerprint.
Variable RAND_bytes : nat -> S -> option (bytes * S).

(** [PeerConnection::create_offer] with its credentials. *)
Definition random_offer (o : RTCOfferAnswerOptions) (pc : PeerConnection C M) : R S (bytes * PeerConnection C M) :=
  if dtls_on o && negb (bool_decide (is_Some (pc_certificate pc))) then mret ([], pc)
  else
    ice_param ← create_random_ice_credentials RAND_bytes;
    step (fun g => r ← create_offer inet_ntop cert_fingerprint ice_param o pc; Done (r, g)).
End offer.

(** ** What gathering promises *)

(** The candidates of a new channel can be printed and read. *)
Class GatherLaws (C : Type) `{IceChannelI C} (inet_ntop : IPAddress -> bytes) : Prop := {
  gather_printable : forall mid p cs c', chan_gathering_candidate (offered_channel (C := C) p mid) = Done (Some cs, c') ->
    Forall (candidate_ok inet_ntop) cs;
}.

Section world.
Context `{IceEnv} (networks : list (option Z)) (inet_ntop : IPAddress -> bytes).
(** The text of the IPv4 address in the source. *)
Hypothesis ntop_v4 : inet_ntop (ip_v4 0x657E9B43) = str "101.126.155.67".
(** Port numbers are not negative. *)
Hypothesis ports_ok : Forall (from_option (fun port => 0 <= port) True) networks.

Lemma host_candidate_ok p port : 0 <= port -> candidate_ok inet_ntop (host_candidate RTP p port).
Proof.
  intros Hp. split; cbn [foundation component protocol cand_priority address cand_port cand_type host_candidate].
  - apply to_string_word, ComputeCrc32_range.
  - done.
  - done.
  - by vm_compute.
  - unfold HostAsURIString, host_address. cbn [hostname_ literal_ ip_ negb andb]. rewrite ntop_v4. by vm_compute.
  - done.
  - done.
Qed.

(** The channel while it gathers. *)
Definition gathering_ok (w : world) : Prop :=
  ch_component (w_ch w) = RTP /\ Forall (candidate_ok inet_ntop) (ch_local_candidates (w_ch w)) /\ w_out w = [].

Lemma gather_network_ok bound w :
  from_option (fun port => 0 <= port) True bound -> gathering_ok w ->
  exists w', gather_network bound w = Done ((), w') /\ gathering_ok w'.
Proof.
  intros Hb (Hc & Hl & Ho). unfold gather_network, channel, gets, mbind, M_bind. cbv zeta.
  destruct bound as [port|]; cbn [create_ice_candidate new_port p_component p_ice_params]; [|by eexists].
  eexists. split; [reflexivity|]. rewrite Hc. split_and!; [done| |done]. cbn. apply Forall_app. split; [done|].
  apply Forall_singleton. by apply host_candidate_ok.
Qed.

Lemma gather_networks_ok bs w :
  Forall (from_option (fun port => 0 <= port) True) bs -> gathering_ok w ->
  exists w', mapM_ gather_network bs w = Done ((), w') /\ gathering_ok w'.
Proof.
  intros Hb. revert w. induction Hb as [|b bs Hb _ IH]; intros w Hw; [by eexists|].
  destruct (gather_network_ok b w Hb Hw) as (w1 & E1 & H1). destruct (IH w1 H1) as (w2 & E2 & H2).
  exists w2. cbn [mapM_]. unfold mbind, M_bind. by rewrite E1, E2.
Qed.

Lemma world_gather_laws : GatherLaws (H := world_channel networks) world inet_ntop.
Proof.
  split. intros mid p cs c' E. set (w := offered_channel p mid) in *.
  assert (Hw : gathering_ok w) by (split_and!; [done|constructor|done]).
  destruct (gather_networks_ok networks w ports_ok Hw) as (w1 & E1 & H1 & H2 & H3).
  revert E. cbn [chan_gathering_candidate world_channel]. unfold gathering_candidate, channel, gets, mbind, M_bind, outcome_bind.
  destruct (_ || _); [done|]. case_bool_decide; [done|]. rewrite E1. unfold emit, modify, new_events. cbn.
  rewrite H3. cbn. by intros [= <- _].
Qed.
End world.

(** ** The description of an offer is printable *)

(** Streams that can be printed and told apart. *)
Definition source_ok (streams : list StreamParams) : Prop :=
  Forall stream_ok streams /\ NoDup (stream_ssrcs streams) /\ NoDup (map sp_id streams).

Section desc.
Context (inet_ntop : IPAddress -> bytes).

Lemma update_first_Forall {A} (P : A -> Prop) p f l : Forall P l -> (forall x, P x -> P (f x)) -> Forall P (update_first p f l).
Proof. intros Hl Hf. induction Hl as [|x l Hx Hl IH]; [done|]. cbn. destruct (p x); constructor; auto. Qed.

Lemma update_first_map {A B} (g : A -> B) p f l : (forall x, g (f x) = g x) -> map g (update_first p f l) = map g l.
Proof. intros Hf. induction l as [|x l IH]; [done|]. cbn. destruct (p x); cbn; [by rewrite Hf|by rewrite IH]. Qed.

Lemma set_candidates_ok mid cs d : desc_ok inet_ntop d -> Forall (candidate_ok inet_ntop) cs -> desc_ok inet_ntop (set_candidates mid cs d).
Proof.
  intros [Hc Ht Hg] Hcs. split; [|unfold set_candidates; cbn [sd_contents]; by rewrite update_first_map|done]. apply update_first_Forall.
  - eapply Forall_impl; [exact Hc|]. intros c [H1 H2 H3 H4 H5]. by split.
  - intros c [H1 H2 H3 H4 H5]. by split.
Qed.

(** What the printed offer has of a description, the candidates apart. *)
Definition same_sections (d d' : SessionDescription) : Prop :=
  sd_transport_infos d' = sd_transport_infos d /\ map mc_type (sd_contents d') = map mc_type (sd_contents d) /\
  forall c, c ∈ sd_contents d -> exists c', c' ∈ sd_contents d' /\ mc_type c' = mc_type c /\ mc_send_streams c' = mc_send_streams c.

Lemma update_first_in {A} (p : A -> bool) (f : A -> A) l x : x ∈ l -> exists y, y ∈ update_first p f l /\ (y = x \/ y = f x).
Proof.
  induction l as [|a l IH]; [by intros ?%not_elem_of_nil|]. intros [->|Hx]%elem_of_cons; cbn; destruct (p a) eqn:E.
  - exists (f a). split; [by left|by right].
  - exists a. split; [by left|by left].
  - exists x. split; [by right|by left].
  - destruct (IH Hx) as (y & Hy & ?). exists y. split; [by right|done].
Qed.

Definition event_ok (e : tc_event) : Prop :=
  match e with TcCandidates _ _ cs => Forall (candidate_ok inet_ntop) cs | TcConnectionState _ => True end.

Lemma on_tc_events_ok evs : forall d, desc_ok inet_ntop d -> Forall event_ok evs ->
  desc_ok inet_ntop (fold_left on_tc_event evs d) /\ same_sections d (fold_left on_tc_event evs d).
Proof.
  induction evs as [|e evs IH]; intros d Hd He; cbn [fold_left].
  { split; [done|]. split_and!; [done|done|]. intros c Hc. by exists c. }
  apply Forall_cons in He as [He Hes]. destruct e as [s|mid comp cs]; [by apply IH|].
  destruct (IH (on_tc_event d (TcCandidates mid comp cs))) as (H1 & H2 & H3 & H4); [by apply set_candidates_ok|done|].
  split; [done|]. split_and!; [done|rewrite H3; by apply update_first_map|]. intros c Hc.
  destruct (update_first_in (fun c => bool_decide (mc_mid c = mid))
    (fun c => mkContent (mc_type c) (mc_direction c) (mc_rtcp_mux c) cs (mc_send_streams c)) _ c Hc) as (y & Hy & Ey).
  destruct (H4 y Hy) as (c' & Hc' & E1 & E2). exists c'. split; [done|]. destruct Ey as [-> | ->]; done.
Qed.

Section offered.
Context {C M : Type} `{IceChannelI C} `{MediaI M}.
Variable cert_fingerprint : Z -> option SSLFingerprint.
Variables (p : IceParameters) (o : RTCOfferAnswerOptions) (cert : Z) (fp : SSLFingerprint) (pc : PeerConnection C M).
Hypothesis pc_cert : pc_certificate pc = Some cert.
Hypothesis cert_fp : cert_fingerprint cert = Some fp.
Hypothesis fp_ok : fingerprint_ok fp.
Hypothesis ufrag_ok : word (ice_ufrag p) = true /\ ice_ufrag p <> [].
Hypothesis pwd_ok : word (ice_pwd p) = true /\ ice_pwd p <> [].
Hypothesis audio_ok : source_ok (pc_audio_source pc).
Hypothesis video_ok : source_ok (pc_video_source pc).
Let d := offer_desc cert_fingerprint p o pc.

(** The transport of every section of the offer. *)
Definition offered_td (t : MediaType) : TransportDescription := mkTd (mid_of t) (ice_ufrag p) (ice_pwd p) (Some fp) ACTPASS.

Definition offered_content (t : MediaType) (send recv : bool) (source : list StreamParams) : MediaContentDescription :=
  mkContent t (get_direction send recv) (use_rtcp_mux o) [] (if send then source else []).

Lemma offer_content_eq t send recv source d0 :
  sd_type d0 = k_offer ->
  offer_content cert_fingerprint p t send recv (use_rtcp_mux o) (pc_certificate pc) source d0 =
    if recv || send then add_transport_td (offered_td t) (add_content (offered_content t send recv source) d0) else d0.
Proof.
  intros Ht. unfold offer_content. rewrite pc_cert. cbn [fmap option_fmap option_map]. rewrite cert_fp.
  unfold add_transport_info. cbn [snd add_content sd_type]. rewrite Ht. by destruct (recv || send).
Qed.

Definition offered_contents : list MediaContentDescription :=
  (if recv_audio o || send_audio o then [offered_content MEDIA_TYPE_AUDIO (send_audio o) (recv_audio o) (pc_audio_source pc)] else []) ++
  (if recv_video o || send_video o then [offered_content MEDIA_TYPE_VIDEO (send_video o) (recv_video o) (pc_video_source pc)] else []).

Lemma offer_desc_eq :
  sd_contents d = offered_contents /\ sd_transport_infos d = map (fun c => offered_td (mc_type c)) offered_contents /\
  forall g, In g (sd_content_groups d) -> forallb word (cg_content_names g) = true.
Proof.
  unfold d, offer_desc, offered_contents. cbv zeta. rewrite (offer_content_eq MEDIA_TYPE_AUDIO) by done.
  rewrite (offer_content_eq MEDIA_TYPE_VIDEO) by (by destruct (recv_audio o || send_audio o)).
  destruct (recv_audio o || send_audio o), (recv_video o || send_video o), (use_rtp_mux o);
    (split; [reflexivity|]); (split; [reflexivity|]); intros g; try (intros []; fail); intros [<-|[]]; reflexivity.
Qed.

Lemma offered_transport c : c ∈ offered_contents -> get_transport_info (mc_mid c) d = Some (offered_td (mc_type c)).
Proof.
  destruct offer_desc_eq as (_ & E & _). unfold get_transport_info. rewrite E. unfold offered_contents.
  destruct (recv_audio o || send_audio o), (recv_video o || send_video o); cbn [app map]; intros Hc;
    repeat (apply elem_of_cons in Hc as [->|Hc]; [reflexivity|]); by apply not_elem_of_nil in Hc.
Qed.

Lemma source_ok_if (b : bool) l : source_ok l -> source_ok (if b then l else []).
Proof. intros Hl. destruct b; [done|]. split; [constructor|]. split; constructor. Qed.

Lemma offer_desc_ok : desc_ok inet_ntop d.
Proof.
  destruct offer_desc_eq as (Ec & Et & Eg). split; [| |done]; rewrite Ec.
  - apply Forall_forall. intros c Hc.
    assert (Hs : mc_candidates c = [] /\ source_ok (mc_send_streams c)).
    { clear -Hc audio_ok video_ok. unfold offered_contents in Hc. apply elem_of_app in Hc as [Hc|Hc];
        [destruct (recv_audio o || send_audio o)|destruct (recv_video o || send_video o)]; try by apply not_elem_of_nil in Hc.
      all: apply list_elem_of_singleton in Hc as ->; split; [done|]; by apply source_ok_if. }
    destruct Hs as (Hcand & H1 & H2 & H3). split; [by rewrite Hcand| |done..].
    exists (offered_td (mc_type c)), fp. split; [by apply offered_transport|]. by split.
  - unfold offered_contents. destruct (recv_audio o || send_audio o), (recv_video o || send_video o);
      apply (bool_decide_unpack _); reflexivity.
Qed.
End offered.
End desc.

Lemma gather_events_ok {C : Type} `{IceChannelI C} inet_ntop `{!GatherLaws C inet_ntop} p mids : forall cs evs,
  gather_channels (map (offered_channel (C := C) p) mids) = Done (cs, evs) -> Forall (event_ok inet_ntop) evs.
Proof.
  induction mids as [|mid mids IH]; intros cs evs; cbn [map gather_channels]; [by intros [= <- <-]|].
  destruct (chan_gathering_candidate (offered_channel p mid)) as [[o c']| |] eqn:E; cbn [mbind outcome_bind]; [|done..].
  destruct (gather_channels _) as [[cs2 evs2]| |]; cbn [mbind outcome_bind]; [|done..]. specialize (IH cs2 evs2 eq_refl).
  intros [= <- <-]. destruct o as [cands|]; [|done]. constructor; [|done]. cbn. by eapply gather_printable.
Qed.

Lemma table_word s : Forall (fun c => c ∈ kBase64) s -> word s = true.
Proof.
  intros Hs. unfold word. apply forallb_forall. intros c Hc. rewrite Forall_forall in Hs. specialize (Hs c ltac:(by apply list_elem_of_In)).
  revert Hs. apply (proj1 (Forall_forall (fun c => word_char c = true) kBase64)).
  apply (bool_decide_unpack _). by vm_compute.
Qed.

(** C6: what a peer reads from an offer is what the server has set up.  On a
    fresh connection with a certificate whose fingerprint can be printed, and
    while the random generator delivers, [create_offer] returns a text that
    the parser of [set_remote_sdp] accepts, with the requested sections, audio
    first; every section read has the fingerprint of the certificate and
    credentials of four and twenty-four characters, and these are the
    credentials with which every ICE channel of the connection checks the
    requests of the peer; and the audio streams that are sent come back, their
    SSRC groups apart. *)
Theorem offer_read_back {C M S : Type} `{IceChannelI C, !IceChannelLaws C, MediaI M, !MediaLaws M}
    inet_ntop `{!GatherLaws C inet_ntop} cert_fingerprint (RAND_bytes : nat -> S -> option (bytes * S)) rng
    (o : RTCOfferAnswerOptions) cert fp audio video direction old :
  (forall n s, is_Some (RAND_bytes n s)) -> (forall n s buf s', RAND_bytes n s = Some (buf, s') -> length buf = n) ->
  cert_fingerprint cert = Some fp -> fingerprint_ok fp -> source_ok audio -> source_ok video ->
  exists text (tc : TransportController C M) d rng' d',
    random_offer inet_ntop cert_fingerprint RAND_bytes o (pc_init (Some cert) (mkPc None None None new_tc audio video)) rng =
      Done ((text, mkPc (Some d) None (Some cert) tc audio video), rng') /\
    parse_remote_sdp direction text old = Done (0, Some d') /\
    map mc_mid (sd_contents d') =
      (if recv_audio o || send_audio o then [str "audio"] else []) ++ (if recv_video o || send_video o then [str "video"] else []) /\
    (forall mid, mid ∈ map mc_mid (sd_contents d') -> exists td, get_transport_info mid d' = Some td /\
      td_identity_fingerprint td = Some fp /\ length (td_ice_ufrag td) = 4%nat /\ length (td_ice_pwd td) = 24%nat /\
      Forall (fun c => chan_ice_params c = mkIceParameters (td_ice_ufrag td) (td_ice_pwd td)) (ag_channels (tc_agent tc))) /\
    (send_audio o = true -> exists c, get_content (str "audio") d' = Some c /\ mc_send_streams c = map without_groups audio).
Proof.
  intros Htot Hlen Hfp Hfok Ha Hv. destruct (random_credentials_total RAND_bytes Hlen rng Htot) as (p & rng' & Ep & Lu & Lp & Wu & Wp).
  assert (Hu : word (ice_ufrag p) = true /\ ice_ufrag p <> []) by (split; [by apply table_word|by intros E; rewrite E in Lu]).
  assert (Hp : word (ice_pwd p) = true /\ ice_pwd p <> []) by (split; [by apply table_word|by intros E; rewrite E in Lp]).
  set (pc := pc_init (Some cert) (mkPc None None None new_tc audio video)).
  destruct (create_offer_result inet_ntop cert_fingerprint p o (Some cert) audio video) as (d & tc & E & Em & O & _ & cs & evs & Eg & Ed).
  { intros _. by exists cert. }
  { intros c [= <-]. by exists fp. }
  pose proof (offer_desc_ok inet_ntop cert_fingerprint p o cert fp pc eq_refl Hfp Hfok Hu Hp Ha Hv) as Hd0.
  destruct (on_tc_events_ok inet_ntop evs _ Hd0 (gather_events_ok inet_ntop p _ _ _ Eg)) as [Hd (St & Sm & Sc)].
  fold pc in Ed. rewrite <- Ed in Hd, St, Sm, Sc.
  destruct (print_parse inet_ntop d direction old Hd) as (d' & Epar & Et & _ & Hread).
  destruct (offer_desc_eq cert_fingerprint p o cert fp pc eq_refl Hfp) as (Ec & _ & _).
  assert (Emid : map mc_mid (sd_contents d') = map mc_mid (sd_contents d)).
  { unfold mc_mid. rewrite <- !(map_map mc_type mid_of). by rewrite Et. }
  exists (desc_to_string inet_ntop d), tc, d, rng', d'. split_and!.
  - unfold random_offer. unfold pc in *. cbn [pc_certificate pc_init]. rewrite bool_decide_true by (by exists cert).
    rewrite andb_false_r. unfold mbind, St_bind. rewrite Ep. unfold step. by rewrite E.
  - done.
  - by rewrite Emid, Em.
  - intros mid Hmid. rewrite Emid in Hmid. apply list_elem_of_In, in_map_iff in Hmid as (c & <- & Hc).
    destruct (Hread c Hc) as (td & td' & c' & G1 & G2 & U & W & F & _). exists td'. split; [done|].
    assert (Etd : td = offered_td p fp (mc_type c)).
    { assert (Hin : mc_type c ∈ map mc_type (sd_contents (offer_desc cert_fingerprint p o pc))).
      { rewrite <- Sm. by apply list_elem_of_In, in_map. }
      apply list_elem_of_In, in_map_iff in Hin as (c0 & E0 & Hc0%list_elem_of_In). rewrite Ec in Hc0.
      pose proof (offered_transport cert_fingerprint p o cert fp pc eq_refl Hfp c0 Hc0) as Ht.
      unfold get_transport_info, mc_mid in *. rewrite St, <- E0, Ht in G1. congruence. }
    rewrite U, W, F, Etd. cbn [offered_td td_ice_ufrag td_ice_pwd td_identity_fingerprint]. split_and!; [done..|].
    eapply Forall_impl; [apply (to_channels _ _ _ O)|]. intros ch [_ Hch]. by rewrite Hch, ice_params_eta.
  - intros Hs. assert (Hin : offered_content o MEDIA_TYPE_AUDIO (send_audio o) (recv_audio o) audio ∈ sd_contents (offer_desc cert_fingerprint p o pc)).
    { rewrite Ec. unfold offered_contents. rewrite Hs, orb_true_r. by left. }
    destruct (Sc _ Hin) as (c & Hc & E1 & E2). destruct (Hread c ltac:(by apply list_elem_of_In)) as (_ & _ & c' & _ & _ & _ & _ & _ & G & Gs).
    exists c'. unfold mc_mid in G. rewrite E1 in G. split; [exact G|]. rewrite Gs, E1, E2. cbn. by rewrite Hs.
Qed.

(** ** Example *)

#[local] Existing Instance example_env.
#[local] Existing Instance toy_srtp.
#[local] Existing Instance toy_dtls.
#[local] Existing Instance example_channel.
#[local] Existing Instance example_media.

Definition offer_ntop (a : IPAddress) : bytes := str "101.126.155.67".
(** A generator that counts. *)
Definition counting_bytes (n : nat) (s : Z) : option (bytes * Z) :=
  Some (map (fun i => z_byte (s + Z.of_nat i)) (seq 0 n), s + Z.of_nat n).
Definition example_stream : StreamParams := mkStreamParams (str "a0") [1001] [] (str "cname") (str "stream").

Lemma example_gather_laws : GatherLaws world offer_ntop.
Proof. apply (world_gather_laws [Some 50000] offer_ntop); [reflexivity|]. apply Forall_singleton. cbn. lia. Qed.

Lemma example_source_ok : source_ok [example_stream].
Proof.
  split; [|split; apply NoDup_singleton]. apply Forall_singleton. split; try done. cbn. intros ssrc [<-|[]]. lia.
Qed.

Lemma offer_read_back_witness :
  exists text (tc : TransportController world media) d rng' d',
    random_offer offer_ntop example_cert counting_bytes example_options
      (pc_init (Some 1) (mkPc None None None new_tc [example_stream] [])) (SecureRandomGenerator 0) =
      Done ((text, mkPc (Some d) None (Some 1) tc [example_stream] []), rng') /\
    parse_remote_sdp k_inactive text None = Done (0, Some d') /\
    map mc_mid (sd_contents d') = [str "audio"; str "video"] /\
    exists td, get_transport_info (str "audio") d' = Some td /\
      Forall (fun c => chan_ice_params c = mkIceParameters (td_ice_ufrag td) (td_ice_pwd td)) (ag_channels (tc_agent tc)).
Proof.
  assert (Htot : forall n s, is_Some (counting_bytes n s)) by (intros n s; eexists; reflexivity).
  assert (Hlen : forall n s buf s', counting_bytes n s = Some (buf, s') -> length buf = n).
  { intros n s buf s' [= <- _]. by rewrite length_map, length_seq. }
  assert (Hfp : fingerprint_ok (mkFingerprint (str "sha-256") [x01; x02])) by (split; [done|]; split; [done|]; cbn; unfold kMaxSize; lia).
  assert (Hempty : source_ok []) by (split; [constructor|]; split; constructor).
  destruct (offer_read_back (IceChannelLaws0 := example_channel_laws) (MediaLaws0 := example_media_laws)
    (GatherLaws0 := example_gather_laws) offer_ntop example_cert counting_bytes (SecureRandomGenerator 0) example_options 1 _
    [example_stream] [] k_inactive None Htot Hlen eq_refl Hfp example_source_ok Hempty)
    as (text & tc & d & rng' & d' & E & Ep & Em & Hall & _).
  exists text, tc, d, rng', d'. split; [exact E|]. split; [exact Ep|]. split; [exact Em|].
  destruct (Hall (str "audio")) as (td & Et & _ & _ & _ & Hc); [rewrite Em; by left|]. exists td. split; [exact Et|exact Hc].
Defined.
