(* ===== verification/Streams.v ===== *)
(** * Streams (stream/rtc_stream.cpp, stream/push_stream.cpp, stream/pull_stream.cpp,
    stream/rtc_stream_manager.cpp)

    The manager of a worker keeps a push and a pull stream per stream name; the
    streams are its own objects and report to it.  It is written against the
    interface [PeerI] of a peer connection, of which TransportController's is
    an instance.  Streams are named by numbers; a number no longer in
    [sm_heap] is a deleted stream. *)

From S2P Require Import Prelude State Sdp SdpParse IceTypes IceAgent TransportController.
Local Open Scope Z_scope.

(** ** The interface of a peer connection *)

Class PeerI (P : Type) : Type := {
  peer_new : P;
  peer_init : option Z -> P -> P;
  peer_add_audio_source : list StreamParams -> P -> P;
  peer_add_video_source : list StreamParams -> P -> P;
  peer_create_offer : RTCOfferAnswerOptions -> P -> outcome (bytes * P);
  (** also the states the connection signals in, in order *)
  peer_set_remote_sdp : bytes -> P -> outcome (Z * list PeerConnectionState * P);
  peer_remote_desc : P -> option SessionDescription;
  peer_send_rtp : bytes -> P -> outcome (Z * P);
  peer_send_rtcp : bytes -> P -> outcome (Z * P);
}.

Section instance.
Context {C M : Type} `{IceChannelI C} `{MediaI M}.
Variables (inet_ntop : IpAddress.IPAddress -> bytes) (cert_fingerprint : Z -> option SSLFingerprint).
Variables (ice_param : IceParameters) (direction : RtpDirection).

Fixpoint connection_states (evs : list tc_event) : list PeerConnectionState :=
  match evs with
  | [] => []
  | TcConnectionState s :: evs => s :: connection_states evs
  | TcCandidates _ _ _ :: evs => connection_states evs
  end.

(** [add_audio_source] and [add_video_source] of the peer connection. *)
Definition pc_add_audio_source (l : list StreamParams) (pc : PeerConnection C M) : PeerConnection C M :=
  mkPc (pc_local_desc pc) (pc_remote_desc pc) (pc_certificate pc) (pc_transport_controller pc) l
    (pc_video_source pc).
Definition pc_add_video_source (l : list StreamParams) (pc : PeerConnection C M) : PeerConnection C M :=
  mkPc (pc_local_desc pc) (pc_remote_desc pc) (pc_certificate pc) (pc_transport_controller pc)
    (pc_audio_source pc) l.

#[export] Instance peer_connection : PeerI (PeerConnection C M) := {|
  peer_new := mkPc None None None new_tc [] [];
  peer_init := pc_init;
  peer_add_audio_source := pc_add_audio_source;
  peer_add_video_source := pc_add_video_source;
  peer_create_offer := create_offer inet_ntop cert_fingerprint ice_param;
  peer_set_remote_sdp := fun sdp pc =>
    '(r, pc') ← set_remote_sdp direction sdp pc;
    let evs := drop (length (tc_out (pc_transport_controller pc))) (tc_out (pc_transport_controller pc')) in
    Done (r, connection_states evs, pc');
  peer_remote_desc := pc_remote_desc;
  peer_send_rtp := pc_send_rtp;
  peer_send_rtcp := pc_send_rtcp;
|}.
End instance.

(** ** The streams *)

Inductive RtcStreamType : Type := k_push | k_pull.

#[export] Instance RtcStreamType_eq_dec : EqDecision RtcStreamType.
Proof. solve_decision. Defined.

Section streams.
Context {P : Type} `{PeerI P}.

Record RtcStream : Type := mkStream {
  rs_type : RtcStreamType;
  rs_uid : Z;
  rs_stream_name : bytes;
  rs_audio : bool;
  rs_video : bool;
  rs_pc : P;
  rs_state : PeerConnectionState;
  rs_ice_timeout : bool;  (* the 30 s timer runs *)
}.

Definition new_stream (t : RtcStreamType) (uid : Z) (name : bytes) (audio video : bool) : RtcStream :=
  mkStream t uid name audio video peer_new pc_new false.

Definition set_pc (pc : P) (s : RtcStream) : RtcStream :=
  mkStream (rs_type s) (rs_uid s) (rs_stream_name s) (rs_audio s) (rs_video s) pc (rs_state s)
    (rs_ice_timeout s).
Definition set_ice_timeout (b : bool) (s : RtcStream) : RtcStream :=
  mkStream (rs_type s) (rs_uid s) (rs_stream_name s) (rs_audio s) (rs_video s) (rs_pc s) (rs_state s) b.
Definition set_stream_state (st : PeerConnectionState) (s : RtcStream) : RtcStream :=
  mkStream (rs_type s) (rs_uid s) (rs_stream_name s) (rs_audio s) (rs_video s) (rs_pc s) st
    (rs_ice_timeout s).

(** [start] *)
Definition stream_start (certificate : option Z) (s : RtcStream) : RtcStream :=
  set_pc (peer_init certificate (rs_pc s)) (set_ice_timeout true s).

(** The options of [PushStream::create_offer] and [PullStream::create_offer]. *)
Definition offer_options (s : RtcStream) : RTCOfferAnswerOptions :=
  match rs_type s with
  | k_push => mkOptions (rs_audio s) (rs_video s) false false true true true
  | k_pull => mkOptions false false (rs_audio s) (rs_video s) true true true
  end.

(** [PushStream::_get_source]: what is left of an empty [source]. *)
Definition get_source (mid : bytes) (s : RtcStream) : list StreamParams :=
  from_option mc_send_streams [] (d ← peer_remote_desc (rs_pc s); get_content mid d).

(** ** The manager *)

Record StreamManager : Type := mkManager {
  sm_heap : gmap nat RtcStream;
  sm_push_streams : gmap bytes nat;
  sm_pull_streams : gmap bytes nat;
  sm_next : nat;
}.

Definition new_manager : StreamManager := mkManager ∅ ∅ ∅ 0.

Definition sm_set_heap (f : gmap nat RtcStream -> gmap nat RtcStream) (m : StreamManager) : StreamManager :=
  mkManager (f (sm_heap m)) (sm_push_streams m) (sm_pull_streams m) (sm_next m).
Definition sm_set_push (f : gmap bytes nat -> gmap bytes nat) (m : StreamManager) : StreamManager :=
  mkManager (sm_heap m) (f (sm_push_streams m)) (sm_pull_streams m) (sm_next m).
Definition sm_set_pull (f : gmap bytes nat -> gmap bytes nat) (m : StreamManager) : StreamManager :=
  mkManager (sm_heap m) (sm_push_streams m) (f (sm_pull_streams m)) (sm_next m).

Definition SM := St StreamManager.

Definition stream_at (p : nat) : SM RtcStream := fun m =>
  match sm_heap m !! p with Some s => Done (s, m) | None => Undef use_after_free end.
Definition stream_put (p : nat) (s : RtcStream) : SM () := put (sm_set_heap <[p := s]>).

(** [new PushStream(...)], [new PullStream(...)] and [delete]. *)
Definition stream_new (s : RtcStream) : SM nat := fun m =>
  Done (sm_next m,
        mkManager (<[sm_next m := s]> (sm_heap m)) (sm_push_streams m) (sm_pull_streams m) (S (sm_next m))).
Definition stream_delete (p : nat) : SM () :=
  _ ← stream_at p; put (sm_set_heap (delete p)).

(** What the peer connection answers, [s] being its stream's object. *)
Definition with_peer {A} (p : nat) (f : P -> outcome (A * P)) : SM A :=
  s ← stream_at p;
  r ← (fun m => match f (rs_pc s) with
                | Done r => Done (r, m) | Throws e => Throws e | Undef u => Undef u end);
  _ ← stream_put p (set_pc (snd r) s);
  mret (fst r).

Definition find_push_stream (name : bytes) : SM (option nat) := get (fun m => sm_push_streams m !! name).
Definition find_pull_stream (name : bytes) : SM (option nat) := get (fun m => sm_pull_streams m !! name).

(** [_remove_push_stream(uid, stream_name)] *)
Definition remove_push_stream (uid : Z) (name : bytes) : SM () :=
  o ← find_push_stream name;
  match o with
  | None => mret ()
  | Some p =>
      s ← stream_at p;
      if_ (uid =? rs_uid s) (_ ← put (sm_set_push (delete name)); stream_delete p)
  end.

Definition remove_pull_stream (uid : Z) (name : bytes) : SM () :=
  o ← find_pull_stream name;
  match o with
  | None => mret ()
  | Some p =>
      s ← stream_at p;
      if_ (uid =? rs_uid s) (_ ← put (sm_set_pull (delete name)); stream_delete p)
  end.

(** [_remove_push_stream(stream)]: by the stream's uid and name. *)
Definition remove_push_stream_of (p : nat) : SM () :=
  s ← stream_at p; remove_push_stream (rs_uid s) (rs_stream_name s).
Definition remove_pull_stream_of (p : nat) : SM () :=
  s ← stream_at p; remove_pull_stream (rs_uid s) (rs_stream_name s).

(** [RtcStreamManager::on_connection_state] *)
Definition on_connection_state (p : nat) (state : PeerConnectionState) : SM () :=
  if_ (bool_decide (state = pc_failed)) (remove_push_stream_of p).

(** [RtcStream::_on_connection_state]; the slot of a deleted stream is not
    connected any more. *)
Definition stream_on_connection_state (p : nat) (state : PeerConnectionState) : SM () :=
  o ← get (fun m => sm_heap m !! p);
  match o with
  | None => mret ()
  | Some s =>
      if bool_decide (rs_state s = state) then mret ()
      else
        let s := set_stream_state state s in
        let s := if bool_decide (state = pc_connected) then set_ice_timeout false s else s in
        _ ← stream_put p s;
        on_connection_state p state
  end.

Fixpoint stream_on_states (p : nat) (states : list PeerConnectionState) : SM () :=
  match states with
  | [] => mret ()
  | st :: states => _ ← stream_on_connection_state p st; stream_on_states p states
  end.

(** [RtcStream::set_remote_sdp], with the reactions to what the connection
    signals meanwhile; they do not look at the connection. *)
Definition stream_set_remote_sdp (p : nat) (sdp : bytes) : SM Z :=
  '(r, states) ← with_peer p (fun pc => '(r, states, pc') ← peer_set_remote_sdp sdp pc; Done (r, states, pc'));
  _ ← stream_on_states p states;
  mret r.

(** [on_stream_exception] *)
Definition on_stream_exception (p : nat) : SM () :=
  s ← stream_at p;
  match rs_type s with
  | k_push => remove_push_stream_of p
  | k_pull => remove_pull_stream_of p
  end.

(** [ice_timeout_cb] *)
Definition ice_timeout_cb (p : nat) : SM () :=
  s ← stream_at p;
  _ ← stream_put p (set_ice_timeout false s);
  if_ (negb (bool_decide (rs_state s = pc_connected))) (on_stream_exception p).

(** [on_rtp_packet_received] and [on_rtcp_packet_received]; what sending
    returns is ignored. *)
Definition on_rtp_packet_received (p : nat) (data : bytes) : SM () :=
  s ← stream_at p;
  match rs_type s with
  | k_pull => mret ()
  | k_push =>
      o ← find_pull_stream (rs_stream_name s);
      match o with
      | None => mret ()
      | Some q => _ ← with_peer q (peer_send_rtp data); mret ()
      end
  end.

Definition on_rtcp_packet_received (p : nat) (data : bytes) : SM () :=
  s ← stream_at p;
  o ← match rs_type s with
      | k_push => find_pull_stream (rs_stream_name s)
      | k_pull => find_push_stream (rs_stream_name s)
      end;
  match o with
  | None => mret ()
  | Some q => _ ← with_peer q (peer_send_rtcp data); mret ()
  end.

(** [set_answer]; what [set_remote_sdp] returns is ignored. *)
Definition set_answer (uid : Z) (name answer stream_type : bytes) : SM Z :=
  let answer_to (o : option nat) : SM Z :=
    match o with
    | None => mret (-1)
    | Some p =>
        s ← stream_at p;
        if negb (uid =? rs_uid s) then mret (-1)
        else _ ← stream_set_remote_sdp p answer; mret 0
    end in
  if bool_decide (stream_type = str "push") then o ← find_push_stream name; answer_to o
  else if bool_decide (stream_type = str "pull") then o ← find_pull_stream name; answer_to o
  else mret 0.

Definition stop_push (uid : Z) (name : bytes) : SM Z := _ ← remove_push_stream uid name; mret 0.
Definition stop_pull (uid : Z) (name : bytes) : SM Z := _ ← remove_pull_stream uid name; mret 0.

(** [create_push_stream]: the result and the offer. *)
Definition create_push_stream (uid : Z) (name : bytes) (audio video : bool) (certificate : option Z)
    : SM (Z * bytes) :=
  o ← find_push_stream name;
  _ ← match o with
      | None => mret ()
      | Some p => _ ← put (sm_set_push (delete name)); stream_delete p
      end;
  p ← stream_new (stream_start certificate (new_stream k_push uid name audio video));
  _ ← put (sm_set_push <[name := p]>);
  s ← stream_at p;
  offer ← with_peer p (peer_create_offer (offer_options s));
  mret (0, offer).

Definition create_pull_stream (uid : Z) (name : bytes) (audio video : bool) (certificate : option Z)
    : SM (Z * bytes) :=
  o ← find_push_stream name;
  match o with
  | None => mret (-1, [])
  | Some push_stream =>
      _ ← remove_pull_stream uid name;
      push ← stream_at push_stream;
      let s := new_stream k_pull uid name audio video in
      let s := set_pc (peer_add_audio_source (get_source (str "audio") push) (rs_pc s)) s in
      let s := set_pc (peer_add_video_source (get_source (str "video") push) (rs_pc s)) s in
      p ← stream_new (stream_start certificate s);
      s ← stream_at p;
      offer ← with_peer p (peer_create_offer (offer_options s));
      _ ← put (sm_set_pull <[name := p]>);
      mret (0, offer)
  end.

(** ** Runs *)

(** Requests, and what the live streams report.  A connection also changes on
    its own between them. *)
Inductive stream_input : Type :=
  | InCreatePush (uid : Z) (name : bytes) (audio video : bool) (certificate : option Z)
  | InCreatePull (uid : Z) (name : bytes) (audio video : bool) (certificate : option Z)
  | InAnswer (uid : Z) (name answer stream_type : bytes)
  | InStopPush (uid : Z) (name : bytes)
  | InStopPull (uid : Z) (name : bytes)
  | InState (p : nat) (state : PeerConnectionState)
  | InTimeout (p : nat)
  | InRtp (p : nat) (data : bytes)
  | InRtcp (p : nat) (data : bytes)
  | InPeer (p : nat) (pc : P).

Definition stream_handle (i : stream_input) : SM (Z * bytes) :=
  match i with
  | InCreatePush uid name audio video cert => create_push_stream uid name audio video cert
  | InCreatePull uid name audio video cert => create_pull_stream uid name audio video cert
  | InAnswer uid name answer ty => r ← set_answer uid name answer ty; mret (r, [])
  | InStopPush uid name => r ← stop_push uid name; mret (r, [])
  | InStopPull uid name => r ← stop_pull uid name; mret (r, [])
  | InState p state => _ ← stream_on_connection_state p state; mret (0, [])
  | InTimeout p => _ ← ice_timeout_cb p; mret (0, [])
  | InRtp p data => _ ← on_rtp_packet_received p data; mret (0, [])
  | InRtcp p data => _ ← on_rtcp_packet_received p data; mret (0, [])
  | InPeer p pc => s ← stream_at p; _ ← stream_put p (set_pc pc s); mret (0, [])
  end.

(** Only live streams report, and only running timers fire. *)
Definition stream_input_ok (i : stream_input) (m : StreamManager) : bool :=
  match i with
  | InState p _ | InRtp p _ | InRtcp p _ | InPeer p _ => bool_decide (is_Some (sm_heap m !! p))
  | InTimeout p => from_option rs_ice_timeout false (sm_heap m !! p)
  | _ => true
  end.

Inductive streams_reachable : StreamManager -> Prop :=
  | streams_new : streams_reachable new_manager
  | streams_step m i r m' :
      streams_reachable m -> stream_input_ok i m = true -> stream_handle i m = Done (r, m') ->
      streams_reachable m'.
End streams.
Arguments RtcStream P : clear implicits.
Arguments StreamManager P : clear implicits.
Arguments stream_input P : clear implicits.
