(* ===== verification/StreamsTheory.v ===== *)
(** * Theory of the streams

    The manager never follows a dangling pointer, and its two tables implement
    a registry that maps stream names to the users that own them. *)

From S2P Require Import Prelude State Sdp IceTypes IceChannel Srtp Dtls DtlsBehaviour SdpTheory.
From S2P Require Import TransportController OfferTheory Streams.
Local Open Scope Z_scope.

Section theory.
Context {P : Type} `{PeerI P}.
Implicit Types (m : StreamManager P) (s : RtcStream P).

(** ** Computations that fail only where a peer connection does *)

(** Some operation of a peer connection is undefined for the reason [u], or
    throws [e]. *)
Definition peer_undef (u : undef) : Prop :=
  exists pc : P, (exists o, peer_create_offer o pc = Undef u) \/ (exists sdp, peer_set_remote_sdp sdp pc = Undef u) \/
    (exists d, peer_send_rtp d pc = Undef u) \/ (exists d, peer_send_rtcp d pc = Undef u).
Definition peer_throws (e : exn) : Prop :=
  exists pc : P, (exists o, peer_create_offer o pc = Throws e) \/ (exists sdp, peer_set_remote_sdp sdp pc = Throws e) \/
    (exists d, peer_send_rtp d pc = Throws e) \/ (exists d, peer_send_rtcp d pc = Throws e).

Abbreviation safe := (wp peer_throws peer_undef).

Lemma safe_at p s (Q : RtcStream P -> StreamManager P -> Prop) m :
  sm_heap m !! p = Some s -> Q s m -> safe (stream_at p) Q m.
Proof. intros E HQ. unfold wp, stream_at. by rewrite E. Qed.
Lemma safe_delete p s (Q : () -> StreamManager P -> Prop) m :
  sm_heap m !! p = Some s -> Q () (sm_set_heap (delete p) m) -> safe (stream_delete p) Q m.
Proof. intros E HQ. apply st_wp_bind. by eapply safe_at; [|apply st_wp_put]. Qed.
Lemma safe_new s (Q : nat -> StreamManager P -> Prop) m :
  Q (sm_next m) (mkManager (<[sm_next m := s]> (sm_heap m)) (sm_push_streams m) (sm_pull_streams m) (S (sm_next m))) ->
  safe (stream_new s) Q m.
Proof. done. Qed.

Lemma safe_peer {A} p s (f : P -> outcome (A * P)) (Q : A -> StreamManager P -> Prop) m :
  sm_heap m !! p = Some s ->
  (forall u, f (rs_pc s) = Undef u -> peer_undef u) -> (forall e, f (rs_pc s) = Throws e -> peer_throws e) ->
  (forall a pc, f (rs_pc s) = Done (a, pc) -> Q a (sm_set_heap <[p := set_pc pc s]> m)) ->
  safe (with_peer p f) Q m.
Proof.
  intros E Hu He HQ. apply st_wp_bind. eapply safe_at; [exact E|]. apply st_wp_bind. unfold wp at 1.
  destruct (f (rs_pc s)) as [[a pc]| |] eqn:Ef; [|by apply He|by apply Hu].
  apply st_wp_bind, st_wp_put, st_wp_ret. by apply HQ.
Qed.

(** ** The invariant *)

Definition sm_streams (t : RtcStreamType) m : gmap bytes nat :=
  match t with k_push => sm_push_streams m | k_pull => sm_pull_streams m end.
Definition sm_set (t : RtcStreamType) (f : gmap bytes nat -> gmap bytes nat) : StreamManager P -> StreamManager P :=
  match t with k_push => sm_set_push f | k_pull => sm_set_pull f end.

(** The tables lead to live streams of their kind and name; every live push
    stream is in its table. *)
Record sm_ok m : Prop := {
  ok_table : forall t name p, sm_streams t m !! name = Some p ->
    exists s, sm_heap m !! p = Some s /\ rs_type s = t /\ rs_stream_name s = name;
  ok_registered : forall p s, sm_heap m !! p = Some s -> rs_type s = k_push ->
    sm_push_streams m !! rs_stream_name s = Some p;
  ok_next : forall p s, sm_heap m !! p = Some s -> (p < sm_next m)%nat;
}.

(** ** The registry *)

Record registry : Type := mkReg { reg_push : gmap bytes Z; reg_pull : gmap bytes Z }.

Definition uids (heap : gmap nat (RtcStream P)) (table : gmap bytes nat) : gmap bytes Z :=
  omap (fun p => rs_uid <$> heap !! p) table.

(** Who owns which name. *)
Definition registered m : registry :=
  mkReg (uids (sm_heap m) (sm_push_streams m)) (uids (sm_heap m) (sm_pull_streams m)).

Definition reg_table (t : RtcStreamType) (R : registry) : gmap bytes Z :=
  match t with k_push => reg_push R | k_pull => reg_pull R end.
Definition reg_set (t : RtcStreamType) (f : gmap bytes Z -> gmap bytes Z) (R : registry) : registry :=
  match t with
  | k_push => mkReg (f (reg_push R)) (reg_pull R)
  | k_pull => mkReg (reg_push R) (f (reg_pull R))
  end.

(** A name is given up by its owner only. *)
Definition reg_remove (t : RtcStreamType) (uid : Z) (name : bytes) (R : registry) : registry :=
  if bool_decide (reg_table t R !! name = Some uid) then reg_set t (delete name) R else R.

Lemma registered_lookup t m name :
  reg_table t (registered m) !! name = p ← sm_streams t m !! name; rs_uid <$> sm_heap m !! p.
Proof. destruct t; cbn; unfold uids; by rewrite lookup_omap. Qed.

Lemma registry_eq (R R' : registry) :
  (forall t name, reg_table t R !! name = reg_table t R' !! name) -> R = R'.
Proof.
  intros E. destruct R as [a b], R' as [a' b']. f_equal; apply map_eq; intros name.
  - exact (E k_push name).
  - exact (E k_pull name).
Qed.

Lemma reg_table_set t t' f R :
  reg_table t (reg_set t' f R) = if bool_decide (t = t') then f (reg_table t R) else reg_table t R.
Proof. by destruct t, t'. Qed.

Lemma reg_remove_twice t uid name R : reg_remove t uid name (reg_remove t uid name R) = reg_remove t uid name R.
Proof.
  assert (Hn : reg_table t (reg_remove t uid name R) !! name <> Some uid).
  { unfold reg_remove. case_bool_decide as E; [|done].
    rewrite reg_table_set, bool_decide_true by done. by rewrite lookup_delete_eq. }
  unfold reg_remove at 1. by rewrite bool_decide_false.
Qed.

(** ** Steps that keep the tables *)

Lemma sm_set_streams t t' f m :
  sm_streams t (sm_set t' f m) = if bool_decide (t = t') then f (sm_streams t m) else sm_streams t m.
Proof. by destruct t, t'. Qed.
Lemma sm_set_heap_of t f m : sm_heap (sm_set t f m) = sm_heap m.
Proof. by destruct t. Qed.
Lemma sm_set_next t f m : sm_next (sm_set t f m) = sm_next m.
Proof. by destruct t. Qed.
Lemma sm_set_heap_streams t f m : sm_streams t (sm_set_heap f m) = sm_streams t m.
Proof. by destruct t. Qed.

(** The object of a live stream changes. *)
Definition same_stream s s' : Prop :=
  rs_type s' = rs_type s /\ rs_uid s' = rs_uid s /\ rs_stream_name s' = rs_stream_name s.

Lemma put_stream_ok p s s' m :
  sm_ok m -> sm_heap m !! p = Some s -> same_stream s s' ->
  sm_ok (sm_set_heap <[p := s']> m) /\ registered (sm_set_heap <[p := s']> m) = registered m.
Proof.
  intros [Ht Hr Hn] Hp (E1 & E2 & E3).
  assert (Hl : forall q, (<[p := s']> (sm_heap m)) !! q = Some s' /\ q = p \/
                         (<[p := s']> (sm_heap m)) !! q = sm_heap m !! q /\ q <> p).
  { intros q. destruct (decide (q = p)) as [->|Hq]; [left|right]; (split; [|done]).
    - apply lookup_insert_eq.
    - by apply lookup_insert_ne. }
  split; [split|].
  - intros t name q Hq. rewrite sm_set_heap_streams in Hq. destruct (Ht t name q Hq) as (x & Hx & T1 & T2).
    cbn [sm_set_heap sm_heap]. destruct (Hl q) as [[-> ->]|[-> _]]; [|by exists x].
    exists s'. rewrite Hp in Hx. injection Hx as <-. split; [done|split; congruence].
  - intros q x Hq Hx. cbn [sm_set_heap sm_heap sm_push_streams] in *.
    destruct (Hl q) as [[Hq' ->]|[Hq' _]]; rewrite Hq' in Hq.
    + injection Hq as <-. rewrite E3. apply Hr; [done|congruence].
    + by apply Hr.
  - intros q x Hq. cbn [sm_set_heap sm_heap sm_next] in *.
    destruct (Hl q) as [[_ ->]|[Hq' _]]; [by apply (Hn p s)|]. rewrite Hq' in Hq. by apply (Hn q x).
  - apply registry_eq. intros t name. rewrite !registered_lookup, sm_set_heap_streams.
    destruct (sm_streams t m !! name) as [q|]; cbn; [|done].
    destruct (Hl q) as [[-> ->]|[-> _]]; [|done]. rewrite Hp. cbn. congruence.
Qed.

(** A stream in its table is taken out and deleted. *)
Lemma delete_stream_ok t name p s m :
  sm_ok m -> sm_streams t m !! name = Some p -> sm_heap m !! p = Some s ->
  let m' := sm_set_heap (delete p) (sm_set t (delete name) m) in
  sm_ok m' /\ registered m' = reg_set t (delete name) (registered m).
Proof.
  intros [Ht Hr Hn] Hp Hs m'.
  destruct (Ht t name p Hp) as (s0 & E0 & Et & En). rewrite Hs in E0. injection E0 as <-.
  assert (Hother : forall t' name' q, sm_streams t' m' !! name' = Some q ->
    sm_streams t' m !! name' = Some q /\ q <> p).
  { intros t' name' q. unfold m'. rewrite sm_set_heap_streams, sm_set_streams.
    case_bool_decide as E.
    - subst t'. intros [Hne Hq]%lookup_delete_Some. split; [done|]. intros ->.
      destruct (Ht t name' p Hq) as (x & Hx & _ & Hx'). congruence.
    - intros Hq. split; [done|]. intros ->. destruct (Ht t' name' p Hq) as (x & Hx & Hx' & _). congruence. }
  split; [split|].
  - intros t' name' q Hq. destruct (Hother t' name' q Hq) as [Hq' Hne].
    destruct (Ht t' name' q Hq') as (x & Hx & T). exists x. split; [|done].
    unfold m'. cbn [sm_set_heap sm_heap]. by rewrite sm_set_heap_of, lookup_delete_ne.
  - intros q x Hq Hx. unfold m' in *. cbn [sm_set_heap sm_heap] in Hq. rewrite sm_set_heap_of in Hq.
    apply lookup_delete_Some in Hq as [Hne Hq]. pose proof (Hr q x Hq Hx) as Hreg.
    change (sm_push_streams (sm_set_heap (delete p) (sm_set t (delete name) m)))
      with (sm_streams k_push (sm_set t (delete name) m)). rewrite sm_set_streams.
    case_bool_decide as E; [|done]. apply lookup_delete_Some. split; [|done].
    intros ->. rewrite <- E in Hp. cbn in Hp. congruence.
  - intros q x Hq. unfold m' in *. cbn [sm_set_heap sm_heap sm_next] in *. rewrite sm_set_heap_of in Hq.
    rewrite sm_set_next. apply lookup_delete_Some in Hq as [_ Hq]. by apply (Hn q x).
  - apply registry_eq. intros t' name'. rewrite reg_table_set, registered_lookup.
    destruct (sm_streams t' m' !! name') as [q|] eqn:Eq; cbn.
    + destruct (Hother t' name' q Eq) as [Hq Hne]. unfold m'. cbn [sm_set_heap sm_heap].
      rewrite sm_set_heap_of, lookup_delete_ne by done.
      case_bool_decide as E; [|by rewrite registered_lookup, Hq]. subst t'.
      unfold m' in Eq. rewrite sm_set_heap_streams, sm_set_streams, bool_decide_true in Eq by done.
      apply lookup_delete_Some in Eq as [Hnn _]. rewrite lookup_delete_ne by done.
      by rewrite registered_lookup, Hq.
    + unfold m' in Eq. rewrite sm_set_heap_streams, sm_set_streams in Eq. symmetry.
      case_bool_decide as E; [|by rewrite registered_lookup, Eq]. subst t'.
      destruct (decide (name' = name)) as [->|Hnn]; [apply lookup_delete_eq|].
      rewrite lookup_delete_ne in Eq by done. rewrite lookup_delete_ne by done. by rewrite registered_lookup, Eq.
Qed.

(** A stream is made, and put into its table over no stream of its own. *)
Lemma new_stream_ok s m :
  sm_ok m -> sm_streams k_push m !! rs_stream_name s = None \/ rs_type s = k_pull ->
  let p := sm_next m in
  let m' := sm_set (rs_type s) <[rs_stream_name s := p]>
    (mkManager (<[p := s]> (sm_heap m)) (sm_push_streams m) (sm_pull_streams m) (S p)) in
  sm_ok m' /\ sm_heap m' !! p = Some s /\
  registered m' = reg_set (rs_type s) <[rs_stream_name s := rs_uid s]> (registered m).
Proof.
  intros [Ht Hr Hn] Hfree p m'.
  assert (Hfresh : forall q x, sm_heap m !! q = Some x -> q <> p).
  { intros q x Hq ->. apply Hn in Hq. unfold p in Hq. lia. }
  assert (Hheap : forall q, sm_heap m' !! q = if bool_decide (q = p) then Some s else sm_heap m !! q).
  { intros q. unfold m'. rewrite sm_set_heap_of. cbn. case_bool_decide as E.
    - subst q. apply lookup_insert_eq.
    - by apply lookup_insert_ne. }
  assert (Htab : forall t name, sm_streams t m' !! name =
    if bool_decide (t = rs_type s /\ name = rs_stream_name s) then Some p else sm_streams t m !! name).
  { intros t name. unfold m'. rewrite sm_set_streams. case_bool_decide as E1; case_bool_decide as E2.
    - destruct E2 as [_ ->]. apply lookup_insert_eq.
    - rewrite lookup_insert_ne; [by destruct t|]. intros <-. by apply E2.
    - by destruct E2.
    - by destruct t. }
  split; [split|split].
  - intros t name q. rewrite Htab, Hheap. case_bool_decide as E.
    + destruct E as [-> ->]. intros [= <-]. exists s. by rewrite bool_decide_true.
    + intros Hq. destruct (Ht t name q Hq) as (x & Hx & T). exists x.
      rewrite bool_decide_false by (by eapply Hfresh). done.
  - intros q x. change (sm_push_streams m') with (sm_streams k_push m'). rewrite Hheap, Htab.
    case_bool_decide as E.
    + intros [= <-] Hx. subst q. by rewrite bool_decide_true.
    + intros Hq Hx. pose proof (Hr q x Hq Hx) as Hreg. rewrite bool_decide_false; [done|].
      intros [E1 E2]. destruct Hfree as [Hfree|Hfree]; [|congruence]. cbn in Hfree. congruence.
  - intros q x. rewrite Hheap. unfold m'. rewrite sm_set_next. cbn. fold p.
    case_bool_decide as E; [subst q; lia|]. intros Hq. apply Hn in Hq. unfold p. lia.
  - rewrite Hheap. by rewrite bool_decide_true.
  - apply registry_eq. intros t name. rewrite reg_table_set, !registered_lookup, Htab.
    destruct (decide (t = rs_type s)) as [->|Hne].
    + rewrite (bool_decide_true (rs_type s = rs_type s)) by done.
      destruct (decide (name = rs_stream_name s)) as [->|Hnn].
      * rewrite bool_decide_true by done. cbn. rewrite Hheap, bool_decide_true, lookup_insert_eq by done. done.
      * rewrite bool_decide_false by tauto. rewrite lookup_insert_ne by done. rewrite registered_lookup.
        destruct (sm_streams (rs_type s) m !! name) as [q|] eqn:Eq; cbn; [|done].
        destruct (Ht _ _ _ Eq) as (x & Hx & _). rewrite Hheap, bool_decide_false by (by eapply Hfresh). done.
    + rewrite (bool_decide_false (t = rs_type s)) by done. rewrite bool_decide_false by tauto.
      rewrite registered_lookup. destruct (sm_streams t m !! name) as [q|] eqn:Eq; cbn; [|done].
      destruct (Ht _ _ _ Eq) as (x & Hx & _). rewrite Hheap, bool_decide_false by (by eapply Hfresh). done.
Qed.

(** ** The operations *)

(** [_remove_push_stream] and [_remove_pull_stream]. *)
Definition remove_stream (t : RtcStreamType) (uid : Z) (name : bytes) : St (StreamManager P) () :=
  match t with k_push => remove_push_stream uid name | k_pull => remove_pull_stream uid name end.

(** Nothing appears; streams of the other kind stay. *)
Definition only_removes (t : RtcStreamType) m m' : Prop :=
  (forall p s, sm_heap m' !! p = Some s -> sm_heap m !! p = Some s) /\
  (forall p s, sm_heap m !! p = Some s -> rs_type s <> t -> sm_heap m' !! p = Some s).

Lemma remove_stream_spec t uid name m :
  sm_ok m -> safe (remove_stream t uid name) (fun _ m' =>
    sm_ok m' /\ registered m' = reg_remove t uid name (registered m) /\ only_removes t m m' /\
    forall p s, sm_heap m !! p = Some s -> sm_streams t m !! name = Some p -> rs_uid s = uid ->
      sm_heap m' !! p = None) m.
Proof.
  intros Hok.
  assert (Hspec : safe (o ← get (fun m => sm_streams t m !! name);
    match o with
    | None => mret ()
    | Some p => s ← stream_at p; if_ (uid =? rs_uid s) (_ ← put (sm_set t (delete name)); stream_delete p)
    end) (fun _ m' => sm_ok m' /\ registered m' = reg_remove t uid name (registered m) /\ only_removes t m m' /\
    forall p s, sm_heap m !! p = Some s -> sm_streams t m !! name = Some p -> rs_uid s = uid ->
      sm_heap m' !! p = None) m); [|by destruct t].
  apply st_wp_bind, st_wp_get. destruct (sm_streams t m !! name) as [p|] eqn:Ep.
  - destruct (ok_table m Hok t name p Ep) as (s & Hs & Et & En).
    assert (Hreg : reg_table t (registered m) !! name = Some (rs_uid s)).
    { rewrite registered_lookup, Ep. cbn. by rewrite Hs. }
    apply st_wp_bind. eapply safe_at; [exact Hs|]. apply st_wp_if; intros Eu.
    + apply Z.eqb_eq in Eu as ->. apply st_wp_bind, st_wp_put.
      eapply safe_delete; [by rewrite sm_set_heap_of|].
      destruct (delete_stream_ok t name p s m Hok Ep Hs) as [Hok' Hreg'].
      split; [done|]. split; [unfold reg_remove; by rewrite bool_decide_true|].
      cbn [sm_set_heap sm_heap]. split; [split|]; cbn [sm_set_heap sm_heap]; rewrite sm_set_heap_of.
      * intros q x Hq. by apply lookup_delete_Some in Hq as [_ Hq].
      * intros q x Hq Hx. apply lookup_delete_Some. split; [|done]. intros ->. congruence.
      * intros q x _ [= <-] _. apply lookup_delete_eq.
    + apply Z.eqb_neq in Eu. split; [done|]. split; [|split; [by split|]].
      * unfold reg_remove. rewrite bool_decide_false; [done|]. rewrite Hreg. congruence.
      * intros q x Hx [= <-] Ex. congruence.
  - apply st_wp_ret. split; [done|]. split; [|split; [by split|done]]. unfold reg_remove.
    rewrite bool_decide_false; [done|]. by rewrite registered_lookup, Ep.
Qed.

Lemma remove_of_spec t p s m :
  sm_ok m -> sm_heap m !! p = Some s ->
  safe (match t with k_push => remove_push_stream_of p | k_pull => remove_pull_stream_of p end) (fun _ m' =>
    sm_ok m' /\ registered m' = reg_remove t (rs_uid s) (rs_stream_name s) (registered m) /\
    only_removes t m m' /\ (sm_streams t m !! rs_stream_name s = Some p -> sm_heap m' !! p = None)) m.
Proof.
  intros Hok Hs. pose proof (remove_stream_spec t (rs_uid s) (rs_stream_name s) m Hok) as Hr.
  destruct t; apply st_wp_bind; (eapply safe_at; [exact Hs|]); (eapply st_wp_mono; [exact Hr|]);
    intros _ m' (H1 & H2 & H3 & H4); (split; [done|split; [done|split; [done|]]]);
    intros Hp; by apply (H4 p s).
Qed.

(** Whether a stream in the state [st] reaches the failed state anew. *)
Fixpoint fails_from (st : PeerConnectionState) (states : list PeerConnectionState) : bool :=
  match states with
  | [] => false
  | x :: states =>
      if bool_decide (st = x) then fails_from st states
      else bool_decide (x = pc_failed) || fails_from x states
  end.

Definition reg_remove_if (b : bool) (t : RtcStreamType) (uid : Z) (name : bytes) (R : registry) : registry :=
  if b then reg_remove t uid name R else R.

Lemma stream_on_state_spec p st s m :
  sm_ok m -> sm_heap m !! p = Some s ->
  safe (stream_on_connection_state p st) (fun _ m' =>
    sm_ok m' /\ registered m' =
      reg_remove_if (fails_from (rs_state s) [st]) k_push (rs_uid s) (rs_stream_name s) (registered m) /\
    (sm_heap m' !! p = None /\ rs_state s <> st /\ st = pc_failed \/
     exists s', sm_heap m' !! p = Some s' /\ same_stream s s' /\ rs_state s' = st)) m.
Proof.
  intros Hok Hs. apply st_wp_bind, st_wp_get. rewrite Hs. cbn [fails_from].
  case_bool_decide as E.
  { apply st_wp_ret. rewrite ?(bool_decide_true _ E). split_and!; [done|done|]. right. by exists s. }
  rewrite ?(bool_decide_false _ E), orb_false_r. apply st_wp_bind, st_wp_put.
  set (s' := if bool_decide (st = pc_connected) then _ else _).
  assert (Hsame : same_stream s s' /\ rs_state s' = st) by (unfold s'; by case_bool_decide).
  destruct Hsame as [Hsame Est]. destruct (put_stream_ok p s s' m Hok Hs Hsame) as [Hok1 Hreg1].
  set (m1 := sm_set_heap _ m) in *. assert (Hs1 : sm_heap m1 !! p = Some s') by apply lookup_insert_eq.
  unfold on_connection_state. apply st_wp_if; intros Ef.
  - rewrite Ef. cbn [reg_remove_if]. eapply st_wp_mono; [exact (remove_of_spec k_push p s' m1 Hok1 Hs1)|].
    intros _ m' (H1 & H2 & [H3 H4] & H5). pose proof Hsame as (T1 & T2 & T3).
    split; [done|]. split; [by rewrite H2, Hreg1, T2, T3|].
    destruct (rs_type s') eqn:Et.
    + left. split; [|split; [done|by apply bool_decide_eq_true in Ef]]. apply H5. by apply (ok_registered m1 Hok1).
    + right. exists s'. split; [apply H4; congruence|]. by split.
  - rewrite Ef. split; [done|]. split; [exact Hreg1|]. right. by exists s'.
Qed.

Lemma stream_on_states_spec p states s m :
  sm_ok m -> sm_heap m !! p = Some s ->
  safe (stream_on_states p states) (fun _ m' =>
    sm_ok m' /\ registered m' =
      reg_remove_if (fails_from (rs_state s) states) k_push (rs_uid s) (rs_stream_name s) (registered m)) m.
Proof.
  revert s m. induction states as [|st states IH]; intros s m Hok Hs; [by apply st_wp_ret|].
  cbn [stream_on_states]. apply st_wp_bind. eapply st_wp_mono; [by apply stream_on_state_spec|].
  intros _ m1 (Hok1 & Hreg1 & Hlive).
  assert (Hif : registered m1 = reg_remove_if (fails_from (rs_state s) [st]) k_push (rs_uid s)
    (rs_stream_name s) (registered m)) by exact Hreg1.
  destruct Hlive as [(Hdead & Hne & ->)|(s' & Hs' & (_ & U & N) & Est)].
  - assert (Hnone : forall m2, m2 = m1 -> safe (stream_on_states p states) (fun _ m' => m' = m1) m2).
    { intros m2 ->. clear -Hdead. induction states as [|x states IH]; [done|]. cbn [stream_on_states].
      apply st_wp_bind. unfold stream_on_connection_state. apply st_wp_bind, st_wp_get. rewrite Hdead. exact IH. }
    eapply st_wp_mono; [by apply Hnone|]. intros _ m' ->. split; [done|]. rewrite Hif.
    cbn [fails_from]. by rewrite (bool_decide_false _ Hne).
  - eapply st_wp_mono; [by apply IH|]. intros _ m' (Hok' & Hreg'). split; [done|].
    rewrite Hreg', U, N, Est, Hif. cbn [fails_from]. case_bool_decide as E.
    + cbn. by rewrite E.
    + rewrite orb_false_r. destruct (bool_decide (st = pc_failed)); cbn; [|done].
      destruct (fails_from st states); cbn; [|done]. apply reg_remove_twice.
Qed.

Lemma set_remote_spec p sdp s m :
  sm_ok m -> sm_heap m !! p = Some s ->
  safe (stream_set_remote_sdp p sdp) (fun _ m' =>
    sm_ok m' /\ exists r states pc, peer_set_remote_sdp sdp (rs_pc s) = Done (r, states, pc) /\
    registered m' =
      reg_remove_if (fails_from (rs_state s) states) k_push (rs_uid s) (rs_stream_name s) (registered m)) m.
Proof.
  intros Hok Hs. apply st_wp_bind. eapply safe_peer; [exact Hs| | |].
  - intros u. destruct (peer_set_remote_sdp sdp (rs_pc s)) as [[[r l] pc]| |u'] eqn:E; [done|done|].
    intros [= <-]. exists (rs_pc s). right. left. by exists sdp.
  - intros e. destruct (peer_set_remote_sdp sdp (rs_pc s)) as [[[r l] pc]|e'|] eqn:E; [done| |done].
    intros [= <-]. exists (rs_pc s). right. left. by exists sdp.
  - intros [r states] pc. destruct (peer_set_remote_sdp sdp (rs_pc s)) as [[[r' l] pc']| |] eqn:E; [|done..].
    intros [= -> -> ->]. destruct (put_stream_ok p s (set_pc pc s) m Hok Hs) as [Hok1 Hreg1]; [done|].
    apply st_wp_bind. eapply st_wp_mono; [eapply stream_on_states_spec; [exact Hok1|apply lookup_insert_eq]|].
    intros _ m' [Hok' Hreg']. apply st_wp_ret. split; [done|]. exists r, states, pc. split; [done|].
    by rewrite Hreg', Hreg1.
Qed.

Lemma ice_timeout_spec p s m :
  sm_ok m -> sm_heap m !! p = Some s ->
  safe (ice_timeout_cb p) (fun _ m' => sm_ok m' /\ registered m' =
    reg_remove_if (negb (bool_decide (rs_state s = pc_connected))) (rs_type s) (rs_uid s) (rs_stream_name s)
      (registered m)) m.
Proof.
  intros Hok Hs. apply st_wp_bind. eapply safe_at; [exact Hs|]. apply st_wp_bind, st_wp_put.
  destruct (put_stream_ok p s (set_ice_timeout false s) m Hok Hs) as [Hok1 Hreg1]; [done|].
  apply st_wp_if; intros ->; [|by split]. apply st_wp_bind. eapply safe_at; [apply lookup_insert_eq|].
  cbn [rs_type set_ice_timeout reg_remove_if].
  eapply st_wp_mono; [exact (remove_of_spec (rs_type s) p (set_ice_timeout false s) _ Hok1 ltac:(apply lookup_insert_eq))|].
  intros _ m' (H1 & H2 & _). split; [done|]. by rewrite H2, Hreg1.
Qed.

(** Sending changes the object of one stream only. *)
Lemma send_spec q s (f : P -> outcome (Z * P)) m :
  sm_ok m -> sm_heap m !! q = Some s ->
  (forall u, f (rs_pc s) = Undef u -> peer_undef u) -> (forall e, f (rs_pc s) = Throws e -> peer_throws e) ->
  safe (_ ← with_peer q f; mret ()) (fun _ m' => sm_ok m' /\ registered m' = registered m) m.
Proof.
  intros Hok Hs Hu He. apply st_wp_bind. eapply safe_peer; [exact Hs|exact Hu|exact He|].
  intros a pc _. by apply (put_stream_ok q s (set_pc pc s) m Hok Hs).
Qed.

Lemma on_rtp_spec p s data m :
  sm_ok m -> sm_heap m !! p = Some s ->
  safe (on_rtp_packet_received p data) (fun _ m' => sm_ok m' /\ registered m' = registered m) m.
Proof.
  intros Hok Hs. apply st_wp_bind. eapply safe_at; [exact Hs|]. destruct (rs_type s); [|by apply st_wp_ret].
  apply st_wp_bind, st_wp_get. destruct (sm_pull_streams m !! rs_stream_name s) as [q|] eqn:Eq; [|by apply st_wp_ret].
  destruct (ok_table m Hok k_pull _ _ Eq) as (x & Hx & _). eapply send_spec; [done|exact Hx| |].
  - intros u Hu. exists (rs_pc x). right. right. left. by exists data.
  - intros e He. exists (rs_pc x). right. right. left. by exists data.
Qed.

Lemma on_rtcp_spec p s data m :
  sm_ok m -> sm_heap m !! p = Some s ->
  safe (on_rtcp_packet_received p data) (fun _ m' => sm_ok m' /\ registered m' = registered m) m.
Proof.
  intros Hok Hs. apply st_wp_bind. eapply safe_at; [exact Hs|].
  set (t := match rs_type s with k_push => k_pull | k_pull => k_push end).
  assert (Hget : safe (match rs_type s with
      | k_push => find_pull_stream (rs_stream_name s) | k_pull => find_push_stream (rs_stream_name s) end)
    (fun o m' => m' = m /\ o = sm_streams t m !! rs_stream_name s) m) by (unfold t; by destruct (rs_type s)).
  apply st_wp_bind. eapply st_wp_mono; [exact Hget|]. intros o m1 [-> ->].
  destruct (sm_streams t m !! rs_stream_name s) as [q|] eqn:Eq; [|by apply st_wp_ret].
  destruct (ok_table m Hok t _ _ Eq) as (x & Hx & _). eapply send_spec; [done|exact Hx| |].
  - intros u Hu. exists (rs_pc x). right. right. right. by exists data.
  - intros e He. exists (rs_pc x). right. right. right. by exists data.
Qed.

(** The offer of a new stream. *)
Lemma offer_spec p s m :
  sm_ok m -> sm_heap m !! p = Some s ->
  safe (with_peer p (peer_create_offer (offer_options s))) (fun _ m' =>
    exists pc, m' = sm_set_heap <[p := set_pc pc s]> m /\ sm_ok m' /\ registered m' = registered m) m.
Proof.
  intros Hok Hs. eapply safe_peer; [exact Hs| | |].
  - intros u Hu. exists (rs_pc s). left. by eexists.
  - intros e He. exists (rs_pc s). left. by eexists.
  - intros a pc _. exists pc. split; [done|]. by apply (put_stream_ok p s (set_pc pc s) m Hok Hs).
Qed.

Lemma create_push_spec uid name audio video cert m :
  sm_ok m ->
  safe (create_push_stream uid name audio video cert) (fun r m' =>
    fst r = 0 /\ sm_ok m' /\ registered m' = reg_set k_push <[name := uid]> (registered m)) m.
Proof.
  intros Hok. apply st_wp_bind, st_wp_get. apply st_wp_bind.
  apply (st_wp_mono peer_throws peer_undef _ (fun _ m1 => sm_ok m1 /\ sm_push_streams m1 !! name = None /\
    reg_set k_push <[name := uid]> (registered m1) = reg_set k_push <[name := uid]> (registered m))).
  - destruct (sm_push_streams m !! name) as [p|] eqn:Ep; [|by apply st_wp_ret].
    destruct (ok_table m Hok k_push name p Ep) as (s & Hs & _). apply st_wp_bind, st_wp_put.
    eapply safe_delete; [exact Hs|]. destruct (delete_stream_ok k_push name p s m Hok Ep Hs) as [H1 H2].
    split; [exact H1|]. split; [apply lookup_delete_eq|].
    change (sm_set_heap (delete p) (sm_set_push (delete name) m))
      with (sm_set_heap (delete p) (sm_set k_push (delete name) m)). rewrite H2. cbn.
    by rewrite insert_delete_eq.
  - intros _ m1 (Hok1 & Hfree & Hreg1). apply st_wp_bind, safe_new, st_wp_bind, st_wp_put.
    destruct (new_stream_ok (stream_start cert (new_stream k_push uid name audio video)) m1 Hok1)
      as (Hok2 & Hs2 & Hreg2); [by left|].
    apply st_wp_bind. eapply safe_at; [exact Hs2|]. apply st_wp_bind.
    eapply st_wp_mono; [exact (offer_spec _ _ _ Hok2 Hs2)|]. intros offer m' (pc & _ & Hok' & Hreg').
    apply st_wp_ret. split; [done|]. split; [done|]. rewrite Hreg', Hreg2. exact Hreg1.
Qed.

(** A pull stream needs a push stream of its name; another user's pull stream
    of that name is only taken out of the table. *)
Lemma create_pull_spec uid name audio video cert m :
  sm_ok m ->
  safe (create_pull_stream uid name audio video cert) (fun r m' =>
    sm_ok m' /\ fst r = (if bool_decide (is_Some (reg_push (registered m) !! name)) then 0 else -1) /\
    registered m' = if bool_decide (is_Some (reg_push (registered m) !! name))
                    then reg_set k_pull <[name := uid]> (registered m) else registered m) m.
Proof.
  intros Hok. apply st_wp_bind, st_wp_get. assert (Hl : reg_push (registered m) !! name = p ← sm_push_streams m !! name; rs_uid <$> sm_heap m !! p)
    by exact (registered_lookup k_push m name).
  rewrite Hl. destruct (sm_push_streams m !! name) as [p|] eqn:Ep.
  2: { apply st_wp_ret. split; [done|]. rewrite bool_decide_false; [done|]. intros [? [=]]. }
  destruct (ok_table m Hok k_push name p Ep) as (push & Hp & Et & _). cbn. rewrite Hp. cbn.
  apply st_wp_bind.
  eapply st_wp_mono; [exact (remove_stream_spec k_pull uid name m Hok)|].
  intros _ m1 (Hok1 & Hreg1 & [_ Hkeep] & _). apply st_wp_bind.
  eapply safe_at; [apply (Hkeep p push Hp); by rewrite Et|].
  set (s := set_pc (peer_add_video_source _ _) _). apply st_wp_bind, safe_new.
  (* the table is changed last; the offer does not read it *)
  destruct (new_stream_ok (stream_start cert s) m1 Hok1) as (Hok2 & Hs2 & Hreg2); [by right|].
  set (p' := sm_next m1) in *. set (m2 := mkManager _ _ _ _).
  assert (Hs : sm_heap m2 !! p' = Some (stream_start cert s)) by apply lookup_insert_eq.
  apply st_wp_bind. eapply safe_at; [exact Hs|]. apply st_wp_bind.
  eapply safe_peer; [exact Hs| | |].
  { intros u Hu. eexists. left. by eexists. }
  { intros e He. eexists. left. by eexists. }
  intros offer pc _. apply st_wp_bind, st_wp_put, st_wp_ret.
  destruct (put_stream_ok p' _ (set_pc pc (stream_start cert s)) _ Hok2 Hs2) as [Hok3 Hreg3]; [done|].
  split; [exact Hok3|]. split; [done|]. etransitivity; [exact Hreg3|]. rewrite Hreg2, Hreg1.
  unfold reg_remove. case_bool_decide; [|done]. cbn. by rewrite insert_delete_eq.
Qed.

(** ** The registry as the specification *)

Inductive reg_event : Type :=
  | RegPush (uid : Z) (name : bytes)
  | RegPull (uid : Z) (name : bytes)
  | RegStop (t : RtcStreamType) (uid : Z) (name : bytes)
  | RegNone.

Definition reg_step (e : reg_event) (R : registry) : registry :=
  match e with
  | RegPush uid name => reg_set k_push <[name := uid]> R
  | RegPull uid name => if bool_decide (is_Some (reg_push R !! name)) then reg_set k_pull <[name := uid]> R else R
  | RegStop t uid name => reg_remove t uid name R
  | RegNone => R
  end.

Definition answer_type (ty : bytes) : option RtcStreamType :=
  if bool_decide (ty = str "push") then Some k_push
  else if bool_decide (ty = str "pull") then Some k_pull else None.

(** A failed connection gives up the push stream of its user and name, also
    when it is the connection of a pull stream. *)
Definition failed_event (b : bool) s : reg_event :=
  if b then RegStop k_push (rs_uid s) (rs_stream_name s) else RegNone.

Definition event_of (i : stream_input P) m : reg_event :=
  match i with
  | InCreatePush uid name _ _ _ => RegPush uid name
  | InCreatePull uid name _ _ _ => RegPull uid name
  | InStopPush uid name => RegStop k_push uid name
  | InStopPull uid name => RegStop k_pull uid name
  | InState p st =>
      match sm_heap m !! p with Some s => failed_event (fails_from (rs_state s) [st]) s | None => RegNone end
  | InTimeout p =>
      match sm_heap m !! p with
      | Some s => if bool_decide (rs_state s = pc_connected) then RegNone
                  else RegStop (rs_type s) (rs_uid s) (rs_stream_name s)
      | None => RegNone
      end
  | InAnswer uid name answer ty =>
      match (t ← answer_type ty; p ← sm_streams t m !! name; sm_heap m !! p) with
      | Some s =>
          if uid =? rs_uid s then
            match peer_set_remote_sdp answer (rs_pc s) with
            | Done (_, states, _) => failed_event (fails_from (rs_state s) states) s
            | _ => RegNone
            end
          else RegNone
      | None => RegNone
      end
  | InRtp _ _ | InRtcp _ _ | InPeer _ _ => RegNone
  end.

(** The result code of a request, by the registry alone. *)
Definition result_of (i : stream_input P) (R : registry) : Z :=
  match i with
  | InCreatePull _ name _ _ _ => if bool_decide (is_Some (reg_push R !! name)) then 0 else -1
  | InAnswer uid name _ ty =>
      match answer_type ty with
      | Some t => if bool_decide (reg_table t R !! name = Some uid) then 0 else -1
      | None => 0
      end
  | _ => 0
  end.

Lemma failed_event_step b s R :
  reg_step (failed_event b s) R = reg_remove_if b k_push (rs_uid s) (rs_stream_name s) R.
Proof. by destruct b. Qed.

Lemma answer_to_spec t uid name answer m :
  sm_ok m ->
  safe (o ← get (fun m => sm_streams t m !! name);
    match o with
    | None => mret (-1)
    | Some p => s ← stream_at p; if negb (uid =? rs_uid s) then mret (-1)
                else _ ← stream_set_remote_sdp p answer; mret 0
    end) (fun r m' => sm_ok m' /\
      r = (if bool_decide (reg_table t (registered m) !! name = Some uid) then 0 else -1) /\
      registered m' = reg_step
        match (p ← sm_streams t m !! name; sm_heap m !! p) with
        | Some s =>
            if uid =? rs_uid s then
              match peer_set_remote_sdp answer (rs_pc s) with
              | Done (_, states, _) => failed_event (fails_from (rs_state s) states) s
              | _ => RegNone
              end
            else RegNone
        | None => RegNone
        end (registered m)) m.
Proof.
  intros Hok. apply st_wp_bind, st_wp_get. rewrite registered_lookup.
  destruct (sm_streams t m !! name) as [p|] eqn:Ep; [|by apply st_wp_ret].
  destruct (ok_table m Hok t name p Ep) as (s & Hs & _). cbn [mbind option_bind]. rewrite Hs. cbn [fmap option_fmap option_map].
  apply st_wp_bind. eapply safe_at; [exact Hs|]. destruct (uid =? rs_uid s) eqn:Eu; cbn [negb].
  - apply Z.eqb_eq in Eu. apply st_wp_bind. eapply st_wp_mono; [exact (set_remote_spec p answer s m Hok Hs)|].
    intros _ m' (Hok' & r & states & pc & E & Hreg). apply st_wp_ret. rewrite E.
    split; [done|]. split; [rewrite bool_decide_true; [done|congruence]|]. by rewrite failed_event_step.
  - apply Z.eqb_neq in Eu. apply st_wp_ret. split; [done|]. rewrite bool_decide_false; [done|congruence].
Qed.

Lemma handle_spec i m :
  sm_ok m -> stream_input_ok i m = true ->
  safe (stream_handle i) (fun r m' => sm_ok m' /\ fst r = result_of i (registered m) /\
    registered m' = reg_step (event_of i m) (registered m)) m.
Proof.
  intros Hok Hi. destruct i as [uid name audio video cert|uid name audio video cert|uid name answer ty|uid name
    |uid name|p st|p|p data|p data|p pc]; cbn [stream_handle event_of result_of stream_input_ok] in *;
    try (apply bool_decide_eq_true in Hi as [s Hs]); try rewrite Hs.
  - eapply st_wp_mono; [by apply create_push_spec|]. cbn. tauto.
  - eapply st_wp_mono; [by apply create_pull_spec|]. cbn. tauto.
  - apply st_wp_bind. unfold set_answer, answer_type. case_bool_decide.
    { eapply st_wp_mono; [exact (answer_to_spec k_push uid name answer m Hok)|]. intros r m' H'. exact H'. }
    case_bool_decide; [|by apply st_wp_ret].
    eapply st_wp_mono; [exact (answer_to_spec k_pull uid name answer m Hok)|]. intros r m' H'. exact H'.
  - apply st_wp_bind, st_wp_bind. eapply st_wp_mono; [exact (remove_stream_spec k_push uid name m Hok)|].
    intros _ m' (H1 & H2 & _). by split.
  - apply st_wp_bind, st_wp_bind. eapply st_wp_mono; [exact (remove_stream_spec k_pull uid name m Hok)|].
    intros _ m' (H1 & H2 & _). by split.
  - apply st_wp_bind. eapply st_wp_mono; [exact (stream_on_state_spec p st s m Hok Hs)|].
    intros _ m' (H1 & H2 & _). apply st_wp_ret. split; [done|]. split; [done|]. by rewrite failed_event_step.
  - destruct (sm_heap m !! p) as [s|] eqn:Hs; [|done]. apply st_wp_bind.
    eapply st_wp_mono; [exact (ice_timeout_spec p s m Hok Hs)|]. intros _ m' (H1 & H2). apply st_wp_ret.
    split; [done|]. split; [done|]. rewrite H2. by case_bool_decide.
  - apply st_wp_bind. eapply st_wp_mono; [exact (on_rtp_spec p s data m Hok Hs)|]. intros _ m' [H1 H2]. by split.
  - apply st_wp_bind. eapply st_wp_mono; [exact (on_rtcp_spec p s data m Hok Hs)|]. intros _ m' [H1 H2]. by split.
  - apply st_wp_bind. eapply safe_at; [exact Hs|]. apply st_wp_bind, st_wp_put, st_wp_ret.
    destruct (put_stream_ok p s (set_pc pc s) m Hok Hs) as [H1 H2]; [done|]. by split.
Qed.

Lemma new_manager_ok : sm_ok new_manager.
Proof. split; [by intros []|done|done]. Qed.

Lemma reachable_ok m : streams_reachable m -> sm_ok m.
Proof.
  induction 1 as [|m i r m' _ IH Hi E]; [apply new_manager_ok|].
  pose proof (handle_spec i m IH Hi) as Hs. unfold wp in Hs. rewrite E in Hs. apply Hs.
Qed.
End theory.
Arguments registry : clear implicits.

(** C11: the stream manager never follows a dangling pointer.  In every state
    reached by requests and by what live streams report, the two tables lead
    to live streams of their kind and name, every live push stream is in its
    table, and each further request or report ends normally, or as the
    operation of a peer connection that it makes does: no stream is used
    after it was deleted or deleted twice, although streams delete each other
    and themselves while they report. *)
Theorem streams_safe {P : Type} `{PeerI P} (i : stream_input P) (m : StreamManager P) :
  streams_reachable m -> stream_input_ok i m = true ->
  sm_ok m /\
  match stream_handle i m with
  | Done (_, m') => sm_ok m'
  | Throws e => peer_throws (P := P) e
  | Undef u => peer_undef (P := P) u
  end.
Proof.
  intros Hr Hi. pose proof (reachable_ok m Hr) as Hok. split; [done|].
  pose proof (handle_spec i m Hok Hi) as Hs. unfold wp in Hs.
  destruct (stream_handle i m) as [[r m']| |]; [|done..]. apply Hs.
Qed.

(** C9: the stream manager implements a registry of who owns which stream
    name.  Publishing takes a name over from whoever had it; pulling needs a
    publisher and takes the pull side of the name over; stopping, the 30 s
    timeout of a stream that is not connected and a failed connection give a
    name up only if it still belongs to their user; and a failed connection
    gives up the push side of its user and name, even when it was the
    connection of a pull stream.  The result codes depend on the registry
    alone: an answer is refused unless the name belongs to its user, and a
    pull without a publisher. *)
Theorem streams_registry {P : Type} `{PeerI P} (i : stream_input P) (m m' : StreamManager P) (r : Z * bytes) :
  streams_reachable m -> stream_input_ok i m = true -> stream_handle i m = Done (r, m') ->
  registered m' = reg_step (event_of i m) (registered m) /\ fst r = result_of i (registered m).
Proof.
  intros Hr Hi E. pose proof (handle_spec i m (reachable_ok m Hr) Hi) as Hs. unfold wp in Hs.
  rewrite E in Hs. split; apply Hs.
Qed.

(** ** Examples *)

Fixpoint stream_run {P : Type} `{PeerI P} (ins : list (stream_input P)) (m : StreamManager P)
    : option (StreamManager P) :=
  match ins with
  | [] => Some m
  | i :: ins =>
      if stream_input_ok i m then
        match stream_handle i m with Done (_, m') => stream_run ins m' | _ => None end
      else None
  end.

Lemma stream_run_reachable {P : Type} `{PeerI P} ins (m m' : StreamManager P) :
  streams_reachable m -> stream_run ins m = Some m' -> streams_reachable m'.
Proof.
  revert m. induction ins as [|i ins IH]; intros m Hr; cbn [stream_run]; [by intros [= <-]|].
  destruct (stream_input_ok i m) eqn:Hi; [|done].
  destruct (stream_handle i m) as [[r m1]| |] eqn:E; [|done..]. apply IH. by eapply streams_step.
Qed.

#[local] Existing Instance toy_srtp.
#[local] Existing Instance toy_dtls.
#[local] Existing Instance example_channel.
#[local] Existing Instance example_media.

Definition example_peer : PeerI (PeerConnection IceTypes.world media) :=
  peer_connection example_ntop example_cert example_credentials k_inactive.
#[local] Existing Instance example_peer.

(** A publisher whose peer mirrors the offer, and a viewer of the same user. *)
Definition example_requests : list (stream_input (PeerConnection IceTypes.world media)) :=
  [InCreatePush 7 (str "room") true true (Some 1);
   InAnswer 7 (str "room") (fst example_offer) (str "push");
   InCreatePull 7 (str "room") true true (Some 1)].

Definition example_manager : StreamManager (PeerConnection IceTypes.world media) :=
  match stream_run example_requests new_manager with Some m => m | None => new_manager end.

Lemma example_manager_reachable : streams_reachable example_manager.
Proof.
  apply (stream_run_reachable example_requests new_manager); [apply streams_new|]. by vm_compute.
Qed.

Lemma streams_safe_witness :
  stream_input_ok (InState 1%nat pc_failed) example_manager = true /\ sm_ok example_manager /\
  match stream_handle (InState 1%nat pc_failed) example_manager with
  | Done (_, m') => sm_ok m'
  | Throws e => peer_throws (P := PeerConnection IceTypes.world media) e
  | Undef u => peer_undef (P := PeerConnection IceTypes.world media) u
  end.
Proof.
  assert (Hi : stream_input_ok (InState 1%nat pc_failed) example_manager = true) by (by vm_compute).
  split; [exact Hi|].
  exact (streams_safe (InState 1%nat pc_failed) example_manager example_manager_reachable Hi).
Defined.

(** The viewer's connection fails: the publisher is thrown out and the viewer
    stays. *)
Definition example_failed : StreamManager (PeerConnection IceTypes.world media) :=
  match stream_handle (InState 1%nat pc_failed) example_manager with Done (_, m) => m | _ => new_manager end.

Lemma streams_registry_witness :
  rs_type <$> sm_heap example_manager !! 1%nat = Some k_pull /\
  registered example_failed = mkReg ∅ {[str "room" := 7]}.
Proof.
  split; [by vm_compute|].
  etrans; [apply (proj1 (streams_registry (InState 1%nat pc_failed) example_manager example_failed (0, [])
    example_manager_reachable ltac:(by vm_compute) ltac:(by vm_compute)))|].
  by vm_compute.
Defined.
