(* ===== verification/Signaling.v ===== *)
(** * The signaling worker (server/signaling_worker.cpp, server/tcp_connection.h, base/xhead.h)

    Requests arrive over TCP as a 36-byte head and a JSON body and are turned
    into messages for the RTC server; its answers become replies.  jsoncpp is
    the parameter [JsonLib].  Connections are named by their addresses, which
    the allocator may hand out again.  The head is a struct in the memory of a
    little-endian host. *)

From S2P Require Import Prelude StringEncode Sds ByteBuffer State.
Local Open Scope Z_scope.

(** What [CharReader::parse] does with a text: it gives the root, or it leaves a
    message in [err], or it throws, when the text is nested deeper than the
    reader's [stackLimit] (json/reader.h). *)
Inductive parsed (value : Type) : Type :=
  | JsonRoot (root : value)
  | JsonError
  | JsonThrows.
Arguments JsonRoot {value} _.
Arguments JsonError {value}.
Arguments JsonThrows {value}.

(** What the code uses of jsoncpp; [None] of an accessor is an exception, which
    the callers of accessors catch. *)
Class JsonLib : Type := {
  json_value : Type;
  json_parse : bytes -> parsed json_value;
  json_as_int : json_value -> bytes -> option Z;
  json_as_uint64 : json_value -> bytes -> option Z;
  json_as_string : json_value -> bytes -> option bytes;
  (** the text of [err_no], [err_msg] and, where there is one, [offer] *)
  json_result : Z -> bytes -> option bytes -> bytes;
}.

Definition CMDNO_PUSH : Z := 1.
Definition CMDNO_PULL : Z := 2.
Definition CMDNO_ANSWER : Z := 3.
Definition CMDNO_STOP_PUSH : Z := 4.
Definition CMDNO_STOPPULL : Z := 5.
Definition MAX_RES_BUF : nat := 4096.

Definition XHEAD_SIZE : nat := 36.
Definition XHEAD_MAGIC_NUM : Z := 0xfb202507.

(** The fields of [xhead_t] in a buffer that holds one. *)
Definition le32_at (data : bytes) (pos : nat) : outcome Z :=
  bs ← read_at data pos 4; Done (be_decode (rev bs)).
Definition head_magic_num (data : bytes) : outcome Z := le32_at data 24.
Definition head_body_len (data : bytes) : outcome Z := le32_at data 32.
Definition le32 (z : Z) : bytes := rev (be_encode 4 z).

Record RtcMsg : Type := mkRtcMsg {
  rm_cmdno : Z;
  rm_uid : Z;
  rm_stream_name : bytes;
  rm_stream_type : bytes;
  rm_audio : Z;
  rm_video : Z;
  rm_log_id : Z;
  rm_worker : option Z;
  rm_conn : option nat;
  rm_fd : Z;
  rm_sdp : bytes;
  rm_err_no : Z;
  rm_certificate : option Z;
}.

(** A reply: the initialised bytes of its buffer, and the size of the slice. *)
Record reply : Type := mkReply { rp_buf : bytes; rp_size : nat }.

(** The bytes of a reply from [pos] on, as they are handed to [write]. *)
Definition reply_from (r : reply) (pos : nat) : outcome bytes :=
  if bool_decide (rp_size r <= length (rp_buf r))%nat then Done (drop pos (take (rp_size r) (rp_buf r)))
  else if bool_decide (rp_size r <= XHEAD_SIZE + MAX_RES_BUF)%nat then Undef uninitialised
  else Undef out_of_bounds.

(** The head with its [body_len] replaced, then the text as far as it fits:
    [snprintf] prints a string up to its first zero.  The size of the slice is a
    sum of [uint32_t]. *)
Definition make_reply (header json : bytes) : reply :=
  let body_len := u32 (Z.of_nat (length json)) in
  mkReply (take 32 header ++ le32 body_len ++ take (MAX_RES_BUF - 1) (c_str json) ++ [x00])
    (Z.to_nat (u32 (Z.of_nat XHEAD_SIZE + body_len))).

Inductive conn_state : Type := STATE_HEAD | STATE_BODY.

#[export] Instance conn_state_eq_dec : EqDecision conn_state.
Proof. solve_decision. Defined.

Record TCPConnection : Type := mkTcp {
  c_fd : Z;
  c_querybuf : bytes;
  c_current_state : conn_state;
  c_bytes_expected : Z;
  c_bytes_processed : Z;
  c_last_interaction : Z;
  c_reply_list : list reply;
  c_cur_resp_pos : nat;
  c_write_event : bool;  (* the watcher of the connection waits to write *)
}.

Definition new_TCPConnection (fd now : Z) : TCPConnection :=
  mkTcp fd [] STATE_HEAD (Z.of_nat XHEAD_SIZE) 0 now [] 0 false.

Definition c_touch (now : Z) (c : TCPConnection) : TCPConnection :=
  mkTcp (c_fd c) (c_querybuf c) (c_current_state c) (c_bytes_expected c) (c_bytes_processed c) now
    (c_reply_list c) (c_cur_resp_pos c) (c_write_event c).
Definition c_append (data : bytes) (c : TCPConnection) : TCPConnection :=
  mkTcp (c_fd c) (c_querybuf c ++ data) (c_current_state c) (c_bytes_expected c) (c_bytes_processed c)
    (c_last_interaction c) (c_reply_list c) (c_cur_resp_pos c) (c_write_event c).
Definition c_progress (st : conn_state) (expected processed : Z) (c : TCPConnection) : TCPConnection :=
  mkTcp (c_fd c) (c_querybuf c) st expected processed (c_last_interaction c) (c_reply_list c)
    (c_cur_resp_pos c) (c_write_event c).
Definition c_replies (l : list reply) (pos : nat) (event : bool) (c : TCPConnection) : TCPConnection :=
  mkTcp (c_fd c) (c_querybuf c) (c_current_state c) (c_bytes_expected c) (c_bytes_processed c)
    (c_last_interaction c) l pos event.

(** [_add_reply] *)
Definition add_reply (r : reply) (c : TCPConnection) : TCPConnection :=
  c_replies (c_reply_list c ++ [r]) (c_cur_resp_pos c) true c.

Section worker.
Context `{JsonLib}.
Variable worker_id : Z.
Variable connection_timeout : Z.
(** Whether the RTC server could be notified through its pipe. *)
Variable notified : bool.

(** ** Requests *)

(** [g_rtc_server->send_rtc_msg(msg)]: the message is queued in any case. *)
Definition send_rtc_msg (msg : RtcMsg) : Z * list RtcMsg := (if notified then 0 else -1, [msg]).

Definition no_message : Z * list RtcMsg := (-1, []).

(** [_process_push] and [_process_pull], which are the same but for logging. *)
Definition process_push_pull (cmdno : Z) (a : nat) (fd : Z) (root : json_value) (log_id : Z)
    : Z * list RtcMsg :=
  default no_message
    (uid ← json_as_uint64 root (str "uid");
     stream_name ← json_as_string root (str "stream_name");
     audio ← json_as_int root (str "audio");
     video ← json_as_int root (str "video");
     Some (send_rtc_msg (mkRtcMsg cmdno uid stream_name [] audio video log_id (Some worker_id) (Some a) fd [] 0 None))).

(** [_process_stop_push] and [_process_stop_pull]. *)
Definition process_stop (cmdno : Z) (root : json_value) (log_id : Z) : Z * list RtcMsg :=
  default no_message
    (uid ← json_as_uint64 root (str "uid");
     stream_name ← json_as_string root (str "stream_name");
     Some (send_rtc_msg (mkRtcMsg cmdno uid stream_name [] 0 0 log_id None None (-1) [] 0 None))).

Definition process_answer (cmdno : Z) (root : json_value) (log_id : Z) : Z * list RtcMsg :=
  default no_message
    (uid ← json_as_uint64 root (str "uid");
     stream_name ← json_as_string root (str "stream_name");
     answer ← json_as_string root (str "answer");
     stream_type ← json_as_string root (str "type");
     Some (send_rtc_msg (mkRtcMsg cmdno uid stream_name stream_type 0 0 log_id None None (-1) answer 0 None))).

(** [_process_request]: the result, the messages sent and the reply.  The parser
    is called outside the [try]: its exception is caught nowhere and ends the
    process. *)
Definition process_request (a : nat) (fd : Z) (header body : bytes)
    : outcome (Z * list RtcMsg * option reply) :=
  match json_parse body with
  | JsonThrows => Throws json_exception
  | JsonError => Done (-1, [], None)
  | JsonRoot root =>
      match json_as_int root (str "cmdno") with
      | None => Done (-1, [], None)
      | Some cmdno =>
          log_id ← le32_at header 4;
          if (cmdno =? CMDNO_PUSH) || (cmdno =? CMDNO_PULL) then
            Done (process_push_pull cmdno a fd root log_id, None)
          else
            let '(ret, msgs) :=
              if (cmdno =? CMDNO_STOP_PUSH) || (cmdno =? CMDNO_STOPPULL) then process_stop cmdno root log_id
              else if cmdno =? CMDNO_ANSWER then process_answer cmdno root log_id
              else no_message in
            let json := if ret =? 0 then json_result 0 (str "success") None
                        else json_result (-1) (str "process error") None in
            Done (0, msgs, Some (make_reply header json))
      end
  end.

(** The loop of [_process_query_buffer]; [None]: not over after [fuel] turns. *)
Fixpoint process_query_buffer (fuel : nat) (a : nat) (c : TCPConnection)
    : outcome (option (Z * list RtcMsg * TCPConnection)) :=
  match fuel with
  | O => Done None
  | S fuel =>
      if Z.of_nat (length (c_querybuf c)) <? c_bytes_processed c + c_bytes_expected c then Done (Some (0, [], c))
      else
        match c_current_state c with
        | STATE_HEAD =>
            magic_num ← head_magic_num (c_querybuf c);
            if negb (XHEAD_MAGIC_NUM =? magic_num) then Done (Some (-1, [], c))
            else
              body_len ← head_body_len (c_querybuf c);
              process_query_buffer fuel a (c_progress STATE_BODY body_len (Z.of_nat XHEAD_SIZE) c)
        | STATE_BODY =>
            header ← read_at (c_querybuf c) 0 XHEAD_SIZE;
            body_len ← head_body_len (c_querybuf c);
            body ← read_at (c_querybuf c) XHEAD_SIZE (Z.to_nat body_len);
            '(ret, msgs, o) ← process_request a (c_fd c) header body;
            let c := match o with Some r => add_reply r c | None => c end in
            if negb (ret =? 0) then Done (Some (-1, msgs, c))
            else
              r ← process_query_buffer fuel a (c_progress STATE_BODY (c_bytes_expected c) 65535 c);
              Done ('(ret, msgs', c) ← r; Some (ret, msgs ++ msgs', c))
        end
  end.

(** ** The worker *)

Inductive sw_event : Type :=
  | SwRtcMsg (msg : RtcMsg)
  | SwClosed (fd : Z)
  | SwSent (fd : Z) (data : bytes).

Record SignalingWorker : Type := mkWorker {
  sw_heap : gmap nat TCPConnection;
  sw_conns : list (option nat);
  sw_q_msg : list RtcMsg;
  sw_out : list sw_event;
}.

Definition new_worker : SignalingWorker := mkWorker ∅ [] [] [].

Definition sw_set_heap (f : gmap nat TCPConnection -> gmap nat TCPConnection) (w : SignalingWorker) : SignalingWorker :=
  mkWorker (f (sw_heap w)) (sw_conns w) (sw_q_msg w) (sw_out w).
Definition sw_set_conns (f : list (option nat) -> list (option nat)) (w : SignalingWorker) : SignalingWorker :=
  mkWorker (sw_heap w) (f (sw_conns w)) (sw_q_msg w) (sw_out w).
Definition sw_set_q_msg (f : list RtcMsg -> list RtcMsg) (w : SignalingWorker) : SignalingWorker :=
  mkWorker (sw_heap w) (sw_conns w) (f (sw_q_msg w)) (sw_out w).
Definition sw_emit (evs : list sw_event) (w : SignalingWorker) : SignalingWorker :=
  mkWorker (sw_heap w) (sw_conns w) (sw_q_msg w) (sw_out w ++ evs).

Definition SW := St SignalingWorker.

Definition lift {A} (o : outcome A) : SW A := fun w =>
  match o with Done a => Done (a, w) | Throws e => Throws e | Undef u => Undef u end.

Definition tcp_at (a : nat) : SW TCPConnection := fun w =>
  match sw_heap w !! a with Some c => Done (c, w) | None => Undef use_after_free end.
Definition tcp_put (a : nat) (c : TCPConnection) : SW () := put (sw_set_heap <[a := c]>).

(** [_conns[fd]] and its assignment. *)
Definition conns_at (fd : Z) : SW (option nat) := fun w =>
  match sw_conns w !! Z.to_nat fd with Some o => Done (o, w) | None => Undef out_of_bounds end.
Definition conns_put (fd : Z) (o : option nat) : SW () :=
  _ ← conns_at fd; put (sw_set_conns <[Z.to_nat fd := o]>).

Definition valid_fd (lowest fd : Z) : SW bool :=
  n ← get (fun w => length (sw_conns w)); mret ((lowest <=? fd) && (fd <? Z.of_nat n)).

(** [_close_conn] and [_remove_conn]. *)
Definition close_conn (a : nat) : SW () :=
  c ← tcp_at a;
  _ ← put (sw_emit [SwClosed (c_fd c)]);
  _ ← conns_put (c_fd c) None;
  put (sw_set_heap (delete a)).

(** [_new_conn], the connection being allocated at [a]. *)
Definition new_conn (fd : Z) (a : nat) (now : Z) : SW () :=
  if fd <? 0 then mret ()
  else
    _ ← put (sw_set_heap <[a := new_TCPConnection fd now]>);
    _ ← put (sw_set_conns (fun l =>
          if (Z.of_nat (length l) <=? fd) then take (Z.to_nat (fd * 2)) l ++ repeat None (Z.to_nat (fd * 2) - length l)
          else l));
    conns_put fd (Some a).

(** Whether a handler came back. *)
Inductive handled : Type := Returns | Runs_on.

(** [_read_query]; [rd] is what [sock_read_data] found: an error or the end
    ([None]), or bytes.  An expected length that is negative as an [int] is a
    huge size for [sdsMakeRoomFor], which aborts when it cannot be had; when it
    wraps around, [read] is asked for more than there is. *)
Definition read_query (fuel : nat) (fd : Z) (rd : option bytes) (now : Z) : SW handled :=
  ok ← valid_fd 0 fd;
  if negb (ok : bool) then mret Returns
  else
    o ← conns_at fd;
    match o with
    | None => fault null_deref
    | Some a =>
        c ← tcp_at a;
        let read_len := i32 (c_bytes_expected c) in
        if read_len <? 0 then
          _ ← lift (zblock (hdr_size (grown (Z.of_nat (length (c_querybuf c))) (u64 read_len)))); fault out_of_bounds
        else
          let c := c_touch now c in
          match rd with
          | None => _ ← tcp_put a c; _ ← close_conn a; mret Returns
          | Some data =>
              r ← lift (process_query_buffer fuel a (c_append data c));
              match r with
              | None => mret Runs_on
              | Some (ret, msgs, c) =>
                  _ ← tcp_put a c;
                  _ ← put (sw_emit (map SwRtcMsg msgs));
                  _ ← (if ret =? 0 then mret () else close_conn a);
                  mret Returns
              end
          end
    end.

(** The loop of [_write_reply] on the replies and the position in the first,
    with what each [write] returns: the bytes sent, and what is left, or an
    error.  [None]: the loop is not over after the given results. *)
Fixpoint write_loop (results : list Z) (replies : list reply) (pos : nat)
    : outcome (bytes * option (option (list reply * nat))) :=
  match replies with
  | [] => Done ([], Some (Some ([], pos)))
  | r :: rest =>
      match results with
      | [] => Done ([], None)
      | nwritten :: results =>
          data ← reply_from r pos;
          if nwritten =? -1 then Done ([], Some None)
          else if nwritten =? 0 then write_loop results replies pos
          else
            let sent := take (Z.to_nat nwritten) data in
            let '(replies, pos) :=
              if bool_decide (rp_size r <= Z.to_nat nwritten + pos)%nat then (rest, 0%nat)
              else (replies, (pos + Z.to_nat nwritten)%nat) in
            '(more, e) ← write_loop results replies pos;
            Done (sent ++ more, e)
      end
  end.

(** [_write_reply] *)
Definition write_reply (fd : Z) (results : list Z) (now : Z) : SW handled :=
  ok ← valid_fd 1 fd;
  if negb (ok : bool) then mret Returns
  else
    o ← conns_at fd;
    match o with
    | None => mret Returns
    | Some a =>
        c ← tcp_at a;
        '(sent, e) ← lift (write_loop results (c_reply_list c) (c_cur_resp_pos c));
        _ ← put (sw_emit [SwSent fd sent]);
        match e with
        | None => mret Runs_on
        | Some None => _ ← close_conn a; mret Returns
        | Some (Some (replies, pos)) =>
            _ ← tcp_put a (c_touch now (c_replies replies pos false c)); mret Returns
        end
    end.

(** [_process_timeout] *)
Definition process_timeout (a : nat) (now : Z) : SW () :=
  c ← tcp_at a;
  if u64 connection_timeout <=? u64 (now - c_last_interaction c) then close_conn a else mret ().

(** [_response_server_offer] *)
Definition response_server_offer (msg : RtcMsg) : SW () :=
  match rm_conn msg with
  | None => mret ()
  | Some a =>
      ok ← valid_fd 1 (rm_fd msg);
      if negb (ok : bool) then mret ()
      else
        o ← conns_at (rm_fd msg);
        if negb (bool_decide (o = Some a)) then mret ()
        else
          c ← tcp_at a;
          header ← lift (read_at (c_querybuf c ++ [x00]) 0 XHEAD_SIZE);
          let json :=
            if negb (rm_err_no msg =? 0) then json_result (rm_err_no msg) (str "process error") (Some [])
            else json_result (rm_err_no msg) (str "success") (Some (rm_sdp msg)) in
          tcp_put a (add_reply (make_reply header json) c)
  end.

(** [send_rtc_msg] of another thread, and [_process_rtc_msg]. *)
Definition push_msg (msg : RtcMsg) : SW () := put (sw_set_q_msg (fun l => l ++ [msg])).
Definition process_rtc_msg : SW () :=
  q ← get sw_q_msg;
  match q with
  | [] => mret ()
  | msg :: q =>
      _ ← put (sw_set_q_msg (fun _ => q));
      if (rm_cmdno msg =? CMDNO_PUSH) || (rm_cmdno msg =? CMDNO_PULL) then response_server_offer msg
      else mret ()
  end.

(** ** Runs *)

Inductive sw_input : Type :=
  | SwNewConn (fd : Z) (a : nat) (now : Z)
  | SwReadable (fd : Z) (rd : option bytes) (now : Z)
  | SwWritable (fd : Z) (results : list Z) (now : Z)
  | SwPushMsg (msg : RtcMsg)
  | SwNotified
  | SwTimer (a : nat) (now : Z).

Definition sw_handle (fuel : nat) (i : sw_input) : SW handled :=
  match i with
  | SwNewConn fd a now => _ ← new_conn fd a now; mret Returns
  | SwReadable fd rd now => read_query fuel fd rd now
  | SwWritable fd results now => write_reply fd results now
  | SwPushMsg msg => _ ← push_msg msg; mret Returns
  | SwNotified => _ ← process_rtc_msg; mret Returns
  | SwTimer a now => _ ← process_timeout a now; mret Returns
  end.
End worker.
