(* ===== verification/SignalingTheory.v ===== *)
(** * Theory of the signaling worker *)

From S2P Require Import Prelude StringEncode ByteBuffer State Signaling.
Local Open Scope Z_scope.

(** ** Heads *)

Lemma le32_at_Done data pos :
  (pos + 4 <= length data)%nat -> le32_at data pos = Done (be_decode (rev (take 4 (drop pos data)))).
Proof. intros Hl. unfold le32_at. by rewrite read_at_Done. Qed.

Lemma le32_at_range data pos z : le32_at data pos = Done z -> 0 <= z < 2 ^ 32.
Proof.
  unfold le32_at, read_at. case_bool_decide as E; [|done]. cbn [mbind outcome_bind]. intros [= <-].
  assert (Hl : length (rev (take 4 (drop pos data))) = 4%nat).
  { rewrite length_rev, length_take, length_drop. lia. }
  pose proof (be_decode_range (rev (take 4 (drop pos data)))) as Hr. rewrite Hl in Hr. exact Hr.
Qed.

Lemma le32_at_app data more pos :
  (pos + 4 <= length data)%nat -> le32_at (data ++ more) pos = le32_at data pos.
Proof.
  intros Hl. rewrite !le32_at_Done by (rewrite ?length_app; lia). do 3 f_equal.
  rewrite drop_app_le by lia. rewrite take_app_le by (rewrite length_drop; lia). done.
Qed.

(** ** Framing *)

Section framing.
Context `{JsonLib}.
Variables (worker_id : Z) (notified : bool) (a : nat) (fd : Z).

Let request := process_request worker_id notified a fd.
Let query := process_query_buffer worker_id notified.

(** What the bytes [b], the first of a connection, amount to. *)
Inductive framed : Type :=
  | Incomplete
  | BadMagic
  | Body (len : Z) (header body : bytes)   (* the head announces [len] bytes *)
  | AwaitBody (len : Z).

Definition frame (b : bytes) : outcome framed :=
  if bool_decide (length b < XHEAD_SIZE)%nat then Done Incomplete
  else
    magic_num ← head_magic_num b;
    if negb (XHEAD_MAGIC_NUM =? magic_num) then Done BadMagic
    else
      len ← head_body_len b;
      if Z.of_nat (length b) <? Z.of_nat XHEAD_SIZE + len then Done (AwaitBody len)
      else Done (Body len (take XHEAD_SIZE b) (take (Z.to_nat len) (drop XHEAD_SIZE b))).

Lemma frame_Done b : exists f, frame b = Done f /\
  match f with
  | Incomplete => (length b < XHEAD_SIZE)%nat
  | BadMagic => (XHEAD_SIZE <= length b)%nat /\ exists m, head_magic_num b = Done m /\ m <> XHEAD_MAGIC_NUM
  | AwaitBody len => (XHEAD_SIZE <= length b)%nat /\ head_magic_num b = Done XHEAD_MAGIC_NUM /\
      head_body_len b = Done len /\ 0 <= len /\ Z.of_nat (length b) < Z.of_nat XHEAD_SIZE + len
  | Body len header body => (XHEAD_SIZE <= length b)%nat /\ head_magic_num b = Done XHEAD_MAGIC_NUM /\
      head_body_len b = Done len /\ 0 <= len /\ Z.of_nat XHEAD_SIZE + len <= Z.of_nat (length b) /\
      read_at b 0 XHEAD_SIZE = Done header /\ read_at b XHEAD_SIZE (Z.to_nat len) = Done body
  end.
Proof.
  unfold frame. case_bool_decide as Hl; [by eexists|].
  assert (Hm : head_magic_num b = Done (be_decode (rev (take 4 (drop 24 b))))).
  { apply le32_at_Done. unfold XHEAD_SIZE in Hl. lia. }
  assert (Hb : head_body_len b = Done (be_decode (rev (take 4 (drop 32 b))))).
  { apply le32_at_Done. unfold XHEAD_SIZE in Hl. lia. }
  pose proof (le32_at_range _ _ _ Hb) as Hr. rewrite Hm. cbn [mbind outcome_bind].
  destruct (XHEAD_MAGIC_NUM =? _) eqn:Em; cbn [negb].
  - apply Z.eqb_eq in Em. rewrite Hb. cbn [mbind outcome_bind]. set (len := be_decode (rev (take 4 (drop 32 b)))) in *.
    destruct (_ <? _) eqn:El.
    + apply Z.ltb_lt in El. eexists. split; [done|]. cbn beta iota. rewrite <- Em. split_and!; try done; lia.
    + apply Z.ltb_ge in El. eexists. split; [done|]. cbn beta iota. rewrite <- Em.
      split_and!; try done; try lia; apply read_at_Done; lia.
  - apply Z.eqb_neq in Em. eexists. split; [done|]. split; [lia|]. eexists. split; [done|]. congruence.
Qed.

(** A connection that has received [b] and was not closed. *)
Definition received (b : bytes) (c : TCPConnection) : Prop :=
  c_querybuf c = b /\ c_fd c = fd /\ exists f, frame b = Done f /\
  match f with
  | Incomplete => c_current_state c = STATE_HEAD /\ c_bytes_expected c = Z.of_nat XHEAD_SIZE /\
      c_bytes_processed c = 0 /\ c_reply_list c = []
  | BadMagic => False
  | AwaitBody len => c_current_state c = STATE_BODY /\ c_bytes_expected c = len /\
      c_bytes_processed c = Z.of_nat XHEAD_SIZE /\ c_reply_list c = []
  | Body len header body => c_current_state c = STATE_BODY /\ c_bytes_expected c = len /\
      c_bytes_processed c = 65535 /\ exists msgs o, request header body = Done (0, msgs, o) /\
      c_reply_list c = option_list o
  end.

(** The body repeats itself once the buffer, which begins with the head, holds
    65535 bytes more than the body has: 65499 bytes after the request. *)
Definition overrun (b : bytes) : Prop :=
  exists len header body, frame b = Done (Body len header body) /\ 65535 + len <= Z.of_nat (length b).

Definition verdict (b : bytes) : outcome (Z * list RtcMsg * list reply) :=
  f ← frame b;
  match f with
  | Body _ header body => '(ret, msgs, o) ← request header body; Done (ret, msgs, option_list o)
  | BadMagic => Done (-1, [], [])
  | Incomplete | AwaitBody _ => Done (0, [], [])
  end.

Lemma overrun_dec b : overrun b \/ ~ overrun b.
Proof.
  destruct (frame_Done b) as (f & Ef & _). unfold overrun.
  destruct f as [| |len header body|len]; [right; intros (l & h & bd & E & _); congruence..| |].
  - destruct (Z.le_gt_cases (65535 + len) (Z.of_nat (length b))); [left; eauto|right].
    intros (l & h & bd & E & Hl). rewrite Ef in E. injection E as <- <- <-. lia.
  - right. intros (l & h & bd & E & _). congruence.
Qed.

(** A request is processed or refused, unless the parser throws. *)
Lemma request_cases header body :
  length header = XHEAD_SIZE ->
  (exists ret msgs o, request header body = Done (ret, msgs, o) /\ (ret = 0 \/ ret = -1)) \/
  (request header body = Throws json_exception /\ json_parse body = JsonThrows).
Proof.
  intros Hl. unfold request, process_request.
  destruct (json_parse body) as [root| |]; [|left; by eauto 10|by right]. left.
  destruct (json_as_int root (str "cmdno")) as [cmdno|]; [|by eauto 10].
  rewrite le32_at_Done by (rewrite Hl; unfold XHEAD_SIZE; lia). cbn [mbind outcome_bind].
  destruct (_ || _).
  - unfold process_push_pull, send_rtc_msg, no_message.
    destruct (json_as_uint64 root _); cbn [mbind option_bind]; [|by eauto 10].
    destruct (json_as_string root _); cbn [mbind option_bind]; [|by eauto 10].
    destruct (json_as_int root (str "audio")); cbn [mbind option_bind]; [|by eauto 10].
    destruct (json_as_int root (str "video")); cbn [mbind option_bind]; [|by eauto 10].
    destruct notified; by eauto 10.
  - destruct (if (cmdno =? CMDNO_STOP_PUSH) || _ then _ else _) as [ret msgs]. by eauto 10.
Qed.

Lemma read_at_length data pos n bs : read_at data pos n = Done bs -> length bs = n.
Proof.
  unfold read_at. case_bool_decide; [|done]. intros [= <-]. rewrite length_take, length_drop. lia.
Qed.

(** One turn of the loop. *)
Lemma turn_wait n c :
  Z.of_nat (length (c_querybuf c)) < c_bytes_processed c + c_bytes_expected c ->
  query (S n) a c = Done (Some (0, [], c)).
Proof. intros Hl. unfold query. cbn [process_query_buffer]. by rewrite (proj2 (Z.ltb_lt _ _) Hl). Qed.

Lemma turn_head n c m len :
  c_bytes_processed c + c_bytes_expected c <= Z.of_nat (length (c_querybuf c)) ->
  c_current_state c = STATE_HEAD -> head_magic_num (c_querybuf c) = Done m ->
  (m = XHEAD_MAGIC_NUM -> head_body_len (c_querybuf c) = Done len) ->
  query (S n) a c =
    if bool_decide (m = XHEAD_MAGIC_NUM) then query n a (c_progress STATE_BODY len (Z.of_nat XHEAD_SIZE) c)
    else Done (Some (-1, [], c)).
Proof.
  intros Hl Hs Hm Hb. unfold query. cbn [process_query_buffer]. rewrite (proj2 (Z.ltb_ge _ _) Hl), Hs, Hm.
  cbn [mbind outcome_bind]. case_bool_decide as E.
  - subst m. rewrite Z.eqb_refl. cbn [negb]. by rewrite (Hb eq_refl).
  - rewrite (proj2 (Z.eqb_neq _ _)) by congruence. done.
Qed.

Lemma turn_throws n c len header body e :
  c_bytes_processed c + c_bytes_expected c <= Z.of_nat (length (c_querybuf c)) ->
  c_current_state c = STATE_BODY -> c_fd c = fd -> head_body_len (c_querybuf c) = Done len ->
  read_at (c_querybuf c) 0 XHEAD_SIZE = Done header ->
  read_at (c_querybuf c) XHEAD_SIZE (Z.to_nat len) = Done body -> request header body = Throws e ->
  query (S n) a c = Throws e.
Proof.
  intros Hl Hs Hfd Hb Hh Hbody Hreq. unfold query. cbn [process_query_buffer].
  rewrite (proj2 (Z.ltb_ge _ _) Hl), Hs, Hh, Hb. cbn [mbind outcome_bind]. rewrite Hbody.
  cbn [mbind outcome_bind]. rewrite Hfd. unfold request in Hreq. by rewrite Hreq.
Qed.

Lemma turn_body n c len header body ret msgs o :
  c_bytes_processed c + c_bytes_expected c <= Z.of_nat (length (c_querybuf c)) ->
  c_current_state c = STATE_BODY -> c_fd c = fd -> head_body_len (c_querybuf c) = Done len ->
  read_at (c_querybuf c) 0 XHEAD_SIZE = Done header ->
  read_at (c_querybuf c) XHEAD_SIZE (Z.to_nat len) = Done body -> request header body = Done (ret, msgs, o) ->
  let c1 := match o with Some r => add_reply r c | None => c end in
  query (S n) a c =
    if negb (ret =? 0) then Done (Some (-1, msgs, c1))
    else r ← query n a (c_progress STATE_BODY (c_bytes_expected c1) 65535 c1);
         Done ('(ret, msgs', c) ← r; Some (ret, msgs ++ msgs', c)).
Proof.
  intros Hl Hs Hfd Hb Hh Hbody Hreq c1. unfold query. cbn [process_query_buffer].
  rewrite (proj2 (Z.ltb_ge _ _) Hl), Hs, Hh, Hb. cbn [mbind outcome_bind]. rewrite Hbody.
  cbn [mbind outcome_bind]. rewrite Hfd. unfold request in Hreq. rewrite Hreq. done.
Qed.

(** More bytes do not change a head, a body or a refusal. *)
Lemma frame_app b d f :
  frame b = Done f ->
  match f with
  | Incomplete => True
  | AwaitBody len => exists f', frame (b ++ d) = Done f' /\
      (f' = AwaitBody len \/ exists header body, f' = Body len header body)
  | _ => frame (b ++ d) = Done f
  end.
Proof.
  intros Ef. destruct (frame_Done b) as (f0 & E0 & Hf). rewrite Ef in E0. injection E0 as <-.
  destruct f as [| |len header body|len]; [done| | |].
  - destruct Hf as (Hl & m & Hm & Hne). unfold frame. rewrite bool_decide_false by (rewrite length_app; lia).
    unfold head_magic_num. rewrite le32_at_app by (unfold XHEAD_SIZE in *; lia).
    unfold head_magic_num in Hm. rewrite Hm. cbn [mbind outcome_bind].
    by rewrite (proj2 (Z.eqb_neq _ _)) by congruence.
  - destruct Hf as (Hl & Hm & Hb & H0 & Hlen & Hh & Hbody). unfold frame, head_magic_num, head_body_len in *.
    rewrite bool_decide_false by (rewrite length_app; lia).
    rewrite !le32_at_app by (unfold XHEAD_SIZE in *; lia). rewrite Hm, Hb. cbn [mbind outcome_bind].
    rewrite Z.eqb_refl. cbn [negb]. rewrite (proj2 (Z.ltb_ge _ _)) by (rewrite length_app; lia).
    rewrite read_at_Done in Hh, Hbody by lia. injection Hh as <-. injection Hbody as <-.
    rewrite (drop_app_le b d XHEAD_SIZE) by lia. rewrite !take_app_le; rewrite ?length_drop; lia || done.
  - destruct Hf as (Hl & Hm & Hb & H0 & Hlen). unfold frame, head_magic_num, head_body_len in *.
    rewrite bool_decide_false by (rewrite length_app; lia).
    rewrite !le32_at_app by (unfold XHEAD_SIZE in *; lia). rewrite Hm, Hb. cbn [mbind outcome_bind].
    rewrite Z.eqb_refl. cbn [negb]. destruct (_ <? _); eexists; (split; [done|]); [by left|right; by eauto].
Qed.

Definition msgs_of (b : bytes) : list RtcMsg :=
  match verdict b with Done (_, msgs, _) => msgs | _ => [] end.

Lemma received_verdict b c : received b c -> verdict b = Done (0, msgs_of b, c_reply_list c).
Proof.
  intros (_ & _ & f & Ef & Hf). unfold msgs_of, verdict. rewrite Ef. cbn [mbind outcome_bind].
  destruct f as [| |len header body|len]; [|done| |].
  - by destruct Hf as (_ & _ & _ & ->).
  - destruct Hf as (_ & _ & _ & msgs & o & -> & ->). done.
  - by destruct Hf as (_ & _ & _ & ->).
Qed.

(** The bytes [q] do not make the body repeat itself. *)
Definition calm (q : bytes) : Prop := forall msgs rs, verdict q = Done (0, msgs, rs) -> ~ overrun q.

Lemma chunk_limit q len header body :
  ~ overrun q -> frame q = Done (Body len header body) -> Z.of_nat (length q) < 65535 + len.
Proof.
  intros Hno Ef. destruct (Z.lt_ge_cases (Z.of_nat (length q)) (65535 + len)) as [|Hge]; [done|].
  exfalso. apply Hno. by exists len, header, body.
Qed.

(** What a chunk does in the body state before the request was handled. *)
Lemma query_body n q c len header body :
  c_querybuf c = q -> c_fd c = fd -> frame q = Done (Body len header body) -> c_current_state c = STATE_BODY ->
  c_bytes_expected c = len -> c_bytes_processed c = Z.of_nat XHEAD_SIZE -> c_reply_list c = [] -> calm q ->
  (exists ret msgs c' rs, query (S (S n)) a c = Done (Some (ret, msgs, c')) /\
    verdict q = Done (ret, msgs, rs) /\ c_reply_list c' = rs /\ (ret = 0 -> received q c')) \/
  (query (S (S n)) a c = Throws json_exception /\ verdict q = Throws json_exception).
Proof.
  intros Eq Efd Ef Hst Hexp Hpr Hrp Hcalm.
  destruct (frame_Done q) as (f0 & E0 & Hf). rewrite Ef in E0. injection E0 as <-.
  destruct Hf as (Hl & Hm & Hb & H0 & Hlen & Hh & Hbody).
  destruct (request_cases header body (read_at_length _ _ _ _ Hh)) as [(ret & msgs & o & Hreq & Hret)|[Hreq _]].
  2: { right. split.
       - rewrite (turn_throws (S n) c len header body json_exception); rewrite ?Eq; try done. lia.
       - unfold verdict. rewrite Ef. cbn [mbind outcome_bind]. by rewrite Hreq. }
  left. assert (Hv : verdict q = Done (ret, msgs, option_list o)).
  { unfold verdict. rewrite Ef. cbn [mbind outcome_bind]. by rewrite Hreq. }
  set (c1 := match o with Some r => add_reply r c | None => c end).
  assert (Hc1 : c_querybuf c1 = q /\ c_fd c1 = fd /\ c_bytes_expected c1 = len /\ c_reply_list c1 = option_list o).
  { unfold c1. destruct o; cbn; rewrite ?Hrp; by rewrite ?Eq. }
  destruct Hc1 as (Q1 & F1 & X1 & R1).
  rewrite (turn_body (S n) c len header body ret msgs o); rewrite ?Eq; try done; [|lia]. fold c1.
  destruct Hret as [-> | ->]; cbn [negb Z.eqb].
  - pose proof (chunk_limit q len header body (Hcalm _ _ Hv) Ef) as Hlt.
    rewrite turn_wait by (cbn [c_querybuf c_bytes_processed c_bytes_expected c_progress]; rewrite Q1, X1; lia).
    cbn [mbind outcome_bind option_bind]. do 4 eexists. split; [reflexivity|]. rewrite app_nil_r.
    split; [exact Hv|]. split; [exact R1|]. intros _. split; [exact Q1|]. split; [exact F1|]. eexists.
    split; [exact Ef|]. cbn. split_and!; [done|exact X1|done|]. by eauto.
  - do 4 eexists. split; [reflexivity|]. by split.
Qed.

(** What the chunk [d] does after [b], given [3 + n] turns. *)
Definition chunk_ok (n : nat) (b d : bytes) (c : TCPConnection) : Prop :=
  (exists ret msgs c' rs, query (S (S (S n))) a (c_append d c) = Done (Some (ret, msgs, c')) /\
    verdict (b ++ d) = Done (ret, msgs_of b ++ msgs, rs) /\ c_reply_list c' = rs /\
    (ret = 0 -> received (b ++ d) c')) \/
  (query (S (S (S n))) a (c_append d c) = Throws json_exception /\ verdict (b ++ d) = Throws json_exception).

Lemma chunk_waits n b d c c0 g :
  frame (b ++ d) = Done g -> g = Incomplete \/ (exists len, g = AwaitBody len) ->
  query (S (S (S n))) a (c_append d c) = Done (Some (0, [], c0)) -> msgs_of b = [] -> c_reply_list c0 = [] ->
  received (b ++ d) c0 -> chunk_ok n b d c.
Proof.
  intros Eg Hg0 E0 Hn Hr0 Hrec0. left. exists 0, [], c0, []. rewrite E0, Hn. split; [done|]. split; [|done].
  unfold verdict. rewrite Eg. cbn [mbind outcome_bind]. by destruct Hg0 as [-> |[len ->]].
Qed.

(** No head yet. *)
Lemma chunk_head n b d c :
  received b c -> frame b = Done Incomplete -> calm (b ++ d) -> chunk_ok n b d c.
Proof.
  intros (Eq & Efd & f & Ef & Hf) Ef' Hno. rewrite Ef' in Ef. injection Ef as <-. rename Ef' into Ef.
  unfold chunk_ok. set (q := b ++ d) in *. assert (Eq' : c_querybuf (c_append d c) = q) by (cbn; by rewrite Eq).
  destruct (frame_Done q) as (g & Eg & Hg).
  destruct Hf as (Hst & Hexp & Hpr & Hrp). assert (Hn : msgs_of b = []).
  { unfold msgs_of, verdict. by rewrite Ef. }
  destruct g as [| |len header body|len].
  + apply (chunk_waits n b d c (c_append d c) _ Eg); [by left| |done|done|].
    * apply turn_wait. rewrite Eq'. cbn [c_bytes_processed c_bytes_expected c_append]. rewrite Hexp, Hpr.
      unfold XHEAD_SIZE in *. lia.
    * split; [done|]. split; [done|]. by exists Incomplete.
  + destruct Hg as (Hl & m & Hm & Hne). left. exists (-1), [], (c_append d c), [].
    rewrite (turn_head (S (S n)) (c_append d c) m 0); rewrite ?Eq'; try done.
    * rewrite bool_decide_false by done. rewrite Hn. split; [done|]. split; [|by split].
      unfold verdict. by rewrite Eg.
    * cbn [c_bytes_processed c_bytes_expected c_append]. rewrite Hexp, Hpr. lia.
  + destruct Hg as (Hl & Hm & Hb & H0 & Hlen & _). rewrite Hn. cbn [app].
    rewrite (turn_head (S (S n)) (c_append d c) XHEAD_MAGIC_NUM len); rewrite ?Eq'; try done.
    * rewrite bool_decide_true by done. by apply (query_body n q _ len header body).
    * cbn [c_bytes_processed c_bytes_expected c_append]. rewrite Hexp, Hpr. lia.
  + destruct Hg as (Hl & Hm & Hb & H0 & Hlen).
    apply (chunk_waits n b d c (c_progress STATE_BODY len (Z.of_nat XHEAD_SIZE) (c_append d c)) _ Eg); [right; by eexists| |done|done|].
    * rewrite (turn_head (S (S n)) (c_append d c) XHEAD_MAGIC_NUM len); rewrite ?Eq'; try done.
      -- rewrite bool_decide_true by done. apply turn_wait.
         cbn [c_bytes_processed c_bytes_expected c_progress c_querybuf]. rewrite Eq'. lia.
      -- cbn [c_bytes_processed c_bytes_expected c_append]. rewrite Hexp, Hpr. lia.
    * split; [done|]. split; [done|]. by exists (AwaitBody len).
Qed.

(** The request was handled. *)
Lemma chunk_done n b d c len header body :
  received b c -> frame b = Done (Body len header body) -> calm (b ++ d) -> chunk_ok n b d c.
Proof.
  intros Hrec Ef0 Hno. pose proof (received_verdict b c Hrec) as Hv. destruct Hrec as (Eq & Efd & f & Ef & Hf).
  rewrite Ef0 in Ef. injection Ef as <-. rename Ef0 into Ef.
  unfold chunk_ok. set (q := b ++ d) in *. assert (Eq' : c_querybuf (c_append d c) = q) by (cbn; by rewrite Eq).
  destruct Hf as (Hst & Hexp & Hpr & msgs & o & Hreq & Hrp).
  pose proof (frame_app b d _ Ef) as Ef'. cbn in Ef'. fold q in Ef'.
  assert (Hvq : verdict q = Done (0, msgs_of b, c_reply_list c)).
  { unfold verdict in *. rewrite Ef'. rewrite Ef in Hv. exact Hv. }
  left. exists 0, [], (c_append d c), (c_reply_list c). split; [|split; [|split; [done|]]].
  + apply turn_wait. rewrite Eq'. cbn [c_bytes_processed c_bytes_expected c_append]. rewrite Hexp, Hpr.
    eapply chunk_limit; [by eapply Hno|exact Ef'].
  + by rewrite app_nil_r.
  + intros _. split; [done|]. split; [done|]. eexists. split; [exact Ef'|]. cbn. by eauto 10.
Qed.

(** The body is not there yet. *)
Lemma chunk_body n b d c len :
  received b c -> frame b = Done (AwaitBody len) -> calm (b ++ d) -> chunk_ok n b d c.
Proof.
  intros (Eq & Efd & f & Ef & Hf) Ef' Hno. rewrite Ef' in Ef. injection Ef as <-. rename Ef' into Ef.
  unfold chunk_ok. set (q := b ++ d) in *. assert (Eq' : c_querybuf (c_append d c) = q) by (cbn; by rewrite Eq).
  destruct (frame_Done q) as (g & Eg & Hg).
  destruct Hf as (Hst & Hexp & Hpr & Hrp). assert (Hn : msgs_of b = []).
  { unfold msgs_of, verdict. by rewrite Ef. }
  destruct (frame_app b d _ Ef) as (g' & Eg' & Hg'). fold q in Eg'. rewrite Eg' in Eg. injection Eg as <-.
  destruct Hg' as [-> |(header & body & ->)].
  + destruct Hg as (Hl & Hm & Hb & H0 & Hlen).
    apply (chunk_waits n b d c (c_append d c) _ Eg'); [right; by eexists| |done|done|].
    * apply turn_wait. rewrite Eq'. cbn [c_bytes_processed c_bytes_expected c_append]. rewrite Hexp, Hpr. lia.
    * split; [done|]. split; [done|]. by exists (AwaitBody len).
  + rewrite Hn. cbn [app]. by apply (query_body (S n) q _ len header body).
Qed.

Lemma query_chunk n b d c : received b c -> calm (b ++ d) -> chunk_ok n b d c.
Proof.
  intros Hrec Hno. pose proof Hrec as (_ & _ & f & Ef & Hf).
  destruct f as [| |len header body|len]; [by apply chunk_head|done|by eapply chunk_done|by eapply chunk_body].
Qed.

(** A connection is fed [chunks], one per readable event, until it is refused;
    the loop has [fuel] turns for each. *)
Fixpoint reads (fuel : nat) (chunks : list bytes) (c : TCPConnection) : outcome (option (Z * list RtcMsg * TCPConnection)) :=
  match chunks with
  | [] => Done (Some (0, [], c))
  | d :: chunks =>
      r ← query fuel a (c_append d c);
      match r with
      | None => Done None
      | Some (ret, msgs, c) =>
          if negb (ret =? 0) then Done (Some (ret, msgs, c))
          else r ← reads fuel chunks c; Done ('(ret, msgs', c) ← r; Some (ret, msgs ++ msgs', c))
      end
  end.

(** A verdict other than that more is needed is final. *)
Lemma verdict_final b d :
  (forall msgs rs, verdict b <> Done (0, msgs, rs)) -> verdict (b ++ d) = verdict b.
Proof.
  unfold verdict. destruct (frame_Done b) as (f & Ef & _). rewrite Ef. cbn [mbind outcome_bind].
  pose proof (frame_app b d f Ef) as Ef'. destruct f as [| |len header body|len]; intros Hne.
  - by destruct (Hne [] []).
  - by rewrite Ef'.
  - by rewrite Ef'.
  - by destruct (Hne [] []).
Qed.

Lemma overrun_app b d : overrun b -> overrun (b ++ d).
Proof.
  intros (len & header & body & Ef & Hl). exists len, header, body.
  split; [exact (frame_app b d _ Ef)|]. rewrite length_app. lia.
Qed.

Lemma overrun_verdict b d :
  overrun b -> verdict (b ++ d) = verdict b.
Proof.
  intros (len & header & body & Ef & _). unfold verdict. by rewrite (frame_app b d _ Ef), Ef.
Qed.

Lemma received_new now : received [] (new_TCPConnection fd now).
Proof. split; [done|]. split; [done|]. by exists Incomplete. Qed.

(** ** When the loop ends *)

(** The body state, with the head and the body in the buffer. *)
Record runs_on (c : TCPConnection) (header body : bytes) : Prop := {
  ro_state : c_current_state c = STATE_BODY;
  ro_fd : c_fd c = fd;
  ro_len : head_body_len (c_querybuf c) = Done (c_bytes_expected c);
  ro_header : read_at (c_querybuf c) 0 XHEAD_SIZE = Done header;
  ro_body : read_at (c_querybuf c) XHEAD_SIZE (Z.to_nat (c_bytes_expected c)) = Done body;
  ro_room : c_bytes_processed c + c_bytes_expected c <= Z.of_nat (length (c_querybuf c));
  ro_over : 65535 + c_bytes_expected c <= Z.of_nat (length (c_querybuf c));
  ro_accepted : exists msgs o, request header body = Done (0, msgs, o);
}.

Lemma query_runs_on fuel : forall c header body, runs_on c header body -> query fuel a c = Done None.
Proof.
  induction fuel as [|fuel IH]; intros c header body [H1 H2 H3 H4 H5 H6 H7 (msgs & o & H8)]; [done|].
  rewrite (turn_body fuel c _ header body 0 msgs o) by done. cbn [negb Z.eqb].
  set (c1 := match o with Some r => add_reply r c | None => c end).
  assert (Hc1 : c_querybuf c1 = c_querybuf c /\ c_fd c1 = fd /\ c_bytes_expected c1 = c_bytes_expected c).
  { unfold c1. by destruct o. }
  destruct Hc1 as (Q1 & F1 & X1).
  rewrite (IH _ header body); [done|]. split; cbn; rewrite ?Q1, ?X1; try done. by eauto.
Qed.

Lemma received_overrun b d c fuel len header body :
  received b c -> frame (b ++ d) = Done (Body len header body) -> overrun (b ++ d) ->
  (exists msgs o, request header body = Done (0, msgs, o)) -> query fuel a (c_append d c) = Done None.
Proof.
  intros (Eq & Efd & f & Ef & Hf) Eq' (len' & h' & b' & Ef2 & Hover) Hreq.
  rewrite Eq' in Ef2. injection Ef2 as <- <- <-.
  destruct (frame_Done (b ++ d)) as (g & Eg & Hg). rewrite Eq' in Eg. injection Eg as <-.
  destruct Hg as (Hlen & Hm & Hb & H0 & Hle & Hh & Hbody).
  assert (Hbuf : c_querybuf (c_append d c) = b ++ d) by (cbn; by rewrite Eq).
  pose proof (frame_app b d f Ef) as Happ. destruct f as [| |len0 h0 b0|len0]; [|done| |].
  - destruct Hf as (Hst & Hexp & Hpr & _). destruct fuel as [|fuel]; [done|].
    rewrite (turn_head fuel _ XHEAD_MAGIC_NUM len); rewrite ?Hbuf; try done.
    + rewrite bool_decide_true by done. eapply query_runs_on. split; cbn; rewrite ?Eq; eauto; lia.
    + cbn. rewrite Hexp, Hpr. lia.
  - destruct Hf as (Hst & Hexp & Hpr & _). rewrite Eq' in Happ. injection Happ as <- <- <-.
    eapply query_runs_on. split; cbn; rewrite ?Eq, ?Hexp, ?Hpr; eauto; lia.
  - destruct Hf as (Hst & Hexp & Hpr & _). destruct Happ as (f' & Ef' & Hf'). rewrite Eq' in Ef'.
    injection Ef' as <-. destruct Hf' as [[=]|(h1 & b1 & [= -> -> ->])].
    eapply query_runs_on. split; cbn; rewrite ?Eq, ?Hexp, ?Hpr; eauto; lia.
Qed.

(** A chunk after which the request repeats itself. *)
Lemma chunk_overrun n b d c msgs rs :
  received b c -> overrun (b ++ d) -> verdict (b ++ d) = Done (0, msgs, rs) ->
  query n a (c_append d c) = Done None.
Proof.
  intros Hrec Ho Hv. pose proof Ho as (len & header & body & Ef & _).
  eapply received_overrun; [exact Hrec|exact Ef|exact Ho|].
  unfold verdict in Hv. rewrite Ef in Hv. cbn [mbind outcome_bind] in Hv.
  destruct (request header body) as [[[ret m] o]| |]; cbn in Hv; [|done..]. injection Hv as -> _ _. by eauto.
Qed.



(** What a connection makes of chunks, according to the verdict on their bytes. *)
Definition reads_spec (n : nat) (chunks : list bytes) (b : bytes) (c : TCPConnection) : Prop :=
  let q := b ++ concat chunks in
  let r := reads (S (S (S n))) chunks c in
  match verdict q with
  | Done (ret, msgs, rs) =>
      (ret = 0 -> overrun q -> r = Done None) /\
      (ret <> 0 \/ ~ overrun q -> exists msgs' c', r = Done (Some (ret, msgs', c')) /\
        msgs = msgs_of b ++ msgs' /\ rs = c_reply_list c')
  | Throws e => e = json_exception /\ r = Throws e
  | Undef _ => False
  end.

Lemma reads_received n chunks : forall b c,
  received b c -> ~ overrun b -> reads_spec n chunks b c.
Proof.
  induction chunks as [|d chunks IH]; intros b c Hrec Hb.
  { unfold reads_spec. cbn [concat reads]. rewrite app_nil_r, (received_verdict b c Hrec). split; [done|].
    intros _. exists [], c. by rewrite app_nil_r. }
  unfold reads_spec. cbn [concat reads]. rewrite app_assoc.
  destruct (overrun_dec (b ++ d)) as [Ho|Ho].
  - (* the chunk brings the 65535 bytes *)
    rewrite (overrun_verdict _ (concat chunks) Ho).
    destruct (verdict (b ++ d)) as [[[ret msgs] rs]|e|u] eqn:Hv.
    + destruct (Z.eq_dec ret 0) as [->|Hne].
      * rewrite (chunk_overrun _ b d c msgs rs Hrec Ho Hv). split; [done|]. intros [|Hno]; [done|].
        by destruct Hno; apply overrun_app.
      * split; [done|]. intros _.
        destruct (query_chunk n b d c Hrec) as [(r & m & c1 & rs1 & E & Hv1 & Hrs & _)|[_ Hv1]];
          [intros m r Hz; congruence| |congruence].
        rewrite Hv in Hv1. injection Hv1 as <- -> ->. rewrite E. cbn [mbind outcome_bind].
        rewrite (proj2 (Z.eqb_neq _ _) Hne). cbn [negb]. by exists m, c1.
    + destruct (query_chunk n b d c Hrec) as [(r & m & c1 & rs1 & _ & Hv1 & _)|[E Hv1]];
        [intros m r Hz; congruence|congruence|]. rewrite E. rewrite Hv in Hv1. by injection Hv1 as ->.
    + destruct (query_chunk n b d c Hrec) as [(r & m & c1 & rs1 & _ & Hv1 & _)|[_ Hv1]];
        [intros m r Hz; congruence|congruence..].
  - destruct (query_chunk n b d c Hrec) as [(ret & msgs & c1 & rs & E & Hv & Hrs & Hnext)|[E Hv]]; [by intros ? ? _| |].
    + rewrite E. cbn [mbind outcome_bind]. destruct (Z.eqb_spec ret 0) as [->|Hne]; cbn [negb].
      * specialize (IH (b ++ d) c1 (Hnext eq_refl) Ho). unfold reads_spec in IH.
        destruct (verdict ((b ++ d) ++ concat chunks)) as [[[r2 m2] rs2]|e|u]; [|by destruct IH as [-> ->]|done].
        destruct IH as [IH1 IH2]. split.
        -- intros Hz Hq. by rewrite (IH1 Hz Hq).
        -- intros Hq. destruct (IH2 Hq) as (m' & c' & -> & -> & ->). exists (msgs ++ m'), c'.
           split; [done|]. split; [|done]. unfold msgs_of at 1. by rewrite Hv, app_assoc.
      * rewrite (verdict_final (b ++ d)) by (intros m r Hz; congruence). rewrite Hv. split; [done|].
        intros _. by exists msgs, c1.
    + rewrite (verdict_final (b ++ d)) by (intros m r Hz; congruence). by rewrite Hv, E.
Qed.
End framing.

(** C10: requests are framed whatever the sizes in which their bytes come.  Feed
    a connection any chunks, and let the loop have three turns or more for
    each.  The result, the messages to the RTC server and the replies are those
    of the whole at once: nothing happens before the head and as many bytes as
    it announces are there; a head with another magic number is refused; the
    request is processed once, with the first 36 bytes as its head and the
    announced number of bytes after them as its body; and when the parser
    throws on the body, so does the read that completes it.  There is one
    exception, whatever the chunks: when the request is processed and the bytes
    are at least 65535 more than the body, so that 65499 follow the request, the read
    that brings the last of them never returns. *)
Theorem framing_chunks `{JsonLib} (worker_id : Z) (notified : bool) (a : nat) (fd now : Z) (n : nat) (chunks : list bytes) :
  let q := concat chunks in
  let r := reads worker_id notified a (3 + n) chunks (new_TCPConnection fd now) in
  match
    (f ← frame q;
     match f with
     | Body _ header body =>
         '(ret, msgs, o) ← process_request worker_id notified a fd header body; Done (ret, msgs, option_list o)
     | BadMagic => Done (-1, [], [])
     | Incomplete | AwaitBody _ => Done (0, [], [])
     end)
  with
  | Done (ret, msgs, replies) =>
      (ret = 0 -> overrun q -> r = Done None) /\
      (ret <> 0 \/ ~ overrun q -> exists c, r = Done (Some (ret, msgs, c)) /\ c_reply_list c = replies)
  | Throws e => e = json_exception /\ r = Throws e
  | Undef _ => False
  end.
Proof.
  intros q r. assert (Hno : ~ overrun []) by (intros (len & header & body & E & _); done).
  pose proof (reads_received worker_id notified a fd n chunks [] _ (received_new worker_id notified a fd now) Hno) as Hr.
  unfold reads_spec, verdict in Hr. cbn [app] in Hr. fold q in Hr. change (S (S (S n))) with (3 + n)%nat in Hr. fold r in Hr.
  destruct (f ← frame q; _) as [[[ret msgs] rs]|e|u]; [|exact Hr..]. destruct Hr as [H1 H2]. split; [exact H1|].
  intros Hq. destruct (H2 Hq) as (m & c & E & -> & ->). by exists c.
Qed.


(** ** Replies *)

(** The initialised part of the buffer covers the slice. *)
Definition reply_ok (r : reply) : Prop := (0 < rp_size r <= length (rp_buf r))%nat.
Definition content (r : reply) : bytes := take (rp_size r) (rp_buf r).

Lemma reply_from_ok r pos : reply_ok r -> reply_from r pos = Done (drop pos (content r)).
Proof. intros [_ Hl]. unfold reply_from. by rewrite bool_decide_true. Qed.

Lemma content_length r : reply_ok r -> length (content r) = rp_size r.
Proof. intros [_ Hl]. unfold content. rewrite length_take. lia. Qed.

Definition texts (replies : list reply) : bytes := flat_map content replies.

Lemma write_loop_sends results : forall replies pos,
  Forall reply_ok replies -> match replies with [] => pos = 0%nat | r :: _ => (pos < rp_size r)%nat end ->
  exists sent e, write_loop results replies pos = Done (sent, e) /\
    match e with
    | Some (Some (rest, pos')) => rest = [] /\ pos' = 0%nat /\ sent = drop pos (texts replies)
    | _ => sent `prefix_of` drop pos (texts replies)
    end.
Proof.
  induction results as [|n results IH]; intros replies pos Hok Hpos.
  { destruct replies as [|r rest]; cbn [write_loop].
    - subst. do 2 eexists. split; [done|]. by split.
    - do 2 eexists. split; [done|]. apply prefix_nil. }
  destruct replies as [|r rest]; cbn [write_loop].
  { subst. do 2 eexists. split; [done|]. by split. }
  pose proof Hok as [Hr Hrest]%Forall_cons. rewrite reply_from_ok by done. cbn [mbind outcome_bind].
  pose proof (content_length r Hr) as Hlen.
  change (texts (r :: rest)) with (content r ++ texts rest) in *.
  destruct (n =? -1); [do 2 eexists; split; [done|apply prefix_nil]|].
  destruct (n =? 0); [by apply IH|].
  rewrite (drop_app_le (content r) (texts rest) pos) by lia. case_bool_decide as Hdone.
  - rewrite take_ge by (rewrite length_drop; lia).
    destruct (IH rest 0%nat Hrest) as (sent & e & E & He); [by destruct rest; [|apply Forall_cons in Hrest as [[? _] _]]|].
    rewrite E. cbn [mbind outcome_bind]. do 2 eexists. split; [reflexivity|]. rewrite drop_0 in He.
    destruct e as [[[rest' pos']|]|].
    + by destruct He as (-> & -> & ->).
    + by apply prefix_app.
    + by apply prefix_app.
  - destruct (IH (r :: rest) (pos + Z.to_nat n)%nat Hok) as (sent & e & E & He); [lia|].
    rewrite E. cbn [mbind outcome_bind]. do 2 eexists. split; [reflexivity|].
    change (texts (r :: rest)) with (content r ++ texts rest) in He. rewrite drop_app_le in He by lia.
    assert (Hsplit : drop pos (content r) = take (Z.to_nat n) (drop pos (content r)) ++ drop (pos + Z.to_nat n) (content r)).
    { rewrite <- (take_drop (Z.to_nat n) (drop pos (content r))) at 1. by rewrite drop_drop. }
    set (h := take (Z.to_nat n) (drop pos (content r))) in *. rewrite Hsplit, <- app_assoc. destruct e as [[[rest' pos']|]|].
    + by destruct He as (-> & -> & ->).
    + by apply prefix_app.
    + by apply prefix_app.
Qed.

Lemma make_reply_size header json :
  Z.of_nat (length json) < 2 ^ 32 - 36 -> rp_size (make_reply header json) = (XHEAD_SIZE + length json)%nat.
Proof. intros Hl. unfold make_reply, XHEAD_SIZE. cbn [rp_size]. rewrite (u32_id (Z.of_nat (length json))), u32_id by lia. lia. Qed.

Lemma make_reply_buf header json :
  length header = XHEAD_SIZE -> x00 ∉ json ->
  length (rp_buf (make_reply header json)) = (XHEAD_SIZE + min 4095 (length json) + 1)%nat.
Proof.
  intros Hh Hn. unfold make_reply. cbn [rp_buf]. rewrite c_str_id by done. unfold le32, MAX_RES_BUF.
  rewrite !length_app, !length_take, length_rev, length_be_encode, Hh. unfold XHEAD_SIZE. cbn. lia.
Qed.

Lemma make_reply_ok header json :
  length header = XHEAD_SIZE -> x00 ∉ json -> (length json < MAX_RES_BUF)%nat ->
  reply_ok (make_reply header json) /\
  content (make_reply header json) = take 32 header ++ le32 (Z.of_nat (length json)) ++ json.
Proof.
  intros Hh Hn Hl. unfold MAX_RES_BUF in Hl. split.
  - unfold reply_ok. rewrite make_reply_size, make_reply_buf by (done || lia). unfold XHEAD_SIZE. lia.
  - unfold content. rewrite make_reply_size by lia. unfold make_reply. cbn [rp_buf].
    rewrite c_str_id, u32_id by (done || lia). unfold MAX_RES_BUF. rewrite (take_ge json) by (cbn; lia).
    rewrite !app_assoc, take_app_le.
    + apply take_ge. rewrite !length_app, length_take, Hh. unfold le32. rewrite length_rev, length_be_encode.
      unfold XHEAD_SIZE. lia.
    + rewrite !length_app, length_take, Hh. unfold le32. rewrite length_rev, length_be_encode.
      unfold XHEAD_SIZE. lia.
Qed.

(** C39: replies leave in order, whole and once, however many bytes each write
    takes.  For replies whose text is shorter than 4096 bytes, what the loop of
    [_write_reply] has written when it ends is every reply in order: the head
    of the request with the length of the text, then the text; while it runs,
    or when a write fails, it is a prefix of that.  A longer text is cut off in
    the buffer but not in the announced length: the loop reads past the end of
    the buffer, for every text whose length and head, as a sum of [uint32_t],
    exceed it (those of 4 GiB and a little more wrap around to small sums). *)
Theorem replies_delivered (l : list (bytes * bytes)) (results : list Z) :
  Forall (fun '(header, json) => length header = XHEAD_SIZE /\ x00 ∉ json /\ (length json < MAX_RES_BUF)%nat) l ->
  let stream := flat_map (fun '(header, json) => take 32 header ++ le32 (Z.of_nat (length json)) ++ json) l in
  (exists sent e, write_loop results (map (fun '(header, json) => make_reply header json) l) 0 = Done (sent, e) /\
    match e with
    | Some (Some (rest, pos)) => rest = [] /\ pos = 0%nat /\ sent = stream
    | _ => sent `prefix_of` stream
    end) /\
  forall header json n rest,
    length header = XHEAD_SIZE -> x00 ∉ json ->
    Z.of_nat (XHEAD_SIZE + MAX_RES_BUF) < u32 (Z.of_nat (XHEAD_SIZE + length json)) ->
    write_loop (n :: results) (make_reply header json :: rest) 0 = Undef out_of_bounds.
Proof.
  intros Hl stream. split.
  - assert (Hok : Forall reply_ok (map (fun '(header, json) => make_reply header json) l)).
    { apply Forall_map. eapply Forall_impl; [exact Hl|]. intros [header json] (H1 & H2 & H3). cbn.
      by apply make_reply_ok. }
    assert (Hs : texts (map (fun '(header, json) => make_reply header json) l) = stream).
    { unfold stream. clear Hok stream. induction Hl as [|[header json] l (H1 & H2 & H3) _ IH]; [done|].
      cbn [map flat_map].
      change (texts (make_reply header json :: ?x)) with (content (make_reply header json) ++ texts x).
      rewrite IH. f_equal. by apply make_reply_ok. }
    destruct (write_loop_sends results _ 0%nat Hok) as (sent & e & E & He).
    { destruct l as [|[header json] l]; [done|]. cbn in *. by apply Forall_cons in Hok as [[? _] _]. }
    rewrite drop_0, Hs in He. by exists sent, e.
  - intros header json n rest Hh Hn Hlen. cbn [write_loop].
    assert (E : reply_from (make_reply header json) 0 = Undef out_of_bounds); [|by rewrite E].
    assert (Hs : Z.of_nat (rp_size (make_reply header json)) = u32 (Z.of_nat (XHEAD_SIZE + length json))).
    { unfold make_reply. cbn [rp_size]. pose proof (u32_range (Z.of_nat XHEAD_SIZE + u32 (Z.of_nat (length json)))).
      rewrite Z2Nat.id by lia. unfold u32. rewrite Zplus_mod_idemp_r. f_equal. lia. }
    pose proof (make_reply_buf header json Hh Hn) as Hb. unfold reply_from, XHEAD_SIZE, MAX_RES_BUF in *.
    by rewrite !bool_decide_false by lia.
Qed.

(** ** Examples *)

(** More than a thousand brackets at the start of a text. *)
Definition too_deep (b : bytes) : bool :=
  bool_decide (1000 < length b)%nat && forallb (fun c => bool_decide (c = "["%byte)) (take 1001 b).

(** A text is its own value; its first byte is the command. *)
Definition toy_json : JsonLib := {|
  json_value := bytes;
  json_parse := fun b => if too_deep b then JsonThrows else match b with [] => JsonError | _ => JsonRoot b end;
  json_as_int := fun v key => if bool_decide (key = str "cmdno") then byte_z <$> head v else Some 1;
  json_as_uint64 := fun _ _ => Some 7;
  json_as_string := fun _ _ => Some (str "room");
  json_result := fun _ msg offer => msg ++ default [] offer;
|}.
#[local] Existing Instance toy_json.

Definition example_head (len : Z) : bytes := repeat x00 24 ++ le32 XHEAD_MAGIC_NUM ++ repeat x00 4 ++ le32 len.
(** A request to stop publishing. *)
Definition example_request : bytes := example_head 3 ++ [x04; x00; x00].

Lemma short_not_overrun b : (Z.of_nat (length b) < 65535) -> ~ overrun b.
Proof.
  intros Hl (len & header & body & Ef & Hle). destruct (frame_Done b) as (f & E & Hf).
  rewrite Ef in E. injection E as <-. destruct Hf as (_ & _ & _ & H0 & _). lia.
Qed.

Lemma framing_chunks_witness :
  exists msgs c,
    reads 1 true 0 3 [take 20 example_request; take 18 (drop 20 example_request); drop 38 example_request]
      (new_TCPConnection 5 0) = Done (Some (0, msgs, c)) /\ length msgs = 1%nat /\
    c_reply_list c = [make_reply (example_head 3) (str "success")].
Proof.
  pose proof (framing_chunks 1 true 0 5 0 0
    [take 20 example_request; take 18 (drop 20 example_request); drop 38 example_request]) as H.
  cbv zeta in H. match type of H with match ?o with _ => _ end => set (v := o) in H end.
  vm_compute in v. subst v. cbv beta iota in H. destruct H as [_ H].
  destruct H as (c & E & Hc); [right; apply short_not_overrun; by vm_compute|].
  eexists _, c. split; [exact E|]. split; [reflexivity|]. rewrite Hc. by vm_compute.
Defined.



Lemma replies_delivered_witness :
  exists sent e, write_loop [10; 0; 33] [make_reply (example_head 3) (str "success")] 0 = Done (sent, e) /\
    match e with
    | Some (Some (rest, pos)) =>
        rest = [] /\ pos = 0%nat /\ sent = take 32 (example_head 3) ++ le32 7 ++ str "success"
    | _ => sent `prefix_of` take 32 (example_head 3) ++ le32 7 ++ str "success"
    end.
Proof.
  destruct (replies_delivered [(example_head 3, str "success")] [10; 0; 33]) as [(sent & e & E & He) _].
  - apply Forall_singleton. split; [by vm_compute|]. split; [|by apply (bool_decide_unpack _); vm_compute].
    apply (bool_decide_unpack _). by vm_compute.
  - exists sent, e. split; [exact E|]. cbn [flat_map] in He. rewrite app_nil_r in He. exact He.
Defined.
