(* ===== verification/SignalingSafety.v ===== *)
(** * The connections of a signaling worker

    The table of connections and the connections themselves agree in every
    reachable state, and a handler is undefined only in the named cases. *)

From S2P Require Import Prelude StringEncode Sds ByteBuffer State Signaling SignalingTheory.
Local Open Scope Z_scope.

(** ** The invariant *)

(** What the framing relies on. *)
Definition conn_ok (c : TCPConnection) : Prop :=
  match c_current_state c with
  | STATE_HEAD => c_bytes_expected c = Z.of_nat XHEAD_SIZE /\ c_bytes_processed c = 0
  | STATE_BODY => (XHEAD_SIZE <= length (c_querybuf c))%nat /\
      head_body_len (c_querybuf c) = Done (c_bytes_expected c) /\
      (c_bytes_processed c = Z.of_nat XHEAD_SIZE \/ c_bytes_processed c = 65535)
  end.

Record worker_ok (w : SignalingWorker) : Prop := {
  wk_table : forall i a, sw_conns w !! i = Some (Some a) ->
    exists c, sw_heap w !! a = Some c /\ c_fd c = Z.of_nat i;
  wk_conn : forall a c, sw_heap w !! a = Some c ->
    0 <= c_fd c /\ sw_conns w !! Z.to_nat (c_fd c) = Some (Some a) /\ conn_ok c;
}.

Lemma conn_ok_new fd now : conn_ok (new_TCPConnection fd now).
Proof. done. Qed.

Lemma conn_ok_append data c : conn_ok c -> conn_ok (c_append data c).
Proof.
  unfold conn_ok. cbn. destruct (c_current_state c); [done|]. intros (Hl & Hb & Hp).
  rewrite length_app. split; [lia|]. split; [|done]. unfold head_body_len in *.
  rewrite le32_at_app; [done|]. unfold XHEAD_SIZE in Hl. lia.
Qed.

Lemma conn_ok_expected c : conn_ok c -> 0 <= c_bytes_expected c < 2 ^ 32.
Proof.
  unfold conn_ok. destruct (c_current_state c); [intros [-> _]; unfold XHEAD_SIZE; lia|].
  intros (_ & Hb & _). by apply le32_at_range in Hb.
Qed.

Lemma add_reply_ok r c : conn_ok c -> conn_ok (add_reply r c).
Proof. done. Qed.

Section safety.
Context `{JsonLib}.
Variables (worker_id connection_timeout : Z) (notified : bool).

(** The buffer [q] has a request on whose body the parser throws. *)
Definition nested_body (q : bytes) : Prop :=
  exists len body, head_body_len q = Done len /\ read_at q XHEAD_SIZE (Z.to_nat len) = Done body /\
    json_parse body = JsonThrows.

Definition query_result (c : TCPConnection) (o : outcome (option (Z * list RtcMsg * TCPConnection))) : Prop :=
  match o with
  | Done (Some (ret, msgs, c')) => conn_ok c' /\ c_fd c' = c_fd c
  | Done None => True
  | Throws e => e = json_exception /\ nested_body (c_querybuf c)
  | Undef _ => False
  end.

(** The loop over the buffer reads inside it. *)
Lemma query_ok fuel a : forall c, conn_ok c -> query_result c (process_query_buffer worker_id notified fuel a c).
Proof.
  induction fuel as [|fuel IH]; intros c Hc; [done|]. cbn [process_query_buffer].
  destruct (_ <? _) eqn:El; [by split|]. apply Z.ltb_ge in El. unfold conn_ok in Hc.
  destruct (c_current_state c) eqn:Es.
  - destruct Hc as [Hexp Hpr]. rewrite Hexp, Hpr in El.
    unfold head_magic_num. rewrite le32_at_Done by (unfold XHEAD_SIZE in *; lia). cbn [mbind outcome_bind].
    destruct (negb _).
    { split; [|done]. unfold conn_ok. by rewrite Es. }
    destruct (head_body_len (c_querybuf c)) as [len| |] eqn:Eb;
      [|unfold head_body_len in Eb; rewrite le32_at_Done in Eb by (unfold XHEAD_SIZE in *; lia); done..].
    cbn [mbind outcome_bind]. apply (IH (c_progress STATE_BODY len (Z.of_nat XHEAD_SIZE) c)).
    unfold conn_ok. cbn. split; [unfold XHEAD_SIZE in *; lia|]. split; [done|by left].
  - destruct Hc as (Hl & Hb & Hpr). pose proof (le32_at_range _ _ _ Hb) as Hrange.
    rewrite Hb. rewrite (read_at_Done _ 0 XHEAD_SIZE) by lia. cbn [mbind outcome_bind].
    assert (Hbody : read_at (c_querybuf c) XHEAD_SIZE (Z.to_nat (c_bytes_expected c)) =
      Done (take (Z.to_nat (c_bytes_expected c)) (drop XHEAD_SIZE (c_querybuf c))))
      by (apply read_at_Done; unfold XHEAD_SIZE in *; lia).
    rewrite Hbody. cbn [mbind outcome_bind]. set (header := take XHEAD_SIZE _). set (body := take (Z.to_nat _) _) in *.
    destruct (request_cases worker_id notified a (c_fd c) header body) as [(ret & msgs & o & -> & _)|[-> Hn]].
    { unfold header. rewrite length_take, length_drop. unfold XHEAD_SIZE in *. lia. }
    2: { split; [done|]. by exists (c_bytes_expected c), body. }
    cbn [mbind outcome_bind]. set (c1 := match o with Some r => add_reply r c | None => c end).
    assert (Hc1 : conn_ok c1 /\ c_fd c1 = c_fd c /\ c_querybuf c1 = c_querybuf c /\
      c_bytes_expected c1 = c_bytes_expected c).
    { assert (conn_ok c) by (unfold conn_ok; by rewrite Es). unfold c1. by destruct o. }
    destruct Hc1 as (K1 & F1 & Q1 & X1). destruct (negb _); [by split|].
    assert (Hr : query_result (c_progress STATE_BODY (c_bytes_expected c1) 65535 c1)
      (process_query_buffer worker_id notified fuel a (c_progress STATE_BODY (c_bytes_expected c1) 65535 c1))).
    { apply IH. unfold conn_ok. cbn. rewrite Q1, X1. split; [done|]. split; [done|by right]. }
    destruct (process_query_buffer _ _ _ _ _) as [[[[ret' msgs'] c']|]|e|u]; cbn in Hr |- *; [|done| |done].
    + destruct Hr as [R1 R2]. split; [done|]. by rewrite R2.
    + destruct Hr as [-> Hn]. split; [done|]. by rewrite <- Q1.
Qed.

(** ** Steps *)

(** A connection changes in place. *)
Lemma tcp_put_ok a c c' w :
  worker_ok w -> sw_heap w !! a = Some c -> c_fd c' = c_fd c -> conn_ok c' ->
  worker_ok (sw_set_heap <[a := c']> w).
Proof.
  intros [Ht Hc] Ha Efd Hok. split.
  - intros i b Hi. cbn in *. destruct (Ht i b Hi) as (x & Hx & Ex). destruct (decide (b = a)) as [->|Hne].
    + exists c'. rewrite lookup_insert_eq. split; [done|]. rewrite Ha in Hx. injection Hx as <-. congruence.
    + exists x. by rewrite lookup_insert_ne.
  - intros b x Hb. cbn in *. destruct (decide (b = a)) as [->|Hne].
    + rewrite lookup_insert_eq in Hb. injection Hb as <-. rewrite Efd. destruct (Hc a c Ha) as (H1 & H2 & _). by split.
    + rewrite lookup_insert_ne in Hb by done. by apply Hc.
Qed.

Lemma emit_ok evs w : worker_ok w -> worker_ok (sw_emit evs w).
Proof. intros [Ht Hc]. by split. Qed.

Lemma conns_at_spec E D fd o Q w :
  sw_conns w !! Z.to_nat fd = Some o -> Q o w -> wp E D (conns_at fd) Q w.
Proof. intros Ho HQ. unfold wp, conns_at. by rewrite Ho. Qed.

Lemma tcp_at_spec E D a c Q w : sw_heap w !! a = Some c -> Q c w -> wp E D (tcp_at a) Q w.
Proof. intros Ha HQ. unfold wp, tcp_at. by rewrite Ha. Qed.

Lemma close_conn_spec E D a c Q w :
  worker_ok w -> sw_heap w !! a = Some c -> (forall w', worker_ok w' -> Q () w') -> wp E D (close_conn a) Q w.
Proof.
  intros Hok Ha HQ. destruct Hok as [Ht Hc]. destruct (Hc a c Ha) as (H0 & Hi & _).
  apply st_wp_bind. eapply tcp_at_spec; [exact Ha|]. apply st_wp_bind, st_wp_put, st_wp_bind. unfold conns_put.
  apply st_wp_bind. eapply conns_at_spec; [exact Hi|]. apply st_wp_put, st_wp_put, HQ.
  assert (Hlen : (Z.to_nat (c_fd c) < length (sw_conns w))%nat) by (by apply lookup_lt_Some in Hi).
  split; cbn.
  - intros i b Hb. destruct (decide (i = Z.to_nat (c_fd c))) as [->|Hne].
    { by rewrite list_lookup_insert_eq in Hb. }
    rewrite list_lookup_insert_ne in Hb by done. destruct (Ht i b Hb) as (x & Hx & Ex). exists x.
    split; [|done]. rewrite lookup_delete_ne; [done|]. intros <-. rewrite Ha in Hx. injection Hx as <-. lia.
  - intros b x Hb. apply lookup_delete_Some in Hb as [Hne Hb]. destruct (Hc b x Hb) as (Hx0 & Hx & Hxok).
    split; [done|]. split; [|done]. rewrite list_lookup_insert_ne; [done|]. intros E0.
    rewrite <- E0, Hi in Hx. congruence.
Qed.

Lemma valid_fd_spec E D lowest fd Q w :
  Q ((lowest <=? fd) && (fd <? Z.of_nat (length (sw_conns w)))) w -> wp E D (valid_fd lowest fd) Q w.
Proof. done. Qed.

(** ** Inputs *)

(** The allocator returns a free address and the kernel a free descriptor;
    events come for open connections. *)
Definition sw_input_ok (i : sw_input) (w : SignalingWorker) : Prop :=
  match i with
  | SwNewConn fd a _ => 0 <= fd < 2 ^ 30 /\ sw_heap w !! a = None /\
      forall b, sw_conns w !! Z.to_nat fd <> Some (Some b)
  | SwReadable fd _ _ => 0 <= fd /\ exists a, sw_conns w !! Z.to_nat fd = Some (Some a)
  | SwTimer a _ => is_Some (sw_heap w !! a)
  | SwWritable _ _ _ | SwPushMsg _ | SwNotified => True
  end.

(** Where a handler is undefined: the descriptor 0 and an empty table; an
    announced length that is negative as an [int], where the process may also
    be aborted; a reply whose text was cut
    off; an offer for a connection that has no head yet, having taken over the
    address and the descriptor of the one that asked for it. *)
Definition sw_defect (i : sw_input) (w : SignalingWorker) : Prop :=
  match i with
  | SwNewConn fd _ _ => fd = 0 /\ sw_conns w = []
  | SwReadable fd _ _ => exists a c, sw_conns w !! Z.to_nat fd = Some (Some a) /\ sw_heap w !! a = Some c /\
      2 ^ 31 <= c_bytes_expected c
  | SwWritable fd _ _ => exists a c, sw_conns w !! Z.to_nat fd = Some (Some a) /\ sw_heap w !! a = Some c /\
      Exists (fun r => (length (rp_buf r) < rp_size r)%nat) (c_reply_list c)
  | SwNotified => exists msg q a c, sw_q_msg w = msg :: q /\ rm_conn msg = Some a /\ sw_heap w !! a = Some c /\
      (length (c_querybuf c) + 1 < XHEAD_SIZE)%nat
  | SwPushMsg _ | SwTimer _ _ => False
  end.

(** Where a handler throws: the announced length of [sw_defect], for which memory
    cannot be had, and a body that the parser throws on. *)
Definition sw_throws (i : sw_input) (w : SignalingWorker) (e : exn) : Prop :=
  (e = aborted /\ sw_defect i w) \/
  (e = json_exception /\
   match i with
   | SwReadable fd (Some data) _ => exists a c, sw_conns w !! Z.to_nat fd = Some (Some a) /\
       sw_heap w !! a = Some c /\ nested_body (c_querybuf c ++ data)
   | _ => False
   end).

Lemma resized_lookup (l : list (option nat)) (fd : Z) i :
  let l' := if Z.of_nat (length l) <=? fd then take (Z.to_nat (fd * 2)) l ++ repeat None (Z.to_nat (fd * 2) - length l)
            else l in
  (forall o, l !! i = Some o -> l' !! i = Some o) /\ (forall a, l' !! i = Some (Some a) -> l !! i = Some (Some a)).
Proof.
  intros l'. unfold l'. destruct (_ <=? _) eqn:E; [|by split]. apply Z.leb_le in E.
  rewrite take_ge by lia. split.
  - intros o Ho. by apply lookup_app_l_Some.
  - intros a Ha. apply lookup_app_Some in Ha as [Ha|[_ Ha]]; [done|].
    apply list_elem_of_lookup_2, list_elem_of_In, repeat_spec in Ha. done.
Qed.

Lemma resized_length (l : list (option nat)) (fd : Z) :
  0 <= fd -> (fd = 0 -> l <> []) ->
  let l' := if Z.of_nat (length l) <=? fd then take (Z.to_nat (fd * 2)) l ++ repeat None (Z.to_nat (fd * 2) - length l)
            else l in
  exists o, l' !! Z.to_nat fd = Some o.
Proof.
  intros H0 Hne l'. apply lookup_lt_is_Some_2. unfold l'. destruct (_ <=? _) eqn:E.
  - apply Z.leb_le in E. rewrite length_app, repeat_length, length_take.
    destruct (decide (fd = 0)) as [->|]; [|lia]. destruct l; [by destruct (Hne eq_refl)|cbn in *; lia].
  - apply Z.leb_gt in E. lia.
Qed.

Lemma new_conn_spec fd a now w :
  worker_ok w -> sw_input_ok (SwNewConn fd a now) w ->
  wp (fun _ => False) (fun _ => sw_defect (SwNewConn fd a now) w) (new_conn fd a now) (fun _ w' => worker_ok w') w.
Proof.
  intros [Ht Hc] ([H0 _] & Ha & Hfree). unfold new_conn. rewrite (proj2 (Z.ltb_ge _ _) H0).
  apply st_wp_bind, st_wp_put, st_wp_bind, st_wp_put, st_wp_bind.
  destruct (decide (fd = 0 /\ sw_conns w = [])) as [[-> E]|Hn].
  { unfold wp, conns_at. cbn. rewrite E. cbn. done. }
  pose proof (resized_lookup (sw_conns w) fd) as Hres.
  destruct (resized_length (sw_conns w) fd H0) as [o Ho]; [intros -> E; by apply Hn|].
  set (l' := if _ <=? fd then _ else _) in *. eapply conns_at_spec; [exact Ho|]. apply st_wp_put.
  assert (Hlen : (Z.to_nat fd < length l')%nat) by (by apply lookup_lt_Some in Ho).
  split; cbn; fold l'.
  - intros i b Hb. destruct (decide (i = Z.to_nat fd)) as [->|Hne].
    + rewrite list_lookup_insert_eq in Hb by done. injection Hb as <-. eexists.
      rewrite lookup_insert_eq. split; [done|]. cbn. lia.
    + rewrite list_lookup_insert_ne in Hb by done. apply Hres in Hb. destruct (Ht i b Hb) as (x & Hx & Ex).
      exists x. rewrite lookup_insert_ne; [done|]. intros <-. congruence.
  - intros b x Hb. destruct (decide (b = a)) as [->|Hne].
    + rewrite lookup_insert_eq in Hb. injection Hb as <-. cbn. split; [done|].
      by rewrite list_lookup_insert_eq.
    + rewrite lookup_insert_ne in Hb by done. destruct (Hc b x Hb) as (Hx0 & Hx & Hxok).
      split; [done|]. split; [|done]. rewrite list_lookup_insert_ne; [by apply Hres|].
      intros E. apply (Hfree b). by rewrite E.
Qed.

Lemma read_query_spec fuel fd rd now w :
  worker_ok w -> sw_input_ok (SwReadable fd rd now) w ->
  wp (sw_throws (SwReadable fd rd now) w) (fun _ => sw_defect (SwReadable fd rd now) w)
    (read_query worker_id notified fuel fd rd now)
    (fun h w' => h = Returns -> worker_ok w') w.
Proof.
  intros Hok (H0 & a & Hi). destruct (wk_table w Hok _ _ Hi) as (c & Ha & Efd).
  destruct (wk_conn w Hok a c Ha) as (_ & _ & Hcok). pose proof (conn_ok_expected c Hcok) as Hexp.
  assert (Hlen : (Z.to_nat fd < length (sw_conns w))%nat) by (by apply lookup_lt_Some in Hi).
  apply st_wp_bind, valid_fd_spec. rewrite (proj2 (Z.leb_le _ _) H0), (proj2 (Z.ltb_lt _ _)) by lia. cbn [andb negb].
  apply st_wp_bind. eapply conns_at_spec; [exact Hi|]. apply st_wp_bind. eapply tcp_at_spec; [exact Ha|].
  destruct (i32 (c_bytes_expected c) <? 0) eqn:Eneg.
  { assert (Hd : sw_defect (SwReadable fd rd now) w).
    { exists a, c. split_and!; [done|done|]. apply Z.ltb_lt in Eneg.
      destruct (Z.lt_ge_cases (c_bytes_expected c) (2 ^ 31)) as [Hlt|]; [|done]. rewrite i32_id in Eneg by lia. lia. }
    apply st_wp_bind. unfold wp at 1, lift, zblock. cbv zeta.
    destruct (PTRDIFF_MAX <? _); [by left|]. by destruct (_ <? PREFIX_SIZE). }
  destruct rd as [data|].
  - pose proof (query_ok fuel a (c_append data (c_touch now c))
      ltac:(by apply (conn_ok_append data (c_touch now c)))) as Hr.
    apply st_wp_bind. unfold wp at 1, lift.
    destruct (process_query_buffer _ _ _ _ _) as [[[[ret msgs] c']|]|e|u]; cbn in Hr; [|by apply st_wp_ret| |done].
    2: { right. destruct Hr as [-> Hn]. split; [done|]. by exists a, c. }
    destruct Hr as [Hc' Ef']. apply st_wp_bind, st_wp_put, st_wp_bind, st_wp_put, st_wp_bind.
    assert (Hok' : worker_ok (sw_emit (map SwRtcMsg msgs) (sw_set_heap <[a := c']> w))).
    { apply emit_ok. by apply (tcp_put_ok a c). }
    destruct (ret =? 0); [by apply st_wp_ret, st_wp_ret|]. eapply close_conn_spec; [exact Hok'|apply lookup_insert_eq|].
    intros w' Hw'. by apply st_wp_ret.
  - apply st_wp_bind, st_wp_put, st_wp_bind. eapply close_conn_spec; [|apply lookup_insert_eq|].
    + by apply (tcp_put_ok a c).
    + intros w' Hw'. by apply st_wp_ret.
Qed.

(** The loop over the replies is undefined only at one that was cut off. *)
Lemma write_loop_undef results : forall replies pos,
  match write_loop results replies pos with
  | Done _ => True
  | Throws _ => False
  | Undef _ => Exists (fun r => (length (rp_buf r) < rp_size r)%nat) replies
  end.
Proof.
  induction results as [|n results IH]; intros [|r rest] pos; cbn [write_loop]; try done.
  assert (Hr : reply_from r pos = Done (drop pos (take (rp_size r) (rp_buf r))) \/
    (exists u, reply_from r pos = Undef u) /\ (length (rp_buf r) < rp_size r)%nat).
  { unfold reply_from. case_bool_decide; [by left|right]. case_bool_decide; (split; [by eexists|lia]). }
  destruct Hr as [-> |[[u ->] Hlt]]; cbn [mbind outcome_bind].
  - destruct (n =? -1); [done|].
    destruct (n =? 0); [exact (IH (r :: rest) pos)|]. case_bool_decide as Hd.
    + pose proof (IH rest 0%nat) as Hrest. destruct (write_loop results rest 0) as [[more e]| |]; cbn; [done|done|].
      by apply Exists_cons_tl.
    + pose proof (IH (r :: rest) (pos + Z.to_nat n)%nat) as Hrest.
      by destruct (write_loop results (r :: rest) _) as [[more e]| |].
  - by apply Exists_cons_hd.
Qed.

Lemma write_reply_spec fd results now w :
  worker_ok w ->
  wp (fun _ => False) (fun _ => sw_defect (SwWritable fd results now) w) (write_reply fd results now)
    (fun h w' => h = Returns -> worker_ok w') w.
Proof.
  intros Hok. apply st_wp_bind, valid_fd_spec. destruct (1 <=? fd) eqn:E1; [|by apply st_wp_ret].
  destruct (fd <? _) eqn:E2; [|by apply st_wp_ret]. apply Z.leb_le in E1. apply Z.ltb_lt in E2. cbn [andb negb].
  destruct (lookup_lt_is_Some_2 (sw_conns w) (Z.to_nat fd)) as [o Ho]; [lia|].
  apply st_wp_bind. eapply conns_at_spec; [exact Ho|]. destruct o as [a|]; [|by apply st_wp_ret].
  destruct (wk_table w Hok _ _ Ho) as (c & Ha & Efd). destruct (wk_conn w Hok a c Ha) as (_ & _ & Hcok).
  apply st_wp_bind. eapply tcp_at_spec; [exact Ha|]. apply st_wp_bind. unfold wp at 1, lift.
  pose proof (write_loop_undef results (c_reply_list c) (c_cur_resp_pos c)) as Hu.
  destruct (write_loop results (c_reply_list c) (c_cur_resp_pos c)) as [[sent e]| |]; [|done|by exists a, c].
  apply st_wp_bind, st_wp_put. assert (Hok' : worker_ok (sw_emit [SwSent fd sent] w)) by (by apply emit_ok).
  destruct e as [[[replies pos]|]|]; [| |by apply st_wp_ret].
  - apply st_wp_bind, st_wp_put, st_wp_ret. intros _. by apply (tcp_put_ok a c).
  - apply st_wp_bind. eapply close_conn_spec; [exact Hok'|exact Ha|]. intros w' Hw'. by apply st_wp_ret.
Qed.

Lemma process_rtc_msg_spec w :
  worker_ok w ->
  wp (fun _ => False) (fun _ => sw_defect SwNotified w) process_rtc_msg (fun _ w' => worker_ok w') w.
Proof.
  intros Hok. apply st_wp_bind, st_wp_get. destruct (sw_q_msg w) as [|msg q] eqn:Eq; [by apply st_wp_ret|].
  apply st_wp_bind, st_wp_put. set (w1 := sw_set_q_msg _ w).
  assert (Hok1 : worker_ok w1) by (destruct Hok as [Ht Hc]; by split).
  destruct (_ || _); [|by apply st_wp_ret]. unfold response_server_offer.
  destruct (rm_conn msg) as [a|] eqn:Ea; [|by apply st_wp_ret].
  apply st_wp_bind, valid_fd_spec. destruct (1 <=? rm_fd msg) eqn:E1; [|by apply st_wp_ret].
  destruct (rm_fd msg <? _) eqn:E2; [|by apply st_wp_ret]. apply Z.leb_le in E1. apply Z.ltb_lt in E2. cbn [andb negb].
  destruct (lookup_lt_is_Some_2 (sw_conns w1) (Z.to_nat (rm_fd msg))) as [o Ho]; [lia|].
  apply st_wp_bind. eapply conns_at_spec; [exact Ho|]. case_bool_decide as Eo; [|by apply st_wp_ret]. subst o.
  destruct (wk_table w1 Hok1 _ _ Ho) as (c & Hc & Efd). destruct (wk_conn w1 Hok1 a c Hc) as (_ & _ & Hcok).
  cbn [negb]. apply st_wp_bind. eapply tcp_at_spec; [exact Hc|]. apply st_wp_bind. unfold wp at 1, lift, read_at.
  case_bool_decide as Hl.
  - apply st_wp_put. by apply (tcp_put_ok a c).
  - exists msg, q, a, c. split_and!; try done. rewrite length_app in Hl. cbn in Hl. lia.
Qed.

Lemma handle_ok fuel i w :
  worker_ok w -> sw_input_ok i w ->
  wp (sw_throws i w) (fun _ => sw_defect i w) (sw_handle worker_id connection_timeout notified fuel i)
    (fun h w' => h = Returns -> worker_ok w') w.
Proof.
  intros Hok Hi. destruct i as [fd a now|fd rd now|fd results now|msg| |a now]; cbn [sw_handle].
  - apply st_wp_bind. eapply st_wp_mono; [by apply st_wp_exn, new_conn_spec|]. intros [] w' Hw'. by apply st_wp_ret.
  - by apply read_query_spec.
  - by apply st_wp_exn, write_reply_spec.
  - apply st_wp_bind, st_wp_put, st_wp_ret. intros _. destruct Hok as [Ht Hc]. by split.
  - apply st_wp_bind. eapply st_wp_mono; [by apply st_wp_exn, process_rtc_msg_spec|]. intros [] w' Hw'. by apply st_wp_ret.
  - destruct Hi as [c Ha]. apply st_wp_bind, st_wp_bind. eapply tcp_at_spec; [exact Ha|].
    destruct (_ <=? _); [|by apply st_wp_ret, st_wp_ret]. eapply close_conn_spec; [done|exact Ha|]. intros w' Hw'. by apply st_wp_ret.
Qed.

Inductive sw_reachable : SignalingWorker -> Prop :=
  | sw_new : sw_reachable new_worker
  | sw_step fuel i w w' :
      sw_reachable w -> sw_input_ok i w ->
      sw_handle worker_id connection_timeout notified fuel i w = Done (Returns, w') -> sw_reachable w'.

Lemma sw_reachable_ok w : sw_reachable w -> worker_ok w.
Proof.
  induction 1 as [|fuel i w w' _ IH Hi E]; [by split|].
  pose proof (handle_ok fuel i w IH Hi) as Hs. unfold wp in Hs. rewrite E in Hs. by apply Hs.
Qed.
End safety.

(** C12: the connections of a signaling worker are safe.  In every reachable
    state the table and the connections agree: every entry leads to a live
    connection with that descriptor, and every connection is in the table and
    in a state the framing can continue from.  Each handler then ends without
    touching a freed connection or reading outside a buffer, or does not
    return, but for the five named cases: the descriptor 0 for an empty table, an
    announced length from 2^31 on, a reply that was cut off, an offer for a
    connection without a head ([sw_defect]), and a body that is nested too deep
    for the parser, whose exception ends the process ([sw_throws]).  The memory
    of the request buffer is looked at in RequestBuffer. *)
Theorem signaling_worker_safe `{JsonLib} (worker_id connection_timeout : Z) (notified : bool) (fuel : nat)
    (i : sw_input) (w : SignalingWorker) :
  sw_reachable worker_id connection_timeout notified w -> sw_input_ok i w ->
  worker_ok w /\
  match sw_handle worker_id connection_timeout notified fuel i w with
  | Done (Returns, w') => worker_ok w'
  | Done (Runs_on, _) => True
  | Throws e => sw_throws i w e
  | Undef _ => sw_defect i w
  end.
Proof.
  intros Hr Hi. pose proof (sw_reachable_ok _ _ _ w Hr) as Hok. split; [done|].
  pose proof (handle_ok worker_id connection_timeout notified fuel i w Hok Hi) as Hs. unfold wp in Hs.
  destruct (sw_handle _ _ _ fuel i w) as [[[] w']| |]; [by apply Hs|done..].
Qed.

(** ** Example *)

#[local] Existing Instance toy_json.

Fixpoint sw_run (ins : list sw_input) (w : SignalingWorker) : option SignalingWorker :=
  match ins with
  | [] => Some w
  | i :: ins =>
      match sw_handle 1 30000000 true 3 i w with Done (Returns, w') => sw_run ins w' | _ => None end
  end.

(** A connection asks to publish, and hangs up; the next one gets its
    descriptor and address. *)
Definition example_publish : bytes := example_head 2 ++ [x01; x00].
Definition example_offer_msg : RtcMsg :=
  mkRtcMsg CMDNO_PUSH 7 (str "room") [] 1 1 0 (Some 1) (Some 9%nat) 5 (str "offer") 0 None.
Definition example_inputs : list sw_input :=
  [SwNewConn 5 9 0; SwReadable 5 (Some (example_head 2)) 1; SwReadable 5 (Some [x01; x00]) 2;
   SwReadable 5 None 3; SwPushMsg example_offer_msg; SwNewConn 5 9 4].

Definition example_worker : SignalingWorker := default new_worker (sw_run example_inputs new_worker).

Lemma example_worker_reachable : sw_reachable 1 30000000 true example_worker.
Proof.
  assert (Hone : forall i w w', sw_reachable 1 30000000 true w -> sw_input_ok i w ->
    sw_run [i] w = Some w' -> sw_reachable 1 30000000 true w').
  { intros i w w' Hr Hi. cbn [sw_run]. destruct (sw_handle 1 30000000 true 3 i w) as [[[] w1]| |] eqn:E; [|done..].
    intros [= <-]. by eapply sw_step. }
  apply (Hone (SwNewConn 5 9 4) (default new_worker (sw_run (take 5 example_inputs) new_worker))); [| |by vm_compute].
  - apply (Hone (SwPushMsg example_offer_msg) (default new_worker (sw_run (take 4 example_inputs) new_worker)));
      [|done|by vm_compute].
    apply (Hone (SwReadable 5 None 3) (default new_worker (sw_run (take 3 example_inputs) new_worker)));
      [|split; [lia|by eexists]|by vm_compute].
    apply (Hone (SwReadable 5 (Some [x01; x00]) 2) (default new_worker (sw_run (take 2 example_inputs) new_worker)));
      [|split; [lia|by eexists]|by vm_compute].
    apply (Hone (SwReadable 5 (Some (example_head 2)) 1) (default new_worker (sw_run (take 1 example_inputs) new_worker)));
      [|split; [lia|by eexists]|by vm_compute].
    apply (Hone (SwNewConn 5 9 0) new_worker); [apply sw_new| |by vm_compute].
    split; [lia|]. split; [done|]. intros b. by vm_compute.
  - split; [lia|]. split; [by vm_compute|]. intros b. by vm_compute.
Qed.

(** The offer of the first connection reaches the second, which has sent
    nothing: its empty buffer is read as a head. *)
Lemma signaling_worker_safe_witness :
  worker_ok example_worker /\
  sw_handle 1 30000000 true 3 SwNotified example_worker = Undef out_of_bounds /\
  sw_defect SwNotified example_worker.
Proof.
  destruct (signaling_worker_safe 1 30000000 true 3 SwNotified example_worker example_worker_reachable I)
    as [Hok Hs].
  assert (E : sw_handle 1 30000000 true 3 SwNotified example_worker = Undef out_of_bounds) by (by vm_compute).
  split; [exact Hok|]. split; [exact E|]. rewrite E in Hs. exact Hs.
Defined.

(** A publisher's body of 1001 brackets: the parser throws, and nobody catches. *)
Definition example_deep : bytes := example_head 1001 ++ repeat "["%byte 1001.

Lemma nested_body_ends_process :
  sw_handle 1 30000000 true 3 (SwReadable 5 (Some example_deep) 1)
    (default new_worker (sw_run [SwNewConn 5 9 0] new_worker)) = Throws json_exception.
Proof. vm_compute. reflexivity. Qed.
