(* ===== verification/RequestBuffer.v ===== *)
(** * The buffer of a request

    Signaling reads requests into a list of bytes; the program reads them into
    a dynamic string.  They agree as long as the announced length is moderate;
    the rest of the lengths a client can announce is here too. *)

From S2P Require Import Prelude StringEncode ByteBuffer State Sds SdsTheory Signaling SignalingTheory SignalingSafety.
Local Open Scope Z_scope.

(** What [_read_query] passes for the [size_t] parameter of [sdsMakeRoomFor]. *)
Definition read_room (c : TCPConnection) : Z := u64 (i32 (c_bytes_expected c)).

Lemma read_room_small c : 0 <= c_bytes_expected c < 2 ^ 31 -> read_room c = c_bytes_expected c.
Proof. intros H. unfold read_room. rewrite i32_id, u64_id; lia. Qed.

Lemma read_room_negative c :
  2 ^ 31 <= c_bytes_expected c < 2 ^ 32 -> read_room c = 2 ^ 64 - 2 ^ 32 + c_bytes_expected c.
Proof.
  intros H. unfold read_room, i32, u64.
  replace (c_bytes_expected c + 2 ^ 31) with (c_bytes_expected c - 2 ^ 31 + 1 * 2 ^ 32) by lia.
  rewrite Z.mod_add, (Z.mod_small (c_bytes_expected c - 2 ^ 31)) by lia.
  replace (c_bytes_expected c - 2 ^ 31 - 2 ^ 31) with (2 ^ 64 - 2 ^ 32 + c_bytes_expected c + (-1) * 2 ^ 64) by lia.
  rewrite Z.mod_add by lia. apply Z.mod_small. lia.
Qed.

(** A size close to [2 ^ 64] cannot be had. *)
Lemma grown_aborts len addlen :
  0 <= len -> 2 ^ 63 <= addlen -> len + addlen < 2 ^ 64 - SDS_MAX_PREALLOC - 17 ->
  zblock (hdr_size (grown len addlen)) = Throws aborted.
Proof.
  unfold SDS_MAX_PREALLOC. intros H0 Ha Hl. unfold grown. rewrite (u64_id (len + addlen)) by lia. unfold SDS_MAX_PREALLOC.
  replace (_ <? _) with false by (symmetry; apply Z.ltb_ge; lia). rewrite u64_id by lia.
  unfold hdr_size, SDS_HDR, zblock, PREFIX_SIZE, PTRDIFF_MAX. rewrite !u64_id by (rewrite ?u64_id by lia; lia).
  by replace (_ <? _) with true by (symmetry; apply Z.ltb_lt; lia).
Qed.

Lemma u64_wrap z : 2 ^ 64 <= z < 2 * 2 ^ 64 -> u64 z = z - 2 ^ 64.
Proof.
  intros H. unfold u64. replace z with (z - 2 ^ 64 + 1 * 2 ^ 64) at 1 by lia. rewrite Z.mod_add by lia.
  apply Z.mod_small. lia.
Qed.

(** The sizes in between, where the length of the header or of the prefix
    takes the sum over [2 ^ 64]: the block has no room for a header. *)
Lemma grown_edge len addlen :
  0 <= len -> 2 ^ 63 <= addlen < 2 ^ 64 -> 2 ^ 64 - SDS_MAX_PREALLOC - 17 <= len + addlen < 2 ^ 64 - SDS_MAX_PREALLOC - 1 ->
  zblock (hdr_size (grown len addlen)) = Undef out_of_bounds \/
  exists n, zblock (hdr_size (grown len addlen)) = Done n /\ (n < SDS_HDR)%nat.
Proof.
  unfold SDS_MAX_PREALLOC. intros H0 Ha Hl. unfold grown. rewrite (u64_id (len + addlen)) by lia. unfold SDS_MAX_PREALLOC.
  replace (_ <? _) with false by (symmetry; apply Z.ltb_ge; lia). rewrite u64_id by lia.
  unfold hdr_size, SDS_HDR, zblock, PREFIX_SIZE, PTRDIFF_MAX. set (g := len + addlen + 1024 * 1024).
  destruct (Z.lt_ge_cases (g + 9) (2 ^ 64)) as [Hg|Hg].
  - left. rewrite (u64_id (Z.of_nat 8 + g + 1)), (u64_wrap (_ + 8)) by lia.
    replace (_ <? _) with false by (symmetry; apply Z.ltb_ge; lia).
    by replace (_ <? 8) with true by (symmetry; apply Z.ltb_lt; lia).
  - right. rewrite (u64_wrap (Z.of_nat 8 + g + 1)), u64_id by lia.
    replace (_ <? _) with false by (symmetry; apply Z.ltb_ge; lia).
    replace (_ <? 8) with false by (symmetry; apply Z.ltb_ge; lia).
    eexists. split; [done|]. lia.
Qed.

(** From there on the new length has wrapped, and is smaller than what is asked
    for; at the first of them it is the terminator that makes it wrap. *)
Lemma grown_wraps len addlen :
  0 <= len < 2 ^ 32 -> 2 ^ 63 <= addlen < 2 ^ 64 -> 2 ^ 64 - SDS_MAX_PREALLOC - 1 <= len + addlen ->
  exists n, hdr_size (grown len addlen) = Z.of_nat SDS_HDR + n /\ 0 <= n <= len + SDS_MAX_PREALLOC.
Proof.
  unfold SDS_MAX_PREALLOC. intros H0 Ha Hl. unfold grown, hdr_size, SDS_HDR, SDS_MAX_PREALLOC.
  destruct (Z.lt_ge_cases (len + addlen) (2 ^ 64)) as [Hw|Hw].
  - rewrite (u64_id (len + addlen)) by lia. replace (_ <? _) with false by (symmetry; apply Z.ltb_ge; lia).
    destruct (Z.eq_dec (len + addlen) (2 ^ 64 - 1024 * 1024 - 1)) as [E|E].
    + rewrite (u64_id (_ + 1024 * 1024)), u64_wrap by lia. exists 0. lia.
    + rewrite (u64_wrap (_ + 1024 * 1024)), u64_id by lia. eexists (len + addlen + 1024 * 1024 - 2 ^ 64 + 1). lia.
  - rewrite (u64_wrap (len + addlen)) by lia. destruct (Z.ltb_spec (len + addlen - 2 ^ 64) (1024 * 1024)).
    + rewrite !u64_id by (rewrite ?u64_id by lia; lia). eexists ((len + addlen - 2 ^ 64) * 2 + 1). lia.
    + rewrite !u64_id by (rewrite ?u64_id by lia; lia). eexists (len + addlen - 2 ^ 64 + 1024 * 1024 + 1). lia.
Qed.

(** C32: the buffer of a request holds what was announced, up to a bound.  With
    a moderate length there is room for what is read and the buffer is the
    bytes read so far.  When the buffer grows for a length in the last
    mebibyte below [2 ^ 31], the free space in the header becomes negative,
    which the next [sdsMakeRoomFor] takes for a huge one.  From [2 ^ 31] on, the length is negative as an [int] and the room
    asked for is close to [2 ^ 64]: the process is aborted unless the sum of
    sizes wraps.  In the last mebibyte it does, and the block that is
    allocated for a [read] of almost [2 ^ 64] bytes has at most a mebibyte more
    than the bytes read so far; just before, the block is even too small for
    its header. *)
Theorem request_buffer_bounds (c : TCPConnection) (s : sdshdr) (data : bytes) :
  sds_repr (c_querybuf c) s -> 0 <= c_bytes_expected c < 2 ^ 32 ->
  let len := Z.of_nat (length (c_querybuf c)) in
  (len + c_bytes_expected c <= SDS_LIMIT -> Z.of_nat (length data) <= c_bytes_expected c ->
    yields (sds_fill s (read_room c) data) (c_querybuf (c_append data c))) /\
  (2 ^ 31 - SDS_MAX_PREALLOC <= c_bytes_expected c < 2 ^ 31 -> sdsavail s < c_bytes_expected c ->
    exists s', sdsMakeRoomFor s (read_room c) = Done s' /\ sh_free s' < 0 /\ 2 ^ 63 < sdsavail s') /\
  (2 ^ 31 <= c_bytes_expected c ->
    (len + c_bytes_expected c < 2 ^ 32 - SDS_MAX_PREALLOC - 17 -> sds_fill s (read_room c) data = Throws aborted) /\
    (2 ^ 32 - SDS_MAX_PREALLOC - 17 <= len + c_bytes_expected c < 2 ^ 32 - SDS_MAX_PREALLOC - 1 ->
      sdsMakeRoomFor s (read_room c) = Undef out_of_bounds) /\
    (2 ^ 32 - SDS_MAX_PREALLOC - 1 <= len + c_bytes_expected c ->
      exists s', sdsMakeRoomFor s (read_room c) = Done s' /\
        Z.of_nat (length (sh_buf s')) <= len + SDS_MAX_PREALLOC /\ 2 ^ 63 < read_room c)).
Proof.
  intros Hs Hb len. split_and!.
  - intros Hl Hd. unfold SDS_LIMIT in Hl. rewrite read_room_small by lia. by apply fill_yields.
  - intros Hr Hav. destruct Hs as (extra & -> & Hc). unfold SDS_MAX_PREALLOC, SDS_CAP in *.
    rewrite read_room_small by lia. unfold sdsMakeRoomFor. rewrite sdslen_at by done.
    rewrite (proj2 (Z.leb_gt _ _) Hav). fold len. unfold grown. rewrite (u64_id (len + _)) by lia.
    replace (_ <? SDS_MAX_PREALLOC) with false by (symmetry; apply Z.ltb_ge; unfold SDS_MAX_PREALLOC; lia).
    unfold SDS_MAX_PREALLOC. rewrite (u64_id (len + _ + _)) by lia. rewrite hdr_realloc_at by lia. cbn [mbind outcome_bind].
    eexists. split; [done|]. unfold sdsavail. cbn [sh_free]. rewrite i32_u64.
    assert (E : i32 (len + c_bytes_expected c + 1024 * 1024 - len) = c_bytes_expected c + 1024 * 1024 - 2 ^ 32).
    { unfold i32. replace (_ + 2 ^ 31) with (c_bytes_expected c + 1024 * 1024 - 2 ^ 31 + 1 * 2 ^ 32) by lia.
      rewrite Z.mod_add, Z.mod_small by lia. lia. }
    rewrite E. split; [lia|]. unfold u64.
    replace (_ - 2 ^ 32) with (c_bytes_expected c + 1024 * 1024 - 2 ^ 32 + 2 ^ 64 + (-1) * 2 ^ 64) by lia.
    rewrite Z.mod_add, Z.mod_small by lia. lia.
  - intros Hr. destruct Hs as (extra & -> & Hc). rewrite read_room_negative by lia. unfold sds_fill, sdsMakeRoomFor.
    rewrite sdsavail_at, sdslen_at by done. unfold SDS_CAP in Hc.
    replace (_ <=? _) with false by (symmetry; apply Z.leb_gt; lia). fold len. unfold hdr_realloc, zrealloc.
    unfold SDS_MAX_PREALLOC. split_and!.
    + intros Hl. by rewrite grown_aborts by (unfold SDS_MAX_PREALLOC; lia).
    + intros Hl. destruct (grown_edge len (2 ^ 64 - 2 ^ 32 + c_bytes_expected c)) as [E|(n & E & Hn)];
        [unfold SDS_MAX_PREALLOC; lia..|by rewrite E|]. rewrite E. cbn [mbind outcome_bind]. unfold hdr_buf.
      rewrite bool_decide_eq_false_2; [done|]. rewrite length_app, length_take, repeat_length, length_app, repeat_length. lia.
    + intros Hl. destruct (grown_wraps len (2 ^ 64 - 2 ^ 32 + c_bytes_expected c)) as (n & -> & Hn);
        [unfold SDS_MAX_PREALLOC; lia..|]. unfold SDS_MAX_PREALLOC, SDS_HDR in *.
      rewrite zblock_small by lia. cbn [mbind outcome_bind]. unfold hdr_buf, SDS_HDR.
      assert (El : length (take (Z.to_nat (Z.of_nat 8 + n)) (repeat None 8 ++ sh_buf (sds_at (c_querybuf c) extra)) ++
        repeat None (Z.to_nat (Z.of_nat 8 + n) - length (repeat None 8 ++ sh_buf (sds_at (c_querybuf c) extra)))) = Z.to_nat (8 + n))
        by (rewrite length_app, length_take, repeat_length; lia).
      rewrite bool_decide_eq_true_2 by (rewrite El; lia). cbn [mbind outcome_bind]. eexists. split; [done|]. cbn [sh_buf].
      rewrite length_drop, El. lia.
Qed.

(** What becomes of the process when a connection has read a head with an
    announced length of [2 ^ 31] or more and its descriptor is readable. *)
Definition huge_length_ends (body_len : Z) : outcome (handled * SignalingWorker) :=
  if body_len <? 2 ^ 32 - SDS_MAX_PREALLOC - 53 then Throws aborted else Undef out_of_bounds.

(** C24: one head ends the server.  A new connection that sends a head with an
    announced length in the upper half of what its field holds is accepted;
    as soon as its descriptor is readable again, whatever comes, the process
    is aborted, with all the connections of all its workers, or, in the last
    mebibyte and 53 bytes, where the size wraps, a small block is allocated and [read] is
    asked for more than it holds. *)
Theorem head_ends_process `{JsonLib} (worker_id connection_timeout : Z) (notified : bool) (fuel : nat)
    (fd now t body_len : Z) (head : bytes) (w : SignalingWorker) (a : nat) :
  0 <= fd -> sw_conns w !! Z.to_nat fd = Some (Some a) -> sw_heap w !! a = Some (new_TCPConnection fd now) ->
  length head = XHEAD_SIZE -> head_magic_num head = Done XHEAD_MAGIC_NUM -> head_body_len head = Done body_len ->
  2 ^ 31 <= body_len < 2 ^ 32 -> (2 <= fuel)%nat ->
  exists w', sw_handle worker_id connection_timeout notified fuel (SwReadable fd (Some head) t) w = Done (Returns, w') /\
    forall fuel' rd t', sw_handle worker_id connection_timeout notified fuel' (SwReadable fd rd t') w' = huge_length_ends body_len.
Proof.
  intros H0 Hfd Ha Hlen Hmagic Hbody Hb Hf. destruct fuel as [|[|fuel]]; [lia..|].
  assert (Hvalid : (0 <=? fd) && (fd <? Z.of_nat (length (sw_conns w))) = true).
  { apply lookup_lt_Some in Hfd. rewrite andb_true_iff, Z.leb_le, Z.ltb_lt. lia. }
  set (c := c_progress STATE_BODY body_len (Z.of_nat XHEAD_SIZE) (c_append head (c_touch t (new_TCPConnection fd now)))).
  exists (sw_set_heap <[a := c]> w). split.
  - cbn [sw_handle]. unfold read_query, valid_fd, get, mbind, St_bind, mret, St_ret. cbv beta iota.
    rewrite Hvalid. cbn [negb]. unfold conns_at, tcp_at. rewrite Hfd. cbn [mbind St_bind]. rewrite Ha.
    cbn [new_TCPConnection c_bytes_expected]. change (i32 (Z.of_nat XHEAD_SIZE) <? 0) with false. cbv iota.
    unfold lift. assert (E : process_query_buffer worker_id notified (S (S fuel)) a (c_append head (c_touch t (new_TCPConnection fd now)))
      = Done (Some (0, [], c))).
    { cbn [process_query_buffer c_append c_touch new_TCPConnection c_querybuf c_bytes_processed c_bytes_expected c_current_state app].
      rewrite Hlen, Hmagic, Hbody. cbn [mbind outcome_bind c_progress c_querybuf c_bytes_processed c_bytes_expected].
      change (Z.of_nat XHEAD_SIZE <? 0 + Z.of_nat XHEAD_SIZE) with false. cbn [negb]. rewrite Z.eqb_refl. cbn [negb].
      change (c_querybuf (c_append head _)) with head. rewrite Hlen. by replace (Z.of_nat XHEAD_SIZE <? Z.of_nat XHEAD_SIZE + body_len) with true by (symmetry; apply Z.ltb_lt; lia). }
    rewrite E. cbn. unfold sw_emit, sw_set_heap. cbn. by rewrite app_nil_r.
  - intros fuel' rd t'. cbn [sw_handle]. unfold read_query, valid_fd, get, mbind, St_bind, mret, St_ret. cbv beta iota.
    cbn [sw_set_heap sw_conns]. rewrite Hvalid. cbn [negb]. unfold conns_at, tcp_at. cbn [sw_set_heap sw_conns sw_heap]. rewrite Hfd. cbn [mbind St_bind].
    cbn [sw_set_heap sw_conns sw_heap]. rewrite lookup_insert_eq. assert (Ec : c_bytes_expected c = body_len) by done.
    assert (Er : u64 (i32 (c_bytes_expected c)) = 2 ^ 64 - 2 ^ 32 + body_len) by (rewrite <- Ec; apply read_room_negative; lia).
    replace (i32 (c_bytes_expected c) <? 0) with true.
    2:{ symmetry. apply Z.ltb_lt. rewrite Ec. unfold i32.
        replace (body_len + 2 ^ 31) with (body_len - 2 ^ 31 + 1 * 2 ^ 32) by lia. rewrite Z.mod_add, Z.mod_small by lia. lia. }
    rewrite Er. assert (El : length (c_querybuf c) = XHEAD_SIZE) by (by subst c).
    unfold lift, huge_length_ends. rewrite El. unfold SDS_MAX_PREALLOC. destruct (Z.ltb_spec body_len (2 ^ 32 - 1024 * 1024 - 53)) as [Hs|Hs].
    + rewrite grown_aborts; [done|unfold XHEAD_SIZE, SDS_MAX_PREALLOC; lia..].
    + destruct (Z.lt_ge_cases body_len (2 ^ 32 - 1024 * 1024 - 37)) as [Hl|Hl].
      * destruct (grown_edge (Z.of_nat XHEAD_SIZE) (2 ^ 64 - 2 ^ 32 + body_len)) as [E|(n & E & Hn)];
          [unfold XHEAD_SIZE, SDS_MAX_PREALLOC; lia..| |]; by rewrite E.
      * destruct (grown_wraps (Z.of_nat XHEAD_SIZE) (2 ^ 64 - 2 ^ 32 + body_len)) as (n & -> & Hn);
          [unfold XHEAD_SIZE, SDS_MAX_PREALLOC; lia..|]. unfold XHEAD_SIZE, SDS_HDR, SDS_MAX_PREALLOC in *. by rewrite zblock_small by lia.
Qed.

#[local] Existing Instance toy_json.

(** A head that announces 2 GiB, and the one that announces most. *)
Definition huge_head : bytes := example_head (2 ^ 31).
Definition largest_head : bytes := example_head (2 ^ 32 - 1).

Lemma head_ends_process_witness :
  let w := default new_worker (sw_run [SwNewConn 5 9 0] new_worker) in
  (exists w', sw_handle 1 30000000 true 3 (SwReadable 5 (Some huge_head) 1) w = Done (Returns, w') /\
    forall fuel rd t, sw_handle 1 30000000 true fuel (SwReadable 5 rd t) w' = Throws aborted) /\
  (exists w', sw_handle 1 30000000 true 3 (SwReadable 5 (Some largest_head) 1) w = Done (Returns, w') /\
    forall fuel rd t, sw_handle 1 30000000 true fuel (SwReadable 5 rd t) w' = Undef out_of_bounds).
Proof.
  intros w. split.
  - apply (head_ends_process 1 30000000 true 3 5 0 1 (2 ^ 31) huge_head w 9%nat); try (by vm_compute); lia.
  - apply (head_ends_process 1 30000000 true 3 5 0 1 (2 ^ 32 - 1) largest_head w 9%nat); try (by vm_compute); lia.
Defined.

Lemma request_buffer_bounds_witness :
  let c := new_TCPConnection 5 0 in
  sds_repr (c_querybuf c) (sds_at [] []) /\ yields (sds_fill (sds_at [] []) (read_room c) huge_head) huge_head.
Proof.
  intros c. assert (Hs : sds_repr (c_querybuf c) (sds_at [] [])) by (by exists []).
  split; [exact Hs|]. apply (proj1 (request_buffer_bounds c _ huge_head Hs ltac:(by vm_compute))); by vm_compute.
Defined.
