(* ===== verification/Servers.v ===== *)
(** * The servers and the RTC workers (server/rtc_server.cpp, server/rtc_worker.cpp,
    server/signaling_server.cpp)

    The RTC server hands each message to the worker its stream name hashes to;
    a worker runs the message against its stream manager and answers the
    signaling worker that sent it.  The queues between the threads are lists;
    LockFreeQueue shows that theirs are FIFOs.  The signaling server deals
    connections out in turn. *)

From S2P Require Import Prelude Crc32 State Sdp IceTypes IceChannel Srtp Dtls DtlsBehaviour.
From S2P Require Import SdpTheory TransportController OfferTheory Streams StreamsTheory Signaling.
Local Open Scope Z_scope.

(** ** The signaling server *)

(** [_dispatch_new_conn]: the worker, and the new [_next_worker_index]. *)
Definition dispatch_new_conn (workers next : nat) : outcome (nat * nat) :=
  let index := next in
  let next := S next in
  let next := if bool_decide (workers <= next)%nat then 0%nat else next in
  if bool_decide (index < workers)%nat then Done (index, next) else Undef out_of_bounds.

Fixpoint dispatch_all (workers next conns : nat) : outcome (list nat) :=
  match conns with
  | O => Done []
  | S conns => '(w, next) ← dispatch_new_conn workers next; ws ← dispatch_all workers next conns; Done (w :: ws)
  end.

(** ** The RTC server *)

(** [_get_worker]: its index. *)
Definition get_worker (workers : nat) (worker_num : Z) (stream_name : bytes) : option nat :=
  if bool_decide (workers = 0%nat) || negb (Z.of_nat workers =? u64 worker_num) then None
  else Some (Z.to_nat (ComputeCrc32 stream_name mod u32 worker_num)).

Definition with_certificate (cert : Z) (msg : RtcMsg) : RtcMsg :=
  mkRtcMsg (rm_cmdno msg) (rm_uid msg) (rm_stream_name msg) (rm_stream_type msg) (rm_audio msg) (rm_video msg)
    (rm_log_id msg) (rm_worker msg) (rm_conn msg) (rm_fd msg) (rm_sdp msg) (rm_err_no msg) (Some cert).

Definition answered (ret : Z) (offer : bytes) (msg : RtcMsg) : RtcMsg :=
  mkRtcMsg (rm_cmdno msg) (rm_uid msg) (rm_stream_name msg) (rm_stream_type msg) (rm_audio msg) (rm_video msg)
    (rm_log_id msg) (rm_worker msg) (rm_conn msg) (rm_fd msg) offer
    (if ret =? 0 then rm_err_no msg else -1) (rm_certificate msg).

Section servers.
Context {P : Type} `{PeerI P}.

(** The request to the stream manager; [None] for an unknown command. *)
Definition stream_request (msg : RtcMsg) : option (stream_input P) :=
  let uid := rm_uid msg in
  let name := rm_stream_name msg in
  let audio := negb (rm_audio msg =? 0) in
  let video := negb (rm_video msg =? 0) in
  if rm_cmdno msg =? CMDNO_PUSH then Some (InCreatePush uid name audio video (rm_certificate msg))
  else if rm_cmdno msg =? CMDNO_PULL then Some (InCreatePull uid name audio video (rm_certificate msg))
  else if rm_cmdno msg =? CMDNO_STOP_PUSH then Some (InStopPush uid name)
  else if rm_cmdno msg =? CMDNO_STOPPULL then Some (InStopPull uid name)
  else if rm_cmdno msg =? CMDNO_ANSWER then Some (InAnswer uid name (rm_sdp msg) (rm_stream_type msg))
  else None.

(** What goes back to the signaling worker of a push or pull. *)
Definition worker_reply (msg : RtcMsg) (r : Z * bytes) : list RtcMsg :=
  if (rm_cmdno msg =? CMDNO_PUSH) || (rm_cmdno msg =? CMDNO_PULL) then
    match rm_worker msg with Some _ => [answered (fst r) (snd r) msg] | None => [] end
  else [].

(** [_process_push] to [_process_answer] of the worker, on a message it popped. *)
Definition worker_process (msg : RtcMsg) (m : StreamManager P) : outcome (list RtcMsg * StreamManager P) :=
  match stream_request msg with
  | None => Done ([], m)
  | Some i => '(r, m) ← stream_handle i m; Done (worker_reply msg r, m)
  end.

(** ** The system *)

Record RtcWorker : Type := mkRtcWorker { rw_q_msg : list RtcMsg; rw_streams : StreamManager P }.

Record RtcServer : Type := mkRtcServer {
  rs_worker_num : Z;
  rs_q_msg : list RtcMsg;
  rs_workers : list RtcWorker;
  rs_replies : list RtcMsg;  (* to the signaling workers *)
}.

(** The server after [init] with [n] workers. *)
Definition init_server (n : nat) : RtcServer :=
  mkRtcServer (Z.of_nat n) [] (repeat (mkRtcWorker [] new_manager) n) [].

Inductive rtc_input : Type :=
  | RtcPush (msg : RtcMsg)                     (* a signaling worker sends *)
  | RtcDispatch (cert : option Z)              (* the server is notified; its certificate *)
  | RtcWork (j : nat)                          (* worker [j] is notified *)
  | RtcReport (j : nat) (i : stream_input P).  (* a stream of worker [j] reports *)

(** Reports are not requests. *)
Definition is_report (i : stream_input P) : bool :=
  match i with InState _ _ | InTimeout _ | InRtp _ _ | InRtcp _ _ | InPeer _ _ => true | _ => false end.

Definition set_workers (f : list RtcWorker -> list RtcWorker) (s : RtcServer) : RtcServer :=
  mkRtcServer (rs_worker_num s) (rs_q_msg s) (f (rs_workers s)) (rs_replies s).

(** [push_msg] and [pop_msg] of the server. *)
Definition server_push_msg (msg : RtcMsg) (s : RtcServer) : RtcServer :=
  mkRtcServer (rs_worker_num s) (rs_q_msg s ++ [msg]) (rs_workers s) (rs_replies s).
Definition server_pop_msg (s : RtcServer) : option (RtcMsg * RtcServer) :=
  match rs_q_msg s with
  | [] => None
  | msg :: q => Some (msg, mkRtcServer (rs_worker_num s) q (rs_workers s) (rs_replies s))
  end.

(** [push_msg] of worker [j]. *)
Definition worker_push_msg (j : nat) (msg : RtcMsg) (s : RtcServer) : RtcServer :=
  set_workers (alter (fun w => mkRtcWorker (rw_q_msg w ++ [msg]) (rw_streams w)) j) s.

(** [_process_rtc_msg] of the server; [cert] is the certificate, or that there
    is none. *)
Definition server_process_rtc_msg (cert : option Z) (s : RtcServer) : RtcServer :=
  match server_pop_msg s with
  | None => s
  | Some (msg, s) =>
      match cert with
      | None => s
      | Some cert =>
          match get_worker (length (rs_workers s)) (rs_worker_num s) (rm_stream_name msg) with
          | None => s
          | Some j => worker_push_msg j (with_certificate cert msg) s
          end
      end
  end.

(** [_process_rtc_msg] of worker [j]. *)
Definition worker_process_rtc_msg (j : nat) (s : RtcServer) : outcome RtcServer :=
  match rs_workers s !! j with
  | Some (mkRtcWorker (msg :: q) m) =>
      '(out, m) ← worker_process msg m;
      Done (mkRtcServer (rs_worker_num s) (rs_q_msg s) (<[j := mkRtcWorker q m]> (rs_workers s))
              (rs_replies s ++ out))
  | _ => Done s
  end.

Definition rtc_step (i : rtc_input) (s : RtcServer) : outcome RtcServer :=
  match i with
  | RtcPush msg => Done (server_push_msg msg s)
  | RtcDispatch cert => Done (server_process_rtc_msg cert s)
  | RtcWork j => worker_process_rtc_msg j s
  | RtcReport j i =>
      match rs_workers s !! j with
      | Some w => '(_, m) ← stream_handle i (rw_streams w);
                  Done (set_workers <[j := mkRtcWorker (rw_q_msg w) m]> s)
      | None => Done s
      end
  end.

Definition rtc_input_ok (i : rtc_input) (s : RtcServer) : bool :=
  match i with
  | RtcReport j i =>
      match rs_workers s !! j with
      | Some w => is_report i && stream_input_ok i (rw_streams w)
      | None => false
      end
  | _ => true
  end.

Inductive rtc_reachable (n : nat) : RtcServer -> Prop :=
  | rtc_init : rtc_reachable n (init_server n)
  | rtc_next i s s' : rtc_reachable n s -> rtc_input_ok i s = true -> rtc_step i s = Done s' -> rtc_reachable n s'.
End servers.
Arguments RtcWorker P : clear implicits.
Arguments RtcServer P : clear implicits.
Arguments rtc_input P : clear implicits.

(** ** Theory *)

(** Connections are dealt out in turn. *)
Lemma dispatch_round_robin (workers conns next : nat) :
  (next < workers)%nat ->
  dispatch_all workers next conns = Done (map (fun k => ((next + k) `mod` workers)%nat) (seq 0 conns)).
Proof.
  revert next. induction conns as [|conns IH]; intros next Hn; [done|]. cbn [dispatch_all].
  unfold dispatch_new_conn. rewrite (bool_decide_true (next < workers)%nat) by done. cbn [mbind outcome_bind].
  rewrite IH by (case_bool_decide; lia). cbn [mbind outcome_bind seq map]. f_equal. f_equal.
  - rewrite Nat.add_0_r. by rewrite Nat.mod_small.
  - rewrite <- seq_shift, map_map. apply map_ext. intros k. case_bool_decide as E.
    + replace (next + S k)%nat with (k + 1 * workers)%nat by lia. rewrite Nat.Div0.mod_add. done.
    + f_equal. lia.
Qed.

Section routing.
Context {P : Type} `{PeerI P}.
Implicit Types s : RtcServer P.

(** The worker of a name among [n]. *)
Definition home (n : nat) (name : bytes) : nat := Z.to_nat (ComputeCrc32 name mod Z.of_nat n).

Lemma get_worker_home n name :
  (0 < n)%nat -> Z.of_nat n < 2 ^ 31 -> get_worker n (Z.of_nat n) name = Some (home n name) /\ (home n name < n)%nat.
Proof.
  intros H0 H1. unfold get_worker, home. rewrite u64_id, u32_id, Z.eqb_refl by lia.
  rewrite bool_decide_false by lia. split; [done|]. pose proof (Z.mod_pos_bound (ComputeCrc32 name) (Z.of_nat n)). lia.
Qed.

(** Every name a worker knows hashes to it. *)
Record routed (n : nat) s : Prop := {
  rt_num : rs_worker_num s = Z.of_nat n;
  rt_length : length (rs_workers s) = n;
  rt_queue : forall j w msg, rs_workers s !! j = Some w -> In msg (rw_q_msg w) -> home n (rm_stream_name msg) = j;
  rt_streams : forall j w, rs_workers s !! j = Some w -> streams_reachable (rw_streams w);
  rt_names : forall j w t name, rs_workers s !! j = Some w ->
    is_Some (reg_table t (registered (rw_streams w)) !! name) -> home n name = j;
}.

(** The name a request is about. *)
Definition request_name (i : stream_input P) : option bytes :=
  match i with
  | InCreatePush _ name _ _ _ | InCreatePull _ name _ _ _ | InStopPush _ name | InStopPull _ name
  | InAnswer _ name _ _ => Some name
  | _ => None
  end.

Lemma reg_remove_names t t' uid name R k :
  is_Some (reg_table t (reg_remove t' uid name R) !! k) -> is_Some (reg_table t R !! k).
Proof.
  unfold reg_remove. case_bool_decide; [|done]. rewrite reg_table_set. case_bool_decide; [|done].
  intros [v [_ Hv]%lookup_delete_Some]. by exists v.
Qed.

Lemma failed_event_names b (x : RtcStream P) t (R : registry) k :
  is_Some (reg_table t (reg_step (failed_event b x) R) !! k) -> is_Some (reg_table t R !! k).
Proof. destruct b; [apply reg_remove_names|done]. Qed.

(** A step brings in no name but that of its request. *)
Lemma reg_step_names i (m : StreamManager P) t R k :
  is_Some (reg_table t (reg_step (event_of i m) R) !! k) -> is_Some (reg_table t R !! k) \/ request_name i = Some k.
Proof.
  assert (Hins : forall t' uid name, is_Some (reg_table t (reg_set t' <[name := uid]> R) !! k) ->
    is_Some (reg_table t R !! k) \/ Some name = Some k).
  { intros t' uid name. rewrite reg_table_set. case_bool_decide; [|by left].
    destruct (decide (k = name)) as [->|Hne]; [by right|]. rewrite lookup_insert_ne by done. by left. }
  destruct i as [uid name audio video cert|uid name audio video cert|uid name answer ty|uid name|uid name|p st|p|p data
    |p data|p pc]; cbn [event_of request_name].
  - apply (Hins k_push).
  - cbn [reg_step]. case_bool_decide; [apply (Hins k_pull)|by left].
  - destruct (t0 ← _; _) as [x|]; [|by left]. destruct (uid =? rs_uid x); [|by left].
    destruct (peer_set_remote_sdp answer (rs_pc x)) as [[[r states] pc]| |]; [|by left..].
    intros Hk. left. by eapply failed_event_names.
  - intros Hk. left. by eapply reg_remove_names.
  - intros Hk. left. by eapply reg_remove_names.
  - destruct (sm_heap m !! p) as [x|]; [|by left]. intros Hk. left. by eapply failed_event_names.
  - destruct (sm_heap m !! p) as [x|]; [|by left]. case_bool_decide; [by left|].
    intros Hk. left. by eapply reg_remove_names.
  - by left.
  - by left.
  - by left.
Qed.

Lemma stream_request_name msg i : stream_request (P := P) msg = Some i -> request_name i = Some (rm_stream_name msg) /\
  forall m, stream_input_ok i m = true.
Proof. unfold stream_request. repeat case_match; by intros [= <-]. Qed.

(** A worker's manager makes a step. *)
Lemma manager_step_routed n s j w q i r m' out :
  routed n s -> rs_workers s !! j = Some w -> stream_input_ok i (rw_streams w) = true ->
  stream_handle i (rw_streams w) = Done (r, m') -> (forall name, request_name i = Some name -> home n name = j) ->
  (forall msg, In msg q -> In msg (rw_q_msg w)) ->
  routed n (mkRtcServer (rs_worker_num s) (rs_q_msg s) (<[j := mkRtcWorker q m']> (rs_workers s)) out).
Proof.
  intros [Hnum Hlen Hq Hs Hn] Hj Hi E Hname Hsub. pose proof (Hs j w Hj) as Hr.
  assert (Hlt : (j < length (rs_workers s))%nat) by (by apply lookup_lt_Some in Hj).
  assert (Hl : forall k x, <[j := mkRtcWorker q m']> (rs_workers s) !! k = Some x ->
    k = j /\ x = mkRtcWorker q m' \/ k <> j /\ rs_workers s !! k = Some x).
  { intros k x. destruct (decide (k = j)) as [->|Hne].
    - rewrite list_lookup_insert_eq by done. intros [= <-]. by left.
    - rewrite list_lookup_insert_ne by done. by right. }
  split; cbn.
  - done.
  - by rewrite length_insert.
  - intros k x msg Hk Hin. destruct (Hl k x Hk) as [[-> ->]|[_ Hk']]; [|by eapply Hq].
    apply (Hq j w); [done|by apply Hsub].
  - intros k x Hk. destruct (Hl k x Hk) as [[-> ->]|[_ Hk']]; [by eapply streams_step|by eapply Hs].
  - intros k x t name Hk Hin. destruct (Hl k x Hk) as [[-> ->]|[_ Hk']]; [|by eapply Hn].
    pose proof (handle_spec i (rw_streams w) (reachable_ok _ Hr) Hi) as Hspec. unfold wp in Hspec. rewrite E in Hspec.
    cbn [rw_streams] in Hin. destruct Hspec as (_ & _ & Hreg). rewrite Hreg in Hin.
    destruct (reg_step_names _ _ _ _ _ Hin) as [Hold|Hnew]; [by apply (Hn j w t)|by apply Hname].
Qed.

Lemma step_routed n i s s' :
  (0 < n)%nat -> Z.of_nat n < 2 ^ 31 -> routed n s -> rtc_input_ok i s = true -> rtc_step i s = Done s' -> routed n s'.
Proof.
  intros H0 H1 Hr Hi. destruct i as [msg|cert|j|j i]; cbn [rtc_step rtc_input_ok] in *.
  - intros [= <-]. by destruct Hr.
  - intros [= <-]. unfold server_process_rtc_msg, server_pop_msg.
    destruct (rs_q_msg s) as [|msg q]; [done|]. destruct cert as [cert|]; [|by destruct Hr].
    destruct Hr as [Hnum Hlen Hq Hs Hn]. cbn [rs_workers rs_worker_num]. rewrite Hnum, Hlen.
    destruct (get_worker_home n (rm_stream_name msg) H0 H1) as [-> Hlt]. unfold worker_push_msg, set_workers. cbn.
    set (f := fun w : RtcWorker P => _). set (h := home n (rm_stream_name msg)) in *.
    assert (Hl : forall k x, alter f h (rs_workers s) !! k = Some x ->
      exists w, rs_workers s !! k = Some w /\ (x = w \/ k = h /\ x = f w)).
    { intros k x. destruct (decide (h = k)) as [<-|Hne].
      - rewrite list_lookup_alter_eq. intros (w & -> & Hw)%fmap_Some. exists w. split; [done|]. by right.
      - rewrite list_lookup_alter_ne by done. intros Hk. exists x. split; [done|by left]. }
    split; cbn.
    + done.
    + by rewrite length_alter.
    + intros k x msg' Hk Hin. destruct (Hl k x Hk) as (w & Hw & [->|[-> ->]]); [by eapply Hq|].
      cbn in Hin. apply in_app_or in Hin as [Hin|[<-|[]]]; [by eapply Hq|done].
    + intros k x Hk. destruct (Hl k x Hk) as (w & Hw & [->|[-> ->]]); exact (Hs _ w Hw).
    + intros k x t name Hk Hin. destruct (Hl k x Hk) as (w & Hw & [->|[-> ->]]); exact (Hn _ w t name Hw Hin).
  - unfold worker_process_rtc_msg.
    destruct (rs_workers s !! j) as [[[|msg q] m]|] eqn:Ej; [by intros [= <-]| |by intros [= <-]].
    unfold worker_process. destruct (stream_request (P := P) msg) as [i|] eqn:Er.
    + apply stream_request_name in Er as [En Eok]. destruct (stream_handle i m) as [[r m']| |] eqn:E; [|done..].
      cbn [mbind outcome_bind]. intros [= <-]. eapply (manager_step_routed n s j _ q i); [done|exact Ej|apply Eok|exact E| |].
      * intros name. rewrite En. intros [= <-]. eapply (rt_queue n s Hr j); [exact Ej|by left].
      * intros x Hx. by right.
    + cbn [mbind outcome_bind]. intros [= <-]. destruct Hr as [Hnum Hlen Hq Hs Hn].
      assert (Hl : forall k x, <[j := mkRtcWorker q m]> (rs_workers s) !! k = Some x ->
        exists w, rs_workers s !! k = Some w /\ rw_streams x = rw_streams w /\ forall y, In y (rw_q_msg x) -> In y (rw_q_msg w)).
      { intros k x. destruct (decide (k = j)) as [->|Hne].
        - rewrite list_lookup_insert_eq by (by apply lookup_lt_Some in Ej). intros [= <-]. eexists. split; [exact Ej|].
          split; [done|]. intros y Hy. by right.
        - rewrite list_lookup_insert_ne by done. intros Hk. by exists x. }
      split; cbn; [done|by rewrite length_insert|..].
      * intros k x y Hk Hy. destruct (Hl k x Hk) as (w & Hw & _ & Hsub). by eapply Hq, Hsub.
      * intros k x Hk. destruct (Hl k x Hk) as (w & Hw & -> & _). by eapply Hs.
      * intros k x t name Hk. destruct (Hl k x Hk) as (w & Hw & -> & _). by apply Hn.
  - destruct (rs_workers s !! j) as [w|] eqn:Ej; [|done]. apply andb_true_iff in Hi as [Hrep Hok].
    destruct (stream_handle i (rw_streams w)) as [[r m']| |] eqn:E; [|done..]. cbn [mbind outcome_bind]. intros [= <-].
    eapply (manager_step_routed n s j w (rw_q_msg w) i); [done|exact Ej|exact Hok|exact E| |done].
    intros name. by destruct i.
Qed.

Lemma init_routed n : routed n (init_server n).
Proof.
  assert (Hl : forall j w, repeat (mkRtcWorker [] (new_manager (P := P))) n !! j = Some w -> w = mkRtcWorker [] new_manager).
  { intros j w Hj. by apply list_elem_of_lookup_2, list_elem_of_In, repeat_spec in Hj. }
  split; cbn; [done|by rewrite repeat_length|..].
  - intros j w msg ->%Hl. done.
  - intros j w ->%Hl. apply streams_new.
  - intros j w t name ->%Hl. rewrite registered_lookup. destruct t; intros [? [=]].
Qed.

Lemma reachable_routed n s : (0 < n)%nat -> Z.of_nat n < 2 ^ 31 -> rtc_reachable n s -> routed n s.
Proof.
  intros H0 H1. induction 1 as [|i s s' _ IH Hi E]; [apply init_routed|]. by eapply step_routed.
Qed.
End routing.

(** C25: all that concerns a stream name happens in one worker.  In every
    reachable state of a server with [n] workers a name is known to no worker
    but the one its CRC-32 modulo [n] selects, and so is owned at most once.
    Therefore the answer to a pull is the right one for the whole server: the
    reply reports success exactly when some worker has a publisher of that
    name. *)
Theorem one_worker_per_name {P : Type} `{PeerI P} (n : nat) (s : RtcServer P) :
  (0 < n)%nat -> Z.of_nat n < 2 ^ 31 -> rtc_reachable n s ->
  (forall j w t name, rs_workers s !! j = Some w ->
     is_Some (reg_table t (registered (rw_streams w)) !! name) ->
     j = Z.to_nat (ComputeCrc32 name mod Z.of_nat n)) /\
  (forall j msg q m s', rs_workers s !! j = Some (mkRtcWorker (msg :: q) m) ->
     rm_cmdno msg = CMDNO_PULL -> is_Some (rm_worker msg) -> rtc_step (RtcWork j) s = Done s' ->
     exists ret offer, rs_replies s' = rs_replies s ++ [answered ret offer msg] /\
       (ret = 0 <-> exists k w, rs_workers s !! k = Some w /\
                    is_Some (reg_push (registered (rw_streams w)) !! rm_stream_name msg))).
Proof.
  intros H0 H1 Hreach. pose proof (reachable_routed n s H0 H1 Hreach) as Hr. split.
  - intros j w t name Hj Hin. symmetry. exact (rt_names n s Hr j w t name Hj Hin).
  - intros j msg q m s' Hj Hcmd [wk Hwk]. cbn [rtc_step]. unfold worker_process_rtc_msg. rewrite Hj.
    unfold worker_process.
    assert (Ei : stream_request (P := P) msg = Some (InCreatePull (rm_uid msg) (rm_stream_name msg)
      (negb (rm_audio msg =? 0)) (negb (rm_video msg =? 0)) (rm_certificate msg))).
    { unfold stream_request. by rewrite Hcmd. }
    rewrite Ei. set (i := InCreatePull _ _ _ _ _). destruct (stream_handle i m) as [[[ret offer] m']| |] eqn:E; [|done..].
    cbn [mbind outcome_bind]. intros [= <-]. exists ret, offer. split.
    { unfold worker_reply. by rewrite Hcmd, Hwk. }
    pose proof (reachable_ok m (rt_streams n s Hr j _ Hj)) as Hok.
    pose proof (handle_spec i m Hok eq_refl) as Hspec. unfold wp in Hspec. rewrite E in Hspec.
    destruct Hspec as (_ & Hres & _). cbn [fst result_of i] in Hres. rewrite Hres. case_bool_decide as Hin.
    + split; [|done]. intros _. by exists j, (mkRtcWorker (msg :: q) m).
    + split; [done|]. intros (k & w & Hk & Hw). exfalso. apply Hin.
      assert (Ek : k = j).
      { rewrite <- (rt_names n s Hr k w k_push _ Hk Hw). eapply (rt_queue n s Hr j); [exact Hj|by left]. }
      subst k. rewrite Hj in Hk. by injection Hk as <-.
Qed.

(** ** A run *)

Fixpoint rtc_run {P : Type} `{PeerI P} (ins : list (rtc_input P)) (s : RtcServer P) : option (RtcServer P) :=
  match ins with
  | [] => Some s
  | i :: ins =>
      if rtc_input_ok i s then match rtc_step i s with Done s' => rtc_run ins s' | _ => None end else None
  end.

Lemma rtc_run_reachable {P : Type} `{PeerI P} n ins (s s' : RtcServer P) :
  rtc_reachable n s -> rtc_run ins s = Some s' -> rtc_reachable n s'.
Proof.
  revert s. induction ins as [|i ins IH]; intros s Hr; cbn [rtc_run]; [by intros [= <-]|].
  destruct (rtc_input_ok i s) eqn:Hi; [|done]. destruct (rtc_step i s) as [s1| |] eqn:E; [|done..].
  apply IH. by eapply rtc_next.
Qed.

#[local] Existing Instance toy_srtp.
#[local] Existing Instance toy_dtls.
#[local] Existing Instance example_channel.
#[local] Existing Instance example_media.
#[local] Existing Instance example_peer.

Definition example_msg (cmdno : Z) (name : bytes) : RtcMsg :=
  mkRtcMsg cmdno 7 name [] 1 1 1 (Some 0) (Some 0%nat) 5 [] 0 None.

(** Of two workers the second has [room]; a viewer of it and one of a name
    nobody publishes wait. *)
Definition example_traffic : list (rtc_input (PeerConnection IceTypes.world media)) :=
  [RtcPush (example_msg CMDNO_PUSH (str "room")); RtcDispatch (Some 1);
   RtcWork (home 2 (str "room"));
   RtcPush (example_msg CMDNO_PULL (str "room")); RtcDispatch (Some 1)].

Definition example_server : RtcServer (PeerConnection IceTypes.world media) :=
  match rtc_run example_traffic (init_server 2) with Some s => s | None => init_server 2 end.

Definition example_worker : RtcWorker (PeerConnection IceTypes.world media) :=
  from_option id (mkRtcWorker [] new_manager) (rs_workers example_server !! home 2 (str "room")).

Definition example_after : RtcServer (PeerConnection IceTypes.world media) :=
  match rtc_step (RtcWork (home 2 (str "room"))) example_server with Done s => s | _ => example_server end.

Lemma example_server_reachable : rtc_reachable 2 example_server.
Proof. apply (rtc_run_reachable 2 example_traffic (init_server 2)); [apply rtc_init|]. by vm_compute. Qed.

Lemma one_worker_per_name_witness :
  home 2 (str "room") = Z.to_nat (ComputeCrc32 (str "room") mod Z.of_nat 2) /\
  exists offer, rs_replies example_after =
    rs_replies example_server ++ [answered 0 offer (with_certificate 1 (example_msg CMDNO_PULL (str "room")))].
Proof.
  destruct (one_worker_per_name 2 example_server) as [Hhome Hpull]; [lia|lia|exact example_server_reachable|].
  split.
  - apply (Hhome _ example_worker k_push (str "room")); [by vm_compute|].
    apply (bool_decide_unpack _). by vm_compute.
  - destruct (Hpull (home 2 (str "room")) (with_certificate 1 (example_msg CMDNO_PULL (str "room"))) []
      (rw_streams example_worker) example_after) as (ret & offer & E & Hret).
    + by vm_compute.
    + done.
    + by eexists.
    + by vm_compute.
    + exists offer. rewrite E. do 3 f_equal. apply Hret. exists (home 2 (str "room")), example_worker.
      split; [by vm_compute|]. apply (bool_decide_unpack _). by vm_compute.
Defined.
