(* ===== verification/Threads.v ===== *)
(** * Threads, pipes and shutdown (server/rtc_server.cpp, server/rtc_worker.cpp,
    server/signaling_server.cpp, server/signaling_worker.cpp, main.cpp)

    The two servers and their workers run a thread each.  A thread is woken by
    the numbers written into its pipe, one for every message of its queue.  The
    state is that of the process: file descriptors, pipes and the services; a
    step runs one action of one thread, so that every interleaving is a list of
    steps.  Descriptors are numbers, which the kernel hands out again after they
    are closed.  A signal is handled by the main thread.  A thread that was told
    to leave its loop handles no further event; libev would still handle those
    that are pending in the same turn of the loop. *)

From S2P Require Import Prelude.
Local Open Scope Z_scope.

(** ** The kernel *)

Inductive file : Type :=
  | PipeRead (p : nat)
  | PipeWrite (p : nat)
  | Listener
  | Connection
  | Standard.  (* standard input and output *)

#[export] Instance file_eq_dec : EqDecision file.
Proof. solve_decision. Defined.

(** The lowest number that is free. *)
Fixpoint lowest_free (files : gmap Z file) (fuel : nat) (fd : Z) : Z :=
  match fuel with
  | O => fd
  | S fuel => if bool_decide (is_Some (files !! fd)) then lowest_free files fuel (fd + 1) else fd
  end.

Definition new_fd (files : gmap Z file) : Z := lowest_free files (size files) 0.

(** ** Services *)

Inductive role : Type := SignalingServer | SignalingWorker | RtcServer | RtcWorker.

#[export] Instance role_eq_dec : EqDecision role.
Proof. solve_decision. Defined.

(** The numbers that are written into pipes. *)
Definition QUIT : Z := 0.
Definition NEW_CONN : Z := 1.
Definition RTC_MSG (r : role) : Z := match r with SignalingWorker => 2 | _ => 1 end.

(** A thread: not started, in its loop, told to leave the loop, ended. *)
Inductive run_state : Type := NotStarted | Running | Broken | Ended.

#[export] Instance run_state_eq_dec : EqDecision run_state.
Proof. solve_decision. Defined.

Section threads.
(** The messages: the signaling worker that made one, the RTC worker its stream
    name belongs to, and the reply when it has one. *)
Context {M : Type} (msg_worker : M -> nat) (msg_home : M -> option nat) (msg_reply : M -> option M).

(** What a thread has still to do in the function it is in. *)
Inductive instr : Type :=
  | IPush (s : nat) (m : M)          (* push_msg *)
  | IPushConn (s : nat) (fd : Z)     (* _q_conn.produce *)
  | INotify (s : nat) (z : Z)        (* notify *)
  | IPop (s : nat)                   (* _process_rtc_msg *)
  | IPopConn (s : nat)               (* the case NEW_CONN *)
  | IStop (s : nat)                  (* _stop *)
  | IDeleteWatchers (s : nat)
  | IBreak (s : nat)                 (* _el->stop() *)
  | IClose (fd : Z)
  | IJoin (s : nat)
  | ISpawn (s : nat)                 (* new std::thread *)
  | ISetThread (s : nat).            (* _thread = *)

Record service : Type := mkService {
  s_role : role;
  s_recv_fd : Z;
  s_send_fd : Z;
  s_listen_fd : Z;
  s_watch : bool;  (* its watchers are started *)
  s_thread_set : bool;  (* _thread is not null *)
  s_run : run_state;
  s_code : list instr;
  s_q_msg : list M;
  s_q_conn : list Z;
  s_conns : list Z;  (* the descriptors of its connections *)
  s_done : list M;  (* the messages it has taken from its queue *)
  s_workers : list nat;
  s_next : nat;  (* _next_worker_index *)
}.

Definition upd_s_role (g : role -> role) (r : service) : service :=
  mkService (g (s_role r)) (s_recv_fd r) (s_send_fd r) (s_listen_fd r) (s_watch r)
    (s_thread_set r) (s_run r) (s_code r) (s_q_msg r) (s_q_conn r) (s_conns r) (s_done r)
    (s_workers r) (s_next r).
Definition upd_s_recv_fd (g : Z -> Z) (r : service) : service :=
  mkService (s_role r) (g (s_recv_fd r)) (s_send_fd r) (s_listen_fd r) (s_watch r)
    (s_thread_set r) (s_run r) (s_code r) (s_q_msg r) (s_q_conn r) (s_conns r) (s_done r)
    (s_workers r) (s_next r).
Definition upd_s_send_fd (g : Z -> Z) (r : service) : service :=
  mkService (s_role r) (s_recv_fd r) (g (s_send_fd r)) (s_listen_fd r) (s_watch r)
    (s_thread_set r) (s_run r) (s_code r) (s_q_msg r) (s_q_conn r) (s_conns r) (s_done r)
    (s_workers r) (s_next r).
Definition upd_s_listen_fd (g : Z -> Z) (r : service) : service :=
  mkService (s_role r) (s_recv_fd r) (s_send_fd r) (g (s_listen_fd r)) (s_watch r)
    (s_thread_set r) (s_run r) (s_code r) (s_q_msg r) (s_q_conn r) (s_conns r) (s_done r)
    (s_workers r) (s_next r).
Definition upd_s_watch (g : bool -> bool) (r : service) : service :=
  mkService (s_role r) (s_recv_fd r) (s_send_fd r) (s_listen_fd r) (g (s_watch r))
    (s_thread_set r) (s_run r) (s_code r) (s_q_msg r) (s_q_conn r) (s_conns r) (s_done r)
    (s_workers r) (s_next r).
Definition upd_s_thread_set (g : bool -> bool) (r : service) : service :=
  mkService (s_role r) (s_recv_fd r) (s_send_fd r) (s_listen_fd r) (s_watch r) (g
    (s_thread_set r)) (s_run r) (s_code r) (s_q_msg r) (s_q_conn r) (s_conns r) (s_done r)
    (s_workers r) (s_next r).
Definition upd_s_run (g : run_state -> run_state) (r : service) : service :=
  mkService (s_role r) (s_recv_fd r) (s_send_fd r) (s_listen_fd r) (s_watch r) (s_thread_set
    r) (g (s_run r)) (s_code r) (s_q_msg r) (s_q_conn r) (s_conns r) (s_done r) (s_workers r)
    (s_next r).
Definition upd_s_code (g : list instr -> list instr) (r : service) : service :=
  mkService (s_role r) (s_recv_fd r) (s_send_fd r) (s_listen_fd r) (s_watch r) (s_thread_set
    r) (s_run r) (g (s_code r)) (s_q_msg r) (s_q_conn r) (s_conns r) (s_done r) (s_workers r)
    (s_next r).
Definition upd_s_q_msg (g : list M -> list M) (r : service) : service :=
  mkService (s_role r) (s_recv_fd r) (s_send_fd r) (s_listen_fd r) (s_watch r) (s_thread_set
    r) (s_run r) (s_code r) (g (s_q_msg r)) (s_q_conn r) (s_conns r) (s_done r) (s_workers r)
    (s_next r).
Definition upd_s_q_conn (g : list Z -> list Z) (r : service) : service :=
  mkService (s_role r) (s_recv_fd r) (s_send_fd r) (s_listen_fd r) (s_watch r) (s_thread_set
    r) (s_run r) (s_code r) (s_q_msg r) (g (s_q_conn r)) (s_conns r) (s_done r) (s_workers r)
    (s_next r).
Definition upd_s_conns (g : list Z -> list Z) (r : service) : service :=
  mkService (s_role r) (s_recv_fd r) (s_send_fd r) (s_listen_fd r) (s_watch r) (s_thread_set
    r) (s_run r) (s_code r) (s_q_msg r) (s_q_conn r) (g (s_conns r)) (s_done r) (s_workers r)
    (s_next r).
Definition upd_s_done (g : list M -> list M) (r : service) : service :=
  mkService (s_role r) (s_recv_fd r) (s_send_fd r) (s_listen_fd r) (s_watch r) (s_thread_set
    r) (s_run r) (s_code r) (s_q_msg r) (s_q_conn r) (s_conns r) (g (s_done r)) (s_workers r)
    (s_next r).
Definition upd_s_workers (g : list nat -> list nat) (r : service) : service :=
  mkService (s_role r) (s_recv_fd r) (s_send_fd r) (s_listen_fd r) (s_watch r) (s_thread_set
    r) (s_run r) (s_code r) (s_q_msg r) (s_q_conn r) (s_conns r) (s_done r) (g (s_workers r))
    (s_next r).
Definition upd_s_next (g : nat -> nat) (r : service) : service :=
  mkService (s_role r) (s_recv_fd r) (s_send_fd r) (s_listen_fd r) (s_watch r) (s_thread_set
    r) (s_run r) (s_code r) (s_q_msg r) (s_q_conn r) (s_conns r) (s_done r) (s_workers r) (g
    (s_next r)).

Record process : Type := mkProcess {
  p_files : gmap Z file;
  p_pipes : list (list Z);
  p_svcs : list service;
  p_main : list instr;
  p_sig : nat;  (* g_signaling_server *)
  p_rtc : nat;  (* g_rtc_server *)
  p_stray : list Z;  (* numbers written into connections *)
  p_killed : bool;  (* by SIGPIPE *)
}.

Definition upd_p_files (g : gmap Z file -> gmap Z file) (r : process) : process :=
  mkProcess (g (p_files r)) (p_pipes r) (p_svcs r) (p_main r) (p_sig r) (p_rtc r) (p_stray r)
    (p_killed r).
Definition upd_p_pipes (g : list (list Z) -> list (list Z)) (r : process) : process :=
  mkProcess (p_files r) (g (p_pipes r)) (p_svcs r) (p_main r) (p_sig r) (p_rtc r) (p_stray r)
    (p_killed r).
Definition upd_p_svcs (g : list service -> list service) (r : process) : process :=
  mkProcess (p_files r) (p_pipes r) (g (p_svcs r)) (p_main r) (p_sig r) (p_rtc r) (p_stray r)
    (p_killed r).
Definition upd_p_main (g : list instr -> list instr) (r : process) : process :=
  mkProcess (p_files r) (p_pipes r) (p_svcs r) (g (p_main r)) (p_sig r) (p_rtc r) (p_stray r)
    (p_killed r).
Definition upd_p_sig (g : nat -> nat) (r : process) : process :=
  mkProcess (p_files r) (p_pipes r) (p_svcs r) (p_main r) (g (p_sig r)) (p_rtc r) (p_stray r)
    (p_killed r).
Definition upd_p_rtc (g : nat -> nat) (r : process) : process :=
  mkProcess (p_files r) (p_pipes r) (p_svcs r) (p_main r) (p_sig r) (g (p_rtc r)) (p_stray r)
    (p_killed r).
Definition upd_p_stray (g : list Z -> list Z) (r : process) : process :=
  mkProcess (p_files r) (p_pipes r) (p_svcs r) (p_main r) (p_sig r) (p_rtc r) (g (p_stray r))
    (p_killed r).
Definition upd_p_killed (g : bool -> bool) (r : process) : process :=
  mkProcess (p_files r) (p_pipes r) (p_svcs r) (p_main r) (p_sig r) (p_rtc r) (p_stray r) (g
    (p_killed r)).

(** *** System calls *)

Definition on_svc (s : nat) (f : service -> service) (p : process) : process := upd_p_svcs (alter f s) p.

(** [write(fd, &msg, sizeof(int))]: into a pipe, into whatever connection has
    the number, or nowhere.  A pipe that nobody can read any more raises
    SIGPIPE, which ends the process. *)
Definition sys_write (fd z : Z) (p : process) : process :=
  match p_files p !! fd with
  | Some (PipeWrite i) =>
      if bool_decide (map_Exists (fun _ f => f = PipeRead i) (p_files p))
      then upd_p_pipes (alter (fun l => l ++ [z]) i) p
      else upd_p_killed (fun _ => true) p
  | Some Connection => upd_p_stray (fun l => l ++ [z]) p
  | _ => p
  end.

Definition sys_close (fd : Z) (p : process) : process := upd_p_files (delete fd) p.

(** [pipe(fds)]: the two lowest free numbers. *)
Definition sys_pipe (p : process) : Z * Z * process :=
  let i := length (p_pipes p) in
  let r := new_fd (p_files p) in
  let files := <[r := PipeRead i]> (p_files p) in
  let w := new_fd files in
  (r, w, upd_p_files (fun _ => <[w := PipeWrite i]> files) (upd_p_pipes (fun l => l ++ [[]]) p)).

Definition sys_listen (p : process) : Z * process :=
  let fd := new_fd (p_files p) in (fd, upd_p_files <[fd := Listener]> p).

Definition sys_accept (p : process) : Z * process :=
  let fd := new_fd (p_files p) in (fd, upd_p_files <[fd := Connection]> p).

(** ** The functions of the services *)

(** [_process_notify] *)
Definition process_notify (r : role) (s : nat) (z : Z) : list instr :=
  if z =? QUIT then [IStop s]
  else match r with
       | SignalingServer => []
       | SignalingWorker => if z =? NEW_CONN then [IPopConn s] else if z =? RTC_MSG r then [IPop s] else []
       | RtcServer | RtcWorker => if z =? RTC_MSG r then [IPop s] else []
       end.

(** [RtcServer::_process_rtc_msg] after the message was taken; [cert] says that
    there is a certificate. *)
Definition rtc_server_dispatch (cert : bool) (workers : list nat) (m : M) : list instr :=
  if negb cert then []
  else match msg_home m ≫= (fun j => workers !! j) with
       | Some w => [IPush w m; INotify w (RTC_MSG RtcWorker)]
       | None => []
       end.

(** [RtcWorker::_process_rtc_msg]: the reply goes to the worker that asked. *)
Definition rtc_worker_reply (m : M) : list instr :=
  match msg_reply m with
  | Some r => [IPush (msg_worker m) r; INotify (msg_worker m) (RTC_MSG SignalingWorker)]
  | None => []
  end.

Definition process_msg (cert : bool) (sv : service) (m : M) : list instr :=
  match s_role sv with
  | RtcServer => rtc_server_dispatch cert (s_workers sv) m
  | RtcWorker => rtc_worker_reply m
  | _ => []
  end.

(** The stop and the join of every worker. *)
Definition stop_workers (workers : list nat) : list instr := flat_map (fun w => [INotify w QUIT; IJoin w]) workers.

(** [SignalingServer::_stop] *)
Definition signaling_server_stop (s : nat) (sv : service) : list instr :=
  if negb (s_thread_set sv) then []
  else [IDeleteWatchers s; IBreak s; IClose (s_listen_fd sv); IClose (s_recv_fd sv); IClose (s_send_fd sv)] ++
       stop_workers (s_workers sv).

(** [RtcServer::_stop] *)
Definition rtc_server_stop (s : nat) (sv : service) : list instr :=
  [IDeleteWatchers s; IBreak s; IClose (s_recv_fd sv); IClose (s_send_fd sv)] ++ stop_workers (s_workers sv).

(** [_stop] of the workers of both kinds. *)
Definition worker_stop (s : nat) (sv : service) : list instr :=
  if negb (s_thread_set sv) then []
  else [IDeleteWatchers s; IBreak s; IClose (s_recv_fd sv); IClose (s_send_fd sv)].

Definition stop_code (s : nat) (sv : service) : list instr :=
  match s_role sv with
  | SignalingServer => signaling_server_stop s sv
  | RtcServer => rtc_server_stop s sv
  | SignalingWorker | RtcWorker => worker_stop s sv
  end.

(** [_dispatch_new_conn]: what it does, and the new index.  Without workers it
    indexes an empty vector (Servers); here it does nothing then. *)
Definition dispatch_conn (fd : Z) (sv : service) : list instr * nat :=
  let next := S (s_next sv) in
  (match s_workers sv !! s_next sv with
   | Some w => [IPushConn w fd; INotify w NEW_CONN]
   | None => []
   end, if bool_decide (length (s_workers sv) <= next)%nat then 0%nat else next).

(** ** Steps *)

(** One action: what it adds before the rest, and the process; [None] waits. *)
Definition exec (cert : bool) (i : instr) (p : process) : option (list instr * process) :=
  match i with
  | IPush s m => Some ([], on_svc s (upd_s_q_msg (fun q => q ++ [m])) p)
  | IPushConn s fd => Some ([], on_svc s (upd_s_q_conn (fun q => q ++ [fd])) p)
  | INotify s z => sv ← p_svcs p !! s; Some ([], sys_write (s_send_fd sv) z p)
  | IPop s =>
      sv ← p_svcs p !! s;
      match s_q_msg sv with
      | [] => Some ([], p)
      | m :: q => Some (process_msg cert sv m,
                        on_svc s (fun sv => upd_s_done (fun l => l ++ [m]) (upd_s_q_msg (fun _ => q) sv)) p)
      end
  | IPopConn s =>
      sv ← p_svcs p !! s;
      match s_q_conn sv with
      | [] => Some ([], p)
      | fd :: q => Some ([], on_svc s (fun sv => upd_s_conns (fun l => l ++ [fd]) (upd_s_q_conn (fun _ => q) sv)) p)
      end
  | IStop s => sv ← p_svcs p !! s; Some (stop_code s sv, p)
  | IDeleteWatchers s => Some ([], on_svc s (upd_s_watch (fun _ => false)) p)
  | IBreak s => Some ([], on_svc s (upd_s_run (fun _ => Broken)) p)
  | IClose fd => Some ([], sys_close fd p)
  | IJoin s =>
      sv ← p_svcs p !! s;
      if s_thread_set sv && negb (bool_decide (s_run sv = Ended)) then None else Some ([], p)
  | ISpawn s => Some ([], on_svc s (upd_s_run (fun _ => Running)) p)
  | ISetThread s => Some ([], on_svc s (upd_s_thread_set (fun _ => true)) p)
  end.

Inductive label : Type :=
  | LMain                          (* the main thread goes on *)
  | LRun (s : nat) (cert : bool)   (* the thread of [s] goes on *)
  | LRead (s : nat)                (* its loop reads the pipe *)
  | LAccept (s : nat)              (* a client connects *)
  | LRequest (s : nat) (m : M)     (* a client's request *)
  | LCloseConn (s : nat) (fd : Z)  (* a connection is closed *)
  | LEnd (s : nat)                 (* the loop returns *)
  | LSignal.                       (* SIGINT or SIGTERM *)

(** [process_signal], which the main thread runs wherever it is. *)
Definition process_signal (p : process) : list instr := [INotify (p_sig p) QUIT; INotify (p_rtc p) QUIT].

(** The loop of [s] waits for events. *)
Definition waiting (sv : service) : bool := bool_decide (s_run sv = Running) && bool_decide (s_code sv = []).

Definition guard (b : bool) : option () := if b then Some () else None.

Definition step (l : label) (p : process) : option process :=
  _ ← guard (negb (p_killed p) && negb (bool_decide (p_main p = [])));
  match l with
  | LMain =>
      match p_main p with
      | [] => None
      | i :: c => '(new, p) ← exec true i (upd_p_main (fun _ => c) p); Some (upd_p_main (fun c => new ++ c) p)
      end
  | LRun s cert =>
      sv ← p_svcs p !! s;
      _ ← guard (bool_decide (s_run sv = Running) || bool_decide (s_run sv = Broken));
      match s_code sv with
      | [] => None
      | i :: c =>
          '(new, p) ← exec cert i (on_svc s (upd_s_code (fun _ => c)) p);
          Some (on_svc s (upd_s_code (fun c => new ++ c)) p)
      end
  | LRead s =>
      sv ← p_svcs p !! s;
      _ ← guard (waiting sv && s_watch sv);
      match p_files p !! s_recv_fd sv with
      | Some (PipeRead i) =>
          l ← p_pipes p !! i;
          match l with
          | [] => None
          | z :: l => Some (on_svc s (upd_s_code (fun _ => process_notify (s_role sv) s z)) (upd_p_pipes <[i := l]> p))
          end
      | _ => None
      end
  | LAccept s =>
      sv ← p_svcs p !! s;
      _ ← guard (waiting sv && s_watch sv && bool_decide (s_role sv = SignalingServer) &&
                 bool_decide (p_files p !! s_listen_fd sv = Some Listener));
      let '(fd, p) := sys_accept p in
      let '(code, next) := dispatch_conn fd sv in
      Some (on_svc s (fun sv => upd_s_next (fun _ => next) (upd_s_code (fun _ => code) sv)) p)
  | LRequest s m =>
      sv ← p_svcs p !! s;
      _ ← guard (waiting sv && bool_decide (s_role sv = SignalingWorker) && negb (bool_decide (s_conns sv = [])) &&
                 bool_decide (msg_worker m = s));
      Some (on_svc s (upd_s_code (fun _ => [IPush (p_rtc p) m; INotify (p_rtc p) (RTC_MSG RtcServer)])) p)
  | LCloseConn s fd =>
      sv ← p_svcs p !! s;
      _ ← guard (waiting sv && bool_decide (s_role sv = SignalingWorker) && bool_decide (fd ∈ s_conns sv));
      Some (sys_close fd (on_svc s (upd_s_conns (List.filter (fun x => negb (x =? fd)))) p))
  | LEnd s =>
      sv ← p_svcs p !! s;
      _ ← guard (bool_decide (s_run sv = Broken) && bool_decide (s_code sv = []));
      Some (on_svc s (upd_s_run (fun _ => Ended)) p)
  | LSignal => Some (upd_p_main (fun c => process_signal p ++ c) p)
  end.

(** An interleaving. *)
Fixpoint run_labels (ls : list label) (p : process) : option process :=
  match ls with
  | [] => Some p
  | l :: ls => p ← step l p; run_labels ls p
  end.

(** ** Start-up *)

(** The pipe and its watcher, as every [init] makes them. *)
Definition new_service (r : role) (p : process) : process :=
  let '(recv, send, p) := sys_pipe p in
  upd_p_svcs (fun l => l ++ [mkService r recv send (-1) true false NotStarted [] [] [] [] [] [] 0]) p.

(** [_create_worker]: [init] and [start] of a worker, added to [_workers]. *)
Definition create_worker (r : role) (server : nat) (p : process) : process :=
  let w := length (p_svcs p) in
  let p := new_service r p in
  let p := on_svc w (fun sv => upd_s_thread_set (fun _ => true) (upd_s_run (fun _ => Running) sv)) p in
  on_svc server (upd_s_workers (fun l => l ++ [w])) p.

Definition init_signaling_server (n : nat) (p : process) : process :=
  let s := length (p_svcs p) in
  let p := new_service SignalingServer p in
  let '(fd, p) := sys_listen p in
  let p := on_svc s (upd_s_listen_fd (fun _ => fd)) p in
  Nat.iter n (create_worker SignalingWorker s) (upd_p_sig (fun _ => s) p).

Definition init_rtc_server (n : nat) (p : process) : process :=
  let s := length (p_svcs p) in
  Nat.iter n (create_worker RtcWorker s) (upd_p_rtc (fun _ => s) (new_service RtcServer p)).

(** [main] up to the start of the servers, and what it has still to do. *)
Definition main_code (sig rtc : nat) : list instr :=
  [ISpawn sig; ISetThread sig; ISpawn rtc; ISetThread rtc; IJoin sig; IJoin rtc].

Definition boot (signaling_workers rtc_workers : nat) : process :=
  let p := mkProcess (<[0 := Standard]> (<[1 := Standard]> (<[2 := Standard]> ∅))) [] [] [] 0 0 [] false in
  let p := init_rtc_server rtc_workers (init_signaling_server signaling_workers p) in
  upd_p_main (fun _ => main_code (p_sig p) (p_rtc p)) p.

Inductive reachable (a b : nat) : process -> Prop :=
  | reachable_boot : reachable a b (boot a b)
  | reachable_step l p p' : reachable a b p -> step l p = Some p' -> reachable a b p'.
End threads.
Arguments instr M : clear implicits.
Arguments service M : clear implicits.
Arguments process M : clear implicits.
Arguments label M : clear implicits.
