(* ===== verification/ThreadsTheory.v ===== *)
(** * Threads: messages and wake-ups

    Every message in a queue has its number in the pipe of the service, or a
    thread that is about to write it or to take the message out, so that no
    message is overlooked; and who may close or write a descriptor. *)

From S2P Require Import Prelude Threads.
Local Open Scope Z_scope.

(** ** Free descriptors *)

Lemma lowest_free_spec files fuel : forall fd,
  files !! lowest_free files fuel fd = None \/
  (lowest_free files fuel fd = fd + Z.of_nat fuel /\ forall k, (k < fuel)%nat -> is_Some (files !! (fd + Z.of_nat k))).
Proof.
  induction fuel as [|fuel IH]; intros fd; cbn [lowest_free].
  - right. split; [lia|]. intros k Hk. lia.
  - case_bool_decide as Hf; [|left; by apply eq_None_not_Some].
    destruct (IH (fd + 1)) as [|[E Hall]]; [by left|]. right. split; [rewrite E; lia|]. intros [|k] Hk.
    + by rewrite Z.add_0_r.
    + replace (fd + Z.of_nat (S k)) with (fd + 1 + Z.of_nat k) by lia. apply Hall. lia.
Qed.

Lemma new_fd_free files : files !! new_fd files = None.
Proof.
  unfold new_fd. destruct (lowest_free_spec files (size files) 0) as [|[E Hall]]; [done|]. rewrite E.
  apply not_elem_of_dom. intros Hin. set (n := size files) in *.
  assert (Hsub : list_to_set (map Z.of_nat (seq 0 (S n))) ⊆ (dom files : gset Z)).
  { intros x Hx. apply elem_of_list_to_set, list_elem_of_In, in_map_iff in Hx as (k & <- & Hk%in_seq).
    destruct (decide (k = n)) as [->|]; [by rewrite Z.add_0_l in Hin|]. apply elem_of_dom. specialize (Hall k). rewrite Z.add_0_l in Hall. apply Hall. lia. }
  apply subseteq_size in Hsub. rewrite size_list_to_set, size_dom, length_map, length_seq in Hsub; [subst n; lia|].
  apply NoDup_fmap; [|apply NoDup_seq]. intros x y. lia.
Qed.

Lemma new_fd_nonneg files : 0 <= new_fd files.
Proof.
  unfold new_fd. assert (H : forall fuel fd, 0 <= fd -> 0 <= lowest_free files fuel fd); [|by apply H].
  induction fuel as [|fuel IH]; intros fd Hfd; cbn; [done|]. case_bool_decide; [apply IH; lia|done].
Qed.

(** ** Counting *)

Section counting.
Context {M : Type}.
Implicit Types (i : instr M) (code : list (instr M)) (p : process M).

(** The two kinds of things a service is woken for. *)
Inductive kind : Type := KMsg | KConn.

Definition served (k : kind) (r : role) : bool :=
  match k with KMsg => negb (bool_decide (r = SignalingServer)) | KConn => bool_decide (r = SignalingWorker) end.
Definition token (k : kind) (r : role) : Z := match k with KMsg => RTC_MSG r | KConn => NEW_CONN end.
Definition waiting_items (k : kind) (sv : service M) : Z :=
  match k with KMsg => Z.of_nat (length (s_q_msg sv)) | KConn => Z.of_nat (length (s_q_conn sv)) end.

Definition one (b : bool) : Z := if b then 1 else 0.

(** What an action will change: a number to be written and not yet read as work
    counts one, and so does a thing still to be taken; one that is still to be
    put into the queue counts less. *)
Definition owed1 (k : kind) (r : role) (s : nat) (i : instr M) : Z :=
  match i, k with
  | IPush t _, KMsg => - one (Nat.eqb t s)
  | IPushConn t _, KConn => - one (Nat.eqb t s)
  | INotify t z, _ => one (Nat.eqb t s && (z =? token k r))
  | IPop t, KMsg => one (Nat.eqb t s)
  | IPopConn t, KConn => one (Nat.eqb t s)
  | _, _ => 0
  end.

Fixpoint owed (k : kind) (r : role) (s : nat) (code : list (instr M)) : Z :=
  match code with [] => 0 | i :: code => owed1 k r s i + owed k r s code end.

Fixpoint total (k : kind) (r : role) (s : nat) (codes : list (list (instr M))) : Z :=
  match codes with [] => 0 | code :: codes => owed k r s code + total k r s codes end.

Fixpoint tokens (z : Z) (l : list Z) : Z := match l with [] => 0 | x :: l => one (x =? z) + tokens z l end.

Lemma owed_app k r s code code' : owed k r s (code ++ code') = owed k r s code + owed k r s code'.
Proof. induction code as [|i code IH]; cbn; [done|]. rewrite IH. lia. Qed.

Lemma total_insert k r s codes t code code' :
  codes !! t = Some code -> total k r s (<[t := code']> codes) = total k r s codes - owed k r s code + owed k r s code'.
Proof.
  revert t. induction codes as [|c codes IH]; intros [|t] E; [done|done| |].
  - injection E as ->. change (<[0%nat := code']> (code :: codes)) with (code' :: codes). cbn [total]. lia.
  - change (<[S t := code']> (c :: codes)) with (c :: <[t := code']> codes). cbn [total]. rewrite (IH t E). lia.
Qed.

Lemma tokens_app z l l' : tokens z (l ++ l') = tokens z l + tokens z l'.
Proof. induction l as [|x l IH]; cbn; [done|]. rewrite IH. lia. Qed.

Lemma tokens_nonneg z l : 0 <= tokens z l.
Proof. induction l as [|x l IH]; cbn; [done|]. unfold one. case_match; lia. Qed.

(** *** Code in which what is pushed is told at once *)

Context (roles : list role).

Fixpoint paired (code : list (instr M)) : Prop :=
  match code with
  | [] => True
  | IPush s _ :: code => (exists r, roles !! s = Some r /\ served KMsg r = true /\ head code = Some (INotify s (RTC_MSG r))) /\ paired code
  | IPushConn s _ :: code => (roles !! s = Some SignalingWorker /\ head code = Some (INotify s NEW_CONN)) /\ paired code
  | _ :: code => paired code
  end.

Lemma paired_owed k r s code :
  roles !! s = Some r -> paired code ->
  0 <= owed k r s code /\ (head code = Some (INotify s (token k r)) -> 1 <= owed k r s code).
Proof.
  intros Hr. induction code as [|i code IH]; [done|]. intros Hp.
  assert (Hpc : paired code) by (destruct i; cbn in Hp; tauto). destruct (IH Hpc) as [H0 H1]. clear IH.
  destruct i as [t m|t fd|t z| | | | | | | | |]; cbn [owed owed1 head] in *; try (split; [destruct k; unfold one; try case_match; lia|done]).
  - split; [|done]. destruct Hp as [(r' & Hr' & _ & Hh) _]. destruct k; [|lia]. unfold one. destruct (Nat.eqb_spec t s) as [->|]; [|lia].
    assert (r' = r) as -> by congruence. specialize (H1 Hh). lia.
  - split; [|done]. destruct Hp as [[Hr' Hh] _]. destruct k; [lia|]. unfold one. destruct (Nat.eqb_spec t s) as [->|]; [|lia].
    assert (r = SignalingWorker) as -> by congruence. specialize (H1 Hh). lia.
  - destruct k; unfold one; (split; [case_match; lia|]; intros [= -> ->]; rewrite Nat.eqb_refl, Z.eqb_refl; cbn; lia).
Qed.

Lemma total_nonneg k r s codes : roles !! s = Some r -> Forall paired codes -> 0 <= total k r s codes.
Proof.
  intros Hr Hall. induction Hall as [|code codes Hp _ IH]; cbn; [done|]. destruct (paired_owed k r s code Hr Hp). lia.
Qed.

(** One thread's share. *)
Lemma total_ge k r s codes t code :
  roles !! s = Some r -> Forall paired codes -> codes !! t = Some code -> owed k r s code <= total k r s codes.
Proof.
  intros Hr Hall Ht. pose proof (total_insert k r s codes t code [] Ht) as E. cbn in E.
  assert (0 <= total k r s (<[t := []]> codes)) by (apply total_nonneg; [done|]; by apply Forall_insert). lia.
Qed.
End counting.

(** ** The services and their descriptors do not change *)

Record place : Type := mkPlace {
  pl_role : role;
  pl_recv : Z;
  pl_send : Z;
  pl_listen : Z;
  pl_workers : list nat;
}.

Definition place_of {M} (sv : service M) : place :=
  mkPlace (s_role sv) (s_recv_fd sv) (s_send_fd sv) (s_listen_fd sv) (s_workers sv).

Definition owned (d : place) : list Z := [pl_recv d; pl_send d; pl_listen d].

Definition worker_role (r : role) : role :=
  match r with SignalingServer => SignalingWorker | _ => RtcWorker end.

(** What start-up makes of the services. *)
Record layout_ok (D : list place) (sig rtc : nat) : Prop := {
  lay_distinct s s' d d' fd :
    D !! s = Some d -> D !! s' = Some d' -> fd ∈ owned d -> fd = pl_recv d' \/ fd = pl_send d' -> s = s';
  lay_ends s d : D !! s = Some d -> pl_recv d <> pl_send d /\ pl_recv d <> pl_listen d /\ pl_send d <> pl_listen d;
  lay_sig : pl_role <$> D !! sig = Some SignalingServer;
  lay_rtc : pl_role <$> D !! rtc = Some RtcServer;
  lay_workers s d w : D !! s = Some d -> w ∈ pl_workers d -> pl_role <$> D !! w = Some (worker_role (pl_role d));
  lay_rtc_only s d : D !! s = Some d -> pl_role d = RtcServer -> s = rtc;
  lay_no_workers s d : D !! s = Some d -> pl_role d = SignalingWorker \/ pl_role d = RtcWorker -> pl_workers d = [];
}.

(** The branches of an action. *)
Ltac exec_cases i E :=
  destruct i; cbn [Threads.exec] in E;
  repeat match type of E with
    | _ ≫= _ = Some _ => let sv := fresh "sv" in let Es := fresh "Es" in apply bind_Some in E as (sv & Es & E)
    | (if ?b then _ else _) = Some _ => let Eb := fresh "Eb" in destruct b eqn:Eb; [try discriminate|try discriminate]
    | match ?q with [] => _ | _ => _ end = Some _ => let Eq := fresh "Eq" in destruct q eqn:Eq
    end;
  injection E as <- <-.

Section invariant.
Context {M : Type} (msg_worker : M -> nat) (msg_home : M -> option nat) (msg_reply : M -> option M).
Context (D : list place) (sig rtc : nat) (LAY : layout_ok D sig rtc).
Notation exec := (exec msg_worker msg_home msg_reply).
Notation roles := (map pl_role D).
Implicit Types (i : instr M) (code : list (instr M)) (p : process M) (sv : service M).

Lemma roles_lookup s r : roles !! s = Some r <-> pl_role <$> D !! s = Some r.
Proof. change (map pl_role D) with (pl_role <$> D). by rewrite list_lookup_fmap. Qed.

(** *** Codes *)

(** The message comes from a signaling worker. *)
Definition from_worker (m : M) : Prop := roles !! msg_worker m = Some SignalingWorker.

Definition is_rtc (r : role) : bool := bool_decide (r = RtcServer \/ r = RtcWorker).

(** What the thread of [s] may do; [brk] says that its loop was told to end. *)
Definition svc_instr (s : nat) (brk : bool) (i : instr M) : Prop :=
  match i with
  | IPush t m => forall r, roles !! t = Some r -> is_rtc r = true -> from_worker m
  | IStop t | IDeleteWatchers t | IBreak t => t = s
  | IClose fd => brk = true /\ exists d, D !! s = Some d /\ fd ∈ owned d
  | ISpawn _ | ISetThread _ => False
  | _ => True
  end.

Definition is_break (i : instr M) : bool := match i with IBreak _ => true | _ => false end.

Fixpoint svc_code (s : nat) (brk : bool) (code : list (instr M)) : Prop :=
  match code with [] => True | i :: code => svc_instr s brk i /\ svc_code s (brk || is_break i) code end.

(** What the main thread may do. *)
Fixpoint main_ok (code : list (instr M)) : Prop :=
  match code with
  | [] => True
  | INotify _ z :: code => z = QUIT /\ main_ok code
  | IJoin _ :: code | ISetThread _ :: code => main_ok code
  | ISpawn t :: code => ISpawn t ∉ code /\ main_ok code
  | _ => False
  end.

Lemma svc_code_true s brk code : svc_code s brk code -> svc_code s true code.
Proof.
  revert brk. induction code as [|i code IH]; intros brk; [done|]. intros [Hi Hc]. cbn. split; [|by apply (IH _ Hc)].
  destruct i; cbn in *; try done. by destruct Hi.
Qed.

Lemma svc_code_mono s (b b' : bool) code : svc_code s b code -> (b = true -> b' = true) -> svc_code s b' code.
Proof. intros Hc Hb. destruct b'; [by apply svc_code_true in Hc|]. destruct b; [|done]. by discriminate Hb. Qed.

Lemma svc_code_app s brk code code' : svc_code s brk code -> svc_code s brk code' -> svc_code s brk (code ++ code').
Proof.
  revert brk. induction code as [|i code IH]; intros brk; [done|]. intros [Hi Hc] H'. cbn. split; [done|]. apply IH; [done|].
  destruct brk; [done|]. cbn. destruct (is_break i); [by apply svc_code_true in H'|done].
Qed.

Lemma paired_app (code code' : list (instr M)) : paired roles code -> paired roles code' -> paired roles (code ++ code').
Proof.
  induction code as [|i code IH]; [done|]. intros Hp Hp'.
  destruct i; cbn in *; try (by apply IH).
  - destruct Hp as [(r & Hr & Hs & Hh) Hp]. split; [|by apply IH]. exists r. split; [done|]. split; [done|]. by destruct code.
  - destruct Hp as [[Hr Hh] Hp]. split; [|by apply IH]. split; [done|]. by destruct code.
Qed.

(** *** The invariant

    [cs] are the codes of the main thread and of the services, in this order:
    the invariant is stated of them and of a process whose own codes do not
    matter, so that the instruction that runs can be taken off first. *)

Definition alive sv : Prop := s_run sv = NotStarted \/ s_run sv = Running.
Definition broken sv : bool := bool_decide (s_run sv = Broken \/ s_run sv = Ended).
Definition conn_or_free p (fd : Z) : Prop := p_files p !! fd = None \/ p_files p !! fd = Some Connection.

Record INV p (cs : list (list (instr M))) : Prop := mkINV {
  inv_places : map place_of (p_svcs p) = D;
  inv_sig : p_sig p = sig;
  inv_rtc : p_rtc p = rtc;
  inv_pipes : length (p_pipes p) = length D;
  inv_open s sv : p_svcs p !! s = Some sv -> alive sv ->
    p_files p !! s_recv_fd sv = Some (PipeRead s) /\ p_files p !! s_send_fd sv = Some (PipeWrite s);
  inv_writes fd s : p_files p !! fd = Some (PipeWrite s) -> exists d, D !! s = Some d /\ fd = pl_send d;
  inv_held s sv fd : p_svcs p !! s = Some sv -> fd ∈ s_conns sv ++ s_q_conn sv -> conn_or_free p fd;
  inv_held_code t c s fd : cs !! t = Some c -> IPushConn s fd ∈ c -> conn_or_free p fd;
  inv_msgs s sv m : p_svcs p !! s = Some sv -> is_rtc (s_role sv) = true -> m ∈ s_q_msg sv -> from_worker m;
  inv_len : length cs = S (length D);
  inv_main c : cs !! 0%nat = Some c -> main_ok c;
  inv_spawn c s sv : cs !! 0%nat = Some c -> ISpawn s ∈ c -> p_svcs p !! s = Some sv -> s_run sv = NotStarted;
  inv_codes s sv c : p_svcs p !! s = Some sv -> cs !! S s = Some c -> svc_code s (broken sv) c;
  inv_paired : Forall (paired roles) cs;
  inv_count k s sv l : p_svcs p !! s = Some sv -> alive sv -> served k (s_role sv) = true -> p_pipes p !! s = Some l ->
    waiting_items k sv = tokens (token k (s_role sv)) l + total k (s_role sv) s cs;
}.

Lemma on_svc_lookup s f p t sv' : p_svcs (on_svc s f p) !! t = Some sv' ->
  exists sv, p_svcs p !! t = Some sv /\ sv' = if Nat.eqb s t then f sv else sv.
Proof.
  cbn. intros E. destruct (Nat.eqb_spec s t) as [->|Hne].
  - rewrite list_lookup_alter_eq in E. apply fmap_Some in E as (sv & E & ->). eauto.
  - rewrite list_lookup_alter_ne in E by done. eauto.
Qed.

Lemma on_svc_places s f p : (forall sv, place_of (f sv) = place_of sv) -> map place_of (p_svcs (on_svc s f p)) = map place_of (p_svcs p).
Proof.
  intros Hf. cbn. revert s. induction (p_svcs p) as [|sv l IH]; intros [|s]; [done|done| |].
  - change (alter f 0%nat (sv :: l)) with (f sv :: l). cbn. by rewrite Hf.
  - change (alter f (S s) (sv :: l)) with (sv :: alter f s l). cbn. by rewrite IH.
Qed.

Lemma inv_place p cs s sv : INV p cs -> p_svcs p !! s = Some sv -> D !! s = Some (place_of sv).
Proof. intros HI E. rewrite <- (inv_places _ _ HI). change (map place_of (p_svcs p)) with (place_of <$> p_svcs p). by rewrite list_lookup_fmap, E. Qed.

Lemma inv_role p cs s sv : INV p cs -> p_svcs p !! s = Some sv -> roles !! s = Some (s_role sv).
Proof. intros HI E. apply roles_lookup. by rewrite (inv_place p cs s sv HI E). Qed.

(** *** What one action changes *)

(** A write fills a pipe, or a connection, or ends the process, or does nothing. *)
Lemma sys_write_cases fd z p :
  (exists j, p_files p !! fd = Some (PipeWrite j) /\ map_Exists (fun _ f => f = PipeRead j) (p_files p) /\
             sys_write fd z p = upd_p_pipes (alter (fun l => l ++ [z]) j) p) \/
  ((forall j, p_files p !! fd = Some (PipeWrite j) -> ~ map_Exists (fun _ f => f = PipeRead j) (p_files p)) /\
   exists st b, sys_write fd z p = upd_p_stray st (upd_p_killed b p)).
Proof.
  assert (Hid : exists st b, p = upd_p_stray st (upd_p_killed b p)) by (exists id, id; by destruct p).
  unfold sys_write. destruct (p_files p !! fd) as [[j|j| | |]|] eqn:E; try (right; split; [done|exact Hid]).
  - case_bool_decide as Hx; [left; eauto|right; split; [intros k [= ->]; done|]]. exists id, (fun _ => true). by destruct p.
  - right. split; [done|]. eexists _, id. by destruct p.
Qed.

Lemma exec_places cert i p new p' : exec cert i p = Some (new, p') ->
  map place_of (p_svcs p') = map place_of (p_svcs p) /\ p_sig p' = p_sig p /\ p_rtc p' = p_rtc p /\
  length (p_pipes p') = length (p_pipes p).
Proof.
  intros E. exec_cases i E; try done; try (by split; [by apply on_svc_places|]).
  destruct (sys_write_cases (s_send_fd sv) z p) as [(j & _ & _ & ->)|[_ (st & b & ->)]]; [|done].
  cbn. by rewrite length_alter.
Qed.

(** Files are only closed. *)
Lemma exec_files cert i p new p' fd : exec cert i p = Some (new, p') ->
  p_files p' !! fd = p_files p !! fd \/ (i = IClose fd /\ p_files p' !! fd = None).
Proof.
  intros E. exec_cases i E; try (left; done).
  - left. by destruct (sys_write_cases (s_send_fd sv) z p) as [(j & _ & _ & ->)|[_ (st & b & ->)]].
  - cbn. destruct (decide (fd0 = fd)) as [->|Hne]; [right; by rewrite lookup_delete_eq|left; by rewrite lookup_delete_ne].
Qed.

(** A service after an action comes from the same service. *)
Lemma exec_svc cert i p new p' s sv' : exec cert i p = Some (new, p') -> p_svcs p' !! s = Some sv' ->
  exists sv, p_svcs p !! s = Some sv /\ place_of sv' = place_of sv /\ s_code sv' = s_code sv /\
    (s_run sv' = s_run sv \/ (i = IBreak s /\ s_run sv' = Broken) \/ (i = ISpawn s /\ s_run sv' = Running)) /\
    (forall fd, fd ∈ s_conns sv' ++ s_q_conn sv' -> fd ∈ s_conns sv ++ s_q_conn sv \/ i = IPushConn s fd) /\
    (forall m, m ∈ s_q_msg sv' -> m ∈ s_q_msg sv \/ i = IPush s m).
Proof.
  intros E Hs. exec_cases i E; try (exists sv'; naive_solver).
  all: try (apply on_svc_lookup in Hs as (sv0 & Hs & ->); exists sv0; split; [done|];
    destruct (Nat.eqb_spec s0 s) as [->|]; [cbn|naive_solver]; repeat split; try tauto).
  all: try (intros x Hx; rewrite ?elem_of_app, ?list_elem_of_singleton in *; naive_solver).
  - destruct (sys_write_cases (s_send_fd sv) z p) as [(j & _ & _ & E)|[_ (st & b & E)]]; rewrite E in Hs; exists sv'; naive_solver.
  - intros x Hx. left. simplify_eq. rewrite Eq. by right.
  - intros x Hx. left. simplify_eq. rewrite Eq. set_solver.
Qed.

(** *** What an action adds to the code of its thread *)

(** It neither hands over a connection nor starts a thread. *)
Definition quiet (i : instr M) : bool := match i with IPushConn _ _ | ISpawn _ => false | _ => true end.

Definition mk_new (new : list (instr M)) (s : nat) (brk : bool) : Prop :=
  svc_code s brk new /\ paired roles new /\ Forall (fun i => quiet i = true) new.

Lemma mk_new_nil s brk : mk_new [] s brk.
Proof. by repeat split. Qed.

Lemma mk_new_app c c' s brk : mk_new c s brk -> mk_new c' s brk -> mk_new (c ++ c') s brk.
Proof.
  intros (H1 & H2 & H3) (H1' & H2' & H3'). split; [by apply svc_code_app|]. split; [by apply paired_app|]. by apply Forall_app.
Qed.

Lemma stop_workers_new ws s brk : mk_new (stop_workers ws) s brk.
Proof.
  induction ws as [|w ws IH]; [apply mk_new_nil|]. change (mk_new ([INotify w QUIT; IJoin w] ++ stop_workers ws) s brk).
  apply mk_new_app; [|done]. repeat split; by repeat constructor.
Qed.

Lemma close_new s d fds :
  D !! s = Some d -> (forall fd, fd ∈ fds -> fd ∈ owned d) -> mk_new (map (fun fd => IClose fd) fds) s true.
Proof.
  intros Hd. induction fds as [|fd fds IH]; intros Hf; [apply mk_new_nil|].
  change (mk_new ([IClose fd] ++ map (fun fd => IClose fd) fds) s true). apply mk_new_app; [|apply IH; intros; apply Hf; by right].
  repeat split; [|by repeat constructor]. exists d. split; [done|]. apply Hf. by left.
Qed.

(** A stop, whatever the service. *)
Lemma stop_new s d fds ws brk :
  D !! s = Some d -> (forall fd, fd ∈ fds -> fd ∈ owned d) ->
  mk_new (IDeleteWatchers s :: IBreak s :: map (fun fd => IClose fd) fds ++ stop_workers ws) s brk.
Proof.
  intros Hd Hf. destruct (mk_new_app _ _ _ _ (close_new s d fds Hd Hf) (stop_workers_new ws s true)) as (H1 & H2 & H3).
  split; [|split; [done|by repeat constructor]]. cbn. split; [done|]. split; [done|]. by rewrite orb_true_r.
Qed.

Lemma stop_code_new p cs s sv brk : INV p cs -> p_svcs p !! s = Some sv -> mk_new (stop_code s sv) s brk.
Proof.
  intros HI Hs. pose proof (inv_place p cs s sv HI Hs) as Hd.
  assert (Ho : forall fd, fd ∈ owned (place_of sv) <-> fd = s_recv_fd sv \/ fd = s_send_fd sv \/ fd = s_listen_fd sv)
    by (intros; cbn; set_solver).
  unfold stop_code, signaling_server_stop, rtc_server_stop, worker_stop.
  destruct (s_role sv), (s_thread_set sv); cbn [negb]; try apply mk_new_nil.
  - apply (stop_new s _ [s_listen_fd sv; s_recv_fd sv; s_send_fd sv] _ _ Hd). intros fd. rewrite Ho. set_solver.
  - apply (stop_new s _ [s_recv_fd sv; s_send_fd sv] [] _ Hd). intros fd. rewrite Ho. set_solver.
  - apply (stop_new s _ [s_recv_fd sv; s_send_fd sv] _ _ Hd). intros fd. rewrite Ho. set_solver.
  - apply (stop_new s _ [s_recv_fd sv; s_send_fd sv] _ _ Hd). intros fd. rewrite Ho. set_solver.
  - apply (stop_new s _ [s_recv_fd sv; s_send_fd sv] [] _ Hd). intros fd. rewrite Ho. set_solver.
Qed.

(** What is pushed is pushed to a service that is told. *)
Lemma push_new s brk t r (m : M) :
  roles !! t = Some r -> served KMsg r = true -> (is_rtc r = true -> from_worker m) -> mk_new [IPush t m; INotify t (RTC_MSG r)] s brk.
Proof.
  intros Ht Hr Hm. split; [|split; [|by repeat constructor]].
  - cbn. split; [|done]. intros r' Ht'. rewrite Ht in Ht'. by injection Ht' as <-.
  - cbn. split; [|done]. by exists r.
Qed.

Lemma process_msg_new p cs cert t sv m s brk :
  INV p cs -> p_svcs p !! t = Some sv -> (is_rtc (s_role sv) = true -> from_worker m) ->
  mk_new (process_msg msg_worker msg_home msg_reply cert sv m) s brk.
Proof.
  intros HI Hs Hm. pose proof (inv_place p cs t sv HI Hs) as Hd. unfold process_msg.
  destruct (s_role sv) eqn:Hr; try apply mk_new_nil.
  - unfold rtc_server_dispatch. destruct cert; [cbn|apply mk_new_nil]. destruct (msg_home m ≫= _) as [w|] eqn:Hw; [|apply mk_new_nil].
    apply bind_Some in Hw as (j & _ & Hw). apply (push_new s brk w RtcWorker m); [|done|intros _; by apply Hm].
    apply roles_lookup. rewrite (lay_workers _ _ _ LAY t (place_of sv) w Hd); [cbn; by rewrite Hr|]. by apply list_elem_of_lookup_2 with j.
  - unfold rtc_worker_reply. destruct (msg_reply m) as [m'|]; [|apply mk_new_nil]. apply (push_new s brk (msg_worker m) SignalingWorker m'); [by apply Hm|done|done].
Qed.

Lemma exec_new p cs cert s brk i new p' :
  INV p cs -> svc_instr s brk i -> exec cert i p = Some (new, p') -> mk_new new s brk.
Proof.
  intros HI Hi E. exec_cases i E; try apply mk_new_nil.
  - apply (process_msg_new p cs cert s0); [done..|]. intros Hr. apply (inv_msgs _ _ HI s0 sv); [done..|]. rewrite Eq. by left.
  - cbn in Hi. subst s0. by apply (stop_code_new p cs).
Qed.

(** *** The count *)


Lemma owed_none k r s (code : list (instr M)) : Forall (fun i => owed1 k r s i = 0) code -> owed k r s code = 0.
Proof. induction 1 as [|i c Hi _ IH]; cbn; [done|]. by rewrite Hi, IH. Qed.

Lemma quit_owed k r s t : owed1 k r s (INotify (M := M) t QUIT) = 0.
Proof. destruct k, r; cbn; by rewrite andb_false_r. Qed.

Lemma main_owed k r s code : main_ok code -> owed k r s code = 0.
Proof.
  induction code as [|i code IH]; [done|]. intros Hm. cbn [owed].
  assert (owed1 k r s i = 0 /\ main_ok code) as [-> Hc]; [|by rewrite IH].
  destruct i; cbn in Hm; try done; [destruct Hm as [-> Hm]; by rewrite quit_owed|..]; (split; [by destruct k|tauto]).
Qed.

Lemma stop_owed k r s t sv : owed k r s (stop_code t sv) = 0.
Proof.
  assert (Hw : forall ws, Forall (fun i => owed1 k r s i = 0) (stop_workers ws)).
  { induction ws as [|w ws IH]; [constructor|]. constructor; [apply quit_owed|]. constructor; [by destruct k|done]. }
  apply owed_none. unfold stop_code, signaling_server_stop, rtc_server_stop, worker_stop.
  destruct (s_role sv), (s_thread_set sv); cbn [negb app]; repeat (constructor || apply Hw); by destruct k.
Qed.

Lemma push_owed k r s t r' (m : M) : roles !! s = Some r -> served k r = true -> roles !! t = Some r' ->
  owed k r s [IPush t m; INotify t (RTC_MSG r')] = 0.
Proof.
  intros Hs Hk Ht. destruct (Nat.eqb_spec t s) as [->|Hne].
  - rewrite Hs in Ht. injection Ht as <-. destruct k; cbn; rewrite Nat.eqb_refl; cbn; [by rewrite Z.eqb_refl|]. by destruct r.
  - apply Nat.eqb_neq in Hne. destruct k; cbn; by rewrite Hne.
Qed.

Lemma process_msg_owed p cs cert t sv m k s r :
  INV p cs -> p_svcs p !! t = Some sv -> (is_rtc (s_role sv) = true -> from_worker m) -> roles !! s = Some r -> served k r = true ->
  owed k r s (process_msg msg_worker msg_home msg_reply cert sv m) = 0.
Proof.
  intros HI Ht Hm Hs Hk. pose proof (inv_place p cs t sv HI Ht) as Hd. unfold process_msg. destruct (s_role sv) eqn:Hr; try done.
  - unfold rtc_server_dispatch. destruct cert; [cbn [negb]|done]. destruct (msg_home m ≫= _) as [w|] eqn:Hw; [|done].
    apply bind_Some in Hw as (j & _ & Hw). apply (push_owed k r s w RtcWorker); [done..|].
    apply roles_lookup. rewrite (lay_workers _ _ _ LAY t (place_of sv) w Hd); [cbn; by rewrite Hr|]. by apply list_elem_of_lookup_2 with j.
  - unfold rtc_worker_reply. destruct (msg_reply m) as [m'|]; [|done]. apply (push_owed k r s (msg_worker m) SignalingWorker); [done..|]. by apply Hm.
Qed.

(** The numbers in a pipe of a living service after a write. *)
Lemma notify_tokens p cs t z sv s sv' l' x :
  INV p cs -> p_svcs p !! t = Some sv -> p_svcs p !! s = Some sv' -> alive sv' ->
  p_pipes (sys_write (s_send_fd sv) z p) !! s = Some l' ->
  exists l, p_pipes p !! s = Some l /\ tokens x l' = tokens x l + one (Nat.eqb t s && (z =? x)).
Proof.
  intros HI Ht Hs Ha El. destruct (inv_open _ _ HI s sv' Hs Ha) as [Hr Hw].
  pose proof (inv_place p cs t sv HI Ht) as Dt. pose proof (inv_place p cs s sv' HI Hs) as Ds.
  destruct (sys_write_cases (s_send_fd sv) z p) as [(j & Ej & Hx & E)|[Hno (st & b & E)]]; rewrite E in El; cbn in El.
  - destruct (inv_writes _ _ HI _ _ Ej) as (d & Dj & Hd).
    assert (t = j) as <- by (apply (lay_distinct _ _ _ LAY t j (place_of sv) d (s_send_fd sv)); [done..|cbn; set_solver|by right]).
    destruct (Nat.eqb_spec t s) as [->|Hne].
    + rewrite list_lookup_alter_eq in El. apply fmap_Some in El as (l & El & ->). exists l. split; [done|]. rewrite tokens_app. cbn. lia.
    + rewrite list_lookup_alter_ne in El by done. exists l'. split; [done|]. cbn. lia.
  - exists l'. split; [done|]. destruct (Nat.eqb_spec t s) as [->|Hne]; [|cbn; lia]. exfalso. rewrite Ht in Hs. injection Hs as ->.
    apply (Hno s Hw). apply map_Exists_lookup. by exists (s_recv_fd sv'), (PipeRead s).
Qed.

Lemma exec_count p cs cert t i c new p' :
  INV p cs -> cs !! t = Some (i :: c) -> exec cert i p = Some (new, p') ->
  (forall s sv, i = ISpawn s -> p_svcs p !! s = Some sv -> s_run sv = NotStarted) ->
  forall k s sv' l', p_svcs p' !! s = Some sv' -> alive sv' -> served k (s_role sv') = true -> p_pipes p' !! s = Some l' ->
  waiting_items k sv' = tokens (token k (s_role sv')) l' + total k (s_role sv') s (<[t := new ++ c]> cs).
Proof.
  intros HI Ht E Hsp k s sv' l' Hs' Ha' Hk Hl'. pose proof (exec_svc _ _ _ _ _ s sv' E Hs') as (sv & Hs & Hpl & _ & Hrun & _).
  assert (Hr : s_role sv' = s_role sv) by (by injection Hpl).
  assert (Ha : alive sv).
  { destruct Hrun as [Hb|[[-> Hb]|[-> Hb]]]; [unfold alive in *; by rewrite <- Hb| |left; by apply (Hsp s)]. unfold alive in Ha'. rewrite Hb in Ha'. by destruct Ha'. }
  pose proof (inv_role p cs s sv HI Hs) as Hrole. rewrite Hr in *. clear Hpl Hrun Ha'.
  rewrite (total_insert k (s_role sv) s cs t (i :: c)) by done. rewrite owed_app. cbn [owed].
  assert (Hcnt : forall l, p_pipes p !! s = Some l -> waiting_items k sv = tokens (token k (s_role sv)) l + total k (s_role sv) s cs)
    by (intros l; by apply (inv_count _ _ HI k s sv l)).
  assert (Hge : owed1 k (s_role sv) s i <= total k (s_role sv) s cs).
  { pose proof (total_ge roles k (s_role sv) s cs t _ Hrole (inv_paired _ _ HI) Ht) as Hg. cbn [owed] in Hg.
    assert (Hp : paired roles c) by (pose proof (proj1 (Forall_lookup _ _) (inv_paired _ _ HI) _ _ Ht) as Hp; destruct i; cbn in Hp; tauto).
    destruct (paired_owed roles k (s_role sv) s c Hrole Hp). lia. }
  pose proof (tokens_nonneg (token k (s_role sv)) l') as Htok.
  exec_cases i E; cbn [owed]; try (specialize (Hcnt l' Hl')).
  all: try (apply on_svc_lookup in Hs' as (sv1 & Hx & ->); rewrite Hs in Hx; injection Hx as <-).
  - destruct (Nat.eqb s0 s) eqn:Est, k; cbn in *; rewrite ?Est, ?length_app in *; cbn; lia.
  - destruct (Nat.eqb s0 s) eqn:Est, k; cbn in *; rewrite ?Est, ?length_app in *; cbn; lia.
  - assert (sv' = sv) as -> by (destruct (sys_write_cases (s_send_fd sv0) z p) as [(j & _ & _ & E)|[_ (st & b & E)]]; rewrite E in Hs'; cbn in Hs'; congruence).
    destruct (notify_tokens p cs s0 z sv0 s sv l' (token k (s_role sv)) HI Es Hs Ha Hl') as (l & El & ->). rewrite (Hcnt l El). destruct k; cbn; lia.
  - assert (sv' = sv) as -> by congruence. destruct (Nat.eqb_spec s0 s) as [->|Hne].
    + assert (sv0 = sv) as -> by congruence. destruct k; cbn [owed1 waiting_items] in *; rewrite ?Nat.eqb_refl in *; [rewrite Eq in *; cbn in *; lia|lia].
    + apply Nat.eqb_neq in Hne. destruct k; cbn [owed1] in *; rewrite ?Hne; cbn in *; lia.
  - assert (Hm : is_rtc (s_role sv0) = true -> from_worker m) by (intros Hi; apply (inv_msgs _ _ HI s0 sv0 m Es Hi); rewrite Eq; by left).
    rewrite (process_msg_owed p cs cert s0 sv0 m k s (s_role sv) HI Es Hm Hrole Hk).
    destruct (Nat.eqb_spec s0 s) as [->|Hne].
    + assert (sv0 = sv) as -> by congruence. destruct k; cbn in *; rewrite ?Nat.eqb_refl, ?Eq in *; cbn in *; lia.
    + apply Nat.eqb_neq in Hne. destruct k; cbn [owed1] in *; rewrite ?Hne; cbn in *; lia.
  - assert (sv' = sv) as -> by congruence. destruct (Nat.eqb_spec s0 s) as [->|Hne].
    + assert (sv0 = sv) as -> by congruence. destruct k; cbn [owed1 waiting_items] in *; rewrite ?Nat.eqb_refl in *; [lia|rewrite Eq in *; cbn in *; lia].
    + apply Nat.eqb_neq in Hne. destruct k; cbn [owed1] in *; rewrite ?Hne; cbn in *; lia.
  - destruct (Nat.eqb_spec s0 s) as [->|Hne].
    + assert (sv0 = sv) as -> by congruence. destruct k; cbn in *; rewrite ?Nat.eqb_refl, ?Eq in *; cbn in *; lia.
    + apply Nat.eqb_neq in Hne. destruct k; cbn [owed1] in *; rewrite ?Hne; cbn in *; lia.
  - assert (sv' = sv) as -> by congruence. rewrite stop_owed. destruct k; cbn [owed1]; lia.
  - destruct (Nat.eqb s0 s) eqn:Est, k; cbn in *; lia.
  - destruct (Nat.eqb s0 s) eqn:Est, k; cbn in *; lia.
  - cbn in Hs'. assert (sv' = sv) as -> by congruence. destruct k; cbn [owed1]; lia.
  - assert (sv' = sv) as -> by congruence. destruct k; cbn [owed1]; lia.
  - destruct (Nat.eqb s0 s) eqn:Est, k; cbn in *; lia.
  - destruct (Nat.eqb s0 s) eqn:Est, k; cbn in *; lia.
Qed.

(** *** One action keeps the invariant *)

Section one_action.
Context (p : process M) (cs : list (list (instr M))) (t : nat) (i : instr M) (c : list (instr M)).
Context (cert : bool) (new : list (instr M)) (p' : process M).
Context (HI : INV p cs) (Ht : cs !! t = Some (i :: c)) (E : exec cert i p = Some (new, p')).
Context (Hrun : forall s sv, t = S s -> p_svcs p !! s = Some sv -> s_run sv <> NotStarted).

(** Who runs: the main thread, or a service. *)
Lemma act_who :
  (t = 0%nat /\ main_ok (i :: c)) \/
  (exists s sv, t = S s /\ p_svcs p !! s = Some sv /\ s_run sv <> NotStarted /\
     svc_instr s (broken sv) i /\ svc_code s (broken sv || is_break i) c).
Proof.
  destruct t as [|s]; [left; split; [done|by apply (inv_main _ _ HI)]|right].
  assert (Hl : is_Some (p_svcs p !! s)).
  { apply lookup_lt_is_Some. apply lookup_lt_Some in Ht. rewrite (inv_len _ _ HI), <- (inv_places _ _ HI), length_map in Ht. lia. }
  destruct Hl as (sv & Hs). exists s, sv. split; [done|]. split; [done|]. split; [by apply (Hrun s)|]. exact (inv_codes _ _ HI s sv _ Hs Ht).
Qed.

Lemma act_new : paired roles new /\ Forall (fun i => quiet i = true) new.
Proof.
  destruct act_who as [[_ Hm]|(s & sv & _ & _ & _ & Hi & _)].
  - assert (new = []) as ->; [|by repeat split]. destruct i; try done; exec_cases i E; done.
  - destruct (exec_new p cs cert s _ i new p' HI Hi E) as (_ & ? & ?). done.
Qed.

(** Only a service that is told to end closes, and only what it owns. *)
Lemma act_close fd : i = IClose fd ->
  exists s sv d, p_svcs p !! s = Some sv /\ broken sv = true /\ D !! s = Some d /\ fd ∈ owned d.
Proof.
  intros Hi. destruct act_who as [[_ Hm]|(s & sv & _ & Hs & _ & Hb & _)]; rewrite Hi in *; [done|].
  destruct Hb as [Hb (d & Hd & Ho)]. by exists s, sv, d.
Qed.

Lemma act_run s sv sv' : p_svcs p !! s = Some sv -> p_svcs p' !! s = Some sv' ->
  s_run sv' = s_run sv \/ (i = IBreak s /\ t = S s /\ s_run sv <> NotStarted /\ s_run sv' = Broken) \/
  (i = ISpawn s /\ t = 0%nat /\ s_run sv = NotStarted /\ s_run sv' = Running).
Proof.
  intros Hs Hs'. destruct (exec_svc _ _ _ _ _ s sv' E Hs') as (sv0 & Hs0 & _ & _ & Hr & _). rewrite Hs in Hs0. injection Hs0 as <-.
  destruct act_who as [[-> Hm]|(s0 & sv0 & -> & Hs0 & Hn & Hi & _)]; destruct Hr as [Hr|[[-> Hr]|[-> Hr]]]; try (by left); try done; right.
  - right. repeat split; try done. apply (inv_spawn _ _ HI (ISpawn s :: c) s sv); [done|by left|done].
  - left. cbn in Hi. subst s0. rewrite Hs in Hs0. by injection Hs0 as <-.
Qed.

Lemma act_alive s sv sv' : p_svcs p !! s = Some sv -> p_svcs p' !! s = Some sv' -> alive sv' -> alive sv.
Proof.
  intros Hs Hs' Ha. unfold alive in *. destruct (act_run s sv sv' Hs Hs') as [<-|[(_ & _ & _ & Hb)|(_ & _ & Hb & _)]]; [done| |by left].
  rewrite Hb in Ha. by destruct Ha.
Qed.

Lemma act_conn fd : conn_or_free p fd -> conn_or_free p' fd.
Proof. unfold conn_or_free. destruct (exec_files _ _ _ _ _ fd E) as [->|[_ ->]]; [done|by left]. Qed.

Lemma act_svc s sv' : p_svcs p' !! s = Some sv' -> exists sv, p_svcs p !! s = Some sv /\ place_of sv' = place_of sv.
Proof. intros Hs'. destruct (exec_svc _ _ _ _ _ s sv' E Hs') as (sv & Hs & Hp & _). by exists sv. Qed.

Lemma act_open s sv' : p_svcs p' !! s = Some sv' -> alive sv' ->
  p_files p' !! s_recv_fd sv' = Some (PipeRead s) /\ p_files p' !! s_send_fd sv' = Some (PipeWrite s).
Proof.
  intros Hs' Ha'. destruct (act_svc s sv' Hs') as (sv & Hs & Hp). pose proof (act_alive s sv sv' Hs Hs' Ha') as Ha.
  injection Hp as _ -> -> _ _. destruct (inv_open _ _ HI s sv Hs Ha) as [Hr Hw]. pose proof (inv_place _ _ _ _ HI Hs) as Hd.
  assert (Hclose : forall fd, i = IClose fd -> fd = s_recv_fd sv \/ fd = s_send_fd sv -> False).
  { intros fd Hi Hfd. destruct (act_close fd Hi) as (s0 & sv0 & d & Hs0 & Hb & Hd0 & Ho).
    assert (s0 = s) as -> by (apply (lay_distinct _ _ _ LAY s0 s d (place_of sv) fd); [done..|exact Hfd]).
    rewrite Hs in Hs0. injection Hs0 as <-. unfold broken in Hb. apply bool_decide_eq_true in Hb. unfold alive in Ha.
    destruct Ha as [Ha|Ha], Hb as [Hb|Hb]; congruence. }
  split.
  - destruct (exec_files _ _ _ _ _ (s_recv_fd sv) E) as [->|[Hi _]]; [done|]. exfalso. apply (Hclose _ Hi). by left.
  - destruct (exec_files _ _ _ _ _ (s_send_fd sv) E) as [->|[Hi _]]; [done|]. exfalso. apply (Hclose _ Hi). by right.
Qed.

Lemma act_held s sv' fd : p_svcs p' !! s = Some sv' -> fd ∈ s_conns sv' ++ s_q_conn sv' -> conn_or_free p' fd.
Proof.
  intros Hs' Hfd. destruct (exec_svc _ _ _ _ _ s sv' E Hs') as (sv & Hs & _ & _ & _ & Hc & _). apply act_conn.
  destruct (Hc fd Hfd) as [Ho|Hi]; [by apply (inv_held _ _ HI s sv)|]. apply (inv_held_code _ _ HI t (i :: c) s); [done|]. rewrite Hi. by left.
Qed.

Lemma act_msgs s sv' m : p_svcs p' !! s = Some sv' -> is_rtc (s_role sv') = true -> m ∈ s_q_msg sv' -> from_worker m.
Proof.
  intros Hs' Hr Hm. destruct (exec_svc _ _ _ _ _ s sv' E Hs') as (sv & Hs & Hp & _ & _ & _ & Hq). injection Hp as Hrole _ _ _ _.
  rewrite Hrole in Hr. destruct (Hq m Hm) as [Ho|Hi]; [by apply (inv_msgs _ _ HI s sv)|].
  destruct act_who as [[_ H]|(s0 & sv0 & _ & _ & _ & H & _)]; rewrite Hi in H; [done|]. apply (H (s_role sv)); [by apply (inv_role p cs)|done].
Qed.

(** The codes afterwards: the thread's own has changed. *)
Lemma act_lookup u c' : <[t := new ++ c]> cs !! u = Some c' ->
  (u = t /\ c' = new ++ c) \/ (u <> t /\ cs !! u = Some c').
Proof.
  intros H. destruct (decide (u = t)) as [->|Hne]; [left|right; by rewrite list_lookup_insert_ne in H].
  rewrite list_lookup_insert_eq in H by (by eapply lookup_lt_Some). by injection H as <-.
Qed.

Lemma act_quiet c' x : <[t := new ++ c]> cs !! t = Some c' -> quiet x = false -> x ∈ c' -> x ∈ c.
Proof.
  intros H Hx Hin. destruct (act_lookup _ _ H) as [[_ ->]|[? _]]; [|done]. apply elem_of_app in Hin as [Hin|Hin]; [|done].
  destruct act_new as [_ Hq]. rewrite Forall_forall in Hq. specialize (Hq x Hin). congruence.
Qed.

Lemma act_held_code u c' s fd : <[t := new ++ c]> cs !! u = Some c' -> IPushConn s fd ∈ c' -> conn_or_free p' fd.
Proof.
  intros H Hin. apply act_conn. destruct (act_lookup _ _ H) as [[-> _]|[_ Hu]]; [|by apply (inv_held_code _ _ HI u c' s)].
  apply (inv_held_code _ _ HI t (i :: c) s); [done|]. right. by apply (act_quiet c').
Qed.

Lemma act_main c' : <[t := new ++ c]> cs !! 0%nat = Some c' -> main_ok c'.
Proof.
  intros H. destruct (act_lookup _ _ H) as [[Hz ->]|[_ Hu]]; [|by apply (inv_main _ _ HI)].
  destruct act_who as [[_ Hm]|(s & sv & -> & _)]; [|done].
  assert (new = []) as -> by (destruct i; try done; exec_cases i E; done). destruct i; cbn in *; tauto.
Qed.

Lemma act_spawn c' s sv' : <[t := new ++ c]> cs !! 0%nat = Some c' -> ISpawn s ∈ c' -> p_svcs p' !! s = Some sv' -> s_run sv' = NotStarted.
Proof.
  intros H Hin Hs'. destruct (act_svc s sv' Hs') as (sv & Hs & _).
  assert (exists c0, cs !! 0%nat = Some c0 /\ ISpawn s ∈ c0 /\ (t = 0%nat -> i <> ISpawn s)) as (c0 & H0 & Hin0 & Hne).
  { destruct (act_lookup _ _ H) as [[Hz ->]|[Hne Hu]]; [|by exists c']. exists (i :: c). rewrite Hz. split; [done|].
    rewrite Hz in H. assert (Hc : ISpawn s ∈ c) by (apply (act_quiet (new ++ c)); [exact H|done|done]). split; [by right|].
    intros _ ->. pose proof (inv_main _ _ HI (ISpawn s :: c)) as Hm. rewrite <- Hz in Ht. by destruct (Hm Ht). }
  pose proof (inv_spawn _ _ HI c0 s sv H0 Hin0 Hs) as Hn.
  destruct (act_run s sv sv' Hs Hs') as [->|[(_ & _ & Hx & _)|(Hi & Hz & _)]]; [done|done|]. by destruct (Hne Hz).
Qed.

Lemma act_codes s sv' c' : p_svcs p' !! s = Some sv' -> <[t := new ++ c]> cs !! S s = Some c' -> svc_code s (broken sv') c'.
Proof.
  intros Hs' H. destruct (act_svc s sv' Hs') as (sv & Hs & _). pose proof (act_run s sv sv' Hs Hs') as Hr.
  destruct (act_lookup _ _ H) as [[Hz ->]|[Hne Hu]].
  - destruct act_who as [[Hz' _]|(s0 & sv0 & Hz' & Hs0 & _ & Hi & Hc)]; [by rewrite Hz' in Hz|]. rewrite Hz' in Hz. injection Hz as <-.
    rewrite Hs in Hs0. injection Hs0 as <-. destruct (exec_new p cs cert s _ i new p' HI Hi E) as (Hnew & _ & _).
    assert (Hb : broken sv || is_break i = true -> broken sv' = true).
    { unfold broken. destruct i; cbn [is_break]; rewrite ?orb_false_r, ?orb_true_r.
      all: try (intros Hb; destruct Hr as [->|[(? & _)|(_ & Hz & _)]]; [done|done|by rewrite Hz in Hz']).
      intros _. cbn in Hi. subst s0. cbn [Threads.exec] in E. injection E as _ <-.
      apply on_svc_lookup in Hs' as (sv0 & _ & ->). by rewrite Nat.eqb_refl. }
    apply svc_code_app.
    + apply (svc_code_mono _ _ _ _ Hnew). intros Hx. apply Hb. by rewrite Hx.
    + by apply (svc_code_mono _ _ _ _ Hc).
  - apply (svc_code_mono _ _ _ _ (inv_codes _ _ HI s sv c' Hs Hu)). unfold broken.
    destruct Hr as [->|[(_ & Hz & _)|(_ & _ & -> & _)]]; [done|by destruct Hne|done].
Qed.

Lemma exec_INV : INV p' (<[t := new ++ c]> cs).
Proof.
  destruct (exec_places _ _ _ _ _ E) as (Hp & Hsig & Hrtc & Hlen). constructor.
  - rewrite Hp. apply HI.
  - rewrite Hsig. apply HI.
  - rewrite Hrtc. apply HI.
  - rewrite Hlen. apply HI.
  - apply act_open.
  - intros fd s. destruct (exec_files _ _ _ _ _ fd E) as [->|[_ ->]]; [apply HI|done].
  - apply act_held.
  - apply act_held_code.
  - apply act_msgs.
  - rewrite length_insert. apply HI.
  - apply act_main.
  - apply act_spawn.
  - apply act_codes.
  - apply Forall_insert; [apply HI|]. apply paired_app; [apply act_new|].
    pose proof (proj1 (Forall_lookup _ _) (inv_paired _ _ HI) _ _ Ht) as H. destruct i; cbn in H; tauto.
  - apply (exec_count p cs cert t i c new p' HI Ht E). intros s sv Hi Hs.
    destruct act_who as [[Hz Hm]|(s0 & sv0 & _ & _ & _ & H & _)]; [|by rewrite Hi in H].
    apply (inv_spawn _ _ HI (i :: c) s sv); [by rewrite <- Hz|rewrite Hi; by left|done].
Qed.
End one_action.

(** *** The other steps *)

(** What a step changes besides codes. *)
Lemma INV_svc p cs s f :
  INV p cs ->
  (forall sv, place_of (f sv) = place_of sv /\ s_q_msg (f sv) = s_q_msg sv /\ s_q_conn (f sv) = s_q_conn sv) ->
  (forall sv fd, fd ∈ s_conns (f sv) -> fd ∈ s_conns sv) ->
  (forall sv, p_svcs p !! s = Some sv -> s_run (f sv) = s_run sv \/ (s_run sv = Broken /\ s_run (f sv) = Ended)) ->
  INV (on_svc s f p) cs.
Proof.
  intros HI Hf Hc Hr.
  assert (Hlk : forall u sv', p_svcs (on_svc s f p) !! u = Some sv' -> exists sv, p_svcs p !! u = Some sv /\
    place_of sv' = place_of sv /\ s_q_msg sv' = s_q_msg sv /\ s_q_conn sv' = s_q_conn sv /\ (forall fd, fd ∈ s_conns sv' -> fd ∈ s_conns sv) /\
    (s_run sv' = s_run sv \/ (s_run sv = Broken /\ s_run sv' = Ended))).
  { intros u sv' H. apply on_svc_lookup in H as (sv & Hu & ->). exists sv. split; [done|]. destruct (Nat.eqb_spec s u) as [->|].
    - destruct (Hf sv) as (? & ? & ?). repeat split; try done; [apply Hc|by apply Hr].
    - repeat split; try done. by left. }
  assert (Ha : forall sv sv', s_run sv' = s_run sv \/ (s_run sv = Broken /\ s_run sv' = Ended) -> (alive sv' -> alive sv) /\ broken sv' = broken sv).
  { intros sv sv' H. unfold alive, broken. destruct H as [->|[Hb ->]]; [done|]. split; [by intros [?|?]|]. by rewrite Hb. }
  constructor; try (apply HI).
  - rewrite on_svc_places; [apply HI|]. intros sv. apply Hf.
  - intros u sv' H Hal. destruct (Hlk u sv' H) as (sv & Hu & Hp & _ & _ & _ & Hrun). injection Hp as _ -> -> _ _.
    apply (inv_open _ _ HI); [done|]. by apply (Ha sv sv').
  - intros u sv' fd H Hfd. destruct (Hlk u sv' H) as (sv & Hu & _ & _ & Hq & Hcs & _). apply (inv_held _ _ HI u sv fd Hu).
    rewrite Hq in Hfd. apply elem_of_app in Hfd as [Hfd|Hfd]; apply elem_of_app; [left; by apply Hcs|by right].
  - intros u sv' m H Hrole Hm. destruct (Hlk u sv' H) as (sv & Hu & Hp & Hq & _). injection Hp as Hro _ _ _ _.
    apply (inv_msgs _ _ HI u sv m Hu); [by rewrite <- Hro|by rewrite <- Hq].
  - intros c u sv' H Hin Hu'. destruct (Hlk u sv' Hu') as (sv & Hu & _ & _ & _ & _ & Hrun).
    pose proof (inv_spawn _ _ HI c u sv H Hin Hu) as Hn. destruct Hrun as [->|[Hb _]]; [done|]. by rewrite Hb in Hn.
  - intros u sv' c H Hc'. destruct (Hlk u sv' H) as (sv & Hu & _ & _ & _ & _ & Hrun). destruct (Ha sv sv' Hrun) as [_ ->]. by apply (inv_codes _ _ HI u sv).
  - intros k u sv' l H Hal Hk Hl. destruct (Hlk u sv' H) as (sv & Hu & Hp & Hq & Hqc & _ & Hrun). injection Hp as Hro _ _ _ _.
    assert (waiting_items k sv' = waiting_items k sv) as -> by (destruct k; cbn; by rewrite ?Hq, ?Hqc). rewrite Hro in *.
    apply (inv_count _ _ HI k u sv l Hu); [by apply (Ha sv sv')|done..].
Qed.

Lemma INV_main p cs g : INV p cs -> INV (upd_p_main g p) cs.
Proof. intros []. by constructor. Qed.

(** Code is added to a thread. *)
Lemma INV_code p cs t new c :
  INV p cs -> cs !! t = Some c -> paired roles new ->
  (forall k s r, roles !! s = Some r -> served k r = true -> owed k r s new = 0) ->
  (forall s fd, IPushConn s fd ∈ new -> conn_or_free p fd) ->
  (t = 0%nat -> main_ok (new ++ c) /\ forall s, ISpawn s ∉ new) ->
  (forall s sv, t = S s -> p_svcs p !! s = Some sv -> svc_code s (broken sv) new) ->
  INV p (<[t := new ++ c]> cs).
Proof.
  intros HI Ht Hpair Howed Hheld Hmain Hsvc.
  assert (Hlk : forall u c', <[t := new ++ c]> cs !! u = Some c' -> (u = t /\ c' = new ++ c) \/ (u <> t /\ cs !! u = Some c')).
  { intros u c' H. destruct (decide (u = t)) as [->|Hne]; [left|right; by rewrite list_lookup_insert_ne in H].
    rewrite list_lookup_insert_eq in H by (by eapply lookup_lt_Some). by injection H as <-. }
  constructor; try (apply HI).
  - intros u c' s fd H Hin. destruct (Hlk u c' H) as [[-> ->]|[_ Hu]]; [|by apply (inv_held_code _ _ HI u c' s)].
    apply elem_of_app in Hin as [Hin|Hin]; [by apply (Hheld s)|by apply (inv_held_code _ _ HI t c s)].
  - rewrite length_insert. apply HI.
  - intros c' H. destruct (Hlk _ c' H) as [[Hz ->]|[_ Hu]]; [by apply Hmain|by apply (inv_main _ _ HI)].
  - intros c' s sv H Hin Hs. destruct (Hlk _ c' H) as [[Hz ->]|[_ Hu]]; [|by apply (inv_spawn _ _ HI c' s sv)].
    apply elem_of_app in Hin as [Hin|Hin]; [by apply Hmain in Hin|]. apply (inv_spawn _ _ HI c s sv); [by rewrite Hz|done|done].
  - intros s sv c' Hs H. destruct (Hlk _ c' H) as [[Hz ->]|[_ Hu]]; [|by apply (inv_codes _ _ HI s sv)].
    apply svc_code_app; [by apply Hsvc|]. apply (inv_codes _ _ HI s sv); [done|by rewrite Hz].
  - apply Forall_insert; [apply HI|]. apply paired_app; [done|]. exact (proj1 (Forall_lookup _ _) (inv_paired _ _ HI) _ _ Ht).
  - intros k s sv l Hs Ha Hk Hl. rewrite (total_insert k _ s cs t c) by done. rewrite owed_app.
    rewrite (Howed k s (s_role sv) (inv_role p cs s sv HI Hs) Hk). rewrite (inv_count _ _ HI k s sv l Hs Ha Hk Hl). lia.
Qed.

(** A connection is closed. *)
Lemma INV_close p cs fd : INV p cs -> conn_or_free p fd -> INV (sys_close fd p) cs.
Proof.
  intros HI Hfd.
  assert (Hc : forall x, conn_or_free p x -> conn_or_free (sys_close fd p) x).
  { intros x Hx. unfold conn_or_free in *. cbn. destruct (decide (fd = x)) as [->|Hne]; [left; by rewrite lookup_delete_eq|by rewrite lookup_delete_ne]. }
  assert (Hk : forall x f, p_files p !! x = Some f -> f <> Connection -> p_files (sys_close fd p) !! x = Some f).
  { intros x f Hx Hf. cbn. rewrite lookup_delete_ne; [done|]. intros ->. destruct Hfd; congruence. }
  constructor; try (apply HI).
  - intros s sv Hs Ha. destruct (inv_open _ _ HI s sv Hs Ha). split; by apply Hk.
  - intros x s Hx. apply (inv_writes _ _ HI). cbn in Hx. by apply lookup_delete_Some in Hx as [_ Hx].
  - intros s sv x Hs Hx. apply Hc. by apply (inv_held _ _ HI s sv).
  - intros t c s x Ht Hx. apply Hc. by apply (inv_held_code _ _ HI t c s).
Qed.

(** A client connects. *)
Lemma INV_accept p cs : INV p cs -> INV (sys_accept p).2 cs.
Proof.
  intros HI. pose proof (new_fd_free (p_files p)) as Hn. set (fd := new_fd (p_files p)) in *.
  assert (Hc : forall x, conn_or_free p x -> conn_or_free (sys_accept p).2 x).
  { intros x Hx. unfold conn_or_free in *. cbn. fold fd. destruct (decide (fd = x)) as [->|Hne]; [right; by rewrite lookup_insert_eq|by rewrite lookup_insert_ne]. }
  assert (Hk : forall x f, p_files p !! x = Some f -> p_files (sys_accept p).2 !! x = Some f).
  { intros x f Hx. cbn. fold fd. rewrite lookup_insert_ne; [done|]. intros <-. congruence. }
  constructor; try (apply HI).
  - intros s sv Hs Ha. destruct (inv_open _ _ HI s sv Hs Ha). split; by apply Hk.
  - intros x s Hx. apply (inv_writes _ _ HI). cbn in Hx. fold fd in Hx. by apply lookup_insert_Some in Hx as [[_ Hx]|[_ Hx]].
  - intros s sv x Hs Hx. apply Hc. by apply (inv_held _ _ HI s sv).
  - intros t c s x Ht Hx. apply Hc. by apply (inv_held_code _ _ HI t c s).
Qed.

(** A loop reads a number from its own pipe. *)
Lemma notify_owed k s t sv z : roles !! s = Some (s_role sv) -> forall r, roles !! t = Some r -> served k r = true ->
  owed k r t (process_notify (M := M) (s_role sv) s z) = one (Nat.eqb s t && (z =? token k r)).
Proof.
  intros Hs r Ht Hk. unfold process_notify. destruct (Nat.eqb_spec s t) as [->|Hne].
  - rewrite Hs in Ht. injection Ht as <-. cbn [andb].
    destruct (Z.eqb_spec z QUIT) as [->|Hq]; [destruct k, (s_role sv); try done; cbn; by rewrite ?Nat.eqb_refl|].
    destruct k, (s_role sv); try done; cbn;
      repeat (match goal with |- context [z =? ?x] => destruct (Z.eqb_spec z x) as [->|] end; cbn; try done); by rewrite ?Nat.eqb_refl.
  - cbn. apply Nat.eqb_neq in Hne. destruct (z =? QUIT); [by destruct k|].
    destruct k, (s_role sv); cbn; repeat case_match; cbn; rewrite ?Hne; done.
Qed.

Lemma INV_read p cs s sv z l :
  INV p cs -> p_svcs p !! s = Some sv -> alive sv -> cs !! S s = Some [] -> p_pipes p !! s = Some (z :: l) ->
  INV (upd_p_pipes <[s := l]> p) (<[S s := process_notify (s_role sv) s z]> cs).
Proof.
  intros HI Hs Ha Hc Hl. pose proof (inv_role p cs s sv HI Hs) as Hrole.
  assert (Hlk : forall u c', <[S s := process_notify (s_role sv) s z]> cs !! u = Some c' ->
    (u = S s /\ c' = process_notify (s_role sv) s z) \/ (u <> S s /\ cs !! u = Some c')).
  { intros u c' H. destruct (decide (u = S s)) as [->|Hne]; [left|right; by rewrite list_lookup_insert_ne in H].
    rewrite list_lookup_insert_eq in H by (by eapply lookup_lt_Some). by injection H as <-. }
  assert (Hform : forall i, i ∈ process_notify (M := M) (s_role sv) s z -> i = IStop s \/ i = IPopConn s \/ i = IPop s).
  { intros i Hi. unfold process_notify in Hi. repeat case_match; set_solver. }
  assert (Hpn : paired roles (process_notify (M := M) (s_role sv) s z)) by (unfold process_notify; repeat case_match; done).
  constructor; try (apply HI).
  - cbn. rewrite length_insert. apply HI.
  - intros u c' t fd H Hin. destruct (Hlk u c' H) as [[-> ->]|[_ Hu]]; [|by apply (inv_held_code _ _ HI u c' t)].
    apply Hform in Hin as [?|[?|?]]; done.
  - rewrite length_insert. apply HI.
  - intros c' H. destruct (Hlk _ c' H) as [[Hz _]|[_ Hu]]; [done|by apply (inv_main _ _ HI)].
  - intros c' t sv' H Hin Ht. destruct (Hlk _ c' H) as [[Hz _]|[_ Hu]]; [done|by apply (inv_spawn _ _ HI c' t sv')].
  - intros t sv' c' Ht H. destruct (Hlk _ c' H) as [[Hz ->]|[_ Hu]]; [|by apply (inv_codes _ _ HI t sv')].
    injection Hz as ->. unfold process_notify. repeat case_match; by repeat split.
  - apply Forall_insert; [apply HI|done].
  - intros k t sv' l' Ht Hat Hk Hl'. rewrite (total_insert k _ t cs (S s) [] _ Hc).
    rewrite (notify_owed k s t sv z Hrole (s_role sv') (inv_role p cs t sv' HI Ht) Hk). cbn [owed]. cbn in Hl'.
    destruct (Nat.eqb_spec s t) as [->|Hne].
    + rewrite list_lookup_insert_eq in Hl' by (by eapply lookup_lt_Some). injection Hl' as <-.
      rewrite (inv_count _ _ HI k t sv' _ Ht Hat Hk Hl). cbn. lia.
    + rewrite list_lookup_insert_ne in Hl' by done. rewrite (inv_count _ _ HI k t sv' l' Ht Hat Hk Hl'). cbn. lia.
Qed.

(** *** Every step keeps the invariant *)

Definition codes (p : process M) : list (list (instr M)) := p_main p :: map s_code (p_svcs p).

Lemma codes_lookup p s : codes p !! S s = s_code <$> p_svcs p !! s.
Proof. change (codes p !! S s) with ((s_code <$> p_svcs p) !! s). apply list_lookup_fmap. Qed.

Lemma codes_upd p s sv f : p_svcs p !! s = Some sv -> codes (on_svc s f p) = <[S s := s_code (f sv)]> (codes p).
Proof.
  intros Hs. apply list_eq. intros [|u]; [done|]. rewrite codes_lookup. destruct (decide (s = u)) as [->|Hne].
  - rewrite list_lookup_insert_eq by (cbn; rewrite length_map; apply lookup_lt_Some in Hs; lia). cbn. by rewrite list_lookup_alter_eq, Hs.
  - rewrite list_lookup_insert_ne by congruence. rewrite codes_lookup. cbn. by rewrite list_lookup_alter_ne.
Qed.

Lemma codes_same p s f : (forall sv, s_code (f sv) = s_code sv) -> codes (on_svc s f p) = codes p.
Proof.
  intros Hf. apply list_eq. intros [|u]; [done|]. rewrite !codes_lookup. cbn. destruct (decide (s = u)) as [->|Hne].
  - rewrite list_lookup_alter_eq. destruct (p_svcs p !! u) as [sv|]; [|done]. cbn. by rewrite Hf.
  - by rewrite list_lookup_alter_ne.
Qed.

Lemma exec_codes cert i p new p' : exec cert i p = Some (new, p') -> codes p' = codes p.
Proof.
  intros E. exec_cases i E; try done; try (by apply codes_same).
  by destruct (sys_write_cases (s_send_fd sv) z p) as [(j & _ & _ & ->)|[_ (st & b & ->)]].
Qed.

Notation step := (step msg_worker msg_home msg_reply).

Definition Inv p : Prop := INV p (codes p).

(** A service's own code is replaced. *)
Lemma INV_set_code p cs s g : INV p cs -> INV (on_svc s (upd_s_code g) p) cs.
Proof. intros HI. apply INV_svc; [done|done|done|by left]. Qed.

Lemma step_main i c new p p' :
  Inv p -> p_main p = i :: c -> exec true i (upd_p_main (fun _ => c) p) = Some (new, p') -> Inv (upd_p_main (fun c => new ++ c) p').
Proof.
  intros HI Hm E. pose proof (exec_codes _ _ _ _ _ E) as Hc. unfold Inv. apply INV_main.
  assert (codes (upd_p_main (fun c => new ++ c) p') = <[0%nat := new ++ c]> (codes p)) as ->.
  { unfold codes in *. cbn in Hc |- *. by injection Hc as -> ->. }
  apply (exec_INV _ _ 0%nat i c true new p' (INV_main p _ (fun _ => c) HI)); [cbn; by rewrite Hm|done|done].
Qed.

Lemma step_run cert s sv i c new p p' :
  Inv p -> p_svcs p !! s = Some sv -> s_run sv <> NotStarted -> s_code sv = i :: c ->
  exec cert i (on_svc s (upd_s_code (fun _ => c)) p) = Some (new, p') -> Inv (on_svc s (upd_s_code (fun c => new ++ c)) p').
Proof.
  intros HI Hs Hr Hcode E. pose proof (exec_codes _ _ _ _ _ E) as Hc. rewrite (codes_upd p s sv) in Hc by done.
  change (s_code (upd_s_code _ sv)) with c in Hc.
  assert (Hs' : exists sv', p_svcs p' !! s = Some sv' /\ s_code sv' = c).
  { assert (H : codes p' !! S s = Some c).
    { rewrite Hc. rewrite list_lookup_insert_eq; [done|]. cbn. rewrite length_map. apply lookup_lt_Some in Hs. lia. }
    rewrite codes_lookup in H. apply fmap_Some in H as (sv' & ? & ->). by exists sv'. }
  destruct Hs' as (sv' & Hs' & Hcode'). unfold Inv. rewrite (codes_upd p' s sv') by done. apply INV_set_code.
  change (s_code (upd_s_code _ sv')) with (new ++ s_code sv'). rewrite Hcode', Hc.
  rewrite list_insert_insert_eq. apply (exec_INV _ _ (S s) i c cert new p' (INV_set_code p _ s (fun _ => c) HI)).
  - rewrite codes_lookup, Hs. cbn. by rewrite Hcode.
  - done.
  - intros u sv0 [= <-] H. apply on_svc_lookup in H as (sv1 & H & ->). rewrite Hs in H. injection H as <-. by rewrite Nat.eqb_refl.
Qed.

Lemma guard_Some b u : guard b = Some u -> b = true.
Proof. by destruct b. Qed.

(** New code of a service whose loop waits. *)
Lemma set_code p s sv g new :
  INV p (codes p) -> p_svcs p !! s = Some sv -> s_code sv = [] ->
  paired roles new ->
  (forall k t r, roles !! t = Some r -> served k r = true -> owed k r t new = 0) ->
  (forall t fd, IPushConn t fd ∈ new -> conn_or_free p fd) ->
  svc_code s (broken sv) new ->
  (forall sv, place_of (g sv) = place_of sv /\ s_q_msg (g sv) = s_q_msg sv /\ s_q_conn (g sv) = s_q_conn sv /\
              s_conns (g sv) = s_conns sv /\ s_run (g sv) = s_run sv /\ s_code (g sv) = new) ->
  Inv (on_svc s g p).
Proof.
  intros HI Hs Hcode Hp Ho Hh Hc Hg. unfold Inv. rewrite (codes_upd p s sv) by done.
  destruct (Hg sv) as (_ & _ & _ & _ & _ & ->).
  apply INV_svc; [|intros sv0; destruct (Hg sv0) as (? & ? & ? & _); done|intros sv0 fd; by destruct (Hg sv0) as (_ & _ & _ & -> & _)|
    intros sv0 _; left; by destruct (Hg sv0) as (_ & _ & _ & _ & -> & _)].
  rewrite <- (app_nil_r new). apply INV_code; [done| |done|done|done|done|].
  - rewrite codes_lookup, Hs. cbn. by rewrite Hcode.
  - intros t sv0 [= <-] H. rewrite Hs in H. by injection H as <-.
Qed.

Lemma waiting_spec sv : waiting sv = true -> s_run sv = Running /\ s_code sv = [].
Proof. unfold waiting. rewrite andb_true_iff, !bool_decide_eq_true. done. Qed.

Lemma step_read p s sv z l :
  Inv p -> p_svcs p !! s = Some sv -> waiting sv = true -> p_pipes p !! s = Some (z :: l) ->
  Inv (on_svc s (upd_s_code (fun _ => process_notify (s_role sv) s z)) (upd_p_pipes <[s := l]> p)).
Proof.
  intros HI Hs Hw Hl. apply waiting_spec in Hw as [Hr Hc]. unfold Inv.
  rewrite (codes_upd _ s sv) by done. apply INV_set_code.
  change (codes (upd_p_pipes <[s := l]> p)) with (codes p). change (s_code (upd_s_code _ sv)) with (process_notify (M := M) (s_role sv) s z).
  apply (INV_read p _ s sv z l HI Hs); [by right| |done]. rewrite codes_lookup, Hs. cbn. by rewrite Hc.
Qed.

Lemma step_accept p s sv :
  Inv p -> p_svcs p !! s = Some sv -> waiting sv = true -> s_role sv = SignalingServer ->
  Inv (on_svc s (fun sv' => upd_s_next (fun _ => (dispatch_conn (M := M) (sys_accept p).1 sv).2)
                           (upd_s_code (fun _ => (dispatch_conn (sys_accept p).1 sv).1) sv')) (sys_accept p).2).
Proof.
  intros HI Hs Hw Hrole. apply waiting_spec in Hw as [Hr Hc].
  assert (Hd : forall w, s_workers sv !! s_next sv = Some w -> roles !! w = Some SignalingWorker).
  { intros w Hw. apply roles_lookup. rewrite (lay_workers _ _ _ LAY s (place_of sv) w (inv_place _ _ _ _ HI Hs)); [cbn; by rewrite Hrole|].
    by apply list_elem_of_lookup_2 with (s_next sv). }
  apply (set_code _ s sv _ (dispatch_conn (sys_accept p).1 sv).1); [exact (INV_accept p _ HI)|done|done|..].
  - unfold dispatch_conn. destruct (s_workers sv !! s_next sv) as [w|] eqn:Ew; [|done]. cbn. split; [|done]. split; [by apply Hd|done].
  - intros k t r Ht Hk. unfold dispatch_conn. destruct (s_workers sv !! s_next sv) as [w|] eqn:Ew; [|done]. specialize (Hd w eq_refl).
    destruct (Nat.eqb_spec w t) as [->|Hne].
    + rewrite Hd in Ht. injection Ht as <-. destruct k; cbn; by rewrite Nat.eqb_refl.
    + apply Nat.eqb_neq in Hne. destruct k; cbn; by rewrite Hne.
  - intros t fd. unfold dispatch_conn. destruct (s_workers sv !! s_next sv) as [w|]; [|by intros H%elem_of_nil].
    intros H. cbn [fst] in H. rewrite !elem_of_cons in H. destruct H as [[= _ ->]|[H|H%elem_of_nil]]; [|done|done]. right. cbn. by rewrite lookup_insert_eq.
  - unfold dispatch_conn. destruct (s_workers sv !! s_next sv) as [w|]; done.
  - done.
Qed.

Lemma step_request p s sv m :
  Inv p -> p_svcs p !! s = Some sv -> waiting sv = true -> s_role sv = SignalingWorker -> msg_worker m = s ->
  Inv (on_svc s (upd_s_code (fun _ => [IPush (p_rtc p) m; INotify (p_rtc p) (RTC_MSG RtcServer)])) p).
Proof.
  intros HI Hs Hw Hrole Hm. apply waiting_spec in Hw as [Hr Hc]. rewrite (inv_rtc _ _ HI).
  assert (Hrtc : roles !! rtc = Some RtcServer) by (apply roles_lookup, (lay_rtc _ _ _ LAY)).
  assert (Hfrom : from_worker m) by (unfold from_worker; rewrite Hm, <- Hrole; by apply (inv_role p (codes p))).
  destruct (push_new s (broken sv) rtc RtcServer m Hrtc eq_refl (fun _ => Hfrom)) as (H1 & H2 & H3).
  apply (set_code _ s sv _ [IPush rtc m; INotify rtc (RTC_MSG RtcServer)]); try done.
  - intros k t r Ht Hk. by apply (push_owed k r t rtc RtcServer m).
  - intros t fd H. rewrite Forall_forall in H3. by specialize (H3 _ H).
Qed.

Lemma step_close_conn p s sv fd :
  Inv p -> p_svcs p !! s = Some sv -> fd ∈ s_conns sv ->
  Inv (sys_close fd (on_svc s (upd_s_conns (List.filter (fun x => negb (x =? fd)))) p)).
Proof.
  intros HI Hs Hfd. unfold Inv. change (codes (sys_close fd ?q)) with (codes q). rewrite codes_same by done.
  apply INV_close; [|apply (inv_held _ _ HI s sv); [done|apply elem_of_app; by left]].
  apply INV_svc; [done|done| |by left]. intros sv0 x Hx. apply list_elem_of_In, filter_In in Hx as [Hx _]. by apply list_elem_of_In.
Qed.

Lemma step_end p s sv : Inv p -> p_svcs p !! s = Some sv -> s_run sv = Broken -> Inv (on_svc s (upd_s_run (fun _ => Ended)) p).
Proof.
  intros HI Hs Hr. unfold Inv. rewrite codes_same by done. apply INV_svc; [done|done|done|].
  intros sv0 H. right. rewrite Hs in H. by injection H as <-.
Qed.

Lemma step_signal p : Inv p -> Inv (upd_p_main (fun c => [INotify (p_sig p) QUIT; INotify (p_rtc p) QUIT] ++ c) p).
Proof.
  intros HI. unfold Inv. apply INV_main. change (codes _) with (<[0%nat := [INotify (p_sig p) QUIT; INotify (p_rtc p) QUIT] ++ p_main p]> (codes p)).
  apply INV_code; [done|done|done| | |intros _; split|done].
  - intros k s r _ _. cbn [owed]. by rewrite !quit_owed.
  - intros s fd H. rewrite !elem_of_cons in H. destruct H as [?|[?|H%elem_of_nil]]; done.
  - cbn. split; [done|]. split; [done|]. by apply (inv_main _ _ HI).
  - intros s H. rewrite !elem_of_cons in H. destruct H as [?|[?|H%elem_of_nil]]; done.
Qed.

Lemma step_Inv l p p' : Inv p -> step l p = Some p' -> Inv p'.
Proof.
  intros HI E. unfold Threads.step in E. apply bind_Some in E as (u & _ & E). destruct l as [|s cert|s|s|s m|s fd|s|].
  - destruct (p_main p) as [|i c] eqn:Hm; [done|]. apply bind_Some in E as ([new p1] & E & [= <-]). by apply (step_main i c new p p1).
  - apply bind_Some in E as (sv & Hs & E). apply bind_Some in E as (u' & Hg%guard_Some & E).
    destruct (s_code sv) as [|i c] eqn:Hc; [done|]. apply bind_Some in E as ([new p1] & E & [= <-]).
    apply (step_run cert s sv i c new p p1); try done. intros Hn. rewrite Hn in Hg. done.
  - apply bind_Some in E as (sv & Hs & E). apply bind_Some in E as (u' & Hg%guard_Some & E). apply andb_true_iff in Hg as [Hw _].
    pose proof (waiting_spec sv Hw) as [Hr _]. destruct (inv_open _ _ HI s sv Hs) as [Hf _]; [by right|]. rewrite Hf in E.
    apply bind_Some in E as (l & Hl & E). destruct l as [|z l]; [done|]. injection E as <-. by apply step_read.
  - apply bind_Some in E as (sv & Hs & E). apply bind_Some in E as (u' & Hg%guard_Some & E). rewrite !andb_true_iff, !bool_decide_eq_true in Hg.
    destruct Hg as [[[Hw _] Hrole] _]. pose proof (step_accept p s sv HI Hs Hw Hrole) as H.
    destruct (sys_accept p) as [fd p1]. cbn [fst snd] in H. destruct (dispatch_conn fd sv) as [code next]. by injection E as <-.
  - apply bind_Some in E as (sv & Hs & E). apply bind_Some in E as (u' & Hg%guard_Some & E). rewrite !andb_true_iff, !bool_decide_eq_true in Hg.
    destruct Hg as [[[Hw Hrole] _] Hm]. injection E as <-. by apply (step_request p s sv).
  - apply bind_Some in E as (sv & Hs & E). apply bind_Some in E as (u' & Hg%guard_Some & E). rewrite !andb_true_iff, !bool_decide_eq_true in Hg.
    destruct Hg as [_ Hin]. injection E as <-. by apply (step_close_conn p s sv).
  - apply bind_Some in E as (sv & Hs & E). apply bind_Some in E as (u' & Hg%guard_Some & E). rewrite !andb_true_iff, !bool_decide_eq_true in Hg.
    destruct Hg as [Hr _]. injection E as <-. by apply (step_end p s sv).
  - injection E as <-. by apply step_signal.
Qed.
End invariant.
