(* ===== verification/ThreadsBoot.v ===== *)
(** * Threads: start-up

    What the initialisation of the servers makes: every service has a pipe of
    its own, and the workers of a server are of its kind. *)

From S2P Require Import Prelude Threads ThreadsTheory.
Local Open Scope Z_scope.

Section boot.
Context {M : Type}.
Implicit Types (p : process M) (sv : service M).

(** A service before anything has happened. *)
Definition fresh_svc (p : process M) (s : nat) (sv : service M) : Prop :=
  p_files p !! s_recv_fd sv = Some (PipeRead s) /\ p_files p !! s_send_fd sv = Some (PipeWrite s) /\
  (s_listen_fd sv = -1 \/ p_files p !! s_listen_fd sv = Some Listener) /\
  s_code sv = [] /\ s_q_msg sv = [] /\ s_q_conn sv = [] /\ s_conns sv = [] /\
  (s_run sv = NotStarted \/ (s_run sv = Running /\ (s_role sv = SignalingWorker \/ s_role sv = RtcWorker))).

(** Which services workers are. *)
Definition team (p : process M) (sv : service M) : Prop :=
  (forall w, w ∈ s_workers sv -> exists sv', p_svcs p !! w = Some sv' /\ s_role sv' = worker_role (s_role sv)) /\
  (s_role sv = SignalingWorker \/ s_role sv = RtcWorker -> s_workers sv = []) /\ NoDup (s_workers sv).

Record fresh (p : process M) : Prop := mkFresh {
  fr_svc s sv : p_svcs p !! s = Some sv -> fresh_svc p s sv;
  fr_team s sv : p_svcs p !! s = Some sv -> team p sv;
  fr_writes fd s : p_files p !! fd = Some (PipeWrite s) -> exists sv, p_svcs p !! s = Some sv /\ fd = s_send_fd sv;
  fr_pipes : p_pipes p = replicate (length (p_svcs p)) [];
  fr_nonneg fd : is_Some (p_files p !! fd) -> 0 <= fd;
  fr_main : p_main p = [];
  fr_straight : p_stray p = [] /\ p_killed p = false;
}.

Definition new_svc (r : role) (recv send : Z) : service M :=
  mkService r recv send (-1) true false NotStarted [] [] [] [] [] [] 0.

(** The state after [new_service]. *)
Lemma new_service_eq r p : exists recv send,
  p_files p !! recv = None /\ p_files p !! send = None /\ recv <> send /\ 0 <= recv /\ 0 <= send /\
  new_service r p = upd_p_svcs (fun l => l ++ [new_svc r recv send])
    (upd_p_files (fun f => <[send := PipeWrite (length (p_pipes p))]> (<[recv := PipeRead (length (p_pipes p))]> f))
       (upd_p_pipes (fun l => l ++ [[]]) p)).
Proof.
  set (recv := new_fd (p_files p)). set (files := <[recv := PipeRead (length (p_pipes p))]> (p_files p)).
  exists recv, (new_fd files). pose proof (new_fd_free files) as Hw. unfold files in Hw at 1. apply lookup_insert_None in Hw as [Hw Hne].
  split; [apply new_fd_free|]. split; [done|]. split; [done|]. split; [apply new_fd_nonneg|]. split; [apply new_fd_nonneg|]. done.
Qed.

Lemma fresh_new_service r p : fresh p -> fresh (new_service r p).
Proof.
  intros HF. destruct (new_service_eq r p) as (recv & send & Hr & Hs & Hne & Hr0 & Hs0 & ->).
  assert (Hlen : length (p_pipes p) = length (p_svcs p)) by (rewrite (fr_pipes p HF); apply length_replicate). rewrite Hlen.
  assert (Hk : forall fd f, p_files p !! fd = Some f ->
    <[send := PipeWrite (length (p_svcs p))]> (<[recv := PipeRead (length (p_svcs p))]> (p_files p)) !! fd = Some f).
  { intros fd f H. rewrite !lookup_insert_ne by congruence. done. }
  constructor; cbn.
  - intros s sv H. apply lookup_snoc_Some in H as [[_ H]|[-> <-]].
    + destruct (fr_svc p HF s sv H) as (H1 & H2 & H3 & H4). split; [by apply Hk|]. split; [by apply Hk|]. split; [|done].
      destruct H3; [by left|right; by apply Hk].
    + repeat split; cbn; [by rewrite lookup_insert_ne, lookup_insert_eq by done|by rewrite lookup_insert_eq|by left|by left].
  - intros s sv H. apply lookup_snoc_Some in H as [[_ H]|[-> <-]]; [|split; [by intros w Hw%elem_of_nil|split; [done|constructor]]].
    destruct (fr_team p HF s sv H) as [H1 H2]. split; [|done]. intros w Hw. destruct (H1 w Hw) as (sv' & H' & Hrole). exists sv'.
    split; [|done]. cbn. apply lookup_app_l_Some, H'.
  - intros fd s H. apply lookup_insert_Some in H as [[<- [= <-]]|[_ H]].
    + exists (new_svc r recv send). split; [|done]. by rewrite list_lookup_middle.
    + apply lookup_insert_Some in H as [[_ ?]|[_ H]]; [done|]. destruct (fr_writes p HF fd s H) as (sv & H' & ->). exists sv.
      split; [by apply lookup_app_l_Some|done].
  - rewrite (fr_pipes p HF), length_app. cbn. by rewrite replicate_add.
  - intros fd [f H]. apply lookup_insert_Some in H as [[<- _]|[_ H]]; [done|].
    apply lookup_insert_Some in H as [[<- _]|[_ H]]; [done|]. by apply (fr_nonneg p HF).
  - apply HF.
  - apply HF.
Qed.

(** A service is changed in what [fresh] does not mention, or gets a worker. *)
Lemma fresh_on_svc p s f :
  fresh p ->
  (forall sv, s_role (f sv) = s_role sv /\ s_send_fd (f sv) = s_send_fd sv) ->
  (forall sv, p_svcs p !! s = Some sv -> fresh_svc p s sv -> fresh_svc p s (f sv)) ->
  (forall sv, p_svcs p !! s = Some sv -> team p sv -> team p (f sv)) ->
  fresh (on_svc s f p).
Proof.
  intros HF Hf Hs Ht.
  assert (Hteam : forall sv, team p sv -> team (on_svc s f p) sv).
  { intros sv [H1 H2]. split; [|done]. intros w Hw. destruct (H1 w Hw) as (sv' & H' & Hrole). cbn. destruct (decide (s = w)) as [->|Hne].
    - exists (f sv'). rewrite list_lookup_alter_eq, H'. split; [done|]. destruct (Hf sv') as [-> _]. done.
    - exists sv'. by rewrite list_lookup_alter_ne. }
  constructor; try (apply HF).
  - intros t sv H. apply on_svc_lookup in H as (sv0 & H & ->). pose proof (fr_svc p HF t sv0 H) as H0.
    change (fresh_svc p t (if Nat.eqb s t then f sv0 else sv0)). destruct (Nat.eqb_spec s t) as [->|]; [by apply Hs|done].
  - intros t sv H. apply on_svc_lookup in H as (sv0 & H & ->). apply Hteam. pose proof (fr_team p HF t sv0 H) as H0.
    destruct (Nat.eqb_spec s t) as [->|]; [by apply Ht|done].
  - intros fd t H. destruct (fr_writes p HF fd t H) as (sv & H' & ->). cbn. destruct (decide (s = t)) as [->|Hne].
    + exists (f sv). rewrite list_lookup_alter_eq, H'. split; [done|]. symmetry. apply Hf.
    + exists sv. by rewrite list_lookup_alter_ne.
  - cbn. rewrite length_alter. apply HF.
Qed.

Definition role_at (p : process M) (s : nat) : option role := s_role <$> p_svcs p !! s.

Lemma role_at_on_svc s f p t : (forall sv, s_role (f sv) = s_role sv) -> role_at (on_svc s f p) t = role_at p t.
Proof.
  intros Hf. unfold role_at. cbn. destruct (decide (s = t)) as [->|Hne]; [|by rewrite list_lookup_alter_ne].
  rewrite list_lookup_alter_eq. destruct (p_svcs p !! t); [cbn; by rewrite Hf|done].
Qed.

Lemma role_at_new_service r p t :
  role_at (new_service r p) t = if Nat.eqb t (length (p_svcs p)) then Some r else role_at p t.
Proof.
  destruct (new_service_eq r p) as (recv & send & _ & _ & _ & _ & _ & ->). unfold role_at. cbn.
  destruct (Nat.eqb_spec t (length (p_svcs p))) as [->|Hne]; [by rewrite list_lookup_middle|].
  destruct (decide (t < length (p_svcs p))%nat) as [Hlt|Hge]; [by rewrite lookup_app_l|].
  rewrite !lookup_ge_None_2; [done|lia|rewrite length_app; cbn; lia].
Qed.

Lemma role_at_length p t r : role_at p t = Some r -> (t < length (p_svcs p))%nat.
Proof. unfold role_at. intros (sv & H & _)%fmap_Some. by apply lookup_lt_Some in H. Qed.

Lemma role_at_create r s p t :
  role_at (create_worker r s p) t = if Nat.eqb t (length (p_svcs p)) then Some r else role_at p t.
Proof. unfold create_worker. rewrite !role_at_on_svc by done. apply role_at_new_service. Qed.

Lemma fresh_create r s R p :
  fresh p -> role_at p s = Some R -> R = SignalingServer \/ R = RtcServer -> worker_role R = r -> fresh (create_worker r s p).
Proof.
  intros HF Hs HR Hr. unfold create_worker. set (w := length (p_svcs p)). pose proof (fresh_new_service r p HF) as H1.
  assert (Hsw : s <> w) by (pose proof (role_at_length p s R Hs); unfold w; lia).
  assert (H2 : fresh (on_svc w (fun sv => upd_s_thread_set (fun _ => true) (upd_s_run (fun _ => Running) sv)) (new_service r p))).
  { apply fresh_on_svc; [done|done| |done]. intros sv Hsv (? & ? & ? & ? & ? & ? & ? & _). do 7 (split; [done|]). right. split; [done|].
    assert (Hw : role_at (new_service r p) w = Some r) by (rewrite role_at_new_service; unfold w; by rewrite Nat.eqb_refl).
    unfold role_at in Hw. rewrite Hsv in Hw. injection Hw as Hw. cbn. rewrite Hw, <- Hr. destruct HR as [->| ->]; [by left|by right]. }
  apply fresh_on_svc; [done|done|done|]. intros sv Hsv (Ht1 & Ht2 & Ht3).
  assert (Hro : s_role sv = R).
  { assert (H : role_at (on_svc w (fun sv => upd_s_thread_set (fun _ => true) (upd_s_run (fun _ => Running) sv)) (new_service r p)) s = Some R).
    - rewrite role_at_on_svc, role_at_new_service by done. apply Nat.eqb_neq in Hsw. unfold w in Hsw. by rewrite Hsw.
    - unfold role_at in H. rewrite Hsv in H. by injection H. }
  assert (Hold : p_svcs p !! s = Some sv).
  { cbn [on_svc upd_p_svcs p_svcs] in Hsv. rewrite list_lookup_alter_ne in Hsv by done.
    destruct (new_service_eq r p) as (recv & send & _ & _ & _ & _ & _ & Heq). rewrite Heq in Hsv. cbn in Hsv.
    rewrite lookup_app_l in Hsv by (by eapply role_at_length). done. }
  split; [|split]; cbn [upd_s_workers s_workers s_role].
  - intros x [Hx|Hx%list_elem_of_singleton]%elem_of_app; [by apply Ht1|]. subst x. rewrite Hro.
    assert (H : role_at (on_svc w (fun sv => upd_s_thread_set (fun _ => true) (upd_s_run (fun _ => Running) sv)) (new_service r p)) w = Some r).
    { rewrite role_at_on_svc, role_at_new_service by done. unfold w. by rewrite Nat.eqb_refl. }
    unfold role_at in H. apply fmap_Some in H as (sv' & ? & ->). exists sv'. split; [done|]. by symmetry.
  - rewrite Hro. destruct HR as [->| ->]; by intros [?|?].
  - apply NoDup_app. split; [done|]. split; [|apply NoDup_singleton]. intros x Hx Hxw%list_elem_of_singleton. subst x.
    destruct (fr_team p HF s sv Hold) as [Hold1 _]. destruct (Hold1 w Hx) as (sv' & Hl & _). apply lookup_lt_Some in Hl. unfold w in Hl. lia.
Qed.

Lemma length_new_service r p : length (p_svcs (new_service r p)) = S (length (p_svcs p)).
Proof. destruct (new_service_eq r p) as (recv & send & _ & _ & _ & _ & _ & ->). cbn. rewrite length_app. cbn. lia. Qed.

Lemma length_create r s p : length (p_svcs (create_worker r s p)) = S (length (p_svcs p)).
Proof. unfold create_worker. cbn. rewrite !length_alter. apply length_new_service. Qed.

Lemma iter_create n r s R p :
  fresh p -> role_at p s = Some R -> R = SignalingServer \/ R = RtcServer -> worker_role R = r ->
  fresh (Nat.iter n (create_worker r s) p) /\
  length (p_svcs (Nat.iter n (create_worker r s) p)) = (n + length (p_svcs p))%nat /\
  p_sig (Nat.iter n (create_worker r s) p) = p_sig p /\ p_rtc (Nat.iter n (create_worker r s) p) = p_rtc p /\
  forall t, role_at (Nat.iter n (create_worker r s) p) t =
    if (t <? length (p_svcs p))%nat then role_at p t else if (t <? n + length (p_svcs p))%nat then Some r else None.
Proof.
  intros HF Hs HR Hr. induction n as [|n (IH1 & IH2 & IH3 & IH4 & IH5)].
  - change (Nat.iter 0 ?f p) with p. do 4 (split; [done|]). intros t. destruct (Nat.ltb_spec t (length (p_svcs p))) as [|Hge]; [done|].
    destruct (Nat.ltb_spec t (0 + length (p_svcs p))); [lia|]. unfold role_at. by rewrite lookup_ge_None_2.
  - change (Nat.iter (S n) ?f p) with (f (Nat.iter n f p)). set (q := Nat.iter n (create_worker r s) p) in *.
    assert (Hq : role_at q s = Some R).
    { rewrite IH5. pose proof (role_at_length p s R Hs) as Hl. apply Nat.ltb_lt in Hl. by rewrite Hl. }
    split; [by apply (fresh_create r s R)|]. split; [rewrite length_create; lia|].
    assert (Hi : p_sig (create_worker r s q) = p_sig q /\ p_rtc (create_worker r s q) = p_rtc q).
    { change (p_sig (new_service r q) = p_sig q /\ p_rtc (new_service r q) = p_rtc q). destruct (new_service_eq r q) as (recv & send & _ & _ & _ & _ & _ & ->). done. }
    destruct Hi as [-> ->]. split; [done|]. split; [done|]. intros t. rewrite role_at_create, IH2.
    destruct (Nat.eqb_spec t (n + length (p_svcs p))) as [->|Hne].
    + destruct (Nat.ltb_spec (n + length (p_svcs p)) (length (p_svcs p))); [lia|].
      destruct (Nat.ltb_spec (n + length (p_svcs p)) (S n + length (p_svcs p))); [done|lia].
    + rewrite IH5. destruct (t <? length (p_svcs p))%nat; [done|].
      destruct (Nat.ltb_spec t (n + length (p_svcs p))), (Nat.ltb_spec t (S n + length (p_svcs p))); try done; lia.
Qed.

(** A socket that listens. *)
Lemma fresh_listen p s : fresh p ->
  fresh (on_svc s (upd_s_listen_fd (fun _ => (sys_listen p).1)) (sys_listen p).2).
Proof.
  intros HF. pose proof (new_fd_free (p_files p)) as Hn. set (fd := new_fd (p_files p)) in *.
  assert (Hk : forall x f, p_files p !! x = Some f -> <[fd := Listener]> (p_files p) !! x = Some f).
  { intros x f Hx. rewrite lookup_insert_ne; [done|]. intros <-. congruence. }
  apply fresh_on_svc; [|done| |done].
  - constructor; try (apply HF); cbn; fold fd.
    + intros t sv H. destruct (fr_svc p HF t sv H) as (H1 & H2 & H3 & H4). split; [by apply Hk|]. split; [by apply Hk|]. split; [|done].
      destruct H3; [by left|right; by apply Hk].
    + intros x t H. apply lookup_insert_Some in H as [[_ ?]|[_ H]]; [done|]. by apply (fr_writes p HF).
    + intros x [f H]. apply lookup_insert_Some in H as [[<- _]|[_ H]]; [apply new_fd_nonneg|]. by apply (fr_nonneg p HF).
  - intros sv _ (? & ? & _ & ?). split; [done|]. split; [done|]. split; [|done]. right. cbn. fold fd. by rewrite lookup_insert_eq.
Qed.

Definition process0 : process M :=
  mkProcess (<[0 := Standard]> (<[1 := Standard]> (<[2 := Standard]> ∅))) [] [] [] 0 0 [] false.

Lemma fresh_process0 : fresh process0.
Proof.
  constructor; cbn; try done.
  - intros fd s H. repeat (apply lookup_insert_Some in H as [[_ ?]|[_ H]]; [done|]). done.
  - intros fd [f H]. repeat (apply lookup_insert_Some in H as [[<- _]|[_ H]]; [done|]). done.
Qed.

Definition boot_servers (a b : nat) : process M := init_rtc_server b (init_signaling_server a process0).

Lemma boot_eq a b : boot a b = upd_p_main (fun _ => main_code (p_sig (boot_servers a b)) (p_rtc (boot_servers a b))) (boot_servers a b).
Proof. done. Qed.

(** Which service is what. *)
Definition boot_role (a b t : nat) : option role :=
  if (t =? 0)%nat then Some SignalingServer else if (t <? S a)%nat then Some SignalingWorker
  else if (t =? S a)%nat then Some RtcServer else if (t <? S (S a) + b)%nat then Some RtcWorker else None.

Lemma boot_fresh a b :
  fresh (boot_servers a b) /\ p_sig (boot_servers a b) = 0%nat /\ p_rtc (boot_servers a b) = S a /\
  forall t, role_at (boot_servers a b) t = boot_role a b t.
Proof.
  set (p1 := new_service SignalingServer process0).
  set (p2 := upd_p_sig (fun _ => 0%nat) (on_svc 0 (upd_s_listen_fd (fun _ => (sys_listen p1).1)) (sys_listen p1).2)).
  assert (Hr2 : forall t, role_at p2 t = if (t =? 0)%nat then Some SignalingServer else None).
  { intros t. change (role_at p2 t) with (role_at (on_svc 0 (upd_s_listen_fd (fun _ => (sys_listen p1).1)) p1) t).
    rewrite role_at_on_svc by done. unfold p1. rewrite role_at_new_service. cbn. by destruct t. }
  assert (Hl2 : length (p_svcs p2) = 1%nat) by reflexivity.
  assert (HF2 : fresh p2).
  { destruct (fresh_listen p1 0%nat) as []; [apply fresh_new_service, fresh_process0|by constructor]. }
  destruct (iter_create a SignalingWorker 0%nat SignalingServer p2 HF2) as (H1 & H2 & H3 & _ & H5); [by rewrite Hr2|by left|done|].
  change (Nat.iter a (create_worker SignalingWorker 0) p2) with (init_signaling_server a process0) in *.
  set (q := init_signaling_server a process0) in *. rewrite Hl2 in *.
  set (q1 := upd_p_rtc (fun _ => length (p_svcs q)) (new_service RtcServer q)).
  assert (HFq : fresh q1) by (destruct (fresh_new_service RtcServer q H1); by constructor).
  assert (Hrq : forall t, role_at q1 t = if (t =? S a)%nat then Some RtcServer else role_at q t).
  { intros t. change (role_at q1 t) with (role_at (new_service RtcServer q) t). rewrite role_at_new_service, H2. by replace (a + 1)%nat with (S a) by lia. }
  assert (Hlq : length (p_svcs q1) = S (S a)) by (change (p_svcs q1) with (p_svcs (new_service RtcServer q)); rewrite length_new_service, H2; lia).
  destruct (iter_create b RtcWorker (length (p_svcs q)) RtcServer q1 HFq) as (G1 & G2 & G3 & G4 & G5);
    [rewrite Hrq, H2; by replace (a + 1)%nat with (S a) by lia; rewrite Nat.eqb_refl|by right|done|].
  change (Nat.iter b (create_worker RtcWorker (length (p_svcs q))) q1) with (boot_servers a b) in *.
  split; [done|]. split; [|split].
  - rewrite G3. change (p_sig q1) with (p_sig (new_service RtcServer q)).
    destruct (new_service_eq RtcServer q) as (recv & send & _ & _ & _ & _ & _ & ->). exact H3.
  - rewrite G4. change (p_rtc q1) with (length (p_svcs q)). rewrite H2. lia.
  - intros t. rewrite G5, Hlq, Hrq, H5, Hr2. unfold boot_role.
    destruct (Nat.eqb_spec t 0) as [->|H0]; [done|]. destruct (Nat.eqb_spec t (S a)) as [->|Ha].
    + destruct (Nat.ltb_spec (S a) (S (S a))); [|lia]. destruct (Nat.ltb_spec (S a) (S a)); [lia|done].
    + destruct (Nat.ltb_spec t (S (S a))), (Nat.ltb_spec t (S a)), (Nat.ltb_spec t 1), (Nat.ltb_spec t (a + 1)),
        (Nat.ltb_spec t (b + S (S a))), (Nat.ltb_spec t (S (S a) + b)); try done; lia.
Qed.

Definition layout (a b : nat) : list place := map place_of (p_svcs (boot_servers a b)).

Lemma layout_lookup a b s d : layout a b !! s = Some d ->
  exists sv, p_svcs (boot_servers a b) !! s = Some sv /\ d = place_of sv /\ fresh_svc (boot_servers a b) s sv /\
    team (boot_servers a b) sv /\ boot_role a b s = Some (s_role sv).
Proof.
  unfold layout. change (map place_of ?l) with (place_of <$> l). rewrite list_lookup_fmap. intros (sv & Hs & ->)%fmap_Some.
  destruct (boot_fresh a b) as (HF & _ & _ & Hr). exists sv. split; [done|]. split; [done|]. split; [by apply HF|]. split; [by apply (fr_team _ HF s)|].
  rewrite <- Hr. unfold role_at. by rewrite Hs.
Qed.

Lemma layout_role a b s : pl_role <$> layout a b !! s = boot_role a b s.
Proof.
  destruct (boot_fresh a b) as (_ & _ & _ & Hr). rewrite <- Hr. unfold layout, role_at. change (map place_of ?l) with (place_of <$> l).
  rewrite list_lookup_fmap. by destruct (p_svcs (boot_servers a b) !! s).
Qed.

Lemma boot_layout a b : layout_ok (layout a b) 0%nat (S a).
Proof.
  destruct (boot_fresh a b) as (HF & _ & _ & Hr). constructor.
  - intros s s' d d' fd Hd Hd' Ho He. destruct (layout_lookup a b s d Hd) as (sv & _ & -> & (H1 & H2 & H3 & _) & _).
    destruct (layout_lookup a b s' d' Hd') as (sv' & _ & -> & (H1' & H2' & _) & _). unfold owned in Ho. cbn in *.
    assert (Hl : ~ is_Some (p_files (boot_servers a b) !! (-1))) by (intros H; apply (fr_nonneg _ HF) in H; lia).
    rewrite !elem_of_cons in Ho. destruct Ho as [->|[->|[->|Ho%elem_of_nil]]]; [..|done]; destruct He as [He|He]; rewrite He in *; try congruence.
    + destruct H3 as [H3|H3]; [rewrite <- H3 in Hl; by destruct Hl|congruence].
    + destruct H3 as [H3|H3]; [rewrite <- H3 in Hl; by destruct Hl|congruence].
  - intros s d Hd. destruct (layout_lookup a b s d Hd) as (sv & _ & -> & (H1 & H2 & H3 & _) & _). cbn.
    assert (Hl : ~ is_Some (p_files (boot_servers a b) !! (-1))) by (intros H; apply (fr_nonneg _ HF) in H; lia).
    split; [congruence|]. split; intros He; rewrite <- He in H3; destruct H3 as [H3|H3]; try congruence; rewrite <- H3 in Hl; by destruct Hl.
  - by rewrite layout_role.
  - rewrite layout_role. unfold boot_role. cbn [Nat.eqb]. rewrite Nat.eqb_refl. by rewrite (proj2 (Nat.ltb_ge (S a) (S a)) (le_n _)).
  - intros s d w Hd Hw. destruct (layout_lookup a b s d Hd) as (sv & _ & -> & _ & [Ht _] & _). cbn in *.
    destruct (Ht w Hw) as (sv' & Hs' & Hrole). rewrite layout_role, <- Hr. unfold role_at. rewrite Hs'. cbn. by rewrite Hrole.
  - intros s d Hd Hrole. destruct (layout_lookup a b s d Hd) as (sv & _ & -> & _ & _ & Hb). cbn in Hrole. rewrite Hrole in Hb.
    unfold boot_role in Hb. destruct (s =? 0)%nat; [done|]. destruct (s <? S a)%nat; [done|]. destruct (Nat.eqb_spec s (S a)); [done|].
    by destruct (s <? S (S a) + b)%nat.
  - intros s d Hd Hrole. destruct (layout_lookup a b s d Hd) as (sv & _ & -> & _ & (_ & Ht & _) & _). cbn in *. by apply Ht.
Qed.

Lemma idle_total k r s (l : list (service M)) : Forall (fun sv => s_code sv = []) l -> total k r s (map s_code l) = 0.
Proof. induction 1 as [|sv l Hc _ IH]; cbn; [done|]. by rewrite Hc, IH. Qed.

Lemma boot_Inv (msg_worker : M -> nat) a b : Inv msg_worker (layout a b) 0%nat (S a) (boot a b).
Proof.
  destruct (boot_fresh a b) as (HF & Hsig & Hrtc & Hr). unfold Inv. rewrite boot_eq, Hsig, Hrtc.
  change (codes _) with (main_code (M := M) 0 (S a) :: map s_code (p_svcs (boot_servers a b))). apply (INV_main msg_worker).
  assert (Hlk : forall s sv, p_svcs (boot_servers a b) !! s = Some sv -> layout a b !! s = Some (place_of sv)).
  { intros s sv Hs. unfold layout. change (map place_of ?l) with (place_of <$> l). by rewrite list_lookup_fmap, Hs. }
  assert (Hcode : Forall (fun sv => s_code sv = []) (p_svcs (boot_servers a b))).
  { apply Forall_lookup. intros s sv Hs. by destruct (fr_svc _ HF s sv Hs) as (_ & _ & _ & ? & _). }
  assert (Hcs : forall t c, (main_code (M := M) 0 (S a) :: map s_code (p_svcs (boot_servers a b))) !! S t = Some c -> c = []).
  { intros t c H. change ((s_code <$> p_svcs (boot_servers a b)) !! t = Some c) in H. rewrite list_lookup_fmap in H.
    apply fmap_Some in H as (sv & Hs & ->). by destruct (fr_svc _ HF t sv Hs) as (_ & _ & _ & ? & _). }
  constructor; try done.
  - rewrite (fr_pipes _ HF), length_replicate. unfold layout. by rewrite length_map.
  - intros s sv Hs _. by destruct (fr_svc _ HF s sv Hs) as (? & ? & _).
  - intros fd s H. destruct (fr_writes _ HF fd s H) as (sv & Hs & ->). exists (place_of sv). split; [by apply Hlk|done].
  - intros s sv fd Hs. destruct (fr_svc _ HF s sv Hs) as (_ & _ & _ & _ & _ & -> & -> & _). by intros ?%elem_of_nil.
  - intros [|t] c s fd H Hin; [|by rewrite (Hcs t c H) in Hin; apply elem_of_nil in Hin]. injection H as <-.
    unfold main_code in Hin. rewrite !elem_of_cons, elem_of_nil in Hin. intuition discriminate.
  - intros s sv m Hs _. destruct (fr_svc _ HF s sv Hs) as (_ & _ & _ & _ & -> & _). by intros ?%elem_of_nil.
  - unfold layout. cbn. by rewrite !length_map.
  - intros c [= <-]. unfold main_code. cbn [main_ok]. repeat split; rewrite !elem_of_cons, elem_of_nil; intuition discriminate.
  - intros c s sv [= <-] Hin Hs. destruct (fr_svc _ HF s sv Hs) as (_ & _ & _ & _ & _ & _ & _ & [?|[_ Hw]]); [done|exfalso].
    assert (Hb : boot_role a b s = Some (s_role sv)) by (rewrite <- Hr; unfold role_at; by rewrite Hs).
    assert (s = 0%nat \/ s = S a) as Hsa.
    { unfold main_code in Hin. rewrite !elem_of_cons, elem_of_nil in Hin. intuition congruence. }
    unfold boot_role in Hb. destruct Hsa as [->| ->]; cbn [Nat.eqb] in Hb; [|rewrite Nat.eqb_refl, (proj2 (Nat.ltb_ge (S a) (S a)) (le_n _)) in Hb];
      injection Hb as Hb; rewrite <- Hb in Hw; by destruct Hw.
  - intros s sv c Hs H. by rewrite (Hcs s c H).
  - apply Forall_lookup. intros [|t] c H; [by injection H as <-|by rewrite (Hcs t c H)].
  - intros k s sv l Hs _ _ Hl. cbn [total]. rewrite (idle_total k _ s _ Hcode).
    rewrite (fr_pipes _ HF) in Hl. apply lookup_replicate in Hl as [-> _].
    destruct (fr_svc _ HF s sv Hs) as (_ & _ & _ & _ & Hq & Hc & _). destruct k; cbn; by rewrite ?Hq, ?Hc.
Qed.

Lemma layout_workers_nodup a b s d : layout a b !! s = Some d -> NoDup (pl_workers d).
Proof. intros Hd. by destruct (layout_lookup a b s d Hd) as (sv & _ & -> & _ & (_ & _ & ?) & _). Qed.

(** Workers are started when they are made. *)
Definition started (p : process M) : Prop := forall s sv, p_svcs p !! s = Some sv -> s_role sv = RtcWorker -> s_run sv = Running.

Lemma new_service_lookup r p t sv : p_svcs (new_service r p) !! t = Some sv ->
  p_svcs p !! t = Some sv \/ (t = length (p_svcs p) /\ s_role sv = r).
Proof.
  destruct (new_service_eq r p) as (recv & send & _ & _ & _ & _ & _ & ->). cbn. intros H.
  apply lookup_snoc_Some in H as [[_ H]|[-> <-]]; [by left|by right].
Qed.

Lemma started_create r s p : started p -> started (create_worker r s p).
Proof.
  intros HS t sv H Hr. unfold create_worker in H. apply on_svc_lookup in H as (sv1 & H & ->).
  apply on_svc_lookup in H as (sv0 & H & ->).
  assert (Hrole : s_role sv0 = RtcWorker) by (revert Hr; by destruct (Nat.eqb s t), (Nat.eqb (length (p_svcs p)) t)).
  assert (s_run (if Nat.eqb (length (p_svcs p)) t then upd_s_thread_set (fun _ => true) (upd_s_run (fun _ => Running) sv0) else sv0) = Running) as Hrun.
  { destruct (Nat.eqb_spec (length (p_svcs p)) t) as [|Hne]; [done|]. apply new_service_lookup in H as [H|[? _]]; [by apply (HS t)|congruence]. }
  by destruct (Nat.eqb s t).
Qed.

Lemma started_iter n r s p : started p -> started (Nat.iter n (create_worker r s) p).
Proof. intros HS. induction n as [|n IH]; [done|]. by apply started_create. Qed.

Lemma boot_started a b : started (boot_servers a b).
Proof.
  assert (Hnew : forall r p, r <> RtcWorker -> started p -> started (new_service r p)).
  { intros r p Hr HS t sv H Hrole. apply new_service_lookup in H as [H|[_ H]]; [by apply (HS t)|congruence]. }
  unfold boot_servers, init_rtc_server. apply started_iter. apply (Hnew RtcServer); [done|].
  unfold init_signaling_server. cbn [sys_listen]. apply started_iter. intros t sv H Hrole. cbn [upd_p_sig p_svcs] in H.
  apply on_svc_lookup in H as (sv0 & H & ->). cbn [upd_p_files p_svcs] in H.
  assert (Hold : s_role sv0 = RtcWorker) by (revert Hrole; by destruct (Nat.eqb _ t)).
  pose proof (Hnew SignalingServer process0 ltac:(done) ltac:(done) t sv0 H Hold) as Hrun. by destruct (Nat.eqb _ t).
Qed.
End boot.
