(* ===== verification/ThreadsSafety.v ===== *)
(** * Threads: what reachable states are like

    Wake-ups match what waits, writes go where they should while the servers
    run, an RTC worker that stops has emptied its queue; and the races of
    shutdown, as runs. *)

From S2P Require Import Prelude Threads ThreadsTheory ThreadsBoot.
Local Open Scope Z_scope.

Section safety.
Context {M : Type} (msg_worker : M -> nat) (msg_home : M -> option nat) (msg_reply : M -> option M).
Context (a b : nat).
Notation step := (step msg_worker msg_home msg_reply).
Notation exec := (exec msg_worker msg_home msg_reply).
Notation reachable := (reachable msg_worker msg_home msg_reply a b).
Notation INV := (INV msg_worker (layout (M := M) a b) 0%nat (S a)).
Implicit Types (p : process M) (sv : service M).

Lemma reachable_Inv p : reachable p -> INV p (codes p).
Proof.
  induction 1 as [|l p p' _ IH E]; [apply boot_Inv|]. by apply (step_Inv msg_worker msg_home msg_reply _ _ _ (boot_layout a b) l p p').
Qed.

(** C13: No wake-up is lost and none is spurious.  In every reachable state a
    service whose loop has not been told to end has its pipe, and the messages
    in its queue are as many as the numbers in the pipe that announce one,
    together with those that some thread has still to write or has just read;
    and the same holds for the connections that wait for a signaling worker.
    In particular, when no thread is in the middle of anything, every message
    has its number in the pipe. *)
Theorem wakeups_match p s sv l :
  reachable p -> p_svcs p !! s = Some sv -> s_run sv = NotStarted \/ s_run sv = Running -> p_pipes p !! s = Some l ->
  p_files p !! s_recv_fd sv = Some (PipeRead s) /\ p_files p !! s_send_fd sv = Some (PipeWrite s) /\
  (forall k, served k (s_role sv) = true ->
    waiting_items k sv = tokens (token k (s_role sv)) l + total k (s_role sv) s (codes p) /\
    0 <= total k (s_role sv) s (codes p) /\
    ((forall t sv', p_svcs p !! t = Some sv' -> s_code sv' = []) -> waiting_items k sv = tokens (token k (s_role sv)) l)).
Proof.
  intros HR Hs Ha Hl. pose proof (reachable_Inv p HR) as HI. destruct (inv_open _ _ _ _ _ _ HI s sv Hs Ha) as [Hr Hw].
  split; [done|]. split; [done|]. intros k Hk. pose proof (inv_count _ _ _ _ _ _ HI k s sv l Hs Ha Hk Hl) as Hc.
  split; [done|]. split.
  - apply (total_nonneg (map pl_role (layout (M := M) a b))); [|apply HI]. apply roles_lookup. by rewrite (inv_place _ _ _ _ _ _ _ _ HI Hs).
  - intros Hcodes. rewrite Hc. unfold codes. cbn [total]. rewrite (idle_total k) by (apply Forall_lookup; exact Hcodes).
    rewrite main_owed; [lia|]. by apply (inv_main _ _ _ _ _ _ HI).
Qed.

(** *** Writes while the servers run *)

Definition all_alive (p : process M) : Prop := forall s sv, p_svcs p !! s = Some sv -> alive sv.

Lemma exec_straight cert i new p p' cs :
  INV p cs -> all_alive p -> exec cert i p = Some (new, p') -> p_stray p' = p_stray p /\ p_killed p' = p_killed p.
Proof.
  intros HI Ha E. destruct i; cbn [Threads.exec] in E;
    try (injection E as _ <-; done);
    apply bind_Some in E as (sv & Hs & E).
  2: destruct (s_q_msg sv); by injection E as _ <-.
  2: destruct (s_q_conn sv); by injection E as _ <-.
  2: by injection E as _ <-.
  2: destruct (_ && _); [done|by injection E as _ <-].
  injection E as _ <-. destruct (inv_open _ _ _ _ _ _ HI s sv Hs (Ha s sv Hs)) as [Hr Hw].
  destruct (sys_write_cases (s_send_fd sv) z p) as [(j & _ & _ & ->)|[Hno _]]; [done|].
  destruct (Hno s Hw). apply map_Exists_lookup. by exists (s_recv_fd sv), (PipeRead s).
Qed.

(** A thread that was told to end is not started again. *)
Lemma on_svc_alive s f p : all_alive (on_svc s f p) -> (forall sv, p_svcs p !! s = Some sv -> alive (f sv) -> alive sv) -> all_alive p.
Proof.
  intros Ha Hf t sv Ht. destruct (decide (s = t)) as [->|Hne].
  - apply Hf; [done|]. apply (Ha t). cbn. by rewrite list_lookup_alter_eq, Ht.
  - apply (Ha t). cbn. by rewrite list_lookup_alter_ne.
Qed.

Lemma exec_alive cert t i c new p p' cs :
  INV p cs -> cs !! t = Some (i :: c) -> exec cert i p = Some (new, p') ->
  (forall s sv, t = S s -> p_svcs p !! s = Some sv -> s_run sv <> NotStarted) -> all_alive p' -> all_alive p.
Proof.
  intros HI Ht E Hrun Ha s sv Hs.
  assert (exists sv', p_svcs p' !! s = Some sv') as (sv' & Hs').
  { destruct (exec_places _ _ _ _ _ _ _ _ E) as (Hp & _). apply lookup_lt_is_Some. rewrite <- (length_map place_of), Hp, length_map. by apply lookup_lt_Some in Hs. }
  apply (act_alive msg_worker msg_home msg_reply _ _ _ (boot_layout a b) p cs t i c cert new p' HI Ht E Hrun s sv sv' Hs Hs'). by apply (Ha s).
Qed.

Lemma step_straight l p p' :
  INV p (codes p) -> step l p = Some p' -> all_alive p' -> all_alive p /\ p_stray p' = p_stray p /\ p_killed p' = p_killed p.
Proof.
  intros HI E Ha. unfold Threads.step in E. apply bind_Some in E as (u & _ & E). destruct l as [|s cert|s|s|s m|s fd|s|].
  - destruct (p_main p) as [|i c] eqn:Hm; [done|]. apply bind_Some in E as ([new p1] & E & [= <-]).
    assert (Hap : all_alive (upd_p_main (fun _ => c) p)).
    { apply (exec_alive true 0%nat i c new _ p1 (codes p)); [by apply INV_main|unfold codes; by rewrite Hm|done|done|done]. }
    split; [done|]. apply (exec_straight true i new (upd_p_main (fun _ => c) p) p1 (codes p)); [by apply INV_main|done|done].
  - apply bind_Some in E as (sv & Hs & E). apply bind_Some in E as (u' & Hg%guard_Some & E).
    destruct (s_code sv) as [|i c] eqn:Hc; [done|]. apply bind_Some in E as ([new p1] & E & [= <-]).
    apply on_svc_alive in Ha; [|done].
    assert (HI1 : INV (on_svc s (upd_s_code (fun _ => c)) p) (codes p)) by (by apply INV_set_code).
    assert (Hap : all_alive (on_svc s (upd_s_code (fun _ => c)) p)).
    { apply (exec_alive cert (S s) i c new _ p1 (codes p)); [done|rewrite codes_lookup, Hs; cbn; by rewrite Hc|done| |done].
      intros t sv0 [= <-] H. apply on_svc_lookup in H as (sv1 & H & ->). rewrite Nat.eqb_refl. rewrite Hs in H. injection H as <-.
      cbn. intros Hn. by rewrite Hn in Hg. }
    split; [by apply on_svc_alive in Hap|]. by apply (exec_straight cert i new (on_svc s (upd_s_code (fun _ => c)) p) p1 (codes p)).
  - apply bind_Some in E as (sv & Hs & E). apply bind_Some in E as (u' & _ & E). destruct (p_files p !! s_recv_fd sv) as [[j| | | |]|]; try done.
    apply bind_Some in E as (l & Hl & E). destruct l as [|z l]; [done|]. injection E as <-. split; [|done]. by apply on_svc_alive in Ha.
  - apply bind_Some in E as (sv & Hs & E). apply bind_Some in E as (u' & _ & E).
    cbn [sys_accept] in E. destruct (dispatch_conn _ sv) as [code next]. injection E as <-. split; [|done]. by apply on_svc_alive in Ha.
  - apply bind_Some in E as (sv & Hs & E). apply bind_Some in E as (u' & _ & E). injection E as <-. split; [|done]. by apply on_svc_alive in Ha.
  - apply bind_Some in E as (sv & Hs & E). apply bind_Some in E as (u' & _ & E). injection E as <-. split; [|done]. by apply (on_svc_alive s) in Ha.
  - apply bind_Some in E as (sv & Hs & E). apply bind_Some in E as (u' & _ & E). injection E as <-. split; [|done].
    apply on_svc_alive in Ha; [done|]. intros sv0 _ [?|?]; done.
  - by injection E as <-.
Qed.

Lemma straight_while_alive p : reachable p -> all_alive p -> p_stray p = [] /\ p_killed p = false.
Proof.
  induction 1 as [|l p p' HR IH E]; [intros _; apply boot_fresh|]. intros Ha.
  destruct (step_straight l p p' (reachable_Inv p HR) E Ha) as (Hp & -> & ->). by apply IH.
Qed.
End safety.
