(* ===== verification/ThreadsShutdown.v ===== *)
(** * Threads: how the RTC server stops

    The server that stops tells each of its workers to quit after everything it
    has sent, so a worker has handled its messages when it ends. *)

From S2P Require Import Prelude Threads ThreadsTheory ThreadsBoot ThreadsSafety.
Local Open Scope Z_scope.

Section shutdown.
Context {M : Type} (msg_worker : M -> nat) (msg_home : M -> option nat) (msg_reply : M -> option M).
Context (D : list place) (sig rtc : nat) (LAY : layout_ok D sig rtc).
Notation step := (step msg_worker msg_home msg_reply).
Notation exec := (exec msg_worker msg_home msg_reply).
Notation roles := (map pl_role D).
Notation INV := (INV msg_worker D sig rtc).
Implicit Types (p : process M) (sv : service M) (i : instr M) (code : list (instr M)).

(** *** Who talks to whom *)

Definition talks_to (r : role) : role :=
  match r with SignalingServer | RtcWorker => SignalingWorker | SignalingWorker => RtcServer | RtcServer => RtcWorker end.

(** What the thread of [s], of role [r], may aim at. *)
Definition aims_ok (s : nat) (r : role) (i : instr M) : Prop :=
  match i with
  | IPush x _ | IPushConn x _ | INotify x _ => roles !! x = Some (talks_to r)
  | IPop x | IPopConn x => x = s
  | _ => True
  end.

(** An action fills or empties a queue, or the pipe, of [w]. *)
Definition aims (w : nat) (i : instr M) : Prop :=
  match i with IPush x _ | IPushConn x _ | INotify x _ | IPop x | IPopConn x => x = w | _ => False end.

Lemma stop_aims s sv : D !! s = Some (place_of sv) -> Forall (aims_ok s (s_role sv)) (stop_code s sv).
Proof.
  intros Hd. assert (Hw : s_role sv = SignalingServer \/ s_role sv = RtcServer -> Forall (aims_ok s (s_role sv)) (stop_workers (s_workers sv))).
  { intros Hr. apply Forall_flat_map, Forall_forall. intros w Hw.
    assert (Ht : roles !! w = Some (talks_to (s_role sv))).
    { apply roles_lookup. rewrite (lay_workers _ _ _ LAY s (place_of sv) w Hd Hw). cbn. by destruct Hr as [-> | ->]. }
    by repeat constructor. }
  unfold stop_code, signaling_server_stop, rtc_server_stop, worker_stop.
  destruct (s_role sv) eqn:Hr, (s_thread_set sv); cbn [negb app]; repeat constructor; apply Hw; auto.
Qed.

Lemma push_aims s r t (m : M) z : roles !! t = Some (talks_to r) -> Forall (aims_ok s r) [IPush t m; INotify t z].
Proof. by repeat constructor. Qed.

Lemma process_msg_aims s sv cert m p cs :
  INV p cs -> p_svcs p !! s = Some sv -> (is_rtc (s_role sv) = true -> from_worker msg_worker D m) ->
  Forall (aims_ok s (s_role sv)) (process_msg msg_worker msg_home msg_reply cert sv m).
Proof.
  intros HI Hs Hm. pose proof (inv_place _ _ _ _ p cs s sv HI Hs) as Hd. unfold process_msg. destruct (s_role sv) eqn:Hr; try by constructor.
  - unfold rtc_server_dispatch. destruct cert; [cbn [negb]|by constructor]. destruct (msg_home m ≫= _) as [w|] eqn:Hw; [|by constructor].
    apply bind_Some in Hw as (j & _ & Hw). apply push_aims. apply roles_lookup.
    rewrite (lay_workers _ _ _ LAY s (place_of sv) w Hd); [cbn; by rewrite Hr|]. by apply list_elem_of_lookup_2 with j.
  - unfold rtc_worker_reply. destruct (msg_reply m) as [m'|]; [|by constructor]. apply push_aims. by apply Hm.
Qed.

(** *** The worker [w] and the server *)

Context (w : nat) (Hw : roles !! w = Some RtcWorker).

(** What a worker does before it is told to quit. *)
Definition calm (i : instr M) : Prop := match i with IPush _ _ | INotify _ _ | IPop _ => True | _ => False end.

(** What the server does before, and after, it is told to quit. *)
Definition working (i : instr M) : Prop := match i with IPush _ _ | IPop _ => True | INotify _ z => z <> QUIT | _ => False end.
Definition closing (i : instr M) : Prop :=
  match i with IDeleteWatchers _ | IBreak _ | IClose _ | IJoin _ => True | INotify _ z => z = QUIT | _ => False end.

(** The workers that will be told. *)
Fixpoint quits (code : list (instr M)) : list nat :=
  match code with [] => [] | INotify t _ :: code => t :: quits code | _ :: code => quits code end.

Inductive server_shape (run : run_state) (code : list (instr M)) : Prop :=
  | SS_working : Forall working code -> server_shape run code
  | SS_stop : code = [IStop rtc] -> server_shape run code
  | SS_closing : Forall closing code -> NoDup (quits code) ->
      (run = Broken \/ run = Ended \/ exists c, code = IDeleteWatchers rtc :: IBreak rtc :: c \/ code = IBreak rtc :: c) ->
      server_shape run code.

(** The server will not tell [w] anything any more. *)
Definition done_with (brk : bool) (code : list (instr M)) : Prop := brk = true /\ Forall (fun i => closing i /\ ~ aims w i) code.

Inductive phase (brk : bool) (code : list (instr M)) (own : list (instr M)) (run : run_state) (q : list M) (l : list Z) : Prop :=
  | Ph_serving : run = Running -> Forall calm own -> QUIT ∉ l -> phase brk code own run q l
  | Ph_quit l' : run = Running -> Forall calm own -> l = l' ++ [QUIT] -> QUIT ∉ l' -> done_with brk code -> phase brk code own run q l
  | Ph_empty : q = [] -> done_with brk code -> phase brk code own run q l.

Record INV2 p (cs : list (list (instr M))) : Prop := mkINV2 {
  i2_main c t z : cs !! 0%nat = Some c -> INotify t z ∈ c -> t = sig \/ t = rtc;
  i2_aims s sv c : p_svcs p !! s = Some sv -> cs !! S s = Some c -> Forall (aims_ok s (s_role sv)) c;
  i2_shape sv c : p_svcs p !! rtc = Some sv -> cs !! S rtc = Some c -> server_shape (s_run sv) c;
  i2_phase sr c sv own l : p_svcs p !! rtc = Some sr -> cs !! S rtc = Some c -> p_svcs p !! w = Some sv -> cs !! S w = Some own ->
    p_pipes p !! w = Some l -> phase (broken sr) c own (s_run sv) (s_q_msg sv) l;
}.

(** *** What an action leaves alone *)

Lemma exec_frame p cs cert i new p' sv sv' l :
  INV p cs -> exec cert i p = Some (new, p') -> ~ aims w i ->
  p_svcs p !! w = Some sv -> p_svcs p' !! w = Some sv' -> p_pipes p' !! w = Some l ->
  s_q_msg sv' = s_q_msg sv /\ p_pipes p !! w = Some l.
Proof.
  intros HI E Ha Hs Hs' Hl. exec_cases i E; cbn [aims] in Ha; try (split; [cbn in Hs'; congruence|done]);
    try (apply on_svc_lookup in Hs' as (sv1 & H & ->); rewrite Hs in H; injection H as <-; split; [|done];
      destruct (Nat.eqb_spec s w) as [Heq|]; [first [by destruct (Ha Heq)|done]|done]).
  destruct (sys_write_cases (s_send_fd sv0) z p) as [(j & Ej & _ & E)|[_ (st & b & E)]]; rewrite E in Hs', Hl; cbn in Hs', Hl; split; try congruence.
  destruct (inv_writes _ _ _ _ _ _ HI _ _ Ej) as (d & Dj & Hd).
  assert (s = j) as <-.
  { apply (lay_distinct _ _ _ LAY s j (place_of sv0) d (s_send_fd sv0)); [by apply (inv_place _ _ _ _ _ _ _ _ HI)|done|cbn; unfold owned; cbn; set_solver|by right]. }
  by rewrite list_lookup_alter_ne in Hl.
Qed.

(** Only a message taken, or a stop, adds code. *)
Lemma exec_no_code p cert i new p' : exec cert i p = Some (new, p') ->
  new = [] \/ (exists s sv m, i = IPop s /\ p_svcs p !! s = Some sv /\ m ∈ s_q_msg sv /\
                new = process_msg msg_worker msg_home msg_reply cert sv m) \/
  (exists s sv, i = IStop s /\ p_svcs p !! s = Some sv /\ new = stop_code s sv).
Proof.
  intros E. exec_cases i E; try (by left).
  - right. left. exists s, sv, m. repeat split; try done. rewrite Eq. by left.
  - right. right. by exists s, sv.
Qed.

Lemma exec_aims p cs cert s sv i new p' :
  INV p cs -> p_svcs p !! s = Some sv -> aims_ok s (s_role sv) i -> svc_instr msg_worker D s (broken sv) i ->
  exec cert i p = Some (new, p') -> Forall (aims_ok s (s_role sv)) new.
Proof.
  intros HI Hs Ha Hi E. destruct (exec_no_code p cert i new p' E) as [->|[(t & sv' & m & -> & Ht & Hm & ->)|(t & sv' & -> & Ht & ->)]]; [by constructor| |].
  - cbn in Ha. subst t. rewrite Hs in Ht. injection Ht as <-. apply (process_msg_aims s sv cert m p cs); [done..|].
    intros Hr. by apply (inv_msgs _ _ _ _ _ _ HI s sv).
  - cbn in Hi. subst t. rewrite Hs in Ht. injection Ht as <-. apply stop_aims. by apply (inv_place _ _ _ _ _ _ _ _ HI).
Qed.

Lemma server_shape_run run run' code :
  server_shape run code -> run' = run \/ run = NotStarted \/ run' = Broken \/ run' = Ended -> server_shape run' code.
Proof.
  intros [H|H|H1 H2 H3] Hr; [by apply SS_working|by apply SS_stop|]. apply SS_closing; [done..|].
  destruct Hr as [->|[->|[->| ->]]]; [done| |by left|by right; left]. destruct H3 as [?|[?|?]]; [done..|]. by right; right.
Qed.

Lemma done_with_tail brk i code : done_with brk (i :: code) -> done_with brk code.
Proof. intros [Hb Hc]. split; [done|]. by inversion Hc. Qed.

Lemma quits_done code : Forall closing code -> w ∉ quits code -> Forall (fun i => closing i /\ ~ aims w i) code.
Proof.
  induction 1 as [|i code Hi Hc IH]; [by constructor|]. intros Hq. constructor.
  - split; [done|]. destruct i; cbn in *; try tauto. intros ->. apply Hq. by left.
  - apply IH. intros Hin. apply Hq. destruct i; cbn; try done. by right.
Qed.

Lemma quits_stop ws : quits (stop_workers ws) = ws.
Proof. induction ws as [|x ws IH]; [done|]. change (quits (INotify x QUIT :: IJoin x :: stop_workers ws) = x :: ws). cbn. by rewrite IH. Qed.

Lemma stop_shape sv : s_role sv = RtcServer -> NoDup (s_workers sv) -> server_shape (s_run sv) (stop_code rtc sv).
Proof.
  intros Hr Hn. unfold stop_code. rewrite Hr. apply SS_closing.
  - unfold rtc_server_stop. repeat constructor. apply Forall_flat_map, Forall_forall. by repeat constructor.
  - unfold rtc_server_stop. cbn. by rewrite quits_stop.
  - right. right. eexists. by left.
Qed.

Context (NODUP : forall d, D !! rtc = Some d -> NoDup (pl_workers d)).

Lemma w_ne : w <> sig /\ w <> rtc.
Proof.
  pose proof (lay_sig _ _ _ LAY) as H1. pose proof (lay_rtc _ _ _ LAY) as H2. apply roles_lookup in H1, H2. split; intros ->; congruence.
Qed.

Section one_action.
Context (p : process M) (cs : list (list (instr M))) (t : nat) (i : instr M) (c : list (instr M)).
Context (cert : bool) (new : list (instr M)) (p' : process M).
Context (HI : INV p cs) (HJ : INV2 p cs) (Ht : cs !! t = Some (i :: c)) (E : exec cert i p = Some (new, p')).
Context (Hrun : forall s sv, t = S s -> p_svcs p !! s = Some sv -> s_run sv <> NotStarted).

Notation cs' := (<[t := new ++ c]> cs).

Lemma own_aims s sv : t = S s -> p_svcs p !! s = Some sv -> Forall (aims_ok s (s_role sv)) (new ++ c).
Proof.
  intros -> Hs. pose proof (i2_aims _ _ HJ s sv _ Hs Ht) as Ha. apply Forall_cons in Ha as [Hi Hc]. apply Forall_app. split; [|done].
  apply (exec_aims p cs cert s sv i new p' HI Hs Hi); [|done]. destruct (inv_codes _ _ _ _ _ _ HI s sv _ Hs Ht) as [H _]. exact H.
Qed.

(** Nobody else aims at [w]. *)
Lemma others_frame : t <> S rtc -> t <> S w -> ~ aims w i.
Proof.
  intros H1 H2 Ha. destruct (act_who msg_worker D sig rtc p cs t i c HI Ht Hrun) as [[-> Hm]|(s & sv & -> & Hs & _ & Hi & _)].
  - destruct i; cbn in Ha, Hm; try done. subst s. destruct (i2_main _ _ HJ _ w z Ht); [by left| |]; destruct w_ne; congruence.
  - pose proof (i2_aims _ _ HJ s sv _ Hs Ht) as Hk. apply Forall_cons in Hk as [Hk _].
    pose proof (inv_place _ _ _ _ _ _ _ _ HI Hs) as Hd.
    assert (Hr : talks_to (s_role sv) = RtcWorker -> False).
    { intros Hr. apply H1. f_equal. apply (lay_rtc_only _ _ _ LAY s (place_of sv) Hd). cbn. by destruct (s_role sv). }
    destruct i; cbn in Ha, Hk; try done; subst; try (rewrite Hw in Hk; injection Hk as Hk; by apply Hr); by apply H2.
Qed.

(** The server's loop is told to end by itself. *)
Lemma server_run sr sr' : p_svcs p !! rtc = Some sr -> p_svcs p' !! rtc = Some sr' ->
  s_run sr' = s_run sr \/ (i = IBreak rtc /\ t = S rtc /\ s_run sr' = Broken) \/ (s_run sr = NotStarted /\ s_run sr' = Running).
Proof.
  intros Hs Hs'. destruct (act_run msg_worker msg_home msg_reply D sig rtc LAY p cs t i c cert new p' HI Ht E Hrun rtc sr sr' Hs Hs')
    as [?|[(? & ? & _ & ?)|(_ & _ & ? & ?)]]; auto.
Qed.

Lemma server_broken sr sr' : p_svcs p !! rtc = Some sr -> p_svcs p' !! rtc = Some sr' -> broken sr = true -> broken sr' = true.
Proof.
  intros Hs Hs' Hb. unfold broken in *. destruct (server_run sr sr' Hs Hs') as [->|[(_ & _ & ->)|[Hn _]]]; [done|done|by rewrite Hn in Hb].
Qed.

Lemma after_svc s sv' : p_svcs p' !! s = Some sv' -> exists sv, p_svcs p !! s = Some sv /\ place_of sv' = place_of sv.
Proof. exact (act_svc msg_worker msg_home msg_reply D sig rtc LAY p i cert new p' E s sv'). Qed.

(** The code of the server. *)
Lemma server_step sr run' :
  t = S rtc -> p_svcs p !! rtc = Some sr -> run' = s_run sr \/ (i = IBreak rtc /\ run' = Broken) ->
  (forall x, i = IBreak x -> run' = Broken) -> server_shape run' (new ++ c).
Proof.
  intros Hz Hs Hr Hb. pose proof (inv_place _ _ _ _ _ _ _ _ HI Hs) as Hd.
  assert (Hrole : s_role sr = RtcServer).
  { pose proof (lay_rtc _ _ _ LAY) as Hx. rewrite Hd in Hx. by injection Hx. }
  assert (Ht' : cs !! S rtc = Some (i :: c)) by (by rewrite <- Hz).
  pose proof (own_aims rtc sr Hz Hs) as Ha. apply Forall_app in Ha as [_ Hac].
  pose proof (i2_aims _ _ HJ rtc sr _ Hs Ht') as Hai. apply Forall_cons in Hai as [Hai _].
  destruct (inv_codes _ _ _ _ _ _ HI rtc sr _ Hs Ht') as [Hi _].
  destruct (i2_shape _ _ HJ sr _ Hs Ht') as [H|H|H1 H2 H3].
  - apply Forall_cons in H as [Hwk Hc]. apply SS_working, Forall_app. split; [|done].
    destruct (exec_no_code p cert i new p' E) as [->|[(s & sv & m & -> & Hs0 & _ & ->)|(s & sv & -> & _)]]; [by constructor| |done].
    cbn in Hai. subst s. rewrite Hs in Hs0. injection Hs0 as <-. unfold process_msg. rewrite Hrole. unfold rtc_server_dispatch.
    destruct cert; [|by constructor]. cbn [negb]. destruct (msg_home m ≫= _); by repeat constructor.
  - injection H as -> ->. destruct (exec_no_code p cert _ new p' E) as [->|[(s & sv & m & ? & _)|(s & sv & [= <-] & Hs0 & ->)]]; [by apply SS_working|done|].
    rewrite Hs in Hs0. injection Hs0 as <-. rewrite app_nil_r. apply (server_shape_run (s_run sr)).
    + apply stop_shape; [done|]. apply (NODUP (place_of sr) Hd).
    + destruct Hr as [->|[? ->]]; auto.
  - apply Forall_cons in H1 as [Hcl Hc].
    assert (new = []) as ->.
    { destruct (exec_no_code p cert i new p' E) as [->|[(s & sv & m & -> & _)|(s & sv & -> & _)]]; done. }
    apply SS_closing; [done| |].
    + destruct i; cbn in H2 |- *; try done. by apply NoDup_cons in H2 as [_ H2].
    + destruct (is_break i) eqn:Eb; [left; destruct i; try done; by apply (Hb s)|].
      destruct Hr as [->|[-> _]]; [|done]. destruct H3 as [?|[?|(c0 & [H3|H3])]]; [by left|by right; left| |].
      * injection H3 as _ ->. right. right. exists c0. by right.
      * injection H3 as -> _. done.
Qed.

Lemma act_shape sr' c' : p_svcs p' !! rtc = Some sr' -> cs' !! S rtc = Some c' -> server_shape (s_run sr') c'.
Proof.
  intros Hs' H. destruct (after_svc rtc sr' Hs') as (sr & Hs & Hp). pose proof (server_run sr sr' Hs Hs') as Hr.
  destruct (act_lookup cs t i c new Ht (S rtc) c' H) as [[Hz ->]|[Hz Hc]].
  - apply (server_step sr); [by symmetry|done| |].
    + destruct Hr as [?|[(? & _ & ?)|[Hn Hx]]]; [by left|by right|]. exfalso. by apply (Hrun rtc sr (eq_sym Hz) Hs).
    + intros x Hx. assert (Hi : svc_instr msg_worker D rtc (broken sr) i) by
        (destruct (inv_codes _ _ _ _ _ _ HI rtc sr (i :: c) Hs ltac:(by rewrite Hz)) as [Hi _]; done).
      rewrite Hx in E, Hi. cbn in Hi. subst x. cbn [Threads.exec] in E. injection E as _ Ep. rewrite <- Ep in Hs'.
      apply on_svc_lookup in Hs' as (sv0 & _ & ->). by rewrite Nat.eqb_refl.
  - apply (server_shape_run (s_run sr)); [by apply (i2_shape _ _ HJ sr)|].
    destruct Hr as [->|[(_ & Hz' & _)|[Hn _]]]; [by left|by rewrite Hz' in Hz|by right; left].
Qed.
(** The loop of the worker is told to end by itself. *)
Lemma worker_run sv sv' : p_svcs p !! w = Some sv -> p_svcs p' !! w = Some sv' -> s_run sv = Running ->
  s_run sv' = Running \/ (i = IBreak w /\ t = S w).
Proof.
  intros Hs Hs' Hr. destruct (act_run msg_worker msg_home msg_reply D sig rtc LAY p cs t i c cert new p' HI Ht E Hrun w sv sv' Hs Hs')
    as [->|[(? & ? & _)|(_ & _ & Hn & _)]]; [by left|by right|congruence].
Qed.

(** An action that does not aim at the worker. *)
Lemma phase_frame sr sr' sv sv' own own' code code' l l' :
  p_svcs p !! rtc = Some sr -> p_svcs p' !! rtc = Some sr' -> p_svcs p !! w = Some sv -> p_svcs p' !! w = Some sv' ->
  p_pipes p !! w = Some l -> p_pipes p' !! w = Some l' -> ~ aims w i ->
  (Forall calm own -> Forall calm own' /\ i <> IBreak w) ->
  (done_with (broken sr) code -> done_with (broken sr') code') ->
  phase (broken sr) code own (s_run sv) (s_q_msg sv) l -> phase (broken sr') code' own' (s_run sv') (s_q_msg sv') l'.
Proof.
  intros Hr Hr' Hs Hs' Hl Hl' Hna Hown Hdone Hph.
  destruct (exec_frame p cs cert i new p' sv sv' l' HI E Hna Hs Hs' Hl') as [Hq Hpl]. rewrite Hl in Hpl. injection Hpl as <-. rewrite Hq.
  destruct Hph as [H1 H2 H3|l0 H1 H2 H3 H4 H5|H1 H2].
  - destruct (Hown H2) as [H2' Hb]. destruct (worker_run sv sv' Hs Hs' H1) as [Hrun'|[? _]]; [|done]. by apply Ph_serving.
  - destruct (Hown H2) as [H2' Hb]. destruct (worker_run sv sv' Hs Hs' H1) as [Hrun'|[? _]]; [|done]. by apply (Ph_quit _ _ _ _ _ _ l0); auto.
  - apply Ph_empty; auto.
Qed.

Lemma done_with_mono brk brk' code : done_with brk code -> (brk = true -> brk' = true) -> done_with brk' code.
Proof. intros [Hb Hc] Hm. split; [by apply Hm|done]. Qed.

(** The server acts. *)
Lemma phase_server sr sr' sv sv' own l l' :
  t = S rtc -> p_svcs p !! rtc = Some sr -> p_svcs p' !! rtc = Some sr' -> p_svcs p !! w = Some sv -> p_svcs p' !! w = Some sv' ->
  p_pipes p !! w = Some l -> p_pipes p' !! w = Some l' ->
  phase (broken sr) (i :: c) own (s_run sv) (s_q_msg sv) l -> phase (broken sr') (new ++ c) own (s_run sv') (s_q_msg sv') l'.
Proof.
  intros Hz Hr Hr' Hs Hs' Hl Hl' Hph.
  assert (Ht' : cs !! S rtc = Some (i :: c)) by (by rewrite <- Hz).
  pose proof (i2_aims _ _ HJ rtc sr _ Hr Ht') as Hai. apply Forall_cons in Hai as [Hai _].
  pose proof (server_broken sr sr' Hr Hr') as Hbm.
  assert (Hnb : i <> IBreak w).
  { intros ->. destruct (inv_codes _ _ _ _ _ _ HI rtc sr _ Hr Ht') as [H _]. cbn in H. by destruct w_ne. }
  assert (Hfr : ~ aims w i -> phase (broken sr') (new ++ c) own (s_run sv') (s_q_msg sv') l').
  { intros Hna. apply (phase_frame sr sr' sv sv' own own (i :: c) (new ++ c) l l'); try done.
    intros Hd. pose proof Hd as [_ Hd']. apply Forall_cons in Hd' as [[Hcl _] _].
    assert (new = []) as -> by (destruct (exec_no_code p cert i new p' E) as [->|[(? & ? & ? & -> & _)|(? & ? & -> & _)]]; done).
    apply done_with_tail in Hd. by apply (done_with_mono (broken sr)). }
  pose proof (worker_run sv sv' Hs Hs') as Hwrun.
  destruct i as [x m|x fd|x z|x|x| | | | | | |] eqn:Ei; try (apply Hfr; cbn; tauto); destruct (decide (x = w)) as [->|]; try (by apply Hfr).
  - (* IPush *)
    assert (new = [] /\ p_pipes p' = p_pipes p) as [-> Hp] by (cbn in E; by injection E as <- <-). rewrite Hp, Hl in Hl'. injection Hl' as <-.
    destruct Hph as [H1 H2 H3|l0 H1 H2 H3 H4 [_ H5]|H1 [_ H2]]; [|by apply Forall_cons in H5 as [[? _] _]|by apply Forall_cons in H2 as [[? _] _]].
    apply Ph_serving; [|done|done]. destruct (Hwrun H1) as [?|[? _]]; done.
  - (* IPushConn *)
    destruct (i2_shape _ _ HJ sr _ Hr Ht') as [H|H|H _ _]; [by apply Forall_cons in H as [? _]|done|by apply Forall_cons in H as [? _]].
  - (* INotify *)
    assert (new = []) as -> by (destruct (exec_no_code p cert _ new p' E) as [->|[(? & ? & ? & ? & _)|(? & ? & ? & _)]]; done).
    destruct Hph as [H1 H2 H3|l0 H1 H2 H3 H4 [_ H5]|H1 [_ H2]];
      [|apply Forall_cons in H5 as [[_ H5] _]; by destruct H5|apply Forall_cons in H2 as [[_ H2] _]; by destruct H2].
    assert (Hrun' : s_run sv' = Running) by (destruct (Hwrun H1) as [?|[? _]]; done).
    assert (l' = l ++ [z]) as ->.
    { cbn [Threads.exec] in E. rewrite Hs in E. injection E as Ep. rewrite <- Ep in Hl'.
      destruct (inv_open _ _ _ _ _ _ HI w sv Hs) as [Hrd Hwr]; [by right|].
      destruct (sys_write_cases (s_send_fd sv) z p) as [(j & Ej & _ & Ew)|[Hno _]].
      - rewrite Hwr in Ej. injection Ej as <-. rewrite Ew in Hl'. cbn in Hl'. rewrite list_lookup_alter_eq, Hl in Hl'. by injection Hl'.
      - destruct (Hno w Hwr). apply map_Exists_lookup. by exists (s_recv_fd sv), (PipeRead w). }
    destruct (i2_shape _ _ HJ sr _ Hr Ht') as [H|H|HA HB HC]; [|done|].
    + apply Forall_cons in H as [Hzq _]. apply Ph_serving; [done..|]. rewrite not_elem_of_app, list_elem_of_singleton. split; [done|]. by apply not_eq_sym.
    + pose proof (Forall_inv HA) as Hzq. apply Forall_inv_tail in HA. cbn in Hzq. subst z. cbn in HB. apply NoDup_cons in HB as [HB _].
      apply (Ph_quit _ _ _ _ _ _ l); try done. split; [|by apply quits_done].
      apply Hbm. unfold broken. apply bool_decide_eq_true. destruct HC as [?|[?|(c0 & [?|?])]]; [by left|by right|done|done].
  - (* IPop *) cbn in Hai. by destruct w_ne.
  - (* IPopConn *) cbn in Hai. by destruct w_ne.
Qed.
(** The worker acts. *)
Lemma phase_worker sr sr' sv sv' code l l' :
  t = S w -> p_svcs p !! rtc = Some sr -> p_svcs p' !! rtc = Some sr' -> p_svcs p !! w = Some sv -> p_svcs p' !! w = Some sv' ->
  p_pipes p !! w = Some l -> p_pipes p' !! w = Some l' ->
  phase (broken sr) code (i :: c) (s_run sv) (s_q_msg sv) l -> phase (broken sr') code (new ++ c) (s_run sv') (s_q_msg sv') l'.
Proof.
  intros Hz Hr Hr' Hs Hs' Hl Hl' Hph.
  assert (Ht' : cs !! S w = Some (i :: c)) by (by rewrite <- Hz).
  pose proof (i2_aims _ _ HJ w sv _ Hs Ht') as Hai. apply Forall_cons in Hai as [Hai _].
  pose proof (server_broken sr sr' Hr Hr') as Hbm. pose proof (worker_run sv sv' Hs Hs') as Hwrun.
  assert (Hrole : s_role sv = RtcWorker).
  { pose proof (inv_role _ _ _ _ _ _ _ _ HI Hs) as Hx. rewrite Hw in Hx. by injection Hx. }
  assert (Hcalm : Forall calm (i :: c) -> Forall calm (new ++ c) /\ i <> IBreak w).
  { intros Hc. apply Forall_cons in Hc as [Hi Hc]. split; [|by intros ->]. apply Forall_app. split; [|done].
    destruct (exec_no_code p cert i new p' E) as [->|[(s & sv0 & m & -> & Hs0 & _ & ->)|(s & sv0 & -> & _)]]; [by constructor| |done].
    cbn in Hai. subst s. rewrite Hs in Hs0. injection Hs0 as <-. unfold process_msg. rewrite Hrole. unfold rtc_worker_reply.
    destruct (msg_reply m); by repeat constructor. }
  assert (Hfr : ~ aims w i -> phase (broken sr') code (new ++ c) (s_run sv') (s_q_msg sv') l').
  { intros Hna. apply (phase_frame sr sr' sv sv' (i :: c) (new ++ c) code code l l'); try done. intros Hd. by apply (done_with_mono (broken sr)). }
  destruct i as [x m|x fd|x z|x|x| | | | | | |] eqn:Ei; try (apply Hfr; cbn; tauto); destruct (decide (x = w)) as [->|]; try (by apply Hfr);
    cbn in Hai; try (rewrite Hrole, Hw in Hai; discriminate).
  - (* IPop *)
    assert (Hq : s_q_msg sv = [] -> s_q_msg sv' = []).
    { cbn [Threads.exec] in E. rewrite Hs in E. intros Hq. cbn in E. rewrite Hq in E. injection E as _ <-. rewrite Hs in Hs'. by injection Hs' as <-. }
    assert (Hp : p_pipes p' = p_pipes p).
    { cbn [Threads.exec] in E. rewrite Hs in E. cbn in E. destruct (s_q_msg sv); by injection E as _ <-. }
    rewrite Hp, Hl in Hl'. injection Hl' as <-.
    destruct Hph as [H1 H2 H3|l0 H1 H2 H3 H4 H5|H1 H2].
    + destruct (Hcalm H2) as [H2' _]. destruct (Hwrun H1) as [?|[? _]]; [by apply Ph_serving|done].
    + destruct (Hcalm H2) as [H2' _]. destruct (Hwrun H1) as [?|[? _]]; [|done]. apply (Ph_quit _ _ _ _ _ _ l0); auto. by apply (done_with_mono (broken sr)).
    + apply Ph_empty; [by apply Hq|by apply (done_with_mono (broken sr))].
  - (* IPopConn *)
    assert (Hq : s_q_msg sv' = s_q_msg sv /\ p_pipes p' = p_pipes p).
    { cbn [Threads.exec] in E. rewrite Hs in E. cbn in E. destruct (s_q_conn sv); injection E as _ <-.
      - rewrite Hs in Hs'. by injection Hs' as <-.
      - apply on_svc_lookup in Hs' as (sv0 & H & ->). rewrite Hs in H. injection H as <-. by rewrite Nat.eqb_refl. }
    destruct Hq as [Hq Hp]. rewrite Hp, Hl in Hl'. injection Hl' as <-. rewrite Hq.
    destruct Hph as [H1 H2 H3|l0 H1 H2 H3 H4 H5|H1 H2].
    + by apply Forall_cons in H2 as [? _].
    + by apply Forall_cons in H2 as [? _].
    + apply Ph_empty; [done|by apply (done_with_mono (broken sr))].
Qed.

Lemma act_phase sr' c' sv' own' l' :
  p_svcs p' !! rtc = Some sr' -> cs' !! S rtc = Some c' -> p_svcs p' !! w = Some sv' -> cs' !! S w = Some own' ->
  p_pipes p' !! w = Some l' -> phase (broken sr') c' own' (s_run sv') (s_q_msg sv') l'.
Proof.
  intros Hr' Hc' Hs' Ho' Hl'. destruct (after_svc rtc sr' Hr') as (sr & Hr & _). destruct (after_svc w sv' Hs') as (sv & Hs & _).
  assert (exists l, p_pipes p !! w = Some l) as (l & Hl).
  { destruct (exec_places _ _ _ _ _ _ _ _ E) as (_ & _ & _ & Hlen). apply lookup_lt_is_Some. rewrite <- Hlen. by apply lookup_lt_Some in Hl'. }
  destruct w_ne as [_ Hne].
  destruct (act_lookup cs t i c new Ht _ _ Hc') as [[Hz1 ->]|[Hz1 Hc]], (act_lookup cs t i c new Ht _ _ Ho') as [[Hz2 ->]|[Hz2 Ho]].
  - congruence.
  - apply (phase_server sr sr' sv sv' own' l l'); try done. apply (i2_phase _ _ HJ sr _ sv own' l); try done. by rewrite Hz1.
  - apply (phase_worker sr sr' sv sv' c' l l'); try done. apply (i2_phase _ _ HJ sr c' sv _ l); try done. by rewrite Hz2.
  - pose proof (others_frame (not_eq_sym Hz1) (not_eq_sym Hz2)) as Hna.
    apply (phase_frame sr sr' sv sv' own' own' c' c' l l'); try done.
    + intros Hcm. split; [done|]. intros Hb. destruct (act_who msg_worker D sig rtc p cs t i c HI Ht Hrun) as [[_ Hm]|(s & sv0 & Hz & _ & _ & Hi & _)].
      * by rewrite Hb in Hm.
      * rewrite Hb in Hi. cbn in Hi. subst s. by rewrite Hz in Hz2.
    + intros Hd. apply (done_with_mono (broken sr)); [done|]. by apply server_broken.
    + by apply (i2_phase _ _ HJ sr c' sv own' l).
Qed.

Lemma exec_INV2 : INV2 p' cs'.
Proof.
  constructor.
  - intros c' x z H Hin. destruct (act_lookup cs t i c new Ht _ _ H) as [[Hz ->]|[Hz Hc]]; [|by apply (i2_main _ _ HJ c' x z)].
    destruct (act_who msg_worker D sig rtc p cs t i c HI Ht Hrun) as [[_ Hm]|(s & sv0 & Hz' & _)]; [|by rewrite Hz' in Hz].
    assert (new = []) as Hn.
    { destruct (exec_no_code p cert i new p' E) as [?|[(? & ? & ? & Hi & _)|(? & ? & Hi & _)]]; [done|by rewrite Hi in Hm|by rewrite Hi in Hm]. }
    rewrite Hn in Hin. apply (i2_main _ _ HJ (i :: c) x z); [by rewrite Hz|by right].
  - intros s sv' c' Hs' H. destruct (after_svc s sv' Hs') as (sv & Hs & Hp).
    assert (s_role sv' = s_role sv) as -> by (by injection Hp).
    destruct (act_lookup cs t i c new Ht _ _ H) as [[Hz ->]|[Hz Hc]]; [by apply own_aims|by apply (i2_aims _ _ HJ s sv)].
  - apply act_shape.
  - apply act_phase.
Qed.
End one_action.

(** *** The other steps *)

Lemma INV2_svc p cs s f :
  INV2 p cs ->
  (forall sv, s_role (f sv) = s_role sv /\ s_q_msg (f sv) = s_q_msg sv) ->
  (forall sv, p_svcs p !! s = Some sv -> s_run (f sv) = s_run sv \/ (s_run sv = Broken /\ s_run (f sv) = Ended)) ->
  INV2 (on_svc s f p) cs.
Proof.
  intros HJ Hf Hr.
  assert (Hlk : forall u sv', p_svcs (on_svc s f p) !! u = Some sv' -> exists sv, p_svcs p !! u = Some sv /\
    s_role sv' = s_role sv /\ s_q_msg sv' = s_q_msg sv /\ (s_run sv' = s_run sv \/ (s_run sv = Broken /\ s_run sv' = Ended))).
  { intros u sv' H. apply on_svc_lookup in H as (sv & Hu & ->). exists sv. split; [done|]. destruct (Nat.eqb_spec s u) as [->|].
    - destruct (Hf sv) as [? ?]. repeat split; try done. by apply Hr.
    - repeat split. by left. }
  constructor.
  - apply HJ.
  - intros u sv' c H Hc. destruct (Hlk u sv' H) as (sv & Hu & -> & _). by apply (i2_aims _ _ HJ u).
  - intros sv' c H Hc. destruct (Hlk _ sv' H) as (sv & Hu & _ & _ & Hrun). apply (server_shape_run (s_run sv)); [by apply (i2_shape _ _ HJ)|].
    destruct Hrun as [->|[_ ->]]; auto.
  - intros sr' c sv' own l H Hc H' Ho Hl. destruct (Hlk _ sr' H) as (sr & Hu & _ & _ & Hrun), (Hlk _ sv' H') as (sv & Hu' & _ & -> & Hrun').
    pose proof (i2_phase _ _ HJ sr c sv own l Hu Hc Hu' Ho Hl) as Hph.
    assert (broken sr' = broken sr) as -> by (unfold broken; destruct Hrun as [->|[-> ->]]; done).
    destruct Hrun' as [->|[Hb ->]]; [done|]. rewrite Hb in Hph. destruct Hph as [?|? ?|? ?]; [done|done|by apply Ph_empty].
Qed.

Lemma INV2_main p cs g : INV2 p cs -> INV2 (upd_p_main g p) cs.
Proof. intros []. by constructor. Qed.

(** A thread that waits, and is neither the server nor the worker, gets code. *)
Lemma INV2_other p cs s sv new :
  INV2 p cs -> p_svcs p !! s = Some sv -> s <> rtc -> s <> w -> Forall (aims_ok s (s_role sv)) new -> (S s < length cs)%nat ->
  INV2 p (<[S s := new]> cs).
Proof.
  intros HJ Hs H1 H2 Hn Hlen.
  assert (Hlk : forall u c', <[S s := new]> cs !! u = Some c' -> (u = S s /\ c' = new) \/ (u <> S s /\ cs !! u = Some c')).
  { intros u c' H. destruct (decide (u = S s)) as [->|Hne]; [left|right; by rewrite list_lookup_insert_ne in H].
    rewrite list_lookup_insert_eq in H by done. by injection H as <-. }
  constructor.
  - intros c t z H. destruct (Hlk _ c H) as [[? _]|[_ Hc]]; [done|by apply (i2_main _ _ HJ)].
  - intros u sv' c Hu H. destruct (Hlk _ c H) as [[[= ->] ->]|[_ Hc]]; [|by apply (i2_aims _ _ HJ u)]. rewrite Hs in Hu. by injection Hu as <-.
  - intros sv' c Hu H. destruct (Hlk _ c H) as [[[= ->] _]|[_ Hc]]; [done|by apply (i2_shape _ _ HJ)].
  - intros sr c sv' own l Hu H Hu' H' Hl. destruct (Hlk _ c H) as [[[= ->] _]|[_ Hc]]; [done|].
    destruct (Hlk _ own H') as [[[= ->] _]|[_ Ho]]; [done|by apply (i2_phase _ _ HJ)].
Qed.

Lemma INV2_pipes p cs s l : s <> w -> INV2 p cs -> INV2 (upd_p_pipes <[s := l]> p) cs.
Proof.
  intros Hne []. constructor; try done. intros sr c sv own l' H1 H2 H3 H4 H5. apply (i2_phase0 sr c sv own l'); try done.
  cbn in H5. by rewrite list_lookup_insert_ne in H5.
Qed.

Lemma notify_aims s r z : Forall (aims_ok s r) (process_notify (M := M) r s z).
Proof. unfold process_notify. repeat case_match; by repeat constructor. Qed.

Lemma total_zero k r s (cs : list (list (instr M))) :
  (forall t c, cs !! t = Some c -> owed k r s c = 0) -> total k r s cs = 0.
Proof.
  induction cs as [|c cs IH]; intros Hall; [done|]. cbn. rewrite (Hall 0%nat c eq_refl). apply IH.
  intros t c' Ht. by apply (Hall (S t)).
Qed.

(** Nothing is left in the queue when the number that ends the loop is read. *)
Lemma quit_read p cs sv l : INV p cs -> INV2 p cs -> p_svcs p !! w = Some sv -> s_run sv = Running -> cs !! S w = Some [] ->
  (forall sr c, p_svcs p !! rtc = Some sr -> cs !! S rtc = Some c -> Forall (fun i => closing i /\ ~ aims w i) c) ->
  p_pipes p !! w = Some l -> tokens (RTC_MSG RtcWorker) l = 0 -> s_q_msg sv = [].
Proof.
  intros HI HJ Hs Hr Ho Hd Hl Ht.
  assert (Hrole : s_role sv = RtcWorker).
  { pose proof (inv_role _ _ _ _ _ _ _ _ HI Hs) as Hx. rewrite Hw in Hx. by injection Hx. }
  assert (Hz : forall c, (forall i, i ∈ c -> ~ aims w i) -> owed KMsg RtcWorker w c = 0).
  { intros c Hc. apply owed_none, Forall_forall. intros i Hi. specialize (Hc i Hi).
    destruct i as [x m|x fd|x z|x| | | | | | | |]; try done; cbn in *; destruct (Nat.eqb_spec x w); done. }
  assert (Htot : total KMsg RtcWorker w cs = 0).
  { assert (Hall : forall t c, cs !! t = Some c -> owed KMsg RtcWorker w c = 0).
    { intros [|s] c Hc; [by apply main_owed, (inv_main _ _ _ _ _ _ HI)|].
      destruct (decide (s = w)) as [->|Hnw]; [rewrite Ho in Hc; by injection Hc as <-|].
      assert (is_Some (p_svcs p !! s)) as [sv0 Hs0].
      { apply lookup_lt_is_Some. apply lookup_lt_Some in Hc. rewrite (inv_len _ _ _ _ _ _ HI), <- (inv_places _ _ _ _ _ _ HI), length_map in Hc. lia. }
      destruct (decide (s = rtc)) as [->|Hnr].
      - apply Hz. intros i Hi. specialize (Hd sv0 c Hs0 Hc). rewrite Forall_forall in Hd. by apply Hd.
      - apply Hz. intros i Hi. pose proof (i2_aims _ _ HJ s sv0 c Hs0 Hc) as Ha. rewrite Forall_forall in Ha. specialize (Ha i Hi).
        pose proof (inv_place _ _ _ _ _ _ _ _ HI Hs0) as Hpl.
        assert (Hnt : talks_to (s_role sv0) = RtcWorker -> False).
        { intros Hx. apply Hnr, (lay_rtc_only _ _ _ LAY s (place_of sv0) Hpl). cbn. by destruct (s_role sv0). }
        destruct i; cbn in Ha |- *; try tauto; intros ->; try congruence; rewrite Hw in Ha; injection Ha as Ha; by apply Hnt. }
    by apply total_zero. }
  pose proof (inv_count _ _ _ _ _ _ HI KMsg w sv l Hs (or_intror Hr)) as Hc. rewrite Hrole in Hc. specialize (Hc eq_refl Hl).
  cbn [token waiting_items] in Hc. rewrite Ht, Htot in Hc. by destruct (s_q_msg sv).
Qed.

Lemma tokens_quit l : QUIT ∉ l -> tokens QUIT l = 0.
Proof.
  induction l as [|x l IH]; [done|]. intros Hn. cbn. rewrite not_elem_of_cons in Hn. destruct Hn as [Hx Hn].
  rewrite IH by done. apply Z.eqb_neq in Hx. rewrite Z.eqb_sym, Hx. done.
Qed.

(** The worker reads its pipe. *)
Lemma INV2_read_worker p cs sv z l :
  INV p cs -> INV2 p cs -> p_svcs p !! w = Some sv -> s_run sv = Running -> cs !! S w = Some [] -> p_pipes p !! w = Some (z :: l) ->
  INV2 (upd_p_pipes <[w := l]> p) (<[S w := process_notify (s_role sv) w z]> cs).
Proof.
  intros HI HJ Hs Hr Ho Hl.
  assert (Hrole : s_role sv = RtcWorker).
  { pose proof (inv_role _ _ _ _ _ _ _ _ HI Hs) as Hx. rewrite Hw in Hx. by injection Hx. }
  destruct w_ne as [_ Hne].
  assert (Hlk : forall u c', <[S w := process_notify (s_role sv) w z]> cs !! u = Some c' ->
    (u = S w /\ c' = process_notify (s_role sv) w z) \/ (u <> S w /\ cs !! u = Some c')).
  { intros u c' H. destruct (decide (u = S w)) as [->|Hn]; [left|right; by rewrite list_lookup_insert_ne in H].
    rewrite list_lookup_insert_eq in H by (by eapply lookup_lt_Some). by injection H as <-. }
  constructor.
  - intros c t x H. destruct (Hlk _ c H) as [[? _]|[_ Hc]]; [done|by apply (i2_main _ _ HJ)].
  - intros u sv' c Hu H. destruct (Hlk _ c H) as [[[= ->] ->]|[_ Hc]]; [|by apply (i2_aims _ _ HJ u)].
    cbn in Hu. rewrite Hs in Hu. injection Hu as <-. apply notify_aims.
  - intros sv' c Hu H. destruct (Hlk _ c H) as [[[= ?] _]|[_ Hc]]; [congruence|by apply (i2_shape _ _ HJ)].
  - intros sr c sv' own l' Hu H Hu' H' Hl'. destruct (Hlk _ c H) as [[[= ?] _]|[_ Hc]]; [congruence|].
    destruct (Hlk _ own H') as [[_ ->]|[? _]]; [|done]. cbn in Hu, Hu', Hl'. rewrite Hs in Hu'. injection Hu' as <-.
    rewrite list_lookup_insert_eq in Hl' by (by eapply lookup_lt_Some). injection Hl' as <-. rewrite Hrole.
    assert (Hcalm : z <> QUIT -> Forall calm (process_notify (M := M) RtcWorker w z)).
    { intros Hz. unfold process_notify. apply Z.eqb_neq in Hz. rewrite Hz. case_match; by repeat constructor. }
    destruct (i2_phase _ _ HJ sr c sv [] _ Hu Hc Hs Ho Hl) as [H1 H2 H3|l0 H1 H2 H3 H4 H5|H1 H2]; [| |by apply Ph_empty].
    + rewrite not_elem_of_cons in H3. destruct H3 as [H3 H3']. apply Ph_serving; [done|by apply Hcalm, not_eq_sym|done].
    + destruct l0 as [|x l0]; cbn in H3; injection H3 as -> ->.
      * apply Ph_empty; [|done]. apply (quit_read p cs sv [QUIT] HI HJ Hs Hr Ho); [|done|done].
        intros sr0 c0 Hs0 Hc0. rewrite Hu in Hs0. injection Hs0 as <-. rewrite Hc in Hc0. injection Hc0 as <-. by destruct H5.
      * rewrite not_elem_of_cons in H4. destruct H4 as [H4 H4']. apply (Ph_quit _ _ _ _ _ _ l0); try done. by apply Hcalm, not_eq_sym.
Qed.

(** The server reads its pipe. *)
Lemma INV2_read_server p cs sr z l :
  INV p cs -> INV2 p cs -> p_svcs p !! rtc = Some sr -> s_run sr = Running -> cs !! S rtc = Some [] -> p_pipes p !! rtc = Some (z :: l) ->
  INV2 (upd_p_pipes <[rtc := l]> p) (<[S rtc := process_notify (s_role sr) rtc z]> cs).
Proof.
  intros HI HJ Hs Hr Ho Hl. destruct w_ne as [_ Hne]. apply (INV2_pipes p cs rtc l (not_eq_sym Hne)) in HJ.
  assert (Hlk : forall u c', <[S rtc := process_notify (s_role sr) rtc z]> cs !! u = Some c' ->
    (u = S rtc /\ c' = process_notify (s_role sr) rtc z) \/ (u <> S rtc /\ cs !! u = Some c')).
  { intros u c' H. destruct (decide (u = S rtc)) as [->|Hn]; [left|right; by rewrite list_lookup_insert_ne in H].
    rewrite list_lookup_insert_eq in H by (by eapply lookup_lt_Some). by injection H as <-. }
  assert (Hrole : s_role sr = RtcServer).
  { pose proof (lay_rtc _ _ _ LAY) as Hx. rewrite (inv_place _ _ _ _ _ _ _ _ HI Hs) in Hx. by injection Hx. }
  constructor.
  - intros c t x H. destruct (Hlk _ c H) as [[? _]|[_ Hc]]; [done|by apply (i2_main _ _ HJ)].
  - intros u sv' c Hu H. destruct (Hlk _ c H) as [[[= ->] ->]|[_ Hc]]; [|by apply (i2_aims _ _ HJ u)].
    cbn in Hu. rewrite Hs in Hu. injection Hu as <-. apply notify_aims.
  - intros sv' c Hu H. destruct (Hlk _ c H) as [[_ ->]|[? _]]; [|done]. rewrite Hrole. unfold process_notify.
    destruct (z =? QUIT); [by apply SS_stop|]. apply SS_working. case_match; by repeat constructor.
  - intros sr' c sv' own l' Hu H Hu' H' Hl'. cbn in Hu. rewrite Hs in Hu. injection Hu as <-.
    destruct (Hlk _ own H') as [[[= ?] _]|[_ Hown]]; [congruence|].
    assert (Hb : broken sr = false) by (unfold broken; by rewrite Hr).
    destruct (i2_phase _ _ HJ sr [] sv' own l' Hs Ho Hu' Hown Hl') as [H1 H2 H3|l0 H1 H2 H3 H4 [H5 _]|H1 [H2 _]]; [by apply Ph_serving|congruence..].
Qed.

Lemma step_INV2 l p p' : INV p (codes p) -> INV2 p (codes p) -> step l p = Some p' -> INV2 p' (codes p').
Proof.
  intros HI HJ E. unfold Threads.step in E. apply bind_Some in E as (u & _ & E). destruct w_ne as [Hws Hwr].
  assert (Hset : forall q s sv (f : service M -> service M), p_svcs q !! s = Some sv ->
    (forall sv, s_role (f sv) = s_role sv /\ s_q_msg (f sv) = s_q_msg sv /\ s_run (f sv) = s_run sv) ->
    INV2 q (<[S s := s_code (f sv)]> (codes q)) -> INV2 (on_svc s f q) (codes (on_svc s f q))).
  { intros q s sv f Hs Hf H. rewrite (codes_upd q s sv) by done. apply INV2_svc; [done|intros sv0; by destruct (Hf sv0) as (? & ? & _)|].
    intros sv0 _. left. by destruct (Hf sv0) as (_ & _ & ?). }
  assert (Hlt : forall s sv, p_svcs p !! s = Some sv -> (S s < length (codes p))%nat).
  { intros s sv Hs. cbn. rewrite length_map. apply lookup_lt_Some in Hs. lia. }
  assert (Hoth : forall s sv, p_svcs p !! s = Some sv -> s_role sv <> RtcServer -> s_role sv <> RtcWorker -> s <> rtc /\ s <> w).
  { intros s sv Hs H1 H2. pose proof (inv_role _ _ _ _ _ _ _ _ HI Hs) as Hx. split; intros ->.
    - pose proof (lay_rtc _ _ _ LAY) as Hy. apply roles_lookup in Hy. congruence.
    - rewrite Hw in Hx. congruence. }
  destruct l as [|s cert|s|s|s m|s fd|s|].
  - destruct (p_main p) as [|i c] eqn:Hm; [done|]. apply bind_Some in E as ([new p1] & E & [= <-]). apply INV2_main.
    pose proof (exec_codes _ _ _ _ _ _ _ _ E) as Hc.
    assert (codes (upd_p_main (fun c => new ++ c) p1) = <[0%nat := new ++ c]> (codes p)) as ->.
    { unfold codes in *. cbn in Hc |- *. by injection Hc as -> ->. }
    apply (exec_INV2 (upd_p_main (fun _ => c) p) (codes p) 0%nat i c true new p1); [by apply INV_main|by apply INV2_main|cbn; by rewrite Hm|done|done].
  - apply bind_Some in E as (sv & Hs & E). apply bind_Some in E as (u' & Hg%guard_Some & E).
    destruct (s_code sv) as [|i c] eqn:Hcode; [done|]. apply bind_Some in E as ([new p1] & E & [= <-]).
    pose proof (exec_codes _ _ _ _ _ _ _ _ E) as Hc. rewrite (codes_upd p s sv) in Hc by done. change (s_code (upd_s_code _ sv)) with c in Hc.
    assert (Hs' : exists sv', p_svcs p1 !! s = Some sv' /\ s_code sv' = c).
    { assert (H : codes p1 !! S s = Some c) by (rewrite Hc; by rewrite list_lookup_insert_eq by (by eapply Hlt)).
      rewrite codes_lookup in H. apply fmap_Some in H as (sv' & ? & ->). by exists sv'. }
    destruct Hs' as (sv' & Hs' & Hcode'). apply (Hset p1 s sv'); [done|done|].
    change (s_code (upd_s_code _ sv')) with (new ++ s_code sv'). rewrite Hcode', Hc, list_insert_insert_eq.
    apply (exec_INV2 (on_svc s (upd_s_code (fun _ => c)) p) (codes p) (S s) i c cert new p1);
      [by apply INV_set_code|apply INV2_svc; [done|done|by left]| |done|].
    + rewrite codes_lookup, Hs. cbn. by rewrite Hcode.
    + intros x sv0 [= <-] H. apply on_svc_lookup in H as (sv1 & H & ->). rewrite Hs in H. injection H as <-. rewrite Nat.eqb_refl.
      cbn. intros Hn. by rewrite Hn in Hg.
  - apply bind_Some in E as (sv & Hs & E). apply bind_Some in E as (u' & Hg%guard_Some & E). apply andb_true_iff in Hg as [Hwt _].
    destruct (waiting_spec sv Hwt) as [Hr Hc]. destruct (inv_open _ _ _ _ _ _ HI s sv Hs) as [Hf _]; [by right|]. rewrite Hf in E.
    apply bind_Some in E as (l & Hl & E). destruct l as [|z l]; [done|]. injection E as <-.
    assert (Ho : codes p !! S s = Some []) by (rewrite codes_lookup, Hs; cbn; by rewrite Hc).
    apply (Hset _ s sv); [done|done|]. change (codes (upd_p_pipes <[s := l]> p)) with (codes p).
    change (s_code (upd_s_code _ sv)) with (process_notify (M := M) (s_role sv) s z).
    destruct (decide (s = w)) as [->|Hnw]; [by apply INV2_read_worker|].
    destruct (decide (s = rtc)) as [->|Hnr]; [by apply INV2_read_server|].
    apply (INV2_other _ _ s sv); [by apply INV2_pipes|done|done|done|apply notify_aims|by eapply Hlt].
  - apply bind_Some in E as (sv & Hs & E). apply bind_Some in E as (u' & Hg%guard_Some & E). rewrite !andb_true_iff, !bool_decide_eq_true in Hg.
    destruct Hg as [[[Hwt _] Hrole] _]. destruct (Hoth s sv Hs) as [Hnr Hnw]; [by rewrite Hrole|by rewrite Hrole|].
    destruct (sys_accept p) as [fd p1] eqn:Ea. assert (Hp1 : INV2 p1 (codes p1) /\ p_svcs p1 = p_svcs p /\ codes p1 = codes p).
    { unfold sys_accept in Ea. injection Ea as _ <-. split; [|done]. change (codes (upd_p_files _ p)) with (codes p). destruct HJ. by constructor. }
    destruct Hp1 as (HJ1 & Hsv1 & Hc1). destruct (dispatch_conn fd sv) as [code next] eqn:Ed. injection E as <-.
    apply (Hset p1 s sv); [by rewrite Hsv1|done|]. apply (INV2_other _ _ s sv); [done|by rewrite Hsv1|done|done| |rewrite Hc1; by eapply Hlt].
    change (Forall (aims_ok s (s_role sv)) code). unfold dispatch_conn in Ed. injection Ed as <- _. rewrite Hrole.
    destruct (s_workers sv !! s_next sv) as [x|] eqn:Ex; [|by constructor].
    assert (Hx : roles !! x = Some SignalingWorker); [|by repeat constructor].
    apply roles_lookup. rewrite (lay_workers _ _ _ LAY s (place_of sv) x (inv_place _ _ _ _ _ _ _ _ HI Hs)); [cbn; by rewrite Hrole|].
    by apply list_elem_of_lookup_2 with (s_next sv).
  - apply bind_Some in E as (sv & Hs & E). apply bind_Some in E as (u' & Hg%guard_Some & E). rewrite !andb_true_iff, !bool_decide_eq_true in Hg.
    destruct Hg as [[[Hwt Hrole] _] _]. injection E as <-. destruct (Hoth s sv Hs) as [Hnr Hnw]; [by rewrite Hrole|by rewrite Hrole|].
    apply (Hset p s sv); [done|done|]. apply (INV2_other _ _ s sv); [done|done|done|done| |by eapply Hlt].
    rewrite Hrole. apply push_aims. rewrite (inv_rtc _ _ _ _ _ _ HI). apply roles_lookup, (lay_rtc _ _ _ LAY).
  - apply bind_Some in E as (sv & Hs & E). apply bind_Some in E as (u' & _ & E). injection E as <-.
    change (codes (sys_close fd ?q)) with (codes q). rewrite codes_same by done.
    destruct (INV2_svc p (codes p) s (upd_s_conns (List.filter (fun x => negb (x =? fd)))) HJ) as []; [done|by left|by constructor].
  - apply bind_Some in E as (sv & Hs & E). apply bind_Some in E as (u' & Hg%guard_Some & E). rewrite !andb_true_iff, !bool_decide_eq_true in Hg.
    destruct Hg as [Hr _]. injection E as <-. rewrite codes_same by done. apply INV2_svc; [done|done|]. intros sv0 H. right.
    rewrite Hs in H. by injection H as <-.
  - injection E as <-. apply INV2_main.
    change (codes _) with (<[0%nat := [INotify (p_sig p) QUIT; INotify (p_rtc p) QUIT] ++ p_main p]> (codes p)). destruct HJ as [J1 J2 J3 J4].
    constructor; try done. intros c t z [= <-] Hin. rewrite (inv_sig _ _ _ _ _ _ HI), (inv_rtc _ _ _ _ _ _ HI) in Hin. rewrite !elem_of_cons in Hin.
    destruct Hin as [[= -> _]|[[= -> _]|Hin]]; [by left|by right|by apply (J1 (p_main p) t z)].
Qed.
End shutdown.

Section drained.
Context {M : Type} (msg_worker : M -> nat) (msg_home : M -> option nat) (msg_reply : M -> option M) (a b : nat).
Notation reachable := (reachable msg_worker msg_home msg_reply a b).
Notation D := (layout (M := M) a b).

Lemma boot_INV2 w : map pl_role D !! w = Some RtcWorker -> INV2 D 0%nat (S a) w (boot a b) (codes (boot (M := M) a b)).
Proof.
  intros Hw. destruct (boot_fresh (M := M) a b) as (HF & Hsig & Hrtc & Hr). rewrite boot_eq, Hsig, Hrtc. apply INV2_main.
  change (codes _) with (main_code (M := M) 0 (S a) :: map s_code (p_svcs (boot_servers (M := M) a b))).
  assert (Hcs : forall t c, (main_code (M := M) 0 (S a) :: map s_code (p_svcs (boot_servers (M := M) a b))) !! S t = Some c -> c = []).
  { intros t c H. change ((s_code <$> p_svcs (boot_servers (M := M) a b)) !! t = Some c) in H. rewrite list_lookup_fmap in H.
    apply fmap_Some in H as (sv & Hs & ->). by destruct (fr_svc _ HF t sv Hs) as (_ & _ & _ & ? & _). }
  constructor.
  - intros c t z [= <-] Hin. unfold main_code in Hin. rewrite !elem_of_cons, elem_of_nil in Hin. intuition discriminate.
  - intros s sv c Hs H. rewrite (Hcs s c H). by constructor.
  - intros sv c Hs H. rewrite (Hcs _ c H). by apply SS_working.
  - intros sr c sv own l _ Hc Hs Ho Hl. rewrite (Hcs _ c Hc), (Hcs _ own Ho). apply Ph_serving; [|done|].
    + apply (boot_started a b w); [done|]. pose proof (proj1 (roles_lookup D w RtcWorker) Hw) as Hx. rewrite layout_role, <- Hr in Hx.
      unfold role_at in Hx. rewrite Hs in Hx. by injection Hx.
    + cbn in Hl. rewrite (fr_pipes _ HF) in Hl. apply lookup_replicate in Hl as [-> _]. by intros ?%elem_of_nil.
Qed.

(** C14: An RTC worker stops with nothing left to do.  In every reachable state,
    a worker of the RTC server whose loop was told to end has an empty queue,
    and the server will never put a message into it again: the number that
    makes a worker quit is written after those of all the messages the server
    ever handed to it, and the worker reads it after them.  So a shutdown
    loses no message that has reached a worker. *)
Theorem rtc_worker_drains p w sv :
  reachable p -> p_svcs p !! w = Some sv -> s_role sv = RtcWorker -> s_run sv = Broken \/ s_run sv = Ended ->
  s_q_msg sv = [] /\
  exists sr, p_svcs p !! S a = Some sr /\ s_role sr = RtcServer /\ (s_run sr = Broken \/ s_run sr = Ended) /\
    forall m z, IPush w m ∉ s_code sr /\ INotify w z ∉ s_code sr /\ IPop (S a) ∉ s_code sr.
Proof.
  intros HR Hs Hrole Hrun. pose proof (reachable_Inv msg_worker msg_home msg_reply a b p HR) as HI.
  assert (Hw : map pl_role D !! w = Some RtcWorker) by (rewrite <- Hrole; by apply (inv_role msg_worker D 0%nat (S a) p (codes p))).
  assert (HJ : INV2 D 0%nat (S a) w p (codes p)).
  { clear Hrun Hrole Hs HI. induction HR as [|l p p' HR IH E]; [by apply boot_INV2|].
    apply (step_INV2 msg_worker msg_home msg_reply D 0%nat (S a) (boot_layout a b) w Hw) with l p; try done.
    - intros d. apply (layout_workers_nodup a b).
    - by apply (reachable_Inv msg_worker msg_home msg_reply). }
  assert (exists sr, p_svcs p !! S a = Some sr) as (sr & Hsr).
  { pose proof (lay_rtc _ _ _ (boot_layout (M := M) a b)) as Hx. rewrite <- (inv_places _ _ _ _ _ _ HI) in Hx.
    change (map place_of ?l) with (place_of <$> l) in Hx. rewrite list_lookup_fmap in Hx. destruct (p_svcs p !! S a) as [sr|]; [by exists sr|done]. }
  assert (Hrr : s_role sr = RtcServer).
  { pose proof (lay_rtc _ _ _ (boot_layout (M := M) a b)) as Hx. rewrite (inv_place _ _ _ _ _ _ _ _ HI Hsr) in Hx. by injection Hx. }
  assert (exists l, p_pipes p !! w = Some l) as (l & Hl).
  { apply lookup_lt_is_Some. rewrite (inv_pipes _ _ _ _ _ _ HI), <- (inv_places _ _ _ _ _ _ HI), length_map. by apply lookup_lt_Some in Hs. }
  destruct (i2_phase _ _ _ _ _ _ HJ sr (s_code sr) sv (s_code sv) l Hsr) as [Hx|l0 Hx|Hq [Hb Hd]]; try done;
    [by rewrite codes_lookup, Hsr|by rewrite codes_lookup, Hs|rewrite Hx in Hrun; by destruct Hrun..|].
  split; [done|]. exists sr. split; [done|]. split; [done|]. split; [by apply bool_decide_eq_true in Hb|].
  rewrite Forall_forall in Hd. intros m z.
  split; [intros Hin; by destruct (Hd _ Hin)|split; [intros Hin; destruct (Hd _ Hin) as [_ Hn]; by apply Hn|intros Hin; by destruct (Hd _ Hin)]].
Qed.
End drained.
