(* ===== verification/ThreadsRuns.v ===== *)
(** * Threads: runs

    One signaling worker and one RTC worker; messages are the numbers of the
    signaling worker that made them, and every message is answered.  A shutdown
    that goes well, and the ways in which it goes wrong. *)

From S2P Require Import Prelude Threads ThreadsTheory ThreadsBoot ThreadsSafety ThreadsShutdown.
Local Open Scope Z_scope.

#[local] Abbreviation msgw := (fun m : nat => m).
#[local] Abbreviation msgh := (fun _ : nat => Some 0%nat).
#[local] Abbreviation msgr := (fun m : nat => Some m).

Lemma run_reachable {M} w h r a b ls : forall p p' : process M,
  reachable w h r a b p -> run_labels w h r ls p = Some p' -> reachable w h r a b p'.
Proof.
  induction ls as [|l ls IH]; intros p p' HR E; [by injection E as <-|]. cbn in E. apply bind_Some in E as (p1 & E1 & E).
  apply (IH p1); [by apply (reachable_step w h r a b l p)|done].
Qed.

Definition run1 (ls : list (label nat)) : option (process nat) := run_labels msgw msgh msgr ls (boot 1 1).

(** The services: 0 and 1 are the signaling server and its worker, 2 and 3 the
    RTC server and its worker. *)
Definition go (s : nat) (n : nat) : list (label nat) := replicate n (LRun s true).

(** The threads start, and a client connects. *)
Definition started_run : list (label nat) := replicate 4 LMain ++ [LAccept 0] ++ go 0 2 ++ [LRead 1] ++ go 1 1.

(** A request goes to the RTC worker, and its answer comes back. *)
Definition request_run : list (label nat) :=
  [LRequest 1 1%nat] ++ go 1 2 ++ [LRead 2] ++ go 2 3 ++ [LRead 3] ++ go 3 3 ++ [LRead 1] ++ go 1 1.

(** SIGINT: the numbers are written; the RTC server is told to end. *)
Definition signal_run : list (label nat) := [LSignal] ++ replicate 2 LMain ++ [LRead 2] ++ go 2 3.

(** It closes its pipe, and stops its worker. *)
Definition stop_run : list (label nat) := go 2 3 ++ [LRead 3] ++ go 3 5 ++ [LEnd 3] ++ go 2 1 ++ [LEnd 2].

(** The state a run ends in. *)
Definition after (ls : list (label nat)) : process nat := default (boot 1 1) (run1 ls).

Lemma after_reachable ls : is_Some (run1 ls) -> reachable msgw msgh msgr 1 1 (after ls).
Proof.
  unfold after. intros [p E]. rewrite E. apply (run_reachable _ _ _ _ _ ls (boot 1 1)); [constructor|exact E].
Qed.

(** A request that is in the queue of the RTC server and not yet announced. *)
Lemma wakeups_match_witness :
  let p := after (started_run ++ [LRequest 1 1%nat] ++ go 1 1) in
  exists sv, p_svcs p !! 2%nat = Some sv /\ s_q_msg sv = [1%nat] /\
    1 = tokens 1 [] + total KMsg RtcServer 2 (codes p).
Proof.
  intros p. assert (HR : reachable msgw msgh msgr 1 1 p) by (apply after_reachable; vm_compute; eauto).
  eexists. split; [vm_compute; reflexivity|]. split; [reflexivity|].
  destruct (wakeups_match msgw msgh msgr 1 1 p 2 _ [] HR ltac:(vm_compute; reflexivity) ltac:(right; reflexivity) ltac:(vm_compute; reflexivity))
    as (_ & _ & H).
  destruct (H KMsg eq_refl) as [H1 _]. exact H1.
Defined.

Lemma rtc_worker_drains_witness :
  let p := after (started_run ++ request_run ++ signal_run ++ stop_run) in
  exists sv, p_svcs p !! 3%nat = Some sv /\ s_run sv = Ended /\ s_done sv = [1%nat] /\ s_q_msg sv = [].
Proof.
  intros p. assert (HR : reachable msgw msgh msgr 1 1 p) by (apply after_reachable; vm_compute; eauto).
  eexists. split; [vm_compute; reflexivity|]. split; [reflexivity|]. split; [reflexivity|].
  destruct (rtc_worker_drains msgw msgh msgr 1 1 p 3 _ HR ltac:(vm_compute; reflexivity) eq_refl ltac:(right; reflexivity)) as [H _].
  exact H.
Defined.


(** SIGINT comes when the thread of the signaling server runs and [_thread] is
    not assigned yet. *)
Definition early_signal_run : list (label nat) :=
  [LMain; LSignal] ++ replicate 2 LMain ++ [LRead 0] ++ go 0 1 ++ replicate 3 LMain ++ [LRead 2] ++ go 2 3 ++ stop_run.

(** A signal can be lost.  [SignalingServer::_stop] does nothing when
    [_thread] is null, and [start] assigns it after the thread has begun to
    run: a SIGINT in between is read from the pipe and forgotten.  The RTC
    server ends, with its workers, and the main thread waits for the signaling
    server, whose pipe is empty and which goes on accepting clients: all that
    can still happen is that a client connects or that another signal comes. *)
Theorem signal_lost : exists p : process nat,
  reachable msgw msgh msgr 1 1 p /\
  (exists sv0 sv2 sv3, p_svcs p !! 0%nat = Some sv0 /\ s_run sv0 = Running /\ s_watch sv0 = true /\ p_pipes p !! 0%nat = Some [] /\
     p_svcs p !! 2%nat = Some sv2 /\ s_run sv2 = Ended /\ p_svcs p !! 3%nat = Some sv3 /\ s_run sv3 = Ended) /\
  p_main p = [IJoin (p_sig p); IJoin (p_rtc p)] /\
  forall l p', step msgw msgh msgr l p = Some p' -> l = LAccept 0 \/ l = LSignal.
Proof.
  exists (after early_signal_run). split; [apply after_reachable; vm_compute; eauto|]. split.
  { do 3 eexists. do 4 (split; [vm_compute; reflexivity|]). do 3 (split; [vm_compute; reflexivity|]). vm_compute; reflexivity. }
  split; [vm_compute; reflexivity|]. intros l p' E. set (p := after early_signal_run) in *. vm_compute in p. subst p.
  destruct l as [|s cert|s|s|s m|s fd|s|]; [by vm_compute in E| | | | | | |by right];
    (destruct s as [|[|[|[|s]]]]; [..|by cbv in E]); try (by left); by cbv in E.
Qed.
