(* ===== verification/MessageQueue.v ===== *)
(** * The message queue of a thread (rtc_base/thread.cc, thread.h,
    thread_message.h)

    The DTLS engine posts its timers to the queue of the current thread.  A
    queue has messages to be handled in the order of their posting, delayed ones
    by their time, and one that was peeked at; other threads post while its
    thread waits.  Handlers and data are names; [q_deleted] collects the data
    that the queue deletes.  Operations are steps.  In the code [Post] and
    [DoDelayPost] look at the quitting flag before they take the lock, and
    [Get] lets go of the lock after every message it pulls; here the test and the
    push are one step, and what other threads do during a [Get] is done during
    its waits.  Destructors of data do not use the queue.  Clocks are 64 bits and
    do not wrap. *)

From S2P Require Import Prelude.
Local Open Scope Z_scope.

(** ** Messages (thread_message.h) *)

Definition MQID_ANY : Z := u32 (-1).
Definition MQID_DISPOSE : Z := u32 (-2).
Definition kForever : Z := -1.

Record Message : Type := mkMessage {
  phandler : option nat;
  message_id : Z;
  pdata : option nat;
}.

#[export] Instance Message_eq_dec : EqDecision Message.
Proof. solve_decision. Defined.

Definition Match (handler : option nat) (id : Z) (m : Message) : bool :=
  (bool_decide (handler = None) || bool_decide (handler = phandler m)) && ((id =? MQID_ANY) || (id =? message_id m)).

Record DelayedMessage : Type := mkDelayed {
  run_time_ms : Z;
  message_number : Z;
  msg_ : Message;
}.

(** [operator<]: what is less is handled later. *)
Definition later (a b : DelayedMessage) : bool :=
  (run_time_ms b <? run_time_ms a) ||
  ((run_time_ms b =? run_time_ms a) && (message_number b <? message_number a)).

(** ** The queue *)

Record queue : Type := mkQueue {
  messages : list Message;
  delayed_messages : list DelayedMessage;  (* the container of the heap *)
  delayed_next_num : Z;
  peeked : option Message;  (* msgPeek_, if fPeekKeep_ *)
  stop : bool;
  q_deleted : list nat;
  q_wakes : nat;  (* calls of WakeUp *)
}.

Definition empty_queue : queue := mkQueue [] [] 0 None false [] 0.

Definition upd_messages f q := mkQueue (f (messages q)) (delayed_messages q) (delayed_next_num q) (peeked q) (stop q) (q_deleted q) (q_wakes q).
Definition upd_delayed f q := mkQueue (messages q) (f (delayed_messages q)) (delayed_next_num q) (peeked q) (stop q) (q_deleted q) (q_wakes q).
Definition upd_next_num f q := mkQueue (messages q) (delayed_messages q) (f (delayed_next_num q)) (peeked q) (stop q) (q_deleted q) (q_wakes q).
Definition upd_peeked f q := mkQueue (messages q) (delayed_messages q) (delayed_next_num q) (f (peeked q)) (stop q) (q_deleted q) (q_wakes q).
Definition upd_stop f q := mkQueue (messages q) (delayed_messages q) (delayed_next_num q) (peeked q) (f (stop q)) (q_deleted q) (q_wakes q).
Definition upd_deleted f q := mkQueue (messages q) (delayed_messages q) (delayed_next_num q) (peeked q) (stop q) (f (q_deleted q)) (q_wakes q).

Definition WakeUpSocketServer (q : queue) : queue :=
  mkQueue (messages q) (delayed_messages q) (delayed_next_num q) (peeked q) (stop q) (q_deleted q) (S (q_wakes q)).

Definition delete_data (m : Message) (q : queue) : queue :=
  upd_deleted (fun l => match pdata m with None => l | Some d => d :: l end) q.

(** [std::priority_queue]: the top and the rest; of messages with the same time
    and number, which take 2^32 posts, any may be the top. *)
Fixpoint pq_pop (l : list DelayedMessage) : option (DelayedMessage * list DelayedMessage) :=
  match l with
  | [] => None
  | d :: l =>
      match pq_pop l with
      | None => Some (d, [])
      | Some (t, l') => if later d t then Some (t, d :: l') else Some (d, l)
      end
  end.

Definition Quit (q : queue) : queue := WakeUpSocketServer (upd_stop (fun _ => true) q).
Definition Restart (q : queue) : queue := upd_stop (fun _ => false) q.

Definition Post (m : Message) (q : queue) : queue :=
  if stop q then delete_data m q else WakeUpSocketServer (upd_messages (fun l => l ++ [m]) q).

Definition DoDelayPost (run_at_ms : Z) (m : Message) (q : queue) : queue :=
  if stop q then delete_data m q
  else
    let q := upd_delayed (fun l => l ++ [mkDelayed run_at_ms (delayed_next_num q) m]) q in
    WakeUpSocketServer (upd_next_num (fun n => u32 (n + 1)) q).

(** [TimeAfter(delay_ms)] of an [int]. *)
Definition PostDelayed (now delay_ms : Z) (m : Message) (q : queue) : queue := DoDelayPost (now + i32 delay_ms) m q.
Definition PostAt (run_at_ms : Z) (m : Message) (q : queue) : queue := DoDelayPost run_at_ms m q.

(** [PostDelayedTask], whose [uint32_t] becomes an [int]. *)
Definition PostDelayedTask (now milliseconds : Z) (handler task : nat) (q : queue) : queue :=
  PostDelayed now (i32 milliseconds) (mkMessage (Some handler) 0 (Some task)) q.
Definition PostTask (handler task : nat) (q : queue) : queue := Post (mkMessage (Some handler) 0 (Some task)) q.

(** ** Taking messages *)

(** The first pass of [Get]: delayed messages whose time has come join the
    others; the time until the next. *)
Fixpoint trigger (fuel : nat) (now : Z) (q : queue) : Z * queue :=
  match fuel with
  | O => (kForever, q)
  | S fuel =>
      match pq_pop (delayed_messages q) with
      | None => (kForever, q)
      | Some (t, rest) =>
          if now <? run_time_ms t then (run_time_ms t - now, q)
          else trigger fuel now (upd_delayed (fun _ => rest) (upd_messages (fun l => l ++ [msg_ t]) q))
      end
  end.
Definition trigger_all (now : Z) (q : queue) : Z * queue := trigger (S (length (delayed_messages q))) now q.

(** The next message, after the dispose messages before it. *)
Fixpoint pull (l : list Message) (q : queue) : option Message * queue :=
  match l with
  | [] => (None, upd_messages (fun _ => []) q)
  | m :: l => if message_id m =? MQID_DISPOSE then pull l (delete_data m q) else (Some m, upd_messages (fun _ => l) q)
  end.
Definition pull_next (q : queue) : option Message * queue := pull (messages q) q.

(** What other threads do to the queue. *)
Inductive q_op : Type :=
  | QPost (m : Message)
  | QPostAt (run_at_ms : Z) (m : Message)
  | QQuit.

Definition q_apply (q : queue) (o : q_op) : queue :=
  match o with QPost m => Post m q | QPostAt t m => PostAt t m q | QQuit => Quit q end.

(** A return of [SocketServer::Wait]: its result, the time, and what was done to
    the queue in the meantime. *)
Record wait : Type := mkWait { w_ok : bool; w_now : Z; w_ops : list q_op }.

Inductive got : Type :=
  | Got (m : Message)  (* true *)
  | NotGot  (* false *)
  | Waiting.  (* in a wait that does not return *)

(** The time [Get] waits for, as an [int]. *)
Definition cms_next (cmsWait cmsElapsed cmsDelayNext : Z) : Z :=
  if cmsWait =? kForever then cmsDelayNext
  else
    let cmsNext := Z.max 0 (cmsWait - cmsElapsed) in
    if negb (cmsDelayNext =? kForever) && (cmsDelayNext <? cmsNext) then cmsDelayNext else cmsNext.

(** The loop of [Get]; the result has the waits that were asked for. *)
Fixpoint get_loop (waits : list wait) (cmsWait msStart msCurrent : Z) (q : queue) : got * list Z * queue :=
  let '(cmsDelayNext, q) := trigger_all msCurrent q in
  match pull_next q with
  | (Some m, q) => (Got m, [], q)
  | (None, q) =>
      if stop q then (NotGot, [], q)
      else
        let asked := i32 (cms_next cmsWait (msCurrent - msStart) cmsDelayNext) in
        match waits with
        | [] => (Waiting, [asked], q)
        | w :: waits =>
            let q := foldl q_apply q (w_ops w) in
            if negb (w_ok w) then (NotGot, [asked], q)
            else if negb (cmsWait =? kForever) && (cmsWait <=? w_now w - msStart) then (NotGot, [asked], q)
            else let '(r, l, q) := get_loop waits cmsWait msStart (w_now w) q in (r, asked :: l, q)
        end
  end.

Definition Get (waits : list wait) (cmsWait now : Z) (q : queue) : got * list Z * queue :=
  match peeked q with
  | Some m => (Got m, [], upd_peeked (fun _ => None) q)
  | None => get_loop waits cmsWait now now q
  end.

Definition Peek (waits : list wait) (cmsWait now : Z) (q : queue) : got * list Z * queue :=
  match peeked q with
  | Some m => (Got m, [], q)
  | None =>
      match Get waits cmsWait now q with
      | (Got m, l, q) => (Got m, l, upd_peeked (fun _ => Some m) q)
      | r => r
      end
  end.

Definition GetDelay (now : Z) (q : queue) : Z :=
  match messages q with
  | _ :: _ => 0
  | [] => match pq_pop (delayed_messages q) with
          | Some (t, _) => let delay := i32 (run_time_ms t - now) in if delay <? 0 then 0 else delay
          | None => kForever
          end
  end.

(** ** Removing messages *)

(** [ClearInternal]: what matches is appended to the list of the caller, or its
    data are deleted. *)
Definition remove_one (keep : bool) (r : list Message * queue) (m : Message) : list Message * queue :=
  if keep then (fst r ++ [m], snd r) else (fst r, delete_data m (snd r)).

Definition Clear (handler : option nat) (id : Z) (keep : bool) (q : queue) : list Message * queue :=
  let hit m := Match handler id m in
  let r := match peeked q with
           | Some m => if hit m then remove_one keep ([], upd_peeked (fun _ => None) q) m else ([], q)
           | None => ([], q)
           end in
  let r := foldl (remove_one keep) r (List.filter hit (messages q)) in
  let r := foldl (remove_one keep) r (map msg_ (List.filter (fun d => hit (msg_ d)) (delayed_messages q))) in
  (fst r, upd_messages (List.filter (fun m => negb (hit m)))
            (upd_delayed (List.filter (fun d => negb (hit (msg_ d)))) (snd r))).

(** [DoDestroy]: every message goes. *)
Definition DoDestroy (q : queue) : queue := snd (Clear None MQID_ANY false q).

(** ** The loop of a thread

    [ProcessMessages]: a handler takes the data of its message and does
    something to the queue; each turn gives its waits and the time after the
    handler. *)
Record turn : Type := mkTurn { t_waits : list wait; t_now : Z; t_after : Z }.

Inductive processed : Type :=
  | Returned (result : bool)
  | Blocked
  | More.  (* the turns are used up *)

Section process.
Context (on_message : Message -> list q_op).

Fixpoint process_loop (turns : list turn) (cmsLoop msEnd cmsNext : Z) (q : queue) : processed * list Message * queue :=
  match turns with
  | [] => (More, [], q)
  | t :: turns =>
      match Get (t_waits t) cmsNext (t_now t) q with
      | (NotGot, _, q) => (Returned (negb (stop q)), [], q)
      | (Waiting, _, q) => (Blocked, [], q)
      | (Got m, _, q) =>
          let q := foldl q_apply q (on_message m) in
          if cmsLoop =? kForever
          then let '(r, l, q) := process_loop turns cmsLoop msEnd cmsNext q in (r, m :: l, q)
          else
            let cmsNext := i32 (msEnd - t_after t) in
            if cmsNext <? 0 then (Returned true, [m], q)
            else let '(r, l, q) := process_loop turns cmsLoop msEnd cmsNext q in (r, m :: l, q)
      end
  end.

Definition ProcessMessages (turns : list turn) (cmsLoop now : Z) (q : queue) : processed * list Message * queue :=
  process_loop turns cmsLoop (if cmsLoop =? kForever then 0 else now + cmsLoop) cmsLoop q.
End process.
