(* ===== verification/MessageQueueTheory.v ===== *)
(** * What the message queue of a thread promises

    Nothing posted is lost, deleted twice or deleted after it was handed out;
    messages are taken in the order of a sorted agenda; and a thread that waits
    does not sleep past its deadline or past the next delayed message. *)

From S2P Require Import Prelude MessageQueue.
Local Open Scope Z_scope.

(** ** Data are in one place *)

Definition datas (l : list Message) : list nat := omap pdata l.

(** What the queue has: the data of its messages, and those it deleted. *)
Definition held (q : queue) : list nat :=
  datas (option_list (peeked q)) ++ datas (messages q) ++ datas (map msg_ (delayed_messages q)) ++ q_deleted q.

Lemma datas_app l k : datas (l ++ k) = datas l ++ datas k.
Proof. apply omap_app. Qed.

Lemma datas_cons m l : datas (m :: l) = datas [m] ++ datas l.
Proof. by rewrite <- datas_app. Qed.

#[local] Instance datas_proper : Proper (Permutation ==> Permutation) datas.
Proof. intros l k H. unfold datas. by rewrite H. Qed.

Lemma deleted_data m q : q_deleted (delete_data m q) = datas [m] ++ q_deleted q.
Proof. unfold delete_data, datas, upd_deleted. cbn. by destruct (pdata m). Qed.

Lemma held_delete m q : held (delete_data m q) ≡ₚ datas [m] ++ held q.
Proof.
  unfold held. rewrite deleted_data. cbn [peeked messages delayed_messages delete_data upd_deleted].
  change (peeked (delete_data m q)) with (peeked q). change (messages (delete_data m q)) with (messages q).
  change (delayed_messages (delete_data m q)) with (delayed_messages q). solve_Permutation.
Qed.

Lemma held_Post m q : held (Post m q) ≡ₚ datas [m] ++ held q.
Proof.
  unfold Post. destruct (stop q); [apply held_delete|]. unfold held. cbn [WakeUpSocketServer upd_messages peeked messages delayed_messages q_deleted].
  rewrite datas_app. solve_Permutation.
Qed.

Lemma held_DoDelayPost t m q : held (DoDelayPost t m q) ≡ₚ datas [m] ++ held q.
Proof.
  unfold DoDelayPost. destruct (stop q); [apply held_delete|]. unfold held.
  cbn [WakeUpSocketServer upd_next_num upd_delayed peeked messages delayed_messages q_deleted].
  rewrite map_app, datas_app. cbn [map msg_]. solve_Permutation.
Qed.

(** The messages that an operation brings. *)
Definition brought (o : q_op) : list Message := match o with QPost m | QPostAt _ m => [m] | QQuit => [] end.

Lemma held_apply o q : held (q_apply q o) ≡ₚ datas (brought o) ++ held q.
Proof. destruct o; [apply held_Post|apply held_DoDelayPost|done]. Qed.

Lemma held_foldl os q : held (foldl q_apply q os) ≡ₚ datas (concat (map brought os)) ++ held q.
Proof.
  revert q. induction os as [|o os IH]; intros q; [done|]. cbn [foldl map concat].
  rewrite IH, datas_app, held_apply. solve_Permutation.
Qed.

Lemma pq_pop_perm l t rest : pq_pop l = Some (t, rest) -> l ≡ₚ t :: rest.
Proof.
  revert t rest. induction l as [|d l IH]; intros t rest E; [done|]. cbn in E.
  destruct (pq_pop l) as [[t' l']|] eqn:El.
  - specialize (IH _ _ eq_refl). destruct (later d t'); injection E as <- <-; [|done]. rewrite IH. solve_Permutation.
  - injection E as <- <-. destruct l as [|d' l]; [done|]. cbn in El. destruct (pq_pop l) as [[]|]; [|done]. by destruct (later _ _).
Qed.

Lemma held_trigger fuel now q : held (snd (trigger fuel now q)) ≡ₚ held q.
Proof.
  revert q. induction fuel as [|fuel IH]; intros q; [done|]. cbn [trigger].
  destruct (pq_pop (delayed_messages q)) as [[t rest]|] eqn:E; [|done]. destruct (now <? run_time_ms t); [done|].
  rewrite IH. unfold held. cbn [upd_delayed upd_messages peeked messages delayed_messages q_deleted].
  rewrite (Permutation_map msg_ (pq_pop_perm _ _ _ E)). cbn [map]. rewrite datas_app, (datas_cons (msg_ t) (map msg_ rest)). solve_Permutation.
Qed.

(** What a call hands to its caller. *)
Definition taken (r : got) : list Message := match r with Got m => [m] | _ => [] end.

Lemma held_pull l q :
  let r := pull l q in
  datas (option_list (fst r)) ++ held (snd r) ≡ₚ datas l ++ held (upd_messages (fun _ => []) q).
Proof.
  revert q. induction l as [|m l IH]; intros q; cbn [pull]; [done|].
  rewrite (datas_cons m l). destruct (message_id m =? MQID_DISPOSE).
  - cbn zeta in *. rewrite IH. change (upd_messages (fun _ => []) (delete_data m q)) with (delete_data m (upd_messages (fun _ => []) q)).
    rewrite held_delete. solve_Permutation.
  - cbn [fst snd option_list]. unfold held. cbn [upd_messages peeked messages delayed_messages q_deleted]. cbn [datas omap list_omap].
    solve_Permutation.
Qed.

Lemma held_pull_next q :
  datas (option_list (fst (pull_next q))) ++ held (snd (pull_next q)) ≡ₚ held q.
Proof.
  unfold pull_next. rewrite (held_pull (messages q) q). unfold held.
  cbn [upd_messages peeked messages delayed_messages q_deleted]. cbn [datas omap list_omap]. solve_Permutation.
Qed.

(** The waits that came back: all that were asked for but the last of a call
    that still waits. *)
Definition returned (r : got) (asked : list Z) : nat := match r with Waiting => pred (length asked) | _ => length asked end.
Definition meanwhile (waits : list wait) (n : nat) : list Message := concat (map (fun w => concat (map brought (w_ops w))) (take n waits)).

Lemma held_get_loop waits cmsWait start now q :
  let '(r, asked, q') := get_loop waits cmsWait start now q in
  datas (taken r) ++ held q' ≡ₚ datas (meanwhile waits (returned r asked)) ++ held q.
Proof.
  revert now q. induction waits as [|w waits IH]; intros now q; cbn [get_loop].
  - destruct (trigger_all now q) as [next q1] eqn:E1. pose proof (held_trigger (S (length (delayed_messages q))) now q) as H1.
    fold (trigger_all now q) in H1. rewrite E1 in H1. cbn [snd] in H1.
    pose proof (held_pull_next q1) as H2. destruct (pull_next q1) as [[m|] q2]; cbn [fst snd option_list] in H2.
    + cbn [returned length]. rewrite H2. done.
    + destruct (stop q2); cbn; rewrite <- H1, <- H2; done.
  - destruct (trigger_all now q) as [next q1] eqn:E1. pose proof (held_trigger (S (length (delayed_messages q))) now q) as H1.
    fold (trigger_all now q) in H1. rewrite E1 in H1. cbn [snd] in H1.
    pose proof (held_pull_next q1) as H2. destruct (pull_next q1) as [[m|] q2]; cbn [fst snd option_list] in H2.
    + cbn [returned length take meanwhile]. rewrite H2. done.
    + destruct (stop q2); [cbn; rewrite <- H1, <- H2; done|]. pose proof (held_foldl (w_ops w) q2) as H3. cbn [datas omap list_omap app] in H2.
      destruct (negb (w_ok w)); [|destruct (_ && _)].
      * unfold meanwhile. cbn [returned length taken take map concat]. rewrite app_nil_r. cbn [datas omap list_omap app]. 
        fold (datas (concat (map brought (w_ops w)))). rewrite H3, H2, H1. done.
      * unfold meanwhile. cbn [returned length taken take map concat]. rewrite app_nil_r. cbn [datas omap list_omap app].
        fold (datas (concat (map brought (w_ops w)))). rewrite H3, H2, H1. done.
      * specialize (IH (w_now w) (foldl q_apply q2 (w_ops w))).
        destruct (get_loop waits cmsWait start (w_now w) (foldl q_apply q2 (w_ops w))) as [[r asked] q3] eqn:E3.
        rewrite IH, H3, H2, H1. 
        assert (returned r (i32 (cms_next cmsWait (now - start) next) :: asked) = S (returned r asked)) as ->.
        { destruct r; [done..|]. cbn [returned length]. destruct asked; [|done]. exfalso.
          destruct waits; cbn [get_loop] in E3; repeat case_match; simplify_eq. }
        unfold meanwhile. cbn [take map concat]. rewrite datas_app. solve_Permutation.
Qed.

Lemma held_Get waits cmsWait now q :
  let '(r, asked, q') := Get waits cmsWait now q in
  datas (taken r) ++ held q' ≡ₚ datas (meanwhile waits (returned r asked)) ++ held q.
Proof.
  unfold Get. destruct (peeked q) as [m|] eqn:E; [|apply held_get_loop].
  unfold meanwhile, held. rewrite E. cbn. done.
Qed.

Lemma get_loop_peeked waits cmsWait start now q :
  peeked (snd (get_loop waits cmsWait start now q)) = peeked q.
Proof.
  assert (forall fuel now q, peeked (snd (trigger fuel now q)) = peeked q) as Ht.
  { clear. induction fuel as [|fuel IH]; intros now q; [done|]. cbn [trigger]. destruct (pq_pop _) as [[t rest]|]; [|done].
    destruct (_ <? _); [done|]. by rewrite IH. }
  assert (forall l q, peeked (snd (pull l q)) = peeked q) as Hp.
  { clear. induction l as [|m l IH]; intros q; [done|]. cbn [pull]. destruct (_ =? _); [|done]. by rewrite IH. }
  assert (forall os q, peeked (foldl q_apply q os) = peeked q) as Ho.
  { clear. induction os as [|o os IH]; intros q; [done|]. cbn [foldl]. rewrite IH.
    destruct o; unfold q_apply, Post, PostAt, DoDelayPost; by destruct (stop q). }
  revert now q. induction waits as [|w waits IH]; intros now q; cbn [get_loop];
    pose proof (Ht (S (length (delayed_messages q))) now q) as H1; unfold trigger_all; destruct (trigger _ now q) as [next q1];
    pose proof (Hp (messages q1) q1) as H2; unfold pull_next; destruct (pull _ q1) as [[m|] q2]; cbn [snd] in *; try congruence;
    destruct (stop q2); cbn [snd]; try congruence.
  pose proof (Ho (w_ops w) q2) as H3. destruct (negb (w_ok w)); [cbn; congruence|]. destruct (_ && _); [cbn; congruence|].
  specialize (IH (w_now w) (foldl q_apply q2 (w_ops w))). destruct (get_loop _ _ _ _ _) as [[r asked] q3]. cbn [snd] in *. congruence.
Qed.

(** A peek keeps what it shows. *)
Lemma held_Peek waits cmsWait now q :
  let '(r, asked, q') := Peek waits cmsWait now q in
  held q' ≡ₚ datas (meanwhile waits (returned r asked)) ++ held q.
Proof.
  unfold Peek. destruct (peeked q) as [m|] eqn:E; [done|]. pose proof (held_Get waits cmsWait now q) as H.
  pose proof (get_loop_peeked waits cmsWait now now q) as Hp. unfold Get in *. rewrite E in *.
  destruct (get_loop waits cmsWait now now q) as [[r asked] q']. cbn [snd] in Hp. destruct r as [m| |]; [|exact H..].
  rewrite <- H. unfold held. cbn [upd_peeked peeked messages delayed_messages q_deleted taken]. rewrite Hp. done.
Qed.

Lemma remove_all keep ms r :
  let r' := foldl (remove_one keep) r ms in
  datas (fst r') ++ q_deleted (snd r') ≡ₚ datas (fst r) ++ q_deleted (snd r) ++ datas ms
  /\ peeked (snd r') = peeked (snd r) /\ messages (snd r') = messages (snd r) /\ delayed_messages (snd r') = delayed_messages (snd r).
Proof.
  revert r. induction ms as [|m ms IH]; intros r; cbn [foldl]; cbn zeta.
  - split_and!; [|done..]. cbn. by rewrite app_nil_r.
  - destruct (IH (remove_one keep r m)) as (H & -> & -> & ->). rewrite H, (datas_cons m ms). clear.
    unfold remove_one. destruct keep; cbn [fst snd]; split_and!; try done.
    + rewrite datas_app. solve_Permutation.
    + rewrite deleted_data. solve_Permutation.
Qed.

Lemma datas_filter (f : Message -> bool) l :
  datas (List.filter f l) ++ datas (List.filter (fun m => negb (f m)) l) ≡ₚ datas l.
Proof.
  induction l as [|m l IH]; [done|]. rewrite (datas_cons m l), <- IH. cbn [List.filter]. destruct (f m); cbn [negb].
  - rewrite (datas_cons m (List.filter f l)). solve_Permutation.
  - rewrite (datas_cons m (List.filter (fun m => negb (f m)) l)). solve_Permutation.
Qed.

Lemma map_filter_msg (f : Message -> bool) l :
  map msg_ (List.filter (fun d => f (msg_ d)) l) = List.filter f (map msg_ l).
Proof. induction l as [|d l IH]; [done|]. cbn. destruct (f (msg_ d)); cbn; by rewrite IH. Qed.

Lemma held_Clear handler id keep q :
  let '(removed, q') := Clear handler id keep q in datas removed ++ held q' ≡ₚ held q.
Proof.
  unfold Clear. set (hit := Match handler id).
  set (r0 := match peeked q with Some m => _ | None => _ end).
  destruct (remove_all keep (List.filter hit (messages q)) r0) as (H1 & P1 & M1 & D1).
  set (r1 := foldl _ r0 _) in *.
  destruct (remove_all keep (map msg_ (List.filter (fun d => hit (msg_ d)) (delayed_messages q))) r1) as (H2 & P2 & M2 & D2).
  set (r2 := foldl _ r1 _) in *. cbn [fst snd].
  assert (datas (fst r0) ++ q_deleted (snd r0) ++ datas (option_list (peeked (snd r0))) ≡ₚ datas (option_list (peeked q)) ++ q_deleted q
    /\ messages (snd r0) = messages q /\ delayed_messages (snd r0) = delayed_messages q) as (H0 & M0 & D0).
  { unfold r0. destruct (peeked q) as [m|] eqn:Ep; [|cbn [fst snd]; rewrite Ep; cbn; by rewrite app_nil_r].
    destruct (hit m); [|cbn [fst snd]; rewrite Ep; split_and!; [cbn; solve_Permutation|done..]].
    unfold remove_one. destruct keep; cbn [fst snd app]; split_and!; try done.
    - cbn. solve_Permutation.
    - rewrite deleted_data. cbn. solve_Permutation. }
  unfold held. cbn [upd_messages upd_delayed peeked messages delayed_messages q_deleted].
  rewrite M2, M1, M0, D2, D1, D0, P2, P1.
  rewrite (map_filter_msg (fun m => negb (hit m))).
  rewrite (map_filter_msg hit) in H2.
  transitivity (datas (fst r2) ++ q_deleted (snd r2) ++ datas (option_list (peeked (snd r0)))
    ++ datas (List.filter (fun m => negb (hit m)) (messages q)) ++ datas (List.filter (fun m => negb (hit m)) (map msg_ (delayed_messages q))));
    [solve_Permutation|].
  rewrite (app_assoc (datas (fst r2))), H2.
  transitivity ((datas (fst r1) ++ q_deleted (snd r1)) ++ datas (option_list (peeked (snd r0)))
    ++ datas (List.filter (fun m => negb (hit m)) (messages q))
    ++ datas (List.filter hit (map msg_ (delayed_messages q))) ++ datas (List.filter (fun m => negb (hit m)) (map msg_ (delayed_messages q))));
    [solve_Permutation|].
  rewrite H1, (datas_filter hit (map msg_ (delayed_messages q))).
  transitivity ((datas (fst r0) ++ q_deleted (snd r0) ++ datas (option_list (peeked (snd r0))))
    ++ (datas (List.filter hit (messages q)) ++ datas (List.filter (fun m => negb (hit m)) (messages q)))
    ++ datas (map msg_ (delayed_messages q))); [solve_Permutation|].
  rewrite H0, datas_filter. solve_Permutation.
Qed.

(** ** Sequences of calls *)

Inductive q_call : Type :=
  | KPost (m : Message)
  | KPostDelayed (now delay_ms : Z) (m : Message)
  | KPostAt (run_at_ms : Z) (m : Message)
  | KGet (waits : list wait) (cmsWait now : Z)
  | KPeek (waits : list wait) (cmsWait now : Z)
  | KClear (handler : option nat) (id : Z) (keep : bool)
  | KQuit
  | KRestart
  | KDestroy.

(** What a call posts, what it gives to its caller, and the queue after it. *)
Definition call (c : q_call) (q : queue) : list Message * list Message * queue :=
  match c with
  | KPost m => ([m], [], Post m q)
  | KPostDelayed now delay m => ([m], [], PostDelayed now delay m q)
  | KPostAt t m => ([m], [], PostAt t m q)
  | KGet waits cmsWait now => let '(r, asked, q) := Get waits cmsWait now q in (meanwhile waits (returned r asked), taken r, q)
  | KPeek waits cmsWait now => let '(r, asked, q) := Peek waits cmsWait now q in (meanwhile waits (returned r asked), [], q)
  | KClear handler id keep => let '(removed, q) := Clear handler id keep q in ([], removed, q)
  | KQuit => ([], [], Quit q)
  | KRestart => ([], [], Restart q)
  | KDestroy => ([], [], DoDestroy q)
  end.

Fixpoint calls (cs : list q_call) (q : queue) : list Message * list Message * queue :=
  match cs with
  | [] => ([], [], q)
  | c :: cs => let '(i, o, q) := call c q in let '(i', o', q) := calls cs q in (i ++ i', o ++ o', q)
  end.

Lemma held_call c q : let '(i, o, q') := call c q in datas o ++ held q' ≡ₚ datas i ++ held q.
Proof.
  destruct c; cbn [call].
  - apply held_Post.
  - apply held_DoDelayPost.
  - apply held_DoDelayPost.
  - pose proof (held_Get waits cmsWait now q) as H. by destruct (Get waits cmsWait now q) as [[r asked] q'].
  - pose proof (held_Peek waits cmsWait now q) as H. by destruct (Peek waits cmsWait now q) as [[r asked] q'].
  - pose proof (held_Clear handler id keep q) as H. by destruct (Clear handler id keep q) as [removed q'].
  - done.
  - done.
  - unfold DoDestroy. pose proof (held_Clear None MQID_ANY false q) as H.
    assert (forall ms r, fst (foldl (remove_one false) r ms) = fst r) as Hr.
    { induction ms as [|m ms IH]; intros r; [done|]. cbn [foldl]. by rewrite IH. }
    assert (fst (Clear None MQID_ANY false q) = []) as E.
    { unfold Clear. cbn [fst]. rewrite !Hr. destruct (peeked q); [|done]. by destruct (Match _ _ _). }
    destruct (Clear None MQID_ANY false q) as [removed q']. cbn [fst snd] in *. by rewrite E in H.
Qed.

Lemma held_calls cs q : let '(i, o, q') := calls cs q in datas o ++ held q' ≡ₚ datas i ++ held q.
Proof.
  revert q. induction cs as [|c cs IH]; intros q; [by cbn|]. cbn [calls]. pose proof (held_call c q) as H1.
  destruct (call c q) as [[i o] q1]. specialize (IH q1). destruct (calls cs q1) as [[i' o'] q2].
  rewrite !datas_app. transitivity (datas o ++ datas o' ++ held q2); [solve_Permutation|]. rewrite IH.
  transitivity (datas i' ++ datas o ++ held q1); [solve_Permutation|]. rewrite H1. solve_Permutation.
Qed.

Lemma destroy_empties q : held (DoDestroy q) = q_deleted (DoDestroy q).
Proof.
  assert (forall m, Match None MQID_ANY m = true) as Hm.
  { intros m. unfold Match. rewrite Z.eqb_refl. rewrite bool_decide_eq_true_2 by done. reflexivity. }
  assert (forall A (f : A -> bool) l, (forall x, f x = false) -> List.filter f l = []) as Hf.
  { intros A f l H. induction l as [|x l IH]; [done|]. cbn. by rewrite H. }
  unfold DoDestroy, Clear. cbn [snd]. unfold held. cbn [upd_messages upd_delayed peeked messages delayed_messages q_deleted].
  rewrite (Hf _ (fun m => negb (Match None MQID_ANY m))) by (intros x; by rewrite Hm).
  rewrite (Hf _ (fun d => negb (Match None MQID_ANY (msg_ d)))) by (intros x; by rewrite Hm). cbn [map datas omap list_omap app].
  set (r0 := match peeked q with Some m => _ | None => _ end).
  destruct (remove_all false (List.filter (fun m => Match None MQID_ANY m) (messages q)) r0) as (_ & P1 & _ & _).
  set (r1 := foldl _ r0 _) in *.
  destruct (remove_all false (map msg_ (List.filter (fun d => Match None MQID_ANY (msg_ d)) (delayed_messages q))) r1) as (_ & P2 & _ & _).
  rewrite P2, P1. replace (peeked (snd r0)) with (@None Message); [done|].
  unfold r0. destruct (peeked q) as [m|] eqn:E; [|cbn; by rewrite E]. rewrite Hm. unfold remove_one, delete_data. cbn. by destruct (pdata m).
Qed.

(** C36: who owns the data of a message.  In every sequence of posts, takes,
    peeks, removals, stops and restarts, with any posts of other threads while
    the thread waits, the data that were posted are, each once, those of the
    messages that were given away, those of the messages the queue has, and
    those it deleted: nothing is lost, given twice, or deleted after it was
    given.  When the queue is destroyed it has deleted all that was left. *)
Theorem queue_conserves :
  (forall cs, let '(posted, given, q) := calls cs empty_queue in
     datas posted ≡ₚ datas given ++ datas (option_list (peeked q) ++ messages q ++ map msg_ (delayed_messages q)) ++ q_deleted q) /\
  (forall cs, let '(posted, given, q) := calls (cs ++ [KDestroy]) empty_queue in datas posted ≡ₚ datas given ++ q_deleted q).
Proof.
  split; intros cs.
  - pose proof (held_calls cs empty_queue) as H. destruct (calls cs empty_queue) as [[posted given] q].
    unfold held at 2 in H. cbn in H. rewrite app_nil_r in H. rewrite <- H. unfold held. rewrite !datas_app. by rewrite <- !app_assoc.
  - pose proof (held_calls cs empty_queue) as H. revert H.
    assert (forall cs q, calls (cs ++ [KDestroy]) q = let '(i, o, q) := calls cs q in (i, o, DoDestroy q)) as ->.
    { clear. induction cs as [|c cs IH]; intros q; [done|]. cbn [calls app]. destruct (call c q) as [[i o] q1]. rewrite IH.
      by destruct (calls cs q1) as [[i' o'] q2]. }
    destruct (calls cs empty_queue) as [[posted given] q]. intros H. unfold held at 2 in H. cbn in H. rewrite app_nil_r in H.
    rewrite <- H, <- destroy_empties. f_equiv. symmetry.
    pose proof (held_call KDestroy q) as Hd. exact Hd.
Qed.

(** ** The agenda *)

Definition earlier (a b : DelayedMessage) : Prop :=
  run_time_ms a < run_time_ms b \/ (run_time_ms a = run_time_ms b /\ message_number a <= message_number b).

#[export] Instance earlier_dec a b : Decision (earlier a b).
Proof. unfold earlier. apply _. Defined.
#[export] Instance earlier_trans : Transitive earlier.
Proof. intros a b c. unfold earlier. lia. Qed.
#[export] Instance earlier_total : Total earlier.
Proof. intros a b. unfold earlier. lia. Qed.

Definition is_due (now : Z) (d : DelayedMessage) : bool := run_time_ms d <=? now.
Definition wanted (m : Message) : bool := negb (message_id m =? MQID_DISPOSE).

(** What the thread will be given, in order, if the clock stands still: the
    message it peeked at, those posted, and the delayed ones that are due, by
    their time and, at the same time, by the order of their posts. *)
Definition agenda (now : Z) (q : queue) : list Message :=
  option_list (peeked q) ++
  List.filter wanted (messages q ++ map msg_ (merge_sort earlier (List.filter (is_due now) (delayed_messages q)))).

Lemma later_true a b : later a b = true -> earlier b a.
Proof. unfold later, earlier. rewrite orb_true_iff, andb_true_iff, !Z.ltb_lt, Z.eqb_eq. lia. Qed.
Lemma later_false a b : later a b = false -> earlier a b.
Proof.
  unfold later, earlier. rewrite orb_false_iff, andb_false_iff, !Z.ltb_ge, Z.eqb_neq. lia.
Qed.

Lemma pq_pop_top l t rest : pq_pop l = Some (t, rest) -> Forall (earlier t) rest.
Proof.
  revert t rest. induction l as [|d l IH]; intros t rest E; [done|]. cbn in E.
  destruct (pq_pop l) as [[t' l']|] eqn:El; [|by injection E as <- <-].
  specialize (IH _ _ eq_refl). destruct (later d t') eqn:Ed; injection E as <- <-.
  - constructor; [by apply later_true|done].
  - apply later_false in Ed. rewrite (pq_pop_perm _ _ _ El). constructor; [done|].
    eapply Forall_impl; [exact IH|]. intros x Hx. by etransitivity.
Qed.

Lemma pq_pop_none l : pq_pop l = None -> l = [].
Proof. destruct l as [|d l]; [done|]. cbn. destruct (pq_pop l) as [[]|]; [|done]. by destruct (later _ _). Qed.

Definition next_time (now : Z) (l : list DelayedMessage) : Z :=
  match pq_pop l with Some (t, _) => run_time_ms t - now | None => kForever end.

(** The first pass of [Get]. *)
Lemma trigger_spec fuel now q :
  (length (delayed_messages q) < fuel)%nat ->
  exists dl rest, trigger fuel now q
      = (next_time now rest, upd_delayed (fun _ => rest) (upd_messages (fun l => l ++ map msg_ dl) q))
    /\ StronglySorted earlier dl /\ delayed_messages q ≡ₚ dl ++ rest
    /\ Forall (fun d => is_due now d = true) dl /\ Forall (fun d => is_due now d = false) rest.
Proof.
  revert q. induction fuel as [|fuel IH]; intros q Hf; [lia|]. cbn [trigger].
  destruct (pq_pop (delayed_messages q)) as [[t rest]|] eqn:E.
  - pose proof (pq_pop_perm _ _ _ E) as Hp. pose proof (pq_pop_top _ _ _ E) as Ht.
    destruct (Z.ltb_spec now (run_time_ms t)) as [Hlt|Hge].
    + exists [], (delayed_messages q). split_and!; [|constructor|done|constructor|].
      * unfold next_time. rewrite E. unfold upd_delayed, upd_messages. cbn. rewrite app_nil_r. by destruct q.
      * rewrite Hp. unfold is_due. constructor; [lia|]. eapply Forall_impl; [exact Ht|]. intros d Hd. unfold earlier in Hd. lia.
    + set (q1 := upd_delayed _ _). destruct (IH q1) as (dl & rest' & Et & Hs & Hp' & Hd & Hr).
      { cbn. apply Permutation_length in Hp. cbn in Hp. lia. }
      exists (t :: dl), rest'. cbn in Hp'. split_and!; [|constructor; [done|]| |constructor; [unfold is_due; lia|done]|done].
      * rewrite Et. unfold q1, upd_delayed, upd_messages. cbn. by rewrite <- app_assoc.
      * rewrite Hp' in Ht. by apply Forall_app in Ht as [? _].
      * by rewrite Hp, Hp'.
  - apply pq_pop_none in E. exists [], []. rewrite E. split_and!; [|constructor|done|constructor|constructor].
    unfold upd_delayed, upd_messages. cbn. rewrite app_nil_r. destruct q; cbn in *. by subst.
Qed.

Definition nums (q : queue) : list Z := map message_number (delayed_messages q).

Lemma nums_inj l x y :
  NoDup (map message_number l) -> x ∈ l -> y ∈ l -> message_number x = message_number y -> x = y.
Proof.
  intros Hn (i & Hi)%list_elem_of_lookup (j & Hj)%list_elem_of_lookup E.
  assert (i = j) as ->; [|congruence].
  eapply (NoDup_lookup _ i j (message_number x) Hn).
  - change (map message_number l) with (message_number <$> l). by rewrite list_lookup_fmap, Hi.
  - change (map message_number l) with (message_number <$> l). rewrite list_lookup_fmap, Hj, E. done.
Qed.

Lemma filter_all {A} (f : A -> bool) l : Forall (fun x => f x = true) l -> List.filter f l = l.
Proof. induction 1 as [|x l Hx _ IH]; [done|]. cbn. by rewrite Hx, IH. Qed.
Lemma filter_none {A} (f : A -> bool) l : Forall (fun x => f x = false) l -> List.filter f l = [].
Proof. induction 1 as [|x l Hx _ IH]; [done|]. cbn. by rewrite Hx, IH. Qed.

Lemma filter_perm {A} (f : A -> bool) l k : l ≡ₚ k -> List.filter f l ≡ₚ List.filter f k.
Proof.
  induction 1 as [|x l k _ IH|x y l|l1 l2 l3 _ IH1 _ IH2]; cbn; [done| | |by rewrite IH1].
  - destruct (f x); [by constructor|done].
  - destruct (f x), (f y); try done. constructor.
Qed.

Lemma sorted_due now q dl rest :
  NoDup (nums q) -> delayed_messages q ≡ₚ dl ++ rest -> StronglySorted earlier dl ->
  Forall (fun d => is_due now d = true) dl -> Forall (fun d => is_due now d = false) rest ->
  dl = merge_sort earlier (List.filter (is_due now) (delayed_messages q)).
Proof.
  intros Hn Hp Hs Hd Hr.
  assert (dl ≡ₚ List.filter (is_due now) (delayed_messages q)) as E.
  { rewrite (filter_perm _ _ _ Hp), List.filter_app, (filter_all _ dl), (filter_none _ rest) by done. by rewrite app_nil_r. }
  apply (StronglySorted_unique_strong earlier).
  - intros x y Hx Hy Hxy Hyx. rewrite merge_sort_Permutation, <- E in Hy.
    eapply nums_inj; [exact Hn|rewrite Hp; set_solver|rewrite Hp; set_solver|]. unfold earlier in *. lia.
  - done.
  - apply StronglySorted_merge_sort; apply _.
  - by rewrite merge_sort_Permutation.
Qed.

Lemma pull_wanted l q :
  match List.filter wanted l with
  | [] => exists q', pull l q = (None, q') /\ messages q' = [] /\ delayed_messages q' = delayed_messages q
      /\ peeked q' = peeked q /\ stop q' = stop q
  | m :: rest => exists q', pull l q = (Some m, q') /\ List.filter wanted (messages q') = rest
      /\ delayed_messages q' = delayed_messages q /\ peeked q' = peeked q /\ stop q' = stop q
  end.
Proof.
  revert q. induction l as [|m l IH]; intros q; cbn [pull List.filter].
  - eexists. by split_and!.
  - unfold wanted at 1 2. destruct (message_id m =? MQID_DISPOSE); cbn [negb].
    + specialize (IH (delete_data m q)). unfold delete_data in *. by destruct (List.filter wanted l), (pdata m).
    + eexists. by split_and!.
Qed.

(** One turn of the loop of [Get], up to its wait. *)
Definition tail_agenda (now : Z) (q : queue) : list Message := tl (agenda now q).

Lemma agenda_none now q :
  peeked q = None ->
  agenda now q = List.filter wanted (messages q ++ map msg_ (merge_sort earlier (List.filter (is_due now) (delayed_messages q)))).
Proof. intros E. unfold agenda. by rewrite E. Qed.

Lemma first_turn now q :
  NoDup (nums q) -> peeked q = None ->
  exists q1 q2 dl rest, trigger_all now q = (next_time now rest, q1)
    /\ pull_next q1 = (head (agenda now q), q2)
    /\ agenda now q2 = tl (agenda now q) /\ peeked q2 = None /\ stop q2 = stop q
    /\ delayed_messages q2 = rest /\ (agenda now q = [] -> messages q2 = [])
    /\ delayed_messages q ≡ₚ dl ++ rest /\ StronglySorted earlier dl
    /\ Forall (fun d => is_due now d = true) dl /\ Forall (fun d => is_due now d = false) rest
    /\ agenda now q = List.filter wanted (messages q ++ map msg_ dl).
Proof.
  intros Hn Hk. destruct (trigger_spec (S (length (delayed_messages q))) now q) as (dl & rest & Et & Hs & Hp & Hd & Hr); [lia|].
  set (q1 := upd_delayed _ _) in Et. pose proof (sorted_due now q dl rest Hn Hp Hs Hd Hr) as Edl.
  assert (agenda now q = List.filter wanted (messages q1)) as Ea by (rewrite agenda_none by done; by rewrite <- Edl).
  pose proof (pull_wanted (messages q1) q1) as Hpull. rewrite <- Ea in Hpull.
  assert (forall q2, delayed_messages q2 = rest -> peeked q2 = None -> agenda now q2 = List.filter wanted (messages q2)) as Hag.
  { intros q2 E2 Ek. rewrite agenda_none, E2, (filter_none _ rest) by done. by rewrite app_nil_r. }
  destruct (agenda now q) as [|m tail]; destruct Hpull as (q2 & E & Em & E2 & Ek & Est);
    exists q1, q2, dl, rest; cbn [tl head]; split_and!; try done; try by rewrite Ek.
  - rewrite Hag by (done || by rewrite Ek). by rewrite Em.
  - rewrite Hag by (done || by rewrite Ek). by rewrite Em.
Qed.

(** C34: messages are taken in the order of the agenda.  Unless two delayed
    messages have one number, which takes 2^32 posts, [Get] and [Peek] give the first message of the
    agenda without waiting, and the agenda loses it, or keeps it after a peek;
    when the agenda is empty nothing is given before a wait. *)
Theorem get_agenda waits cmsWait now q :
  NoDup (nums q) ->
  match agenda now q with
  | m :: rest =>
      (exists q', Get waits cmsWait now q = (Got m, [], q') /\ agenda now q' = rest) /\
      (exists q', Peek waits cmsWait now q = (Got m, [], q') /\ agenda now q' = m :: rest)
  | [] => fst (fst (Get [] cmsWait now q)) = if stop q then NotGot else Waiting
  end.
Proof.
  intros Hn. destruct (peeked q) as [m|] eqn:Hk.
  - unfold Get, Peek, agenda. rewrite Hk. cbn [option_list app]. split.
    + eexists. split; [done|]. done.
    + exists q. split; [done|]. by rewrite Hk.
  - destruct (first_turn now q Hn Hk) as (q1 & q2 & dl & rest & Et & Ep & Ea & Hk2 & Hs2 & _).
    destruct (agenda now q) as [|m tail] eqn:E; cbn [head tl] in *.
    + unfold Get. rewrite Hk. cbn [get_loop]. rewrite Et, Ep, Hs2. by destruct (stop q).
    + assert (Get waits cmsWait now q = (Got m, [], q2)) as Eg.
      { unfold Get. rewrite Hk. destruct waits; cbn [get_loop]; by rewrite Et, Ep. }
      split; [by exists q2|]. unfold Peek. rewrite Hk, Eg. eexists. split; [done|].
      unfold agenda in *. cbn [upd_peeked peeked messages delayed_messages option_list app]. rewrite Hk2 in Ea. by rewrite <- Ea.
Qed.

(** Two delayed posts for the same time, one for an earlier one, a post. *)
Definition example_queue : queue :=
  let m n := mkMessage (Some 1%nat) n (Some (Z.to_nat n)) in
  Post (m 4) (PostAt 20 (m 3) (PostAt 10 (m 2) (PostAt 20 (m 1) empty_queue))).

Lemma get_agenda_witness :
  map message_id (agenda 20 example_queue) = [4; 2; 1; 3] /\
  exists q', Get [] 0 20 example_queue = (Got (mkMessage (Some 1%nat) 4 (Some 4%nat)), [], q') /\ map message_id (agenda 20 q') = [2; 1; 3].
Proof.
  split; [vm_compute; reflexivity|].
  assert (NoDup (nums example_queue)) as Hn by (apply (bool_decide_unpack _); vm_compute; exact I).
  pose proof (get_agenda [] 0 20 example_queue Hn) as H.
  assert (exists r, agenda 20 example_queue = mkMessage (Some 1%nat) 4 (Some 4%nat) :: r /\ map message_id r = [2; 1; 3]) as (r & E & Er)
    by (eexists; split; [vm_compute; reflexivity|vm_compute; reflexivity]).
  rewrite E in H. destruct H as [(q' & Eg & Ea) _]. exists q'. split; [exact Eg|]. rewrite Ea. exact Er.
Defined.

(** Numbers are distinct until they wrap. *)
Definition numbered (q : queue) : Prop := Forall (fun n => n < delayed_next_num q) (nums q) /\ NoDup (nums q).

Lemma numbered_post t m q :
  numbered q -> 0 <= delayed_next_num q < 2 ^ 32 - 1 -> numbered (DoDelayPost t m q).
Proof.
  intros [Hf Hn] Hb. unfold DoDelayPost. destruct (stop q); [done|].
  unfold numbered, nums. cbn [WakeUpSocketServer upd_next_num upd_delayed delayed_messages delayed_next_num].
  rewrite map_app. cbn [map message_number]. fold (nums q). rewrite u32_id by lia. split.
  - apply Forall_app. split; [|constructor; [lia|constructor]]. eapply Forall_impl; [exact Hf|]. cbn. lia.
  - apply NoDup_app. split_and!; [done| |apply NoDup_singleton].
    intros n Hin ->%list_elem_of_singleton. rewrite Forall_forall in Hf. specialize (Hf _ Hin). lia.
Qed.

(** ** Time *)

(** Waits that last exactly as long as they were asked to, undisturbed. *)
Fixpoint exact (now : Z) (waits : list wait) (asked : list Z) : Prop :=
  match waits, asked with
  | w :: waits, a :: asked => w_ok w = true /\ w_ops w = [] /\ w_now w = now + a /\ exact (w_now w) waits asked
  | _, _ => True
  end.

Definition not_due (now : Z) (q : queue) : nat := length (List.filter (fun d => negb (is_due now d)) (delayed_messages q)).

Lemma next_time_due now l t :
  t < now + next_time now l -> next_time now l <> kForever -> Forall (fun d => is_due t d = false) l.
Proof.
  unfold next_time. destruct (pq_pop l) as [[d rest]|] eqn:E; [|done]. intros Ht _.
  rewrite (pq_pop_perm _ _ _ E). pose proof (pq_pop_top _ _ _ E) as Htop. unfold is_due. constructor; [lia|].
  eapply Forall_impl; [exact Htop|]. intros x Hx. unfold earlier in Hx. lia.
Qed.

Lemma next_time_some now l : next_time now l <> kForever -> exists d rest, pq_pop l = Some (d, rest) /\ next_time now l = run_time_ms d - now.
Proof. unfold next_time. destruct (pq_pop l) as [[d rest]|]; [eauto|done]. Qed.

(** What a turn that finds nothing does to the agenda of later times. *)
Lemma agenda_later now t q q2 dl rest :
  NoDup (nums q) -> peeked q = None -> peeked q2 = None -> now <= t ->
  delayed_messages q ≡ₚ dl ++ rest -> StronglySorted earlier dl ->
  Forall (fun d => is_due now d = true) dl -> Forall (fun d => is_due now d = false) rest ->
  agenda now q = [] -> agenda now q = List.filter wanted (messages q ++ map msg_ dl) ->
  messages q2 = [] -> delayed_messages q2 = rest ->
  agenda t q2 = agenda t q.
Proof.
  intros Hn Hk Hk2 Ht Hp Hs Hd Hr E Ea Em E2. rewrite !agenda_none, Em, E2 by done. cbn [app].
  set (r := List.filter (is_due t) rest).
  assert (merge_sort earlier (List.filter (is_due t) (delayed_messages q)) = dl ++ merge_sort earlier r) as Es.
  { assert (dl ++ merge_sort earlier r ≡ₚ List.filter (is_due t) (delayed_messages q)) as Hperm.
    { rewrite (filter_perm _ _ _ Hp), List.filter_app, (filter_all _ dl); [by rewrite merge_sort_Permutation|].
      eapply Forall_impl; [exact Hd|]. unfold is_due. lia. }
    assert (Forall (fun d => is_due now d = false) (merge_sort earlier r)) as Hr'.
    { rewrite merge_sort_Permutation. apply Forall_forall. intros d Hd'. apply list_elem_of_In, filter_In in Hd' as [Hd' _].
      rewrite Forall_forall in Hr. by apply Hr, list_elem_of_In. }
    symmetry. apply (StronglySorted_unique_strong earlier).
    - intros x y Hx Hy Hxy Hyx. rewrite Hperm in Hx. rewrite merge_sort_Permutation in Hy.
      apply list_elem_of_In, filter_In in Hx as [Hx _]. apply list_elem_of_In, filter_In in Hy as [Hy _].
      eapply nums_inj; [exact Hn|by apply list_elem_of_In..|]. unfold earlier in *. lia.
    - apply StronglySorted_app. split_and!; [|done|apply StronglySorted_merge_sort; apply _].
      intros x y Hx Hy. rewrite Forall_forall in Hd, Hr'. specialize (Hd _ Hx). specialize (Hr' _ Hy).
      unfold is_due, earlier in *. lia.
    - apply StronglySorted_merge_sort; apply _.
    - by rewrite Hperm, merge_sort_Permutation. }
  rewrite Es, map_app, app_assoc, List.filter_app, <- Ea, E. done.
Qed.

(** The time at which [Get] returns: that of the last wait it asked for. *)
Fixpoint end_time (now : Z) (waits : list wait) (asked : list Z) : Z :=
  match waits, asked with
  | w :: waits, _ :: asked => end_time (w_now w) waits asked
  | _, _ => now
  end.

Lemma end_time_nil now waits : end_time now waits [] = now.
Proof. by destruct waits. Qed.

Lemma get_loop_on_time waits cmsWait start now q :
  0 <= cmsWait < 2 ^ 31 -> start <= now -> now <= start + cmsWait -> (now = start \/ now < start + cmsWait) ->
  NoDup (nums q) -> peeked q = None -> stop q = false ->
  (not_due now q < length waits)%nat ->
  let '(r, asked, q') := get_loop waits cmsWait start now q in
  exact now waits asked ->
  let t := end_time now waits asked in
  now <= t <= start + cmsWait /\ (forall t', now <= t' < t -> agenda t' q = []) /\
    match r with Got m => head (agenda t q) = Some m | NotGot => t = start + cmsWait | Waiting => False end.
Proof.
  intros Hc. revert now q. induction waits as [|w waits IH]; intros now q Hs Hn Hlt Hnd Hk Hst Hl; [cbn in Hl; lia|].
  destruct (first_turn now q Hnd Hk) as (q1 & q2 & dl & rest & Et & Ep & Ea & Hk2 & Hst2 & E2 & Em & Hp & Hss & Hd & Hr & Eag).
  cbn [get_loop]. rewrite Et, Ep, Hst2, Hst. destruct (agenda now q) as [|m tail] eqn:E; cbn [head].
  2: { cbv beta iota zeta. intros _. rewrite end_time_nil. split_and!; [lia|lia|intros; lia|]. by rewrite E. }
  specialize (Em eq_refl). rewrite <- E in Eag. set (next := next_time now rest).
  assert (next = kForever \/ 0 < next) as Hnext.
  { destruct (decide (next = kForever)) as [|Hne]; [by left|right].
    destruct (next_time_some _ _ Hne) as (d & rest' & Ed & Ev). unfold next. rewrite Ev.
    rewrite (pq_pop_perm _ _ _ Ed) in Hr. inversion Hr as [|? ? Hd' _]; subst. unfold is_due in Hd'. lia. }
  set (a := cms_next cmsWait (now - start) next).
  assert (0 <= a <= start + cmsWait - now /\ (next <> kForever -> a <= next) /\ (a < start + cmsWait - now -> a = next /\ next <> kForever)) as (Ha1 & Ha2 & Ha3).
  { unfold a, cms_next. destruct (Z.eqb_spec cmsWait kForever) as [Hf|_]; [unfold kForever in Hf; lia|].
    destruct (Z.eqb_spec next kForever) as [Hf|Hf]; cbn [negb andb]; [split_and!; intros; try done; lia|].
    destruct Hnext as [|Hpos]; [done|]. destruct (Z.ltb_spec next (Z.max 0 (cmsWait - (now - start)))); split_and!; intros; try done; lia. }
  assert (i32 a = a) as Ei by (apply i32_id; lia).
  destruct (negb (w_ok w)) eqn:Ew.
  { cbn [exact]. intros (Hok & _). by rewrite Hok in Ew. }
  assert (forall t, now <= t < now + a -> agenda t q = []) as Hquiet.
  { intros t Ht. rewrite <- (agenda_later now t q q2 dl rest) by (done || lia).
    rewrite agenda_none, Em, E2, (filter_none _ rest); [done| |done].
    destruct (decide (next = kForever)) as [Hf|Hne].
    - unfold next, next_time in Hf. destruct (pq_pop rest) as [[d r']|] eqn:Ed; [|by rewrite (pq_pop_none _ Ed)].
      exfalso. assert (0 < run_time_ms d - now); [|unfold kForever in Hf; lia].
      rewrite (pq_pop_perm _ _ _ Ed) in Hr. inversion Hr as [|? ? Hd' _]; subst. unfold is_due in Hd'. lia.
    - apply (next_time_due now); [|done]. specialize (Ha2 Hne). fold next. lia. }
  replace (negb (cmsWait =? kForever)) with true by (symmetry; apply negb_true_iff, Z.eqb_neq; unfold kForever; lia). cbn [andb].
  destruct (Z.leb_spec cmsWait (w_now w - start)) as [Hle|Hgt].
  - cbn [exact]. rewrite Ei. intros (_ & _ & Ewn & _). cbn [end_time]. rewrite end_time_nil, Ewn. split_and!; [lia|lia|exact Hquiet|lia].
  - destruct (get_loop waits cmsWait start (w_now w) (foldl q_apply q2 (w_ops w))) as [[r asked] q3] eqn:Eg.
    cbn [exact]. rewrite Ei. intros (_ & Eo & Ewn & Hex). cbn [end_time]. rewrite Eo in Eg. cbn [foldl] in Eg.
    destruct Ha3 as [Ean Hne]; [lia|]. destruct (next_time_some _ _ Hne) as (d & rest' & Ed & Ev). fold next in Ev.
    specialize (IH (w_now w) q2). rewrite Eg in IH. cbv zeta in IH. destruct IH as (Ht & Hq & Hres); try done; try lia.
    + unfold nums. rewrite E2. unfold nums in Hnd. rewrite (Permutation_map message_number Hp), map_app in Hnd. by apply NoDup_app in Hnd as (_ & _ & ?).
    + by rewrite Hst2.
    + unfold not_due in *. rewrite E2. rewrite (Permutation_length (filter_perm _ _ _ Hp)), List.filter_app, length_app in Hl.
      rewrite (filter_all _ rest) in Hl by (eapply Forall_impl; [exact Hr|]; intros x ->; done).
      rewrite (Permutation_length (filter_perm _ _ _ (pq_pop_perm _ _ _ Ed))). cbn [List.filter].
      replace (is_due (w_now w) d) with true by (symmetry; unfold is_due; apply Z.leb_le; lia). cbn [negb].
      pose proof (Permutation_length (pq_pop_perm _ _ _ Ed)) as Hlen. cbn in Hlen.
      assert (length (List.filter (fun d => negb (is_due (w_now w) d)) rest') <= length rest')%nat by apply filter_length_le.
      cbn in Hl. lia.
    + set (t := end_time (w_now w) waits asked) in *. split; [lia|]. assert (forall t', w_now w <= t' -> agenda t' q2 = agenda t' q) as Hsame.
      { intros t' Ht'. apply (agenda_later now t' q q2 dl rest); done || lia. }
      split.
      * intros t' Ht'. destruct (Z.lt_ge_cases t' (w_now w)) as [Hb|Hb]; [apply Hquiet; lia|].
        rewrite <- Hsame by done. apply Hq. lia.
      * destruct r; [|done..]. rewrite <- Hsame by lia. exact Hres.
Qed.

(** C35: a thread is on time.  [Get] with a timeout, of a queue that is not
    quitting, in waits that last as long as it asks for and that nobody
    disturbs, returns at the first moment the agenda has a message, with that
    message, or when the timeout has passed, with nothing, and there was no
    message before; it asks for a wait at most once for each delayed message
    and once more, and does not wait for ever. *)
Theorem get_on_time waits cmsWait now q :
  0 <= cmsWait < 2 ^ 31 -> NoDup (nums q) -> stop q = false ->
  (length (delayed_messages q) < length waits)%nat ->
  let '(r, asked, q') := Get waits cmsWait now q in
  exact now waits asked ->
  let t := end_time now waits asked in
  now <= t <= now + cmsWait /\ (forall t', now <= t' < t -> agenda t' q = []) /\
    match r with Got m => head (agenda t q) = Some m | NotGot => t = now + cmsWait | Waiting => False end.
Proof.
  intros Hc Hn Hs Hl. unfold Get. destruct (peeked q) as [m|] eqn:Hk.
  - cbv beta iota zeta. intros _. rewrite end_time_nil. split_and!; [lia|lia|intros; lia|]. unfold agenda. by rewrite Hk.
  - apply get_loop_on_time; try done; try lia. unfold not_due.
    pose proof (filter_length_le (fun d => negb (is_due now d)) (delayed_messages q)). lia.
Qed.

Lemma get_on_time_witness :
  let q := PostAt 15 (mkMessage None MQID_DISPOSE None) (PostAt 40 (mkMessage (Some 2%nat) 5 None) empty_queue) in
  let waits := [mkWait true 15 []; mkWait true 40 []; mkWait true 99 []] in
  let more := [mkWait true 15 []; mkWait true 30 []; mkWait true 99 []] in
  fst (Get waits 50 10 q) = (Got (mkMessage (Some 2%nat) 5 None), [5; 25]) /\
  head (agenda (end_time 10 waits [5; 25]) q) = Some (mkMessage (Some 2%nat) 5 None) /\
  fst (Get more 20 10 q) = (NotGot, [5; 15]) /\ end_time 10 more [5; 15] = 30 /\ agenda 29 q = [].
Proof.
  intros q waits more. split; [vm_compute; reflexivity|].
  pose proof (fun ws cms Hc => get_on_time ws cms 10 q Hc ltac:(apply (bool_decide_unpack _); vm_compute; exact I) eq_refl) as H.
  assert (exists q', Get waits 50 10 q = (Got (mkMessage (Some 2%nat) 5 None), [5; 25], q')) as (q' & E) by (eexists; vm_compute; reflexivity).
  assert (exists q', Get more 20 10 q = (NotGot, [5; 15], q')) as (q'' & E') by (eexists; vm_compute; reflexivity).
  pose proof (H waits 50 ltac:(lia) ltac:(vm_compute; lia)) as H1. rewrite E in H1.
  pose proof (H more 20 ltac:(lia) ltac:(vm_compute; lia)) as H2. rewrite E' in H2 |- *.
  destruct H1 as (_ & _ & Hh); [cbn; split_and!; reflexivity || exact I|]. split; [exact Hh|]. split; [reflexivity|].
  destruct H2 as (_ & Hq & Ht); [cbn; split_and!; reflexivity || exact I|]. split; [exact Ht|]. apply Hq. cbn. lia.
Defined.

(** A task to be run after 2^31 milliseconds or more is due at once. *)
Lemma long_delay_due now ms h t q :
  stop q = false -> 2 ^ 31 <= ms < 2 ^ 32 ->
  exists d, delayed_messages (PostDelayedTask now ms h t q) = delayed_messages q ++ [d] /\ is_due now d = true.
Proof.
  intros Hs Hm. unfold PostDelayedTask, PostDelayed, DoDelayPost. rewrite Hs.
  cbn [WakeUpSocketServer upd_next_num upd_delayed delayed_messages]. eexists. split; [done|].
  unfold is_due. cbn [run_time_ms]. apply Z.leb_le.
  assert (i32 ms = ms - 2 ^ 32) as E.
  { unfold i32. replace (ms + 2 ^ 31) with (ms - 2 ^ 31 + 1 * 2 ^ 32) by lia. rewrite Z_mod_plus_full, Z.mod_small by lia. lia. }
  rewrite E, (i32_id (ms - 2 ^ 32)) by lia. lia.
Qed.
