(* ===== verification/Certificates.v ===== *)
(** * Certificates and their expiry (rtc_base/time_utils.cc, ssl_identity.cc,
    openssl_certificate.cc, openssl_identity.cc, rtc_certificate.cc,
    rtc_certificate_generator.cc, server/rtc_server.cpp)

    A certificate says until when it is valid by an ASN.1 time, which the server
    turns into seconds and compares with the clock before every message.  Keys
    and X.509 objects are OpenSSL's: making them is a parameter. *)

From S2P Require Import Prelude State.
Local Open Scope Z_scope.

(** ** Calendar times (time_utils.cc) *)

(** [struct tm], the fields that are used. *)
Record tm : Type := mkTm {
  tm_year : Z;  (* since 1900 *)
  tm_mon : Z;   (* 0 to 11 *)
  tm_mday : Z;  (* 1 to 31 *)
  tm_hour : Z;
  tm_min : Z;
  tm_sec : Z;
}.

Definition mdays : list Z := [31; 28; 31; 30; 31; 30; 31; 31; 30; 31; 30; 31].
Definition cumul_mdays : list Z := [0; 31; 59; 90; 120; 151; 181; 212; 243; 273; 304; 334].

Definition table (l : list Z) (i : Z) : Z := default 0 (l !! Z.to_nat i).

Definition b2z (b : bool) : Z := if b then 1 else 0.

(** [TmToSeconds] *)
Definition TmToSeconds (t : tm) : Z :=
  let year := tm_year t + 1900 in
  let month := tm_mon t in
  let day := tm_mday t - 1 in
  let expiry_in_leap_year :=
    (Z.rem year 4 =? 0) && (negb (Z.rem year 100 =? 0) || (Z.rem year 400 =? 0)) in
  if year <? 1970 then -1
  else if (month <? 0) || (11 <? month) then -1
  else if (day <? 0) || (table mdays month + b2z (expiry_in_leap_year && (month =? 1)) <=? day) then -1
  else if (tm_hour t <? 0) || (23 <? tm_hour t) then -1
  else if (tm_min t <? 0) || (59 <? tm_min t) then -1
  else if (tm_sec t <? 0) || (59 <? tm_sec t) then -1
  else
    let day := day + table cumul_mdays month in
    let day := day + ((Z.quot year 4 - Z.quot 1970 4) - (Z.quot year 100 - Z.quot 1970 100) +
                      (Z.quot year 400 - Z.quot 1970 400)) in
    let day := if expiry_in_leap_year && (month <=? 1) then day - 1 else day in
    ((((year - 1970) * 365 + day) * 24 + tm_hour t) * 60 + tm_min t) * 60 + tm_sec t.

(** ** ASN.1 times (ssl_identity.cc) *)

Definition is_digit (b : byte) : bool := (48 <=? byte_z b) && (byte_z b <=? 57).

(** [strspn(s, "0123456789")] *)
Fixpoint digits_span (s : bytes) : nat :=
  match s with
  | b :: s => if is_digit b then S (digits_span s) else O
  | [] => O
  end.

(** The loop of [ASN1ReadInt], which does not look at how much is left. *)
Fixpoint read_digits (n : nat) (x : Z) (s : bytes) : outcome (Z * bytes) :=
  match n with
  | O => Done (x, s)
  | S n => match s with
           | [] => Undef out_of_bounds
           | b :: s => read_digits n (10 * x + byte_z b - 48) s
           end
  end.

(** [ASN1ReadInt]: the number, the rest and the bytes left ([size_t]). *)
Definition ASN1ReadInt (s : bytes) (bytes_left : Z) (n : nat) : outcome (Z * bytes * Z) :=
  '(x, s) ← read_digits n 0 s;
  Done (x, s, u64 (bytes_left - Z.of_nat n)).

(** [ASN1TimeToSec]; nothing is known of the bytes after [length]. *)
Definition ASN1TimeToSec (s : bytes) (long_format : bool) : outcome Z :=
  let bytes_left := Z.of_nat (length s) in
  if negb (bool_decide (last s = Some x5a)) then Done (-1)
  else if negb (S (digits_span s) =? length s)%nat then Done (-1)
  else if bytes_left <? (if long_format then 11 else 9) then Done (-1)
  else
    '(year, s, bytes_left) ← ASN1ReadInt s bytes_left (if long_format then 4 else 2);
    let year := if long_format then year - 1900 else if year <? 50 then year + 100 else year in
    '(mon, s, bytes_left) ← ASN1ReadInt s bytes_left 2;
    '(mday, s, bytes_left) ← ASN1ReadInt s bytes_left 2;
    '(hour, s, bytes_left) ← ASN1ReadInt s bytes_left 2;
    '(min, s, bytes_left) ← ASN1ReadInt s bytes_left 2;
    '(sec, s, bytes_left) ← ASN1ReadInt s bytes_left 2;
    if negb (bytes_left =? 1) then Done (-1)
    else Done (TmToSeconds (mkTm year (mon - 1) mday hour min sec)).

(** ** Keys (ssl_identity.cc) *)

Inductive ECCurve : Type := EC_NIST_P256 | EC_LAST.

(** [KeyParams]; the type and the union are one. *)
Inductive KeyParams : Type :=
  | KT_RSA (mod_size pub_exp : Z)
  | KT_ECDSA (curve : ECCurve).

Definition kRsaDefaultModSize : Z := 1024.
Definition kRsaDefaultExponent : Z := 0x10001.
Definition kRsaMinModSize : Z := 1024.
Definition kRsaMaxModSize : Z := 8192.

(** [KeyParams()], whose key type is [KT_DEFAULT]. *)
Definition default_KeyParams : KeyParams := KT_ECDSA EC_NIST_P256.

Definition KeyParams_IsValid (k : KeyParams) : bool :=
  match k with
  | KT_RSA mod_size pub_exp => (kRsaMinModSize <=? mod_size) && (mod_size <=? kRsaMaxModSize) && (mod_size <? pub_exp)
  | KT_ECDSA EC_NIST_P256 => true
  | KT_ECDSA EC_LAST => false
  end.

(** ** Certificates *)

(** The type of an [ASN1_TIME]. *)
Inductive asn1_type : Type := V_ASN1_UTCTIME | V_ASN1_GENERALIZEDTIME | V_ASN1_OTHER.

Definition kIdentityName : bytes := str "WebRTC".
Definition kYearInSeconds : Z := 365 * 24 * 60 * 60.
Definition kCertificateWindowInSeconds : Z := -60 * 60 * 24.
Definition kDefaultCertificateLifetimeInSeconds : Z := 60 * 60 * 24 * 30.
Definition k_year_in_ms : Z := 365 * 24 * 3600 * 1000.
Definition kNumMillisecsPerSec : Z := 1000.

(** [SSLIdentityParams] *)
Record SSLIdentityParams : Type := mkSSLIdentityParams {
  common_name : bytes;
  not_before : Z;
  not_after : Z;
  key_params : KeyParams;
}.

Section certificates.
(** The library: a key pair, and a certificate with the time after which it is
    not valid; [None] is a failure. *)
Context {K X : Type}.
Variable key_generate : KeyParams -> option K.
Variable certificate_generate : K -> SSLIdentityParams -> option X.
Variable X509_get_notAfter : X -> asn1_type * bytes.

(** [RTCCertificate] with its identity. *)
Record RTCCertificate : Type := mkRTCCertificate { c_key : K; c_x509 : X }.

(** [OpenSSLIdentity::CreateInternal] *)
Definition CreateInternal (params : SSLIdentityParams) : option RTCCertificate :=
  key_pair ← key_generate (key_params params);
  certificate ← certificate_generate key_pair params;
  Some (mkRTCCertificate key_pair certificate).

(** [OpenSSLIdentity::CreateWithExpiration]; [now] is [time(nullptr)]. *)
Definition CreateWithExpiration (now : Z) (name : bytes) (k : KeyParams) (certificate_lifetime : Z) : option RTCCertificate :=
  let params := mkSSLIdentityParams name (now + kCertificateWindowInSeconds) (now + certificate_lifetime) k in
  if not_after params <? not_before params then None else CreateInternal params.

(** [RTCCertificateGenerator::GenerateCertificate] *)
Definition GenerateCertificate (now : Z) (k : KeyParams) (expires_ms : option Z) : option RTCCertificate :=
  if negb (KeyParams_IsValid k) then None
  else match expires_ms with
       | None => CreateWithExpiration now kIdentityName k kDefaultCertificateLifetimeInSeconds
       | Some expires_ms => CreateWithExpiration now kIdentityName k (Z.min (expires_ms / 1000) kYearInSeconds)
       end.

(** [OpenSSLCertificate::CertificateExpirationTime] *)
Definition CertificateExpirationTime (x : X) : outcome Z :=
  match X509_get_notAfter x with
  | (V_ASN1_UTCTIME, s) => ASN1TimeToSec s false
  | (V_ASN1_GENERALIZEDTIME, s) => ASN1TimeToSec s true
  | (V_ASN1_OTHER, _) => Done (-1)
  end.

Definition Expires (c : RTCCertificate) : outcome Z :=
  expires ← CertificateExpirationTime (c_x509 c);
  Done (if negb (expires =? -1) then u64 (u64 expires * kNumMillisecsPerSec) else 0).

Definition HasExpired (c : RTCCertificate) (now : Z) : outcome bool :=
  expires ← Expires c;
  Done (expires <=? now).

(** *** The server's certificate (server/rtc_server.cpp)

    A certificate is freed with its last reference, and the server holds the
    only one: messages and streams keep plain pointers. *)

Record cert_state : Type := mkCertState {
  cs_certificate : option nat;  (* _certificate *)
  cs_live : gmap nat RTCCertificate;
}.

Definition cert_get (c : nat) (s : cert_state) : outcome RTCCertificate := deref use_after_free (cs_live s !! c).

(** [_certificate = ...]: the old one is released; [c] is the new pointer. *)
Definition cert_assign (c : nat) (new : option RTCCertificate) (s : cert_state) : cert_state :=
  let live := match cs_certificate s with Some old => delete old (cs_live s) | None => cs_live s end in
  match new with
  | Some x => mkCertState (Some c) (<[c := x]> live)
  | None => mkCertState None live
  end.

(** [_gengerate_and_check_certificate]: the result; [c] is where a new
    certificate would be allocated. *)
Definition gengerate_and_check_certificate (now : Z) (c : nat) (s : cert_state) : outcome (Z * cert_state) :=
  expired ← match cs_certificate s with
            | None => Done true
            | Some p => x ← cert_get p s; HasExpired x (u64 (now * 1000))
            end;
  let s := if (expired : bool) then cert_assign c (GenerateCertificate now default_KeyParams (Some k_year_in_ms)) s else s in
  Done (match cs_certificate s with None => -1 | Some _ => 0 end, s).
End certificates.
Arguments RTCCertificate : clear implicits.
Arguments cert_state : clear implicits.
