(* ===== verification/CertTheory.v ===== *)
(** * Certificates: calendar, ASN.1 times and renewal

    The formula for the seconds of a date counts the days of the calendar; ASN.1
    times are read back as printed, and which strings are read past their end;
    when the server renews its certificate, and what becomes of the old one. *)

From S2P Require Import Prelude State Certificates.
Local Open Scope Z_scope.

(** ** The calendar *)

Definition leap (y : Z) : bool := (y mod 4 =? 0) && (negb (y mod 100 =? 0) || (y mod 400 =? 0)).
Definition month_days (y m : Z) : Z := table mdays m + b2z (leap y && (m =? 1)).

(** The days of a number of months of a year, and of years from 1970 on. *)
Fixpoint days_of_months (y : Z) (n : nat) : Z :=
  match n with O => 0 | S n => days_of_months y n + month_days y (Z.of_nat n) end.
Fixpoint days_of_years (n : nat) : Z :=
  match n with O => 0 | S n => days_of_years n + days_of_months (1970 + Z.of_nat n) 12 end.

Definition valid_tm (t : tm) : bool :=
  let y := tm_year t + 1900 in
  (1970 <=? y) && (0 <=? tm_mon t) && (tm_mon t <=? 11) && (1 <=? tm_mday t) && (tm_mday t <=? month_days y (tm_mon t)) &&
  (0 <=? tm_hour t) && (tm_hour t <=? 23) && (0 <=? tm_min t) && (tm_min t <=? 59) && (0 <=? tm_sec t) && (tm_sec t <=? 59).

(** The seconds from 1970-01-01 00:00:00 to a time. *)
Definition calendar_seconds (t : tm) : Z :=
  let y := tm_year t + 1900 in
  let days := days_of_years (Z.to_nat (y - 1970)) + days_of_months y (Z.to_nat (tm_mon t)) + (tm_mday t - 1) in
  days * 86400 + tm_hour t * 3600 + tm_min t * 60 + tm_sec t.

Lemma year_days y : days_of_months y 12 = 365 + b2z (leap y).
Proof. cbn -[Z.modulo leap]. unfold month_days. destruct (leap y); reflexivity. Qed.

Lemma div_step y d : 0 < d -> y / d = (y - 1) / d + b2z (y mod d =? 0).
Proof.
  intros Hd. destruct (Z.eqb_spec (y mod d) 0) as [E|E]; cbn.
  - rewrite (Z.div_mod y d) at 2 by lia. rewrite E.
    replace (d * (y / d) + 0 - 1) with (d - 1 + (y / d - 1) * d) by ring. rewrite Z.div_add, (Z.div_small (d - 1) d) by lia. lia.
  - pose proof (Z.mod_pos_bound y d Hd). rewrite (Z.div_mod y d) at 2 by lia.
    replace (d * (y / d) + y mod d - 1) with (y mod d - 1 + (y / d) * d) by ring. rewrite Z.div_add, (Z.div_small (y mod d - 1) d) by lia. lia.
Qed.

(** Leap days up to a year. *)
Definition leaps (y : Z) : Z := y / 4 - y / 100 + y / 400.

Lemma leaps_step y : leaps y = leaps (y - 1) + b2z (leap y).
Proof.
  unfold leaps. rewrite (div_step y 4), (div_step y 100), (div_step y 400) by lia. unfold leap.
  assert (y mod 100 = 0 -> y mod 4 = 0) by (intros E; apply Z.mod_divide in E as [k ->]; [|lia]; apply Z.mod_divide; [lia|]; exists (25 * k); ring).
  assert (y mod 400 = 0 -> y mod 100 = 0) by (intros E; apply Z.mod_divide in E as [k ->]; [|lia]; apply Z.mod_divide; [lia|]; exists (4 * k); ring).
  destruct (Z.eqb_spec (y mod 4) 0), (Z.eqb_spec (y mod 100) 0), (Z.eqb_spec (y mod 400) 0); cbn; lia.
Qed.

Lemma days_of_years_leaps n : days_of_years n = 365 * Z.of_nat n + leaps (1969 + Z.of_nat n) - leaps 1969.
Proof.
  induction n as [|n IH]; [reflexivity|]. cbn [days_of_years]. rewrite year_days, IH.
  rewrite (leaps_step (1969 + Z.of_nat (S n))). replace (1969 + Z.of_nat (S n) - 1) with (1969 + Z.of_nat n) by lia.
  replace (1969 + Z.of_nat (S n)) with (1970 + Z.of_nat n) by lia. lia.
Qed.

Lemma months_cumul y m : 0 <= m <= 11 ->
  days_of_months y (Z.to_nat m) = table cumul_mdays m + b2z (leap y && (1 <? m)).
Proof.
  intros Hm. assert (E : exists n, (n < 12)%nat /\ m = Z.of_nat n) by (exists (Z.to_nat m); lia). destruct E as (n & Hn & ->). rewrite Nat2Z.id.
  do 12 (destruct n as [|n]; [cbn -[leap]; unfold month_days; destruct (leap y); reflexivity|]). lia.
Qed.

Lemma leap_code y : 0 <= y ->
  (Z.rem y 4 =? 0) && (negb (Z.rem y 100 =? 0) || (Z.rem y 400 =? 0)) = leap y.
Proof. intros Hy. by rewrite !Z.rem_mod_nonneg by lia. Qed.

(** [TmToSeconds] counts the days of the calendar: for every time it gives
    the seconds since 1970-01-01 that summing the lengths of the years, months
    and days before it gives, if all of its fields are in their ranges and the
    year is 1970 or later, and -1 otherwise. *)
Lemma tm_seconds t : TmToSeconds t = if valid_tm t then calendar_seconds t else -1.
Proof.
  destruct t as [y0 m d h mi s]. unfold TmToSeconds, valid_tm, calendar_seconds. cbn [tm_year tm_mon tm_mday tm_hour tm_min tm_sec].
  set (y := y0 + 1900). destruct (Z.ltb_spec y 1970) as [|Hy]; [destruct (Z.leb_spec 1970 y); [lia|reflexivity]|].
  rewrite leap_code by lia. destruct (Z.leb_spec 1970 y); [|lia]. cbn [andb].
  destruct (Z.ltb_spec m 0), (Z.leb_spec 0 m); try lia; [reflexivity|]. destruct (Z.ltb_spec 11 m), (Z.leb_spec m 11); try lia; [reflexivity|]. cbn [orb andb].
  unfold month_days. destruct (Z.ltb_spec (d - 1) 0), (Z.leb_spec 1 d); try lia; [reflexivity|]. cbn [orb andb].
  set (md := table mdays m + b2z (leap y && (m =? 1))).
  destruct (Z.leb_spec md (d - 1)), (Z.leb_spec d md); try lia; [reflexivity|]. cbn [andb].
  destruct (Z.ltb_spec h 0), (Z.leb_spec 0 h); try lia; [reflexivity|]. destruct (Z.ltb_spec 23 h), (Z.leb_spec h 23); try lia; [reflexivity|]. cbn [orb andb].
  destruct (Z.ltb_spec mi 0), (Z.leb_spec 0 mi); try lia; [reflexivity|]. destruct (Z.ltb_spec 59 mi), (Z.leb_spec mi 59); try lia; [reflexivity|]. cbn [orb andb].
  destruct (Z.ltb_spec s 0), (Z.leb_spec 0 s); try lia; [reflexivity|]. destruct (Z.ltb_spec 59 s), (Z.leb_spec s 59); try lia; [reflexivity|]. cbn [orb andb].
  rewrite days_of_years_leaps, Z2Nat.id, months_cumul by lia. rewrite !Z.quot_div_nonneg by lia.
  replace (1969 + (y - 1970)) with (y - 1) by lia.
  pose proof (leaps_step y) as Hl. change (leaps 1969) with (leaps 1970). unfold leaps in *.
  assert (Hb : b2z (leap y && (1 <? m)) = b2z (leap y) - b2z (leap y && (m <=? 1))).
  { destruct (leap y), (Z.ltb_spec 1 m), (Z.leb_spec m 1); cbn; lia. }
  rewrite Hb. destruct (leap y && (m <=? 1)); cbn [b2z]; lia.
Qed.

(** ** ASN.1 times *)

(** A number in decimal, with its width. *)
Fixpoint dec (w : nat) (n : Z) : bytes :=
  match w with O => [] | S w => dec w (n / 10) ++ [z_byte (48 + n mod 10)] end.

(** A time as RFC 5280 prints it: four digits of the year, or two. *)
Definition asn1_print (long_format : bool) (t : tm) : bytes :=
  (if long_format then dec 4 (tm_year t + 1900) else dec 2 (tm_year t mod 100)) ++
  dec 2 (tm_mon t + 1) ++ dec 2 (tm_mday t) ++ dec 2 (tm_hour t) ++ dec 2 (tm_min t) ++ dec 2 (tm_sec t) ++ [x5a].

(** The type and the text of a time: [UTCTime] through 2049. *)
Definition asn1_time (t : tm) : asn1_type * bytes :=
  if tm_year t + 1900 <=? 2049 then (V_ASN1_UTCTIME, asn1_print false t) else (V_ASN1_GENERALIZEDTIME, asn1_print true t).

Lemma digit_byte n : 0 <= n < 10 -> byte_z (z_byte (48 + n)) = 48 + n /\ is_digit (z_byte (48 + n)) = true.
Proof.
  intros Hn. assert (E : byte_z (z_byte (48 + n)) = 48 + n) by (rewrite byte_z_byte; apply Z.mod_small; lia).
  split; [done|]. unfold is_digit. rewrite E, andb_true_iff, !Z.leb_le. lia.
Qed.

Lemma length_dec w n : length (dec w n) = w.
Proof. revert n. induction w as [|w IH]; intros n; [done|]. cbn. rewrite length_app, IH. cbn. lia. Qed.

Lemma dec_digits w n : Forall (fun b => is_digit b = true) (dec w n).
Proof.
  revert n. induction w as [|w IH]; intros n; [constructor|]. cbn. apply Forall_app. split; [apply IH|].
  repeat constructor. apply digit_byte, Z.mod_pos_bound. lia.
Qed.

Lemma read_dec w : forall n x s, 0 <= n < 10 ^ Z.of_nat w -> read_digits w x (dec w n ++ s) = Done (x * 10 ^ Z.of_nat w + n, s).
Proof.
  assert (Hsnoc : forall k x s y b t, read_digits k x s = Done (y, b :: t) -> read_digits (S k) x s = Done (10 * y + byte_z b - 48, t)).
  { induction k as [|k IH]; intros x s y b t E; cbn in E; [by injection E as -> ->|].
    destruct s as [|b0 s]; [done|]. change (read_digits (S (S k)) x (b0 :: s)) with (read_digits (S k) (10 * x + byte_z b0 - 48) s). by apply IH. }
  induction w as [|w IH]; intros n x s Hn; [cbn in *; repeat f_equal; lia|].
  rewrite Nat2Z.inj_succ, Z.pow_succ_r in * by lia.
  assert (Hq : 0 <= n / 10 < 10 ^ Z.of_nat w) by (split; [apply Z.div_pos; lia|apply Z.div_lt_upper_bound; lia]).
  cbn [dec]. rewrite <- app_assoc. rewrite (Hsnoc w x _ (x * 10 ^ Z.of_nat w + n / 10) (z_byte (48 + n mod 10)) s); [|by apply IH].
  destruct (digit_byte (n mod 10)) as [-> _]; [apply Z.mod_pos_bound; lia|]. repeat f_equal.
  pose proof (Z.div_mod n 10 ltac:(lia)). lia.
Qed.

Lemma span_digits ds s : Forall (fun b => is_digit b = true) ds ->
  digits_span (ds ++ s) = (length ds + digits_span s)%nat.
Proof. induction 1 as [|b ds Hb _ IH]; [done|]. cbn. by rewrite Hb, IH. Qed.

Lemma read_field w n s k :
  0 <= n < 10 ^ Z.of_nat w -> 0 <= k - Z.of_nat w -> k < 2 ^ 64 -> ASN1ReadInt (dec w n ++ s) k w = Done (n, s, k - Z.of_nat w).
Proof.
  intros Hn Hk Hk'. unfold ASN1ReadInt. rewrite read_dec by done. cbn. rewrite u64_id by lia. by replace (0 * _ + n) with n by lia.
Qed.

(** What is printed is read. *)
Lemma asn1_print_read (long : bool) t :
  valid_tm t = true -> tm_year t + 1900 <= (if long then 9999 else 2049) ->
  ASN1TimeToSec (asn1_print long t) long = Done (calendar_seconds t).
Proof.
  intros Hv Hy. pose proof (tm_seconds t) as Hc. rewrite Hv in Hc. rewrite <- Hc. clear Hc.
  unfold valid_tm in Hv. rewrite !andb_true_iff, !Z.leb_le in Hv.
  assert (Hm : month_days (tm_year t + 1900) (tm_mon t) <= 99).
  { unfold month_days, b2z. destruct (_ && _); assert (E : exists n, (n < 12)%nat /\ tm_mon t = Z.of_nat n) by (exists (Z.to_nat (tm_mon t)); lia);
      destruct E as (n & Hn & ->); do 12 (destruct n as [|n]; [done|]); lia. }
  set (rest := dec 2 (tm_mon t + 1) ++ dec 2 (tm_mday t) ++ dec 2 (tm_hour t) ++ dec 2 (tm_min t) ++ dec 2 (tm_sec t) ++ [x5a]).
  set (w := if long then 4%nat else 2%nat). set (y := if long then tm_year t + 1900 else tm_year t mod 100).
  assert (Hp : asn1_print long t = dec w y ++ rest) by (unfold asn1_print, w, y; by destruct long).
  assert (Hrest : length rest = 11%nat) by (unfold rest; by rewrite !length_app, !length_dec).
  assert (Hyw : 0 <= y < 10 ^ Z.of_nat w).
  { unfold y, w. destruct long; cbn; [lia|]. apply Z.mod_pos_bound. lia. }
  unfold ASN1TimeToSec. rewrite Hp, length_app, length_dec, Hrest.
  assert (Hl : last (dec w y ++ rest) = Some x5a).
  { unfold rest. rewrite !app_assoc. apply last_snoc. }
  rewrite Hl, bool_decide_true by done. cbn [negb].
  assert (Hs : digits_span (dec w y ++ rest) = (w + 10)%nat).
  { unfold rest. rewrite !span_digits by apply dec_digits. rewrite !length_dec. cbn. lia. }
  rewrite Hs. replace (S (w + 10)) with (w + 11)%nat by lia. rewrite Nat.eqb_refl. cbn [negb].
  assert (Hlt : (Z.of_nat (w + 11) <? (if long then 11 else 9)) = false) by (unfold w; by destruct long). rewrite Hlt.
  assert (Hw : Z.of_nat w = 2 \/ Z.of_nat w = 4) by (unfold w; destruct long; cbn; lia).
  change (if long then 4%nat else 2%nat) with w. rewrite read_field by lia. cbn [mbind outcome_bind].
  unfold rest. rewrite !read_field by (change (10 ^ Z.of_nat 2) with 100; lia). cbn [mbind outcome_bind].
  rewrite read_field by (change (10 ^ Z.of_nat 2) with 100; lia). cbn [mbind outcome_bind].
  rewrite read_field by (change (10 ^ Z.of_nat 2) with 100; lia). cbn [mbind outcome_bind].
  rewrite read_field by (change (10 ^ Z.of_nat 2) with 100; lia). cbn [mbind outcome_bind].
  rewrite read_field by (change (10 ^ Z.of_nat 2) with 100; lia). cbn [mbind outcome_bind].
  replace (Z.of_nat (w + 11) - Z.of_nat w - Z.of_nat 2 - Z.of_nat 2 - Z.of_nat 2 - Z.of_nat 2 - Z.of_nat 2) with 1 by lia.
  cbn [Z.eqb Pos.eqb negb]. f_equal.
  assert (Hyear : (if long then y - 1900 else if y <? 50 then y + 100 else y) = tm_year t).
  { unfold y. destruct long; [lia|]. pose proof (Z.div_mod (tm_year t) 100 ltac:(lia)) as Hd. pose proof (Z.mod_pos_bound (tm_year t) 100 ltac:(lia)).
    destruct (Z.ltb_spec (tm_year t mod 100) 50); assert (tm_year t / 100 = 0 \/ tm_year t / 100 = 1) as [E|E] by lia; rewrite E in Hd; lia. }
  rewrite Hyear. replace (tm_mon t + 1 - 1) with (tm_mon t) by lia. by destruct t.
Qed.

Lemma read_digits_total n : forall x s,
  (exists y, (n <= length s)%nat /\ read_digits n x s = Done (y, drop n s)) \/
  ((length s < n)%nat /\ read_digits n x s = Undef out_of_bounds).
Proof.
  induction n as [|n IH]; intros x s; [left; exists x; split; [lia|done]|]. destruct s as [|b s]; [right; cbn; split; [lia|done]|].
  cbn. destruct (IH (10 * x + byte_z b - 48) s) as [(y & Hl & E)|[Hl E]]; [left; exists y|right]; (split; [lia|done]).
Qed.

Lemma read_int_total n s k :
  (exists y, (n <= length s)%nat /\ ASN1ReadInt s k n = Done (y, drop n s, u64 (k - Z.of_nat n))) \/
  ((length s < n)%nat /\ ASN1ReadInt s k n = Undef out_of_bounds).
Proof.
  unfold ASN1ReadInt. destruct (read_digits_total n 0 s) as [(y & Hl & ->)|[Hl ->]]; [left; by exists y|by right].
Qed.

(** The fields of a time take fourteen characters, or twelve. *)
Definition field_chars (long_format : bool) : nat := if long_format then 14 else 12.

(** The strings that pass the checks and are too short for the fields. *)
Definition overread (s : bytes) (long_format : bool) : bool :=
  bool_decide (last s = Some x5a) && (S (digits_span s) =? length s)%nat &&
  ((if long_format then 11 else 9) <=? Z.of_nat (length s)) && (length s <? field_chars long_format)%nat.

(** One field is read, or the string is too short. *)
Ltac step_read n Hl := match goal with |- context [ASN1ReadInt ?s ?k n] =>
  let y := fresh "y" in let E := fresh "E" in
  destruct (read_int_total n s k) as [(y & Hl & E)|[Hl E]]; rewrite E; cbn [mbind outcome_bind] end.

Lemma asn1_time_reads s long :
  if overread s long then ASN1TimeToSec s long = Undef out_of_bounds else exists z, ASN1TimeToSec s long = Done z.
Proof.
  unfold overread, ASN1TimeToSec. destruct (bool_decide _); cbn [negb andb]; [|by eexists].
  destruct (S (digits_span s) =? length s)%nat; cbn [negb andb]; [|by eexists].
  destruct (Z.ltb_spec (Z.of_nat (length s)) (if long then 11 else 9)) as [Hlt|Hge].
  { destruct (Z.leb_spec (if long then 11 else 9) (Z.of_nat (length s))); [lia|]. cbn. by eexists. }
  destruct (Z.leb_spec (if long then 11 else 9) (Z.of_nat (length s))); [|lia]. cbn [andb].
  set (w := if long then 4%nat else 2%nat). assert (Hw : field_chars long = (w + 10)%nat) by (unfold w; by destruct long). rewrite Hw.
  rewrite ?length_drop.
  step_read w Hl0; [|destruct (Nat.ltb_spec (length s) (w + 10)); [done|lia]].
  step_read 2%nat Hl1; rewrite ?length_drop in Hl1; [|destruct (Nat.ltb_spec (length s) (w + 10)); [done|lia]].
  step_read 2%nat Hl2; rewrite ?length_drop in Hl2; [|destruct (Nat.ltb_spec (length s) (w + 10)); [done|lia]].
  step_read 2%nat Hl3; rewrite ?length_drop in Hl3; [|destruct (Nat.ltb_spec (length s) (w + 10)); [done|lia]].
  step_read 2%nat Hl4; rewrite ?length_drop in Hl4; [|destruct (Nat.ltb_spec (length s) (w + 10)); [done|lia]].
  step_read 2%nat Hl5; rewrite ?length_drop in Hl5; [|destruct (Nat.ltb_spec (length s) (w + 10)); [done|lia]].
  destruct (Nat.ltb_spec (length s) (w + 10)); [lia|]. destruct (negb _); by eexists.
Qed.

(** C21: ASN.1 times.  The text of a valid time, with a year of four digits or,
    through 2049, of two, is read as the seconds of the calendar.  Every other
    string gives a result as well, except those that have enough characters for
    the length check and not enough for the fields: a time without seconds, or
    without minutes, which X.509 forbids but ASN.1 allows, is read past its
    end. *)
Theorem asn1_time_read :
  (forall (long : bool) t, valid_tm t = true -> tm_year t + 1900 <= (if long then 9999 else 2049) ->
     ASN1TimeToSec (asn1_print long t) long = Done (calendar_seconds t)) /\
  (forall s long, overread s long = false -> exists z, ASN1TimeToSec s long = Done z) /\
  (forall s long, overread s long = true -> ASN1TimeToSec s long = Undef out_of_bounds) /\
  overread (str "202501010000Z") true = true /\ overread (str "2501010000Z") false = true.
Proof.
  split; [apply asn1_print_read|]. split; [|split; [|done]]; intros s long Ho; pose proof (asn1_time_reads s long) as H; by rewrite Ho in H.
Qed.

(** ** The server's certificate *)

Section renewal.
Context {K X : Type}.
Variable key_generate : KeyParams -> option K.
Variable certificate_generate : K -> SSLIdentityParams -> option X.
Variable X509_get_notAfter : X -> asn1_type * bytes.

(** [X509_time_adj] stores the time it is given as RFC 5280 has it. *)
Hypothesis X509_time_adj : forall k params x, certificate_generate k params = Some x ->
  0 <= not_after params < 253402300800 ->
  exists t, valid_tm t = true /\ tm_year t + 1900 <= 9999 /\ calendar_seconds t = not_after params /\ X509_get_notAfter x = asn1_time t.

Notation GenerateCertificate := (GenerateCertificate key_generate certificate_generate).
Notation HasExpired := (HasExpired X509_get_notAfter).
Notation check := (gengerate_and_check_certificate key_generate certificate_generate X509_get_notAfter).

(** Through the year 9998. *)
Definition time_ok (now : Z) : Prop := 0 <= now < 253402300800 - kYearInSeconds.

Lemma generated_expires now c : time_ok now ->
  GenerateCertificate now default_KeyParams (Some k_year_in_ms) = Some c -> Expires X509_get_notAfter c = Done ((now + kYearInSeconds) * 1000).
Proof.
  intros Hnow E. unfold time_ok in Hnow. change kYearInSeconds with 31536000 in *.
  cbn -[CreateWithExpiration k_year_in_ms] in E. change (Z.min _ _) with 31536000 in E.
  unfold CreateWithExpiration in E. cbn [not_after not_before] in E. destruct (_ <? _) eqn:El; [done|]. unfold CreateInternal in E.
  apply bind_Some in E as (k & _ & E). apply bind_Some in E as (x & Ex & [= <-]).
  destruct (X509_time_adj _ _ _ Ex) as (t & Hv & Hy & Ht & Ha); [cbn; lia|]. cbn in Ht.
  assert (Hc : CertificateExpirationTime X509_get_notAfter x = Done (now + 31536000)).
  { unfold CertificateExpirationTime. rewrite Ha. unfold asn1_time. destruct (Z.leb_spec (tm_year t + 1900) 2049); rewrite asn1_print_read by done; by rewrite Ht. }
  unfold Expires. cbn [c_x509]. rewrite Hc. cbn. destruct (Z.eqb_spec (now + 31536000) (-1)); [lia|]. cbn. unfold kNumMillisecsPerSec.
  by rewrite (u64_id (now + 31536000)), u64_id by lia.
Qed.

(** The server has a certificate made at a time, or none; nothing else lives. *)
Definition holds (s : cert_state K X) (made : option Z) : Prop :=
  match made with
  | None => s = mkCertState None ∅
  | Some t => time_ok t /\ exists c x, GenerateCertificate t default_KeyParams (Some k_year_in_ms) = Some x /\ s = mkCertState (Some c) {[c := x]}
  end.

Definition stale (made : option Z) (now : Z) : bool :=
  match made with None => true | Some t => t + kYearInSeconds <=? now end.

(** C19: When the certificate is renewed.  The server makes a certificate when it
    has none and when the year of the one it has is over, and keeps it
    otherwise, so that after a check that succeeds it holds one whose time has
    not passed.  A renewal frees the old certificate at once, to which messages
    and streams keep plain pointers: using it afterwards is a use after free.
    When a renewal fails the old one is gone as well. *)
Theorem certificate_renewal s made now c :
  holds s made -> time_ok now -> cs_live s !! c = None ->
  exists r s' made', check now c s = Done (r, s') /\ holds s' made' /\
    (stale made now = false -> r = 0 /\ s' = s /\ made' = made) /\
    (stale made now = true ->
       (forall old, cs_certificate s = Some old -> cert_get old s' = Undef use_after_free) /\
       (r = 0 /\ made' = Some now /\ cs_certificate s' = Some c \/
        r = -1 /\ made' = None /\ GenerateCertificate now default_KeyParams (Some k_year_in_ms) = None)) /\
    (r = 0 -> stale made' now = false).
Proof.
  intros Hs Hnow Hc. set (gen := GenerateCertificate now default_KeyParams (Some k_year_in_ms)).
  assert (Hexp : match cs_certificate s with None => Done true | Some p => x ← cert_get p s; HasExpired x (u64 (now * 1000)) end = Done (stale made now)).
  { destruct made as [t|]; cbn in Hs; [|by rewrite Hs]. destruct Hs as (Ht & p & x & Hx & ->). cbn [cs_certificate]. unfold cert_get. cbn [cs_live].
    rewrite lookup_singleton_eq. cbn [deref mbind outcome_bind]. unfold HasExpired. rewrite (generated_expires t x Ht Hx). cbn [mbind outcome_bind]. f_equal.
    unfold time_ok, kYearInSeconds in *. rewrite u64_id by lia. cbn [stale]. unfold kYearInSeconds.
    destruct (Z.leb_spec ((t + 365 * 24 * 60 * 60) * 1000) (now * 1000)), (Z.leb_spec (t + 365 * 24 * 60 * 60) now); lia. }
  unfold gengerate_and_check_certificate. rewrite Hexp. cbn [mbind outcome_bind]. destruct (stale made now) eqn:Est.
  - assert (Hlive : match cs_certificate s with Some old => delete old (cs_live s) | None => cs_live s end = ∅).
    { destruct made as [t|]; cbn in Hs; [|by rewrite Hs]. destruct Hs as (_ & p & x & _ & ->). cbn. apply delete_singleton_eq. }
    assert (Hold : forall old (live' : gmap nat (RTCCertificate K X)), cs_certificate s = Some old -> (live' = ∅ \/ exists x, live' = {[c := x]}) -> live' !! old = None).
    { intros old live' Ho [->|[x ->]]; [done|]. apply lookup_singleton_ne. intros <-.
      destruct made as [t|]; cbn in Hs; [|by rewrite Hs in Ho]. destruct Hs as (_ & p & x' & _ & ->). cbn in Ho, Hc. injection Ho as ->. by rewrite lookup_singleton_eq in Hc. }
    fold gen. unfold cert_assign. rewrite Hlive. destruct gen as [x|] eqn:Eg.
    + exists 0, (mkCertState (Some c) {[c := x]}), (Some now). split; [done|]. split; [split; [done|]; by exists c, x|]. split; [done|]. split.
      * intros _. split; [|by left]. intros old Ho. unfold cert_get. cbn [cs_live]. rewrite (Hold old); [done|done|by right; exists x].
      * intros _. cbn. unfold kYearInSeconds. destruct (Z.leb_spec (now + 365 * 24 * 60 * 60) now); [lia|done].
    + exists (-1), (mkCertState None ∅), None. split; [done|]. split; [done|]. split; [done|]. split; [|done].
      intros _. split; [|by right]. intros old Ho. unfold cert_get. cbn [cs_live]. rewrite (Hold old); [done|done|by left].
  - exists 0, s, made. destruct made as [t|]; [|done]. pose proof Hs as (_ & p & x & _ & ->). cbn [cs_certificate].
    split; [done|]. split; [done|]. split; [done|]. split; [congruence|done].
Qed.
End renewal.

(** ** An example library

    Certificates are the time they end at, and the time is printed by walking
    through the calendar. *)

Fixpoint civil_year (fuel : nat) (y d : Z) : Z * Z :=
  match fuel with
  | O => (y, d)
  | S fuel => let n := 365 + b2z (leap y) in if d <? n then (y, d) else civil_year fuel (y + 1) (d - n)
  end.

Fixpoint civil_month (fuel : nat) (y m d : Z) : Z * Z :=
  match fuel with
  | O => (m, d)
  | S fuel => if d <? month_days y m then (m, d) else civil_month fuel y (m + 1) (d - month_days y m)
  end.

(** From 1970 through 9999. *)
Definition years : nat := Z.to_nat 8030.

(** The time of a number of seconds, through the year 9999. *)
Definition civil (secs : Z) : tm :=
  let '(y, d) := civil_year years 1970 (secs / 86400) in
  let '(m, d) := civil_month 12 y 0 d in
  let s := secs mod 86400 in
  mkTm (y - 1900) m (d + 1) (s / 3600) (s mod 3600 / 60) (s mod 60).

Lemma civil_year_spec fuel : forall k d, 0 <= d ->
  days_of_years k + d < days_of_years (k + fuel) ->
  exists k' d', civil_year fuel (1970 + Z.of_nat k) d = (1970 + Z.of_nat k', d') /\ (k' < k + fuel)%nat /\
    days_of_years k' + d' = days_of_years k + d /\ 0 <= d' < 365 + b2z (leap (1970 + Z.of_nat k')).
Proof.
  induction fuel as [|fuel IH]; intros k d Hd Hlt; [rewrite Nat.add_0_r in Hlt; lia|]. cbn [civil_year].
  destruct (Z.ltb_spec d (365 + b2z (leap (1970 + Z.of_nat k)))) as [Hn|Hn]; [exists k, d; split; [done|split; [lia|done]]|].
  assert (Hs : days_of_years (S k) = days_of_years k + (365 + b2z (leap (1970 + Z.of_nat k)))) by (cbn [days_of_years]; by rewrite year_days).
  destruct (IH (S k) (d - (365 + b2z (leap (1970 + Z.of_nat k))))) as (k' & d' & E & Hk & Hsum & Hr); [lia| |].
  - replace (S k + fuel)%nat with (k + S fuel)%nat by lia. lia.
  - exists k', d'. replace (1970 + Z.of_nat k + 1) with (1970 + Z.of_nat (S k)) by lia. rewrite E. split; [done|]. split; [lia|]. split; [lia|done].
Qed.

Lemma civil_month_spec y fuel : forall k d, 0 <= d ->
  days_of_months y k + d < days_of_months y (k + fuel) ->
  exists k' d', civil_month fuel y (Z.of_nat k) d = (Z.of_nat k', d') /\ (k' < k + fuel)%nat /\
    days_of_months y k' + d' = days_of_months y k + d /\ 0 <= d' < month_days y (Z.of_nat k').
Proof.
  induction fuel as [|fuel IH]; intros k d Hd Hlt; [rewrite Nat.add_0_r in Hlt; lia|]. cbn [civil_month].
  destruct (Z.ltb_spec d (month_days y (Z.of_nat k))) as [Hn|Hn]; [exists k, d; split; [done|split; [lia|done]]|].
  destruct (IH (S k) (d - month_days y (Z.of_nat k))) as (k' & d' & E & Hk & Hsum & Hr); [lia| |].
  - replace (S k + fuel)%nat with (k + S fuel)%nat by lia. cbn [days_of_months]. lia.
  - exists k', d'. replace (Z.of_nat k + 1) with (Z.of_nat (S k)) by lia. rewrite E. split; [done|]. split; [lia|]. cbn [days_of_months] in Hsum. split; [lia|done].
Qed.

Lemma days_9999 : days_of_years years = 2932897.
Proof. rewrite days_of_years_leaps. unfold years. rewrite Z2Nat.id by lia. reflexivity. Qed.

Lemma civil_spec secs : 0 <= secs < 253402300800 ->
  valid_tm (civil secs) = true /\ tm_year (civil secs) + 1900 <= 9999 /\ calendar_seconds (civil secs) = secs.
Proof.
  intros Hs. pose proof (Z.div_mod secs 86400 ltac:(lia)) as Hdm. pose proof (Z.mod_pos_bound secs 86400 ltac:(lia)) as Hm.
  unfold civil. destruct (civil_year_spec years 0 (secs / 86400)) as (k & d & E & Hk & Hsum & Hr); [lia|change (0 + years)%nat with years; rewrite days_9999; cbn [days_of_years]; lia|].
  change (1970 + Z.of_nat 0) with 1970 in E. rewrite E. set (y := 1970 + Z.of_nat k) in *.
  destruct (civil_month_spec y 12 0 d) as (j & e & E' & Hj & Hsum' & He); [lia|change (0 + 12)%nat with 12%nat; rewrite year_days; cbn [days_of_months]; lia|].
  change (Z.of_nat 0) with 0 in E'. rewrite E'. set (s := secs mod 86400) in *.
  assert (Hd : 0 <= s / 3600 < 24 /\ 0 <= s mod 3600 / 60 < 60 /\ 0 <= s mod 60 < 60 /\ s = s / 3600 * 3600 + s mod 3600 / 60 * 60 + s mod 60).
  { clear -Hm. Z.to_euclidean_division_equations. lia. }
  unfold valid_tm, calendar_seconds. cbn [tm_year tm_mon tm_mday tm_hour tm_min tm_sec].
  replace (y - 1900 + 1900) with y by lia. rewrite !andb_true_iff, !Z.leb_le. split; [lia|]. split; [unfold y, years in *; lia|].
  replace (Z.to_nat (y - 1970)) with k by lia. rewrite Nat2Z.id. cbn [days_of_years days_of_months] in Hsum, Hsum'. lia.
Qed.

Definition toy_keys (_ : KeyParams) : option () := Some ().
Definition toy_certificate (_ : ()) (p : SSLIdentityParams) : option Z := Some (not_after p).
Definition toy_notAfter (x : Z) : asn1_type * bytes := asn1_time (civil x).

(** A certificate of 2025-01-01, a year and a minute later. *)
Lemma certificate_renewal_witness :
  let s := mkCertState (Some 1%nat) {[1%nat := mkRTCCertificate () 1767225600]} in
  exists r s', gengerate_and_check_certificate toy_keys toy_certificate toy_notAfter 1767225660 2 s = Done (r, s') /\ r = 0 /\
    cs_certificate s' = Some 2%nat /\ cert_get 1 s' = Undef use_after_free.
Proof.
  intros s.
  assert (Hlaw : forall k params x, toy_certificate k params = Some x -> 0 <= not_after params < 253402300800 ->
    exists t, valid_tm t = true /\ tm_year t + 1900 <= 9999 /\ calendar_seconds t = not_after params /\ toy_notAfter x = asn1_time t).
  { intros k p x [= <-] Hp. destruct (civil_spec (not_after p) Hp) as (H1 & H2 & H3). by exists (civil (not_after p)). }
  assert (Hs : holds toy_keys toy_certificate s (Some 1735689600)).
  { split; [unfold time_ok, kYearInSeconds; lia|]. by exists 1%nat, (mkRTCCertificate () 1767225600). }
  assert (Hn : time_ok 1767225660) by (unfold time_ok, kYearInSeconds; lia).
  destruct (certificate_renewal toy_keys toy_certificate toy_notAfter Hlaw s (Some 1735689600) 1767225660 2 Hs Hn eq_refl)
    as (r & s' & made' & E & _ & _ & Hst & _).
  destruct (Hst eq_refl) as [Hf [(-> & _ & Hc)|(_ & _ & Hg)]]; [|discriminate Hg].
  exists 0, s'. split; [exact E|]. split; [reflexivity|]. split; [exact Hc|]. exact (Hf 1%nat eq_refl).
Defined.

Example toy_expiry : toy_notAfter 1767225600 = (V_ASN1_UTCTIME, str "260101000000Z").
Proof. vm_compute. reflexivity. Qed.
