(* ===== verification/SslStream.v ===== *)
(** * The DTLS engine (rtc_base/openssl_stream_adapter.cc, openssl_identity.cc,
    openssl_certificate.cc, openssl_digest.cc)

    The adapter turns the stream of datagrams below it (Dtls) into one that is
    open once the peer's certificate has the announced digest.  OpenSSL is the
    class [OpenSSL]: its objects are opaque, and a call that may call back, to
    read or write datagrams or to have a certificate judged, is a tree of those
    callbacks ([ssl_call]).  The adapter schedules its retransmission timer and
    its posted events on the [rtc::Thread] that made it, if there is one. *)

From S2P Require Import Prelude State Dtls.
Local Open Scope Z_scope.

(** ** The stream below *)

Class StreamI (D : Type) : Type := {
  si_state : D -> StreamState;
  si_read : nat -> St D (StreamResult * bytes);
  si_write : bytes -> St D (StreamResult * nat);
  si_close : St D ();
}.

(** The stream of a DTLS transport. *)
#[export] Instance channel_stream `{Srtp.SrtpLib} `{DtlsEnv} : StreamI media := {|
  si_state := fun m => from_option sc_state SS_CLOSED (d_downward m);
  si_read := stream_read;
  si_write := fun p => r ← stream_write p; mret (r, length p);
  si_close := stream_close;
|}.

Definition SE_WRITE : Z := 4.

(** ** OpenSSL *)

(** A call that returns an [R]: what it does with its BIO and its verification
    callback until then.  A read that fails says whether to retry. *)
Inductive ssl_call (R : Type) : Type :=
  | SslRet (r : R)
  | BioRead (size : nat) (k : option bytes -> bool -> ssl_call R)
  | BioWrite (data : bytes) (k : option nat -> bool -> ssl_call R)
  | CertVerify (cert : Z) (k : bool -> ssl_call R).
Arguments SslRet {R} _.
Arguments BioRead {R} _ _.
Arguments BioWrite {R} _ _.
Arguments CertVerify {R} _ _.

Inductive SSLMode : Type := SSL_MODE_TLS | SSL_MODE_DTLS.
Inductive SSLRole : Type := SSL_CLIENT | SSL_SERVER.

#[export] Instance SSLMode_eq_dec : EqDecision SSLMode.
Proof. solve_decision. Defined.
#[export] Instance SSLRole_eq_dec : EqDecision SSLRole.
Proof. solve_decision. Defined.

Definition SSL_ERROR_NONE : Z := 0.
Definition SSL_ERROR_WANT_READ : Z := 2.
Definition SSL_ERROR_WANT_WRITE : Z := 3.
Definition SSL_ERROR_ZERO_RETURN : Z := 6.

Definition TLS1_VERSION : Z := 0x0301.
Definition TLS1_1_VERSION : Z := 0x0302.
Definition TLS1_2_VERSION : Z := 0x0303.
Definition DTLS1_VERSION : Z := 0xFEFF.
Definition DTLS1_2_VERSION : Z := 0xFEFD.

(** [SSLProtocolVersion]; the DTLS versions share the numbers of 1.1 and 1.2. *)
Definition SSL_PROTOCOL_TLS_10 : Z := 0.
Definition SSL_PROTOCOL_TLS_11 : Z := 1.
Definition SSL_PROTOCOL_TLS_12 : Z := 2.

(** [None] is a null pointer or a result other than the documented one of
    success.  Certificates and keys are numbers. *)
Class OpenSSL : Type := {
  SSL_CTX : Type;
  SSL : Type;
  SSL_CTX_new : SSLMode -> option SSL_CTX;
  SSL_CTX_set_proto_versions : Z -> Z -> SSL_CTX -> SSL_CTX;
  SSL_CTX_use_certificate : Z -> SSL_CTX -> option SSL_CTX;
  SSL_CTX_use_PrivateKey : Z -> SSL_CTX -> option SSL_CTX;
  SSL_CTX_add1_chain_cert : Z -> SSL_CTX -> option SSL_CTX;
  (** whether a certificate is required *)
  SSL_CTX_set_verify : bool -> SSL_CTX -> SSL_CTX;
  SSL_CTX_set_cipher_list : bytes -> SSL_CTX -> SSL_CTX;
  SSL_CTX_set_tlsext_use_srtp : bytes -> SSL_CTX -> option SSL_CTX;
  (** with read-ahead or without *)
  SSL_new : bool -> SSL_CTX -> option SSL;
  (** what [SSL_get_error] says, and whether the reason is that no cipher is shared *)
  SSL_connect : SSL -> ssl_call (Z * bool * SSL);
  SSL_accept : SSL -> ssl_call (Z * bool * SSL);
  (** at least one byte and no more than asked for, or what [SSL_get_error] says *)
  SSL_read : nat -> SSL -> ssl_call ((byte * bytes + Z) * SSL);
  SSL_write : bytes -> SSL -> ssl_call ((nat + Z) * SSL);
  SSL_pending : SSL -> Z;
  SSL_shutdown : SSL -> ssl_call SSL;
  DTLSv1_get_timeout : SSL -> option Z;
  DTLSv1_handle_timeout : SSL -> ssl_call (Z * SSL);
  SSL_export_keying_material : bytes -> nat -> SSL -> option bytes;
  SSL_get_selected_srtp_profile : SSL -> option Z;
  EVP_MD_size : bytes -> nat;
  X509_digest : bytes -> Z -> bytes;
}.

(** ** Identities and certificates *)

Record SSLIdentity : Type := mkIdentity { id_key : Z; id_certificate : Z; id_chain : list Z }.

Section identity.
Context `{OpenSSL}.

Fixpoint add_chain (chain : list Z) (ctx : SSL_CTX) : option SSL_CTX :=
  match chain with
  | [] => Some ctx
  | cert :: chain => ctx ← SSL_CTX_add1_chain_cert cert ctx; add_chain chain ctx
  end.

Definition ConfigureIdentity (identity : SSLIdentity) (ctx : SSL_CTX) : option SSL_CTX :=
  ctx ← SSL_CTX_use_certificate (id_certificate identity) ctx;
  ctx ← SSL_CTX_use_PrivateKey (id_key identity) ctx;
  add_chain (id_chain identity) ctx.

Definition EVP_MAX_MD_SIZE : nat := 64.

(** [GetDigestEVP]: whether the algorithm is known. *)
Definition GetDigestEVP (algorithm : bytes) : bool :=
  bool_decide (algorithm ∈ map str ["md5"; "sha-1"; "sha-224"; "sha-256"; "sha-384"; "sha-512"]%string).

Definition GetDigestSize (algorithm : bytes) : option nat :=
  if GetDigestEVP algorithm then Some (EVP_MD_size algorithm) else None.

Definition ComputeDigest (algorithm : bytes) (cert : Z) : option bytes :=
  if negb (GetDigestEVP algorithm) then None
  else if bool_decide (EVP_MAX_MD_SIZE < EVP_MD_size algorithm)%nat then None
  else Some (X509_digest algorithm cert).
End identity.

(** ** State *)

Inductive SSLState : Type := SSL_NONE | SSL_WAIT | SSL_CONNECTING | SSL_CONNECTED | SSL_ERROR | SSL_CLOSED.

#[export] Instance SSLState_eq_dec : EqDecision SSLState.
Proof. solve_decision. Defined.

Inductive SSLPeerCertificateDigestError : Type := NONE | UNKNOWN_ALGORITHM | INVALID_LENGTH | VERIFICATION_FAILED.

(** What the adapter signals, and the certificates its callback was shown. *)
Inductive ssl_event : Type :=
  | SaSignal (events err : Z)
  | SaHandshakeError (no_shared_cipher : bool)
  | SaPresented (cert : Z).

Section adapter.
Context {D : Type} `{StreamI D} `{OpenSSL}.
(** [GetClientAuthEnabled()], and whether legacy protocols are allowed *)
Variables (client_auth legacy : bool).

Record adapter : Type := mkAdapter {
  sa_stream : D;
  sa_owner : bool;  (* [rtc::Thread::Current()] was not null *)
  sa_timeout : bool;  (* [timeout_task_] is running *)
  sa_posted : list (Z * Z);  (* events posted to the owner *)
  sa_state : SSLState;
  sa_role : SSLRole;
  sa_error_code : Z;
  sa_read_needs_write : bool;
  sa_write_needs_read : bool;
  sa_ssl : option SSL;
  sa_ctx : option SSL_CTX;
  sa_identity : option SSLIdentity;
  sa_peer_cert : option Z;  (* [peer_cert_chain_] *)
  sa_verified : bool;
  sa_digest_value : bytes;
  sa_digest_alg : bytes;
  sa_srtp_ciphers : bytes;
  sa_mode : SSLMode;
  sa_max_version : Z;
  sa_out : list ssl_event;
}.

Definition upd_sa_stream (g : D -> D) (r : adapter) : adapter :=
  mkAdapter (g (sa_stream r)) (sa_owner r) (sa_timeout r) (sa_posted r) (sa_state r) (sa_role
    r) (sa_error_code r) (sa_read_needs_write r) (sa_write_needs_read r) (sa_ssl r) (sa_ctx r)
    (sa_identity r) (sa_peer_cert r) (sa_verified r) (sa_digest_value r) (sa_digest_alg r)
    (sa_srtp_ciphers r) (sa_mode r) (sa_max_version r) (sa_out r).
Definition upd_sa_owner (g : bool -> bool) (r : adapter) : adapter :=
  mkAdapter (sa_stream r) (g (sa_owner r)) (sa_timeout r) (sa_posted r) (sa_state r) (sa_role
    r) (sa_error_code r) (sa_read_needs_write r) (sa_write_needs_read r) (sa_ssl r) (sa_ctx r)
    (sa_identity r) (sa_peer_cert r) (sa_verified r) (sa_digest_value r) (sa_digest_alg r)
    (sa_srtp_ciphers r) (sa_mode r) (sa_max_version r) (sa_out r).
Definition upd_sa_timeout (g : bool -> bool) (r : adapter) : adapter :=
  mkAdapter (sa_stream r) (sa_owner r) (g (sa_timeout r)) (sa_posted r) (sa_state r) (sa_role
    r) (sa_error_code r) (sa_read_needs_write r) (sa_write_needs_read r) (sa_ssl r) (sa_ctx r)
    (sa_identity r) (sa_peer_cert r) (sa_verified r) (sa_digest_value r) (sa_digest_alg r)
    (sa_srtp_ciphers r) (sa_mode r) (sa_max_version r) (sa_out r).
Definition upd_sa_posted (g : list (Z * Z) -> list (Z * Z)) (r : adapter) : adapter :=
  mkAdapter (sa_stream r) (sa_owner r) (sa_timeout r) (g (sa_posted r)) (sa_state r) (sa_role
    r) (sa_error_code r) (sa_read_needs_write r) (sa_write_needs_read r) (sa_ssl r) (sa_ctx r)
    (sa_identity r) (sa_peer_cert r) (sa_verified r) (sa_digest_value r) (sa_digest_alg r)
    (sa_srtp_ciphers r) (sa_mode r) (sa_max_version r) (sa_out r).
Definition upd_sa_state (g : SSLState -> SSLState) (r : adapter) : adapter :=
  mkAdapter (sa_stream r) (sa_owner r) (sa_timeout r) (sa_posted r) (g (sa_state r)) (sa_role
    r) (sa_error_code r) (sa_read_needs_write r) (sa_write_needs_read r) (sa_ssl r) (sa_ctx r)
    (sa_identity r) (sa_peer_cert r) (sa_verified r) (sa_digest_value r) (sa_digest_alg r)
    (sa_srtp_ciphers r) (sa_mode r) (sa_max_version r) (sa_out r).
Definition upd_sa_role (g : SSLRole -> SSLRole) (r : adapter) : adapter :=
  mkAdapter (sa_stream r) (sa_owner r) (sa_timeout r) (sa_posted r) (sa_state r) (g (sa_role
    r)) (sa_error_code r) (sa_read_needs_write r) (sa_write_needs_read r) (sa_ssl r) (sa_ctx r)
    (sa_identity r) (sa_peer_cert r) (sa_verified r) (sa_digest_value r) (sa_digest_alg r)
    (sa_srtp_ciphers r) (sa_mode r) (sa_max_version r) (sa_out r).
Definition upd_sa_error_code (g : Z -> Z) (r : adapter) : adapter :=
  mkAdapter (sa_stream r) (sa_owner r) (sa_timeout r) (sa_posted r) (sa_state r) (sa_role r)
    (g (sa_error_code r)) (sa_read_needs_write r) (sa_write_needs_read r) (sa_ssl r) (sa_ctx r)
    (sa_identity r) (sa_peer_cert r) (sa_verified r) (sa_digest_value r) (sa_digest_alg r)
    (sa_srtp_ciphers r) (sa_mode r) (sa_max_version r) (sa_out r).
Definition upd_sa_read_needs_write (g : bool -> bool) (r : adapter) : adapter :=
  mkAdapter (sa_stream r) (sa_owner r) (sa_timeout r) (sa_posted r) (sa_state r) (sa_role r)
    (sa_error_code r) (g (sa_read_needs_write r)) (sa_write_needs_read r) (sa_ssl r) (sa_ctx r)
    (sa_identity r) (sa_peer_cert r) (sa_verified r) (sa_digest_value r) (sa_digest_alg r)
    (sa_srtp_ciphers r) (sa_mode r) (sa_max_version r) (sa_out r).
Definition upd_sa_write_needs_read (g : bool -> bool) (r : adapter) : adapter :=
  mkAdapter (sa_stream r) (sa_owner r) (sa_timeout r) (sa_posted r) (sa_state r) (sa_role r)
    (sa_error_code r) (sa_read_needs_write r) (g (sa_write_needs_read r)) (sa_ssl r) (sa_ctx r)
    (sa_identity r) (sa_peer_cert r) (sa_verified r) (sa_digest_value r) (sa_digest_alg r)
    (sa_srtp_ciphers r) (sa_mode r) (sa_max_version r) (sa_out r).
Definition upd_sa_ssl (g : option SSL -> option SSL) (r : adapter) : adapter :=
  mkAdapter (sa_stream r) (sa_owner r) (sa_timeout r) (sa_posted r) (sa_state r) (sa_role r)
    (sa_error_code r) (sa_read_needs_write r) (sa_write_needs_read r) (g (sa_ssl r)) (sa_ctx r)
    (sa_identity r) (sa_peer_cert r) (sa_verified r) (sa_digest_value r) (sa_digest_alg r)
    (sa_srtp_ciphers r) (sa_mode r) (sa_max_version r) (sa_out r).
Definition upd_sa_ctx (g : option SSL_CTX -> option SSL_CTX) (r : adapter) : adapter :=
  mkAdapter (sa_stream r) (sa_owner r) (sa_timeout r) (sa_posted r) (sa_state r) (sa_role r)
    (sa_error_code r) (sa_read_needs_write r) (sa_write_needs_read r) (sa_ssl r) (g (sa_ctx r))
    (sa_identity r) (sa_peer_cert r) (sa_verified r) (sa_digest_value r) (sa_digest_alg r)
    (sa_srtp_ciphers r) (sa_mode r) (sa_max_version r) (sa_out r).
Definition upd_sa_identity (g : option SSLIdentity -> option SSLIdentity) (r : adapter) : adapter :=
  mkAdapter (sa_stream r) (sa_owner r) (sa_timeout r) (sa_posted r) (sa_state r) (sa_role r)
    (sa_error_code r) (sa_read_needs_write r) (sa_write_needs_read r) (sa_ssl r) (sa_ctx r) (g
    (sa_identity r)) (sa_peer_cert r) (sa_verified r) (sa_digest_value r) (sa_digest_alg r)
    (sa_srtp_ciphers r) (sa_mode r) (sa_max_version r) (sa_out r).
Definition upd_sa_peer_cert (g : option Z -> option Z) (r : adapter) : adapter :=
  mkAdapter (sa_stream r) (sa_owner r) (sa_timeout r) (sa_posted r) (sa_state r) (sa_role r)
    (sa_error_code r) (sa_read_needs_write r) (sa_write_needs_read r) (sa_ssl r) (sa_ctx r)
    (sa_identity r) (g (sa_peer_cert r)) (sa_verified r) (sa_digest_value r) (sa_digest_alg r)
    (sa_srtp_ciphers r) (sa_mode r) (sa_max_version r) (sa_out r).
Definition upd_sa_verified (g : bool -> bool) (r : adapter) : adapter :=
  mkAdapter (sa_stream r) (sa_owner r) (sa_timeout r) (sa_posted r) (sa_state r) (sa_role r)
    (sa_error_code r) (sa_read_needs_write r) (sa_write_needs_read r) (sa_ssl r) (sa_ctx r)
    (sa_identity r) (sa_peer_cert r) (g (sa_verified r)) (sa_digest_value r) (sa_digest_alg r)
    (sa_srtp_ciphers r) (sa_mode r) (sa_max_version r) (sa_out r).
Definition upd_sa_digest_value (g : bytes -> bytes) (r : adapter) : adapter :=
  mkAdapter (sa_stream r) (sa_owner r) (sa_timeout r) (sa_posted r) (sa_state r) (sa_role r)
    (sa_error_code r) (sa_read_needs_write r) (sa_write_needs_read r) (sa_ssl r) (sa_ctx r)
    (sa_identity r) (sa_peer_cert r) (sa_verified r) (g (sa_digest_value r)) (sa_digest_alg r)
    (sa_srtp_ciphers r) (sa_mode r) (sa_max_version r) (sa_out r).
Definition upd_sa_digest_alg (g : bytes -> bytes) (r : adapter) : adapter :=
  mkAdapter (sa_stream r) (sa_owner r) (sa_timeout r) (sa_posted r) (sa_state r) (sa_role r)
    (sa_error_code r) (sa_read_needs_write r) (sa_write_needs_read r) (sa_ssl r) (sa_ctx r)
    (sa_identity r) (sa_peer_cert r) (sa_verified r) (sa_digest_value r) (g (sa_digest_alg r))
    (sa_srtp_ciphers r) (sa_mode r) (sa_max_version r) (sa_out r).
Definition upd_sa_srtp_ciphers (g : bytes -> bytes) (r : adapter) : adapter :=
  mkAdapter (sa_stream r) (sa_owner r) (sa_timeout r) (sa_posted r) (sa_state r) (sa_role r)
    (sa_error_code r) (sa_read_needs_write r) (sa_write_needs_read r) (sa_ssl r) (sa_ctx r)
    (sa_identity r) (sa_peer_cert r) (sa_verified r) (sa_digest_value r) (sa_digest_alg r) (g
    (sa_srtp_ciphers r)) (sa_mode r) (sa_max_version r) (sa_out r).
Definition upd_sa_mode (g : SSLMode -> SSLMode) (r : adapter) : adapter :=
  mkAdapter (sa_stream r) (sa_owner r) (sa_timeout r) (sa_posted r) (sa_state r) (sa_role r)
    (sa_error_code r) (sa_read_needs_write r) (sa_write_needs_read r) (sa_ssl r) (sa_ctx r)
    (sa_identity r) (sa_peer_cert r) (sa_verified r) (sa_digest_value r) (sa_digest_alg r)
    (sa_srtp_ciphers r) (g (sa_mode r)) (sa_max_version r) (sa_out r).
Definition upd_sa_max_version (g : Z -> Z) (r : adapter) : adapter :=
  mkAdapter (sa_stream r) (sa_owner r) (sa_timeout r) (sa_posted r) (sa_state r) (sa_role r)
    (sa_error_code r) (sa_read_needs_write r) (sa_write_needs_read r) (sa_ssl r) (sa_ctx r)
    (sa_identity r) (sa_peer_cert r) (sa_verified r) (sa_digest_value r) (sa_digest_alg r)
    (sa_srtp_ciphers r) (sa_mode r) (g (sa_max_version r)) (sa_out r).
Definition upd_sa_out (g : list ssl_event -> list ssl_event) (r : adapter) : adapter :=
  mkAdapter (sa_stream r) (sa_owner r) (sa_timeout r) (sa_posted r) (sa_state r) (sa_role r)
    (sa_error_code r) (sa_read_needs_write r) (sa_write_needs_read r) (sa_ssl r) (sa_ctx r)
    (sa_identity r) (sa_peer_cert r) (sa_verified r) (sa_digest_value r) (sa_digest_alg r)
    (sa_srtp_ciphers r) (sa_mode r) (sa_max_version r) (g (sa_out r)).
Abbreviation A := (St adapter).

(** A new adapter on a stream, made by a thread that has an [rtc::Thread] or
    not. *)
Definition new_adapter (d : D) (owner : bool) : adapter :=
  mkAdapter d owner false [] SSL_NONE SSL_CLIENT 0 false false None None None None false [] [] []
    SSL_MODE_TLS SSL_PROTOCOL_TLS_12 [].

Definition signal (events err : Z) : A () := put (upd_sa_out (fun l => l ++ [SaSignal events err])).
Definition set_state (s : SSLState) : A () := put (upd_sa_state (fun _ => s)).

Definition on_stream {X} (f : St D X) : A X := fun a =>
  match f (sa_stream a) with
  | Done (x, d) => Done (x, upd_sa_stream (fun _ => d) a)
  | Throws e => Throws e
  | Undef u => Undef u
  end.

(** ** The BIO *)

(** [stream_read] and [stream_write]: the bytes, or -1 and whether to retry. *)
Definition bio_read (size : nat) : A (option bytes * bool) :=
  '(result, data) ← on_stream (si_read size);
  mret match result with
       | SR_SUCCESS => (Some data, false)
       | SR_BLOCK => (None, true)
       | _ => (None, false)
       end.

Definition bio_write (data : bytes) : A (option nat * bool) :=
  '(result, written) ← on_stream (si_write data);
  mret match result with
       | SR_SUCCESS => (Some written, false)
       | SR_BLOCK => (None, true)
       | _ => (None, false)
       end.

(** ** Certificates *)

Definition has_peer_certificate_digest (a : adapter) : bool :=
  negb (bool_decide (sa_digest_alg a = [])) && negb (bool_decide (sa_digest_value a = [])).

Definition waiting_to_verify (a : adapter) : bool := client_auth && negb (sa_verified a).

Definition verify_peer_certificate : A bool :=
  has ← get has_peer_certificate_digest;
  cert ← get sa_peer_cert;
  alg ← get sa_digest_alg;
  value ← get sa_digest_value;
  match cert with
  | Some cert =>
      if negb (has : bool) then mret false
      else
        match ComputeDigest alg cert with
        | None => mret false
        | Some digest =>
            if negb (bool_decide (digest = value)) then mret false
            else _ ← put (upd_sa_verified (fun _ => true)); mret true
        end
  | None => mret false
  end.

(** [SSLVerifyCallback] *)
Definition ssl_verify_callback (cert : Z) : A bool :=
  _ ← put (upd_sa_peer_cert (fun _ => Some cert));
  _ ← put (upd_sa_out (fun l => l ++ [SaPresented cert]));
  alg ← get sa_digest_alg;
  if bool_decide (alg = []) then mret true else verify_peer_certificate.

(** A call of OpenSSL, its callbacks being the adapter's. *)
Fixpoint ssl_run {R} (c : ssl_call R) : A R :=
  match c with
  | SslRet r => mret r
  | BioRead size k => '(data, retry) ← bio_read size; ssl_run (k data retry)
  | BioWrite data k => '(n, retry) ← bio_write data; ssl_run (k n retry)
  | CertVerify cert k => ok ← ssl_verify_callback cert; ssl_run (k ok)
  end.

Definition ssl_at : A SSL :=
  s ← get sa_ssl; match s with Some s => mret s | None => fault null_deref end.

Definition call_ssl {R} (f : SSL -> ssl_call (R * SSL)) : A R :=
  s ← ssl_at;
  '(r, s) ← ssl_run (f s);
  _ ← put (upd_sa_ssl (fun _ => Some s));
  mret r.

(** ** Closing *)

Definition cleanup : A () :=
  st ← get sa_state;
  _ ← if_ (negb (bool_decide (st = SSL_ERROR)))
        (_ ← set_state SSL_CLOSED; put (upd_sa_error_code (fun _ => 0)));
  s ← get sa_ssl;
  _ ← match s with
      | Some s => _ ← ssl_run (SSL_shutdown s); put (upd_sa_ssl (fun _ => None))
      | None => mret ()
      end;
  _ ← put (upd_sa_ctx (fun _ => None));
  _ ← put (upd_sa_identity (fun _ => None));
  _ ← put (upd_sa_peer_cert (fun _ => None));
  put (upd_sa_timeout (fun _ => false)).

(** [Error] *)
Definition ssl_error (err : Z) (sig : bool) : A () :=
  _ ← set_state SSL_ERROR;
  _ ← put (upd_sa_error_code (fun _ => err));
  _ ← cleanup;
  if_ sig (signal SE_CLOSE err).

(** [Close] *)
Definition ssl_close : A () := _ ← cleanup; on_stream si_close.

(** ** Configuration *)

Definition set_identity (identity : SSLIdentity) : A () := put (upd_sa_identity (fun _ => Some identity)).
Definition set_server_role (role : SSLRole) : A () := put (upd_sa_role (fun _ => role)).
Definition set_mode (mode : SSLMode) : A () := put (upd_sa_mode (fun _ => mode)).
Definition set_max_protocol_version (v : Z) : A () := put (upd_sa_max_version (fun _ => v)).

Definition post_event (events err : Z) : A () :=
  owner ← get sa_owner;
  if (owner : bool) then put (upd_sa_posted (fun l => l ++ [(events, err)])) else fault null_deref.

Definition set_peer_certificate_digest (digest_alg digest : bytes) : A (bool * SSLPeerCertificateDigestError) :=
  match GetDigestSize digest_alg with
  | None => mret (false, UNKNOWN_ALGORITHM)
  | Some expected_len =>
      if negb (bool_decide (expected_len = length digest)) then mret (false, INVALID_LENGTH)
      else
        _ ← put (upd_sa_digest_value (fun _ => digest));
        _ ← put (upd_sa_digest_alg (fun _ => digest_alg));
        cert ← get sa_peer_cert;
        match cert with
        | None => mret (true, NONE)
        | Some _ =>
            ok ← verify_peer_certificate;
            if negb (ok : bool) then _ ← ssl_error (-1) false; mret (false, VERIFICATION_FAILED)
            else
              st ← get sa_state;
              _ ← if_ (bool_decide (st = SSL_CONNECTED)) (post_event (Z.lor SE_OPEN (Z.lor SE_READ SE_WRITE)) 0);
              mret (true, NONE)
        end
  end.

Definition kSrtpCipherMap : list (Z * bytes) :=
  [(kSrtpAes128CmSha1_80, str "SRTP_AES128_CM_SHA1_80"); (kSrtpAes128CmSha1_32, str "SRTP_AES128_CM_SHA1_32");
   (kSrtpAeadAes128Gcm, str "SRTP_AEAD_AES_128_GCM"); (kSrtpAeadAes256Gcm, str "SRTP_AEAD_AES_256_GCM")].

(** The loop of [SetDtlsSrtpCryptoSuites]: the names, joined by colons. *)
Fixpoint cipher_names (ciphers : list Z) (internal_ciphers : bytes) : option bytes :=
  match ciphers with
  | [] => Some internal_ciphers
  | cipher :: ciphers =>
      match List.find (fun entry => cipher =? fst entry) kSrtpCipherMap with
      | None => None
      | Some (_, name) =>
          cipher_names ciphers
            (internal_ciphers ++ (if bool_decide (internal_ciphers = []) then [] else str ":") ++ name)
      end
  end.

Definition set_dtls_srtp_crypto_suites (ciphers : list Z) : A bool :=
  st ← get sa_state;
  if negb (bool_decide (st = SSL_NONE)) then mret false
  else
    match cipher_names ciphers [] with
    | None | Some [] => mret false
    | Some names => _ ← put (upd_sa_srtp_ciphers (fun _ => names)); mret true
    end.

(** The protocol versions [SetupSSLContext] allows. *)
Definition proto_versions (mode : SSLMode) (max_version : Z) : Z * Z :=
  let dtls := bool_decide (mode = SSL_MODE_DTLS) in
  if legacy then
    (if dtls then DTLS1_VERSION else TLS1_VERSION,
     if max_version =? SSL_PROTOCOL_TLS_10 then (if dtls then DTLS1_VERSION else TLS1_VERSION)
     else if max_version =? SSL_PROTOCOL_TLS_11 then (if dtls then DTLS1_VERSION else TLS1_1_VERSION)
     else if dtls then DTLS1_2_VERSION else TLS1_2_VERSION)
  else
    (if dtls then DTLS1_2_VERSION else TLS1_2_VERSION, if dtls then DTLS1_2_VERSION else TLS1_2_VERSION).

Definition cipher_list : bytes :=
  str "DEFAULT:!NULL:!aNULL:!SHA256:!SHA384:!aECDH:!AESGCM+AES256:!aPSK:!3DES".

Definition setup_ssl_context (a : adapter) : option SSL_CTX :=
  ctx ← SSL_CTX_new (sa_mode a);
  let ctx := uncurry SSL_CTX_set_proto_versions (proto_versions (sa_mode a) (sa_max_version a)) ctx in
  ctx ← match sa_identity a with Some identity => ConfigureIdentity identity ctx | None => Some ctx end;
  let ctx := SSL_CTX_set_cipher_list cipher_list (SSL_CTX_set_verify client_auth ctx) in
  if bool_decide (sa_srtp_ciphers a = []) then Some ctx
  else SSL_CTX_set_tlsext_use_srtp (sa_srtp_ciphers a) ctx.

(** ** The handshake *)

(** [SetTimeout]: the task goes to the owner. *)
Definition set_timeout : A () :=
  owner ← get sa_owner;
  if (owner : bool) then put (upd_sa_timeout (fun _ => true)) else fault null_deref.

Definition continue_ssl : A Z :=
  _ ← put (upd_sa_timeout (fun _ => false));
  role ← get sa_role;
  '(error, no_shared_cipher) ← call_ssl (if bool_decide (role = SSL_CLIENT) then SSL_connect else SSL_accept);
  if error =? SSL_ERROR_NONE then
    _ ← set_state SSL_CONNECTED;
    waiting ← get waiting_to_verify;
    _ ← if_ (negb waiting) (signal (Z.lor SE_OPEN (Z.lor SE_READ SE_WRITE)) 0);
    mret 0
  else if error =? SSL_ERROR_WANT_READ then
    s ← ssl_at;
    _ ← match DTLSv1_get_timeout s with Some _ => set_timeout | None => mret () end;
    mret 0
  else if error =? SSL_ERROR_WANT_WRITE then mret 0
  else
    _ ← put (upd_sa_out (fun l => l ++ [SaHandshakeError no_shared_cipher]));
    mret error.

Definition begin_ssl : A Z :=
  ctx ← get setup_ssl_context;
  match ctx with
  | None => mret (-1)
  | Some ctx =>
      _ ← put (upd_sa_ctx (fun _ => Some ctx));
      mode ← get sa_mode;
      match SSL_new (bool_decide (mode = SSL_MODE_DTLS)) ctx with
      | None => mret (-1)
      | Some s => _ ← put (upd_sa_ssl (fun _ => Some s)); continue_ssl
      end
  end.

Definition start_ssl : A Z :=
  st ← get sa_state;
  if negb (bool_decide (st = SSL_NONE)) then mret (-1)
  else
    open ← get (fun a => si_state (sa_stream a));
    if negb (bool_decide (open = SS_OPEN)) then _ ← set_state SSL_WAIT; mret 0
    else
      _ ← set_state SSL_CONNECTING;
      err ← begin_ssl;
      if err =? 0 then mret 0 else _ ← ssl_error err false; mret err.

(** The task of [SetTimeout]; what [ContinueSSL] returns is ignored. *)
Definition timeout_task : A () :=
  _ ← put (upd_sa_timeout (fun _ => false));
  _ ← call_ssl DTLSv1_handle_timeout;
  _ ← continue_ssl;
  mret ().

(** A posted task. *)
Definition posted_event : A () :=
  l ← get sa_posted;
  match l with
  | [] => mret ()
  | (events, err) :: l => _ ← put (upd_sa_posted (fun _ => l)); signal events err
  end.

Definition has (events e : Z) : bool := negb (Z.land events e =? 0).

(** [OnEvent] of the stream below; a handshake that fails ends it. *)
Definition on_event (events err : Z) : A () :=
  st ← get sa_state;
  opened ← (if has events SE_OPEN then
              if negb (bool_decide (st = SSL_WAIT)) then mret (Some SE_OPEN)
              else
                _ ← set_state SSL_CONNECTING;
                e ← begin_ssl;
                if e =? 0 then mret (Some 0) else _ ← ssl_error e true; mret None
            else mret (Some 0));
  match opened with
  | None => mret ()
  | Some sig =>
      st ← get sa_state;
      ready ← (if has events (Z.lor SE_READ SE_WRITE) then
                 match st with
                 | SSL_NONE => mret (Some (Z.lor sig (Z.land events (Z.lor SE_READ SE_WRITE))))
                 | SSL_CONNECTING =>
                     e ← continue_ssl;
                     if e =? 0 then mret (Some sig) else _ ← ssl_error e true; mret None
                 | SSL_CONNECTED =>
                     read_needs_write ← get sa_read_needs_write;
                     write_needs_read ← get sa_write_needs_read;
                     let sig := if (has events SE_READ && write_needs_read) || has events SE_WRITE
                                then Z.lor sig SE_WRITE else sig in
                     let sig := if (has events SE_WRITE && read_needs_write) || has events SE_READ
                                then Z.lor sig SE_READ else sig in
                     mret (Some sig)
                 | _ => mret (Some sig)
                 end
               else mret (Some sig));
      match ready with
      | None => mret ()
      | Some sig =>
          if has events SE_CLOSE then _ ← cleanup; signal (Z.lor sig SE_CLOSE) err
          else if_ (negb (sig =? 0)) (signal sig 0)
      end
  end.

(** ** Data *)

Definition get_state (a : adapter) : StreamState :=
  match sa_state a with
  | SSL_WAIT | SSL_CONNECTING => SS_OPENING
  | SSL_CONNECTED => if waiting_to_verify a then SS_OPENING else SS_OPEN
  | _ => SS_CLOSED
  end.

(** [Write]: the result and the bytes written. *)
Definition ssl_write_data (data : bytes) : A (StreamResult * nat) :=
  st ← get sa_state;
  waiting ← get waiting_to_verify;
  match st with
  | SSL_NONE => on_stream (si_write data)
  | SSL_WAIT | SSL_CONNECTING => mret (SR_BLOCK, 0%nat)
  | SSL_ERROR | SSL_CLOSED => mret (SR_ERROR, 0%nat)
  | SSL_CONNECTED =>
      if (waiting : bool) then mret (SR_BLOCK, 0%nat)
      else if bool_decide (data = []) then mret (SR_SUCCESS, 0%nat)
      else
        _ ← put (upd_sa_write_needs_read (fun _ => false));
        r ← call_ssl (SSL_write data);
        match r with
        | inl code => mret (SR_SUCCESS, code)
        | inr error =>
            if error =? SSL_ERROR_WANT_READ then
              _ ← put (upd_sa_write_needs_read (fun _ => true)); mret (SR_BLOCK, 0%nat)
            else if error =? SSL_ERROR_WANT_WRITE then mret (SR_BLOCK, 0%nat)
            else _ ← ssl_error (if error =? 0 then -1 else error) false; mret (SR_ERROR, 0%nat)
        end
  end.

(** [FlushInput]; [fuel] turns, of which [left] are enough. *)
Fixpoint flush_input (fuel left : nat) : A () :=
  match fuel, left with
  | _, O => mret ()
  | O, S _ => mret ()
  | S fuel, S _ =>
      let toread := (2048 `min` left)%nat in
      r ← call_ssl (SSL_read toread);
      match r with
      | inl (b, data) => flush_input fuel (left - length (take toread (b :: data)))
      | inr error => ssl_error (if error =? 0 then -1 else error) false
      end
  end.

(** [Read] of up to [data_len] bytes. *)
Definition ssl_read_data (data_len : nat) : A (StreamResult * bytes) :=
  st ← get sa_state;
  waiting ← get waiting_to_verify;
  match st with
  | SSL_NONE => on_stream (si_read data_len)
  | SSL_WAIT | SSL_CONNECTING => mret (SR_BLOCK, [])
  | SSL_CLOSED => mret (SR_EOS, [])
  | SSL_ERROR => mret (SR_ERROR, [])
  | SSL_CONNECTED =>
      if (waiting : bool) then mret (SR_BLOCK, [])
      else if bool_decide (data_len = 0%nat) then mret (SR_SUCCESS, [])
      else
        _ ← put (upd_sa_read_needs_write (fun _ => false));
        r ← call_ssl (SSL_read data_len);
        match r with
        | inl (b, data) =>
            mode ← get sa_mode;
            s ← ssl_at;
            let pending := u32 (SSL_pending s) in
            if bool_decide (mode = SSL_MODE_DTLS) && negb (pending =? 0) then
              _ ← flush_input (Z.to_nat pending) (Z.to_nat pending); mret (SR_ERROR, [])
            else mret (SR_SUCCESS, take data_len (b :: data))
        | inr error =>
            if error =? SSL_ERROR_WANT_READ then mret (SR_BLOCK, [])
            else if error =? SSL_ERROR_WANT_WRITE then
              _ ← put (upd_sa_read_needs_write (fun _ => true)); mret (SR_BLOCK, [])
            else if error =? SSL_ERROR_ZERO_RETURN then _ ← ssl_close; mret (SR_EOS, [])
            else _ ← ssl_error (if error =? 0 then -1 else error) false; mret (SR_ERROR, [])
        end
  end.

Definition ssl_export_keying_material (label : bytes) (len : nat) : A (option bytes) :=
  s ← ssl_at; mret (SSL_export_keying_material label len s).

Definition get_dtls_srtp_crypto_suite : A (option Z) :=
  st ← get sa_state;
  if negb (bool_decide (st = SSL_CONNECTED)) then mret None
  else s ← ssl_at; mret (SSL_get_selected_srtp_profile s).

(** ** Runs *)

Inductive ssl_input : Type :=
  | SaSetIdentity (identity : SSLIdentity)
  | SaSetRole (role : SSLRole)
  | SaSetMode (mode : SSLMode)
  | SaSetMaxVersion (v : Z)
  | SaSetDigest (alg digest : bytes)
  | SaSetSuites (ciphers : list Z)
  | SaStart
  | SaRead (len : nat)
  | SaWrite (data : bytes)
  | SaClose
  | SaExport (label : bytes) (len : nat)
  | SaSuite
  | SaStreamEvent (events err : Z)
  | SaTimer
  | SaPosted  (* the owner runs what was posted *)
  | SaStream (d : D).  (* what else the stream does on its own *)

Definition ssl_handle (i : ssl_input) : A (StreamResult * bytes) :=
  match i with
  | SaSetIdentity identity => _ ← set_identity identity; mret (SR_BLOCK, [])
  | SaSetRole role => _ ← set_server_role role; mret (SR_BLOCK, [])
  | SaSetMode mode => _ ← set_mode mode; mret (SR_BLOCK, [])
  | SaSetMaxVersion v => _ ← set_max_protocol_version v; mret (SR_BLOCK, [])
  | SaSetDigest alg digest => _ ← set_peer_certificate_digest alg digest; mret (SR_BLOCK, [])
  | SaSetSuites ciphers => _ ← set_dtls_srtp_crypto_suites ciphers; mret (SR_BLOCK, [])
  | SaStart => _ ← start_ssl; mret (SR_BLOCK, [])
  | SaRead len => ssl_read_data len
  | SaWrite data => '(r, n) ← ssl_write_data data; mret (r, take n data)
  | SaClose => _ ← ssl_close; mret (SR_BLOCK, [])
  | SaExport label len => _ ← ssl_export_keying_material label len; mret (SR_BLOCK, [])
  | SaSuite => _ ← get_dtls_srtp_crypto_suite; mret (SR_BLOCK, [])
  | SaStreamEvent events err => _ ← on_event events err; mret (SR_BLOCK, [])
  | SaTimer => _ ← timeout_task; mret (SR_BLOCK, [])
  | SaStream d => _ ← put (upd_sa_stream (fun _ => d)); mret (SR_BLOCK, [])
  | SaPosted => _ ← posted_event; mret (SR_BLOCK, [])
  end.

(** What the owner keeps to: the adapter's own assertions, that only a running
    timer fires, and that a stream opens while the adapter waits for it. *)
Definition ssl_input_ok (i : ssl_input) (a : adapter) : bool :=
  match i with
  | SaSetIdentity _ | SaSetMode _ | SaSetMaxVersion _ => bool_decide (sa_state a = SSL_NONE)
  | SaSetDigest _ _ => negb (sa_verified a) && negb (has_peer_certificate_digest a)
  | SaExport _ _ => match sa_state a with SSL_CONNECTING | SSL_CONNECTED => true | _ => false end
  | SaStreamEvent events _ =>
      negb (has events SE_OPEN) || bool_decide (sa_state a = SSL_WAIT)
  | SaTimer => sa_timeout a
  | SaPosted => negb (bool_decide (sa_posted a = []))
  | _ => true
  end.
End adapter.
Arguments adapter D {_}.
