(* ===== verification/SslTheory.v ===== *)
(** * Theory of the DTLS engine

    The adapter opens, and lets data through, only after its peer has shown a
    certificate with the announced digest, whatever OpenSSL does; it uses no
    object of OpenSSL that it has not got; and what depends on the thread that
    made it. *)

From S2P Require Import Prelude State Srtp Dtls DtlsBehaviour SslStream.
Local Open Scope Z_scope.

(** What the adapter relies on of the stream below. *)
Class StreamLaws (D : Type) `{StreamI D} : Type := {
  si_ok : D -> Prop;
  si_read_ok n d : si_ok d -> post (si_read n) (fun _ d' => si_ok d') d;
  si_write_ok p d : si_ok d -> post (si_write p) (fun _ d' => si_ok d') d;
  si_close_ok d : si_ok d -> post si_close (fun _ d' => si_ok d') d;
}.

(** The stream of a DTLS transport is good while it is there. *)
#[export] Program Instance channel_stream_laws `{Srtp.SrtpLib} `{DtlsEnv} : StreamLaws media := {|
  si_ok := fun m => is_Some (d_downward m);
|}.
Next Obligation.
  intros ? ? n m [s Hs]. cbn [si_read channel_stream]. unfold stream_read, post, mbind, St_bind, get. rewrite Hs.
  destruct (sc_state s); [by eexists..|]. destruct (Rtp.ReadFront (sc_packets s) n) as [[p q]|]; cbn; by eexists.
Qed.
Next Obligation. intros ? ? p m [s Hs]. cbn. by eexists. Qed.
Next Obligation. intros ? ? m [s Hs]. cbn. rewrite Hs. by eexists. Qed.

Section theory.
Context {D : Type} `{StreamLaws D} `{OpenSSL} (client_auth legacy : bool).
Implicit Types a : adapter D.

(** ** What a run may do *)

(** The peer has shown a certificate with the announced digest. *)
Definition authenticated a : Prop :=
  exists cert, In (SaPresented cert) (sa_out a) /\
    ComputeDigest (sa_digest_alg a) cert = Some (sa_digest_value a) /\ has_peer_certificate_digest a = true.

(** What holds at any time, and what holds between operations. *)
Record base_ok a : Prop := {
  bo_stream : si_ok (sa_stream a);
  bo_verified : sa_verified a = true -> authenticated a;
  bo_posted : sa_posted a <> [] -> authenticated a;
  bo_cert cert : sa_peer_cert a = Some cert -> In (SaPresented cert) (sa_out a);
}.

Definition live (s : SSLState) : bool := match s with SSL_CONNECTING | SSL_CONNECTED => true | _ => false end.

Record ssl_ok a : Prop := {
  so_base : base_ok a;
  so_ssl : bool_decide (is_Some (sa_ssl a)) = live (sa_state a);
  so_timeout : sa_timeout a = true -> sa_state a = SSL_CONNECTING;
}.

Definition opening (e : ssl_event) : bool := match e with SaSignal events _ => has events SE_OPEN | _ => false end.

(** From [a] to [a']: the digest stays, events are appended, and the stream is
    opened only for an authenticated peer. *)
Record moved a a' : Prop := {
  mv_owner : sa_owner a' = sa_owner a;
  mv_alg : sa_digest_alg a' = sa_digest_alg a;
  mv_value : sa_digest_value a' = sa_digest_value a;
  mv_out : exists evs, sa_out a' = sa_out a ++ evs /\
    forall e, In e evs -> opening e = true -> client_auth = true -> authenticated a';
}.

Lemma authenticated_mono a a' :
  sa_digest_alg a' = sa_digest_alg a -> sa_digest_value a' = sa_digest_value a ->
  (exists evs, sa_out a' = sa_out a ++ evs) -> authenticated a -> authenticated a'.
Proof.
  intros Ea Ev [evs Eo] (cert & Hin & Hc & Hh). exists cert. unfold has_peer_certificate_digest in *.
  rewrite Ea, Ev, Eo. split_and!; [|done|done]. apply in_or_app. by left.
Qed.

Lemma moved_authenticated a a' : moved a a' -> authenticated a -> authenticated a'.
Proof. intros [_ Ea Ev (evs & Eo & _)]. apply authenticated_mono; [done|done|by eexists]. Qed.

Lemma moved_refl a a' :
  sa_owner a' = sa_owner a -> sa_digest_alg a' = sa_digest_alg a -> sa_digest_value a' = sa_digest_value a ->
  sa_out a' = sa_out a -> moved a a'.
Proof. intros. split; [done..|]. exists []. rewrite app_nil_r. split; [done|by intros ? []]. Qed.

Lemma moved_trans a1 a2 a3 : moved a1 a2 -> moved a2 a3 -> moved a1 a3.
Proof.
  intros H12 H23. pose proof (moved_authenticated _ _ H23) as Hau.
  destruct H12 as [Ow1 Ea1 Ev1 (e1 & Eo1 & H1')], H23 as [Ow2 Ea2 Ev2 (e2 & Eo2 & H2')]. split; [congruence..|].
  exists (e1 ++ e2). rewrite Eo2, Eo1, app_assoc. split; [done|].
  intros e [Hin|Hin]%in_app_or; [|by apply H2']. intros. by eapply Hau, H1'.
Qed.

(** An event of its own. *)
Lemma moved_emit a a' e :
  sa_owner a' = sa_owner a -> sa_digest_alg a' = sa_digest_alg a -> sa_digest_value a' = sa_digest_value a ->
  sa_out a' = sa_out a ++ [e] -> (opening e = true -> client_auth = true -> authenticated a') -> moved a a'.
Proof. intros. split; [done..|]. exists [e]. split; [done|]. intros e' [<-|[]]. done. Qed.

(** What may be undefined: only a thread without an [rtc::Thread]. *)
Variable owner : bool.
Abbreviation safe := (wp (fun _ => False) (fun u => u = null_deref /\ owner = false)).

(** One call of OpenSSL. *)
Record ran a a' : Prop := {
  ran_moved : moved a a';
  ran_base : base_ok a';
  ran_state : sa_state a' = sa_state a;
  ran_timeout : sa_timeout a' = sa_timeout a;
  ran_ssl : sa_ssl a' = sa_ssl a;
  ran_posted : sa_posted a' = sa_posted a;
  ran_role : sa_role a' = sa_role a;
}.

Lemma ran_trans a1 a2 a3 : ran a1 a2 -> ran a2 a3 -> ran a1 a3.
Proof.
  intros [] []. split; [by eapply moved_trans|done|congruence..].
Qed.

(** A step that only touches what [base_ok] and [moved] do not look at. *)
Lemma base_same a a' :
  sa_stream a' = sa_stream a -> sa_verified a' = sa_verified a -> sa_posted a' = sa_posted a ->
  sa_peer_cert a' = sa_peer_cert a \/ sa_peer_cert a' = None -> moved a a' -> base_ok a -> base_ok a'.
Proof.
  intros Es Ev Ep Ec Hm [Hs Hv Hp Hc]. split; [by rewrite Es| | |].
  - rewrite Ev. intros. by eapply moved_authenticated, Hv.
  - rewrite Ep. intros. by eapply moved_authenticated, Hp.
  - intros cert. destruct Ec as [->| ->]; [|done]. intros. destruct (mv_out _ _ Hm) as (evs & -> & _).
    apply in_or_app. left. by apply Hc.
Qed.

Lemma on_stream_safe {X} (f : St D X) (Q : X -> adapter D -> Prop) a :
  post f (fun _ d => si_ok d) (sa_stream a) -> base_ok a ->
  (forall x a', ran a a' -> Q x a') -> safe (on_stream f) Q a.
Proof.
  intros (x & d & E & Hd)%post_Done [_ Hv Hp Hc] HQ. unfold wp, on_stream. rewrite E. apply HQ.
  split; [by apply moved_refl| |done..]. by split.
Qed.

Lemma verify_safe (Q : bool -> adapter D -> Prop) a :
  base_ok a -> (forall b a', ran a a' -> (b = true -> authenticated a') -> Q b a') -> safe verify_peer_certificate Q a.
Proof.
  intros Hb HQ. assert (Hr : ran a a) by (split; [by apply moved_refl|done..]). unfold verify_peer_certificate.
  do 4 apply st_wp_bind, st_wp_get. destruct (sa_peer_cert a) as [cert|] eqn:Ec; [|by apply st_wp_ret, HQ].
  destruct (has_peer_certificate_digest a) eqn:Hh; cbn [negb]; [|by apply st_wp_ret, HQ].
  destruct (ComputeDigest _ cert) as [digest|] eqn:Hd; [|by apply st_wp_ret, HQ].
  case_bool_decide as E; cbn [negb]; [|by apply st_wp_ret, HQ]. subst digest. apply st_wp_bind, st_wp_put, st_wp_ret.
  assert (Hau : authenticated a) by (exists cert; split_and!; [by apply (bo_cert a Hb)|done..]).
  apply HQ; [|done]. split; [by apply moved_refl| |done..].
  split; [exact (bo_stream a Hb)|intros _; exact Hau..|exact (bo_cert a Hb)].
Qed.

Lemma callback_safe cert (Q : bool -> adapter D -> Prop) a :
  base_ok a -> (forall b a', ran a a' -> Q b a') -> safe (ssl_verify_callback cert) Q a.
Proof.
  intros [Hs Hv Hp Hc] HQ. unfold ssl_verify_callback. apply st_wp_bind, st_wp_put, st_wp_bind, st_wp_put.
  set (a1 := upd_sa_out _ _).
  assert (Hm : moved a a1) by (by eapply moved_emit with (e := SaPresented cert)).
  assert (Hr : ran a a1).
  { split; [done| |done..]. split; [done| | |].
    - intros. by eapply moved_authenticated, Hv.
    - intros. by eapply moved_authenticated, Hp.
    - intros c [= <-]. cbn. apply in_or_app. right. by left. }
  apply st_wp_bind, st_wp_get. case_bool_decide; [by apply st_wp_ret, HQ|].
  apply verify_safe; [apply Hr|]. intros b a' Hr' _. by eapply HQ, ran_trans.
Qed.

Lemma ssl_run_safe {R} (c : ssl_call R) (Q : R -> adapter D -> Prop) a :
  base_ok a -> (forall r a', ran a a' -> Q r a') -> safe (ssl_run c) Q a.
Proof.
  revert a. induction c as [r|size k IH|data k IH|cert k IH]; intros a Hb HQ.
  - apply st_wp_ret, HQ. by split; [by apply moved_refl|..].
  - apply st_wp_bind, st_wp_bind. apply on_stream_safe; [apply si_read_ok, Hb|done|].
    intros [r data] a' Hr. apply st_wp_ret. destruct (match r with SR_SUCCESS => _ | _ => _ end) as [o retry].
    apply IH; [apply Hr|]. intros. by eapply HQ, ran_trans.
  - apply st_wp_bind, st_wp_bind. apply on_stream_safe; [apply si_write_ok, Hb|done|].
    intros [r n] a' Hr. apply st_wp_ret. destruct (match r with SR_SUCCESS => _ | _ => _ end) as [o retry].
    apply IH; [apply Hr|]. intros. by eapply HQ, ran_trans.
  - apply st_wp_bind, callback_safe; [done|]. intros b a' Hr. apply IH; [apply Hr|]. intros. by eapply HQ, ran_trans.
Qed.

(** ** Calls while there is a connection object *)

(** [a'] is as [a] after calls of OpenSSL that may have changed its object. *)
Record called a a' : Prop := {
  cl_moved : moved a a';
  cl_base : base_ok a';
  cl_state : sa_state a' = sa_state a;
  cl_timeout : sa_timeout a' = sa_timeout a;
  cl_ssl : is_Some (sa_ssl a');
}.

Lemma call_ssl_safe {R} (f : SSL -> ssl_call (R * SSL)) (Q : R -> adapter D -> Prop) a :
  base_ok a -> is_Some (sa_ssl a) -> (forall r a', called a a' -> Q r a') -> safe (call_ssl f) Q a.
Proof.
  intros Hb [s Hs] HQ. unfold call_ssl, ssl_at. apply st_wp_bind, st_wp_bind, st_wp_get. rewrite Hs. apply st_wp_ret.
  apply st_wp_bind, ssl_run_safe; [done|]. intros [r s'] a' []. apply st_wp_bind, st_wp_put, st_wp_ret, HQ.
  assert (Hm : moved a' (upd_sa_ssl (fun _ => Some s') a')) by (by apply moved_refl).
  split; [by eapply moved_trans| |done|done|by eexists].
  eapply base_same; [..|exact Hm|done]; [done..|by left].
Qed.
(** ** Closing *)

(** Steps that set neither the stream, the trace, the digest nor what has been
    verified. *)
Definition neutral a a' : Prop :=
  sa_owner a' = sa_owner a /\ sa_digest_alg a' = sa_digest_alg a /\ sa_digest_value a' = sa_digest_value a /\
  sa_out a' = sa_out a /\ sa_stream a' = sa_stream a /\ sa_verified a' = sa_verified a /\ sa_posted a' = sa_posted a /\
  (sa_peer_cert a' = sa_peer_cert a \/ sa_peer_cert a' = None).

Lemma neutral_ok a a' : neutral a a' -> base_ok a -> moved a a' /\ base_ok a'.
Proof.
  intros (Eo & Ea & Ev & Eout & Es & Ever & Ep & Ec) Hb. assert (Hm : moved a a') by (by apply moved_refl).
  split; [done|]. by eapply base_same.
Qed.

Ltac neutral := split_and!; try reflexivity; first [by left|by right].

Lemma ssl_emit_ok e a :
  (opening e = true -> client_auth = true -> authenticated a) -> base_ok a ->
  moved a (upd_sa_out (fun l => l ++ [e]) a) /\ base_ok (upd_sa_out (fun l => l ++ [e]) a).
Proof.
  intros He Hb. set (a' := upd_sa_out _ a).
  assert (Hm : moved a a').
  { eapply moved_emit with (e := e); [done..|]. intros E1 E2. destruct (He E1 E2) as (cert & Hin & Hrest).
    exists cert. split; [|exact Hrest]. cbn. apply in_or_app. by left. }
  split; [done|]. by eapply base_same; [..|exact Hm|exact Hb]; [..|left].
Qed.

Definition closed a a' : Prop := moved a a' /\ ssl_ok a' /\ live (sa_state a') = false.

Lemma cleanup_safe (Q : () -> adapter D -> Prop) a :
  base_ok a -> (forall a', closed a a' -> Q () a') -> safe cleanup Q a.
Proof.
  intros Hb HQ. unfold cleanup. apply st_wp_bind, st_wp_get, st_wp_bind.
  set (stop := fun a1 => neutral a a1 /\ live (sa_state a1) = false).
  assert (Hstop : forall a1, stop a1 -> safe (
    s ← get sa_ssl;
    _ ← match s with
        | Some s => _ ← ssl_run (SSL_shutdown s); put (upd_sa_ssl (fun _ => None))
        | None => mret ()
        end;
    _ ← put (upd_sa_ctx (fun _ => None));
    _ ← put (upd_sa_identity (fun _ => None));
    _ ← put (upd_sa_peer_cert (fun _ => None));
    put (upd_sa_timeout (fun _ => false))) Q a1).
  { intros a1 [Hn Hl]. destruct (neutral_ok a a1 Hn Hb) as [Hm Hb1].
    assert (Hend : forall a2, ran a1 a2 -> safe (
      _ ← put (upd_sa_ctx (fun _ => None));
      _ ← put (upd_sa_identity (fun _ => None));
      _ ← put (upd_sa_peer_cert (fun _ => None));
      put (upd_sa_timeout (fun _ => false))) Q (upd_sa_ssl (fun _ => None) a2)).
    { intros a2 [Hm2 Hb2 Es _ _ _ _]. do 3 apply st_wp_bind, st_wp_put. apply st_wp_put, HQ.
      match goal with |- closed _ ?x => set (a3 := x) end.
      assert (Hn3 : neutral a2 a3) by neutral.
      destruct (neutral_ok a2 a3 Hn3 Hb2) as [Hm3 Hb3].
      assert (El : live (sa_state a3) = false) by (cbn; by rewrite Es).
      split; [by do 2 (eapply moved_trans; [done|])|]. split; [|done]. by split; [|rewrite El|]. }
    apply st_wp_bind, st_wp_get, st_wp_bind. destruct (sa_ssl a1) as [s|] eqn:Ess.
    - apply st_wp_bind, ssl_run_safe; [done|]. intros s' a2 Hr. by apply st_wp_put, Hend.
    - apply st_wp_ret. assert (Hr : ran a1 a1) by (split; [by apply moved_refl|done..]).
      specialize (Hend a1 Hr). replace (upd_sa_ssl (fun _ => None) a1) with a1 in Hend; [exact Hend|].
      destruct a1; cbn in Ess |- *. by subst. }
  apply st_wp_if; intros E.
  - apply st_wp_bind, st_wp_put, st_wp_put, Hstop. split; [neutral|done].
  - apply Hstop. split; [neutral|]. apply negb_false_iff, bool_decide_eq_true in E. by rewrite E.
Qed.

Lemma ssl_error_safe err sig (Q : () -> adapter D -> Prop) a :
  base_ok a -> (forall a', closed a a' -> Q () a') -> safe (ssl_error err sig) Q a.
Proof.
  intros Hb HQ. unfold ssl_error, set_state. apply st_wp_bind, st_wp_put, st_wp_bind, st_wp_put, st_wp_bind.
  match goal with |- safe _ _ ?x => set (a1 := x) end.
  assert (Hn : neutral a a1) by neutral. destruct (neutral_ok a a1 Hn Hb) as [Hm Hb1].
  apply cleanup_safe; [done|]. intros a2 (Hm2 & Hok & Hl). apply st_wp_if; intros _.
  - apply st_wp_put, HQ. destruct (ssl_emit_ok (SaSignal SE_CLOSE err) a2) as [Hm3 Hb3]; [done|apply Hok|].
    split; [by do 2 (eapply moved_trans; [done|])|]. split; [|done]. split; [done|apply Hok..].
  - apply HQ. split; [by eapply moved_trans|done].
Qed.

Lemma close_safe (Q : () -> adapter D -> Prop) a :
  base_ok a -> (forall a', closed a a' -> Q () a') -> safe ssl_close Q a.
Proof.
  intros Hb HQ. unfold ssl_close. apply st_wp_bind, cleanup_safe; [done|]. intros a1 (Hm1 & [Hb1 Hs Ht] & Hl).
  apply on_stream_safe; [apply si_close_ok, Hb1|done|]. intros [] a2 [Hm2 Hb2 Es Et Ess _ _]. apply HQ.
  split; [by eapply moved_trans|]. split; [|by rewrite Es]. by split; rewrite ?Ess, ?Es, ?Et.
Qed.
(** ** The handshake *)

(** A step of the handshake that left the adapter in order. *)
Definition stepped a a' : Prop := moved a a' /\ ssl_ok a'.

Lemma closed_stepped a a' : closed a a' -> stepped a a'.
Proof. by intros (? & ? & _). Qed.

Lemma stepped_after a1 a2 a3 : moved a1 a2 -> stepped a2 a3 -> stepped a1 a3.
Proof. intros ? []. split; [by eapply moved_trans|done]. Qed.

Lemma set_timeout_safe (Q : () -> adapter D -> Prop) a :
  ssl_ok a -> sa_state a = SSL_CONNECTING -> sa_owner a = owner ->
  (forall a', stepped a a' -> Q () a') -> safe set_timeout Q a.
Proof.
  intros [Hb Hs Ht] Es Eo HQ. unfold set_timeout. apply st_wp_bind, st_wp_get. rewrite Eo. destruct owner; [|done].
  apply st_wp_put, HQ. destruct (neutral_ok a (upd_sa_timeout (fun _ => true) a)) as [Hm Hb']; [neutral|done|].
  split; [done|]. by split.
Qed.

Lemma continue_safe (Q : Z -> adapter D -> Prop) a :
  base_ok a -> sa_state a = SSL_CONNECTING -> is_Some (sa_ssl a) -> sa_owner a = owner ->
  (forall r a', stepped a a' -> Q r a') -> safe (continue_ssl client_auth) Q a.
Proof.
  intros Hb Es Hs Eo HQ. unfold continue_ssl. apply st_wp_bind, st_wp_put, st_wp_bind, st_wp_get, st_wp_bind.
  set (a1 := upd_sa_timeout _ a). destruct (neutral_ok a a1) as [Hm1 Hb1]; [neutral|done|].
  apply call_ssl_safe; [done|done|]. intros [error no_shared_cipher] a2 [Hm2 Hb2 Es2 Et2 [s Hs2]].
  assert (Hm : moved a a2) by (by eapply moved_trans). assert (Est : sa_state a2 = SSL_CONNECTING) by (by rewrite Es2).
  assert (Hok : ssl_ok a2) by (split; [done|by rewrite Hs2, Est|done]).
  destruct (error =? SSL_ERROR_NONE).
  { unfold set_state. apply st_wp_bind, st_wp_put, st_wp_bind, st_wp_get, st_wp_bind. set (a3 := upd_sa_state _ a2).
    destruct (neutral_ok a2 a3) as [Hm3 Hb3]; [neutral|done|].
    assert (Hok3 : ssl_ok a3) by (split; [done|cbn; by rewrite Hs2|cbn; by rewrite Et2]).
    apply st_wp_if; intros Ew.
    - apply st_wp_put, st_wp_ret, HQ. eapply stepped_after; [exact Hm|]. eapply stepped_after; [exact Hm3|].
      destruct (ssl_emit_ok (SaSignal (Z.lor SE_OPEN (Z.lor SE_READ SE_WRITE)) 0) a3) as [Hm4 Hb4]; [|done|].
      + intros _ Ec. apply (bo_verified _ Hb3). unfold waiting_to_verify in Ew. rewrite Ec in Ew. by destruct (sa_verified a3).
      + split; [done|]. split; [done|apply Hok3..].
    - apply st_wp_ret, HQ. eapply stepped_after; [exact Hm|]. by split. }
  destruct (error =? SSL_ERROR_WANT_READ).
  { unfold ssl_at. apply st_wp_bind, st_wp_bind, st_wp_get. rewrite Hs2. apply st_wp_ret, st_wp_bind.
    destruct (DTLSv1_get_timeout s); [|by apply st_wp_ret, st_wp_ret, HQ].
    apply set_timeout_safe; [done|done|rewrite <- Eo; apply Hm|]. intros a3 H3. apply st_wp_ret, HQ.
    by eapply stepped_after. }
  destruct (error =? SSL_ERROR_WANT_WRITE); [by apply st_wp_ret, HQ|].
  apply st_wp_bind, st_wp_put, st_wp_ret, HQ. eapply stepped_after; [exact Hm|].
  destruct (ssl_emit_ok (SaHandshakeError no_shared_cipher) a2) as [Hm4 Hb4]; [done|done|].
  split; [done|]. split; [done|apply Hok..].
Qed.

(** A handshake that could not begin leaves an adapter to be closed. *)
Lemma begin_safe (Q : Z -> adapter D -> Prop) a :
  base_ok a -> sa_state a = SSL_CONNECTING -> sa_owner a = owner ->
  (forall r a', moved a a' -> base_ok a' -> (r = 0 -> ssl_ok a') -> Q r a') ->
  safe (begin_ssl client_auth legacy) Q a.
Proof.
  intros Hb Es Eo HQ. unfold begin_ssl. apply st_wp_bind, st_wp_get.
  destruct (setup_ssl_context _ _ a) as [ctx|]; [|by apply st_wp_ret, HQ; [apply moved_refl|..]].
  apply st_wp_bind, st_wp_put, st_wp_bind, st_wp_get. set (a1 := upd_sa_ctx _ a).
  destruct (neutral_ok a a1) as [Hm1 Hb1]; [neutral|done|].
  destruct (SSL_new _ ctx) as [s|]; [|by apply st_wp_ret, HQ].
  apply st_wp_bind, st_wp_put. set (a2 := upd_sa_ssl _ a1). destruct (neutral_ok a1 a2) as [Hm2 Hb2]; [neutral|done|].
  apply continue_safe; [done|done|by eexists|done|]. intros r a3 [Hm3 Hok3].
  apply HQ; [by do 2 (eapply moved_trans; [done|])|apply Hok3|done].
Qed.

Lemma start_safe (Q : Z -> adapter D -> Prop) a :
  ssl_ok a -> sa_owner a = owner -> (forall r a', stepped a a' -> Q r a') -> safe (start_ssl client_auth legacy) Q a.
Proof.
  intros Hok Eo HQ. unfold start_ssl. apply st_wp_bind, st_wp_get. case_bool_decide as Es; cbn [negb];
    [|apply st_wp_ret, HQ; by split; [apply moved_refl|]].
  apply st_wp_bind, st_wp_get. assert (En : sa_ssl a = None).
  { destruct (sa_ssl a) eqn:E; [|done]. pose proof (so_ssl a Hok) as El. by rewrite E, Es in El. }
  assert (Et : sa_timeout a = false).
  { destruct (sa_timeout a) eqn:E; [|done]. apply (so_timeout a Hok) in E. congruence. }
  unfold set_state. case_bool_decide as Eopen; cbn [negb].
  - apply st_wp_bind, st_wp_put, st_wp_bind. set (a1 := upd_sa_state _ a).
    destruct (neutral_ok a a1) as [Hm1 Hb1]; [neutral|apply Hok|].
    apply begin_safe; [done..|]. intros err a2 Hm2 Hb2 H2. destruct (err =? 0) eqn:Ee.
    + apply st_wp_ret, HQ. eapply stepped_after; [exact Hm1|]. split; [done|]. apply H2. lia.
    + apply st_wp_bind, ssl_error_safe; [done|]. intros a3 Hc%closed_stepped. apply st_wp_ret, HQ.
      do 2 (eapply stepped_after; [done|]). done.
  - apply st_wp_bind, st_wp_put, st_wp_ret, HQ. set (a1 := upd_sa_state _ a).
    destruct (neutral_ok a a1) as [Hm1 Hb1]; [neutral|apply Hok|]. split; [done|]. split; [done|cbn; by rewrite En|].
    cbn. by rewrite Et.
Qed.
(** ** Events *)

Lemma has_lor x y e : has (Z.lor x y) e = has x e || has y e.
Proof.
  unfold has. rewrite Z.land_lor_distr_l.
  destruct (Z.eqb_spec (Z.lor (Z.land x e) (Z.land y e)) 0) as [E|E];
    destruct (Z.eqb_spec (Z.land x e) 0), (Z.eqb_spec (Z.land y e) 0); cbn; try done;
    rewrite ?Z.lor_eq_0_iff in E; [tauto..|].
  exfalso. apply E. by split.
Qed.

Lemma has_open_masked x : has (Z.land x (Z.lor SE_READ SE_WRITE)) SE_OPEN = false.
Proof. unfold has. by rewrite <- Z.land_assoc, Z.land_0_r. Qed.

(** A signal of anything but an opening. *)
Lemma signal_safe sig err (Q : () -> adapter D -> Prop) a :
  has sig SE_OPEN = false -> ssl_ok a -> (forall a', stepped a a' -> Q () a') -> safe (signal sig err) Q a.
Proof.
  intros Es Hok HQ. apply st_wp_put, HQ. destruct (ssl_emit_ok (SaSignal sig err) a) as [Hm Hb]; [cbn; congruence|apply Hok|].
  split; [done|]. split; [done|apply Hok..].
Qed.

Lemma stepped_refl a : ssl_ok a -> stepped a a.
Proof. intros. by split; [apply moved_refl|]. Qed.

(** [Error] when the step before failed. *)
Lemma or_error_safe (sig e : Z) (Q : option Z -> adapter D -> Prop) a :
  base_ok a -> (e = 0 -> ssl_ok a) -> (forall o a', stepped a a' -> o = None \/ o = Some sig -> Q o a') ->
  safe (if e =? 0 then mret (Some sig) else _ ← ssl_error e true; mret None) Q a.
Proof.
  intros Hb Hok HQ. destruct (e =? 0) eqn:Ee.
  - apply st_wp_ret, HQ; [|by right]. apply stepped_refl, Hok. lia.
  - apply st_wp_bind, ssl_error_safe; [done|]. intros a' Hc%closed_stepped. apply st_wp_ret, HQ; [done|by left].
Qed.

(** The two halves of [OnEvent]. *)
Lemma opened_safe events (Q : option Z -> adapter D -> Prop) a :
  ssl_ok a -> sa_owner a = owner -> negb (has events SE_OPEN) || bool_decide (sa_state a = SSL_WAIT) = true ->
  (forall o a', stepped a a' -> o = None \/ o = Some 0 -> Q o a') ->
  safe (if has events SE_OPEN then
          if negb (bool_decide (sa_state a = SSL_WAIT)) then mret (Some SE_OPEN)
          else _ ← set_state SSL_CONNECTING; e ← begin_ssl client_auth legacy;
               if e =? 0 then mret (Some 0) else _ ← ssl_error e true; mret None
        else mret (Some 0)) Q a.
Proof.
  intros Hok Eo Hev HQ. destruct (has events SE_OPEN); cbn [negb orb] in Hev;
    [|apply st_wp_ret, HQ; [by apply stepped_refl|by right]].
  rewrite Hev. cbn [negb]. unfold set_state. apply st_wp_bind, st_wp_put, st_wp_bind. set (a1 := upd_sa_state _ a).
  destruct (neutral_ok a a1) as [Hm1 Hb1]; [neutral|apply Hok|].
  apply begin_safe; [done..|]. intros e a2 Hm2 Hb2 H2. apply or_error_safe; [done|done|]. intros o a3 H3 Ho.
  apply HQ; [|done]. by do 2 (eapply stepped_after; [done|]).
Qed.

Lemma ready_safe events (Q : option Z -> adapter D -> Prop) a :
  ssl_ok a -> sa_owner a = owner ->
  (forall o a', stepped a a' -> (forall sig, o = Some sig -> has sig SE_OPEN = false) -> Q o a') ->
  safe (if has events (Z.lor SE_READ SE_WRITE) then
          match sa_state a with
          | SSL_NONE => mret (Some (Z.lor 0 (Z.land events (Z.lor SE_READ SE_WRITE))))
          | SSL_CONNECTING =>
              e ← continue_ssl client_auth;
              if e =? 0 then mret (Some 0) else _ ← ssl_error e true; mret None
          | SSL_CONNECTED =>
              read_needs_write ← get sa_read_needs_write;
              write_needs_read ← get sa_write_needs_read;
              let sig := if (has events SE_READ && write_needs_read) || has events SE_WRITE
                         then Z.lor 0 SE_WRITE else 0 in
              let sig := if (has events SE_WRITE && read_needs_write) || has events SE_READ
                         then Z.lor sig SE_READ else sig in
              mret (Some sig)
          | _ => mret (Some 0)
          end
        else mret (Some 0)) Q a.
Proof.
  intros Hok Eo HQ.
  assert (Hret : forall sig, has sig SE_OPEN = false -> safe (mret (Some sig)) Q a).
  { intros sig Hs. apply st_wp_ret, HQ; [by apply stepped_refl|]. by intros ? [= <-]. }
  destruct (has events (Z.lor SE_READ SE_WRITE)); [|by apply Hret].
  destruct (sa_state a) eqn:Es; try (by apply Hret).
  - apply Hret. rewrite Z.lor_0_l. apply has_open_masked.
  - apply st_wp_bind, continue_safe; [apply Hok|done| |done|].
    { pose proof (so_ssl a Hok) as El. rewrite Es in El. by apply bool_decide_eq_true in El. }
    intros e a1 [Hm1 Hok1]. apply or_error_safe; [apply Hok1|done|]. intros o a2 H2 Ho. apply HQ.
    + by eapply stepped_after.
    + intros sig ->. by destruct Ho as [?|[= ->]].
  - apply st_wp_bind, st_wp_get, st_wp_bind, st_wp_get. apply Hret. by do 2 case_match.
Qed.

Lemma on_event_safe events err (Q : () -> adapter D -> Prop) a :
  ssl_ok a -> sa_owner a = owner -> negb (has events SE_OPEN) || bool_decide (sa_state a = SSL_WAIT) = true ->
  (forall a', stepped a a' -> Q () a') -> safe (on_event client_auth legacy events err) Q a.
Proof.
  intros Hok Eo Hev HQ. unfold on_event. apply st_wp_bind, st_wp_get, st_wp_bind. apply opened_safe; [done..|].
  intros o a1 [Hm1 Hok1] [->| ->]; [by apply st_wp_ret, HQ|].
  apply st_wp_bind, st_wp_get, st_wp_bind. apply ready_safe; [done|rewrite <- Eo; apply Hm1|].
  intros [sig|] a2 [Hm2 Hok2] Hsig; [|apply st_wp_ret, HQ; by eapply stepped_after].
  specialize (Hsig sig eq_refl). destruct (has events SE_CLOSE).
  - apply st_wp_bind, cleanup_safe; [apply Hok2|]. intros a3 Hc%closed_stepped. apply signal_safe; [|apply Hc|].
    + by rewrite has_lor, Hsig.
    + intros a4 H4. apply HQ. do 2 (eapply stepped_after; [done|]). eapply stepped_after; [apply Hc|done].
  - apply st_wp_if; intros _; [|by apply HQ; eapply stepped_after].
    apply signal_safe; [done|done|]. intros a3 H3. apply HQ. by do 2 (eapply stepped_after; [done|]).
Qed.
(** ** Data *)

(** Bytes go through a started adapter only for an authenticated peer. *)
Definition guarded a (data : bytes) a' : Prop :=
  sa_state a <> SSL_NONE -> data <> [] -> client_auth = true -> authenticated a'.

Lemma on_stream_stepped {X} (f : St D X) (Q : X -> adapter D -> Prop) a :
  post f (fun _ d => si_ok d) (sa_stream a) -> ssl_ok a ->
  (forall x a', stepped a a' -> Q x a') -> safe (on_stream f) Q a.
Proof.
  intros Hp Hok HQ. apply on_stream_safe; [done|apply Hok|]. intros x a' [Hm Hb Es Et Ess _ _].
  apply HQ. split; [done|]. destruct Hok. by split; rewrite ?Es, ?Et, ?Ess.
Qed.

Lemma call_stepped {R} (f : SSL -> ssl_call (R * SSL)) (Q : R -> adapter D -> Prop) a :
  ssl_ok a -> live (sa_state a) = true ->
  (forall r a', stepped a a' -> sa_state a' = sa_state a -> Q r a') -> safe (call_ssl f) Q a.
Proof.
  intros Hok Hl HQ. apply call_ssl_safe; [apply Hok| |].
  { pose proof (so_ssl a Hok) as El. rewrite Hl in El. by apply bool_decide_eq_true in El. }
  intros r a' [Hm Hb Es Et Hs]. apply HQ; [|done]. split; [done|]. split; [done| |by rewrite Et, Es; apply Hok].
  rewrite Es, Hl. by apply bool_decide_eq_true.
Qed.

Lemma neutral_stepped a a' :
  neutral a a' -> sa_ssl a' = sa_ssl a -> sa_state a' = sa_state a -> sa_timeout a' = sa_timeout a -> ssl_ok a ->
  stepped a a'.
Proof.
  intros Hn E1 E2 E3 [Hb Hs Ht]. destruct (neutral_ok a a' Hn Hb) as [Hm Hb']. split; [done|].
  by split; rewrite ?E1, ?E2, ?E3.
Qed.

Lemma verified_connected a : sa_verified a = true \/ client_auth = false -> base_ok a -> client_auth = true -> authenticated a.
Proof. intros [Hv|Hv] Hb Hc; [by apply (bo_verified _ Hb)|congruence]. Qed.

Lemma not_waiting a : waiting_to_verify client_auth a = false -> sa_verified a = true \/ client_auth = false.
Proof. unfold waiting_to_verify. destruct client_auth, (sa_verified a); auto. Qed.

Lemma write_safe data (Q : StreamResult * nat -> adapter D -> Prop) a :
  ssl_ok a ->
  (forall r a', stepped a a' -> guarded a (take (snd r) data) a' -> Q r a') -> safe (ssl_write_data client_auth data) Q a.
Proof.
  intros Hok HQ. unfold ssl_write_data. apply st_wp_bind, st_wp_get, st_wp_bind, st_wp_get.
  assert (Hret : forall r, snd r = 0%nat -> safe (mret r) Q a).
  { intros [r n] [= ->]. apply st_wp_ret, HQ; [by apply stepped_refl|by intros ? []]. }
  destruct (sa_state a) eqn:Es; try (by apply Hret).
  - apply on_stream_stepped; [apply si_write_ok, Hok|done|]. intros r a' Hst. apply HQ; [done|]. intros []. done.
  - destruct (waiting_to_verify client_auth a) eqn:Ew; [by apply Hret|]. case_bool_decide; [by apply Hret|].
    apply st_wp_bind, st_wp_put, st_wp_bind. set (a1 := upd_sa_write_needs_read _ a).
    assert (Hst1 : stepped a a1) by (apply neutral_stepped; [neutral|done..]).
    apply call_stepped; [apply Hst1|cbn; by rewrite Es|]. intros [code|error] a2 Hst2 _.
    + apply st_wp_ret, HQ; [eapply stepped_after; [apply Hst1|done]|]. intros _ _ Hc.
      eapply moved_authenticated; [apply Hst2|]. eapply moved_authenticated; [apply Hst1|].
      apply verified_connected; [by apply not_waiting|apply Hok|done].
    + assert (Hend : forall a3, stepped a2 a3 -> safe (mret (SR_BLOCK, 0%nat)) Q a3 /\ safe (mret (SR_ERROR, 0%nat)) Q a3).
      { intros a3 Hst3. split; apply st_wp_ret, HQ; try (by intros ? []);
          (eapply stepped_after; [apply Hst1|]; eapply stepped_after; [apply Hst2|done]). }
      destruct (error =? SSL_ERROR_WANT_READ).
      { apply st_wp_bind, st_wp_put. apply Hend, neutral_stepped; [neutral|done..|apply Hst2]. }
      destruct (error =? SSL_ERROR_WANT_WRITE); [apply Hend, stepped_refl, Hst2|].
      apply st_wp_bind, ssl_error_safe; [apply Hst2|]. intros a3 Hc%closed_stepped. by apply Hend.
Qed.

Lemma flush_safe fuel left (Q : () -> adapter D -> Prop) a :
  ssl_ok a -> live (sa_state a) = true -> (forall a', stepped a a' -> Q () a') -> safe (flush_input fuel left) Q a.
Proof.
  revert left a. induction fuel as [|fuel IH]; intros left a Hok Hl HQ; [|destruct left as [|left]];
    [destruct left; apply st_wp_ret, HQ, stepped_refl, Hok|apply st_wp_ret, HQ, stepped_refl, Hok|].
  cbn [flush_input]. apply st_wp_bind, call_stepped; [done|done|]. intros [[b data]|error] a1 Hst1 Es.
  - apply IH; [apply Hst1|by rewrite Es|]. intros a2 Hst2. apply HQ. by eapply stepped_after; [apply Hst1|].
  - apply ssl_error_safe; [apply Hst1|]. intros a2 Hc%closed_stepped. apply HQ. by eapply stepped_after; [apply Hst1|].
Qed.

Lemma read_safe len (Q : StreamResult * bytes -> adapter D -> Prop) a :
  ssl_ok a -> (forall r a', stepped a a' -> guarded a (snd r) a' -> Q r a') -> safe (ssl_read_data client_auth len) Q a.
Proof.
  intros Hok HQ. unfold ssl_read_data. apply st_wp_bind, st_wp_get, st_wp_bind, st_wp_get.
  assert (Hret : forall r a', stepped a a' -> safe (mret (r, [])) Q a').
  { intros r a' Hst. apply st_wp_ret, HQ; [done|by intros ? []]. }
  pose proof (stepped_refl a Hok) as Hrefl.
  destruct (sa_state a) eqn:Es; try (by apply Hret).
  - apply on_stream_stepped; [apply si_read_ok, Hok|done|]. intros r a' Hst. apply HQ; [done|]. intros []. done.
  - destruct (waiting_to_verify client_auth a) eqn:Ew; [by apply Hret|]. case_bool_decide; [by apply Hret|].
    apply st_wp_bind, st_wp_put, st_wp_bind. set (a1 := upd_sa_read_needs_write _ a).
    assert (Hst1 : stepped a a1) by (apply neutral_stepped; [neutral|done..]).
    apply call_stepped; [apply Hst1|cbn; by rewrite Es|]. intros r a2 Hst2 Es2. cbn in Es2. rewrite Es in Es2.
    assert (Hm : moved a a2) by (eapply moved_trans; [apply Hst1|apply Hst2]). assert (Hok2 : ssl_ok a2) by apply Hst2.
    assert (Hret2 : forall r a', stepped a2 a' -> safe (mret (r, [])) Q a').
    { intros r' a' Hst. apply Hret. by eapply stepped_after. }
    destruct r as [[b data]|error].
    + apply st_wp_bind, st_wp_get, st_wp_bind. unfold ssl_at. apply st_wp_bind, st_wp_get.
      assert (Hs : is_Some (sa_ssl a2)).
      { pose proof (so_ssl a2 Hok2) as El. rewrite Es2 in El. by apply bool_decide_eq_true in El. }
      destruct Hs as [s Hs]. rewrite Hs. apply st_wp_ret. destruct (bool_decide _ && _).
      * apply st_wp_bind, flush_safe; [done|by rewrite Es2|]. intros a3 Hst3. by apply Hret2.
      * apply st_wp_ret, HQ; [by split|]. intros _ _ Hc. eapply moved_authenticated; [exact Hm|].
        apply verified_connected; [by apply not_waiting|apply Hok|done].
    + destruct (error =? SSL_ERROR_WANT_READ); [by apply Hret2, stepped_refl|].
      destruct (error =? SSL_ERROR_WANT_WRITE).
      { apply st_wp_bind, st_wp_put, Hret2, neutral_stepped; [neutral|done..]. }
      destruct (error =? SSL_ERROR_ZERO_RETURN).
      * apply st_wp_bind, close_safe; [apply Hok2|]. intros a3 Hc%closed_stepped. by apply Hret2.
      * apply st_wp_bind, ssl_error_safe; [apply Hok2|]. intros a3 Hc%closed_stepped. by apply Hret2.
Qed.
(** ** Timers, posted events and the digest *)

Lemma timeout_task_safe (Q : () -> adapter D -> Prop) a :
  ssl_ok a -> sa_owner a = owner -> sa_timeout a = true -> (forall a', stepped a a' -> Q () a') ->
  safe (timeout_task client_auth) Q a.
Proof.
  intros Hok Eo Et HQ. pose proof (so_timeout a Hok Et) as Es. unfold timeout_task.
  apply st_wp_bind, st_wp_put, st_wp_bind. set (a1 := upd_sa_timeout _ a).
  assert (Hst1 : stepped a a1).
  { destruct (neutral_ok a a1) as [Hm Hb]; [neutral|apply Hok|]. split; [done|]. split; [done|apply Hok|done]. }
  apply call_stepped; [apply Hst1|cbn; by rewrite Es|]. intros r a2 [Hm2 Hok2] Es2. cbn in Es2. rewrite Es in Es2.
  apply st_wp_bind, continue_safe; [apply Hok2|done| | |].
  - pose proof (so_ssl a2 Hok2) as El. rewrite Es2 in El. by apply bool_decide_eq_true in El.
  - rewrite (mv_owner _ _ Hm2). done.
  - intros e a3 Hst3. apply st_wp_ret, HQ. eapply stepped_after; [apply Hst1|]. by eapply stepped_after.
Qed.

Lemma posted_event_safe (Q : () -> adapter D -> Prop) a :
  ssl_ok a -> sa_posted a <> [] -> (forall a', stepped a a' -> Q () a') -> safe posted_event Q a.
Proof.
  intros Hok Hp HQ. unfold posted_event. apply st_wp_bind, st_wp_get.
  pose proof (bo_posted _ (so_base _ Hok) Hp) as Hau. destruct (sa_posted a) as [|[events err] l] eqn:El; [done|].
  apply st_wp_bind, st_wp_put. set (a1 := upd_sa_posted _ a).
  assert (Hm1 : moved a a1) by (by apply moved_refl).
  assert (Hok1 : ssl_ok a1).
  { split; [split|apply Hok..]; [apply (bo_stream _ (so_base _ Hok))|intros _; exact Hau..|apply (bo_cert _ (so_base _ Hok))]. }
  apply st_wp_put, HQ. eapply stepped_after; [exact Hm1|].
  destruct (ssl_emit_ok (SaSignal events err) a1) as [Hm2 Hb2]; [intros _ _; exact Hau|apply Hok1|].
  split; [done|]. split; [done|apply Hok1..].
Qed.

(** An operation from outside: as [stepped], but the digest may be set. *)
Record result a a' : Prop := {
  rs_ok : ssl_ok a';
  rs_owner : sa_owner a' = sa_owner a;
  rs_out : exists evs, sa_out a' = sa_out a ++ evs /\
    forall e, In e evs -> opening e = true -> client_auth = true -> authenticated a';
}.

Lemma stepped_result a a' : stepped a a' -> result a a'.
Proof. intros [[] ?]. by split. Qed.

Lemma post_event_safe events err (Q : () -> adapter D -> Prop) a :
  ssl_ok a -> authenticated a -> sa_owner a = owner -> (forall a', stepped a a' -> Q () a') ->
  safe (post_event events err) Q a.
Proof.
  intros [Hb Hs Ht] Hau Eo HQ. unfold post_event. apply st_wp_bind, st_wp_get. rewrite Eo. destruct owner; [|done].
  apply st_wp_put, HQ. split; [by apply moved_refl|].
  split; [split|done..]; [apply Hb|intros _; exact Hau..|apply (bo_cert _ Hb)].
Qed.

Lemma set_digest_safe alg digest (Q : bool * SSLPeerCertificateDigestError -> adapter D -> Prop) a :
  ssl_ok a -> sa_owner a = owner -> sa_verified a = false -> has_peer_certificate_digest a = false ->
  (forall r a', result a a' -> Q r a') -> safe (set_peer_certificate_digest alg digest) Q a.
Proof.
  intros Hok Eo Hv Hh HQ. unfold set_peer_certificate_digest.
  assert (Hrefl : result a a) by (by apply stepped_result, stepped_refl).
  destruct (GetDigestSize alg) as [len|]; [|by apply st_wp_ret, HQ].
  case_bool_decide; cbn [negb]; [|by apply st_wp_ret, HQ].
  apply st_wp_bind, st_wp_put, st_wp_bind, st_wp_put, st_wp_bind, st_wp_get.
  match goal with |- safe _ _ ?x => set (a1 := x) end.
  assert (Hok1 : ssl_ok a1).
  { destruct Hok as [[Hs _ Hp Hc] Hss Ht]. split; [|done..]. split; [done|cbn; congruence| |done].
    cbn. intros Hne. destruct (Hp Hne) as (? & _ & _ & E). congruence. }
  assert (Hres : forall a2, stepped a1 a2 -> result a a2) by (intros a2 [[] ?]; by split).
  destruct (sa_peer_cert a1) as [cert|]; [|by apply st_wp_ret, HQ, Hres, stepped_refl].
  apply st_wp_bind, verify_safe; [apply Hok1|]. intros b a2 [Hm2 Hb2 Es2 Et2 Ess2 _ _] Hau.
  assert (Hst2 : stepped a1 a2) by (destruct Hok1; split; [done|]; by split; rewrite ?Es2, ?Et2, ?Ess2).
  destruct b; cbn [negb].
  - apply st_wp_bind, st_wp_get, st_wp_bind. apply st_wp_if; intros _; [|by apply st_wp_ret, HQ, Hres].
    apply post_event_safe; [apply Hst2|by apply Hau|by rewrite (mv_owner _ _ Hm2)|]. intros a3 Hst3.
    apply st_wp_ret, HQ, Hres. by eapply stepped_after.
  - apply st_wp_bind, ssl_error_safe; [done|]. intros a3 Hc%closed_stepped. apply st_wp_ret, HQ, Hres.
    by eapply stepped_after.
Qed.

(** ** Runs *)

Definition input_fits (i : ssl_input) a : Prop :=
  ssl_input_ok i a = true /\ match i with SaStream d => si_ok d | _ => True end.

Lemma handle_safe i (Q : StreamResult * bytes -> adapter D -> Prop) a :
  ssl_ok a -> sa_owner a = owner -> input_fits i a ->
  (forall r a', result a a' -> guarded a (snd r) a' -> Q r a') -> safe (ssl_handle client_auth legacy i) Q a.
Proof.
  intros Hok Eo [Hi Hd] HQ.
  assert (Hret : forall a', stepped a a' -> safe (mret (SR_BLOCK, [])) Q a').
  { intros a' Hst. apply st_wp_ret, HQ; [by apply stepped_result|by intros ? []]. }
  destruct i as [identity|role|mode|v|alg digest|ciphers| |len|data| |label len| |events err| | |d];
    cbn [ssl_handle ssl_input_ok] in *.
  - apply st_wp_bind, st_wp_put, Hret, neutral_stepped; [neutral|done..].
  - apply st_wp_bind, st_wp_put, Hret, neutral_stepped; [neutral|done..].
  - apply st_wp_bind, st_wp_put, Hret, neutral_stepped; [neutral|done..].
  - apply st_wp_bind, st_wp_put, Hret, neutral_stepped; [neutral|done..].
  - apply andb_true_iff in Hi as [Hv%negb_true_iff Hh%negb_true_iff]. apply st_wp_bind, set_digest_safe; [done..|].
    intros r a' Hr. apply st_wp_ret, HQ; [done|by intros ? []].
  - unfold set_dtls_srtp_crypto_suites. apply st_wp_bind, st_wp_bind, st_wp_get.
    case_bool_decide; cbn [negb]; [|by apply st_wp_ret, Hret, stepped_refl].
    destruct (cipher_names ciphers []) as [[|b names]|]; [by apply st_wp_ret, Hret, stepped_refl| |by apply st_wp_ret, Hret, stepped_refl].
    apply st_wp_bind, st_wp_put, st_wp_ret, Hret, neutral_stepped; [neutral|done..].
  - apply st_wp_bind, start_safe; [done..|]. intros r a' Hst. by apply Hret.
  - apply read_safe; [done|]. intros r a' Hst. by apply HQ, stepped_result.
  - apply st_wp_bind, write_safe; [done|]. intros [r n] a' Hst Hg. by apply st_wp_ret, HQ; [apply stepped_result|].
  - apply st_wp_bind, close_safe; [apply Hok|]. intros a' Hc%closed_stepped. by apply Hret.
  - assert (Hs : is_Some (sa_ssl a)).
    { pose proof (so_ssl a Hok) as El. apply (proj1 (bool_decide_eq_true _)). rewrite El. by destruct (sa_state a). }
    destruct Hs as [s Hs]. unfold ssl_export_keying_material, ssl_at. do 3 apply st_wp_bind. apply st_wp_get. rewrite Hs.
    by apply st_wp_ret, st_wp_ret, Hret, stepped_refl.
  - unfold get_dtls_srtp_crypto_suite. do 2 apply st_wp_bind. apply st_wp_get. case_bool_decide as Es; cbn [negb];
      [|by apply st_wp_ret, Hret, stepped_refl].
    pose proof (so_ssl a Hok) as El. rewrite Es in El. apply bool_decide_eq_true in El as [s Hs].
    unfold ssl_at. do 2 apply st_wp_bind. apply st_wp_get. rewrite Hs. by apply st_wp_ret, st_wp_ret, Hret, stepped_refl.
  - apply st_wp_bind, on_event_safe; [done..|]. intros a' Hst. by apply Hret.
  - apply st_wp_bind, timeout_task_safe; [done..|]. intros a' Hst. by apply Hret.
  - apply negb_true_iff, bool_decide_eq_false in Hi. apply st_wp_bind, posted_event_safe; [done..|].
    intros a' Hst. by apply Hret.
  - apply st_wp_bind, st_wp_put, Hret. destruct Hok as [[Hs Hv Hp Hc] Hss Ht]. split; [by apply moved_refl|].
    split; [by split|done..].
Qed.
Inductive ssl_reachable : adapter D -> Prop :=
  | ssl_new d : si_ok d -> ssl_reachable (new_adapter d owner)
  | ssl_next i r a a' :
      ssl_reachable a -> input_fits i a -> ssl_handle client_auth legacy i a = Done (r, a') -> ssl_reachable a'.

Lemma reachable_ssl_ok a : ssl_reachable a -> ssl_ok a /\ sa_owner a = owner.
Proof.
  induction 1 as [d Hd|i r a a' _ [Hok Eo] Hi E].
  - by split; [split; [split|..]|].
  - pose proof (handle_safe i (fun r a' => result a a') a Hok Eo Hi ltac:(by auto)) as Hw. unfold wp in Hw. rewrite E in Hw.
    destruct Hw as [Hok' Eo' _]. by rewrite Eo'.
Qed.

Lemma ssl_handle_spec i a :
  ssl_reachable a -> input_fits i a ->
  safe (ssl_handle client_auth legacy i) (fun r a' => result a a' /\ guarded a (snd r) a') a.
Proof. intros [Hok Eo]%reachable_ssl_ok Hi. by apply handle_safe. Qed.
End theory.

Arguments ssl_reachable {D _ _ _} _ _ _ _.

(** C3: a DTLS connection belongs to the peer of the signaling.  Whatever
    OpenSSL and the network do, once the engine has started it is open, says
    that it has opened, and takes or gives data only after the peer has shown,
    in this connection, a certificate whose digest is the announced one. *)
Theorem ssl_peer_authenticated {D} `{StreamLaws D} `{OpenSSL} (legacy owner : bool) (i : ssl_input) (a a' : adapter D)
    (result : StreamResult) (data : bytes) :
  ssl_reachable true legacy owner a -> input_fits i a -> ssl_handle true legacy i a = Done (result, data, a') ->
  (get_state true a' = SS_OPEN -> authenticated a') /\
  (sa_state a <> SSL_NONE -> data <> [] -> authenticated a') /\
  (forall events err, In (SaSignal events err) (drop (length (sa_out a)) (sa_out a')) ->
     has events SE_OPEN = true -> authenticated a').
Proof.
  intros Hr Hi E. pose proof (ssl_handle_spec true legacy owner i a Hr Hi) as Hs. unfold wp in Hs. rewrite E in Hs.
  destruct Hs as [[Hok _ (evs & Eo & Hev)] Hg]. split_and!.
  - unfold get_state. destruct (sa_state a'); try done. destruct (waiting_to_verify true a') eqn:Ew; [done|]. intros _.
    eapply verified_connected; [by apply not_waiting|apply Hok|done].
  - intros. by apply Hg.
  - intros events err. rewrite Eo, drop_app_length. intros Hin Ho. by eapply Hev.
Qed.

(** C5: the engine uses only the objects it has.  In every reachable state it
    has a connection object exactly while it is connecting or connected, and its
    retransmission timer runs only while it is connecting; and every operation
    and every event ends normally, whatever OpenSSL answers, unless the thread
    that made it has no [rtc::Thread]. *)
Theorem ssl_adapter_safe {D} `{StreamLaws D} `{OpenSSL} (client_auth legacy owner : bool) (i : ssl_input) (a : adapter D) :
  ssl_reachable client_auth legacy owner a -> input_fits i a ->
  (is_Some (sa_ssl a) <-> sa_state a = SSL_CONNECTING \/ sa_state a = SSL_CONNECTED) /\
  (sa_timeout a = true -> sa_state a = SSL_CONNECTING) /\
  match ssl_handle client_auth legacy i a with
  | Done _ => True
  | Throws _ => False
  | Undef u => u = null_deref /\ owner = false
  end.
Proof.
  intros Hr Hi. destruct (reachable_ssl_ok _ _ _ a Hr) as [[_ Hs Ht] _]. split_and!; [|done|].
  - assert (El : is_Some (sa_ssl a) <-> live (sa_state a) = true) by (rewrite <- Hs; symmetry; apply bool_decide_eq_true).
    rewrite El. by destruct (sa_state a); cbn; intuition.
  - pose proof (ssl_handle_spec _ _ owner i a Hr Hi) as Hw. unfold wp in Hw. by destruct (ssl_handle _ _ _ _).
Qed.

(** The engine needs a thread that runs posted tasks, which the workers of
    the program are not.  On a thread without an [rtc::Thread] a handshake that
    waits for the peer while its retransmission timer runs is undefined; and
    when the fingerprint comes after the handshake, the engine does not say
    that it has opened: it posts that to its thread, or is undefined. *)
Theorem engine_needs_thread {D} `{StreamLaws D} `{OpenSSL} (client_auth legacy owner : bool) (a : adapter D) :
  ssl_reachable client_auth legacy owner a ->
  (forall no_cipher a1 s delay, owner = false -> sa_state a = SSL_CONNECTING ->
   call_ssl (if bool_decide (sa_role a = SSL_CLIENT) then SSL_connect else SSL_accept)
     (upd_sa_timeout (fun _ => false) a) = Done (SSL_ERROR_WANT_READ, no_cipher, a1) ->
   sa_ssl a1 = Some s -> DTLSv1_get_timeout s = Some delay ->
   continue_ssl client_auth a = Undef null_deref) /\
  (forall alg digest cert, sa_state a = SSL_CONNECTED -> sa_peer_cert a = Some cert ->
    GetDigestSize alg = Some (length digest) -> ComputeDigest alg cert = Some digest -> digest <> [] -> alg <> [] ->
    match set_peer_certificate_digest alg digest a with
    | Done (r, a') => r = (true, NONE) /\ owner = true /\ sa_out a' = sa_out a /\ get_state client_auth a' = SS_OPEN
    | Throws _ => False
    | Undef u => u = null_deref /\ owner = false
    end).
Proof.
  intros Hr. destruct (reachable_ssl_ok _ _ _ a Hr) as [Hok Eo]. split.
  - intros no_cipher a1 s delay -> Est E Es Et.
    assert (Eo1 : sa_owner a1 = false).
    { set (a0 := upd_sa_timeout _ a) in E. assert (Hn : neutral a a0) by (split_and!; try reflexivity; by left).
      destruct (neutral_ok client_auth a a0 Hn (so_base a Hok)) as [Hm Hb].
      pose proof (call_ssl_safe client_auth false
        (if bool_decide (sa_role a = SSL_CLIENT) then SSL_connect else SSL_accept)
        (fun _ a' => sa_owner a' = false) a0 Hb) as Hw. unfold wp in Hw. rewrite E in Hw. apply Hw.
      - pose proof (so_ssl a Hok) as El. rewrite Est in El. by apply bool_decide_eq_true in El.
      - intros r a' [Hm' _ _ _ _]. by rewrite (mv_owner _ _ _ Hm'). }
    unfold continue_ssl, mbind, St_bind, put, get. change (sa_role (upd_sa_timeout _ a)) with (sa_role a). rewrite E.
    cbn -[set_timeout]. unfold ssl_at, mbind, St_bind, get. rewrite Es. cbn -[set_timeout]. rewrite Et.
    unfold set_timeout, mbind, St_bind, get. by rewrite Eo1.
  - intros alg digest cert Es Ec Esz Ed Hd Ha. unfold set_peer_certificate_digest. rewrite Esz, bool_decide_true by done.
    cbn [negb]. unfold mbind, St_bind, put, get. cbn -[verify_peer_certificate post_event if_ ssl_error]. rewrite Ec.
    unfold verify_peer_certificate, mbind, St_bind, get. cbn -[post_event if_ ssl_error ComputeDigest]. rewrite Ec, Ed.
    unfold has_peer_certificate_digest. cbn -[post_event if_ ssl_error]. rewrite !bool_decide_false by done. cbn -[post_event if_].
    rewrite bool_decide_true by done. cbn -[post_event if_]. rewrite Es, bool_decide_true by done. cbn.
    unfold if_, post_event, mbind, St_bind, get. cbn. rewrite <- Eo. destruct (sa_owner a); cbn; [|by split].
    split_and!; try done. unfold get_state. cbn. rewrite Es. unfold waiting_to_verify. cbn. by destruct client_auth.
Qed.

(** [FlushInput] takes what it was told to, in as many turns as there are bytes
    at most: more fuel changes nothing. *)
Lemma flush_input_fuel {D} `{StreamI D} `{OpenSSL} fuel left (a : adapter D) :
  (left <= fuel)%nat -> flush_input fuel left a = flush_input left left a.
Proof.
  assert (Hgen : forall f1 f2 l (a : adapter D), (l <= f1)%nat -> (l <= f2)%nat -> flush_input f1 l a = flush_input f2 l a).
  { induction f1 as [|f1 IH]; intros f2 l a0 L1 L2.
    - replace l with 0%nat by lia. by destruct f2.
    - destruct l as [|l]; [by destruct f2|]. destruct f2 as [|f2]; [lia|]. cbn [flush_input].
      unfold mbind, St_bind. destruct (call_ssl _ a0) as [[[[b data]|error] a1]| |]; [|done..].
      apply IH; cbn [length]; rewrite length_take; cbn [length]; lia. }
  intros L. by apply Hgen.
Qed.

(** ** A handshake *)

(** An OpenSSL whose server answers a hello, with its timer running, and
    accepts the peer's certificate 9 if the callback does. *)
Definition toy_openssl : OpenSSL := {|
  SSL_CTX := unit;
  SSL := nat;
  SSL_CTX_new := fun _ => Some ();
  SSL_CTX_set_proto_versions := fun _ _ ctx => ctx;
  SSL_CTX_use_certificate := fun _ ctx => Some ctx;
  SSL_CTX_use_PrivateKey := fun _ ctx => Some ctx;
  SSL_CTX_add1_chain_cert := fun _ ctx => Some ctx;
  SSL_CTX_set_verify := fun _ ctx => ctx;
  SSL_CTX_set_cipher_list := fun _ ctx => ctx;
  SSL_CTX_set_tlsext_use_srtp := fun _ ctx => Some ctx;
  SSL_new := fun _ _ => Some 0%nat;
  SSL_connect := fun s => SslRet (1, false, s);
  SSL_accept := fun s => BioRead 2048 (fun o _ =>
    match o with
    | None => SslRet (SSL_ERROR_WANT_READ, false, s)
    | Some _ =>
        match s with
        | O => BioWrite (str "hello") (fun _ _ => SslRet (SSL_ERROR_WANT_READ, false, 1%nat))
        | S _ => CertVerify 9 (fun ok => SslRet (if ok then SSL_ERROR_NONE else 1, false, 2%nat))
        end
    end);
  SSL_read := fun len s => SslRet (inl (x01, []), s);
  SSL_write := fun data s => SslRet (inl (length data), s);
  SSL_pending := fun _ => 0;
  SSL_shutdown := fun s => SslRet s;
  DTLSv1_get_timeout := fun s => match s with 1%nat => Some 1000 | _ => None end;
  DTLSv1_handle_timeout := fun s => SslRet (0, s);
  SSL_export_keying_material := fun _ len _ => Some (repeat x07 len);
  SSL_get_selected_srtp_profile := fun _ => Some kSrtpAes128CmSha1_80;
  EVP_MD_size := fun _ => 32%nat;
  X509_digest := fun _ cert => if cert =? 9 then repeat x09 32 else [];
|}.

#[local] Existing Instance toy_srtp.
#[local] Existing Instance toy_dtls.
#[local] Existing Instance toy_openssl.

(** The stream with the given datagrams waiting. *)
Definition toy_stream (packets : list bytes) : media :=
  upd_d_downward (fun _ => Some (mkStream packets SS_OPEN)) (new_media true toy_global).

Definition example_digest : bytes := repeat x09 32.

(** The engine of a DTLS transport is set up, and the peer's hello arrives. *)
Definition example_setup : list (ssl_input (D := media)) :=
  [SaSetRole SSL_SERVER; SaSetMode SSL_MODE_DTLS; SaSetSuites srtp_ciphers].
Definition example_hello : list (ssl_input (D := media)) :=
  [SaStart; SaStream (toy_stream [str "hello"])].
Definition example_finish : list (ssl_input (D := media)) :=
  [SaStreamEvent SE_READ 0; SaStream (toy_stream [str "finished"])].

Fixpoint ssl_inputs (ins : list (ssl_input (D := media))) (a : adapter media) : option (adapter media) :=
  match ins with
  | [] => Some a
  | i :: ins =>
      if ssl_input_ok i a then match ssl_handle true false i a with Done (_, a') => ssl_inputs ins a' | _ => None end
      else None
  end.

Definition stream_there (i : ssl_input (D := media)) : bool :=
  match i with SaStream d => bool_decide (is_Some (d_downward d)) | _ => true end.

Lemma ssl_inputs_reachable owner ins (a a' : adapter media) :
  ssl_reachable true false owner a -> forallb stream_there ins = true -> ssl_inputs ins a = Some a' ->
  ssl_reachable true false owner a'.
Proof.
  revert a. induction ins as [|i ins IH]; intros a Hr; cbn [ssl_inputs forallb]; [by intros _ [= <-]|].
  intros [Hi Hins]%andb_true_iff. destruct (ssl_input_ok i a) eqn:Eok; [|done].
  destruct (ssl_handle true false i a) as [[r a1]| |] eqn:E; [|done..]. apply IH; [|done].
  eapply ssl_next; [exact Hr| |exact E]. split; [done|]. destruct i; try done. by apply bool_decide_eq_true in Hi.
Qed.

Definition example_run (owner : bool) (ins : list (ssl_input (D := media))) : adapter media :=
  default (new_adapter (toy_stream []) owner) (ssl_inputs ins (new_adapter (toy_stream []) owner)).

Lemma example_run_reachable owner ins :
  forallb stream_there ins && bool_decide (is_Some (ssl_inputs ins (new_adapter (toy_stream []) owner))) = true ->
  ssl_reachable true false owner (example_run owner ins).
Proof.
  intros [Hi [a Ha]%bool_decide_eq_true]%andb_true_iff. unfold example_run. rewrite Ha.
  eapply ssl_inputs_reachable; [|exact Hi|exact Ha]. apply ssl_new. by eexists.
Qed.

(** On a thread that has one, the handshake ends and the engine opens. *)
Definition example_before : adapter media :=
  example_run true (example_setup ++ [SaSetDigest (str "sha-256") example_digest] ++ example_hello ++ example_finish).

Definition example_opened : adapter media :=
  match ssl_handle true false (SaStreamEvent SE_READ 0) example_before with Done (_, a) => a | _ => example_before end.

Lemma ssl_peer_authenticated_witness :
  get_state true example_opened = SS_OPEN /\ authenticated example_opened.
Proof.
  assert (E : get_state true example_opened = SS_OPEN) by (by vm_compute).
  assert (Hr : ssl_reachable true false true example_before) by (apply example_run_reachable; by vm_compute).
  assert (Hi : input_fits (SaStreamEvent SE_READ 0) example_before) by (split; [by vm_compute|done]).
  assert (Hs : ssl_handle true false (SaStreamEvent SE_READ 0) example_before = Done (SR_BLOCK, [], example_opened))
    by (by vm_compute).
  exact (conj E (proj1 (ssl_peer_authenticated false true (SaStreamEvent SE_READ 0) example_before example_opened
    SR_BLOCK [] Hr Hi Hs) E)).
Defined.

(** On one that has none, the peer's hello ends the process. *)
Definition example_second_worker : adapter media :=
  example_run false (example_setup ++ [SaSetDigest (str "sha-256") example_digest] ++ example_hello).

Lemma ssl_adapter_safe_witness :
  ssl_handle true false (SaStreamEvent SE_READ 0) example_second_worker = Undef null_deref /\
  is_Some (sa_ssl example_second_worker).
Proof.
  assert (Hr : ssl_reachable true false false example_second_worker) by (apply example_run_reachable; by vm_compute).
  assert (Hi : input_fits (SaStreamEvent SE_READ 0) example_second_worker) by (split; [by vm_compute|done]).
  split; [by vm_compute|].
  exact (proj2 (proj1 (ssl_adapter_safe true false false (SaStreamEvent SE_READ 0) example_second_worker Hr Hi))
    (or_introl (eq_refl SSL_CONNECTING))).
Defined.

(** The answer comes after the handshake. *)
Definition example_late : adapter media :=
  example_run true (example_setup ++ example_hello ++ example_finish ++ [SaStreamEvent SE_READ 0]).

Lemma engine_needs_thread_witness :
  match set_peer_certificate_digest (str "sha-256") example_digest example_late with
  | Done (r, a') => r = (true, NONE) /\ sa_out a' = [SaPresented 9]
  | _ => False
  end.
Proof.
  assert (Hr : ssl_reachable true false true example_late) by (apply example_run_reachable; by vm_compute).
  destruct (engine_needs_thread true false true example_late Hr) as [_ Hlate].
  specialize (Hlate (str "sha-256") example_digest 9 ltac:(by vm_compute) ltac:(by vm_compute) ltac:(by vm_compute)
    ltac:(by vm_compute) ltac:(done) ltac:(done)).
  destruct (set_peer_certificate_digest _ _ _) as [[r a']|e|u]; [|done|].
  - destruct Hlate as (-> & _ & -> & _). split; [done|by vm_compute].
  - by destruct Hlate as [_ [=]].
Defined.
